(* ===== verification/_CoqProject ===== *)
-Q . S2P
Prelude.v
Sha256.v
GoStr.v
Json.v
Paths.v
Ledger.v
Config.v
Authz.v
Origin.v
Registry.v
Event.v
Engine.v
EngineTrace.v
Completeness.v
RunAudit.v
Tree.v
Attest.v
Grants.v
Credentials.v
Doors.v
Gateway.v
GatewayRun.v
ControlRecord.v
Manifest.v
Segments.v
SegmentSet.v
SegmentSound.v
SegmentOps.v
ControlLedger.v
ControlHistory.v
Artifact.v
Restore.v
RestoreSound.v
Rebuilt.v
Snapshot.v
SnapshotSound.v
Times.v
Signed.v
Utf8.v
Rekor.v
AnchorVerify.v
Sidecar.v
Timeline.v
Render.v
Vouch.v
Signing.v
Identity.v
Integrity.v
Apply.v
ApplySound.v
AnchorCmd.v
Keygen.v
Prune.v
Minting.v
Sink.v
SigV4.v
S3Store.v
SinkCmd.v
SealCmd.v
