(* ===== verification/Prelude.v ===== *)
(** * Agenthof: a verification development

    Agenthof runs AI agents for people and keeps a ledger of what they did.  A
    request is admitted against a configuration of roles, workflows and agents;
    the engine walks the workflow's steps; while a step executes, its agent
    reaches models, tools, commands and sub-agents only through a gateway that
    authorizes each call and records it; the run's events form a hash-chained
    file that an auditor verifies and judges complete.  Changes to the
    governance itself are recorded in a second ledger, the control ledger,
    which is cut into sealed segments that are copied to a write-once store.
    The configuration itself is installed as a snapshot named by its hash: an
    apply, a kill switch and a vouch are the only writers, each recorded in the
    control ledger, and a run executes a configuration only after the ledger,
    and a pinned signature where there is one, vouch for it.

    ** The parts and their files

    Foundations, of Go and its standard library, as far as the sources use
    them: this file (results, the [let!] and [guard!] notations, machine
    integers, tactics, the shared list lemmas), [Sha256] (executable FIPS
    180-4), [GoStr] (strings, UTF-8, decimal numbers), [Json] (parse, print,
    the round trip, struct decoding), [Paths] (filepath).

    The run ledger and the audit.
    - [Ledger]: internal/ledger.  [loadChain], [Append], [Open], [Create],
      [Resume] on bytes.  [loadChain] refines an abstract chain; a head commits
      to its history; an append can be read back; a partial one is seen as torn.
    - [Event], [Engine], [EngineTrace]: internal/engine.  The event and its JSON
      form; admission, the run's loop with bounces and limits, [RecordRefused];
      the grammar of what a run records.  A world with classes of operations
      stands for the executor, the gateway, the clock and the disk.
    - [Completeness], [Tree]: internal/completeness.  [Check] decides the
      grammar; [VerifyTree] over delegated runs is total and exit code 0 means a
      closed tree.
    - [RunAudit]: the composition.  A run over a gateway that keeps its contract
      leaves a file that verifies, decodes to the recorded events and is
      complete.

    Configuration and authorization: [Config] (internal/config/types.go,
    internal/identity), [Authz] (internal/authz), [Origin] (internal/origin),
    [Registry] (internal/registry: [Build] and the whole of [Validate]).

    The run gateway, internal/rungateway.
    - [Grants]: from grants to mirrored tools; a started gateway exposes exactly
      what the grants permit, and a validated agent starts.
    - [Attest], [Doors]: the four doors as functions from a request and what the
      other side answers to the event recorded and the answer given.
    - [Gateway]: admission, [Start] and [Stop] as a transition system of
      concurrent calls, invariants by induction over its actions: every counted
      call is recorded once, the spawn caps hold, [Stop] returns.
    - [GatewayRun]: the gateway discharges the contract of [RunAudit].
    - [Credentials]: internal/broker/broker.go, internal/gateway/resolve.go and
      the outbound leg: whose credential leaves, and to where.  [Minting]: the
      brokers that mint and exchange tokens, with their caches: a token served
      is the invoker's own and not stale.

    The control ledger, internal/control.
    - [ControlRecord]: the record and its JSON form, the permits of [Append],
      the anchors' verdicts, the taint.
    - [Manifest], [Segments]: the manifest and the segment set on a directory of
      names and inodes; [Read], [Append], [SealActive], [CompleteSeal] and
      [Repair], every fallible step's outcome an argument.
    - [SegmentSet]: what a directory means ([repr]) and that [Read] returns it;
      [SegmentSound]: what a clean read of any directory establishes;
      [SegmentOps], [ControlLedger]: every operation, on every branch, refines
      that meaning; [ControlHistory]: what a reader is promised, over any
      interleaving of operations, and of the phases of a repair, that decide on
      stale walks.
    - [Restore]: restoring a segment, or the whole set, from the store;
      [RestoreSound]: what is brought back is what the chain commits to, and the
      rounds end; [Rebuilt]: a ledger whose directory is lost is rebuilt from
      the store.

    The protected copies, internal/sink and cmd/agenthof.
    - [Sink]: sink.go and store.go: [Prepare], [Put] with its read-back, the
      listings and reads over the interface [ObjectStore]; [LockedBucket] states
      what a versioned bucket with Object Lock promises while others write, and
      against it a confirmed copy stands until its lock ends.
    - [SigV4]: sigv4.go, executable down to the digest: a canonical request
      determines the request.  [S3Store]: s3.go and xml.go, the five operations
      as signed requests: a listing is whole or fails.
    - [SinkCmd]: cmd/agenthof/sink.go: the sink a posture names; each verdict of
      [audit verify control] on a copy stands on a fact of the bucket.
      [SealCmd]: seal.go: only an authorized caller seals, and what is sealed
      with a sink is protected.

    The installed configuration, internal/config and cmd/agenthof.
    - [Snapshot]: load.go, hash.go, bundle.go, installed.go.  The enumeration of
      a directory, its canonical hash, bundles, the store with its staging and
      its pointer, the verified loads.  [SnapshotSound]: the hash commits, a
      bundle is its directory, an install is atomic, what loads is what was
      installed.
    - [Times], [Signed]: time.Time as far as it is signed; signature.go,
      signaturefile.go, verifyfloor.go.  The formats read back exactly, and a
      payload determines the install.
    - [Vouch]: verify.go, installed.go and main.go's [resolveRunConfig]: the
      execution read is characterised, and a floor stops rollbacks.
    - [Signing]: signing.go and pull.go: what is signed is accepted and served,
      and only what is vouched for is served.  [Keygen]: the signing pair is
      made whole and never replaced; the warning at startup.
    - [Identity]: internal/identity and cmd/agenthof/identity.go: whose name a
      command runs under.  [Integrity]: integrity.go of both: the root's
      posture, which fails closed.
    - [Apply], [ApplySound]: apply.go, config_vouch.go, main.go's [cmdApply] and
      kill switch, registry.SetEnabled: the writers, what guards them, and that
      what an apply installs the next run executes.

    Anchors and the investigation.
    - [Utf8]: the texts JSON decoding yields are valid UTF-8, lower case.
    - [Rekor]: internal/anchor: the log key, the wire shapes, the check of a
      stored proof, [Submit] and [Verify] of the transparency log's client.  A
      receipt that was returned verifies for ever after.
    - [AnchorVerify]: internal/anchorverify: the ladder of verdicts; a log entry
      admits one history of the control ledger.
    - [Sidecar]: internal/sidecar: the proof file beside a run's ledger, its
      check, verdicts and exit codes; what was appended is read back, and a
      verified anchor pins the whole run.
    - [AnchorCmd]: cmd/agenthof/anchor.go and anchor_runs.go: what guards an
      anchoring, the sweep over finished runs, and that what was anchored is
      verified afterwards.
    - [Timeline], [Render]: internal/investigate and the lines of
      internal/sidecar: the merged timeline drops no evidence; exit codes and
      the printed text.

    [Artifact]: internal/artifact, bodies stored by digest.  [Prune]: main.go's
    [runs prune]: retention takes whole delegation trees, under the guards of a
    control command.

    ** How the code is modelled

    A Go function that returns an error is a function to [result]; an error is
    its cause, its text is left out.  Code that changes a file, a directory or a
    gateway returns the new state.  What a system call, an upstream, a clock or
    a random source answers is an argument, so a theorem holds whatever they
    answer unless a hypothesis says otherwise.  A crash is the failure of the
    step it precedes.  Third-party and unreadable code is a class parameter:
    unicode.IsPrint and strconv.Quote ([GoText]), url.Parse, the MCP library's
    results, http.StatusText, yaml.v3 ([ConfigYaml], [FlagYaml],
    [IntegrityYaml]), Ed25519, go-oidc ([OidcLib]), unicode.ToLower beyond
    ASCII ([GoLower]), and sumdb/note, the Merkle proofs, ECDSA, PEM, PKIX and
    URL.String ([LogLibs]), XML decoding, MD5 and time.Parse ([StoreLibs]).  No theorem assumes that SHA-256 is injective:
    where a collision would matter, the theorem exhibits it.  Machine integers
    are integers with their bounds; wrap-around is written out where the code
    can reach it ([wrap64] in [Event], [wrapu64] here).

    ** Bounds and fuel

    Recursion that is not structural takes fuel, and each use is shown to have
    enough: [run_fuel] (one more than the sum of the steps' bounce caps, times
    the number of steps; [Engine.run_total]), the spawn search (the number of
    unvisited agents), [tree_fuel] (the number of run ids in reach;
    [Tree.verify_tree_total]), [json_fuel] (twice the length of the text, in
    the round trip), the restore's rounds (one more than a manifest lists;
    [RestoreSound.restore_ends]), the gateway's drain (the calls in flight), the
    walk up a run's parents (two more than the parents known;
    [Timeline.select_spec]).
    The attempts for a fresh file name and the pages of a listing are the code's
    own 1000.

    ** Not modelled

    Flag parsing, printed lines and the commands of cmd/agenthof that are not
    named above; the HTTP API and its client (internal/serve,
    internal/apiclient); the HTTP clients of the model gateway's admin API and
    of the supervisor (internal/gateway's provisioning, internal/refspawn); PEM
    coding of key files; the JSON form of the investigation and the audit's
    lines (internal/investigate's [RenderJSON], internal/audit); process
    confinement (deploy), which acts on the operating system; log lines for operators; the environment hooks by which tests end a
    command early; symbolic links of the control ledger's path.

    ** Plan

    What is left, by weight: the command that restores; the serve handlers that
    decide admission; provisioning against the model gateway; the runtime
    adapter.  The confiners emit profiles for the operating system's sandbox, and a model of
    them would need one of the sandbox. *)
From stdpp Require Export base gmap strings list fin_maps sorting.
From Stdlib Require Export ZArith Lia Ascii.

(** The development's own notations live in this scope. *)
Declare Scope go_scope.
Delimit Scope go_scope with go.
Open Scope Z_scope.
Open Scope go_scope.

(** ** Fallible code

    A Go function returning [(T, error)] is a [result E T]: [Err e] is a
    non-nil error (the caller reads nothing else), [Ok x] a nil one. *)
Inductive result (E A : Type) : Type :=
  | Ok (a : A)
  | Err (e : E).
Arguments Ok {E A} a.
Arguments Err {E A} e.

Definition result_bind {E A B : Type} (c : result E A) (k : A -> result E B) : result E B :=
  match c with
  | Ok a => k a
  | Err e => Err e
  end.

Definition is_ok {E A : Type} (c : result E A) : bool :=
  match c with Ok _ => true | Err _ => false end.

Notation "'let!' x ':=' c 'in' k" := (result_bind c (fun x => k))
  (at level 10, x pattern, k at level 200) : go_scope.
Notation "'guard!' b 'else' e 'in' k" := (if b then k else Err e)
  (at level 10, k at level 200) : go_scope.

(** Go's [*T] where only presence and value matter. *)
Abbreviation ptr := option.

(** ** Machine integers

    A Go [int] and [int64] are 64-bit two's complement with the bounds below; a
    [uint64] is taken modulo [2^64] by [wrapu64]. *)
Definition two64 : Z := 2 ^ 64.
Definition wrapu64 (z : Z) : Z := z mod two64.
Definition max_int64 : Z := 2 ^ 63 - 1.
Definition min_int64 : Z := - 2 ^ 63.

Lemma wrapu64_small z : 0 <= z < two64 -> wrapu64 z = z.
Proof. intros. by apply Z.mod_small. Qed.

(** ** Tactics *)

(** Case analysis on every [match]/[if] scrutinee of the goal, keeping the
    equation, closing the branches that are immediate. *)
Ltac case_all :=
  repeat match goal with
         | |- context [match ?x with _ => _ end] => destruct x eqn:?; simplify_eq/=; try done
         end.

(** The same on a hypothesis. *)
Ltac case_in H :=
  repeat match type of H with
         | context [match ?x with _ => _ end] => destruct x eqn:?; simplify_eq/=; try done
         end.

(** Reflect the boolean tests of the code into propositions. *)
Ltac bool_prop :=
  repeat match goal with
         | H : _ && _ = true |- _ => apply andb_prop in H as [? ?]
         | H : _ || _ = false |- _ => apply orb_false_iff in H as [? ?]
         | H : negb _ = true |- _ => apply negb_true_iff in H
         | H : negb _ = false |- _ => apply negb_false_iff in H
         | H : bool_decide _ = true |- _ => apply bool_decide_eq_true in H
         | H : bool_decide _ = false |- _ => apply bool_decide_eq_false in H
         | H : (_ =? _) = true |- _ => apply Z.eqb_eq in H
         | H : (_ =? _) = false |- _ => apply Z.eqb_neq in H
         | H : (_ <? _) = true |- _ => apply Z.ltb_lt in H
         | H : (_ <? _) = false |- _ => apply Z.ltb_ge in H
         | H : (_ <=? _) = true |- _ => apply Z.leb_le in H
         | H : (_ <=? _) = false |- _ => apply Z.leb_gt in H
         end.

Create HintDb go discriminated.

(** ** Lists of strings: [slices.Contains], [slices.Equal] *)
Definition contains (l : list string) (x : string) : bool := bool_decide (x ∈ l).

Lemma contains_true l x : contains l x = true <-> x ∈ l.
Proof. apply bool_decide_eq_true. Qed.
Lemma contains_false l x : contains l x = false <-> x ∉ l.
Proof. apply bool_decide_eq_false. Qed.

(** [last] element and generic list facts shared by the components. *)
Lemma last_app_singleton {A} (l : list A) x : last (l ++ [x]) = Some x.
Proof. apply last_snoc. Qed.

Lemma filter_all {A} (P : A -> Prop) `{forall x, Decision (P x)} (l : list A) :
  Forall P l -> filter P l = l.
Proof. induction 1 as [|x l Hx _ IH]; [done|]. rewrite filter_cons, decide_True by done. by rewrite IH. Qed.

Lemma filter_none {A} (P : A -> Prop) `{forall x, Decision (P x)} (l : list A) :
  Forall (fun x => ~ P x) l -> filter P l = [].
Proof. induction 1 as [|x l Hx _ IH]; [done|]. by rewrite filter_cons, decide_False. Qed.

Fixpoint sum_nat (l : list nat) : nat :=
  match l with
  | [] => 0
  | x :: r => (x + sum_nat r)%nat
  end.

Lemma sum_nat_app l1 l2 : sum_nat (l1 ++ l2) = (sum_nat l1 + sum_nat l2)%nat.
Proof. induction l1; simpl; lia. Qed.
