(* ===== verification/Sha256.v ===== *)
(** * SHA-256 and lowercase hex

    The two standard-library packages the ledger's chain rests on:
    [crypto/sha256] ([sha256.Sum256], FIPS 180-4) and [encoding/hex]
    ([hex.EncodeToString]).  [sha256_hex] is the composition every component
    writes as [hex.EncodeToString(sum[:])].  The definition is executable, so
    ledgers are evaluated with their real hashes; no theorem assumes that the
    function is injective: where two different inputs with the same digest
    would matter, the theorem returns that pair. *)
From S2P Require Import Prelude.

(** A Go [byte] as a number, and back. *)
Definition byte_val (c : ascii) : Z := Z.of_N (N_of_ascii c).
Definition byte_of (z : Z) : ascii := ascii_of_N (Z.to_N z).

Fixpoint bytes_of_string (s : string) : list Z :=
  match s with
  | EmptyString => []
  | String c r => byte_val c :: bytes_of_string r
  end.

Module Sha256.

Definition mask32 : Z := 2 ^ 32 - 1.
Definition add32 (x y : Z) : Z := Z.land (x + y) mask32.
Definition not32 (x : Z) : Z := Z.lxor x mask32.
Definition rotr (n x : Z) : Z :=
  Z.lor (Z.shiftr x n) (Z.land (Z.shiftl x (32 - n)) mask32).
Definition xor3 (a b c : Z) : Z := Z.lxor a (Z.lxor b c).

Definition bsig0 x := xor3 (rotr 2 x) (rotr 13 x) (rotr 22 x).
Definition bsig1 x := xor3 (rotr 6 x) (rotr 11 x) (rotr 25 x).
Definition ssig0 x := xor3 (rotr 7 x) (rotr 18 x) (Z.shiftr x 3).
Definition ssig1 x := xor3 (rotr 17 x) (rotr 19 x) (Z.shiftr x 10).
Definition ch e f g := Z.lxor (Z.land e f) (Z.land (not32 e) g).
Definition maj a b c := xor3 (Z.land a b) (Z.land a c) (Z.land b c).

(** The round constants are the first 32 bits of the fractional parts of the
    cube roots of the first 64 primes, the initial state those of the square
    roots of the first 8. *)
Definition is_prime (n : nat) : bool :=
  (2 <=? n)%nat && List.forallb (fun d => negb (Nat.eqb (Nat.modulo n d) 0)) (seq 2 (n - 2)).
Definition primes : list Z := map Z.of_nat (List.filter is_prime (seq 0 312)).

(** The integer [k]-th root of [n], bit by bit. *)
Fixpoint int_root (k n : Z) (bits : nat) (x : Z) : Z :=
  match bits with
  | O => x
  | S b => let y := x + 2 ^ Z.of_nat b in int_root k n b (if y ^ k <=? n then y else x)
  end.
Definition root_frac32 (k p : Z) : Z := Z.land (int_root k (p * 2 ^ (32 * k)) 40 0) mask32.

Definition k_words : list Z := Eval vm_compute in map (root_frac32 3) primes.
Definition h_words : list Z := Eval vm_compute in map (root_frac32 2) (take 8 primes).

Record hstate : Type := HS { ha : Z; hb : Z; hc : Z; hd : Z; he : Z; hf : Z; hg : Z; hh : Z }.

Definition h_init : hstate :=
  match h_words with
  | [a; b; c; d; e; f; g; h] => HS a b c d e f g h
  | _ => HS 0 0 0 0 0 0 0 0
  end.

Definition round (s : hstate) (kw : Z * Z) : hstate :=
  let t1 := add32 (add32 (add32 (hh s) (bsig1 (he s))) (ch (he s) (hf s) (hg s))) (add32 kw.1 kw.2) in
  let t2 := add32 (bsig0 (ha s)) (maj (ha s) (hb s) (hc s)) in
  HS (add32 t1 t2) (ha s) (hb s) (hc s) (add32 (hd s) t1) (he s) (hf s) (hg s).

(** The message schedule, newest word first: [w] holds W(t-1), W(t-2), ... *)
Fixpoint schedule (n : nat) (w : list Z) : list Z :=
  match n with
  | O => w
  | S n' =>
      let wt := add32 (add32 (ssig1 (nth 1 w 0)) (nth 6 w 0))
                      (add32 (ssig0 (nth 14 w 0)) (nth 15 w 0)) in
      schedule n' (wt :: w)
  end.

Definition compress (s : hstate) (block : list Z) : hstate :=
  let w := rev (schedule 48 (rev block)) in
  let s' := foldl round s (zip k_words w) in
  HS (add32 (ha s) (ha s')) (add32 (hb s) (hb s')) (add32 (hc s) (hc s')) (add32 (hd s) (hd s'))
     (add32 (he s) (he s')) (add32 (hf s) (hf s')) (add32 (hg s) (hg s')) (add32 (hh s) (hh s')).

Fixpoint words (n : nat) (bs : list Z) : list Z :=
  match n, bs with
  | S n', b0 :: b1 :: b2 :: b3 :: r => (((b0 * 256 + b1) * 256 + b2) * 256 + b3) :: words n' r
  | _, _ => []
  end.

Definition be64 (z : Z) : list Z :=
  [Z.land (Z.shiftr z 56) 255; Z.land (Z.shiftr z 48) 255; Z.land (Z.shiftr z 40) 255;
   Z.land (Z.shiftr z 32) 255; Z.land (Z.shiftr z 24) 255; Z.land (Z.shiftr z 16) 255;
   Z.land (Z.shiftr z 8) 255; Z.land z 255].

(** Append the bit '1', zeros up to 56 modulo 64 bytes, and the bit length. *)
Definition pad (m : list Z) : list Z :=
  let n := Z.of_nat (length m) in
  m ++ 128 :: replicate (Z.to_nat ((55 - n) mod 64)) 0 ++ be64 (8 * n).

Fixpoint blocks (fuel : nat) (s : hstate) (m : list Z) : hstate :=
  match fuel, m with
  | S f, _ :: _ => blocks f (compress s (words 16 m)) (drop 64 m)
  | _, _ => s
  end.

Definition digest (m : list Z) : hstate :=
  let p := pad m in blocks (length p) h_init p.

End Sha256.

(** ** [encoding/hex] *)
Definition hex_digit (n : Z) : ascii :=
  let d := n mod 16 in
  byte_of (if d <? 10 then 48 + d else 87 + d).

Definition hex_word (w : Z) (tail : string) : string :=
  String (hex_digit (Z.shiftr w 28)) (String (hex_digit (Z.shiftr w 24))
  (String (hex_digit (Z.shiftr w 20)) (String (hex_digit (Z.shiftr w 16))
  (String (hex_digit (Z.shiftr w 12)) (String (hex_digit (Z.shiftr w 8))
  (String (hex_digit (Z.shiftr w 4)) (String (hex_digit w) tail))))))).

(** [hex.EncodeToString(sha256.Sum256(b))]. *)
Definition sha256_hex (s : string) : string :=
  let d := Sha256.digest (bytes_of_string s) in
  hex_word (Sha256.ha d) (hex_word (Sha256.hb d) (hex_word (Sha256.hc d) (hex_word (Sha256.hd d)
  (hex_word (Sha256.he d) (hex_word (Sha256.hf d) (hex_word (Sha256.hg d) (hex_word (Sha256.hh d) ""))))))).

(** [hex.EncodeToString] *)
Fixpoint hex_encode (s : string) : string :=
  match s with
  | EmptyString => ""
  | String c r => String (hex_digit (Z.shiftr (byte_val c) 4)) (String (hex_digit (byte_val c)) (hex_encode r))
  end.

(** [sha256.Sum256], the 32 bytes themselves. *)
Definition word_bytes (w : Z) (tail : string) : string :=
  String (byte_of (Z.shiftr w 24 mod 256)) (String (byte_of (Z.shiftr w 16 mod 256))
  (String (byte_of (Z.shiftr w 8 mod 256)) (String (byte_of (w mod 256)) tail))).
Definition sha256_sum (s : string) : string :=
  let d := Sha256.digest (bytes_of_string s) in
  word_bytes (Sha256.ha d) (word_bytes (Sha256.hb d) (word_bytes (Sha256.hc d) (word_bytes (Sha256.hd d)
  (word_bytes (Sha256.he d) (word_bytes (Sha256.hf d) (word_bytes (Sha256.hg d) (word_bytes (Sha256.hh d) ""))))))).

(** [[0-9a-f]{n}], the shape of the regular expressions [anchorHashRE],
    [genesisLogIDRE] and of an artifact name. *)
Definition is_lower_hex (c : ascii) : bool :=
  let v := byte_val c in ((48 <=? v) && (v <=? 57)) || ((97 <=? v) && (v <=? 102)).

Fixpoint all_chars (p : ascii -> bool) (s : string) : bool :=
  match s with
  | EmptyString => true
  | String c r => p c && all_chars p r
  end.

Definition lower_hex_of_len (n : nat) (s : string) : bool :=
  Nat.eqb (String.length s) n && all_chars is_lower_hex s.

(** FIPS 180-4 test vectors. *)
Example sha256_empty :
  sha256_hex "" = "e3b0c44298fc1c149afbf4c8996fb92427ae41e4649b934ca495991b7852b855"%string.
Proof. vm_compute. reflexivity. Qed.

Example sha256_abc :
  sha256_hex "abc" = "ba7816bf8f01cfea414140de5dae2223b00361a396177a9cb410ff61f20015ad"%string.
Proof. vm_compute. reflexivity. Qed.

Example sha256_two_blocks :
  sha256_hex "abcdbcdecdefdefgefghfghighijhijkijkljklmklmnlmnomnopnopq"
  = "248d6a61d20638b8e5c026930c3e6039a33ce45964ff2167f6ecedd419db06c1"%string.
Proof. vm_compute. reflexivity. Qed.

(** ** Facts *)
Lemma byte_val_range c : 0 <= byte_val c < 256.
Proof. unfold byte_val. pose proof (N_ascii_bounded c). lia. Qed.

Lemma byte_of_val c : byte_of (byte_val c) = c.
Proof. unfold byte_of, byte_val. by rewrite N2Z.id, ascii_N_embedding. Qed.

Lemma byte_val_of z : 0 <= z < 256 -> byte_val (byte_of z) = z.
Proof. intros. unfold byte_of, byte_val. rewrite N_ascii_embedding; lia. Qed.

Lemma byte_val_inj a b : byte_val a = byte_val b -> a = b.
Proof. intros H. by rewrite <- (byte_of_val a), H, byte_of_val. Qed.

Lemma hex_digit_lower n : is_lower_hex (hex_digit n) = true.
Proof.
  unfold is_lower_hex, hex_digit. pose proof (Z.mod_pos_bound n 16).
  destruct (n mod 16 <? 10) eqn:E; bool_prop; rewrite byte_val_of by lia;
    apply orb_true_iff; [left|right]; apply andb_true_iff; split; apply Z.leb_le; lia.
Qed.

Lemma hex_word_chars w t : all_chars is_lower_hex (hex_word w t) = all_chars is_lower_hex t.
Proof. unfold hex_word. cbn [all_chars]. by rewrite !hex_digit_lower. Qed.

(** Every digest has the shape the control plane's regular expressions ask
    for: exactly 64 lowercase hex characters. *)
Lemma sha256_hex_shape s : lower_hex_of_len 64 (sha256_hex s) = true.
Proof.
  unfold lower_hex_of_len, sha256_hex. by rewrite !hex_word_chars.
Qed.

Lemma sha256_hex_nonempty s : sha256_hex s <> EmptyString.
Proof. done. Qed.

(** The hex form is the hex of the bytes. *)
Lemma hex_digit_mod m n : m mod 16 = n mod 16 -> hex_digit m = hex_digit n.
Proof. unfold hex_digit. by intros ->. Qed.

Lemma hex_encode_word w t : hex_encode (word_bytes w t) = hex_word w (hex_encode t).
Proof.
  unfold word_bytes, hex_word. cbn [hex_encode]. rewrite !byte_val_of by (apply Z.mod_pos_bound; lia). rewrite !Z.shiftr_div_pow2 by lia.
  change (2 ^ 4) with 16; change (2 ^ 8) with 256; change (2 ^ 12) with 4096; change (2 ^ 16) with 65536;
    change (2 ^ 20) with 1048576; change (2 ^ 24) with 16777216; change (2 ^ 28) with 268435456.
  do 8 (apply (f_equal2 String); [apply hex_digit_mod; Z.to_euclidean_division_equations; lia|]). done.
Qed.

Lemma hex_encode_sum s : hex_encode (sha256_sum s) = sha256_hex s.
Proof. unfold sha256_sum, sha256_hex. by rewrite !hex_encode_word. Qed.

Lemma sha256_sum_length s : String.length (sha256_sum s) = 32%nat.
Proof. done. Qed.

(** Equal bytes are equal digests. *)
Lemma sum_hex s t : sha256_sum s = sha256_sum t -> sha256_hex s = sha256_hex t.
Proof. intros E. by rewrite <- !hex_encode_sum, E. Qed.

(** Unfolded last by conversion, never by simplification. *)
#[global] Strategy 1000 [sha256_hex sha256_sum].
#[global] Arguments sha256_sum : simpl never.
#[global] Arguments sha256_hex : simpl never.
