(* ===== verification/GoStr.v ===== *)
(** * Go strings

    A Go [string] and a Go [[]byte] are both byte sequences, here Rocq's
    [string].  This file models what the sources use of the packages
    [strings], [strconv] and [unicode/utf8]: prefixes, splitting and joining,
    decimal integers and UTF-8 runes. *)
From S2P Require Import Prelude Sha256.

(** Tables and formatting of the Go distribution: [unicode.IsPrint] and
    [strconv.Quote] ([%q]). *)
Class GoText := { is_print : Z -> bool; quote : string -> string }.

(** ** Bytes and concatenation *)
Definition ascii_eqb (a b : ascii) : bool := bool_decide (a = b).

Definition newline : ascii := "010"%char.
Definition nul : ascii := "000"%char.

Lemma app_cons_str c (s t : string) : String c s +:+ t = String c (s +:+ t).
Proof. done. Qed.

Lemma app_nil_str (s : string) : s +:+ "" = s.
Proof. induction s; [done|]. rewrite app_cons_str. congruence. Qed.

Lemma app_assoc_str (s t u : string) : (s +:+ t) +:+ u = s +:+ (t +:+ u).
Proof. induction s; [done|]. rewrite !app_cons_str. congruence. Qed.

Lemma length_app_str (s t : string) : String.length (s +:+ t) = (String.length s + String.length t)%nat.
Proof. induction s; [done|]. rewrite app_cons_str. simpl. congruence. Qed.

(** ** [strings.HasPrefix], [CutPrefix], [TrimPrefix], [HasSuffix], [Contains] *)
Fixpoint cut_prefix (p s : string) : option string :=
  match p, s with
  | EmptyString, _ => Some s
  | String a p', String b s' => if ascii_eqb a b then cut_prefix p' s' else None
  | String _ _, EmptyString => None
  end.

Definition has_prefix (s p : string) : bool :=
  match cut_prefix p s with Some _ => true | None => false end.

Definition trim_prefix (s p : string) : string :=
  match cut_prefix p s with Some r => r | None => s end.

Fixpoint rev_append_str (s acc : string) : string :=
  match s with
  | EmptyString => acc
  | String c r => rev_append_str r (String c acc)
  end.

Definition rev_str (s : string) : string := rev_append_str s "".

Definition has_suffix (s p : string) : bool := has_prefix (rev_str s) (rev_str p).
Definition trim_suffix (s p : string) : string := rev_str (trim_prefix (rev_str s) (rev_str p)).

Fixpoint str_contains (s sub : string) : bool :=
  has_prefix s sub ||
  match s with
  | EmptyString => false
  | String _ r => str_contains r sub
  end.

Fixpoint has_byte (c : ascii) (s : string) : bool :=
  match s with
  | EmptyString => false
  | String d r => ascii_eqb c d || has_byte c r
  end.

(** [strings.Split] on a one-byte separator, [strings.Join]. *)
Fixpoint split_on (c : ascii) (s : string) : list string :=
  match s with
  | EmptyString => [""]
  | String d r =>
      if ascii_eqb c d then "" :: split_on c r
      else match split_on c r with
           | [] => [String d ""]
           | w :: ws => String d w :: ws
           end
  end.

Fixpoint join (sep : string) (l : list string) : string :=
  match l with
  | [] => ""
  | [x] => x
  | x :: r => x +:+ sep +:+ join sep r
  end.

(** ** Decimal integers ([strconv.Itoa], [ParseInt], [ParseUint]) *)
Definition digit_char (d : N) : ascii := ascii_of_N (48 + d).

Fixpoint dec_digits (fuel : nat) (n : N) (acc : string) : string :=
  match fuel with
  | O => acc
  | S f =>
      let acc' := String (digit_char (n mod 10)) acc in
      if (n / 10 =? 0)%N then acc' else dec_digits f (n / 10) acc'
  end.

Definition dec_N (n : N) : string := dec_digits (S (N.size_nat n)) n "".

Definition itoa (z : Z) : string :=
  if z <? 0 then String "-" (dec_N (Z.abs_N z)) else dec_N (Z.to_N z).

Definition digit_val (c : ascii) : option N :=
  let v := N_of_ascii c in
  if ((48 <=? v) && (v <=? 57))%N then Some (v - 48)%N else None.

Fixpoint dec_value (s : string) (acc : N) : option N :=
  match s with
  | EmptyString => Some acc
  | String c r =>
      match digit_val c with
      | Some d => dec_value r (acc * 10 + d)%N
      | None => None
      end
  end.

Definition parse_N (s : string) : option N :=
  match s with EmptyString => None | _ => dec_value s 0 end.

(** [strconv.ParseUint(s, 10, 64)] *)
Definition parse_uint64 (s : string) : option Z :=
  match parse_N s with
  | Some n => if Z.of_N n <? two64 then Some (Z.of_N n) else None
  | None => None
  end.

(** [strconv.ParseInt(s, 10, 64)] *)
Definition parse_int64 (s : string) : option Z :=
  match s with
  | String "-" r =>
      match parse_N r with
      | Some n => if (min_int64 <=? - Z.of_N n) then Some (- Z.of_N n) else None
      | None => None
      end
  | _ =>
      match parse_N s with
      | Some n => if (Z.of_N n <=? max_int64) then Some (Z.of_N n) else None
      | None => None
      end
  end.

(** ** UTF-8 ([utf8.DecodeRuneInString])

    [utf8_size c r] is the length of the valid encoding that starts at byte
    [c] followed by [r], or 0 when there is none (Go then yields the
    replacement rune and advances by one byte).  The accepted ranges are the
    package's: no overlong form, no surrogate, nothing above U+10FFFF. *)
Definition in_range (lo hi v : Z) : bool := (lo <=? v) && (v <=? hi).
Definition cont_byte (c : ascii) : bool := in_range 128 191 (byte_val c).

Definition utf8_size (c : ascii) (r : string) : nat :=
  let v := byte_val c in
  if v <? 128 then 1%nat
  else if in_range 194 223 v then
    match r with
    | String c1 _ => if cont_byte c1 then 2%nat else 0%nat
    | _ => 0%nat
    end
  else if in_range 224 239 v then
    match r with
    | String c1 (String c2 _) =>
        let v1 := byte_val c1 in
        let ok1 := if v =? 224 then in_range 160 191 v1
                   else if v =? 237 then in_range 128 159 v1
                   else in_range 128 191 v1 in
        if ok1 && cont_byte c2 then 3%nat else 0%nat
    | _ => 0%nat
    end
  else if in_range 240 244 v then
    match r with
    | String c1 (String c2 (String c3 _)) =>
        let v1 := byte_val c1 in
        let ok1 := if v =? 240 then in_range 144 191 v1
                   else if v =? 244 then in_range 128 143 v1
                   else in_range 128 191 v1 in
        if ok1 && cont_byte c2 && cont_byte c3 then 4%nat else 0%nat
    | _ => 0%nat
    end
  else 0%nat.

(** [utf8.ValidString] *)
Fixpoint valid_utf8 (s : string) : bool :=
  match s with
  | EmptyString => true
  | String c r =>
      match utf8_size c r, r with
      | 1%nat, _ => valid_utf8 r
      | 2%nat, String _ r1 => valid_utf8 r1
      | 3%nat, String _ (String _ r2) => valid_utf8 r2
      | 4%nat, String _ (String _ (String _ r3)) => valid_utf8 r3
      | _, _ => false
      end
  end.

(** [utf8.AppendRune] for a valid rune; anything else encodes U+FFFD. *)
Definition encode_rune (z : Z) : string :=
  let rep := String (byte_of 239) (String (byte_of 191) (String (byte_of 189) "")) in
  if z <? 0 then rep
  else if z <? 128 then String (byte_of z) ""
  else if z <? 2048 then
    String (byte_of (192 + Z.shiftr z 6)) (String (byte_of (128 + Z.land z 63)) "")
  else if in_range 55296 57343 z then rep
  else if z <? 65536 then
    String (byte_of (224 + Z.shiftr z 12))
      (String (byte_of (128 + Z.land (Z.shiftr z 6) 63)) (String (byte_of (128 + Z.land z 63)) ""))
  else if z <=? 1114111 then
    String (byte_of (240 + Z.shiftr z 18))
      (String (byte_of (128 + Z.land (Z.shiftr z 12) 63))
         (String (byte_of (128 + Z.land (Z.shiftr z 6) 63)) (String (byte_of (128 + Z.land z 63)) "")))
  else rep.

(** [string([]rune(s)[:n])]: the first [n] runes, an invalid byte counting as
    one rune and coming back as U+FFFD. *)
Fixpoint take_runes (n : nat) (s : string) : string :=
  match n, s with
  | S n', String c r =>
      match utf8_size c r, r with
      | 1%nat, _ => String c (take_runes n' r)
      | 2%nat, String c1 r1 => String c (String c1 (take_runes n' r1))
      | 3%nat, String c1 (String c2 r2) => String c (String c1 (String c2 (take_runes n' r2)))
      | 4%nat, String c1 (String c2 (String c3 r3)) =>
          String c (String c1 (String c2 (String c3 (take_runes n' r3))))
      | _, _ => encode_rune 65533 +:+ take_runes n' r
      end
  | _, _ => ""
  end.

(** [len([]rune(s))] *)
Fixpoint rune_count (s : string) : nat :=
  match s with
  | EmptyString => 0
  | String c r =>
      match utf8_size c r, r with
      | 2%nat, String _ r1 => S (rune_count r1)
      | 3%nat, String _ (String _ r2) => S (rune_count r2)
      | 4%nat, String _ (String _ (String _ r3)) => S (rune_count r3)
      | _, _ => S (rune_count r)
      end
  end.

(** ** Facts *)
Lemma ascii_eqb_true a b : ascii_eqb a b = true <-> a = b.
Proof. apply bool_decide_eq_true. Qed.
Lemma ascii_eqb_refl a : ascii_eqb a a = true.
Proof. by apply ascii_eqb_true. Qed.
Lemma ascii_eqb_false a b : ascii_eqb a b = false <-> a <> b.
Proof. apply bool_decide_eq_false. Qed.

Lemma cut_prefix_app p s : cut_prefix p (p +:+ s) = Some s.
Proof. induction p; [done|]. rewrite app_cons_str. simpl. by rewrite ascii_eqb_refl. Qed.

Lemma cut_prefix_Some p s r : cut_prefix p s = Some r <-> s = p +:+ r.
Proof.
  split; [|intros ->; apply cut_prefix_app].
  revert s; induction p as [|a p IH]; intros s H; [by simplify_eq/=|].
  destruct s as [|b s]; [done|]. simpl in H.
  destruct (ascii_eqb a b) eqn:E; [|done]. apply ascii_eqb_true in E as ->. rewrite app_cons_str. f_equal. eauto.
Qed.

Lemma has_prefix_spec s p : has_prefix s p = true <-> exists r, s = p +:+ r.
Proof.
  unfold has_prefix. split.
  - destruct (cut_prefix p s) eqn:E; [|done]. intros _. apply cut_prefix_Some in E. eauto.
  - intros [r ->]. by rewrite cut_prefix_app.
Qed.

Lemma digit_val_char d : (d < 10)%N -> digit_val (digit_char d) = Some d.
Proof.
  intros H. unfold digit_val, digit_char. rewrite N_ascii_embedding by lia.
  replace ((48 <=? 48 + d) && (48 + d <=? 57))%N with true by
    (symmetry; apply andb_true_iff; split; apply N.leb_le; lia).
  f_equal. lia.
Qed.

Lemma N_size_nat_mono a b : (a <= b)%N -> (N.size_nat a <= N.size_nat b)%nat.
Proof.
  intros H. pose proof (N.size_gt a). pose proof (N.size_gt b).
  assert (Hs : (N.size a <= N.size b)%N).
  { destruct (decide (a = 0)%N) as [->|]; [simpl; lia|].
    rewrite !N.size_log2 by lia. apply N.log2_le_mono in H. lia. }
  assert (forall n, N.of_nat (N.size_nat n) = N.size n) as E.
  { intros [|p]; [done|]. simpl. induction p; simpl in *; lia. }
  rewrite <- !E in Hs. lia.
Qed.

Lemma N_size_div10 n : (n / 10 <> 0)%N -> (S (N.size_nat (n / 10)) <= N.size_nat n)%nat.
Proof.
  intros H.
  assert (Hm : (n / 10 <= n / 2)%N) by (apply N.div_le_compat_l; lia).
  apply N_size_nat_mono in Hm.
  assert (N.size_nat n = S (N.size_nat (n / 2)))%nat; [|lia].
  destruct n as [|[p|p|]]; [done|..]; rewrite <- N.div2_div; done.
Qed.

Lemma dec_digits_value f n acc :
  (N.size_nat n < f)%nat ->
  exists k, forall a, dec_value (dec_digits f n acc) a = dec_value acc (a * 10 ^ k + n)%N.
Proof.
  revert n acc; induction f as [|f IH]; intros n acc Hf; [lia|].
  cbn [dec_digits]. pose proof (N.div_mod n 10). pose proof (N.mod_lt n 10).
  destruct (n / 10 =? 0)%N eqn:E.
  - apply N.eqb_eq in E. exists 1%N. intros a. cbn [dec_value].
    rewrite digit_val_char by lia. f_equal. lia.
  - apply N.eqb_neq in E. pose proof (N_size_div10 n E).
    destruct (IH (n / 10)%N (String (digit_char (n mod 10)) acc)) as [k Hk]; [lia|].
    exists (N.succ k). intros a. rewrite Hk. cbn [dec_value].
    rewrite digit_val_char by lia. f_equal. rewrite N.pow_succ_r'. lia.
Qed.

Lemma dec_digits_cons f n acc : exists c r, dec_digits (S f) n acc = String c r.
Proof.
  revert n acc; induction f as [|f IH]; intros n acc.
  - cbn. destruct (n / 10 =? 0)%N; eauto.
  - remember (S f) as g. cbn [dec_digits]. destruct (n / 10 =? 0)%N; [eauto|].
    subst g. apply IH.
Qed.

Lemma parse_dec_N n : parse_N (dec_N n) = Some n.
Proof.
  unfold parse_N, dec_N. destruct (dec_digits_cons (N.size_nat n) n "") as (c & r & E).
  rewrite E, <- E. destruct (dec_digits_value (S (N.size_nat n)) n "") as [k Hk]; [lia|].
  rewrite Hk. reflexivity.
Qed.

(** The decimal text [itoa] prints parses back. *)
Lemma parse_uint64_itoa z : 0 <= z < two64 -> parse_uint64 (itoa z) = Some z.
Proof.
  intros H. unfold itoa, parse_uint64.
  replace (z <? 0) with false by (symmetry; apply Z.ltb_ge; lia).
  rewrite parse_dec_N, Z2N.id by lia.
  by replace (z <? two64) with true by (symmetry; apply Z.ltb_lt; lia).
Qed.

(** Digits only: what the JSON number scanner must accept after [itoa]. *)
Definition is_digit (c : ascii) : bool := in_range 48 57 (byte_val c).

Lemma digit_char_is_digit d : (d < 10)%N -> is_digit (digit_char d) = true.
Proof.
  intros. unfold is_digit, digit_char, byte_val, in_range. rewrite N_ascii_embedding by lia.
  apply andb_true_iff; split; apply Z.leb_le; lia.
Qed.

Lemma dec_digits_all f n acc :
  all_chars is_digit acc = true -> all_chars is_digit (dec_digits f n acc) = true.
Proof.
  revert n acc; induction f as [|f IH]; intros n acc H; [done|].
  cbn [dec_digits].
  assert (all_chars is_digit (String (digit_char (n mod 10)) acc) = true).
  { cbn. rewrite H, digit_char_is_digit; [done|]. apply N.mod_lt; lia. }
  destruct (n / 10 =? 0)%N; auto.
Qed.

(** No leading zero, except for zero itself. *)
Lemma dec_digits_lead f n acc c r :
  (N.size_nat n < f)%nat -> n <> 0%N -> dec_digits f n acc = String c r -> c <> "0"%char.
Proof.
  revert n acc; induction f as [|f IH]; intros n acc Hf Hn E; [lia|].
  cbn [dec_digits] in E. destruct (n / 10 =? 0)%N eqn:Q.
  - apply N.eqb_eq in Q. simplify_eq. intros Hc.
    assert (Hd : digit_val (digit_char (n mod 10)) = digit_val "0"%char) by congruence.
    pose proof (N.div_mod n 10). pose proof (N.mod_lt n 10).
    rewrite digit_val_char in Hd by lia. change (digit_val "0"%char) with (Some 0%N) in Hd.
    assert (n mod 10 = 0)%N by congruence. lia.
  - apply N.eqb_neq in Q. pose proof (N_size_div10 n Q). refine (IH (n / 10)%N _ _ Q E). lia.
Qed.

(** ** [sort.Strings]: byte-wise lexicographic order *)
Fixpoint insert_str (x : string) (l : list string) : list string :=
  match l with
  | [] => [x]
  | y :: r => if String.leb x y then x :: l else y :: insert_str x r
  end.

Fixpoint sort_strings (l : list string) : list string :=
  match l with
  | [] => []
  | x :: r => insert_str x (sort_strings r)
  end.

Lemma insert_str_perm x l : insert_str x l ≡ₚ x :: l.
Proof.
  induction l as [|y l IH]; [done|]. cbn. destruct (String.leb x y); [done|].
  rewrite IH. constructor.
Qed.

Lemma sort_strings_perm l : sort_strings l ≡ₚ l.
Proof. induction l as [|x l IH]; [done|]. cbn. by rewrite insert_str_perm, IH. Qed.

Lemma elem_of_sort x l : x ∈ sort_strings l <-> x ∈ l.
Proof. by rewrite sort_strings_perm. Qed.

Lemma has_byte_app c s t : has_byte c (s +:+ t) = has_byte c s || has_byte c t.
Proof. induction s as [|d s IH]; [done|]. rewrite app_cons_str. cbn. by rewrite IH, orb_assoc. Qed.

Lemma digits_no_byte c s : is_digit c = false -> all_chars is_digit s = true -> has_byte c s = false.
Proof.
  intros Hc. induction s as [|d s IH]; [done|]. cbn. intros [Hd Hs]%andb_true_iff. rewrite IH by done.
  rewrite orb_false_r. apply ascii_eqb_false. congruence.
Qed.

Lemma itoa_no_byte c z : is_digit c = false -> c <> "-"%char -> has_byte c (itoa z) = false.
Proof.
  intros Hc Hm. unfold itoa. assert (Hd : forall n, has_byte c (dec_N n) = false).
  { intros n. apply digits_no_byte; [done|]. by apply dec_digits_all. }
  destruct (z <? 0); [|done]. cbn [has_byte]. rewrite Hd, orb_false_r. by apply ascii_eqb_false.
Qed.

Lemma parse_int64_itoa z : min_int64 <= z <= max_int64 -> parse_int64 (itoa z) = Some z.
Proof.
  intros H. unfold itoa. destruct (Z.ltb_spec z 0) as [Hz|Hz].
  - cbn [parse_int64]. rewrite parse_dec_N.
    replace (- Z.of_N (Z.abs_N z)) with z by lia.
    by replace (min_int64 <=? z) with true by (symmetry; apply Z.leb_le; lia).
  - assert (Hh : parse_int64 (dec_N (Z.to_N z)) = match parse_N (dec_N (Z.to_N z)) with
      | Some n => if (Z.of_N n <=? max_int64) then Some (Z.of_N n) else None | None => None end).
    { assert (Hd : all_chars is_digit (dec_N (Z.to_N z)) = true) by (by apply dec_digits_all).
      unfold dec_N in *. destruct (dec_digits_cons (N.size_nat (Z.to_N z)) (Z.to_N z) "") as (c & r & E).
      rewrite E in *. cbn in Hd. apply andb_true_iff in Hd as [Hc _]. unfold parse_int64.
      destruct c as [[] [] [] [] [] [] [] []]; done. }
    rewrite Hh, parse_dec_N. rewrite Z2N.id by done.
    by replace (z <=? max_int64) with true by (symmetry; apply Z.leb_le; lia).
Qed.

(** ** Suffixes *)
Lemma rev_append_str_app s t acc : rev_append_str (s +:+ t) acc = rev_append_str t (rev_append_str s acc).
Proof. revert acc. induction s as [|c s IH]; intros acc; [done|]. rewrite app_cons_str. apply IH. Qed.
Lemma rev_append_str_acc s acc : rev_append_str s acc = rev_str s +:+ acc.
Proof.
  unfold rev_str. revert acc. induction s as [|c s IH]; intros acc; [done|]. cbn [rev_append_str].
  rewrite IH, (IH (String c "")). by rewrite app_assoc_str.
Qed.
Lemma rev_str_app s t : rev_str (s +:+ t) = rev_str t +:+ rev_str s.
Proof. unfold rev_str at 1. by rewrite rev_append_str_app, rev_append_str_acc. Qed.

Lemma rev_str_app_has s t : has_suffix (s +:+ t) t = true.
Proof. unfold has_suffix. rewrite rev_str_app. apply has_prefix_spec. by eexists. Qed.
Lemma rev_str_rev s : rev_str (rev_str s) = s.
Proof.
  induction s as [|c s IH]; [done|]. change (String c s) with (String c "" +:+ s). by rewrite !rev_str_app, IH.
Qed.

Lemma has_suffix_spec s p : has_suffix s p = true <-> exists r, s = r +:+ p.
Proof.
  split; [|intros [r ->]; apply rev_str_app_has]. unfold has_suffix. intros [r E]%has_prefix_spec.
  exists (rev_str r). apply (f_equal rev_str) in E. by rewrite rev_str_app, !rev_str_rev in E.
Qed.
Lemma trim_suffix_app s p : trim_suffix (s +:+ p) p = s.
Proof. unfold trim_suffix, trim_prefix. by rewrite rev_str_app, cut_prefix_app, rev_str_rev. Qed.
