(* ===== verification/Json.v ===== *)
(** * JSON ([encoding/json])

    The ledger's lines are JSON objects.  This file models what the sources
    use of [encoding/json]: the syntax check and parse of [json.Unmarshal]
    ([parse_json]), the compact output of [json.Marshal] ([print_json], with
    HTML escaping on, as [Marshal] has it), and the field matching of a struct
    decode ([field_values]).  A number keeps its literal text, as the decoder
    does until it knows the target type.  [parse_print] is the round trip. *)
From S2P Require Import Prelude Sha256 GoStr.

#[warnings="-all"] Inductive json : Type :=
  | JNull
  | JBool (b : bool)
  | JNum (lit : string)
  | JStr (s : string)
  | JArr (l : list json)
  | JObj (fields : list (string * json)).

(** ** Printing *)
Definition quote_c : ascii := "034"%char.
Definition backslash : ascii := "092"%char.

(** [htmlSafeSet]: bytes [appendString] copies unescaped. *)
Definition html_safe (c : ascii) : bool :=
  in_range 32 127 (byte_val c) &&
  negb (ascii_eqb c quote_c) && negb (ascii_eqb c backslash) &&
  negb (ascii_eqb c "<"%char) && negb (ascii_eqb c ">"%char) && negb (ascii_eqb c "&"%char).

(** The two-character escapes [appendString] prefers. *)
Definition short_escape (c : ascii) : option ascii :=
  if ascii_eqb c quote_c then Some quote_c
  else if ascii_eqb c backslash then Some backslash
  else if ascii_eqb c "008"%char then Some "b"%char
  else if ascii_eqb c "012"%char then Some "f"%char
  else if ascii_eqb c "010"%char then Some "n"%char
  else if ascii_eqb c "013"%char then Some "r"%char
  else if ascii_eqb c "009"%char then Some "t"%char
  else None.

Definition u_escape (h1 h2 h3 h4 : ascii) (tail : string) : string :=
  String backslash (String "u" (String h1 (String h2 (String h3 (String h4 tail))))).

Definition esc_ascii (c : ascii) (tail : string) : string :=
  if html_safe c then String c tail
  else match short_escape c with
       | Some e => String backslash (String e tail)
       | None => u_escape "0" "0" (hex_digit (Z.shiftr (byte_val c) 4)) (hex_digit (byte_val c)) tail
       end.

(** U+2028 and U+2029 are E2 80 A8 and E2 80 A9. *)
Definition line_sep (c c1 c2 : ascii) : bool :=
  (byte_val c =? 226) && (byte_val c1 =? 128) && ((byte_val c2 =? 168) || (byte_val c2 =? 169)).

Fixpoint esc (s tail : string) : string :=
  match s with
  | EmptyString => tail
  | String c r =>
      match utf8_size c r, r with
      | 1%nat, _ => esc_ascii c (esc r tail)
      | 2%nat, String c1 r1 => String c (String c1 (esc r1 tail))
      | 3%nat, String c1 (String c2 r2) =>
          if line_sep c c1 c2 then u_escape "2" "0" "2" (hex_digit (byte_val c2)) (esc r2 tail)
          else String c (String c1 (String c2 (esc r2 tail)))
      | 4%nat, String c1 (String c2 (String c3 r3)) =>
          String c (String c1 (String c2 (String c3 (esc r3 tail))))
      | _, _ => u_escape "f" "f" "f" "d" (esc r tail)
      end
  end.

Definition quote_str (s tail : string) : string := String quote_c (esc s (String quote_c tail)).

(** [print_json v tail] is the text of [v] followed by [tail]. *)
Fixpoint print_json (v : json) (tail : string) {struct v} : string :=
  match v with
  | JNull => "null" +:+ tail
  | JBool true => "true" +:+ tail
  | JBool false => "false" +:+ tail
  | JNum lit => lit +:+ tail
  | JStr s => quote_str s tail
  | JArr [] => "[]" +:+ tail
  | JArr (x :: r) =>
      String "[" (print_json x
        ((fix elems (l : list json) : string :=
            match l with
            | [] => String "]" tail
            | y :: l' => String "," (print_json y (elems l'))
            end) r))
  | JObj [] => "{}" +:+ tail
  | JObj ((k, x) :: r) =>
      String "{" (quote_str k (String ":" (print_json x
        ((fix members (l : list (string * json)) : string :=
            match l with
            | [] => String "}" tail
            | (k', y) :: l' => String "," (quote_str k' (String ":" (print_json y (members l'))))
            end) r))))
  end.

Definition marshal (v : json) : string := print_json v "".

(** ** Parsing *)
Definition is_ws (c : ascii) : bool :=
  ascii_eqb c " "%char || ascii_eqb c "009"%char || ascii_eqb c "010"%char || ascii_eqb c "013"%char.

Fixpoint skip_ws (s : string) : string :=
  match s with
  | String c r => if is_ws c then skip_ws r else s
  | EmptyString => ""
  end.

Definition hex_val (c : ascii) : option Z :=
  let v := byte_val c in
  if in_range 48 57 v then Some (v - 48)
  else if in_range 97 102 v then Some (v - 87)
  else if in_range 65 70 v then Some (v - 55)
  else None.

(** [getu4] *)
Definition hex4 (h1 h2 h3 h4 : ascii) : option Z :=
  match hex_val h1, hex_val h2, hex_val h3, hex_val h4 with
  | Some a, Some b, Some c, Some d => Some (((a * 16 + b) * 16 + c) * 16 + d)
  | _, _, _, _ => None
  end.

Definition unescape1 (e : ascii) : option ascii :=
  if ascii_eqb e quote_c then Some quote_c
  else if ascii_eqb e backslash then Some backslash
  else if ascii_eqb e "/"%char then Some "/"%char
  else if ascii_eqb e "b"%char then Some "008"%char
  else if ascii_eqb e "f"%char then Some "012"%char
  else if ascii_eqb e "n"%char then Some "010"%char
  else if ascii_eqb e "r"%char then Some "013"%char
  else if ascii_eqb e "t"%char then Some "009"%char
  else None.

(** [utf16.IsSurrogate], [utf16.DecodeRune] *)
Definition is_surrogate (z : Z) : bool := in_range 55296 57343 z.
Definition decode_utf16 (r1 r2 : Z) : option Z :=
  if in_range 55296 56319 r1 && in_range 56320 57343 r2
  then Some ((r1 - 55296) * 1024 + (r2 - 56320) + 65536) else None.

Definition put (p : string) (o : option (string * string)) : option (string * string) :=
  match o with Some (s, rest) => Some (p +:+ s, rest) | None => None end.

Definition put1 (c : ascii) (o : option (string * string)) : option (string * string) :=
  match o with Some (s, rest) => Some (String c s, rest) | None => None end.

(** The body of a string literal after its opening quote: the decoded bytes
    and what follows the closing quote.  An invalid byte becomes U+FFFD. *)
Fixpoint parse_str (s : string) : option (string * string) :=
  match s with
  | EmptyString => None
  | String c r =>
      if ascii_eqb c quote_c then Some ("", r)
      else if ascii_eqb c backslash then
        match r with
        | EmptyString => None
        | String e r1 =>
            match unescape1 e with
            | Some c' => put1 c' (parse_str r1)
            | None =>
                if ascii_eqb e "u"%char then
                  match r1 with
                  | String h1 (String h2 (String h3 (String h4 r2))) =>
                      match hex4 h1 h2 h3 h4 with
                      | None => None
                      | Some code =>
                          if is_surrogate code then
                            match r2 with
                            | String b (String u (String g1 (String g2 (String g3 (String g4 r3))))) =>
                                match (if ascii_eqb b backslash && ascii_eqb u "u"%char
                                       then hex4 g1 g2 g3 g4 else None) with
                                | Some code2 =>
                                    match decode_utf16 code code2 with
                                    | Some d => put (encode_rune d) (parse_str r3)
                                    | None => put (encode_rune 65533) (parse_str r2)
                                    end
                                | None => put (encode_rune 65533) (parse_str r2)
                                end
                            | _ => put (encode_rune 65533) (parse_str r2)
                            end
                          else put (encode_rune code) (parse_str r2)
                      end
                  | _ => None
                  end
                else None
            end
        end
      else if byte_val c <? 32 then None
      else
        match utf8_size c r, r with
        | 1%nat, _ => put1 c (parse_str r)
        | 2%nat, String c1 r1 => put1 c (put1 c1 (parse_str r1))
        | 3%nat, String c1 (String c2 r2) => put1 c (put1 c1 (put1 c2 (parse_str r2)))
        | 4%nat, String c1 (String c2 (String c3 r3)) =>
            put1 c (put1 c1 (put1 c2 (put1 c3 (parse_str r3))))
        | _, _ => put (encode_rune 65533) (parse_str r)
        end
  end.

(** Numbers: an optional minus, an integer part without leading zeros, an
    optional fraction and an optional exponent. *)
Fixpoint span_digits (s : string) : string * string :=
  match s with
  | String c r => if is_digit c then let p := span_digits r in (String c p.1, p.2) else ("", s)
  | EmptyString => ("", "")
  end.

Definition digits1 (s : string) : option (string * string) :=
  match span_digits s with
  | (EmptyString, _) => None
  | p => Some p
  end.

Definition parse_int_part (s : string) : option (string * string) :=
  match s with
  | String c r => if ascii_eqb c "0"%char then Some ("0", r) else digits1 s
  | EmptyString => None
  end.

Definition parse_frac (s : string) : option (string * string) :=
  match s with
  | String "." r => put1 "." (digits1 r)
  | _ => Some ("", s)
  end.

Definition parse_exp (s : string) : option (string * string) :=
  match s with
  | String c r =>
      if ascii_eqb c "e"%char || ascii_eqb c "E"%char then
        match r with
        | String g r1 => if ascii_eqb g "+"%char || ascii_eqb g "-"%char
                         then put1 c (put1 g (digits1 r1)) else put1 c (digits1 r)
        | EmptyString => None
        end
      else Some ("", s)
  | EmptyString => Some ("", s)
  end.

Definition parse_unsigned (s : string) : option (string * string) :=
  match parse_int_part s with
  | Some (i, r) => match parse_frac r with
                   | Some (f, r1) => put i (put f (parse_exp r1))
                   | None => None
                   end
  | None => None
  end.

Definition parse_num (s : string) : option (string * string) :=
  match s with
  | String "-" r => put1 "-" (parse_unsigned r)
  | _ => parse_unsigned s
  end.

(** [maxNestingDepth] of the scanner. *)
Definition max_depth : Z := 10000.

Fixpoint parse_value (fuel : nat) (depth : Z) (s : string) : option (json * string) :=
  match fuel with
  | O => None
  | S f =>
      match skip_ws s with
      | EmptyString => None
      | String c r =>
          if ascii_eqb c "{"%char then
            if depth >=? max_depth then None else
            match skip_ws r with
            | EmptyString => None
            | String c2 r2 =>
                if ascii_eqb c2 "}"%char then Some (JObj [], r2)
                else match parse_members f (depth + 1) (String c2 r2) with
                     | Some (ms, rest) => Some (JObj ms, rest)
                     | None => None
                     end
            end
          else if ascii_eqb c "["%char then
            if depth >=? max_depth then None else
            match skip_ws r with
            | EmptyString => None
            | String c2 r2 =>
                if ascii_eqb c2 "]"%char then Some (JArr [], r2)
                else match parse_elems f (depth + 1) (String c2 r2) with
                     | Some (es, rest) => Some (JArr es, rest)
                     | None => None
                     end
            end
          else if ascii_eqb c quote_c then
            match parse_str r with Some (x, rest) => Some (JStr x, rest) | None => None end
          else if ascii_eqb c "t"%char then
            match cut_prefix "rue" r with Some rest => Some (JBool true, rest) | None => None end
          else if ascii_eqb c "f"%char then
            match cut_prefix "alse" r with Some rest => Some (JBool false, rest) | None => None end
          else if ascii_eqb c "n"%char then
            match cut_prefix "ull" r with Some rest => Some (JNull, rest) | None => None end
          else
            match parse_num (String c r) with Some (x, rest) => Some (JNum x, rest) | None => None end
      end
  end
with parse_members (fuel : nat) (depth : Z) (s : string) : option (list (string * json) * string) :=
  match fuel with
  | O => None
  | S f =>
      match skip_ws s with
      | EmptyString => None
      | String q r =>
          if ascii_eqb q quote_c then
            match parse_str r with
            | None => None
            | Some (k, r1) =>
                match skip_ws r1 with
                | EmptyString => None
                | String c2 r2 =>
                    if ascii_eqb c2 ":"%char then
                      match parse_value f depth r2 with
                      | None => None
                      | Some (v, r3) =>
                          match skip_ws r3 with
                          | EmptyString => None
                          | String c4 r4 =>
                              if ascii_eqb c4 ","%char then
                                match parse_members f depth r4 with
                                | Some (ms, rest) => Some ((k, v) :: ms, rest)
                                | None => None
                                end
                              else if ascii_eqb c4 "}"%char then Some ([(k, v)], r4)
                              else None
                          end
                      end
                    else None
                end
            end
          else None
      end
  end
with parse_elems (fuel : nat) (depth : Z) (s : string) : option (list json * string) :=
  match fuel with
  | O => None
  | S f =>
      match parse_value f depth s with
      | None => None
      | Some (v, r) =>
          match skip_ws r with
          | EmptyString => None
          | String c4 r1 =>
              if ascii_eqb c4 ","%char then
                match parse_elems f depth r1 with
                | Some (es, rest) => Some (v :: es, rest)
                | None => None
                end
              else if ascii_eqb c4 "]"%char then Some ([v], r1)
              else None
          end
      end
  end.

(** Every call of the mutual parser consumes a byte or returns to a caller
    that has, so twice the length plus one is more fuel than a run can use. *)
Definition json_fuel (s : string) : nat := (2 * String.length s + 2)%nat.

(** [json.Valid] and the parse half of [json.Unmarshal]: one value, then only
    white space. *)
Definition parse_json (s : string) : option json :=
  match parse_value (json_fuel s) 0 s with
  | Some (v, rest) => match skip_ws rest with EmptyString => Some v | _ => None end
  | None => None
  end.

(** ** Struct field matching

    A struct field named [name] takes the value of every object key that
    equals it, exactly or under the decoder's case folding.  An ASCII name's
    folding orbit holds the two ASCII cases of each letter, the long s
    (U+017F) for S and the Kelvin sign (U+212A) for K. *)
Definition upper (c : ascii) : ascii :=
  if in_range 97 122 (byte_val c) then byte_of (byte_val c - 32) else c.

Fixpoint fold_key (s : string) : string :=
  match s with
  | EmptyString => ""
  | String c r =>
      match r with
      | String c1 r1 =>
          if (byte_val c =? 197) && (byte_val c1 =? 191) then String "S" (fold_key r1)
          else match r1 with
               | String c2 r2 =>
                   if (byte_val c =? 226) && (byte_val c1 =? 132) && (byte_val c2 =? 170)
                   then String "K" (fold_key r2) else String (upper c) (fold_key r)
               | EmptyString => String (upper c) (fold_key r)
               end
      | EmptyString => String (upper c) (fold_key r)
      end
  end.

Definition key_matches (name k : string) : bool :=
  bool_decide (k = name) || bool_decide (fold_key k = fold_key name).

(** Values of the keys that decode into field [name], in document order. *)
Definition field_values (name : string) (fields : list (string * json)) : list json :=
  map snd (filter (fun kv => key_matches name kv.1 = true) fields).

(** Concrete JSON in this development is written with apostrophes for quotes. *)
Fixpoint jq (s : string) : string :=
  match s with
  | EmptyString => ""
  | String c r => String (if ascii_eqb c "'"%char then quote_c else c) (jq r)
  end.

Example parse_example :
  parse_json (jq " {'a':[1,-2.5e3,true,null], 'b':'x\u0041\n\ud83d\ude00'} ")
  = Some (JObj [("a", JArr [JNum "1"; JNum "-2.5e3"; JBool true; JNull]);
                ("b", JStr ("xA" +:+ String newline (encode_rune 128512)))]).
Proof. vm_compute. reflexivity. Qed.

Example parse_rejects :
  map (fun s => parse_json (jq s)) ["{'a':01}"; "{'a':1,}"; "[1 2]"; "'x"; "{} {}"; "tru"; "-"; "{'a'}"; ""]
  = replicate 9 None.
Proof. vm_compute. reflexivity. Qed.

Example print_example :
  marshal (JObj [("k", JStr "a<b"); ("n", JArr [JNum "0"; JBool false])])
  = jq "{'k':'a\u003cb','n':[0,false]}".
Proof. vm_compute. reflexivity. Qed.

(** ** The string round trip *)
Ltac str_cons := rewrite ?app_cons_str.

Lemma utf8_size_ge c r n : utf8_size c r = S (S n) -> 128 <= byte_val c.
Proof. unfold utf8_size. intros H. destruct (byte_val c <? 128) eqn:E; [done|]. bool_prop. done. Qed.

Lemma utf8_size_1 c r : utf8_size c r = 1%nat <-> byte_val c < 128.
Proof.
  unfold utf8_size. destruct (byte_val c <? 128) eqn:E; bool_prop; [done|].
  split; [|lia]. intros H. case_in H.
Qed.

Lemma utf8_size_2 c c1 r r' :
  utf8_size c (String c1 r) = 2%nat -> utf8_size c (String c1 r') = 2%nat.
Proof. unfold utf8_size. intros H. case_in H. Qed.

Lemma utf8_size_3 c c1 c2 r r' :
  utf8_size c (String c1 (String c2 r)) = 3%nat -> utf8_size c (String c1 (String c2 r')) = 3%nat.
Proof.
  unfold utf8_size. intros H.
  destruct (byte_val c <? 128); [done|].
  destruct (in_range 194 223 (byte_val c)); [by destruct (cont_byte c1)|].
  destruct (in_range 224 239 (byte_val c)); [done|].
  destruct (in_range 240 244 (byte_val c)); [|done].
  destruct r; [done|]. case_in H.
Qed.

Lemma utf8_size_4 c c1 c2 c3 r r' :
  utf8_size c (String c1 (String c2 (String c3 r))) = 4%nat ->
  utf8_size c (String c1 (String c2 (String c3 r'))) = 4%nat.
Proof. done. Qed.

Lemma hex_val_digit n : hex_val (hex_digit n) = Some (n mod 16).
Proof.
  unfold hex_val, hex_digit, in_range. pose proof (Z.mod_pos_bound n 16).
  destruct (n mod 16 <? 10) eqn:E; bool_prop; rewrite byte_val_of by lia.
  - replace (48 <=? 48 + n mod 16) with true by (symmetry; apply Z.leb_le; lia).
    replace (48 + n mod 16 <=? 57) with true by (symmetry; apply Z.leb_le; lia).
    simpl. f_equal. lia.
  - replace (87 + n mod 16 <=? 57) with false by (symmetry; apply Z.leb_gt; lia).
    rewrite andb_false_r.
    replace (97 <=? 87 + n mod 16) with true by (symmetry; apply Z.leb_le; lia).
    replace (87 + n mod 16 <=? 102) with true by (symmetry; apply Z.leb_le; lia).
    simpl. f_equal. lia.
Qed.

Lemma short_escape_unescape c e : short_escape c = Some e -> unescape1 e = Some c.
Proof.
  unfold short_escape. intros H.
  repeat match type of H with
         | (if ascii_eqb c ?k then _ else _) = _ =>
             let E := fresh "E" in
             destruct (ascii_eqb c k) eqn:E;
             [apply ascii_eqb_true in E; subst c; injection H as <-; reflexivity|clear E]
         end.
  done.
Qed.

Lemma parse_str_plain c r :
  32 <= byte_val c -> c <> quote_c -> c <> backslash ->
  parse_str (String c r) =
    match utf8_size c r, r with
    | 1%nat, _ => put1 c (parse_str r)
    | 2%nat, String c1 r1 => put1 c (put1 c1 (parse_str r1))
    | 3%nat, String c1 (String c2 r2) => put1 c (put1 c1 (put1 c2 (parse_str r2)))
    | 4%nat, String c1 (String c2 (String c3 r3)) =>
        put1 c (put1 c1 (put1 c2 (put1 c3 (parse_str r3))))
    | _, _ => put (encode_rune 65533) (parse_str r)
    end.
Proof.
  intros H1 H2 H3. cbn [parse_str].
  rewrite (proj2 (ascii_eqb_false c quote_c)), (proj2 (ascii_eqb_false c backslash)) by done.
  by replace (byte_val c <? 32) with false by (symmetry; apply Z.ltb_ge; lia).
Qed.

Lemma parse_str_u h1 h2 h3 h4 code r :
  hex4 h1 h2 h3 h4 = Some code -> is_surrogate code = false ->
  parse_str (u_escape h1 h2 h3 h4 r) = put (encode_rune code) (parse_str r).
Proof.
  intros H1 H2. unfold u_escape. cbn [parse_str].
  change (ascii_eqb backslash quote_c) with false.
  change (ascii_eqb backslash backslash) with true.
  change (unescape1 "u"%char) with (@None ascii).
  change (ascii_eqb "u"%char "u"%char) with true. cbv iota.
  by rewrite H1, H2.
Qed.

Lemma put_byte c o : 0 <= byte_val c < 128 -> put (encode_rune (byte_val c)) o = put1 c o.
Proof.
  intros H. unfold encode_rune.
  replace (byte_val c <? 0) with false by (symmetry; apply Z.ltb_ge; lia).
  replace (byte_val c <? 128) with true by (symmetry; apply Z.ltb_lt; lia).
  rewrite byte_of_val. by destruct o as [[]|].
Qed.

Lemma parse_str_esc_ascii c r :
  byte_val c < 128 -> parse_str (esc_ascii c r) = put1 c (parse_str r).
Proof.
  intros Hc. pose proof (byte_val_range c). unfold esc_ascii.
  destruct (html_safe c) eqn:Hs.
  { unfold html_safe, in_range in Hs. bool_prop.
    rewrite parse_str_plain; [|done| |].
    - by rewrite (proj2 (utf8_size_1 c r)) by done.
    - by apply ascii_eqb_false.
    - by apply ascii_eqb_false. }
  destruct (short_escape c) as [e|] eqn:He.
  { apply short_escape_unescape in He. cbn [parse_str].
    change (ascii_eqb backslash quote_c) with false.
    change (ascii_eqb backslash backslash) with true. cbv iota. by rewrite He. }
  rewrite (parse_str_u _ _ _ _ (byte_val c)); [apply put_byte; lia| |].
  - unfold hex4. rewrite !hex_val_digit. change (hex_val "0"%char) with (Some 0). cbv iota beta.
    f_equal. rewrite Z.shiftr_div_pow2 by lia. change (2 ^ 4) with 16. 
    assert (Hq : 0 <= byte_val c / 16 < 16)
      by (split; [apply Z.div_pos; lia | apply Z.div_lt_upper_bound; lia]).
    pose proof (Z.div_mod (byte_val c) 16). rewrite (Z.mod_small (byte_val c / 16)) by done. lia.
  - unfold is_surrogate, in_range. apply andb_false_iff. left. apply Z.leb_gt. lia.
Qed.

Lemma line_sep_inv c c1 c2 : line_sep c c1 c2 = true ->
  c = "226"%char /\ c1 = "128"%char /\ (c2 = "168"%char \/ c2 = "169"%char).
Proof.
  unfold line_sep. intros H. bool_prop. apply orb_true_iff in H0. 
  repeat split; try (by apply byte_val_inj).
  destruct H0 as [H0|H0]; bool_prop; [left|right]; by apply byte_val_inj.
Qed.

(** What a reader gets back for a string: each invalid byte is replaced by
    U+FFFD, so a valid string is unchanged. *)
Fixpoint to_valid (s : string) : string :=
  match s with
  | EmptyString => ""
  | String c r =>
      match utf8_size c r, r with
      | 1%nat, _ => String c (to_valid r)
      | 2%nat, String c1 r1 => String c (String c1 (to_valid r1))
      | 3%nat, String c1 (String c2 r2) => String c (String c1 (String c2 (to_valid r2)))
      | 4%nat, String c1 (String c2 (String c3 r3)) => String c (String c1 (String c2 (String c3 (to_valid r3))))
      | _, _ => encode_rune 65533 +:+ to_valid r
      end
  end.

Lemma utf8_size_bound c r : match utf8_size c r with
  | O => True | 1%nat => True
  | 2%nat => exists c1 r1, r = String c1 r1
  | 3%nat => exists c1 c2 r2, r = String c1 (String c2 r2)
  | 4%nat => exists c1 c2 c3 r3, r = String c1 (String c2 (String c3 r3))
  | _ => False end.
Proof.
  unfold utf8_size. destruct (byte_val c <? 128); [done|].
  destruct (in_range 194 223 (byte_val c)); [destruct r; [done|]; destruct (cont_byte _); eauto|].
  destruct (in_range 224 239 (byte_val c)).
  { destruct r as [|? [|? ?]]; [done..|]. match goal with |- context [if ?b then 3%nat else _] => destruct b end; eauto. }
  destruct (in_range 240 244 (byte_val c)); [|done].
  destruct r as [|? [|? [|? ?]]]; [done..|]. match goal with |- context [if ?b then 4%nat else _] => destruct b end; eauto 6.
Qed.

Lemma to_valid_id s : valid_utf8 s = true -> to_valid s = s.
Proof.
  induction s as [s IH] using (induction_ltof1 _ String.length). unfold ltof in IH.
  destruct s as [|c r]; [done|]. cbn [to_valid valid_utf8]. intros Hv.
  destruct (utf8_size c r) as [|[|[|[|[|k]]]]] eqn:Hz; try done.
  - rewrite IH; [done|cbn; lia|done].
  - destruct r as [|c1 r1]; [done|]. rewrite IH; [done|cbn; lia|done].
  - destruct r as [|c1 [|c2 r2]]; try done. rewrite IH; [done|cbn; lia|done].
  - destruct r as [|c1 [|c2 [|c3 r3]]]; try done. rewrite IH; [done|cbn; lia|done].
Qed.

(** Quoting and parsing a string yields it with its invalid bytes replaced. *)
Lemma parse_str_esc s tail : parse_str (esc s (String quote_c tail)) = Some (to_valid s, tail).
Proof.
  induction s as [s IH] using (induction_ltof1 _ String.length). unfold ltof in IH.
  destruct s as [|c r]; [reflexivity|]. cbn [to_valid esc] in *. pose proof (utf8_size_bound c r) as Hb.
  destruct (utf8_size c r) as [|[|[|[|[|k]]]]] eqn:Hz; [..|done].
  - erewrite parse_str_u by reflexivity. rewrite IH by (cbn; lia). reflexivity.
  - apply utf8_size_1 in Hz. rewrite parse_str_esc_ascii by done. rewrite IH by (cbn; lia). done.
  - destruct Hb as (c1 & r1 & ->). pose proof (utf8_size_ge _ _ _ Hz).
    rewrite parse_str_plain; [|lia|intros ->; by compute in H..].
    rewrite (utf8_size_2 _ _ _ _ Hz), IH by (cbn; lia). done.
  - destruct Hb as (c1 & c2 & r2 & ->). pose proof (utf8_size_ge _ _ _ Hz).
    destruct (line_sep c c1 c2) eqn:Hl.
    + apply line_sep_inv in Hl as (-> & -> & [-> | ->]);
        (erewrite parse_str_u by reflexivity); rewrite IH by (cbn; lia); reflexivity.
    + rewrite parse_str_plain; [|lia|intros ->; by compute in H..].
      rewrite (utf8_size_3 _ _ _ _ _ Hz), IH by (cbn; lia). done.
  - destruct Hb as (c1 & c2 & c3 & r3 & ->). pose proof (utf8_size_ge _ _ _ Hz).
    rewrite parse_str_plain; [|lia|intros ->; by compute in H..].
    rewrite (utf8_size_4 _ _ _ _ _ (esc r3 (String quote_c tail)) Hz), IH by (cbn; lia). done.
Qed.

(** ** The number round trip *)
Definition num_stop (s : string) : bool :=
  match s with
  | EmptyString => true
  | String c _ => negb (is_digit c || ascii_eqb c "."%char || ascii_eqb c "e"%char || ascii_eqb c "E"%char)
  end.

Lemma span_digits_app s t :
  all_chars is_digit s = true -> num_stop t = true -> span_digits (s +:+ t) = (s, t).
Proof.
  intros Hs Ht. induction s as [|c s IH].
  - change ("" +:+ t) with t. destruct t as [|c t]; [done|]. cbn in *. 
    apply negb_true_iff in Ht. rewrite !orb_false_iff in Ht. by destruct Ht as [[[-> ?] ?] ?].
  - rewrite app_cons_str. cbn in *. apply andb_true_iff in Hs as [-> Hs]. by rewrite IH.
Qed.

Lemma parse_unsigned_digits i t :
  parse_int_part (i +:+ t) = Some (i, t) -> num_stop t = true ->
  parse_unsigned (i +:+ t) = Some (i, t).
Proof.
  intros Hi Ht. unfold parse_unsigned. rewrite Hi. destruct t as [|c t].
  - cbn. by rewrite !app_nil_str.
  - cbn in Ht. apply negb_true_iff in Ht. rewrite !orb_false_iff in Ht.
    destruct Ht as [[[H1 H2] H3] H4].
    assert (Hf : parse_frac (String c t) = Some ("", String c t)).
    { unfold parse_frac. apply ascii_eqb_false in H2. case_all. }
    rewrite Hf. cbn [parse_exp]. rewrite H3, H4. cbn. by rewrite !app_nil_str.
Qed.

Lemma parse_unsigned_dec n t :
  num_stop t = true -> parse_unsigned (dec_N n +:+ t) = Some (dec_N n, t).
Proof.
  intros Ht. apply parse_unsigned_digits; [|done].
  destruct (decide (n = 0%N)) as [->|Hn].
  { change (dec_N 0) with "0". by rewrite app_cons_str. }
  assert (Hall : all_chars is_digit (dec_N n) = true) by (by apply dec_digits_all).
  unfold dec_N in *. destruct (dec_digits_cons (N.size_nat n) n "") as (c & r & E).
  assert (Hc : c <> "0"%char) by (eapply dec_digits_lead; [|exact Hn|exact E]; lia).
  rewrite E in *. rewrite app_cons_str. unfold parse_int_part.
  rewrite (proj2 (ascii_eqb_false _ _) Hc). unfold digits1.
  by rewrite <- app_cons_str, span_digits_app.
Qed.

Lemma dec_N_no_minus n t : forall r, dec_N n +:+ t <> String "-" r.
Proof.
  intros r H. assert (Hall : all_chars is_digit (dec_N n) = true) by (by apply dec_digits_all).
  unfold dec_N in *. destruct (dec_digits_cons (N.size_nat n) n "") as (c & r' & E).
  rewrite E in *. rewrite app_cons_str in H. by simplify_eq.
Qed.

Lemma parse_num_itoa z t : num_stop t = true -> parse_num (itoa z +:+ t) = Some (itoa z, t).
Proof.
  intros Ht. unfold itoa. destruct (z <? 0).
  - rewrite app_cons_str. cbn [parse_num]. by rewrite parse_unsigned_dec.
  - unfold parse_num. pose proof (dec_N_no_minus (Z.to_N z) t) as Hm.
    destruct (dec_N (Z.to_N z) +:+ t) as [|c s] eqn:E;
      [by rewrite <- E, parse_unsigned_dec|].
    assert (c <> "-"%char) by (intros ->; by apply (Hm s)).
    transitivity (parse_unsigned (String c s)); [case_all|]. by rewrite <- E, parse_unsigned_dec.
Qed.

(** ** The value round trip *)
Fixpoint print_elems (l : list json) (tail : string) : string :=
  match l with
  | [] => String "]" tail
  | y :: l' => String "," (print_json y (print_elems l' tail))
  end.

Fixpoint print_members (l : list (string * json)) (tail : string) : string :=
  match l with
  | [] => String "}" tail
  | (k, y) :: l' => String "," (quote_str k (String ":" (print_json y (print_members l' tail))))
  end.

Lemma print_arr x r tail : print_json (JArr (x :: r)) tail = String "[" (print_json x (print_elems r tail)).
Proof. cbn. f_equal. f_equal. induction r as [|y r IH]; cbn; congruence. Qed.

Lemma print_obj k x r tail :
  print_json (JObj ((k, x) :: r)) tail
  = String "{" (quote_str k (String ":" (print_json x (print_members r tail)))).
Proof. cbn. do 4 f_equal. induction r as [|[k' y] r IH]; cbn; congruence. Qed.

(** What the program marshals: keys in valid UTF-8, any string, integers. *)
Fixpoint wf_json (v : json) : Prop :=
  match v with
  | JNum lit => exists z, lit = itoa z
  | JArr l => (fix all (l : list json) := match l with [] => True | x :: r => wf_json x /\ all r end) l
  | JObj l => (fix all (l : list (string * json)) :=
                 match l with [] => True | (k, x) :: r => valid_utf8 k = true /\ wf_json x /\ all r end) l
  | _ => True
  end.

(** What a reader gets back for a value. *)
Fixpoint coerce (v : json) : json :=
  match v with
  | JStr s => JStr (to_valid s)
  | JArr l => JArr (map coerce l)
  | JObj l => JObj (map (fun kv => (kv.1, coerce kv.2)) l)
  | _ => v
  end.

Fixpoint depth_of (v : json) : Z :=
  match v with
  | JArr l => 1 + (fix mx (l : list json) := match l with [] => 0 | x :: r => Z.max (depth_of x) (mx r) end) l
  | JObj l => 1 + (fix mx (l : list (string * json)) :=
                     match l with [] => 0 | (_, x) :: r => Z.max (depth_of x) (mx r) end) l
  | _ => 0
  end.

Fixpoint fuel_of (v : json) : nat :=
  match v with
  | JArr l => S ((fix sm (l : list json) := match l with [] => O | x :: r => S (fuel_of x + sm r) end) l)
  | JObj l => S ((fix sm (l : list (string * json)) :=
                    match l with [] => O | (_, x) :: r => S (fuel_of x + sm r) end) l)
  | _ => 1
  end.

Section JsonInd.
  Context (P : json -> Prop).
  Hypothesis Hnull : P JNull.
  Hypothesis Hbool : forall b, P (JBool b).
  Hypothesis Hnum : forall l, P (JNum l).
  Hypothesis Hstr : forall s, P (JStr s).
  Hypothesis Harr : forall l, Forall P l -> P (JArr l).
  Hypothesis Hobj : forall l, Forall (fun kv => P kv.2) l -> P (JObj l).

Fixpoint json_nested_ind (v : json) : P v :=
  match v with
  | JNull => Hnull
  | JBool b => Hbool b
  | JNum l => Hnum l
  | JStr s => Hstr s
  | JArr l => Harr l ((fix go (l : list json) : Forall P l :=
                         match l with
                         | [] => Forall_nil_2 _
                         | x :: r => Forall_cons_2 _ _ _ (json_nested_ind x) (go r)
                         end) l)
  | JObj l => Hobj l ((fix go (l : list (string * json)) : Forall (fun kv => P kv.2) l :=
                         match l with
                         | [] => Forall_nil_2 _
                         | x :: r => Forall_cons_2 _ _ _ (json_nested_ind x.2) (go r)
                         end) l)
  end.
End JsonInd.

Definition parses (v : json) : Prop :=
  forall fuel depth tail,
    wf_json v -> (fuel_of v <= fuel)%nat -> 0 <= depth -> depth + depth_of v <= max_depth ->
    num_stop tail = true -> parse_value fuel depth (print_json v tail) = Some (coerce v, tail).

Lemma skip_ws_nop c r : is_ws c = false -> skip_ws (String c r) = String c r.
Proof. intros H. cbn. by rewrite H. Qed.

Lemma num_lead z t : num_stop t = true -> exists c r,
  itoa z +:+ t = String c r /\ (c = "-"%char \/ is_digit c = true).
Proof.
  intros Ht. unfold itoa. destruct (z <? 0); [eexists _, _; split; [by rewrite app_cons_str|]; by left|].
  set (n := Z.to_N z).
  assert (Hall : all_chars is_digit (dec_N n) = true) by (by apply dec_digits_all).
  unfold dec_N in *. destruct (dec_digits_cons (N.size_nat n) n "") as (c & r & E).
  rewrite E in *. cbn in Hall. apply andb_true_iff in Hall as [? ?].
  eexists _, _. rewrite app_cons_str. eauto.
Qed.

Lemma not_digit_eq c k : is_digit c = true -> is_digit k = false -> ascii_eqb c k = false.
Proof. intros H1 H2. apply ascii_eqb_false. congruence. Qed.

Lemma parses_num z : parses (JNum (itoa z)).
Proof.
  intros [|fuel] depth tail _ Hf Hd0 Hd Ht; [cbn in Hf; lia|].
  cbn [print_json]. destruct (num_lead z tail Ht) as (c & r & E & Hc).
  pose proof (parse_num_itoa z tail Ht) as Hp. rewrite E in *.
  cbn [parse_value]. destruct Hc as [->|Hc].
  - cbn [skip_ws]. change (is_ws "-"%char) with false. cbv iota. by rewrite Hp.
  - rewrite skip_ws_nop.
    + rewrite !(not_digit_eq c) by done. by rewrite Hp.
    + unfold is_ws. by rewrite !(not_digit_eq c) by done.
Qed.

Lemma print_lead v tail : wf_json v -> num_stop tail = true ->
  exists c r, print_json v tail = String c r /\ is_ws c = false /\ c <> "]"%char /\ c <> "}"%char.
Proof.
  intros Hw Ht. destruct v as [|[]|lit|s|[|x l]|[|[k x] l]]; cbn in Hw;
    try (eexists _, _; split; [reflexivity|by repeat split]).
  destruct Hw as [z ->]. cbn [print_json]. destruct (num_lead z tail Ht) as (c & r & -> & Hc).
  eexists _, _; split; [done|]. destruct Hc as [->|Hc]; [by repeat split|].
  unfold is_ws. rewrite !(not_digit_eq c) by done. repeat split; intros ->; done.
Qed.

Definition elems_fuel (l : list json) : nat :=
  (fix sm (l : list json) := match l with [] => O | x :: r => S (fuel_of x + sm r) end) l.
Definition members_fuel (l : list (string * json)) : nat :=
  (fix sm (l : list (string * json)) := match l with [] => O | (_, x) :: r => S (fuel_of x + sm r) end) l.

Lemma print_elems_stop r tail : num_stop (print_elems r tail) = true.
Proof. by destruct r. Qed.
Lemma print_members_stop r tail : num_stop (print_members r tail) = true.
Proof. by destruct r as [|[]]. Qed.

Lemma parses_elems x r : Forall parses (x :: r) ->
  forall fuel depth tail,
    wf_json (JArr (x :: r)) -> (elems_fuel (x :: r) <= fuel)%nat -> 0 <= depth ->
    depth + (depth_of (JArr (x :: r)) - 1) <= max_depth ->
    parse_elems fuel depth (print_json x (print_elems r tail)) = Some (map coerce (x :: r), tail).
Proof.
  revert x; induction r as [|y r IH]; intros x HF [|fuel] depth tail Hw Hf Hd0 Hd;
    try (cbn in Hf; lia); apply Forall_cons in HF as [Hx HF]; cbn [parse_elems].
  - rewrite Hx; [reflexivity|apply Hw|cbn in Hf; lia|done|cbn in Hd; lia|done].
  - rewrite Hx; [|apply Hw|cbn in Hf; lia|done|cbn in Hd; lia|done].
    cbn [print_elems skip_ws]. change (is_ws ","%char) with false. cbv iota.
    change (ascii_eqb ","%char ","%char) with true. cbv iota.
    rewrite IH; [done|done|apply Hw|cbn in *; lia|done|cbn in *; lia].
Qed.

Lemma parses_members k x r : Forall (fun kv => parses kv.2) ((k, x) :: r) ->
  forall fuel depth tail,
    wf_json (JObj ((k, x) :: r)) -> (members_fuel ((k, x) :: r) <= fuel)%nat -> 0 <= depth ->
    depth + (depth_of (JObj ((k, x) :: r)) - 1) <= max_depth ->
    parse_members fuel depth (quote_str k (String ":" (print_json x (print_members r tail))))
    = Some (map (fun kv => (kv.1, coerce kv.2)) ((k, x) :: r), tail).
Proof.
  revert k x; induction r as [|[k' y] r IH]; intros k x HF [|fuel] depth tail Hw Hf Hd0 Hd;
    try (cbn in Hf; lia); apply Forall_cons in HF as [Hx HF]; cbn [parse_members quote_str];
    unfold quote_str; cbn [skip_ws]; change (is_ws quote_c) with false; cbv iota;
    change (ascii_eqb quote_c quote_c) with true; cbv iota;
    rewrite parse_str_esc, (to_valid_id k) by apply Hw; cbn [skip_ws]; change (is_ws ":"%char) with false; cbv iota;
    change (ascii_eqb ":"%char ":"%char) with true; cbv iota.
  - rewrite Hx; [reflexivity|apply Hw|cbn in *; lia|done|cbn in *; lia|done].
  - rewrite Hx; [|apply Hw|cbn in *; lia|done|cbn in *; lia|done].
    cbn [print_members skip_ws]. change (is_ws ","%char) with false. cbv iota.
    change (ascii_eqb ","%char ","%char) with true. cbv iota.
    rewrite IH; [done|done|apply Hw|cbn in *; lia|done|cbn in *; lia].
Qed.

Lemma esc_length s tail : (String.length tail <= String.length (esc s tail))%nat.
Proof.
  remember (String.length s) as n eqn:Hn. revert s Hn.
  induction (lt_wf n) as [n _ IH]. intros s ->.
  assert (Hi : forall r, (String.length r < String.length s)%nat ->
             (String.length tail <= String.length (esc r tail))%nat) by (intros; by eapply IH).
  destruct s as [|c r]; [done|]. cbn [esc].
  assert (forall c t, (String.length t <= String.length (esc_ascii c t))%nat) as Ha.
  { intros c' t. unfold esc_ascii, u_escape. case_all; cbn; lia. }
  specialize (Ha c (esc r tail)).
  pose proof (Hi r ltac:(cbn; lia)).
  destruct (utf8_size c r) as [|[|[|[|[|k]]]]]; destruct r as [|c1 [|c2 [|c3 r]]];
    try (cbn in *; lia);
    try (pose proof (Hi (String c2 (String c3 r)) ltac:(cbn; lia)));
    try (pose proof (Hi (String c3 r) ltac:(cbn; lia)));
    try (pose proof (Hi (String c2 "") ltac:(cbn; lia)));
    try (pose proof (Hi "" ltac:(cbn; lia))); try (pose proof (Hi r ltac:(cbn; lia)));
    try (destruct (line_sep _ _ _)); unfold u_escape; cbn [String.length]; lia.
Qed.

Lemma quote_length s tail : (String.length tail + 2 <= String.length (quote_str s tail))%nat.
Proof. unfold quote_str. pose proof (esc_length s (String quote_c tail)). cbn in *. lia. Qed.

Lemma depth_of_nonneg v : 0 <= depth_of v.
Proof.
  induction v as [| | | |l IH|l IH] using json_nested_ind; cbn; try lia.
  - induction IH; cbn in *; lia.
  - induction IH as [|[k x]]; cbn in *; lia.
Qed.

Lemma parse_value_print v : parses v.
Proof.
  induction v as [| | | |l IH|l IH] using json_nested_ind;
    intros [|fuel] depth tail Hw Hf Hd0 Hd Ht; try (cbn in Hf; lia).
  - reflexivity.
  - by destruct b.
  - destruct Hw as [z ->]. apply parses_num; [by exists z|done..].
  - cbn [print_json parse_value]. unfold quote_str. cbn [skip_ws].
    change (is_ws quote_c) with false. cbv iota.
    change (ascii_eqb quote_c "{"%char) with false. change (ascii_eqb quote_c "["%char) with false.
    change (ascii_eqb quote_c quote_c) with true. cbv iota. by rewrite parse_str_esc.
  - destruct l as [|x r]; cbn [parse_value].
    { cbn in Hd. cbn. replace (depth >=? max_depth) with false by lia. done. }
    rewrite print_arr. cbn [skip_ws]. change (is_ws "["%char) with false. cbv iota.
    change (ascii_eqb "["%char "{"%char) with false. change (ascii_eqb "["%char "["%char) with true.
    pose proof (depth_of_nonneg x).
    cbv iota. replace (depth >=? max_depth) with false by (cbn in Hd; lia).
    pose proof (parses_elems x r IH fuel (depth + 1) tail Hw) as Hp.
    destruct (print_lead x (print_elems r tail)) as (c & s & E & Hc & Hn & _);
      [apply Hw|apply print_elems_stop|].
    rewrite E in *. rewrite skip_ws_nop by done. 
    rewrite (proj2 (ascii_eqb_false _ _) Hn).
    rewrite Hp; [done|cbn in *; lia|lia|cbn in *; lia].
  - destruct l as [|[k x] r]; cbn [parse_value].
    { cbn in Hd. cbn. replace (depth >=? max_depth) with false by lia. done. }
    rewrite print_obj. cbn [skip_ws]. change (is_ws "{"%char) with false. cbv iota.
    change (ascii_eqb "{"%char "{"%char) with true. cbv iota.
    pose proof (depth_of_nonneg x).
    replace (depth >=? max_depth) with false by (cbn in Hd; lia).
    pose proof (parses_members k x r IH fuel (depth + 1) tail Hw) as Hp.
    unfold quote_str in *. cbn [skip_ws]. change (is_ws quote_c) with false. cbv iota.
    change (ascii_eqb quote_c "}"%char) with false. cbv iota.
    rewrite Hp; [done|cbn in *; lia|lia|cbn in *; lia].
Qed.

Lemma print_length v tail :
  wf_json v -> (fuel_of v + 2 * String.length tail + 1 <= 2 * String.length (print_json v tail))%nat.
Proof.
  revert tail. induction v as [| |lit|s|l IH|l IH] using json_nested_ind; intros tail Hw.
  - cbn [print_json fuel_of]. rewrite length_app_str. cbn. lia.
  - destruct b; cbn [print_json fuel_of]; rewrite length_app_str; cbn; lia.
  - destruct Hw as [z ->]. cbn [print_json fuel_of]. rewrite length_app_str.
    assert (1 <= String.length (itoa z))%nat; [|lia].
    unfold itoa. destruct (z <? 0); [cbn; lia|]. unfold dec_N.
    destruct (dec_digits_cons (N.size_nat (Z.to_N z)) (Z.to_N z) "") as (c & r & ->). cbn. lia.
  - cbn [print_json fuel_of]. pose proof (quote_length s tail). lia.
  - destruct l as [|x r]; [cbn [print_json fuel_of]; rewrite length_app_str; cbn; lia|]. rewrite print_arr. cbn [String.length].
    enough (forall r, Forall (fun v => forall tail, wf_json v ->
              (fuel_of v + 2 * String.length tail + 1 <= 2 * String.length (print_json v tail))%nat) r ->
            wf_json (JArr r) -> (elems_fuel r + 2 * String.length tail + 2
              <= 2 * String.length (print_elems r tail))%nat) as He.
    { apply Forall_cons in IH as [Hx Hr]. destruct Hw as [Hw1 Hw2].
      specialize (He r Hr Hw2). specialize (Hx (print_elems r tail) Hw1).
      change (fuel_of (JArr (x :: r))) with (S (S (fuel_of x + elems_fuel r))). lia. }
    clear. induction r as [|y r IHr]; intros HF Hw; [cbn; lia|].
    apply Forall_cons in HF as [Hy HF]. destruct Hw as [Hw1 Hw2].
    specialize (IHr HF Hw2). specialize (Hy (print_elems r tail) Hw1).
    cbn [print_elems String.length]. change (elems_fuel (y :: r)) with (S (fuel_of y + elems_fuel r)). lia.
  - destruct l as [|[k x] r]; [cbn [print_json fuel_of]; rewrite length_app_str; cbn; lia|]. rewrite print_obj. cbn [String.length].
    enough (forall r, Forall (fun kv => forall tail, wf_json kv.2 ->
              (fuel_of kv.2 + 2 * String.length tail + 1 <= 2 * String.length (print_json kv.2 tail))%nat) r ->
            wf_json (JObj r) -> (members_fuel r + 2 * String.length tail + 2
              <= 2 * String.length (print_members r tail))%nat) as He.
    { apply Forall_cons in IH as [Hx Hr]. destruct Hw as (_ & Hw1 & Hw2).
      specialize (He r Hr Hw2). specialize (Hx (print_members r tail) Hw1). cbn [snd] in Hx.
      pose proof (quote_length k (String ":" (print_json x (print_members r tail)))) as Hq.
      cbn [String.length] in Hq.
      change (fuel_of (JObj ((k, x) :: r))) with (S (S (fuel_of x + members_fuel r))). lia. }
    clear. induction r as [|[k y] r IHr]; intros HF Hw; [cbn; lia|].
    apply Forall_cons in HF as [Hy HF]. destruct Hw as (_ & Hw1 & Hw2).
    specialize (IHr HF Hw2). specialize (Hy (print_members r tail) Hw1). cbn [snd] in Hy.
    pose proof (quote_length k (String ":" (print_json y (print_members r tail)))) as Hq.
    cbn [print_members String.length] in *.
    change (members_fuel ((k, y) :: r)) with (S (fuel_of y + members_fuel r)). lia.
Qed.

(** A value the program marshals parses back to itself, invalid bytes of its
    strings replaced: no field is lost, merged or reinterpreted between
    [json.Marshal] and [json.Unmarshal]. *)
Lemma parse_print v : wf_json v -> depth_of v <= max_depth -> parse_json (marshal v) = Some (coerce v).
Proof.
  intros Hw Hd. unfold parse_json, marshal. pose proof (print_length v "" Hw) as Hl. cbn in Hl.
  rewrite parse_value_print; [done|done| |lia|lia|done]. unfold json_fuel. lia.
Qed.

(** ** No NUL byte parses

    JSON admits no byte below 0x20 outside white space, so a line holding a
    NUL (the trace of a torn write) is never a record. *)
Definition eats (s rest : string) : Prop := has_byte nul s = has_byte nul rest.

Lemma eats_cons c s rest : c <> nul -> eats s rest -> eats (String c s) rest.
Proof.
  unfold eats. intros Hc <-. cbn [has_byte]. by rewrite (proj2 (ascii_eqb_false nul c)) by congruence.
Qed.

Lemma not_nul_ge c : 1 <= byte_val c -> c <> nul.
Proof. intros H ->. by compute in H. Qed.

Lemma hex_val_not_nul c v : hex_val c = Some v -> c <> nul.
Proof. intros H ->. by compute in H. Qed.

Lemma hex4_not_nul a b c d v :
  hex4 a b c d = Some v -> a <> nul /\ b <> nul /\ c <> nul /\ d <> nul.
Proof.
  unfold hex4. intros H. 
  destruct (hex_val a) eqn:Ha; [|done]. destruct (hex_val b) eqn:Hb; [|done].
  destruct (hex_val c) eqn:Hc; [|done]. destruct (hex_val d) eqn:Hd; [|done].
  repeat split; by eapply hex_val_not_nul.
Qed.

Lemma cont_not_nul c : cont_byte c = true -> c <> nul.
Proof. intros H ->. by compute in H. Qed.

Lemma in_range_true lo hi v : in_range lo hi v = true -> lo <= v <= hi.
Proof. unfold in_range. intros. bool_prop. lia. Qed.

Lemma utf8_size_conts c c1 c2 c3 r :
  (utf8_size c (String c1 r) = 2%nat -> c1 <> nul) /\
  (utf8_size c (String c1 (String c2 r)) = 3%nat -> c1 <> nul /\ c2 <> nul) /\
  (utf8_size c (String c1 (String c2 (String c3 r))) = 4%nat -> c1 <> nul /\ c2 <> nul /\ c3 <> nul).
Proof.
  unfold utf8_size.
  split; [|split]; intros H; case_in H; bool_prop; repeat (apply conj);
    try (by apply cont_not_nul);
    repeat match goal with HR : (if ?b then _ else _) = true |- _ => destruct b end;
    repeat match goal with HR : in_range _ _ _ = true |- _ => apply in_range_true in HR end;
    try (apply not_nul_ge; lia).
Qed.

Lemma put1_inv c o s rest : put1 c o = Some (s, rest) -> exists s', o = Some (s', rest).
Proof. destruct o as [[]|]; cbn; [|done]. intros [= <- <-]. eauto. Qed.
Lemma put_inv p o s rest : put p o = Some (s, rest) -> exists s', o = Some (s', rest).
Proof. destruct o as [[]|]; cbn; [|done]. intros [= <- <-]. eauto. Qed.

Ltac put_invs H :=
  repeat match type of H with
         | put1 _ _ = Some _ => apply put1_inv in H as [? H]
         | put _ _ = Some _ => apply put_inv in H as [? H]
         end.

Lemma parse_str_eats s x rest : parse_str s = Some (x, rest) -> eats s rest.
Proof.
  remember (String.length s) as n eqn:Hn. revert s x rest Hn.
  induction (lt_wf n) as [n _ IH']. intros s x rest -> H.
  assert (IH : forall s' x', (String.length s' < String.length s)%nat ->
                 parse_str s' = Some (x', rest) -> eats s' rest) by eauto.
  clear IH'. destruct s as [|c r]; [done|]. cbn [parse_str] in H.
  destruct (ascii_eqb c quote_c) eqn:E1.
  { simplify_eq. apply ascii_eqb_true in E1 as ->. by apply eats_cons. }
  destruct (ascii_eqb c backslash) eqn:E2.
  { apply ascii_eqb_true in E2 as ->. apply eats_cons; [done|].
    destruct r as [|e r1]; [done|].
    destruct (unescape1 e) eqn:Eu.
    { put_invs H. apply eats_cons; [by intros ->|]. eapply IH; [|done]. cbn; lia. }
    destruct (ascii_eqb e "u"%char) eqn:Ee; [|done]. apply ascii_eqb_true in Ee as ->.
    destruct r1 as [|h1 [|h2 [|h3 [|h4 r2]]]]; try done.
    destruct (hex4 h1 h2 h3 h4) as [code|] eqn:Eh; [|done].
    apply hex4_not_nul in Eh as (? & ? & ? & ?).
    do 5 (apply eats_cons; [done|]).
    assert (Hr2 : forall x', parse_str r2 = Some (x', rest) -> eats r2 rest)
      by (intros; eapply IH; [|done]; cbn; lia).
    destruct (is_surrogate code); [|put_invs H; eauto].
    destruct r2 as [|b [|u [|g1 [|g2 [|g3 [|g4 r3]]]]]]; try (put_invs H; by eauto).
    destruct (ascii_eqb b backslash && ascii_eqb u "u"%char) eqn:Eb; [|put_invs H; by eauto].
    apply andb_true_iff in Eb as [Eb1 Eb2]. apply ascii_eqb_true in Eb1 as ->, Eb2 as ->.
    destruct (hex4 g1 g2 g3 g4) as [code2|] eqn:Eg; [|put_invs H; by eauto].
    apply hex4_not_nul in Eg as (? & ? & ? & ?).
    destruct (decode_utf16 code code2); put_invs H; [|by eauto].
    do 6 (apply eats_cons; [done|]). eapply IH; [|done]. cbn; lia. }
  destruct (byte_val c <? 32) eqn:E3; [done|]. bool_prop.
  assert (c <> nul) by (apply not_nul_ge; lia). apply eats_cons; [done|].
  assert (Hr : forall x', parse_str r = Some (x', rest) -> eats r rest)
    by (intros; eapply IH; [|done]; cbn; lia).
  destruct (utf8_size c r) as [|[|[|[|[|k]]]]] eqn:Hz; destruct r as [|c1 [|c2 [|c3 r]]];
    put_invs H; try (by eauto);
    try (pose proof (utf8_size_conts c c1 c2 c3 r) as (_ & _ & Hc); specialize (Hc Hz));
    try (pose proof (utf8_size_conts c c1 c2 c2 (String c3 r)) as (_ & Hc & _); specialize (Hc Hz));
    try (pose proof (utf8_size_conts c c1 c2 c2 "") as (_ & Hc & _); specialize (Hc Hz));
    try (pose proof (utf8_size_conts c c1 c1 c1 (String c2 (String c3 r))) as (Hc & _ & _); specialize (Hc Hz));
    try (pose proof (utf8_size_conts c c1 c1 c1 (String c2 "")) as (Hc & _ & _); specialize (Hc Hz));
    try (pose proof (utf8_size_conts c c1 c1 c1 "") as (Hc & _ & _); specialize (Hc Hz));
    destruct_and?; repeat (apply eats_cons; [done|]); (eapply IH; [|done]; cbn; lia).
Qed.

Lemma span_digits_eats s : eats s (span_digits s).2.
Proof.
  induction s as [|c r IH]; [done|]. cbn. destruct (is_digit c) eqn:E; [|done]. cbn.
  apply eats_cons; [by intros ->|done].
Qed.

Lemma digits1_eats s x rest : digits1 s = Some (x, rest) -> eats s rest.
Proof.
  unfold digits1. pose proof (span_digits_eats s). destruct (span_digits s) as [[] ?]; [done|].
  intros. by simplify_eq.
Qed.

Lemma cut_prefix_eats p s rest : has_byte nul p = false -> cut_prefix p s = Some rest -> eats s rest.
Proof.
  intros Hp H. apply cut_prefix_Some in H as ->. induction p as [|c p IH]; [done|].
  rewrite app_cons_str. cbn [has_byte] in Hp. apply orb_false_iff in Hp as [Hc Hp].
  apply ascii_eqb_false in Hc. apply eats_cons; [congruence|auto].
Qed.

Lemma parse_unsigned_eats s x rest : parse_unsigned s = Some (x, rest) -> eats s rest.
Proof.
  unfold parse_unsigned. destruct (parse_int_part s) as [[i r]|] eqn:Ei; [|done].
  destruct (parse_frac r) as [[f r1]|] eqn:Ef; [|done]. intros H. put_invs H.
  transitivity (has_byte nul r); [|transitivity (has_byte nul r1)].
  - destruct s as [|c s]; [done|]. cbn [parse_int_part] in Ei.
    destruct (ascii_eqb c "0"%char) eqn:E; [|by apply digits1_eats in Ei].
    apply ascii_eqb_true in E as ->. simplify_eq. by apply eats_cons.
  - destruct r as [|c r]; [by simplify_eq/=|].
    destruct (ascii_eqb c "."%char) eqn:E.
    + apply ascii_eqb_true in E as ->. cbn in Ef. put_invs Ef. apply eats_cons; [done|].
      by apply digits1_eats in Ef.
    + apply ascii_eqb_false in E. 
      assert (parse_frac (String c r) = Some ("", String c r)) by (unfold parse_frac; case_all).
      by simplify_eq.
  - destruct r1 as [|c r1]; [by simplify_eq/=|]. cbn [parse_exp] in H.
    destruct (ascii_eqb c "e"%char || ascii_eqb c "E"%char) eqn:E; [|by simplify_eq].
    apply orb_true_iff in E. rewrite !ascii_eqb_true in E.
    apply eats_cons; [by destruct E as [-> | ->]|].
    destruct r1 as [|g r1]; [done|].
    destruct (ascii_eqb g "+"%char || ascii_eqb g "-"%char) eqn:E'; put_invs H.
    + apply orb_true_iff in E'. rewrite !ascii_eqb_true in E'.
      apply eats_cons; [by destruct E' as [-> | ->]|]. by apply digits1_eats in H.
    + by apply digits1_eats in H.
Qed.

Lemma parse_num_eats s x rest : parse_num s = Some (x, rest) -> eats s rest.
Proof.
  destruct s as [|c s]; [done|]. destruct (ascii_eqb c "-"%char) eqn:E.
  - apply ascii_eqb_true in E as ->. cbn. intros H. put_invs H. apply eats_cons; [done|].
    by eapply parse_unsigned_eats.
  - apply ascii_eqb_false in E.
    assert (parse_num (String c s) = parse_unsigned (String c s)) as -> by (unfold parse_num; case_all).
    apply parse_unsigned_eats.
Qed.

Lemma skip_ws_eats s : eats s (skip_ws s).
Proof.
  induction s as [|c r IH]; [done|]. cbn [skip_ws]. destruct (is_ws c) eqn:E; [|done].
  apply eats_cons; [by intros ->|done].
Qed.

Lemma eats_trans s t u : eats s t -> eats t u -> eats s u.
Proof. unfold eats. congruence. Qed.

Lemma eats_ws s c r : skip_ws s = String c r -> c <> nul -> eats s r.
Proof.
  intros H Hc. eapply eats_trans; [apply skip_ws_eats|]. rewrite H. by apply eats_cons.
Qed.

Lemma parse_eats fuel :
  (forall d s v rest, parse_value fuel d s = Some (v, rest) -> eats s rest) /\
  (forall d s v rest, parse_members fuel d s = Some (v, rest) -> eats s rest) /\
  (forall d s v rest, parse_elems fuel d s = Some (v, rest) -> eats s rest).
Proof.
  induction fuel as [|f (IHv & IHm & IHe)]; [done|]. split; [|split]; intros d s v rest H.
  - cbn [parse_value] in H. destruct (skip_ws s) as [|c r] eqn:Es; [done|].
    destruct (ascii_eqb c "{"%char) eqn:E1.
    { apply ascii_eqb_true in E1 as ->. destruct (d >=? max_depth); [done|].
      eapply eats_trans; [by eapply eats_ws|]. 
      destruct (skip_ws r) as [|c2 r2] eqn:Er; [done|].
      destruct (ascii_eqb c2 "}"%char) eqn:E2.
      - apply ascii_eqb_true in E2 as ->. simplify_eq. by eapply eats_ws.
      - destruct (parse_members f (d + 1) (String c2 r2)) as [[]|] eqn:Em; [|done]. simplify_eq.
        eapply eats_trans; [apply skip_ws_eats|]. rewrite Er. eauto. }
    destruct (ascii_eqb c "["%char) eqn:E1b.
    { apply ascii_eqb_true in E1b as ->. destruct (d >=? max_depth); [done|].
      eapply eats_trans; [by eapply eats_ws|]. 
      destruct (skip_ws r) as [|c2 r2] eqn:Er; [done|].
      destruct (ascii_eqb c2 "]"%char) eqn:E2.
      - apply ascii_eqb_true in E2 as ->. simplify_eq. by eapply eats_ws.
      - destruct (parse_elems f (d + 1) (String c2 r2)) as [[]|] eqn:Em; [|done]. simplify_eq.
        eapply eats_trans; [apply skip_ws_eats|]. rewrite Er. eauto. }
    assert (Hlit : forall k p (w : json), c = k -> k <> nul -> has_byte nul p = false ->
      match cut_prefix p r with Some r' => Some (w, r') | None => None end = Some (v, rest) -> eats s rest).
    { intros k p w -> Hk Hp Hm. destruct (cut_prefix p r) eqn:Ep; [|done]. simplify_eq.
      eapply eats_trans; [by eapply eats_ws|]. by eapply cut_prefix_eats. }
    destruct (ascii_eqb c quote_c) eqn:E3.
    { apply ascii_eqb_true in E3 as ->. destruct (parse_str r) as [[]|] eqn:Ep; [|done]. simplify_eq.
      eapply eats_trans; [by eapply eats_ws|]. by eapply parse_str_eats. }
    destruct (ascii_eqb c "t"%char) eqn:E4; [apply ascii_eqb_true in E4; by apply (Hlit "t"%char "rue" (JBool true))|].
    destruct (ascii_eqb c "f"%char) eqn:E5; [apply ascii_eqb_true in E5; by apply (Hlit "f"%char "alse" (JBool false))|].
    destruct (ascii_eqb c "n"%char) eqn:E6; [apply ascii_eqb_true in E6; by apply (Hlit "n"%char "ull" (JNull))|].
    destruct (parse_num (String c r)) as [[]|] eqn:Ep; [|done]. simplify_eq.
    eapply eats_trans; [apply skip_ws_eats|]. rewrite Es. by eapply parse_num_eats.
  - cbn [parse_members] in H. destruct (skip_ws s) as [|q r] eqn:Es; [done|].
    destruct (ascii_eqb q quote_c) eqn:E1; [|done]. apply ascii_eqb_true in E1 as ->.
    eapply eats_trans; [by eapply eats_ws|].
    destruct (parse_str r) as [[k r1]|] eqn:Ep; [|done]. apply parse_str_eats in Ep.
    eapply eats_trans; [exact Ep|].
    destruct (skip_ws r1) as [|c2 r2] eqn:E2; [done|].
    destruct (ascii_eqb c2 ":"%char) eqn:Ec; [|done].
    apply ascii_eqb_true in Ec as ->. eapply eats_trans; [by eapply eats_ws|].
    destruct (parse_value f d r2) as [[v' r3]|] eqn:Ev; [|done]. apply IHv in Ev.
    eapply eats_trans; [exact Ev|].
    destruct (skip_ws r3) as [|c4 r4] eqn:E3; [done|].
    destruct (ascii_eqb c4 ","%char) eqn:Ec4.
    { apply ascii_eqb_true in Ec4 as ->. eapply eats_trans; [by eapply eats_ws|].
      destruct (parse_members f d r4) as [[]|] eqn:Em; [|done]. simplify_eq. eauto. }
    destruct (ascii_eqb c4 "}"%char) eqn:Ec5; [|done].
    apply ascii_eqb_true in Ec5 as ->. simplify_eq. by eapply eats_ws.
  - cbn [parse_elems] in H. destruct (parse_value f d s) as [[v' r3]|] eqn:Ev; [|done].
    apply IHv in Ev. eapply eats_trans; [exact Ev|].
    destruct (skip_ws r3) as [|c4 r4] eqn:E3; [done|].
    destruct (ascii_eqb c4 ","%char) eqn:Ec4.
    { apply ascii_eqb_true in Ec4 as ->. eapply eats_trans; [by eapply eats_ws|].
      destruct (parse_elems f d r4) as [[]|] eqn:Em; [|done]. simplify_eq. eauto. }
    destruct (ascii_eqb c4 "]"%char) eqn:Ec5; [|done].
    apply ascii_eqb_true in Ec5 as ->. simplify_eq. by eapply eats_ws.
Qed.

Lemma parse_json_no_nul s v : parse_json s = Some v -> has_byte nul s = false.
Proof.
  unfold parse_json. destruct (parse_value (json_fuel s) 0 s) as [[v' rest]|] eqn:E; [|done].
  apply parse_eats in E. intros H. rewrite E, (skip_ws_eats rest).
  by destruct (skip_ws rest).
Qed.

(** ** No newline is printed

    [json.Marshal] escapes every control character, so a marshalled record is
    one ledger line. *)
Lemma ascii_neq_ge c d : byte_val c <> byte_val d -> ascii_eqb d c = false.
Proof. intros H. apply ascii_eqb_false. congruence. Qed.

Lemma hex_digit_not_nl n : ascii_eqb newline (hex_digit n) = false.
Proof.
  apply ascii_neq_ge. intros E. pose proof (hex_val_digit n) as H. unfold hex_val in H. rewrite E in H.
  by compute in H.
Qed.

Lemma u_escape_nl h1 h2 h3 h4 t :
  ascii_eqb newline h1 = false -> ascii_eqb newline h2 = false ->
  ascii_eqb newline h3 = false -> ascii_eqb newline h4 = false ->
  has_byte newline (u_escape h1 h2 h3 h4 t) = has_byte newline t.
Proof. intros H1 H2 H3 H4. unfold u_escape. cbn [has_byte]. rewrite H1, H2, H3, H4. done. Qed.

Lemma esc_ascii_nl c t : byte_val c < 128 -> has_byte newline (esc_ascii c t) = has_byte newline t.
Proof.
  intros Hc. unfold esc_ascii. destruct (html_safe c) eqn:E.
  - unfold html_safe in E. bool_prop. cbn [has_byte]. rewrite ascii_neq_ge; [done|].
    match goal with H : in_range 32 127 _ = true |- _ => apply in_range_true in H end. change (byte_val newline) with 10. lia.
  - destruct (short_escape c) as [e|] eqn:Es.
    + cbn [has_byte]. change (ascii_eqb newline backslash) with false. cbn [orb].
      assert (ascii_eqb newline e = false) as ->; [|done]. revert Es. unfold short_escape. clear.
      repeat (match goal with |- context [if ?b then _ else _] => destruct b end; [intros [= <-]; done|]). done.
    + apply u_escape_nl; try done; apply hex_digit_not_nl.
Qed.

(** The bytes of a multi-byte encoding are all at least 128. *)
Lemma utf8_size_high c c1 c2 c3 r :
  (utf8_size c (String c1 r) = 2%nat -> 128 <= byte_val c1) /\
  (utf8_size c (String c1 (String c2 r)) = 3%nat -> 128 <= byte_val c1 /\ 128 <= byte_val c2) /\
  (utf8_size c (String c1 (String c2 (String c3 r))) = 4%nat ->
   128 <= byte_val c1 /\ 128 <= byte_val c2 /\ 128 <= byte_val c3).
Proof.
  unfold utf8_size, cont_byte.
  split; [|split]; intros H; case_in H; bool_prop;
    repeat match goal with HR : (if ?b then _ else _) = true |- _ => destruct b end;
    repeat match goal with HR : in_range _ _ _ = true |- _ => apply in_range_true in HR end; lia.
Qed.

Lemma esc_nl s t : has_byte newline (esc s t) = has_byte newline t.
Proof.
  induction s as [s IH] using (induction_ltof1 _ String.length). unfold ltof in IH.
  destruct s as [|c r]; [done|]. cbn [esc]. pose proof (utf8_size_bound c r) as Hb.
  assert (Hge : forall d, 128 <= byte_val d -> ascii_eqb newline d = false).
  { intros d Hd. apply ascii_neq_ge. change (byte_val newline) with 10. lia. }
  destruct (utf8_size c r) as [|[|[|[|[|k]]]]] eqn:Hz; [..|done].
  - rewrite u_escape_nl by done. apply IH. cbn; lia.
  - apply utf8_size_1 in Hz. rewrite esc_ascii_nl by done. apply IH. cbn; lia.
  - destruct Hb as (c1 & r1 & ->). pose proof (utf8_size_ge _ _ _ Hz) as Hc.
    pose proof (proj1 (utf8_size_high c c1 c1 c1 r1) Hz).
    cbn [has_byte]. rewrite (Hge c), (Hge c1), IH by (done || cbn; lia). done.
  - destruct Hb as (c1 & c2 & r2 & ->). pose proof (utf8_size_ge _ _ _ Hz) as Hc.
    destruct (line_sep c c1 c2); [rewrite u_escape_nl by (done || apply hex_digit_not_nl); apply IH; cbn; lia|].
    destruct (proj1 (proj2 (utf8_size_high c c1 c2 c1 r2)) Hz) as [H1 H2].
    cbn [has_byte]. rewrite (Hge c), (Hge c1), (Hge c2), IH by (done || cbn; lia). done.
  - destruct Hb as (c1 & c2 & c3 & r3 & ->). pose proof (utf8_size_ge _ _ _ Hz) as Hc.
    destruct (proj2 (proj2 (utf8_size_high c c1 c2 c3 r3)) Hz) as (H1 & H2 & H3).
    cbn [has_byte]. rewrite (Hge c), (Hge c1), (Hge c2), (Hge c3), IH by (done || cbn; lia). done.
Qed.

Lemma quote_nl s t : has_byte newline (quote_str s t) = has_byte newline t.
Proof. unfold quote_str. cbn [has_byte]. by rewrite esc_nl. Qed.

Lemma print_nl v tail : wf_json v -> has_byte newline (print_json v tail) = has_byte newline tail.
Proof.
  revert tail. induction v as [|b|lit|s|l IH|l IH] using json_nested_ind; intros tail Hw.
  - cbn [print_json]. by rewrite has_byte_app.
  - destruct b; cbn [print_json]; by rewrite has_byte_app.
  - destruct Hw as [z ->]. cbn [print_json]. by rewrite has_byte_app, itoa_no_byte.
  - apply quote_nl.
  - destruct l as [|x r]; [cbn [print_json]; by rewrite has_byte_app|].
    rewrite print_arr. cbn [has_byte]. change (ascii_eqb newline "["%char) with false. cbn [orb].
    apply Forall_cons in IH as [Hx HF]. destruct Hw as [Hw1 Hw]. rewrite Hx by done. clear Hx.
    induction HF as [|y r Hy HF IHr]; cbn [print_elems]; [done|]. destruct Hw as [Hw2 Hw].
    cbn [has_byte]. rewrite Hy by done. by apply IHr.
  - destruct l as [|[k x] r]; [cbn [print_json]; by rewrite has_byte_app|].
    rewrite print_obj. cbn [has_byte]. rewrite quote_nl. cbn [has_byte].
    apply Forall_cons in IH as [Hx HF]. destruct Hw as (_ & Hw1 & Hw). cbn [snd] in Hx. rewrite Hx by done. clear Hx.
    induction HF as [|[k' y] r Hy HF IHr]; cbn [print_members]; [done|]. destruct Hw as (_ & Hw2 & Hw).
    cbn [has_byte]. rewrite quote_nl. cbn [has_byte]. cbn [snd] in Hy. rewrite Hy by done. by apply IHr.
Qed.

(** ** Struct encoding

    A struct is marshalled field by field; a field under [omitempty] with its
    zero value is left out ([None]). *)
Definition omit (fs : list (string * option json)) : list (string * json) :=
  omap (fun kv => match kv.2 with Some v => Some (kv.1, v) | None => None end) fs.

Definition enc_str (s : string) : option json := Some (JStr s).
Definition enc_str_oe (s : string) : option json := if bool_decide (s = "") then None else Some (JStr s).
Definition enc_int (z : Z) : option json := Some (JNum (itoa z)).
Definition enc_int_oe (z : Z) : option json := if z =? 0 then None else Some (JNum (itoa z)).
Definition enc_bool_oe (b : bool) : option json := if b then Some (JBool true) else None.
Definition enc_ptr_int (p : ptr Z) : option json := match p with Some z => Some (JNum (itoa z)) | None => None end.
Definition enc_strs_oe (l : list string) : option json := match l with [] => None | _ => Some (JArr (map JStr l)) end.
(** A slice without [omitempty]: nil is null. *)
Definition enc_strs (l : option (list string)) : option json :=
  match l with None => Some JNull | Some l => Some (JArr (map JStr l)) end.

(** Decoding the values of one key into a variable that holds [cur]. *)
Fixpoint dec_field {A : Type} (dec : json -> A -> option A) (vs : list json) (cur : A) : option A :=
  match vs with
  | [] => Some cur
  | v :: r => match dec v cur with Some a => dec_field dec r a | None => None end
  end.

Definition dec_str (v : json) (cur : string) : option string :=
  match v with JNull => Some cur | JStr s => Some s | _ => None end.
Definition dec_int (v : json) (cur : Z) : option Z :=
  match v with JNull => Some cur | JNum l => parse_int64 l | _ => None end.
Definition dec_bool (v : json) (cur : bool) : option bool :=
  match v with JNull => Some cur | JBool b => Some b | _ => None end.
Definition dec_ptr_int (v : json) (cur : ptr Z) : option (ptr Z) :=
  match v with JNull => Some None | JNum l => match parse_int64 l with Some z => Some (Some z) | None => None end | _ => None end.

(** An element of a string slice; null leaves the fresh element empty. *)
Definition dec_elem (v : json) : option string :=
  match v with JNull => Some "" | JStr s => Some s | _ => None end.
Definition dec_strs (v : json) (cur : list string) : option (list string) :=
  match v with JNull => Some [] | JArr l => mapM dec_elem l | _ => None end.
Definition dec_strs_nil (v : json) (cur : option (list string)) : option (option (list string)) :=
  match v with
  | JNull => Some None
  | JArr l => match mapM dec_elem l with Some x => Some (Some x) | None => None end
  | _ => None
  end.

Lemma omit_cons k v fs : omit ((k, v) :: fs) = match v with Some x => [(k, x)] | None => [] end ++ omit fs.
Proof. by destruct v. Qed.

Lemma field_values_app name l1 l2 : field_values name (l1 ++ l2) = field_values name l1 ++ field_values name l2.
Proof. unfold field_values. by rewrite filter_app, map_app. Qed.

Definition coerce_fields (l : list (string * json)) : list (string * json) := map (fun kv => (kv.1, coerce kv.2)) l.

Lemma field_values_coerce name l : field_values name (coerce_fields l) = map coerce (field_values name l).
Proof.
  unfold field_values, coerce_fields. induction l as [|[k v] l IH]; [done|]. cbn [map].
  rewrite !filter_cons. cbn [fst]. destruct (decide (key_matches name k = true)); cbn; by rewrite IH.
Qed.

(** In a struct whose field names differ under folding, a field's values are
    the one value written for it, if any. *)
Lemma field_values_omit fs k v :
  NoDup (map (fun kv => fold_key kv.1) fs) -> (k, v) ∈ fs ->
  field_values k (omit fs) = match v with Some x => [x] | None => [] end.
Proof.
  induction fs as [|[k' v'] fs IH]; intros HN Hin; [by apply not_elem_of_nil in Hin|].
  cbn [map fst] in HN. apply NoDup_cons in HN as [Hn HN].
  assert (Hrest : forall k0, fold_key k0 = fold_key k' -> field_values k0 (omit fs) = []).
  { intros k0 E. unfold field_values. rewrite filter_none; [done|]. apply Forall_forall.
    intros [k1 x] Hx. unfold omit in Hx. apply list_elem_of_omap in Hx as ([k2 v2] & Hin2 & Hv2). cbn in Hv2.
    destruct v2; [|done]. simplify_eq. cbn [fst]. unfold key_matches. rewrite orb_true_iff, !bool_decide_eq_true.
    intros Hm. apply Hn, list_elem_of_fmap. exists (k1, Some x). split; [|done]. cbn. destruct Hm as [->|Hm]; congruence. }
  rewrite omit_cons, field_values_app. apply elem_of_cons in Hin as [[= -> ->]|Hin].
  - rewrite Hrest, app_nil_r by done. destruct v' as [x|]; [|done].
    unfold field_values. rewrite filter_cons. cbn [fst]. unfold key_matches. by rewrite (bool_decide_true (k' = k')).
  - rewrite IH by done. destruct v' as [x|]; [|done].
    unfold field_values. rewrite filter_cons. cbn [fst]. rewrite decide_False; [done|].
    unfold key_matches. rewrite orb_true_iff, !bool_decide_eq_true. intros Hm.
    apply Hn, list_elem_of_fmap. exists (k, v). split; [|done]. cbn. destruct Hm as [->|Hm]; congruence.
Qed.

Lemma field_values_absent fs k :
  fold_key k ∉ map (fun kv => fold_key kv.1) fs -> field_values k (omit fs) = [].
Proof.
  intros Hn. unfold field_values. rewrite filter_none; [done|]. apply Forall_forall. intros [k1 x] Hx.
  unfold omit in Hx. apply list_elem_of_omap in Hx as ([k2 v2] & Hin2 & Hv2). cbn in Hv2.
  destruct v2; [|done]. simplify_eq. cbn [fst]. unfold key_matches. rewrite orb_true_iff, !bool_decide_eq_true.
  intros Hm. apply Hn, list_elem_of_fmap. exists (k1, Some x). split; [|done]. cbn. destruct Hm as [->|Hm]; congruence.
Qed.
