(* ===== verification/Paths.v ===== *)
(** * Slash-separated paths ([path/filepath] on Unix)

    The lexical path functions the sources use, on path components: [Clean],
    [IsAbs], [Dir], [Join] and [Rel].  A cleaned path is a root flag and a
    list of components in which [..] occurs only at the front of a relative
    path. *)
From S2P Require Import Prelude Sha256 GoStr.

Definition slash : ascii := "/"%char.

Definition IsAbs (p : string) : bool := has_prefix p "/".

(** A path as its root flag and components. *)
Record path : Type := MkPath { rooted : bool; comps : list string }.

#[global] Instance path_eq_dec : EqDecision path.
Proof. solve_decision. Defined.

(** The elements of a raw path, through which [Clean] walks: the stack [out]
    is kept in reverse. *)
Fixpoint clean_comps (root : bool) (out : list string) (elems : list string) : list string :=
  match elems with
  | [] => rev out
  | e :: r =>
      if bool_decide (e = "") || bool_decide (e = ".") then clean_comps root out r
      else if bool_decide (e = "..") then
        match out with
        | [] => if root then clean_comps root [] r else clean_comps root [".."] r
        | o :: out' =>
            if bool_decide (o = "..") then clean_comps root (".." :: out) r
            else clean_comps root out' r
        end
      else clean_comps root (e :: out) r
  end.

Definition parse_path (p : string) : path := MkPath (IsAbs p) (clean_comps (IsAbs p) [] (split_on slash p)).

Definition print_path (p : path) : string :=
  if rooted p then "/" +:+ join "/" (comps p)
  else if bool_decide (comps p = []) then "." else join "/" (comps p).

Definition Clean (p : string) : string := print_path (parse_path p).

(** [filepath.Join]: empty elements are dropped, the rest joined and cleaned. *)
Definition Join (elems : list string) : string :=
  match filter (fun e => e <> "") elems with
  | [] => ""
  | es => Clean (join "/" es)
  end.

(** [filepath.Dir]: everything up to the last slash, cleaned. *)
Fixpoint drop_last {A} (l : list A) : list A :=
  match l with
  | [] => []
  | [_] => []
  | x :: r => x :: drop_last r
  end.

Definition Dir (p : string) : string :=
  match split_on slash p with
  | [] | [_] => "."
  | es => match drop_last es with
          | [""] => "/"
          | ds => Clean (join "/" ds)
          end
  end.

Fixpoint strip_common (b t : list string) : list string * list string :=
  match b, t with
  | x :: b', y :: t' => if bool_decide (x = y) then strip_common b' t' else (b, t)
  | _, _ => (b, t)
  end.

(** [filepath.Rel base targ]: an error when one is absolute and the other is
    not, or when the rest of [base] begins with [..]. *)
Definition Rel (base targ : string) : option string :=
  let b := parse_path base in
  let t := parse_path targ in
  if bool_decide (b = t) then Some "."
  else if negb (Bool.eqb (rooted b) (rooted t)) then None
  else
    let '(br, tr) := strip_common (comps b) (comps t) in
    if bool_decide (head br = Some "..") then None
    else Some (join "/" (map (fun _ => "..") br ++ tr)).

(** ** Facts *)
Definition plain (e : string) : Prop := e <> "" /\ e <> "." /\ e <> ".." /\ has_byte slash e = false.

Lemma split_on_no_sep c s : Forall (fun e => has_byte c e = false) (split_on c s).
Proof.
  induction s as [|a s IH]; cbn; [by repeat constructor|].
  destruct (ascii_eqb c a) eqn:E; [by constructor|].
  destruct (split_on c s) as [|e es]; [by constructor; [cbn; rewrite E|]|].
  inversion IH; subst. constructor; [cbn; by rewrite E|done].
Qed.

Lemma split_on_plain c e : has_byte c e = false -> split_on c e = [e].
Proof. induction e as [|a e IH]; [done|]. cbn. intros [-> H]%orb_false_iff. by rewrite IH. Qed.

Lemma split_on_app c e t : has_byte c e = false -> split_on c (e +:+ String c t) = e :: split_on c t.
Proof.
  induction e as [|a e IH]; intros H.
  - change ("" +:+ String c t) with (String c t). cbn [split_on]. by rewrite ascii_eqb_refl.
  - rewrite app_cons_str. cbn in *. apply orb_false_iff in H as [-> H]. by rewrite IH.
Qed.

Lemma join_cons e e' es : join "/" (e :: e' :: es) = e +:+ String slash (join "/" (e' :: es)).
Proof. reflexivity. Qed.

Lemma split_on_join es : es <> [] -> Forall (fun e => has_byte slash e = false) es ->
  split_on slash (join "/" es) = es.
Proof.
  intros Hne HF. induction HF as [|e es He HF IH]; [done|].
  destruct es as [|e' es']; [by apply split_on_plain|].
  rewrite join_cons, split_on_app by done. by rewrite IH.
Qed.

(** A reversed stack of components as [Clean] keeps it. *)
Definition normal (root : bool) (out : list string) : Prop :=
  exists pl n, out = pl ++ replicate n ".." /\ Forall plain pl /\ (root = true -> n = O).

Lemma normal_clean root out es :
  normal root out -> Forall (fun e => has_byte slash e = false) es ->
  normal root (rev (clean_comps root out es)).
Proof.
  intros Hn HF. revert out Hn; induction HF as [|e es He HF IH]; intros out Hn; cbn [clean_comps].
  { by rewrite rev_involutive. }
  destruct (bool_decide (e = "") || bool_decide (e = ".")) eqn:E1; [by apply IH|].
  destruct (bool_decide (e = "..")) eqn:E2.
  - destruct Hn as (pl & n & -> & Hpl & Hr). destruct pl as [|o pl]; cbn [app].
    + destruct n as [|n]; cbn [replicate].
      * destruct root; apply IH; [by exists [], O|by exists [], 1%nat].
      * rewrite bool_decide_true by done. apply IH. exists [], (S (S n)). split_and!; try done.
        intros ?%Hr. done.
    + inversion Hpl as [|? ? (? & ? & Ho & ?) Hpl']; subst. rewrite bool_decide_false by done.
      apply IH. by exists pl, n.
  - apply IH. destruct Hn as (pl & n & -> & Hpl & Hr). exists (e :: pl), n. split_and!; try done.
    constructor; [|done]. bool_prop. by repeat split.
Qed.

Lemma clean_plain root out es : Forall plain es -> clean_comps root out es = rev out ++ es.
Proof.
  intros HF; revert out; induction HF as [|e es (H1 & H2 & H3 & H4) HF IH]; intros out; cbn [clean_comps].
  { by rewrite app_nil_r. }
  rewrite !bool_decide_false by done. cbn. rewrite IH. cbn. by rewrite <- app_assoc.
Qed.

Lemma clean_dots n out es :
  Forall (fun o => o = "..") out ->
  clean_comps false out (replicate n ".." ++ es) = clean_comps false (replicate n ".." ++ out) es.
Proof.
  revert out; induction n as [|n IH]; intros out Ho; cbn [replicate app clean_comps]; [done|].
  rewrite (bool_decide_false (".." = "")), (bool_decide_false (".." = ".")) by done. cbn [orb].
  rewrite bool_decide_true by done.
  assert (E : replicate n ".." ++ ".." :: out = ".." :: replicate n ".." ++ out).
  { clear. induction n; cbn; congruence. }
  destruct out as [|o out]; [by rewrite IH, E by (by constructor)|].
  inversion Ho; subst. rewrite bool_decide_true by done. rewrite IH by (by constructor). by rewrite E.
Qed.

Lemma clean_normal root cs : normal root (rev cs) -> clean_comps root [] cs = cs.
Proof.
  intros (pl & n & E & Hpl & Hr). apply (f_equal (@rev string)) in E.
  rewrite rev_involutive, rev_app_distr in E. assert (Hd : rev (replicate n "..") = replicate n "..").
  { clear. induction n; [done|]. cbn. rewrite IHn. clear. by induction n; cbn; [|rewrite IHn]. }
  rewrite Hd in E. subst cs. destruct root.
  - rewrite Hr by done. rewrite clean_plain; [done|]. by apply Forall_rev.
  - rewrite clean_dots, app_nil_r, clean_plain by (try done; by apply Forall_rev). by rewrite Hd.
Qed.

Lemma normal_no_slash root cs : normal root (rev cs) -> Forall (fun e => has_byte slash e = false) cs.
Proof.
  intros (pl & n & E & Hpl & _). apply (f_equal (@rev string)) in E. rewrite rev_involutive in E. subst cs.
  apply Forall_rev, Forall_app. split.
  - eapply Forall_impl; [exact Hpl|]. by intros ? (_ & _ & _ & ?).
  - by apply Forall_replicate.
Qed.

Lemma parse_normal p : normal (rooted (parse_path p)) (rev (comps (parse_path p))).
Proof. cbn. apply normal_clean; [by exists [], O|apply split_on_no_sep]. Qed.

Lemma normal_first root cs e es : normal root (rev cs) -> cs = e :: es -> e <> "" /\ has_byte slash e = false.
Proof.
  intros Hn ->. pose proof (normal_no_slash _ _ Hn) as HF. inversion HF; subst. split; [|done].
  destruct Hn as (pl & n & E & Hpl & _). cbn in E. intros ->.
  assert (Hin : "" ∈ pl ++ replicate n "..") by (rewrite <- E, elem_of_app; right; by apply list_elem_of_singleton).
  apply elem_of_app in Hin as [Hin|Hin].
  - by destruct (proj1 (Forall_forall _ _) Hpl _ Hin) as [? _].
  - apply elem_of_replicate in Hin as [? _]. done.
Qed.

Lemma has_prefix_slash_join e es : e <> "" -> has_byte slash e = false -> has_prefix (join "/" (e :: es)) "/" = false.
Proof.
  intros He Hs. destruct e as [|c e]; [done|]. cbn in Hs. apply orb_false_iff in Hs as [Hc _].
  assert (E : forall t, has_prefix (String c t) "/" = false).
  { intros t. unfold has_prefix. cbn. unfold slash in Hc. unfold ascii_eqb in *. by rewrite Hc. }
  destruct es; cbn [join]; [apply E|]. rewrite app_cons_str. apply E.
Qed.

(** Cleaning twice is cleaning once: the printed form parses back. *)
Lemma parse_print_path p : normal (rooted p) (rev (comps p)) -> parse_path (print_path p) = p.
Proof.
  intros Hn. destruct p as [root cs]. cbn in Hn. unfold print_path. cbn [rooted comps].
  assert (Hns := normal_no_slash _ _ Hn). destruct root.
  - unfold parse_path. change ("/" +:+ join "/" cs) with (String slash (join "/" cs)).
    assert (IsAbs (String slash (join "/" cs)) = true) as -> by done.
    f_equal. cbn [split_on]. rewrite ascii_eqb_refl.
    destruct cs as [|e es]; [done|]. rewrite split_on_join by done. exact (clean_normal true (e :: es) Hn).
  - destruct cs as [|e es]; [done|]. rewrite bool_decide_false by done.
    destruct (normal_first _ _ e es Hn eq_refl) as [He Hs].
    unfold parse_path, IsAbs. rewrite has_prefix_slash_join by done. f_equal.
    rewrite split_on_join by done. by apply clean_normal.
Qed.

Lemma parse_Clean p : parse_path (Clean p) = parse_path p.
Proof. apply parse_print_path, parse_normal. Qed.

Lemma IsAbs_Clean p : IsAbs (Clean p) = IsAbs p.
Proof. apply (f_equal rooted (parse_Clean p)). Qed.

Lemma strip_common_spec b t br tr : strip_common b t = (br, tr) ->
  exists c, b = c ++ br /\ t = c ++ tr /\ (br = [] \/ tr = [] \/ head br <> head tr).
Proof.
  revert t; induction b as [|x b IH]; intros [|y t] H; cbn in H; simplify_eq; [exists []; auto..|].
  destruct (bool_decide (x = y)) eqn:E; bool_prop.
  - subst. apply IH in H as (c & -> & -> & ?). by exists (y :: c).
  - simplify_eq. exists []. split_and!; [done..|]. right; right. cbn. congruence.
Qed.

Lemma rooted_plain p : rooted p = true -> normal (rooted p) (rev (comps p)) -> Forall plain (comps p).
Proof.
  intros Hr (pl & n & E & Hpl & Hn). rewrite Hn in E by done. cbn in E. rewrite app_nil_r in E.
  apply (f_equal (@rev string)) in E. rewrite rev_involutive in E. rewrite E. by apply Forall_rev.
Qed.

(** [Rel] between two absolute paths: the components left over on each side,
    and an empty rest of the base exactly when the base is a prefix. *)
Lemma Rel_abs base targ :
  IsAbs base = true -> IsAbs targ = true -> parse_path base <> parse_path targ ->
  exists br tr, Rel base targ = Some (join "/" (map (fun _ => "..") br ++ tr)) /\
    Forall plain br /\ Forall plain tr /\ (br = [] -> tr <> []) /\
    (comps (parse_path base) `prefix_of` comps (parse_path targ) <-> br = []).
Proof.
  intros Hb Ht Hne. set (b := parse_path base) in *. set (t := parse_path targ) in *.
  assert (Pb : Forall plain (comps b)) by (apply rooted_plain; [done|apply parse_normal]).
  assert (Pt : Forall plain (comps t)) by (apply rooted_plain; [done|apply parse_normal]).
  unfold Rel. fold b t. rewrite bool_decide_false by done.
  replace (rooted b) with true by done. replace (rooted t) with true by done. cbn [Bool.eqb negb].
  destruct (strip_common (comps b) (comps t)) as [br tr] eqn:Es.
  apply strip_common_spec in Es as (c & Eb & Et & Hd).
  rewrite Eb in Pb. rewrite Et in Pt. apply Forall_app in Pb as [_ Pb], Pt as [_ Pt].
  exists br, tr. rewrite bool_decide_false.
  2:{ destruct br; [done|]. inversion Pb as [|? ? (_ & _ & ? & _) _]; subst. cbn. congruence. }
  split_and!; [done..| |].
  - intros -> ->. apply Hne. destruct b as [rb cb] eqn:E1, t as [rt ct] eqn:E2.
    assert (rb = true) by (subst b; injection E1; intros; congruence).
    assert (rt = true) by (subst t; injection E2; intros; congruence).
    cbn in *. congruence.
  - rewrite Eb, Et. split; [|intros ->; by apply prefix_app, prefix_nil].
    intros Hp%prefix_app_inv. destruct Hp as [u Hu].
    destruct br as [|x br]; [done|]. rewrite Hu in Hd. cbn in Hd. naive_solver.
Qed.
