(* ===== verification/Ledger.v ===== *)
(** * The hash-chained ledger ([internal/ledger/ledger.go])

    A ledger file is a byte string of newline-terminated JSON lines; each
    line embeds the SHA-256 of the previous one.  [loadChain] is the one
    verifier (torn or broken, with the valid prefix), [Append] the one writer,
    and [OpenFrom], [Create], [Resume], [ReadVerifyFrom] and [VerifyReader]
    its entry points.  The file system enters as the bytes on disk and the
    outcome of each system call. *)
From S2P Require Import Prelude Sha256 GoStr Json.

(** ** Data *)
Record Start : Type := MkStart { StartPrev : string; StartBase : Z }.
Definition zeroStart : Start := MkStart "" 0.

Inductive LockMode : Type := Unlocked | Locked.

Record Head : Type := MkHead { Hash : string; Count : Z }.

(** A verified line, without its newline ([Record.Raw]). *)
Abbreviation Record_ := string (only parsing).

Inductive ledger_error : Type :=
  | TornError (offset : Z)
  | ChainBrokenError (line : Z)
  | ErrBadStart
  | ErrLockHeld
  | ErrExist
  | ErrNotExist
  | ErrIO                       (** any other system-call failure *)
  | ErrRead                     (** a read error that is not the end of the file *)
  | ErrInvalidRecord            (** not JSON, or no prev *)
  | ErrFork (linePrev head : string)
  | ErrSeq (want : Z)
  | ErrNotSeqMode.

#[global] Instance start_eq_dec : EqDecision Start.
Proof. solve_decision. Defined.
#[global] Instance head_eq_dec : EqDecision Head.
Proof. solve_decision. Defined.
#[global] Instance lock_mode_eq_dec : EqDecision LockMode.
Proof. solve_decision. Defined.
#[global] Instance ledger_error_eq_dec : EqDecision ledger_error.
Proof. solve_decision. Defined.

(** The writable handle.  [file] is the content of the open file. *)
Record Chain : Type := MkChain {
  file : string;
  mode : LockMode;
  base : Z;
  prevHash : string;
  count : Z;
  seqEstablished : bool;
  seqMode : bool;
}.

(** [Start.validate]: both set or both zero. *)
Definition validate (s : Start) : bool :=
  Bool.eqb (bool_decide (StartPrev s = "")) (StartBase s =? 0).

(** ** One line ([lineFields], [parseLineFields]) *)
Record lineFields : Type := MkLF { Prev : ptr string; Seq : ptr Z }.

(** Decoding the values of one key into a [*string] or a [*uint64]: null
    clears the pointer, a value of another type is an error. *)
Fixpoint decode_ptr {A : Type} (dec : json -> option A) (vs : list json) (cur : ptr A) : option (ptr A) :=
  match vs with
  | [] => Some cur
  | JNull :: r => decode_ptr dec r None
  | v :: r => match dec v with Some a => decode_ptr dec r (Some a) | None => None end
  end.

Definition as_string (v : json) : option string := match v with JStr s => Some s | _ => None end.
Definition as_uint64 (v : json) : option Z := match v with JNum l => parse_uint64 l | _ => None end.

Definition parseLineFields (raw : string) : option lineFields :=
  match parse_json raw with
  | Some (JObj fs) =>
      match decode_ptr as_string (field_values "prev" fs) None,
            decode_ptr as_uint64 (field_values "seq" fs) None with
      | Some (Some p), Some q => Some (MkLF (Some p) q)
      | _, _ => None
      end
  | _ => None
  end.

(** ** Reading ([loadChain]) *)

(** A reader: the bytes it yields, and whether it then fails with something
    other than the end of the file. *)
Record reader : Type := MkReader { rd_data : string; rd_fault : bool }.

(** The chunks [ReadBytes('\n')] returns: each line without its newline, and
    whether it was terminated. *)
Fixpoint split_lines (s : string) : list (string * bool) :=
  match s with
  | EmptyString => []
  | String c r =>
      if ascii_eqb c newline then ("", true) :: split_lines r
      else match split_lines r with
           | [] => [(String c "", false)]
           | (l, t) :: ls => (String c l, t) :: ls
           end
  end.

(** What [loadChain] returns, error or not. *)
Record loaded : Type := MkLoaded {
  ld_records : list Record_;
  ld_head : Head;
  ld_seqEstablished : bool;
  ld_seqMode : bool;
  ld_err : option ledger_error;
}.

Definition is_Some_b {A} (o : option A) : bool := match o with Some _ => true | None => false end.

Definition add_record (raw : string) (l : loaded) : loaded :=
  MkLoaded (raw :: ld_records l) (ld_head l) (ld_seqEstablished l) (ld_seqMode l) (ld_err l).

(** The verification loop: [i] lines are verified, the next begins at byte
    [off], must carry [prev], and the chain's seq mode is [(est, sm)]. *)
Fixpoint verify_lines (sbase : Z) (lines : list (string * bool)) (i off : Z) (prev : string) (est sm : bool)
  : loaded :=
  match lines with
  | [] => MkLoaded [] (MkHead prev i) est sm None
  | (raw, terminated) :: rest =>
      let isFinal := match rest with [] => true | _ => false end in
      let fail := MkLoaded [] (MkHead prev i) in
      if isFinal && (negb terminated || has_byte nul raw) then fail est sm (Some (TornError off))
      else
        match parseLineFields raw with
        | None =>
            if isFinal then fail est sm (Some (TornError off))
            else fail est sm (Some (ChainBrokenError (i + 1)))
        | Some fields =>
            if est && negb (Bool.eqb sm (is_Some_b (Seq fields)))
            then fail est sm (Some (ChainBrokenError (i + 1)))
            else
              let sm' := if est then sm else is_Some_b (Seq fields) in
              if sm' && negb (bool_decide (Seq fields = Some (wrapu64 (sbase + (i + 1)))))
              then fail true sm' (Some (ChainBrokenError (i + 1)))
              else if negb (bool_decide (Prev fields = Some prev))
              then fail true sm' (Some (ChainBrokenError (i + 1)))
              else add_record raw
                     (verify_lines sbase rest (i + 1) (off + Z.of_nat (String.length raw) + 1)
                        (sha256_hex raw) true sm')
        end
  end.

Definition loadChain (r : reader) (s : Start) : loaded :=
  let lines := split_lines (rd_data r) in
  let ends_clean := match last lines with None => true | Some (_, t) => t end in
  if rd_fault r && ends_clean then MkLoaded [] (MkHead "" 0) false false (Some ErrRead)
  else
    match lines with
    | [] => MkLoaded [] (MkHead (StartPrev s) 0) (0 <? StartBase s) (0 <? StartBase s) None
    | _ => verify_lines (StartBase s) lines 0 0 (StartPrev s) (0 <? StartBase s) (0 <? StartBase s)
    end.

(** ** Writing ([Chain.Append], [Prev], [Count], [Base]) *)

(** The outcome of the write and the sync: all bytes written and synced, all
    written and the sync failed, or the write failed after [n] bytes. *)
Inductive write_outcome : Type :=
  | WriteOk
  | SyncFailed
  | WriteFailed (n : nat).

Fixpoint take_str (n : nat) (s : string) : string :=
  match n, s with
  | S n', String c r => String c (take_str n' r)
  | _, _ => ""
  end.

Definition write_bytes (w : write_outcome) (buf : string) : string :=
  match w with
  | WriteOk | SyncFailed => buf
  | WriteFailed n => take_str n buf
  end.

Definition with_file (c : Chain) (f : string) : Chain :=
  MkChain f (mode c) (base c) (prevHash c) (count c) (seqEstablished c) (seqMode c).

Definition Append (w : write_outcome) (c : Chain) (line : string) : Chain * option ledger_error :=
  match parseLineFields line with
  | None => (c, Some ErrInvalidRecord)
  | Some fields =>
      if negb (bool_decide (Prev fields = Some (prevHash c)))
      then (c, Some (ErrFork (default "" (Prev fields)) (prevHash c)))
      else
        let sm := if seqEstablished c then seqMode c else is_Some_b (Seq fields) in
        let want := wrapu64 (base c + (count c + 1)) in
        if sm && negb (bool_decide (Seq fields = Some want)) then (c, Some (ErrSeq want))
        else if negb sm && is_Some_b (Seq fields) then (c, Some ErrNotSeqMode)
        else
          let f' := file c +:+ write_bytes w (line +:+ String newline "") in
          match w with
          | WriteOk =>
              (MkChain f' (mode c) (base c) (sha256_hex line) (count c + 1) true sm, None)
          | SyncFailed | WriteFailed _ => (with_file c f', Some ErrIO)
          end
  end.

(** ** Opening ([flockRetry], [OpenFrom], [Create], [Resume], [ReadVerifyFrom]) *)

(** One non-blocking flock attempt, and whether the deadline had passed when
    it was refused. *)
Inductive flock_result : Type :=
  | FlockOk
  | FlockEINTR
  | FlockWouldBlock (after_deadline : bool)
  | FlockOther.

(** The retry loop over the attempts the kernel answers, in order; [None] is
    a loop still waiting for its next attempt. *)
Fixpoint flockRetry (attempts : list flock_result) : option (result ledger_error ()) :=
  match attempts with
  | [] => None
  | FlockOk :: _ => Some (Ok ())
  | FlockEINTR :: r => flockRetry r
  | FlockWouldBlock true :: _ => Some (Err ErrLockHeld)
  | FlockWouldBlock false :: r => flockRetry r
  | FlockOther :: _ => Some (Err ErrIO)
  end.

(** What the system calls of an open answer: the directory can be made, the
    open succeeds, the lock loop's result, the read ends in a fault. *)
Record open_env : Type := MkOpenEnv {
  mkdir_ok : bool;
  open_ok : bool;
  flock : result ledger_error ();
  read_fault : bool;
}.

Definition chain_of (f : string) (m : LockMode) (s : Start) (l : loaded) : Chain :=
  MkChain f m (StartBase s) (Hash (ld_head l)) (Count (ld_head l)) (ld_seqEstablished l) (ld_seqMode l).

Definition take_lock (e : open_env) (m : LockMode) : result ledger_error () :=
  match m with Locked => flock e | Unlocked => Ok () end.

(** [disk] is the file's content, [None] when it does not exist; the result
    carries the content after the call (an open creates the file). *)
Definition OpenFrom (e : open_env) (disk : option string) (m : LockMode) (s : Start)
  : result ledger_error Chain * option string :=
  if negb (validate s) then (Err ErrBadStart, disk)
  else if negb (mkdir_ok e && open_ok e) then (Err ErrIO, disk)
  else
    let content := default "" disk in
    match take_lock e m with
    | Err x => (Err x, Some content)
    | Ok _ =>
        let l := loadChain (MkReader content (read_fault e)) s in
        match ld_err l with
        | Some x => (Err x, Some content)
        | None => (Ok (chain_of content m s l), Some content)
        end
    end.

Definition Open (e : open_env) (disk : option string) (m : LockMode) := OpenFrom e disk m zeroStart.

Definition Create (e : open_env) (disk : option string) (m : LockMode)
  : result ledger_error Chain * option string :=
  if negb (mkdir_ok e) then (Err ErrIO, disk)
  else match disk with
       | Some _ => (Err ErrExist, disk)
       | None =>
           if negb (open_ok e) then (Err ErrIO, disk)
           else match take_lock e m with
                | Err x => (Err x, Some "")
                | Ok _ => (Ok (MkChain "" m 0 "" 0 false false), Some "")
                end
       end.

(** Records, head and error of a read-only verification. *)
Abbreviation verified := (list Record_ * Head * option ledger_error)%type.

Definition VerifyReader (r : reader) (s : Start) : verified :=
  if negb (validate s) then ([], MkHead "" 0, Some ErrBadStart)
  else let l := loadChain r s in (ld_records l, ld_head l, ld_err l).

Definition ReadVerifyFrom (e : open_env) (disk : option string) (m : LockMode) (s : Start) : verified :=
  if negb (validate s) then ([], MkHead "" 0, Some ErrBadStart)
  else match disk with
       | None => ([], MkHead "" 0, Some ErrNotExist)
       | Some content =>
           if negb (open_ok e) then ([], MkHead "" 0, Some ErrIO)
           else match take_lock e m with
                | Err x => ([], MkHead "" 0, Some x)
                | Ok _ => VerifyReader (MkReader content (read_fault e)) s
                end
       end.

Definition ReadVerify (e : open_env) (disk : option string) (m : LockMode) := ReadVerifyFrom e disk m zeroStart.

Definition Resume (r : reader) (m : LockMode) (s : Start) : result ledger_error Chain * list Record_ :=
  if negb (validate s) then (Err ErrBadStart, [])
  else
    let l := loadChain r s in
    match ld_err l with
    | Some x => (Err x, ld_records l)
    | None => (Ok (chain_of (rd_data r) m s l), ld_records l)
    end.

(** ** The abstract chain

    What a ledger promises, without the reader: [chain b i prev est sm rs
    prev' est' sm'] says that the records [rs] continue a chain that has [i]
    records after its base [b], head [prev] and seq mode [(est, sm)], and lead
    to head [prev'] and mode [(est', sm')]. *)
Definition accepts (b i : Z) (prev : string) (est sm : bool) (raw : string) (sm' : bool) : Prop :=
  exists fields,
    parseLineFields raw = Some fields /\
    sm' = is_Some_b (Seq fields) /\
    (est = true -> sm = sm') /\
    (sm' = true -> Seq fields = Some (wrapu64 (b + (i + 1)))) /\
    Prev fields = Some prev.

Inductive chain (b : Z) : Z -> string -> bool -> bool -> list string -> string -> bool -> bool -> Prop :=
  | chain_nil i prev est sm : chain b i prev est sm [] prev est sm
  | chain_cons i prev est sm raw sm1 rs prev' est' sm' :
      accepts b i prev est sm raw sm1 ->
      chain b (i + 1) (sha256_hex raw) true sm1 rs prev' est' sm' ->
      chain b i prev est sm (raw :: rs) prev' est' sm'.

(** The bytes of a file that holds exactly [rs]. *)
Fixpoint bytes_of (rs : list string) : string :=
  match rs with
  | [] => ""
  | raw :: r => raw +:+ String newline (bytes_of r)
  end.

Definition no_nl (raw : string) : Prop := has_byte newline raw = false.

(** [rs] is a chain from [s] with head [h], every record on one line. *)
Definition chain_from (s : Start) (rs : list string) (h : Head) (est sm : bool) : Prop :=
  Forall no_nl rs /\ Count h = Z.of_nat (length rs) /\
  chain (StartBase s) 0 (StartPrev s) (0 <? StartBase s) (0 <? StartBase s) rs (Hash h) est sm.

(** ** Lines and bytes *)
Lemma split_lines_line raw t :
  no_nl raw -> split_lines (raw +:+ String newline t) = (raw, true) :: split_lines t.
Proof.
  unfold no_nl. induction raw as [|c raw IH]; intros H.
  - reflexivity.
  - rewrite app_cons_str. cbn [split_lines]. cbn [has_byte] in H.
    apply orb_false_iff in H as [Hc H]. apply ascii_eqb_false in Hc.
    rewrite (proj2 (ascii_eqb_false c newline)) by congruence. by rewrite IH.
Qed.

Lemma split_lines_bytes rs :
  Forall no_nl rs -> split_lines (bytes_of rs) = map (fun r => (r, true)) rs.
Proof. induction 1; [done|]. cbn [bytes_of map]. rewrite split_lines_line by done. by f_equal. Qed.

Lemma split_lines_bytes_app rs t :
  Forall no_nl rs -> split_lines (bytes_of rs +:+ t) = map (fun r => (r, true)) rs ++ split_lines t.
Proof.
  induction 1 as [|raw rs Hr _ IH]; [done|]. cbn [bytes_of map app].
  rewrite app_assoc_str, app_cons_str, split_lines_line by done. by f_equal.
Qed.

Fixpoint unlines (ls : list (string * bool)) : string :=
  match ls with
  | [] => ""
  | (raw, t) :: r => raw +:+ (if t then String newline (unlines r) else unlines r)
  end.

Lemma unlines_split s : unlines (split_lines s) = s.
Proof.
  induction s as [|c s IH]; [done|]. cbn [split_lines].
  destruct (ascii_eqb c newline) eqn:E.
  - apply ascii_eqb_true in E as ->. cbn. by rewrite IH.
  - destruct (split_lines s) as [|[l t] ls] eqn:Es.
    + cbn in *. by rewrite <- IH.
    + cbn in *. rewrite app_cons_str. by rewrite IH.
Qed.

Fixpoint wf_lines (ls : list (string * bool)) : Prop :=
  match ls with
  | [] => True
  | (raw, t) :: r => no_nl raw /\ (r <> [] -> t = true) /\ wf_lines r
  end.

Lemma split_lines_wf s : wf_lines (split_lines s).
Proof.
  induction s as [|c s IH]; [done|]. cbn [split_lines].
  destruct (ascii_eqb c newline) eqn:E; [done|].
  assert (Hc : forall l, no_nl l -> no_nl (String c l)).
  { intros l Hl. unfold no_nl in *. cbn. apply orb_false_iff; split; [|done].
    apply ascii_eqb_false. apply ascii_eqb_false in E. congruence. }
  destruct (split_lines s) as [|[l t] ls]; cbn in *.
  - split; [by apply (Hc "")|done].
  - destruct IH as (? & ? & ?). auto.
Qed.

Lemma bytes_of_app rs1 rs2 : bytes_of (rs1 ++ rs2) = bytes_of rs1 +:+ bytes_of rs2.
Proof.
  induction rs1; [done|]. cbn [bytes_of app]. by rewrite IHrs1, app_assoc_str, app_cons_str.
Qed.

Lemma take_str_app s t : take_str (String.length s) (s +:+ t) = s.
Proof. induction s; [by destruct t|]. rewrite app_cons_str. cbn. by f_equal. Qed.

(** ** The chain relation *)
Lemma chain_app b i p e s rs1 rs2 p1 e1 s1 p2 e2 s2 :
  chain b i p e s rs1 p1 e1 s1 -> chain b (i + Z.of_nat (length rs1)) p1 e1 s1 rs2 p2 e2 s2 ->
  chain b i p e s (rs1 ++ rs2) p2 e2 s2.
Proof.
  induction 1 as [|i p e s raw sm1 rs p' e' s' Ha Hc IH]; cbn [length app].
  - by rewrite Z.add_0_r.
  - intros H. econstructor; [done|]. apply IH. by replace (i + 1 + Z.of_nat (length rs)) with
      (i + Z.of_nat (S (length rs))) by lia.
Qed.

Lemma chain_app_inv b i p e s rs1 rs2 p2 e2 s2 :
  chain b i p e s (rs1 ++ rs2) p2 e2 s2 -> exists p1 e1 s1,
    chain b i p e s rs1 p1 e1 s1 /\ chain b (i + Z.of_nat (length rs1)) p1 e1 s1 rs2 p2 e2 s2.
Proof.
  revert i p e s; induction rs1 as [|raw rs1 IH]; intros i p e s H.
  - eexists _, _, _. split; [constructor|]. cbn. by rewrite Z.add_0_r.
  - inversion H; subst. edestruct IH as (p1 & e1 & s1 & H1 & H2); [eassumption|].
    eexists _, _, _. split; [by econstructor|]. cbn [length].
    by replace (i + Z.of_nat (S (length rs1))) with (i + 1 + Z.of_nat (length rs1)) by lia.
Qed.

Lemma accepts_no_nul b i p e s raw s' : accepts b i p e s raw s' -> has_byte nul raw = false.
Proof.
  intros (f & Hf & _). unfold parseLineFields in Hf.
  destruct (parse_json raw) eqn:E; [|done]. by eapply parse_json_no_nul.
Qed.

Lemma accepts_det b i p e s raw s1 s2 : accepts b i p e s raw s1 -> accepts b i p e s raw s2 -> s1 = s2.
Proof. intros (f & Hf & -> & _) (f' & Hf' & -> & _). by simplify_eq. Qed.

(** The chain's final state is a function of its records. *)
Lemma chain_det b i p e s rs p1 e1 s1 p2 e2 s2 :
  chain b i p e s rs p1 e1 s1 -> chain b i p e s rs p2 e2 s2 -> p1 = p2 /\ e1 = e2 /\ s1 = s2.
Proof.
  induction 1; intros H2; inversion H2; subst; [done|].
  match goal with H1 : accepts _ _ _ _ _ _ _, H2 : accepts _ _ _ _ _ _ _ |- _ =>
    pose proof (accepts_det _ _ _ _ _ _ _ _ H1 H2); subst end. auto.
Qed.

(** One step of the loop, both ways. *)
Lemma verify_accept b raw t rest i off p e s s' :
  accepts b i p e s raw s' -> (rest = [] -> t = true) ->
  verify_lines b ((raw, t) :: rest) i off p e s =
    add_record raw (verify_lines b rest (i + 1) (off + Z.of_nat (String.length raw) + 1) (sha256_hex raw) true s').
Proof.
  intros Ha Ht. pose proof (accepts_no_nul _ _ _ _ _ _ _ Ha) as Hn.
  destruct Ha as (f & Hf & -> & He & Hs & Hp). cbn [verify_lines]. rewrite Hn, orb_false_r.
  replace (match rest with [] => true | _ => false end && negb t) with false
    by (destruct rest; [by rewrite Ht|done]).
  rewrite Hf.
  replace (e && negb (Bool.eqb s (is_Some_b (Seq f)))) with false
    by (destruct e; [by rewrite (He eq_refl), Bool.eqb_reflx|done]).
  replace (if e then s else is_Some_b (Seq f)) with (is_Some_b (Seq f))
    by (destruct e; [by rewrite (He eq_refl)|done]).
  rewrite (bool_decide_true (Prev f = Some p)) by done.
  destruct (is_Some_b (Seq f)); [|done]. by rewrite bool_decide_true by auto.
Qed.

Lemma verify_step b raw t rest i off p e s :
  (exists s', accepts b i p e s raw s' /\ (rest = [] -> t = true)) \/
  (exists e' s' err, verify_lines b ((raw, t) :: rest) i off p e s = MkLoaded [] (MkHead p i) e' s' (Some err) /\
     (err = TornError off /\ rest = [] \/ err = ChainBrokenError (i + 1))).
Proof.
  cbn [verify_lines].
  destruct (match rest with [] => true | _ => false end && (negb t || has_byte nul raw)) eqn:E1.
  { right. destruct rest; [|done]. eexists _, _, _. split; [done|]. by left. }
  destruct (parseLineFields raw) as [f|] eqn:Hf.
  2:{ right. destruct rest; eexists _, _, _; split; try done; [by left|by right]. }
  destruct (e && negb (Bool.eqb s (is_Some_b (Seq f)))) eqn:E2.
  { right. eexists _, _, _. split; [done|]. by right. }
  set (s' := if e then s else is_Some_b (Seq f)).
  destruct (s' && negb (bool_decide (Seq f = Some (wrapu64 (b + (i + 1)))))) eqn:E3.
  { right. eexists _, _, _. split; [done|]. by right. }
  destruct (negb (bool_decide (Prev f = Some p))) eqn:E4.
  { right. eexists _, _, _. split; [done|]. by right. }
  left. exists (is_Some_b (Seq f)). bool_prop.
  assert (Hs' : s' = is_Some_b (Seq f)).
  { subst s'. destruct e; [|done]. cbn in E2. apply negb_false_iff, Bool.eqb_prop in E2. done. }
  split.
  - exists f. repeat split; [done| | |done].
    + intros ->. done.
    + intros Hq. rewrite Hs', Hq in E3. cbn in E3. by apply negb_false_iff, bool_decide_eq_true in E3.
  - intros ->. cbn in E1. apply orb_false_iff in E1 as [E1 _]. by apply negb_false_iff in E1.
Qed.

(** ** The verifier against the specification *)
Definition term_lines (rs : list string) : list (string * bool) := map (fun r => (r, true)) rs.

(** How an error relates to the line it stopped at. *)
Definition err_at (rs : list string) (i off : Z) (rest : list (string * bool)) (err : ledger_error) : Prop :=
  (err = TornError (off + Z.of_nat (String.length (bytes_of rs))) /\ length rest = 1%nat) \/
  (err = ChainBrokenError (i + Z.of_nat (length rs) + 1) /\ rest <> []).

Lemma verify_sound b lines i off p e s :
  wf_lines lines ->
  let l := verify_lines b lines i off p e s in
  exists rest e' s',
    lines = term_lines (ld_records l) ++ rest /\
    chain b i p e s (ld_records l) (Hash (ld_head l)) e' s' /\
    Count (ld_head l) = i + Z.of_nat (length (ld_records l)) /\
    match ld_err l with
    | None => rest = [] /\ ld_seqEstablished l = e' /\ ld_seqMode l = s'
    | Some err => err_at (ld_records l) i off rest err
    end.
Proof.
  revert i off p e s; induction lines as [|[raw t] rest IH]; intros i off p e s Hw l.
  { exists [], e, s. cbn. split_and!; try done; [constructor|lia]. }
  destruct Hw as (Hnl & Ht & Hw).
  destruct (verify_step b raw t rest i off p e s) as [(s1 & Ha & Ht')|(e1 & s1 & err & E & Herr)].
  - assert (t = true) as -> by (destruct rest; auto).
    subst l. rewrite (verify_accept _ _ _ _ _ _ _ _ _ _ Ha Ht').
    destruct (IH (i + 1) (off + Z.of_nat (String.length raw) + 1) (sha256_hex raw) true s1 Hw)
      as (rest' & e' & s' & Hl & Hc & Hcnt & Herr).
    set (l := verify_lines b rest _ _ _ _ _) in *. cbn [add_record ld_records ld_head ld_err ld_seqEstablished ld_seqMode].
    exists rest', e', s'. split_and!.
    + cbn. by f_equal.
    + by econstructor.
    + rewrite Hcnt. cbn [length]. lia.
    + destruct (ld_err l); [|done]. destruct Herr as [[-> Hr]|[-> Hr]]; [left|right]; split; try done; f_equal.
      * cbn [bytes_of]. rewrite length_app_str. cbn [String.length]. lia.
      * cbn [length]. lia.
  - subst l. rewrite E. cbn [ld_records ld_head ld_err Hash Count]. exists ((raw, t) :: rest), e, s.
    split_and!; [done|constructor|cbn; lia|].
    destruct Herr as [[-> ->]| ->]; [left|right]; cbn; split; try done; f_equal; lia.
Qed.

Lemma verify_complete b i off p e s rs p' e' s' :
  chain b i p e s rs p' e' s' ->
  verify_lines b (term_lines rs) i off p e s = MkLoaded rs (MkHead p' (i + Z.of_nat (length rs))) e' s' None.
Proof.
  intros H. revert off. induction H as [|i p e s raw sm1 rs p' e' s' Ha Hc IH]; intros off.
  - cbn. by rewrite Z.add_0_r.
  - cbn [term_lines map]. rewrite (verify_accept _ _ _ _ _ _ _ _ _ _ Ha) by done.
    fold (term_lines rs). rewrite IH. unfold add_record. cbn. do 2 f_equal. lia.
Qed.

Lemma loadChain_nofault d s :
  loadChain (MkReader d false) s =
  verify_lines (StartBase s) (split_lines d) 0 0 (StartPrev s) (0 <? StartBase s) (0 <? StartBase s).
Proof. unfold loadChain. cbn. by destruct (split_lines d). Qed.

Lemma loadChain_complete s rs h est sm :
  chain_from s rs h est sm -> loadChain (MkReader (bytes_of rs) false) s = MkLoaded rs h est sm None.
Proof.
  intros (Hnl & Hcnt & Hc). rewrite loadChain_nofault, split_lines_bytes by done.
  fold (term_lines rs). rewrite (verify_complete _ _ _ _ _ _ _ _ _ _ Hc). destruct h; cbn in *.
  by rewrite Hcnt.
Qed.

Lemma term_lines_inj rs1 rs2 : term_lines rs1 = term_lines rs2 -> rs1 = rs2.
Proof. revert rs2; induction rs1; intros [|]; cbn; intros; simplify_eq; f_equal; auto. Qed.

Lemma term_lines_wf rs rest : wf_lines (term_lines rs ++ rest) -> Forall no_nl rs.
Proof. induction rs as [|r rs IH]; cbn; [done|]. intros (? & ? & ?). constructor; auto. Qed.

Lemma unlines_term rs rest : unlines (term_lines rs ++ rest) = bytes_of rs +:+ unlines rest.
Proof.
  induction rs as [|r rs IH]; [done|]. cbn [term_lines map app unlines bytes_of].
  fold (term_lines rs). by rewrite IH, app_assoc_str, app_cons_str.
Qed.

(** Whatever the outcome, what [loadChain] returns is the longest chain at
    the front of the file: its records are the file's first lines, they chain
    to the returned head, and the error says where the next line begins. *)
Lemma loadChain_prefix d s :
  let l := loadChain (MkReader d false) s in
  exists tail est sm,
    d = bytes_of (ld_records l) +:+ tail /\
    chain_from s (ld_records l) (ld_head l) est sm /\
    match ld_err l with
    | None => tail = "" /\ ld_seqEstablished l = est /\ ld_seqMode l = sm
    | Some err => err_at (ld_records l) 0 0 (split_lines tail) err
    end.
Proof.
  intros l. subst l. rewrite loadChain_nofault.
  set (l := verify_lines _ _ _ _ _ _ _).
  destruct (verify_sound (StartBase s) (split_lines d) 0 0 (StartPrev s) (0 <? StartBase s)
              (0 <? StartBase s) (split_lines_wf d)) as (rest & e' & s' & Hl & Hc & Hcnt & Herr).
  fold l in Hl, Hc, Hcnt, Herr. exists (unlines rest), e', s'.
  assert (Hnl : Forall no_nl (ld_records l)).
  { eapply term_lines_wf. rewrite <- Hl. apply split_lines_wf. }
  assert (Hd : d = bytes_of (ld_records l) +:+ unlines rest).
  { by rewrite <- unlines_term, <- Hl, unlines_split. }
  assert (Hr : split_lines (unlines rest) = rest).
  { pose proof Hl as Hl'. rewrite Hd, split_lines_bytes_app in Hl' by done.
    by apply app_inj_1 in Hl' as [_ Hl']. }
  split_and!; [done| |].
  - split_and!; [done|lia|done].
  - destruct (ld_err l); [by rewrite Hr|]. destruct Herr as (-> & -> & ->). done.
Qed.

Lemma loadChain_sound d s rs h est sm :
  loadChain (MkReader d false) s = MkLoaded rs h est sm None ->
  d = bytes_of rs /\ chain_from s rs h est sm.
Proof.
  intros E. destruct (loadChain_prefix d s) as (tail & e & m & Hd & Hc & He).
  rewrite E in *. cbn in *. destruct He as (-> & -> & ->). by rewrite app_nil_str in Hd.
Qed.

(** The writer's invariant: the file holds exactly a chain from [s] whose
    state the handle carries. *)
Definition chain_inv (s : Start) (c : Chain) (rs : list string) : Prop :=
  file c = bytes_of rs /\ base c = StartBase s /\
  chain_from s rs (MkHead (prevHash c) (count c)) (seqEstablished c) (seqMode c).

Lemma chain_from_snoc s rs h est sm raw sm' :
  chain_from s rs h est sm -> no_nl raw ->
  accepts (StartBase s) (Count h) (Hash h) est sm raw sm' ->
  chain_from s (rs ++ [raw]) (MkHead (sha256_hex raw) (Count h + 1)) true sm'.
Proof.
  intros (Hn & Hcnt & Hc) Hnl Ha. split_and!.
  - apply Forall_app; auto.
  - cbn. rewrite length_app. cbn. lia.
  - eapply chain_app; [done|]. rewrite Z.add_0_l, <- Hcnt. econstructor; [done|constructor].
Qed.

Lemma bytes_of_snoc rs raw : bytes_of (rs ++ [raw]) = bytes_of rs +:+ (raw +:+ String newline "").
Proof. apply bytes_of_app. Qed.

(** An append that succeeds was an [accepts] step of the specification. *)
Lemma Append_accepts c line c' :
  Append WriteOk c line = (c', None) ->
  exists sm', accepts (base c) (count c) (prevHash c) (seqEstablished c) (seqMode c) line sm' /\
    c' = MkChain (file c +:+ (line +:+ String newline "")) (mode c) (base c) (sha256_hex line) (count c + 1) true sm'.
Proof.
  unfold Append. intros H. destruct (parseLineFields line) as [f|] eqn:Hf; [|done].
  destruct (bool_decide (Prev f = Some (prevHash c))) eqn:E1; cbn [negb] in H; [|done].
  set (sm := if seqEstablished c then seqMode c else is_Some_b (Seq f)) in *.
  destruct (sm && negb (bool_decide (Seq f = Some (wrapu64 (base c + (count c + 1)))))) eqn:E2; [done|].
  destruct (negb sm && is_Some_b (Seq f)) eqn:E3; [done|]. simplify_eq. bool_prop.
  assert (Hs : sm = is_Some_b (Seq f)).
  { destruct sm; cbn in *; [|done]. apply negb_false_iff, bool_decide_eq_true in E2. by rewrite E2. }
  exists sm. split; [|done]. exists f. split_and!; [done|done| | |done].
  - intros He. unfold sm. by rewrite He.
  - intros Hq. rewrite Hq in E2. cbn in E2. by apply negb_false_iff, bool_decide_eq_true in E2.
Qed.

Lemma Append_inv s c rs line c' :
  chain_inv s c rs -> no_nl line -> Append WriteOk c line = (c', None) -> chain_inv s c' (rs ++ [line]).
Proof.
  intros (Hf & Hb & Hc) Hnl Ha. apply Append_accepts in Ha as (sm' & Hac & ->).
  split_and!; cbn; [by rewrite Hf, bytes_of_snoc|done|].
  rewrite Hb in Hac. exact (chain_from_snoc s rs (MkHead (prevHash c) (count c)) _ _ line sm' Hc Hnl Hac).
Qed.

(** ** Properties *)

(** A concrete root record and its successor, used by the witnesses. *)
Definition ex_line1 : string := jq "{'type':'workflow_started','prev':''}".
Definition ex_line2 : string := jq "{'type':'workflow_finished','prev':'" +:+ sha256_hex ex_line1 +:+ jq "'}".
Definition ex_chain0 : Chain := MkChain "" Unlocked 0 "" 0 false false.
Definition ex_chain1 : Chain := (Append WriteOk ex_chain0 ex_line1).1.
Definition ex_env : open_env := MkOpenEnv true true (Ok ()) false.

Lemma ex_chain0_inv : chain_inv zeroStart ex_chain0 [].
Proof. split_and!; try done. split_and!; try done. constructor. Qed.

Lemma ex_append1 : Append WriteOk ex_chain0 ex_line1 = (ex_chain1, None).
Proof. vm_compute. reflexivity. Qed.

Lemma ex_chain1_inv : chain_inv zeroStart ex_chain1 [ex_line1].
Proof.
  apply (Append_inv zeroStart ex_chain0 [] ex_line1 ex_chain1 ex_chain0_inv); [|apply ex_append1].
  vm_compute. reflexivity.
Qed.

(** C4: [loadChain] implements the abstract chain exactly: a byte string
    verifies without error to records [rs], head [h] and a seq mode if and
    only if it is the newline-terminated concatenation of [rs] and [rs] is a
    chain from the start [s] with that head and mode. *)
Theorem loadChain_refines (d : string) (s : Start) (rs : list string) (h : Head) (est sm : bool) :
  loadChain (MkReader d false) s = MkLoaded rs h est sm None <->
  d = bytes_of rs /\ chain_from s rs h est sm.
Proof.
  split; [apply loadChain_sound|]. intros [-> H]. by apply loadChain_complete.
Qed.

(** The writer and the reader agree: after a successful append of a
    one-line record to a handle whose file is a chain, the file is that chain
    with the record at its end, and reopening the file yields the very handle
    the writer holds (head, count and seq mode), so a resumed writer continues
    where this one stands. *)
Theorem append_reopen (s : Start) (c c' : Chain) (rs : list string) (line : string)
    (Hs : validate s = true) (Hc : chain_inv s c rs) (Hl : no_nl line)
    (Ha : Append WriteOk c line = (c', None)) :
  loadChain (MkReader (file c') false) s
    = MkLoaded (rs ++ [line]) (MkHead (sha256_hex line) (count c + 1)) true (seqMode c') None /\
  OpenFrom ex_env (Some (file c')) (mode c') s = (Ok c', Some (file c')).
Proof.
  pose proof (Append_inv _ _ _ _ _ Hc Hl Ha) as (Hf & Hb & Hch).
  apply Append_accepts in Ha as (sm' & _ & ->). cbn in *.
  assert (E : loadChain (MkReader (file c +:+ (line +:+ String newline "")) false) s
    = MkLoaded (rs ++ [line]) (MkHead (sha256_hex line) (count c + 1)) true sm' None).
  { rewrite Hf. by apply loadChain_complete. }
  split; [done|]. unfold OpenFrom. rewrite Hs. cbn [negb ex_env mkdir_ok open_ok andb read_fault default].
  destruct (mode c); cbn [take_lock flock ex_env]; unfold from_option, id; rewrite E; cbn;
    unfold chain_of; cbn; by rewrite Hb.
Qed.

Lemma append_reopen_witness :
  exists c', Append WriteOk ex_chain1 ex_line2 = (c', None) /\
    OpenFrom ex_env (Some (file c')) (mode c') zeroStart = (Ok c', Some (file c')).
Proof.
  eexists. assert (E2 : Append WriteOk ex_chain1 ex_line2 = ((Append WriteOk ex_chain1 ex_line2).1, None))
    by (vm_compute; reflexivity).
  split; [exact E2|].
  refine (proj2 (append_reopen zeroStart ex_chain1 _ [ex_line1] ex_line2 _ _ _ E2));
    [reflexivity|exact ex_chain1_inv|vm_compute; reflexivity].
Defined.

(** An append that returns an error never moves the chain: a refused line
    (not JSON, no prev, a fork, a wrong or unexpected seq) leaves the handle
    and the file untouched, and a failed write or sync only adds bytes to the
    end of the file, leaving head, count and seq mode as they were. *)
Theorem append_error_frame (w : write_outcome) (c c' : Chain) (line : string) (e : ledger_error)
    (H : Append w c line = (c', Some e)) :
  (e <> ErrIO -> c' = c) /\
  (exists tail, file c' = file c +:+ tail) /\
  prevHash c' = prevHash c /\ count c' = count c /\ base c' = base c /\
  seqEstablished c' = seqEstablished c /\ seqMode c' = seqMode c.
Proof.
  unfold Append in H.
  assert (Hsame : c' = c -> (e <> ErrIO -> c' = c) /\ (exists tail, file c' = file c +:+ tail) /\
    prevHash c' = prevHash c /\ count c' = count c /\ base c' = base c /\
    seqEstablished c' = seqEstablished c /\ seqMode c' = seqMode c).
  { intros ->. split_and!; try done. exists "". by rewrite app_nil_str. }
  destruct (parseLineFields line) as [f|]; [|apply Hsame; congruence].
  destruct (negb (bool_decide (Prev f = Some (prevHash c)))); [apply Hsame; congruence|].
  set (sm := if seqEstablished c then _ else _) in *.
  destruct (sm && _); [apply Hsame; congruence|].
  destruct (negb sm && _); [apply Hsame; congruence|].
  destruct w; simplify_eq; cbn; split_and!; try done; eauto.
Qed.

Lemma append_error_frame_witness :
  Append WriteOk ex_chain1 ex_line1 = (ex_chain1, Some (ErrFork "" (sha256_hex ex_line1))) /\
  (Append WriteOk ex_chain1 ex_line1).1 = ex_chain1.
Proof.
  assert (E : Append WriteOk ex_chain1 ex_line1 = (ex_chain1, Some (ErrFork "" (sha256_hex ex_line1))))
    by (vm_compute; reflexivity).
  split; [exact E|]. rewrite E.
  exact (proj1 (append_error_frame WriteOk ex_chain1 ex_chain1 ex_line1 _ E) ltac:(discriminate)).
Defined.

Lemma take_str_no_nl n s : has_byte newline s = false -> has_byte newline (take_str n s) = false.
Proof.
  revert s; induction n; intros [|c s]; cbn; try done. intros [? ?]%orb_false_iff.
  apply orb_false_iff; auto.
Qed.

Lemma take_str_app_le n s t : (n <= String.length s)%nat -> take_str n (s +:+ t) = take_str n s.
Proof.
  revert s; induction n; intros s Hn; [by destruct (s +:+ t), s|].
  destruct s as [|c s]; [cbn in Hn; lia|]. rewrite app_cons_str. cbn. f_equal. apply IHn. cbn in Hn. lia.
Qed.

Lemma split_lines_fragment s : s <> "" -> no_nl s -> split_lines s = [(s, false)].
Proof.
  unfold no_nl. induction s as [|c s IH]; [done|]. intros _ H. cbn in *.
  apply orb_false_iff in H as [Hc H]. apply ascii_eqb_false in Hc.
  rewrite (proj2 (ascii_eqb_false c newline)) by congruence.
  destruct s as [|c' s]; [done|]. by rewrite IH.
Qed.

Lemma loadChain_fragment s rs h est sm frag :
  chain_from s rs h est sm -> frag <> "" -> no_nl frag ->
  loadChain (MkReader (bytes_of rs +:+ frag) false) s
  = MkLoaded rs h est sm (Some (TornError (Z.of_nat (String.length (bytes_of rs))))).
Proof.
  intros (Hn & Hcnt & Hc) Hne Hnl.
  rewrite loadChain_nofault, split_lines_bytes_app, split_lines_fragment by done.
  fold (term_lines rs).
  enough (forall b i off p e m p' e' m', chain b i p e m rs p' e' m' ->
    verify_lines b (term_lines rs ++ [(frag, false)]) i off p e m =
    MkLoaded rs (MkHead p' (i + Z.of_nat (length rs))) e' m'
      (Some (TornError (off + Z.of_nat (String.length (bytes_of rs)))))) as Hv.
  { rewrite (Hv _ _ _ _ _ _ _ _ _ Hc). destruct h; cbn in *. by rewrite Hcnt. }
  clear. intros b i off p e m p' e' m' H. revert off.
  induction H as [|i p e s raw sm1 rs p' e' s' Ha Hc IH]; intros off.
  - cbn. by rewrite !Z.add_0_r.
  - cbn [term_lines map app]. fold (term_lines rs).
    rewrite (verify_accept _ _ _ _ _ _ _ _ _ _ Ha) by done. rewrite IH. unfold add_record.
    cbn [ld_records ld_head ld_err ld_seqEstablished ld_seqMode bytes_of length].
    rewrite length_app_str. cbn [String.length]. f_equal; [f_equal; lia|do 2 f_equal; lia].
Qed.

Lemma Append_failed_file n c line c' :
  Append (WriteFailed n) c line = (c', Some ErrIO) ->
  file c' = file c +:+ take_str n (line +:+ String newline "").
Proof. unfold Append. intros H. by case_in H. Qed.

(** An append cut short by a crash is always recoverable: when a write
    stopped after [n >= 1] bytes and before the newline, the file reads as torn
    exactly at the old end of the file, with every earlier record and the old
    head intact. *)
Theorem partial_append_is_torn (s : Start) (c c' : Chain) (rs : list string) (line : string) (n : nat)
    (Hc : chain_inv s c rs) (Hl : no_nl line) (Hn : (1 <= n <= String.length line)%nat)
    (Ha : Append (WriteFailed n) c line = (c', Some ErrIO)) :
  loadChain (MkReader (file c') false) s
  = MkLoaded rs (MkHead (prevHash c) (count c)) (seqEstablished c) (seqMode c)
      (Some (TornError (Z.of_nat (String.length (file c))))).
Proof.
  destruct Hc as (Hf & Hb & Hc).
  assert (E : file c' = file c +:+ take_str n line).
  { rewrite (Append_failed_file _ _ _ _ Ha). f_equal. apply take_str_app_le. lia. }
  rewrite E, Hf. apply loadChain_fragment; [done| |by apply take_str_no_nl].
  destruct n, line; cbn in *; try lia. done.
Qed.

Lemma partial_append_is_torn_witness :
  ld_err (loadChain (MkReader (file (Append (WriteFailed 5) ex_chain1 ex_line2).1) false) zeroStart)
  = Some (TornError 38).
Proof.
  rewrite (partial_append_is_torn zeroStart ex_chain1 (Append (WriteFailed 5) ex_chain1 ex_line2).1
             [ex_line1] ex_line2 5).
  - vm_compute. reflexivity.
  - exact ex_chain1_inv.
  - vm_compute. reflexivity.
  - vm_compute. lia.
  - vm_compute. reflexivity.
Defined.

(** Two different records with one digest. *)
Definition collision_in (rs1 rs2 : list string) : Prop :=
  exists a b, a ∈ rs1 /\ b ∈ rs2 /\ a <> b /\ sha256_hex a = sha256_hex b.

Lemma collision_mono rs1 rs2 x y : collision_in rs1 rs2 -> collision_in (rs1 ++ x) (rs2 ++ y).
Proof. intros (a & b & ? & ? & ? & ?). exists a, b. rewrite !elem_of_app. split_and!; auto. Qed.

Lemma chain_snoc_inv b i p e s rs raw p' e' s' :
  chain b i p e s (rs ++ [raw]) p' e' s' ->
  exists p1 e1 s1, chain b i p e s rs p1 e1 s1 /\ p' = sha256_hex raw /\
    exists f, parseLineFields raw = Some f /\ Prev f = Some p1.
Proof.
  intros H. apply chain_app_inv in H as (p1 & e1 & s1 & H1 & H2).
  inversion H2 as [|? ? ? ? ? ? ? ? ? ? (f & Hf & ? & ? & ? & Hp) Hn]; subst. inversion Hn; subst.
  eexists _, _, _. split; [done|]. split; [done|]. eauto.
Qed.

Lemma chain_head_commits b rs1 rs2 e s h e1 s1 e2 s2 :
  chain b 0 "" e s rs1 h e1 s1 -> chain b 0 "" e s rs2 h e2 s2 -> rs1 = rs2 \/ collision_in rs1 rs2.
Proof.
  revert rs2 h e1 s1 e2 s2; induction rs1 as [|a rs1 IH] using rev_ind; intros rs2 h e1 s1 e2 s2 H1 H2.
  - inversion H1; subst. destruct rs2 as [|b' rs2 _] using rev_ind; [by left|].
    apply chain_snoc_inv in H2 as (? & ? & ? & _ & E & _). by destruct (sha256_hex_nonempty b').
  - apply chain_snoc_inv in H1 as (p1 & ? & ? & H1 & E1 & f1 & Hf1 & Hp1).
    destruct rs2 as [|b' rs2 _] using rev_ind.
    { inversion H2; subst. by destruct (sha256_hex_nonempty a). }
    apply chain_snoc_inv in H2 as (p2 & ? & ? & H2 & E2 & f2 & Hf2 & Hp2).
    destruct (decide (a = b')) as [->|Hne].
    + simplify_eq. destruct (IH _ _ _ _ _ _ H1 H2) as [->|Hc]; [by left|].
      right. by apply collision_mono.
    + right. exists a, b'. rewrite !elem_of_app, !list_elem_of_singleton. split_and!; auto; congruence.
Qed.

(** The head hash commits to the whole history: two files that verify from
    the genesis start with the same head hash are byte-for-byte equal, unless
    they contain two different lines with the same SHA-256.  Equal length is
    not assumed, so a holder of one head hash detects edits, insertions,
    deletions and truncations alike. *)
Theorem head_commits_to_history (d1 d2 : string) (l1 l2 : loaded)
    (H1 : loadChain (MkReader d1 false) zeroStart = l1) (H2 : loadChain (MkReader d2 false) zeroStart = l2)
    (E1 : ld_err l1 = None) (E2 : ld_err l2 = None)
    (Hh : Hash (ld_head l1) = Hash (ld_head l2)) :
  d1 = d2 \/ collision_in (ld_records l1) (ld_records l2).
Proof.
  destruct l1 as [rs1 h1 e1 s1 er1], l2 as [rs2 h2 e2 s2 er2]. cbn in E1, E2, Hh. subst er1 er2.
  apply loadChain_sound in H1 as [-> (_ & _ & C1)], H2 as [-> (_ & _ & C2)]. rewrite Hh in C1.
  destruct (chain_head_commits _ _ _ _ _ _ _ _ _ _ C1 C2) as [->|?]; auto.
Qed.

Lemma head_commits_to_history_witness :
  bytes_of [ex_line1] = file ex_chain1 \/ collision_in [ex_line1] [ex_line1].
Proof.
  refine (head_commits_to_history (bytes_of [ex_line1]) (file ex_chain1)
            (MkLoaded [ex_line1] (MkHead (sha256_hex ex_line1) 1) true false None)
            (MkLoaded [ex_line1] (MkHead (sha256_hex ex_line1) 1) true false None) _ _ _ _ _);
    vm_compute; reflexivity.
Defined.

(** Truncating a torn ledger at the offset the error names recovers it:
    what is left verifies cleanly to exactly the records and head the torn
    read returned, and what is cut off is at most one line. *)
Theorem torn_truncate_recovers (d : string) (s : Start) (off : Z)
    (H : ld_err (loadChain (MkReader d false) s) = Some (TornError off)) :
  let l := loadChain (MkReader d false) s in
  exists est sm tail,
    d = take_str (Z.to_nat off) d +:+ tail /\ length (split_lines tail) = 1%nat /\
    loadChain (MkReader (take_str (Z.to_nat off) d) false) s = MkLoaded (ld_records l) (ld_head l) est sm None.
Proof.
  intros l. destruct (loadChain_prefix d s) as (tail & est & sm & Hd & Hc & He). fold l in Hd, Hc, He, H.
  rewrite H in He. destruct He as [[E Ht]|[E _]]; [|done]. simplify_eq. exists est, sm, tail.
  rewrite Z.add_0_l, Nat2Z.id. 
  assert (Ht' : take_str (String.length (bytes_of (ld_records l))) d = bytes_of (ld_records l)).
  { pose proof (take_str_app (bytes_of (ld_records l)) tail) as Q. by rewrite <- Hd in Q. }
  rewrite Ht'. split_and!; [done|done|]. by apply loadChain_complete.
Qed.

Lemma torn_truncate_recovers_witness :
  exists off, ld_err (loadChain (MkReader (file ex_chain1 +:+ "{") false) zeroStart) = Some (TornError off) /\
    off = 38 /\ exists est sm,
    loadChain (MkReader (take_str (Z.to_nat off) (file ex_chain1 +:+ "{")) false) zeroStart
    = MkLoaded [ex_line1] (MkHead (sha256_hex ex_line1) 1) est sm None.
Proof.
  exists 38. assert (E : ld_err (loadChain (MkReader (file ex_chain1 +:+ "{") false) zeroStart) = Some (TornError 38))
    by (vm_compute; reflexivity).
  split; [exact E|]. split; [reflexivity|].
  destruct (torn_truncate_recovers (file ex_chain1 +:+ "{") zeroStart 38 E) as (est & sm & tail & _ & _ & H).
  exists est, sm. rewrite H. vm_compute. reflexivity.
Defined.

(** The stated honesty limit, exactly: every prefix of a verified chain's
    records, written out, is itself a verified chain with its own head, so
    removing whole records off the end leaves no trace in the file. *)
Theorem tail_deletion_invisible (d : string) (s : Start) (rs : list string) (h : Head) (est sm : bool) (k : nat)
    (H : loadChain (MkReader d false) s = MkLoaded rs h est sm None) :
  exists h' est' sm',
    Count h' = Z.of_nat (length (take k rs)) /\
    loadChain (MkReader (bytes_of (take k rs)) false) s = MkLoaded (take k rs) h' est' sm' None.
Proof.
  apply loadChain_sound in H as [-> (Hn & Hcnt & Hc)].
  rewrite <- (take_drop k rs) in Hc. apply chain_app_inv in Hc as (p1 & e1 & s1 & Hc & _).
  exists (MkHead p1 (Z.of_nat (length (take k rs)))), e1, s1. split; [done|].
  apply loadChain_complete. split_and!; [|done|done]. by apply Forall_take.
Qed.

Lemma tail_deletion_invisible_witness :
  exists h' est' sm', Count h' = 1 /\
    loadChain (MkReader (bytes_of [ex_line1]) false) zeroStart = MkLoaded [ex_line1] h' est' sm' None.
Proof.
  refine (tail_deletion_invisible (bytes_of [ex_line1; ex_line2]) zeroStart [ex_line1; ex_line2]
            (MkHead (sha256_hex ex_line2) 2) true false 1 _).
  vm_compute. reflexivity.
Defined.

(** In a verified ledger every record names its predecessor's digest (the
    start's, for the first) and, when the chain is numbered, record [i] carries
    exactly the sequence number [base + i + 1] (as a uint64). *)
Theorem records_linked_and_numbered (d : string) (s : Start) (rs : list string) (h : Head) (est sm : bool)
    (i : nat) (raw : string)
    (H : loadChain (MkReader d false) s = MkLoaded rs h est sm None) (Hi : rs !! i = Some raw) :
  exists f, parseLineFields raw = Some f /\
    Prev f = Some (match i with O => StartPrev s | S j => sha256_hex (default "" (rs !! j)) end) /\
    Seq f = (if sm then Some (wrapu64 (StartBase s + (Z.of_nat i + 1))) else None).
Proof.
  apply loadChain_sound in H as [_ (_ & _ & Hc)].
  enough (forall b z p e m h' e' m', chain b z p e m rs h' e' m' ->
    exists f, parseLineFields raw = Some f /\
      Prev f = Some (match i with O => p | S j => sha256_hex (default "" (rs !! j)) end) /\
      Seq f = (if m' then Some (wrapu64 (b + (z + Z.of_nat i + 1))) else None)) as Hg.
  { destruct (Hg _ _ _ _ _ _ _ _ Hc) as (f & ? & ? & ?). exists f. by rewrite Z.add_0_l in *. }
  clear Hc. intros b z p e m h' e' m' Hc.
  assert (Hm : forall b z p m rs h' e' m', chain b z p true m rs h' e' m' -> m = m').
  { clear. intros b z p m rs h' e' m' H. remember true as e eqn:He.
    induction H as [|? ? ? ? ? ? ? ? ? ? (f & _ & -> & Hs & _) _ IH]; [done|]. subst. rewrite (Hs eq_refl). auto. }
  revert i Hi. induction Hc as [z p e m|z p e m raw' sm1 rs' h' e' m' (f & Hf & -> & He & Hs & Hp) Hc IH]; intros i Hi; [done|].
  destruct i as [|i]; cbn in Hi.
  - simplify_eq. exists f. split_and!; [done|done|]. rewrite <- (Hm _ _ _ _ _ _ _ _ Hc).
    destruct (Seq f) eqn:E; cbn in *; [|done]. rewrite Hs by done. by rewrite Z.add_0_r.
  - destruct (IH i Hi) as (f' & ? & Hp' & Hs'). exists f'. split_and!; [done| |].
    + rewrite Hp'. by destruct i.
    + rewrite Hs'. destruct m'; [|done]. do 3 f_equal. lia.
Qed.

Lemma records_linked_and_numbered_witness :
  exists f, parseLineFields ex_line2 = Some f /\ Prev f = Some (sha256_hex ex_line1) /\ Seq f = None.
Proof.
  refine (records_linked_and_numbered (bytes_of [ex_line1; ex_line2]) zeroStart [ex_line1; ex_line2]
            (MkHead (sha256_hex ex_line2) 2) true false 1 ex_line2 _ eq_refl).
  vm_compute. reflexivity.
Defined.
