(* ===== verification/Config.v ===== *)
(** * Configuration types ([internal/config/types.go]) and identities
      ([internal/identity/identity.go])

    The YAML structs as records, with the methods the gates decide by: the
    tool grant's two axes, the exec allowlist, the spawn targets and the
    effective defaults, and the grant's own YAML decoder, which fails closed.
    A [time.Duration] is a number of nanoseconds. *)
From S2P Require Import Prelude Sha256 GoStr.

Definition UnixScheme : string := "unix://".

(** ** Tool grants *)
Record ToolGrant : Type := MkGrant {
  g_Resource : string;
  g_Tools : list string;
  g_Mode : string;
}.

Definition AllTools (g : ToolGrant) : bool := bool_decide (g_Tools g = ["*"]).
Definition ReadOnly (g : ToolGrant) : bool := bool_decide (g_Mode g = "read-only").
Definition EveryToolReadWrite (g : ToolGrant) : bool := AllTools g && bool_decide (g_Mode g = "read-write").

(** A YAML node, as far as the two decoders look at it. *)
Inductive yaml_node : Type :=
  | YScalar (value : string)
  | YMapping (keys : list string)     (** the keys, in document order *)
  | YOther.

Inductive grant_error : Type :=
  | EmptyResource
  | BareGrant
  | UnknownKey (k : string)
  | DecodeError
  | NeedsToolsAndMode
  | ModeAllRetired
  | UnknownMode (m : string)
  | NoTools
  | StarNotAlone
  | NoMode
  | NotAnObject.

(** [ToolGrant.UnmarshalYAML].  [decode] is yaml.v3's [value.Decode(&raw)]. *)
Definition UnmarshalGrant (decode : option ToolGrant) (value : yaml_node) : result grant_error ToolGrant :=
  match value with
  | YScalar v => if bool_decide (v = "") then Err EmptyResource else Err BareGrant
  | YMapping keys =>
      match List.find (fun k => negb (contains ["resource"; "tools"; "mode"] k)) keys with
      | Some k => Err (UnknownKey k)
      | None =>
          let toolsPresent := contains keys "tools" in
          match decode with
          | None => Err DecodeError
          | Some raw =>
              if bool_decide (g_Resource raw = "") then Err EmptyResource
              else if negb toolsPresent && bool_decide (g_Mode raw = "") then Err NeedsToolsAndMode
              else if bool_decide (g_Mode raw = "all") then Err ModeAllRetired
              else if negb (contains [""; "read-only"; "read-write"] (g_Mode raw)) then Err (UnknownMode (g_Mode raw))
              else if bool_decide (g_Tools raw = []) then Err NoTools
              else if contains (g_Tools raw) "*" && negb (Nat.eqb (length (g_Tools raw)) 1) then Err StarNotAlone
              else if bool_decide (g_Mode raw = "") then Err NoMode
              else Ok raw
          end
      end
  | YOther => Err NotAnObject
  end.

(** ** Exec *)
Record ExecEntry : Type := MkExecEntry { e_Exe : string; e_ArgsPrefix : list string }.

Record ExecConfig : Type := MkExec {
  x_Allow : list ExecEntry;
  x_Runtime : string;
  x_URL : string;
  x_Timeout : Z;
}.

Inductive exec_yaml_error : Type := ExecNotMapping | ExecModeRetired | ExecDecodeError.

(** [ExecConfig.UnmarshalYAML] *)
Definition UnmarshalExec (decode : option ExecConfig) (value : yaml_node) : result exec_yaml_error ExecConfig :=
  match value with
  | YMapping keys =>
      if contains keys "mode" then Err ExecModeRetired
      else match decode with Some raw => Ok raw | None => Err ExecDecodeError end
  | _ => Err ExecNotMapping
  end.

Definition Declared (e : ExecConfig) : bool :=
  negb (bool_decide (x_Allow e = [])) || negb (bool_decide (x_Runtime e = "")) ||
  negb (bool_decide (x_URL e = "")) || negb (x_Timeout e =? 0).

(** The inner loop of [Allows]: [argv[1+i] == p] for every prefix element, the
    length having been checked by the caller. *)
Fixpoint args_match (prefix args : list string) : bool :=
  match prefix, args with
  | [], _ => true
  | p :: ps, a :: az => if bool_decide (a = p) then args_match ps az else false
  | _ :: _, [] => false
  end.

Fixpoint allows_entries (entries : list ExecEntry) (exe : string) (args : list string) : bool :=
  match entries with
  | [] => false
  | entry :: r =>
      if negb (bool_decide (exe = e_Exe entry)) || Nat.ltb (length args) (length (e_ArgsPrefix entry))
      then allows_entries r exe args
      else if args_match (e_ArgsPrefix entry) args then true
      else allows_entries r exe args
  end.

Definition Allows (e : ExecConfig) (argv : list string) : bool :=
  match argv with
  | [] => false
  | exe :: args => allows_entries (x_Allow e) exe args
  end.

(** ** Agents, workflows, roles, the gateway *)
Record SpawnTarget : Type := MkTarget { t_Role : string; t_Workflow : string }.

Record AgentDef : Type := MkAgent {
  a_Name : string;
  a_Enabled : ptr bool;
  a_Model : string;
  a_Tools : list ToolGrant;
  a_Output : string;
  a_Execution : string;
  a_Endpoint : string;
  a_Exec : ExecConfig;
  a_MaySpawn : list SpawnTarget;
  a_SourceFile : string;
}.

Definition zeroExec : ExecConfig := MkExec [] "" "" 0.
Definition zeroAgent : AgentDef := MkAgent "" None "" [] "" "" "" zeroExec [] "".

Definition IsEnabled (a : AgentDef) : bool := default true (a_Enabled a).

Definition MaySpawnTarget (a : AgentDef) (role workflow : string) : bool :=
  List.existsb (fun t => bool_decide (t_Role t = role) && bool_decide (t_Workflow t = workflow)) (a_MaySpawn a).

Definition EffectiveExecution (a : AgentDef) : string :=
  if bool_decide (a_Execution a = "") then "fronted" else a_Execution a.

Record Step : Type := MkStep {
  s_Name : string;
  s_Agent : string;
  s_OnSuccess : string;
  s_OnFailure : string;
  s_MaxBounces : Z;
}.

Record WorkflowDef : Type := MkWorkflow {
  w_Name : string;
  w_Steps : list Step;
  w_SourceFile : string;
}.

(** [Control] distinguishes an absent list (nil) from an empty one. *)
Record RoleDef : Type := MkRole {
  r_Name : string;
  r_Workflows : list string;
  r_AllowedGroups : list string;
  r_Control : option (list string);
  r_SourceFile : string;
}.

Definition control_list (r : RoleDef) : list string := default [] (r_Control r).

Record SpawnPolicy : Type := MkPolicy {
  p_MaxDepth : Z;
  p_MaxParallel : Z;
  p_MaxTotalSpawns : Z;
  p_RejectCycles : bool;
}.

Record ToolResource : Type := MkResource {
  tr_Kind : string;
  tr_URL : string;
  tr_CredentialSource : string;
  tr_TokenEnv : string;
  tr_GrantType : string;
  tr_ClientAuth : string;
  tr_Issuer : string;
  tr_TokenEndpoint : string;
  tr_ClientIDEnv : string;
  tr_ClientSecretEnv : string;
  tr_Scope : string;
  tr_Audience : string;
  tr_ReadOnlyTools : list string;
  tr_Runtime : string;
}.

Definition zeroResource : ToolResource := MkResource "" "" "" "" "" "" "" "" "" "" "" "" [] "".

Record ModelRoute : Type := MkRoute { m_Endpoint : string; m_Model : string; m_APIKeyEnv : string }.

Record GatewayConfig : Type := MkGateway {
  gw_Models : gmap string ModelRoute;
  gw_Tools : gmap string ToolResource;
  gw_DefaultModel : string;
  gw_RefboxSocketDir : string;
  gw_SpawnSupervisor : string;
  gw_Spawn : SpawnPolicy;
  gw_StepTimeout : Z;
}.

Definition second : Z := 1000000000.
Definition DefaultStepTimeout : Z := 300 * second.
Definition EffectiveStepTimeout (g : GatewayConfig) : Z :=
  if gw_StepTimeout g =? 0 then DefaultStepTimeout else gw_StepTimeout g.

Record Config : Type := MkConfig {
  c_Agents : list AgentDef;
  c_Workflows : list WorkflowDef;
  c_Roles : list RoleDef;
  c_Gateway : GatewayConfig;
}.

(** ** Identities *)
Record Invoker : Type := MkInvoker {
  i_Subject : string;
  i_Issuer : string;
  i_Method : string;
  i_Groups : list string;
}.

(** [Static]: [user] is the value of the environment variable USER. *)
Definition Static (user as_ : string) : Invoker :=
  let subject := if bool_decide (as_ = "") then user else as_ in
  let subject := if bool_decide (subject = "") then "unknown" else subject in
  MkInvoker subject "local" "asserted" [].

#[global] Instance spawn_target_eq_dec : EqDecision SpawnTarget.
Proof. solve_decision. Defined.
#[global] Instance tool_grant_eq_dec : EqDecision ToolGrant.
Proof. solve_decision. Defined.
#[global] Instance exec_entry_eq_dec : EqDecision ExecEntry.
Proof. solve_decision. Defined.
#[global] Instance exec_config_eq_dec : EqDecision ExecConfig.
Proof. solve_decision. Defined.
#[global] Instance invoker_eq_dec : EqDecision Invoker.
Proof. solve_decision. Defined.
#[global] Instance agent_eq_dec : EqDecision AgentDef.
Proof. solve_decision. Defined.
#[global] Instance step_eq_dec : EqDecision Step.
Proof. solve_decision. Defined.

(** ** The shape of an accepted grant *)

(** Both axes stated: tools is ["*"] alone or a non-empty list of names
    without the marker, and mode is one of the two closed values. *)
Definition well_formed_grant (g : ToolGrant) : Prop :=
  g_Resource g <> "" /\
  (g_Tools g = ["*"] \/ (g_Tools g <> [] /\ "*" ∉ g_Tools g)) /\
  (g_Mode g = "read-only" \/ g_Mode g = "read-write").

(** The seven shape rules of a grant, shared by the parser and [Validate]. *)
Lemma shape_ok (g : ToolGrant) :
  g_Resource g <> "" -> g_Mode g <> "all" -> contains [""; "read-only"; "read-write"] (g_Mode g) = true ->
  g_Tools g <> [] -> contains (g_Tools g) "*" && negb (Nat.eqb (length (g_Tools g)) 1) = false -> g_Mode g <> "" ->
  well_formed_grant g.
Proof.
  intros Hr _ Hm Ht Hs Hm'. apply contains_true in Hm. split_and!; [done| |].
  - destruct (contains (g_Tools g) "*") eqn:E; [|right; split; [done|by apply contains_false]].
    cbn in Hs. apply negb_false_iff, Nat.eqb_eq in Hs. apply contains_true in E.
    destruct (g_Tools g) as [|x [|]]; try done. apply list_elem_of_singleton in E as ->. by left.
  - rewrite !elem_of_cons in Hm. destruct Hm as [?|[?|[?|?%not_elem_of_nil]]]; tauto.
Qed.

Lemma args_match_prefix ps az : args_match ps az = true <-> exists rest, az = ps ++ rest.
Proof.
  revert az; induction ps as [|p ps IH]; intros [|a az]; cbn; split; try (by eauto); try done.
  - by intros [? ?].
  - case_bool_decide; [|done]. subst. intros [rest ->]%IH. by exists rest.
  - intros [rest [= -> ->]]. rewrite bool_decide_true by done. apply IH. eauto.
Qed.

Lemma allows_entries_spec es exe args :
  allows_entries es exe args = true <->
  exists e, e ∈ es /\ e_Exe e = exe /\ exists rest, args = e_ArgsPrefix e ++ rest.
Proof.
  induction es as [|e es IH]; [split; [done|intros (? & ?%not_elem_of_nil & _); done]|].
  assert (Hcons : forall P : ExecEntry -> Prop, (exists x, x ∈ e :: es /\ P x) <-> P e \/ exists x, x ∈ es /\ P x).
  { intros P. split.
    - intros (x & [->|Hx]%elem_of_cons & HP); eauto.
    - intros [HP|(x & Hx & HP)]; eexists; rewrite elem_of_cons; eauto. }
  rewrite Hcons, <- IH. cbn [allows_entries].
  destruct (bool_decide (exe = e_Exe e)) eqn:E1; bool_prop; cbn [negb orb].
  2:{ split; [by right|]. intros [(? & _)|?]; [congruence|done]. }
  destruct (Nat.ltb_spec (length args) (length (e_ArgsPrefix e))) as [Hl|Hl].
  { split; [by right|]. intros [(_ & rest & ->)|?]; [rewrite length_app in Hl; lia|done]. }
  destruct (args_match (e_ArgsPrefix e) args) eqn:E2.
  - split; [intros _|done]. left. split; [done|]. by apply args_match_prefix.
  - split; [by right|]. intros [(_ & H)|?]; [|done]. apply args_match_prefix in H. congruence.
Qed.

Lemma MaySpawnTarget_spec a ro wf : MaySpawnTarget a ro wf = true <-> MkTarget ro wf ∈ a_MaySpawn a.
Proof.
  unfold MaySpawnTarget. rewrite existsb_exists. setoid_rewrite <- list_elem_of_In. split.
  - intros ([r w] & Hin & H). cbn in H. bool_prop. by subst.
  - intros H. exists (MkTarget ro wf). split; [done|]. cbn. by rewrite !bool_decide_true.
Qed.

(** ** Properties *)

(** The grant parser fails closed and is exact: a grant is accepted only
    from a mapping whose keys are all known, and the accepted value is the
    decoded one, names a resource, states both axes, and uses the every-tool
    marker alone; conversely every such mapping is accepted. *)
Theorem grant_parser_exact (decode : option ToolGrant) (value : yaml_node) (g : ToolGrant) :
  UnmarshalGrant decode value = Ok g <->
  exists keys, value = YMapping keys /\ Forall (fun k => k ∈ ["resource"; "tools"; "mode"]) keys /\
    decode = Some g /\ well_formed_grant g.
Proof.
  unfold UnmarshalGrant. split.
  - destruct value as [v|keys|]; [by destruct (bool_decide (v = ""))| |done].
    destruct (List.find _ keys) eqn:Ef; [done|]. destruct decode as [raw|]; [|done]. intros H.
    assert (Hkeys : Forall (fun k => k ∈ ["resource"; "tools"; "mode"]) keys).
    { apply Forall_forall. intros k Hk. apply list_elem_of_In in Hk.
      pose proof (List.find_none _ _ Ef k Hk) as Hn. apply negb_false_iff in Hn. by apply contains_true. }
    case_bool_decide as E1; [done|]. destruct (negb (contains keys "tools") && bool_decide (g_Mode raw = "")) eqn:E2; [done|].
    case_bool_decide as E3; [done|]. destruct (contains [""; "read-only"; "read-write"] (g_Mode raw)) eqn:E4; [|done].
    cbn [negb] in H. case_bool_decide as E5; [done|].
    destruct (contains (g_Tools raw) "*" && negb (Nat.eqb (length (g_Tools raw)) 1)) eqn:E6; [done|].
    case_bool_decide as E7; [done|]. injection H as <-. exists keys. split_and!; [done..|]. by apply shape_ok.
  - intros (keys & -> & Hk & -> & Hr & Ht & Hm).
    assert (List.find (fun k => negb (contains ["resource"; "tools"; "mode"] k)) keys = None) as ->.
    { destruct (List.find _ keys) as [k|] eqn:Ef; [|done].
      apply List.find_some in Ef as [Hin Hn]. apply list_elem_of_In in Hin.
      apply (proj1 (Forall_forall _ _) Hk) in Hin. apply contains_true in Hin. by rewrite Hin in Hn. }
    assert (Hmode : g_Mode g <> "" /\ g_Mode g <> "all" /\ contains [""; "read-only"; "read-write"] (g_Mode g) = true)
      by (by destruct Hm as [-> | ->]).
    destruct Hmode as (M1 & M2 & M3). rewrite (bool_decide_false (g_Resource g = "")), (bool_decide_false (g_Mode g = "")) by done.
    rewrite andb_false_r, (bool_decide_false (g_Mode g = "all")), M3 by done. cbn [negb].
    destruct Ht as [-> | [Hne Hs]]; [done|]. rewrite bool_decide_false by done.
    by rewrite (proj2 (contains_false _ _) Hs).
Qed.

(** The exec allowlist is exact: a command is allowed if and only if some
    entry names its executable and the entry's argument prefix is a prefix of
    its arguments; the empty command is never allowed. *)
Theorem exec_allowlist_exact (e : ExecConfig) (argv : list string) :
  Allows e argv = true <->
  exists exe args entry rest, argv = exe :: args /\ entry ∈ x_Allow e /\ e_Exe entry = exe /\
    args = e_ArgsPrefix entry ++ rest.
Proof.
  destruct argv as [|exe args]; cbn [Allows]; [split; [done|naive_solver]|].
  rewrite allows_entries_spec. split.
  - intros (en & Hin & He & rest & Ha). by exists exe, args, en, rest.
  - intros (exe' & args' & en & rest & [= <- <-] & Hin & He & Ha). exists en. split_and!; [done..|]. by exists rest.
Qed.
