(* ===== verification/Authz.v ===== *)
(** * Authorization decisions ([internal/authz/authz.go])

    Who may run a role's workflows ([GroupsAllow]) and who may change
    governance itself ([ControlAllows]). *)
From S2P Require Import Prelude GoStr Config.

Definition ControlOps : list string :=
  ["apply"; "enable"; "disable"; "repair"; "provision"; "prune"; "pull"; "anchor"; "seal"].

Definition KnownControlOp (op : string) : bool := contains ControlOps op.

Fixpoint GroupsIntersect (invokerGroups allowedGroups : list string) : bool :=
  match invokerGroups with
  | [] => false
  | g :: r => if contains allowedGroups g then true else GroupsIntersect r allowedGroups
  end.

Definition GroupsAllow (invokerGroups allowedGroups : list string) : bool :=
  contains allowedGroups "*" || GroupsIntersect invokerGroups allowedGroups.

(** The inner loop of [ControlAllows] over the invoker's groups. *)
Fixpoint control_member (groups : list string) (r : RoleDef) : bool :=
  match groups with
  | [] => false
  | g :: gs => if negb (bool_decide (g = "*")) && contains (r_AllowedGroups r) g then true else control_member gs r
  end.

Fixpoint control_roles (roles : list RoleDef) (groups : list string) (op : string) : bool :=
  match roles with
  | [] => false
  | r :: rs =>
      if negb (contains (control_list r) op) then control_roles rs groups op
      else if control_member groups r then true
      else control_roles rs groups op
  end.

Definition ControlAllows (roles : list RoleDef) (inv : Invoker) (op : string) : bool :=
  if negb (KnownControlOp op) then false else control_roles roles (i_Groups inv) op.

(** ** Facts *)
Lemma GroupsIntersect_spec gs al : GroupsIntersect gs al = true <-> exists g, g ∈ gs /\ g ∈ al.
Proof.
  induction gs as [|g gs IH]; cbn.
  - split; [done|]. by intros (? & ?%not_elem_of_nil & _).
  - destruct (contains al g) eqn:E.
    + apply contains_true in E. split; [|done]. intros _. exists g. rewrite elem_of_cons. auto.
    + apply contains_false in E. rewrite IH. setoid_rewrite elem_of_cons. naive_solver.
Qed.

Lemma GroupsAllow_spec gs al : GroupsAllow gs al = true <-> "*" ∈ al \/ exists g, g ∈ gs /\ g ∈ al.
Proof. unfold GroupsAllow. by rewrite orb_true_iff, contains_true, GroupsIntersect_spec. Qed.

Lemma control_member_spec gs r :
  control_member gs r = true <-> exists g, g ∈ gs /\ g <> "*" /\ g ∈ r_AllowedGroups r.
Proof.
  induction gs as [|g gs IH]; cbn.
  - split; [done|]. by intros (? & ?%not_elem_of_nil & _).
  - destruct (negb (bool_decide (g = "*")) && contains (r_AllowedGroups r) g) eqn:E.
    + bool_prop. split; [|done]. intros _. exists g. rewrite elem_of_cons. auto using contains_true.
      split; [by left|]. split; [done|]. by apply contains_true.
    + rewrite IH. setoid_rewrite elem_of_cons. split; [naive_solver|].
      intros (g' & [->|?] & ? & Hin); [|eauto]. apply contains_true in Hin. rewrite Hin in E.
      rewrite bool_decide_false in E by done. done.
Qed.

Lemma control_roles_spec roles gs op :
  control_roles roles gs op = true <->
  exists r, r ∈ roles /\ op ∈ control_list r /\ control_member gs r = true.
Proof.
  induction roles as [|r rs IH]; cbn.
  - split; [done|]. by intros (? & ?%not_elem_of_nil & _).
  - destruct (contains (control_list r) op) eqn:E; cbn.
    + apply contains_true in E. destruct (control_member gs r) eqn:Em.
      * split; [|done]. intros _. exists r. rewrite elem_of_cons. auto.
      * rewrite IH. setoid_rewrite elem_of_cons. split; [naive_solver|].
        intros (r' & [->|?] & ? & ?); [congruence|eauto].
    + apply contains_false in E. rewrite IH. setoid_rewrite elem_of_cons. naive_solver.
Qed.

(** ** Properties *)

(** Dropping the public marker from a list of groups. *)
Definition strip_star (l : list string) : list string := filter (fun g => g <> "*") l.
Definition strip_role (r : RoleDef) : RoleDef :=
  MkRole (r_Name r) (r_Workflows r) (strip_star (r_AllowedGroups r)) (r_Control r) (r_SourceFile r).

(** The control gate's exact rule: an operation is allowed if and only if
    it is one of the fixed control operations and a single role both lists it
    in its control grant and admits, by a literal group other than the public
    marker, one of the invoker's groups. *)
Theorem control_allows_iff (roles : list RoleDef) (inv : Invoker) (op : string) :
  ControlAllows roles inv op = true <->
  op ∈ ControlOps /\
  exists r g, r ∈ roles /\ op ∈ control_list r /\ g ∈ i_Groups inv /\ g <> "*" /\ g ∈ r_AllowedGroups r.
Proof.
  unfold ControlAllows, KnownControlOp. destruct (contains ControlOps op) eqn:E; cbn [negb].
  - apply contains_true in E. rewrite control_roles_spec. setoid_rewrite control_member_spec. split.
    + intros (r & ? & ? & g & ? & ? & ?). split; [done|]. by exists r, g.
    + intros (_ & r & g & ?). destruct_and?. exists r. eauto 10.
  - apply contains_false in E. split; [done|]. by intros [? _].
Qed.

(** The public marker never carries control authority, on either side:
    removing "*" from every role's allowed groups and from the invoker's own
    groups changes no control decision (while the run-time gate honours it). *)
Theorem control_ignores_public_marker (roles : list RoleDef) (inv : Invoker) (op : string) :
  ControlAllows roles inv op
  = ControlAllows (map strip_role roles)
      (MkInvoker (i_Subject inv) (i_Issuer inv) (i_Method inv) (strip_star (i_Groups inv))) op /\
  GroupsAllow (i_Groups inv) ["*"] = true.
Proof.
  split; [|done]. unfold ControlAllows. destruct (KnownControlOp op); [cbn|done]. 
  apply eq_true_iff_eq. rewrite !control_roles_spec. setoid_rewrite control_member_spec.
  unfold strip_star. setoid_rewrite list_elem_of_fmap. split.
  - intros (r & ? & ? & g & ? & ? & ?). exists (strip_role r). split; [by exists r|]. split; [done|].
    exists g. rewrite list_elem_of_filter. cbn. unfold strip_star. rewrite list_elem_of_filter. auto.
  - intros (? & (r & -> & ?) & ? & g & Hg & ? & Ha). cbn in Ha. unfold strip_star in Ha.
    rewrite list_elem_of_filter in Hg, Ha. exists r. naive_solver.
Qed.
