(* ===== verification/Origin.v ===== *)
(** * Request provenance ([internal/origin/origin.go])

    [Clean] is the one rule for an untrusted string headed for a ledger, a
    log or a response body; [Sanitized] applies it to every field of an
    [Origin].  The loop [for _, r := range s] is the list [runes s] of decoded
    runes.  [is_print] stands for [unicode.IsPrint], whose tables are data of
    the Go distribution. *)
From S2P Require Import Prelude Sha256 GoStr Json.

(** ** Ranging over a string: each rune with the bytes it was decoded from *)
Definition RuneError : Z := 65533.

Definition rune2 (c c1 : ascii) : Z := (byte_val c - 192) * 64 + (byte_val c1 - 128).
Definition rune3 (c c1 c2 : ascii) : Z :=
  ((byte_val c - 224) * 64 + (byte_val c1 - 128)) * 64 + (byte_val c2 - 128).
Definition rune4 (c c1 c2 c3 : ascii) : Z :=
  (((byte_val c - 240) * 64 + (byte_val c1 - 128)) * 64 + (byte_val c2 - 128)) * 64 + (byte_val c3 - 128).

Fixpoint runes (s : string) : list Z :=
  match s with
  | EmptyString => []
  | String c r =>
      match utf8_size c r, r with
      | 1%nat, _ => byte_val c :: runes r
      | 2%nat, String c1 r1 => rune2 c c1 :: runes r1
      | 3%nat, String c1 (String c2 r2) => rune3 c c1 c2 :: runes r2
      | 4%nat, String c1 (String c2 (String c3 r3)) => rune4 c c1 c2 c3 :: runes r3
      | _, _ => RuneError :: runes r
      end
  end.

(** A rune [range] yields for a valid encoding: a Unicode scalar value. *)
Definition scalar (z : Z) : Prop := 0 <= z <= 1114111 /\ ~ (55296 <= z <= 57343).

Record Origin : Type := MkOrigin {
  o_Via : string;
  o_RemoteAddr : string;
  o_ForwardedFor : string;
  o_UserAgent : string;
  o_ServerHost : string;
}.

#[global] Instance origin_eq_dec : EqDecision Origin.
Proof. solve_decision. Defined.

Definition fieldMax : Z := 200.

Section clean.
  Context (is_print : Z -> bool).

(** The loop body: [n] runes are written so far, [b] is the builder. *)
Fixpoint clean_loop (rs : list Z) (n : Z) (b : string) : string :=
  match rs with
  | [] => b
  | r :: rest =>
      if (r =? RuneError) || negb (is_print r) then clean_loop rest n b
      else if n =? fieldMax then b
      else clean_loop rest (n + 1) (b +:+ encode_rune r)
  end.

Definition Clean (s : string) : string := clean_loop (runes s) 0 "".

Definition Sanitized (o : ptr Origin) : ptr Origin :=
  match o with
  | None => None
  | Some c => Some (MkOrigin (Clean (o_Via c)) (Clean (o_RemoteAddr c)) (Clean (o_ForwardedFor c))
                      (Clean (o_UserAgent c)) (Clean (o_ServerHost c)))
  end.

End clean.

(** ** Encoding and decoding runes *)
Fixpoint encode_all (rs : list Z) : string :=
  match rs with
  | [] => ""
  | r :: rest => encode_rune r +:+ encode_all rest
  end.

Lemma encode_all_app l1 l2 : encode_all (l1 ++ l2) = encode_all l1 +:+ encode_all l2.
Proof. induction l1 as [|x l IH]; [done|]. cbn [encode_all app]. by rewrite IH, app_assoc_str. Qed.

Lemma land63 z : 0 <= z -> Z.land z 63 = z mod 64.
Proof. intros. exact (Z.land_ones z 6 ltac:(lia)). Qed.
Lemma shr z k : 0 <= k -> Z.shiftr z k = z / 2 ^ k.
Proof. intros. by apply Z.shiftr_div_pow2. Qed.

Lemma in_range_iff lo hi v : in_range lo hi v = true <-> lo <= v <= hi.
Proof. unfold in_range. rewrite andb_true_iff, !Z.leb_le. done. Qed.

(** Decide the range tests of the UTF-8 code by arithmetic. *)
Ltac utf8_tests :=
  repeat match goal with
         | |- context [?a <? ?b] => first
             [ replace (a <? b) with true by (symmetry; apply Z.ltb_lt; lia)
             | replace (a <? b) with false by (symmetry; apply Z.ltb_ge; lia) ]
         | |- context [?a <=? ?b] => first
             [ replace (a <=? b) with true by (symmetry; apply Z.leb_le; lia)
             | replace (a <=? b) with false by (symmetry; apply Z.leb_gt; lia) ]
         | |- context [?a =? ?b] => first
             [ replace (a =? b) with true by (symmetry; apply Z.eqb_eq; lia)
             | replace (a =? b) with false by (symmetry; apply Z.eqb_neq; lia) ]
         end; cbn [andb orb negb].

Ltac utf8_test :=
  match goal with
  | |- context [if ?a <? ?b then _ else _] => destruct (Z.ltb_spec a b); try lia
  | |- context [if ?a =? ?b then _ else _] => destruct (Z.eqb_spec a b); try lia
  | |- context [if in_range ?l ?h ?v then _ else _] =>
      let E := fresh in
      destruct (in_range l h v) eqn:E;
      [apply in_range_iff in E | apply not_true_iff_false in E; rewrite in_range_iff in E]; try lia
  | |- context [in_range ?l ?h ?v && _] =>
      let E := fresh in
      destruct (in_range l h v) eqn:E; cbn [andb];
      [apply in_range_iff in E | apply not_true_iff_false in E; rewrite in_range_iff in E]; try lia
  end.

Lemma split64 z : 0 <= z -> exists q r, z = 64 * q + r /\ 0 <= q /\ 0 <= r < 64 /\ z / 64 = q /\ z mod 64 = r.
Proof.
  intros. exists (z / 64), (z mod 64). pose proof (Z.div_mod z 64 ltac:(lia)).
  pose proof (Z.mod_pos_bound z 64 ltac:(lia)). pose proof (Z.div_pos z 64). repeat split; lia.
Qed.

(** The three encodings in terms of 6-bit groups. *)
Lemma encode2 q r : 2 <= q < 32 -> 0 <= r < 64 ->
  encode_rune (64 * q + r) = String (byte_of (192 + q)) (String (byte_of (128 + r)) "").
Proof.
  intros. unfold encode_rune, in_range. utf8_tests. rewrite land63, shr by lia.
  replace ((64 * q + r) / 2 ^ 6) with q by (apply (Z.div_unique_pos _ _ _ r); lia).
  by replace ((64 * q + r) mod 64) with r by (apply (Z.mod_unique_pos _ _ q); lia).
Qed.

Lemma encode3 p q r : 0 <= p < 16 -> 0 <= q < 64 -> 0 <= r < 64 ->
  2048 <= 64 * (64 * p + q) + r -> ~ (55296 <= 64 * (64 * p + q) + r <= 57343) ->
  encode_rune (64 * (64 * p + q) + r)
  = String (byte_of (224 + p)) (String (byte_of (128 + q)) (String (byte_of (128 + r)) "")).
Proof.
  intros. unfold encode_rune. set (z := 64 * (64 * p + q) + r) in *.
  replace (in_range 55296 57343 z) with false
    by (symmetry; apply not_true_iff_false; rewrite in_range_iff; lia).
  utf8_tests. rewrite !shr, !land63 by (try apply Z.div_pos; lia).
  replace (z / 2 ^ 12) with p by (apply (Z.div_unique_pos _ _ _ (64 * q + r)); lia).
  replace (z / 2 ^ 6) with (64 * p + q) by (apply (Z.div_unique_pos _ _ _ r); lia).
  replace ((64 * p + q) mod 64) with q by (apply (Z.mod_unique_pos _ _ p); lia).
  by replace (z mod 64) with r by (apply (Z.mod_unique_pos _ _ (64 * p + q)); lia).
Qed.

Lemma encode4 o p q r : 0 <= o < 5 -> 0 <= p < 64 -> 0 <= q < 64 -> 0 <= r < 64 ->
  65536 <= 64 * (64 * (64 * o + p) + q) + r <= 1114111 ->
  encode_rune (64 * (64 * (64 * o + p) + q) + r)
  = String (byte_of (240 + o)) (String (byte_of (128 + p)) (String (byte_of (128 + q)) (String (byte_of (128 + r)) ""))).
Proof.
  intros. unfold encode_rune, in_range. set (z := 64 * (64 * (64 * o + p) + q) + r) in *.
  utf8_tests. rewrite !shr, !land63 by (try apply Z.div_pos; lia).
  replace (z / 2 ^ 18) with o by (apply (Z.div_unique_pos _ _ _ (64 * (64 * p + q) + r)); lia).
  replace (z / 2 ^ 12) with (64 * o + p) by (apply (Z.div_unique_pos _ _ _ (64 * q + r)); lia).
  replace (z / 2 ^ 6) with (64 * (64 * o + p) + q) by (apply (Z.div_unique_pos _ _ _ r); lia).
  replace ((64 * o + p) mod 64) with p by (apply (Z.mod_unique_pos _ _ o); lia).
  replace ((64 * (64 * o + p) + q) mod 64) with q by (apply (Z.mod_unique_pos _ _ (64 * o + p)); lia).
  by replace (z mod 64) with r by (apply (Z.mod_unique_pos _ _ (64 * (64 * o + p) + q)); lia).
Qed.

(** Every scalar value is one of the four forms. *)
Lemma scalar_cases z : scalar z ->
  (0 <= z < 128 /\ encode_rune z = String (byte_of z) "") \/
  (exists q r, 2 <= q < 32 /\ 0 <= r < 64 /\ z = 64 * q + r) \/
  (exists p q r, 0 <= p < 16 /\ 0 <= q < 64 /\ 0 <= r < 64 /\ z = 64 * (64 * p + q) + r /\ 2048 <= z) \/
  (exists o p q r, 0 <= o < 5 /\ 0 <= p < 64 /\ 0 <= q < 64 /\ 0 <= r < 64 /\
     z = 64 * (64 * (64 * o + p) + q) + r /\ 65536 <= z).
Proof.
  intros [Hz Hs]. destruct (split64 z) as (q & r & E & Hq & Hr & _); [lia|].
  destruct (decide (z < 128)); [left|right].
  { split; [lia|]. unfold encode_rune. by utf8_tests. }
  destruct (decide (z < 2048)); [left; exists q, r; lia|right].
  destruct (split64 q) as (p & q' & E' & Hp & Hq' & _); [lia|].
  destruct (decide (z < 65536)); [left; exists p, q', r; lia|right].
  destruct (split64 p) as (o & p' & E'' & Ho & Hp' & _); [lia|].
  exists o, p', q', r. lia.
Qed.

Lemma size2 q r t : 2 <= q < 32 -> 0 <= r < 64 ->
  utf8_size (byte_of (192 + q)) (String (byte_of (128 + r)) t) = 2%nat.
Proof. intros. unfold utf8_size, cont_byte. rewrite !byte_val_of by lia. by repeat utf8_test. Qed.

Lemma size3 p q r t : 0 <= p < 16 -> 0 <= q < 64 -> 0 <= r < 64 ->
  2048 <= 64 * (64 * p + q) + r -> ~ (55296 <= 64 * (64 * p + q) + r <= 57343) ->
  utf8_size (byte_of (224 + p)) (String (byte_of (128 + q)) (String (byte_of (128 + r)) t)) = 3%nat.
Proof. intros. unfold utf8_size, cont_byte. rewrite !byte_val_of by lia. by repeat utf8_test. Qed.

Lemma size4 o p q r t : 0 <= o < 5 -> 0 <= p < 64 -> 0 <= q < 64 -> 0 <= r < 64 ->
  65536 <= 64 * (64 * (64 * o + p) + q) + r <= 1114111 ->
  utf8_size (byte_of (240 + o))
    (String (byte_of (128 + p)) (String (byte_of (128 + q)) (String (byte_of (128 + r)) t))) = 4%nat.
Proof. intros. unfold utf8_size, cont_byte. rewrite !byte_val_of by lia. by repeat utf8_test. Qed.

Lemma runes_encode z t : scalar z -> runes (encode_rune z +:+ t) = z :: runes t.
Proof.
  intros Hz. destruct (scalar_cases z Hz) as
    [[H ->]|[(q & r & Hq & Hr & ->)|[(p & q & r & Hp & Hq & Hr & -> & Hl)|(o & p & q & r & Ho & Hp & Hq & Hr & -> & Hl)]]].
  - str_cons. cbn [runes]. unfold utf8_size. rewrite byte_val_of by lia. by destruct (Z.ltb_spec z 128); [|lia].
  - rewrite encode2 by done. str_cons. cbn [runes]. rewrite size2 by done.
    unfold rune2. rewrite !byte_val_of by lia. change (EmptyString +:+ t) with t. f_equal; lia.
  - destruct Hz as [Hz Hs]. rewrite encode3 by (try done; lia). str_cons. cbn [runes]. rewrite size3 by (try done; lia).
    unfold rune3. rewrite !byte_val_of by lia. change (EmptyString +:+ t) with t. f_equal; lia.
  - destruct Hz as [Hz Hs]. rewrite encode4 by (try done; lia). str_cons. cbn [runes]. rewrite size4 by (try done; lia).
    unfold rune4. rewrite !byte_val_of by lia. change (EmptyString +:+ t) with t. f_equal; lia.
Qed.

Lemma byte_offset c k : byte_of (k + (byte_val c - k)) = c.
Proof. rewrite Zplus_minus. apply byte_of_val. Qed.

(** What the size test establishes about the bytes. *)
Ltac size_facts H :=
  unfold utf8_size, cont_byte, in_range in H;
  repeat match type of H with
         | context [if ?b then _ else _] => destruct b eqn:?; try done
         | context [match ?r with _ => _ end] => destruct r eqn:?; try done
         end; bool_prop;
  repeat match goal with
         | E : (if ?b then _ else _) = true |- _ => destruct b eqn:?
         end; bool_prop.

Lemma decoded2 c c1 r : utf8_size c (String c1 r) = 2%nat ->
  2 <= byte_val c - 192 < 32 /\ 0 <= byte_val c1 - 128 < 64.
Proof. intros H. size_facts H; simplify_eq; bool_prop; lia. Qed.

Lemma decoded3 c c1 c2 r : utf8_size c (String c1 (String c2 r)) = 3%nat ->
  0 <= byte_val c - 224 < 16 /\ 0 <= byte_val c1 - 128 < 64 /\ 0 <= byte_val c2 - 128 < 64 /\
  2048 <= rune3 c c1 c2 /\ ~ (55296 <= rune3 c c1 c2 <= 57343).
Proof. intros H. unfold rune3. size_facts H; simplify_eq; bool_prop; lia. Qed.

Lemma decoded4 c c1 c2 c3 r : utf8_size c (String c1 (String c2 (String c3 r))) = 4%nat ->
  0 <= byte_val c - 240 < 5 /\ 0 <= byte_val c1 - 128 < 64 /\ 0 <= byte_val c2 - 128 < 64 /\
  0 <= byte_val c3 - 128 < 64 /\ 65536 <= rune4 c c1 c2 c3 <= 1114111.
Proof. intros H. unfold rune4. size_facts H; simplify_eq; bool_prop; lia. Qed.

Lemma runes_scalar s : Forall scalar (runes s).
Proof.
  assert (HR : scalar RuneError) by (unfold scalar, RuneError; lia).
  induction s as [s IH] using (induction_ltof1 _ String.length). unfold ltof in IH.
  destruct s as [|c r]; [constructor|]. cbn [runes].
  destruct (utf8_size c r) as [|[|[|[|[|]]]]] eqn:E.
  - constructor; [done|]. apply IH; cbn; lia.
  - constructor; [|apply IH; cbn; lia]. apply utf8_size_1 in E. pose proof (byte_val_range c). unfold scalar. lia.
  - destruct r as [|c1 r1]; [|constructor; [|apply IH; cbn; lia]].
    + constructor; [done|]. constructor.
    + apply decoded2 in E. unfold scalar, rune2. lia.
  - destruct r as [|c1 [|c2 r2]]; [constructor; [done|apply IH; cbn; lia]..|].
    constructor; [|apply IH; cbn; lia]. pose proof (decoded3 _ _ _ _ E) as (? & ? & ? & ? & ?).
    unfold scalar. split; [unfold rune3; lia|done].
  - destruct r as [|c1 [|c2 [|c3 r3]]]; [constructor; [done|apply IH; cbn; lia]..|].
    constructor; [|apply IH; cbn; lia]. apply decoded4 in E. unfold scalar. lia.
  - constructor; [done|]. apply IH; cbn; lia.
Qed.

(** A valid string is the encoding of its runes. *)
Lemma encode_runes s : valid_utf8 s = true -> encode_all (runes s) = s.
Proof.
  induction s as [s IH] using (induction_ltof1 _ String.length). unfold ltof in IH.
  destruct s as [|c r]; [done|]. cbn [runes valid_utf8]. intros Hv.
  destruct (utf8_size c r) as [|[|[|[|[|]]]]] eqn:E; [done|..|done].
  - cbn [encode_all]. rewrite IH by (done || cbn; lia). apply utf8_size_1 in E.
    pose proof (byte_val_range c). unfold encode_rune. utf8_tests. by rewrite byte_of_val.
  - destruct r as [|c1 r1]; [done|]. cbn [encode_all]. rewrite IH by (done || cbn; lia).
    apply decoded2 in E as [? ?]. unfold rune2. rewrite (Z.mul_comm _ 64), encode2 by lia.
    by rewrite !byte_offset.
  - destruct r as [|c1 [|c2 r2]]; [done..|]. cbn [encode_all]. rewrite IH by (done || cbn; lia).
    apply decoded3 in E as (? & ? & ? & Hl & Hs). unfold rune3 in *.
    rewrite !(Z.mul_comm _ 64) in *. rewrite encode3 by lia. by rewrite !byte_offset.
  - destruct r as [|c1 [|c2 [|c3 r3]]]; [done..|]. cbn [encode_all]. rewrite IH by (done || cbn; lia).
    apply decoded4 in E as (? & ? & ? & ? & Hl). unfold rune4 in *.
    rewrite !(Z.mul_comm _ 64) in *. rewrite encode4 by lia. by rewrite !byte_offset.
Qed.

Lemma runes_encode_all rs : Forall scalar rs -> runes (encode_all rs) = rs.
Proof. induction 1 as [|z rs Hz _ IH]; [done|]. cbn [encode_all]. by rewrite runes_encode, IH. Qed.

Lemma valid_encode z t : scalar z -> valid_utf8 (encode_rune z +:+ t) = valid_utf8 t.
Proof.
  intros Hz. destruct (scalar_cases z Hz) as
    [[H ->]|[(q & r & Hq & Hr & ->)|[(p & q & r & Hp & Hq & Hr & -> & Hl)|(o & p & q & r & Ho & Hp & Hq & Hr & -> & Hl)]]].
  - str_cons. cbn [valid_utf8]. unfold utf8_size. rewrite byte_val_of by lia. by destruct (Z.ltb_spec z 128); [|lia].
  - rewrite encode2 by done. str_cons. cbn [valid_utf8]. by rewrite size2.
  - destruct Hz as [Hz Hs]. rewrite encode3 by (try done; lia). str_cons. cbn [valid_utf8].
    by rewrite size3 by (try done; lia).
  - destruct Hz as [Hz Hs]. rewrite encode4 by (try done; lia). str_cons. cbn [valid_utf8].
    by rewrite size4 by (try done; lia).
Qed.

Lemma valid_encode_all rs : Forall scalar rs -> valid_utf8 (encode_all rs) = true.
Proof. induction 1 as [|z rs Hz _ IH]; [done|]. cbn [encode_all]. by rewrite valid_encode. Qed.

(** ** Properties *)
Section properties.
  Context (is_print : Z -> bool).

(** The runes [Clean] keeps. *)
Definition keeps (r : Z) : Prop := r <> RuneError /\ is_print r = true.
#[local] Instance keeps_dec r : Decision (keeps r).
Proof. unfold keeps. apply _. Defined.

Lemma clean_loop_spec rs n b : 0 <= n <= fieldMax ->
  clean_loop is_print rs n b = b +:+ encode_all (take (Z.to_nat (fieldMax - n)) (filter keeps rs)).
Proof.
  unfold fieldMax. revert n b; induction rs as [|r rs IH]; intros n b Hn; cbn [clean_loop].
  { rewrite filter_nil, take_nil. cbn. by rewrite app_nil_str. }
  rewrite filter_cons. destruct (decide (keeps r)) as [[Hr Hp]|Hk].
  - replace ((r =? RuneError) || negb (is_print r)) with false
      by (rewrite Hp, orb_false_r; symmetry; by apply Z.eqb_neq).
    unfold fieldMax. destruct (Z.eqb_spec n 200) as [->|Hne].
    + change (Z.to_nat (200 - 200)) with O. cbn. by rewrite app_nil_str.
    + rewrite IH by lia. replace (Z.to_nat (200 - n)) with (S (Z.to_nat (200 - (n + 1)))) by lia.
      cbn [take encode_all]. by rewrite app_assoc_str.
  - destruct ((r =? RuneError) || negb (is_print r)) eqn:E; [by apply IH|].
    destruct Hk. bool_prop. by split.
Qed.

Definition kept (s : string) : list Z := take (Z.to_nat fieldMax) (filter keeps (runes s)).

Lemma Clean_spec s : Clean is_print s = encode_all (kept s).
Proof. unfold Clean, kept. by rewrite clean_loop_spec by (unfold fieldMax; lia). Qed.

Lemma kept_Forall (P : Z -> Prop) s : Forall P (filter keeps (runes s)) -> Forall P (kept s).
Proof. apply Forall_take. Qed.

Lemma kept_scalar s : Forall scalar (kept s).
Proof. apply kept_Forall. apply Forall_forall. intros x [_ Hx]%list_elem_of_filter.
  by apply (Forall_forall scalar (runes s)); [apply runes_scalar|]. Qed.

Lemma kept_keeps s : Forall keeps (kept s).
Proof. apply kept_Forall. apply Forall_forall. by intros x [? _]%list_elem_of_filter. Qed.

Lemma runes_Clean s : runes (Clean is_print s) = kept s.
Proof. rewrite Clean_spec. apply runes_encode_all, kept_scalar. Qed.

Lemma kept_id s : Forall keeps (runes s) -> Z.of_nat (length (runes s)) <= fieldMax -> kept s = runes s.
Proof.
  intros HF Hl. unfold kept. rewrite filter_all by done.
  apply take_ge. lia.
Qed.

(** What [Clean] promises of any bytes whatever: the result is valid
    UTF-8 of at most 200 runes, every one printable and none the replacement
    rune; cleaning is idempotent; and a string comes back byte-identical
    exactly when it already satisfies those conditions.  [Sanitized] is
    idempotent accordingly. *)
Theorem clean_correct (s : string) (o : ptr Origin) :
  let c := Clean is_print s in
  (valid_utf8 c = true /\ Z.of_nat (length (runes c)) <= 200 /\
   Forall (fun r => r <> RuneError /\ is_print r = true) (runes c)) /\
  (c = s <-> valid_utf8 s = true /\ Z.of_nat (length (runes s)) <= 200 /\
             Forall (fun r => r <> RuneError /\ is_print r = true) (runes s)) /\
  Clean is_print c = c /\
  Sanitized is_print (Sanitized is_print o) = Sanitized is_print o.
Proof.
  cbv zeta.
  assert (A : forall s, valid_utf8 (Clean is_print s) = true /\
    Z.of_nat (length (runes (Clean is_print s))) <= 200 /\ Forall keeps (runes (Clean is_print s))).
  { intros t. rewrite runes_Clean. split_and!; [|unfold kept; rewrite length_take; unfold fieldMax; lia|apply kept_keeps].
    rewrite Clean_spec. apply valid_encode_all, kept_scalar. }
  assert (B : forall s, valid_utf8 s = true /\ Z.of_nat (length (runes s)) <= 200 /\ Forall keeps (runes s) ->
                        Clean is_print s = s).
  { intros t (Hv & Hl & HF). rewrite Clean_spec, kept_id by done. by apply encode_runes. }
  split; [apply A|]. split; [split; [intros E; rewrite <- E; apply A|apply B]|]. split; [apply B, A|].
  destruct o as [[]|]; [|done]. cbn. do 2 f_equal; apply B, A.
Qed.

End properties.
