(* ===== verification/Registry.v ===== *)
(** * The registry ([internal/registry/registry.go], [internal/registry/validate.go])

    [Validate] is the apply-time law over a configuration; [Build] keeps a
    configuration that passes as three maps.  A validation error carries its
    file, entity and code; the message texts are not modelled.  Go iterates a
    map in an unspecified order; the model uses the order of [map_to_list],
    and no theorem depends on it.  [url_Parse] stands for [net/url]'s parser,
    reduced to what is read of its result: the scheme and the host name. *)
From S2P Require Import Prelude Sha256 GoStr Paths Config Authz.

Record ValidationError : Type := MkVE { ve_File : string; ve_Entity : string; ve_Code : string }.

Record Registry : Type := MkRegistry {
  reg_agents : gmap string AgentDef;
  reg_workflows : gmap string WorkflowDef;
  reg_roles : gmap string RoleDef;
}.

Definition Agent (r : Registry) (name : string) : option AgentDef := reg_agents r !! name.
Definition Workflow (r : Registry) (name : string) : option WorkflowDef := reg_workflows r !! name.
Definition Role (r : Registry) (name : string) : option RoleDef := reg_roles r !! name.

Definition RoleOwnsWorkflow (r : Registry) (role wf : string) : bool :=
  match reg_roles r !! role with
  | None => false
  | Some ro => contains (r_Workflows ro) wf
  end.

(** [InsideDir]: a pair [Rel] cannot relate is reported as inside. *)
Definition InsideDir (dir parent : string) : bool :=
  match Rel (Paths.Clean parent) (Paths.Clean dir) with
  | None => true
  | Some rel => negb (bool_decide (rel = "..")) && negb (has_prefix rel "../")
  end.

Definition when (b : bool) (e : ValidationError) : list ValidationError := if b then [e] else [].

(** The loop the agents, the workflows and the roles share: an entry without a
    name or with a name already taken is reported and skipped, any other is
    kept in the map [m] under its name and put to its own [check]. *)
Fixpoint validate_named {A : Type} (key file : A -> string) (kind : string) (check : A -> list ValidationError)
    (l : list A) (m : gmap string A) : list ValidationError * gmap string A :=
  match l with
  | [] => ([], m)
  | a :: r =>
      if bool_decide (key a = "") then
        let '(errs, m') := validate_named key file kind check r m in
        (MkVE (file a) kind "missing-name" :: errs, m')
      else match m !! key a with
           | Some _ =>
               let '(errs, m') := validate_named key file kind check r m in
               (MkVE (file a) (key a) "duplicate-name" :: errs, m')
           | None =>
               let '(errs, m') := validate_named key file kind check r (<[key a := a]> m) in
               (check a ++ errs, m')
           end
  end.

Section validate.
  Context (url_Parse : string -> option (string * string)).

Definition validSecureEndpoint (raw : string) : bool :=
  if bool_decide (raw = "") then false
  else match url_Parse raw with
       | None => false
       | Some (scheme, host) =>
           if bool_decide (scheme = "https") then true
           else if bool_decide (scheme = "http") then
             bool_decide (host = "localhost") || bool_decide (host = "127.0.0.1") || bool_decide (host = "::1")
           else false
       end.

Definition validSecureOrUnixEndpoint (raw : string) : bool :=
  match cut_prefix UnixScheme raw with
  | Some path => IsAbs path
  | None => validSecureEndpoint raw
  end.

(** ** Agents *)

(** One grant of the loop over [a.Tools]; [all] and [lim] are the loop's
    [grantedAll] and [grantedLimited]. *)
Definition validate_grant (tools : gmap string ToolResource) (bad unknown : ValidationError)
    (grant : ToolGrant) (all lim : list string) : list ValidationError * (list string * list string) :=
  if bool_decide (g_Resource grant = "") then ([bad], (all, lim))
  else if bool_decide (g_Tools grant = []) && bool_decide (g_Mode grant = "") then ([bad], (all, lim))
  else if bool_decide (g_Mode grant = "all") then ([bad], (all, lim))
  else if negb (contains [""; "read-only"; "read-write"] (g_Mode grant)) then ([bad], (all, lim))
  else if bool_decide (g_Tools grant = []) then ([bad], (all, lim))
  else if contains (g_Tools grant) "*" && negb (Nat.eqb (length (g_Tools grant)) 1) then ([bad], (all, lim))
  else if bool_decide (g_Mode grant = "") then ([bad], (all, lim))
  else
    let res := tools !! g_Resource grant in
    let errs1 := match res with None => [unknown] | Some _ => [] end in
    let errs2 :=
      if AllTools grant then []
      else flat_map (fun name => when (bool_decide (name = "")) bad) (g_Tools grant) in
    let errs3 :=
      match res with
      | Some r =>
          if ReadOnly grant then
            if bool_decide (tr_ReadOnlyTools r = []) then [bad]
            else if AllTools grant then []
            else flat_map (fun name => when (negb (bool_decide (name = "")) && negb (contains (tr_ReadOnlyTools r) name)) bad)
                   (g_Tools grant)
          else []
      | None => []
      end in
    let inLim := contains lim (g_Resource grant) in
    let seen := contains all (g_Resource grant) || inLim in
    let errs4 := when (seen && (negb (EveryToolReadWrite grant) || inLim)) bad in
    (errs1 ++ errs2 ++ errs3 ++ errs4,
     if EveryToolReadWrite grant then (g_Resource grant :: all, lim) else (all, g_Resource grant :: lim)).

Fixpoint validate_grants (tools : gmap string ToolResource) (bad unknown : ValidationError)
    (grants : list ToolGrant) (all lim : list string) : list ValidationError :=
  match grants with
  | [] => []
  | g :: r =>
      let '(errs, (all', lim')) := validate_grant tools bad unknown g all lim in
      errs ++ validate_grants tools bad unknown r all' lim'
  end.

Definition validate_exec (gw : GatewayConfig) (a : AgentDef) : list ValidationError :=
  let bad := MkVE (a_SourceFile a) (a_Name a) "bad-exec-config" in
  let x := a_Exec a in
  if negb (Declared x) then []
  else
    when (negb (bool_decide (EffectiveExecution a = "fronted"))) bad ++
    when (negb (bool_decide (x_Runtime x = "refexec"))) bad ++
    when (negb (has_prefix (x_URL x) UnixScheme) || negb (validSecureOrUnixEndpoint (x_URL x))) bad ++
    when (x_Timeout x <? second) bad ++
    when (negb (bool_decide (gw_RefboxSocketDir gw = "")) && has_prefix (x_URL x) UnixScheme &&
          InsideDir (Paths.Dir (trim_prefix (x_URL x) UnixScheme)) (gw_RefboxSocketDir gw)) bad ++
    when (bool_decide (x_Allow x = [])) bad ++
    flat_map (fun e => when (bool_decide (e_Exe e = "")) bad) (x_Allow x).

Definition validate_agent (gw : GatewayConfig) (a : AgentDef) : list ValidationError :=
  let err := MkVE (a_SourceFile a) (a_Name a) in
  (if bool_decide (a_Execution a = "contained") then [err "bad-execution"]
   else when (negb (bool_decide (a_Execution a = "")) && negb (bool_decide (a_Execution a = "fronted"))) (err "bad-execution")) ++
  (if bool_decide (a_Endpoint a = "") then [err "fronted-needs-endpoint"]
   else when (negb (validSecureOrUnixEndpoint (a_Endpoint a))) (err "bad-endpoint")) ++
  validate_grants (gw_Tools gw) (err "bad-tool-grant") (err "unknown-tool") (a_Tools a) [] [] ++
  validate_exec gw a.

Definition validate_agents (gw : GatewayConfig) := validate_named a_Name a_SourceFile "(agent)" (validate_agent gw).

(** ** Tool resources *)
Fixpoint dup_or_empty (l seen : list string) : bool :=
  match l with
  | [] => false
  | name :: r => if bool_decide (name = "") || contains seen name then true else dup_or_empty r (name :: seen)
  end.

Definition validate_resource (id : string) (r : ToolResource) : list ValidationError :=
  let bad := MkVE "gateway.yaml" id "bad-tool-resource" in
  when (negb (bool_decide (tr_Kind r = "mcp"))) bad ++
  when (negb (validSecureOrUnixEndpoint (tr_URL r))) bad ++
  (if bool_decide (tr_Runtime r = "") then []
   else if bool_decide (tr_Runtime r = "refbridge") then when (negb (has_prefix (tr_URL r) UnixScheme)) bad
   else [bad]) ++
  when (negb (bool_decide (tr_CredentialSource r = "static_env"))) bad ++
  (if bool_decide (tr_GrantType r = "") then when (bool_decide (tr_TokenEnv r = "")) bad
   else if bool_decide (tr_GrantType r = "client_credentials") then
     when (negb (bool_decide (tr_ClientAuth r = "client_secret_basic"))) bad ++
     when (bool_decide (tr_Issuer r = "")) bad ++
     when (bool_decide (tr_ClientIDEnv r = "")) bad ++
     when (bool_decide (tr_ClientSecretEnv r = "")) bad ++
     when (negb (validSecureEndpoint (tr_TokenEndpoint r))) bad
   else if bool_decide (tr_GrantType r = "token_exchange") then
     when (negb (bool_decide (tr_ClientAuth r = "client_secret_basic"))) bad ++
     when (bool_decide (tr_Audience r = "")) bad ++
     when (bool_decide (tr_ClientIDEnv r = "")) bad ++
     when (bool_decide (tr_ClientSecretEnv r = "")) bad ++
     when (negb (validSecureEndpoint (tr_TokenEndpoint r))) bad ++
     when (negb (bool_decide (tr_TokenEnv r = ""))) bad ++
     when (negb (bool_decide (tr_Issuer r = ""))) bad
   else [bad]) ++
  when (negb (bool_decide (tr_GrantType r = "token_exchange")) && negb (bool_decide (tr_Audience r = ""))) bad ++
  when (dup_or_empty (tr_ReadOnlyTools r) []) bad.

Definition validate_resources (gw : GatewayConfig) : list ValidationError :=
  flat_map (fun kv => validate_resource kv.1 kv.2) (map_to_list (gw_Tools gw)).

(** ** Workflows *)

(** [index]: the position of the LAST step of each name. *)
Fixpoint build_index (steps : list Step) (i : Z) (index : gmap string Z) : gmap string Z :=
  match steps with
  | [] => index
  | s :: r => build_index r (i + 1) (<[s_Name s := i]> index)
  end.

Definition validate_step (agents : gmap string AgentDef) (w : WorkflowDef) (index : gmap string Z) (n i : Z) (s : Step)
  : list ValidationError :=
  let err := MkVE (w_SourceFile w) (w_Name w) in
  match agents !! s_Agent s with
  | None => [err "dangling-agent-ref"]
  | Some a => when (negb (IsEnabled a)) (err "disabled-agent-ref")
  end ++
  when ((s_MaxBounces s <? 0) || (10 <? s_MaxBounces s)) (err "bad-bounces") ++
  (if bool_decide (s_OnSuccess s = "") then []
   else let last := i =? n - 1 in
        if negb last || negb (bool_decide (s_OnSuccess s = "finish")) then
          when (match index !! s_OnSuccess s with None => true | Some j => negb (j =? i + 1) end) (err "bad-graph")
        else []) ++
  (if bool_decide (s_OnFailure s = "") then []
   else when (match index !! s_OnFailure s with None => true | Some j => i <=? j end) (err "bad-graph")).

Fixpoint validate_steps (agents : gmap string AgentDef) (w : WorkflowDef) (index : gmap string Z) (n i : Z) (steps : list Step)
  : list ValidationError :=
  match steps with
  | [] => []
  | s :: r => validate_step agents w index n i s ++ validate_steps agents w index n (i + 1) r
  end.

Definition validate_workflow (agents : gmap string AgentDef) (w : WorkflowDef) : list ValidationError :=
  if bool_decide (w_Steps w = []) then [MkVE (w_SourceFile w) (w_Name w) "no-steps"]
  else validate_steps agents w (build_index (w_Steps w) 0 ∅) (Z.of_nat (length (w_Steps w))) 0 (w_Steps w).

Definition validate_workflows (agents : gmap string AgentDef) :=
  validate_named w_Name w_SourceFile "(workflow)" (validate_workflow agents).

(** ** Roles *)
Definition validate_role (wfs : gmap string WorkflowDef) (r : RoleDef) : list ValidationError :=
  let err := MkVE (r_SourceFile r) (r_Name r) in
  when (bool_decide (r_Workflows r = []) && bool_decide (control_list r = [])) (err "no-capability") ++
  when (bool_decide (r_Control r = Some [])) (err "control-empty") ++
  flat_map (fun op => when (negb (KnownControlOp op)) (err "control-bad-op")) (control_list r) ++
  when (negb (bool_decide (control_list r = [])) && contains (r_AllowedGroups r) "*") (err "public-control-role") ++
  when (bool_decide (r_AllowedGroups r = [])) (err "no-access-floor") ++
  flat_map (fun wf => match wfs !! wf with None => [err "dangling-workflow-ref"] | Some _ => [] end) (r_Workflows r).

Definition validate_roles (wfs : gmap string WorkflowDef) := validate_named r_Name r_SourceFile "(role)" (validate_role wfs).

(** ** Spawning *)
Fixpoint validate_targets (wfs : gmap string WorkflowDef) (roles : gmap string RoleDef) (bad : ValidationError)
    (ts seen : list SpawnTarget) : list ValidationError :=
  match ts with
  | [] => []
  | t :: rest =>
      if bool_decide (t_Role t = "") || bool_decide (t_Workflow t = "") then
        bad :: validate_targets wfs roles bad rest seen
      else if bool_decide (t ∈ seen) then bad :: validate_targets wfs roles bad rest seen
      else
        match roles !! t_Role t with
        | None => [bad]
        | Some ro =>
            match wfs !! t_Workflow t with
            | None => [bad]
            | Some _ => when (negb (contains (r_Workflows ro) (t_Workflow t))) bad
            end
        end ++ validate_targets wfs roles bad rest (t :: seen)
  end.

Definition validate_spawn (wfs : gmap string WorkflowDef) (roles : gmap string RoleDef) (l : list AgentDef)
  : list ValidationError :=
  flat_map (fun a => if bool_decide (a_Name a = "") then []
                     else validate_targets wfs roles (MkVE (a_SourceFile a) (a_Name a) "bad-spawn-target") (a_MaySpawn a) []) l.

Definition spawn_declared (l : list AgentDef) : bool :=
  List.existsb (fun a => negb (bool_decide (a_Name a = "")) && negb (bool_decide (a_MaySpawn a = []))) l.

Definition validate_cap (declared : bool) (val : Z) : list ValidationError :=
  if val <? 0 then [MkVE "gateway.yaml" "spawn" "bad-spawn-policy"]
  else when ((val =? 0) && declared) (MkVE "gateway.yaml" "spawn" "spawn-policy-required").

Definition validate_supervisor (gw : GatewayConfig) (declared : bool) : list ValidationError :=
  let sup := gw_SpawnSupervisor gw in
  let err := MkVE "gateway.yaml" "spawn_supervisor" in
  if bool_decide (sup = "") && declared then [err "spawn-supervisor-required"]
  else if negb (bool_decide (sup = "")) && (negb (has_prefix sup UnixScheme) || negb (validSecureOrUnixEndpoint sup))
  then [err "bad-spawn-supervisor"]
  else if negb (bool_decide (sup = "")) && negb (bool_decide (gw_RefboxSocketDir gw = "")) &&
          InsideDir (Paths.Dir (trim_prefix sup UnixScheme)) (gw_RefboxSocketDir gw)
  then [err "bad-spawn-supervisor"]
  else [].

(** *** The static cycle check ([spawnCycle]) *)
Fixpoint add_steps (steps : list Step) (out : list string) : list string :=
  match steps with
  | [] => out
  | s :: r => if contains out (s_Agent s) then add_steps r out else add_steps r (out ++ [s_Agent s])
  end.

(** [edges[name]] before sorting: [seen] is exactly what was appended. *)
Fixpoint add_targets (wfs : gmap string WorkflowDef) (ts : list SpawnTarget) (out : list string) : list string :=
  match ts with
  | [] => out
  | t :: r =>
      match wfs !! t_Workflow t with
      | None => add_targets wfs r out
      | Some wf => add_targets wfs r (add_steps (w_Steps wf) out)
      end
  end.

Definition spawn_edges (agents : gmap string AgentDef) (wfs : gmap string WorkflowDef) (n : string) : list string :=
  match agents !! n with
  | None => []
  | Some a => sort_strings (add_targets wfs (a_MaySpawn a) [])
  end.

Inductive colour : Type := White | Grey | Black.
#[global] Instance colour_eq_dec : EqDecision colour.
Proof. solve_decision. Defined.

Record dfs : Type := MkDfs { color : gmap string colour; stack : list string }.
Definition colour_of (st : dfs) (n : string) : colour := default White (color st !! n).

(** [stack[i:]] for the first [i] that holds [m]. *)
Fixpoint suffix_from (m : string) (l : list string) : option (list string) :=
  match l with
  | [] => None
  | s :: r => if bool_decide (s = m) then Some l else suffix_from m r
  end.

Fixpoint walk_edges (walk : string -> dfs -> option (option (list string) * dfs)) (ms : list string) (st : dfs)
  : option (option (list string) * dfs) :=
  match ms with
  | [] => Some (None, st)
  | m :: r =>
      match colour_of st m with
      | Grey => match suffix_from m (stack st) with
                | Some l => Some (Some (l ++ [m]), st)
                | None => walk_edges walk r st
                end
      | White => match walk m st with
                 | None => None
                 | Some (Some c, st') => Some (Some c, st')
                 | Some (None, st') => walk_edges walk r st'
                 end
      | Black => walk_edges walk r st
      end
  end.

(** [None] is fuel run out, which [walk_fuel] rules out. *)
Fixpoint walk (edges : string -> list string) (fuel : nat) (n : string) (st : dfs)
  : option (option (list string) * dfs) :=
  match fuel with
  | O => None
  | S f =>
      match walk_edges (walk edges f) (edges n) (MkDfs (<[n := Grey]> (color st)) (stack st ++ [n])) with
      | Some (None, st') => Some (None, MkDfs (<[n := Black]> (color st')) (drop_last (stack st')))
      | r => r
      end
  end.

Fixpoint walk_names (edges : string -> list string) (fuel : nat) (names : list string) (st : dfs)
  : option (option (list string)) :=
  match names with
  | [] => Some None
  | n :: r =>
      match colour_of st n with
      | White => match walk edges fuel n st with
                 | None => None
                 | Some (Some c, _) => Some (Some c)
                 | Some (None, st') => walk_names edges fuel r st'
                 end
      | _ => walk_names edges fuel r st
      end
  end.

(** Every node of the graph: the agents and the ends of their edges. *)
Definition spawn_nodes (agents : gmap string AgentDef) (wfs : gmap string WorkflowDef) : list string :=
  let names := map fst (map_to_list agents) in
  names ++ flat_map (spawn_edges agents wfs) names.

Definition spawnCycle (agents : gmap string AgentDef) (wfs : gmap string WorkflowDef) : option (option (list string)) :=
  walk_names (spawn_edges agents wfs) (S (length (spawn_nodes agents wfs)))
    (sort_strings (map fst (map_to_list agents))) (MkDfs ∅ []).

(** ** The whole check and the registry *)
Definition Validate (cfg : Config) : list ValidationError :=
  let gw := c_Gateway cfg in
  let '(e1, agents) := validate_agents gw (c_Agents cfg) ∅ in
  let e2 := validate_resources gw in
  let '(e3, wfs) := validate_workflows agents (c_Workflows cfg) ∅ in
  let '(e4, roles) := validate_roles wfs (c_Roles cfg) ∅ in
  let declared := spawn_declared (c_Agents cfg) in
  let policy := gw_Spawn gw in
  e1 ++ e2 ++ e3 ++ e4 ++
  validate_spawn wfs roles (c_Agents cfg) ++
  validate_cap declared (p_MaxDepth policy) ++ validate_cap declared (p_MaxParallel policy) ++
  validate_cap declared (p_MaxTotalSpawns policy) ++
  when (negb (bool_decide (gw_RefboxSocketDir gw = "")) && negb (IsAbs (gw_RefboxSocketDir gw)))
       (MkVE "gateway.yaml" "refbox_socket_dir" "bad-refbox-socket-dir") ++
  validate_supervisor gw declared ++
  when (negb (gw_StepTimeout gw =? 0) && (gw_StepTimeout gw <? second)) (MkVE "gateway.yaml" "step_timeout" "bad-step-timeout") ++
  (if p_RejectCycles policy then
     match spawnCycle agents wfs with
     | Some (Some _) => [MkVE "gateway.yaml" "spawn" "spawn-cycle"]
     | _ => []
     end
   else []).

Definition insert_all {A} (key : A -> string) (l : list A) : gmap string A :=
  fold_left (fun m a => (<[key a := a]> m)) l ∅.

Definition Build (cfg : Config) : result (list ValidationError) Registry :=
  match Validate cfg with
  | [] => Ok (MkRegistry (insert_all a_Name (c_Agents cfg)) (insert_all w_Name (c_Workflows cfg)) (insert_all r_Name (c_Roles cfg)))
  | errs => Err errs
  end.

End validate.

Definition List_ (r : Registry) : list string :=
  sort_strings (
    map (fun kv => "agent " +:+ a_Name kv.2 +:+ (if IsEnabled kv.2 then " (enabled)" else " (disabled)")) (map_to_list (reg_agents r)) ++
    map (fun kv => "workflow " +:+ w_Name kv.2 +:+ " (" +:+ itoa (Z.of_nat (length (w_Steps kv.2))) +:+ " steps)") (map_to_list (reg_workflows r)) ++
    map (fun kv => "role " +:+ r_Name kv.2 +:+ " (" +:+ itoa (Z.of_nat (length (r_Workflows kv.2))) +:+ " workflows)") (map_to_list (reg_roles r))).

(** ** Containment of paths *)

(** A joined list of components leaves its base exactly when it begins with
    the component [..]. *)
Lemma rel_escapes cs : cs <> [] -> Forall (fun e => has_byte slash e = false) cs ->
  negb (bool_decide (join "/" cs = "..")) && negb (has_prefix (join "/" cs) "../") = false <-> head cs = Some "..".
Proof.
  intros Hne HF. pose proof (split_on_join cs Hne HF) as Hs. rewrite andb_false_iff, !negb_false_iff.
  rewrite bool_decide_eq_true, has_prefix_spec. split.
  - intros [E|[r E]]; rewrite E in Hs.
    + by rewrite <- Hs.
    + change ("../" +:+ r) with (".." +:+ String slash r) in Hs. rewrite split_on_app in Hs by done. by rewrite <- Hs.
  - destruct cs as [|e [|e' cs]]; [done|..]; intros [= ->]; [by left|right].
    by exists (join "/" (e' :: cs)).
Qed.

(** [InsideDir] decides containment by components: for two absolute
    paths it holds exactly when the cleaned components of the parent are a
    prefix of those of the directory (so a sibling that shares a name prefix
    is outside, and [..] segments cannot smuggle a path in or out); a pair of
    which one is absolute and the other is not is reported as inside. *)
Theorem inside_dir_iff (dir parent : string) :
  (IsAbs dir = true -> IsAbs parent = true ->
   (InsideDir dir parent = true <-> comps (parse_path parent) `prefix_of` comps (parse_path dir))) /\
  (IsAbs dir <> IsAbs parent -> InsideDir dir parent = true).
Proof.
  unfold InsideDir. split.
  - intros Hd Hp. destruct (decide (parse_path parent = parse_path dir)) as [E|E].
    { rewrite E. unfold Rel. rewrite !parse_Clean, bool_decide_true by done. done. }
    destruct (Rel_abs (Paths.Clean parent) (Paths.Clean dir)) as (br & tr & -> & Pb & Pt & Hne & Hpre);
      [by rewrite IsAbs_Clean..|by rewrite !parse_Clean|]. rewrite !parse_Clean in Hpre. rewrite Hpre.
    assert (HF : Forall (fun e => has_byte slash e = false) (map (fun _ => "..") br ++ tr)).
    { apply Forall_app. split; [by apply Forall_map, Forall_true|].
      eapply Forall_impl; [exact Pt|]. by intros ? (_ & _ & _ & ?). }
    rewrite <- not_false_iff_true, rel_escapes by (done || destruct br; naive_solver). split.
    + intros Hh. by destruct br.
    + intros ->. specialize (Hne eq_refl). destruct tr as [|y tr]; [done|]. 
      inversion Pt as [|? ? (_ & _ & ? & _) _]; subst. cbn. congruence.
  - intros Hne. unfold Rel. rewrite !parse_Clean, bool_decide_false.
    2:{ intros E. apply Hne. by apply (f_equal rooted) in E. }
    cbn [rooted parse_path]. destruct (IsAbs parent), (IsAbs dir); done.
Qed.

(** ** The static cycle check *)
Lemma filter_length_le {A} (P Q : A -> Prop) `{!forall x, Decision (P x), !forall x, Decision (Q x)} (l : list A) :
  (forall x, Q x -> P x) -> (length (filter Q l) <= length (filter P l))%nat.
Proof.
  intros Himp. induction l as [|x l IH]; [done|]. rewrite !filter_cons.
  destruct (decide (Q x)), (decide (P x)); cbn; try lia. naive_solver.
Qed.

Lemma filter_length_lt {A} (P Q : A -> Prop) `{!forall x, Decision (P x), !forall x, Decision (Q x)} (l : list A) y :
  (forall x, Q x -> P x) -> y ∈ l -> P y -> ~ Q y -> (length (filter Q l) < length (filter P l))%nat.
Proof.
  intros Himp Hy HP HQ. induction l as [|x l IH]; [by apply not_elem_of_nil in Hy|]. rewrite !filter_cons.
  apply elem_of_cons in Hy as [->|Hy].
  - destruct (decide (Q x)), (decide (P x)); try done. cbn. pose proof (filter_length_le P Q l Himp). lia.
  - specialize (IH Hy). destruct (decide (Q x)), (decide (P x)); cbn; try lia. naive_solver.
Qed.

Section cycle.
  Context (edges : string -> list string) (U : list string).
  Context (HU : forall n m, n ∈ U -> m ∈ edges n -> m ∈ U).

Definition edge (n m : string) : Prop := m ∈ edges n.

Fixpoint linked (l : list string) : Prop :=
  match l with
  | x :: r => match r with y :: _ => edge x y /\ linked r | [] => True end
  | [] => True
  end.

(** A directed cycle, reported as a path with its first node repeated. *)
Definition is_cycle (c : list string) : Prop :=
  exists x l, c = x :: l ++ [x] /\ linked c.

Lemma linked_snoc l y : linked l -> (forall x, last l = Some x -> edge x y) -> linked (l ++ [y]).
Proof.
  induction l as [|x l IH]; [done|]. destruct l as [|z l]; cbn.
  - intros _ Hxy. split; [by apply Hxy|done].
  - intros [He Hl] Hxy. split; [done|]. by apply IH.
Qed.

Lemma linked_suffix l1 l2 : linked (l1 ++ l2) -> linked l2.
Proof. induction l1 as [|x l1 IH]; [done|]. cbn. destruct (l1 ++ l2) eqn:E; [|intros [_ ?]; by apply IH].
  intros _. by destruct l1, l2. Qed.

Lemma suffix_from_spec m l s : suffix_from m l = Some s -> exists p r, l = p ++ s /\ s = m :: r.
Proof.
  induction l as [|x l IH]; [done|]. cbn. case_bool_decide as E; intros H.
  - simplify_eq. by exists [], l.
  - destruct (IH H) as (p & r & -> & ->). by exists (x :: p), r.
Qed.

Lemma suffix_from_Some m l : m ∈ l -> is_Some (suffix_from m l).
Proof.
  induction l as [|x l IH]; [by intros ?%not_elem_of_nil|]. rewrite elem_of_cons. cbn.
  case_bool_decide; [by eexists|]. intros [->|?]; [done|auto].
Qed.

Definition whites (st : dfs) : nat := length (filter (fun x => colour_of st x = White) U).

(** The search's invariant: the grey nodes are the stack, which is a path;
    black nodes lead to black nodes only, and lie on no cycle. *)
Record inv (st : dfs) : Prop := {
  inv_grey : forall n, colour_of st n = Grey <-> n ∈ stack st;
  inv_path : linked (stack st);
  inv_black : forall n m, colour_of st n = Black -> edge n m -> colour_of st m = Black;
  inv_acyclic : forall n, colour_of st n = Black -> ~ tc edge n n;
}.

(** How a finished exploration changes the colours: only white to black. *)
Definition grows (st st' : dfs) : Prop :=
  stack st' = stack st /\
  forall n, colour_of st' n = colour_of st n \/ (colour_of st n = White /\ colour_of st' n = Black).

Lemma grows_black st st' n : grows st st' -> colour_of st n = Black -> colour_of st' n = Black.
Proof. intros [_ H] Hn. destruct (H n) as [->|[? ?]]; congruence. Qed.

Lemma grows_whites st st' : grows st st' -> (whites st' <= whites st)%nat.
Proof. intros [_ H]. apply filter_length_le. intros x Hx. destruct (H x) as [<-|[? ?]]; congruence. Qed.

Lemma grows_trans a b c : grows a b -> grows b c -> grows a c.
Proof.
  intros [E1 H1] [E2 H2]. split; [congruence|]. intros n.
  destruct (H1 n) as [<-|[? Hb]], (H2 n) as [Ec|[? ?]]; auto; right; split; congruence.
Qed.

Definition outcome (st : dfs) (r : option (option (list string) * dfs)) (done_ : dfs -> Prop) : Prop :=
  match r with
  | None => False
  | Some (Some c, _) => is_cycle c
  | Some (None, st') => inv st' /\ grows st st' /\ done_ st'
  end.

Definition walk_ok (w : string -> dfs -> option (option (list string) * dfs)) (k : nat) : Prop :=
  forall n st, inv st -> n ∈ U -> colour_of st n = White -> (whites st <= k)%nat ->
    (forall x, last (stack st) = Some x -> edge x n) ->
    outcome st (w n st) (fun st' => colour_of st' n = Black).

Lemma walk_edges_ok w k n ms st :
  walk_ok w k -> inv st -> last (stack st) = Some n -> (whites st <= k)%nat ->
  Forall (fun m => edge n m /\ m ∈ U) ms ->
  outcome st (walk_edges w ms st) (fun st' => Forall (fun m => colour_of st' m = Black) ms).
Proof.
  intros Hw Hi Hl Hk HF. revert st Hi Hl Hk.
  induction HF as [|m ms [He HmU] HF IH]; intros st Hi Hl Hk; cbn [walk_edges].
  { split; [done|]. split; [|constructor]. split; [done|]. by left. }
  destruct (colour_of st m) eqn:Ec.
  - specialize (Hw m st Hi HmU Ec Hk). rewrite Hl in Hw. specialize (Hw ltac:(by intros ? [= <-])).
    destruct (w m st) as [[[c|] st']|]; [done| |done]. destruct Hw as (Hi' & Hg & Hm).
    assert (Hl' : last (stack st') = Some n) by (by destruct Hg as [-> _]).
    pose proof (grows_whites _ _ Hg). specialize (IH st' Hi' Hl' ltac:(lia)).
    destruct (walk_edges w ms st') as [[[c|] st'']|]; [done| |done]. destruct IH as (? & Hg' & Hb).
    split_and!; [done|by eapply grows_trans|]. constructor; [by eapply grows_black|done].
  - destruct (suffix_from m (stack st)) as [s|] eqn:Es.
    + destruct (suffix_from_spec _ _ _ Es) as (p & r & Hst & ->). cbn.
      exists m, r. split; [done|]. rewrite app_comm_cons.
      pose proof (inv_path _ Hi) as Hp. rewrite Hst in Hp, Hl. apply linked_suffix in Hp.
      apply linked_snoc; [done|]. intros x Hx. rewrite last_app_cons in Hl. replace x with n by congruence. done.
    + destruct (suffix_from_Some m (stack st)) as [? ?]; [by apply (inv_grey _ Hi)|congruence].
  - specialize (IH st Hi Hl Hk). destruct (walk_edges w ms st) as [[[c|] st'']|]; [done| |done].
    destruct IH as (? & Hg' & Hb). split_and!; [done..|]. constructor; [by eapply grows_black|done].
Qed.

Lemma colour_insert st n c s m :
  colour_of (MkDfs (<[n := c]> (color st)) s) m = if decide (m = n) then c else colour_of st m.
Proof.
  unfold colour_of. cbn. destruct (decide (m = n)) as [->|].
  - by rewrite lookup_insert_eq.
  - by rewrite lookup_insert_ne.
Qed.

Lemma drop_last_snoc {A} (l : list A) x : drop_last (l ++ [x]) = l.
Proof.
  induction l as [|y l IH]; [done|]. cbn. rewrite IH. by destruct l.
Qed.

Definition enter (n : string) (st : dfs) : dfs := MkDfs (<[n := Grey]> (color st)) (stack st ++ [n]).
Definition leave (n : string) (st : dfs) : dfs := MkDfs (<[n := Black]> (color st)) (drop_last (stack st)).

Lemma enter_inv n st : inv st -> colour_of st n = White -> (forall x, last (stack st) = Some x -> edge x n) ->
  inv (enter n st).
Proof.
  intros [Hg Hp Hb Ha] Hn Hl. split.
  - intros m. unfold enter. rewrite colour_insert. cbn [stack]. rewrite elem_of_app, list_elem_of_singleton, <- Hg.
    destruct (decide (m = n)) as [->|]; naive_solver.
  - by apply linked_snoc.
  - intros x y. unfold enter. rewrite !colour_insert. intros Hx He.
    destruct (decide (x = n)) as [->|]; [done|]. pose proof (Hb x y Hx He).
    destruct (decide (y = n)) as [->|]; [congruence|done].
  - intros x. unfold enter. rewrite colour_insert. destruct (decide (x = n)); [done|]. apply Ha.
Qed.

Lemma black_closed st n m : inv st -> colour_of st n = Black -> rtc edge n m -> colour_of st m = Black.
Proof. intros Hi Hn. induction 1; [done|]. eauto using inv_black. Qed.

(** A node left after all its successors are black is itself on no cycle. *)
Lemma leave_inv n s st : inv st -> stack st = s ++ [n] -> n ∉ s ->
  (forall m, edge n m -> colour_of st m = Black) -> inv (leave n st).
Proof.
  intros Hi Hs Hns Hout.
  assert (Hgn : colour_of st n = Grey) by (apply (inv_grey _ Hi); rewrite Hs, elem_of_app, list_elem_of_singleton; by right).
  split.
  - intros m. unfold leave. rewrite colour_insert. cbn [stack]. rewrite Hs, drop_last_snoc.
    destruct (decide (m = n)) as [->|Hne]; [by split|]. rewrite (inv_grey _ Hi), Hs, elem_of_app, list_elem_of_singleton.
    naive_solver.
  - cbn. rewrite Hs, drop_last_snoc. pose proof (inv_path _ Hi) as Hp. rewrite Hs in Hp.
    clear -Hp. induction s as [|x s IH]; [done|]. cbn in *. destruct s; [done|]. naive_solver.
  - intros x y. unfold leave. rewrite !colour_insert. intros Hx He.
    destruct (decide (y = n)); [done|]. destruct (decide (x = n)) as [->|]; [by apply Hout|].
    by apply (inv_black _ Hi x).
  - intros x. unfold leave. rewrite colour_insert. destruct (decide (x = n)) as [->|].
    + intros _ Hc. inversion Hc as [? ? He|? m ? He Hr]; subst.
      * rewrite (Hout _ He) in Hgn. done.
      * apply tc_rtc in Hr. rewrite (black_closed st m n Hi (Hout _ He) Hr) in Hgn. done.
    + apply (inv_acyclic _ Hi).
Qed.

Lemma walk_all_ok fuel : walk_ok (walk edges fuel) fuel -> walk_ok (walk edges (S fuel)) (S fuel).
Proof.
  intros IH n st Hi HnU Hn Hk Hl. cbn [walk]. fold (enter n st).
  assert (Hi' := enter_inv n st Hi Hn Hl).
  assert (Hw : (whites (enter n st) < whites st)%nat).
  { apply (filter_length_lt _ _ _ n); [|done|done|].
    - intros x. unfold enter. rewrite colour_insert. by destruct (decide (x = n)).
    - unfold enter. rewrite colour_insert. by rewrite decide_True. }
  assert (Hns : n ∉ stack st) by (rewrite <- (inv_grey _ Hi); congruence).
  pose proof (walk_edges_ok (walk edges fuel) fuel n (edges n) (enter n st) IH Hi') as He.
  destruct (walk_edges (walk edges fuel) (edges n) (enter n st)) as [[[c|] st']|].
  - apply He; [apply last_snoc|lia|]. apply Forall_forall. intros m Hm. split; [done|]. by apply (HU n).
  - destruct He as (Hi'' & [Hs Hg] & Hb); [apply last_snoc|lia| |].
    { apply Forall_forall. intros m Hm. split; [done|]. by apply (HU n). }
    fold (leave n st'). split_and!.
    + eapply leave_inv; [done|exact Hs|done|]. intros m Hm. by apply (proj1 (Forall_forall _ _) Hb).
    + split; [cbn; by rewrite Hs; cbn; rewrite drop_last_snoc|].
      intros m. specialize (Hg m). unfold leave. rewrite colour_insert. unfold enter in Hg.
      rewrite colour_insert in Hg. destruct (decide (m = n)) as [->|]; [by right|done].
    + unfold leave. rewrite colour_insert. by rewrite decide_True.
  - apply He; [apply last_snoc|lia|]. apply Forall_forall. intros m Hm. split; [done|]. by apply (HU n).
Qed.

Lemma walk_fuel fuel : walk_ok (walk edges fuel) fuel.
Proof.
  induction fuel as [|fuel IH]; [|by apply walk_all_ok].
  intros n st _ HnU Hn Hk _. exfalso.
  assert (Hin : n ∈ filter (fun x => colour_of st x = White) U) by (by apply list_elem_of_filter).
  unfold whites in Hk. destruct (filter _ U); [by apply not_elem_of_nil in Hin|cbn in Hk; lia].
Qed.

Lemma walk_names_ok fuel names st :
  inv st -> stack st = [] -> (whites st <= fuel)%nat -> Forall (fun n => n ∈ U) names ->
  match walk_names edges fuel names st with
  | None => False
  | Some (Some c) => is_cycle c
  | Some None => forall n, n ∈ names -> ~ tc edge n n
  end.
Proof.
  intros Hi Hs Hk HF.
  cut (match walk_names edges fuel names st with
       | None => False
       | Some (Some c) => is_cycle c
       | Some None => exists st', inv st' /\ grows st st' /\ Forall (fun n => colour_of st' n = Black) names
       end).
  { destruct (walk_names edges fuel names st) as [[c|]|]; [done| |done].
    intros (st' & Hi' & _ & Hb) n Hn. apply (inv_acyclic _ Hi'). by apply (proj1 (Forall_forall _ _) Hb). }
  revert st Hi Hs Hk; induction HF as [|n names Hn HF IH]; intros st Hi Hs Hk; cbn [walk_names].
  { exists st. split_and!; [done| |constructor]. split; [done|by left]. }
  destruct (colour_of st n) eqn:Ec.
  - pose proof (walk_fuel fuel n st Hi Hn Ec Hk) as Hw. rewrite Hs in Hw. specialize (Hw ltac:(done)).
    destruct (walk edges fuel n st) as [[[c|] st']|]; [done| |done]. destruct Hw as (Hi' & Hg & Hb).
    pose proof (grows_whites _ _ Hg). specialize (IH st' Hi').
    rewrite (proj1 Hg) in IH. specialize (IH Hs ltac:(lia)).
    destruct (walk_names edges fuel names st') as [[c|]|]; [done| |done].
    destruct IH as (st'' & ? & Hg' & ?). exists st''. split_and!; [done|by eapply grows_trans|].
    constructor; [by eapply grows_black|done].
  - apply (inv_grey _ Hi) in Ec. rewrite Hs in Ec. by apply not_elem_of_nil in Ec.
  - specialize (IH st Hi Hs Hk). destruct (walk_names edges fuel names st) as [[c|]|]; [done| |done].
    destruct IH as (st'' & ? & Hg' & ?). exists st''. split_and!; [done..|].
    constructor; [by eapply grows_black|done].
Qed.

End cycle.

(** An edge of the spawn graph: [n]'s [may_spawn] names a workflow with a step
    run by [m]. *)
Definition spawns (agents : gmap string AgentDef) (wfs : gmap string WorkflowDef) (n m : string) : Prop :=
  exists a t wf s, agents !! n = Some a /\ t ∈ a_MaySpawn a /\ wfs !! t_Workflow t = Some wf /\
    s ∈ w_Steps wf /\ s_Agent s = m.

Lemma add_steps_spec steps out m :
  m ∈ add_steps steps out <-> m ∈ out \/ exists s, s ∈ steps /\ s_Agent s = m.
Proof.
  revert out; induction steps as [|s r IH]; intros out; cbn [add_steps].
  { setoid_rewrite elem_of_nil. naive_solver. }
  setoid_rewrite elem_of_cons. destruct (contains out (s_Agent s)) eqn:E; rewrite IH.
  - apply contains_true in E. naive_solver.
  - rewrite elem_of_app, list_elem_of_singleton. naive_solver.
Qed.

Lemma add_targets_spec wfs ts out m :
  m ∈ add_targets wfs ts out <->
  m ∈ out \/ exists t wf s, t ∈ ts /\ wfs !! t_Workflow t = Some wf /\ s ∈ w_Steps wf /\ s_Agent s = m.
Proof.
  revert out; induction ts as [|t ts IH]; intros out; cbn [add_targets].
  { setoid_rewrite elem_of_nil. naive_solver. }
  setoid_rewrite elem_of_cons. destruct (wfs !! t_Workflow t) as [wf|] eqn:E; rewrite IH.
  - rewrite add_steps_spec. split; [naive_solver|].
    intros [?|(t' & wf' & s & [->|?] & Hl & ?)]; [tauto| |naive_solver]. simplify_eq. naive_solver.
  - split; [naive_solver|]. intros [?|(t' & wf' & s & [->|?] & ?)]; naive_solver.
Qed.

Lemma spawn_edges_spec agents wfs n m : m ∈ spawn_edges agents wfs n <-> spawns agents wfs n m.
Proof.
  unfold spawn_edges, spawns. destruct (agents !! n) as [a|]; [|rewrite elem_of_nil; naive_solver].
  rewrite elem_of_sort, add_targets_spec, elem_of_nil. naive_solver.
Qed.

Lemma spawn_nodes_closed agents wfs n m :
  n ∈ spawn_nodes agents wfs -> m ∈ spawn_edges agents wfs n -> m ∈ spawn_nodes agents wfs.
Proof.
  intros _ Hm. unfold spawn_nodes. rewrite elem_of_app. right.
  apply list_elem_of_In, in_flat_map. exists n. rewrite <- !list_elem_of_In. split; [|done].
  apply spawn_edges_spec in Hm as (a & _ & _ & _ & Ha & _). apply list_elem_of_fmap.
  exists (n, a). split; [done|]. by apply elem_of_map_to_list.
Qed.

Lemma inv_start edges : inv edges (MkDfs ∅ []).
Proof.
  split; [|done|..]; unfold colour_of; cbn [color stack].
  - intros n. rewrite lookup_empty, elem_of_nil. done.
  - intros n m. by rewrite lookup_empty.
  - intros n. by rewrite lookup_empty.
Qed.

Lemma linked_mono E1 E2 l : (forall n m, m ∈ E1 n -> E2 n m) -> linked E1 l ->
  forall i x y, l !! i = Some x -> l !! S i = Some y -> E2 x y.
Proof.
  intros HE. induction l as [|a l IH]; [done|]. intros Hl [|i] x y Hx Hy; cbn in *.
  - destruct l as [|b l]; [done|]. simplify_eq/=. apply HE, Hl.
  - destruct l as [|b l]; [done|]. eapply IH; [apply Hl|done..].
Qed.

Lemma spawn_cycle_correct_aux (agents : gmap string AgentDef) (wfs : gmap string WorkflowDef) :
  match spawnCycle agents wfs with
  | None => False
  | Some (Some c) =>
      (exists x l, c = x :: l ++ [x]) /\
      forall i x y, c !! i = Some x -> c !! S i = Some y -> spawns agents wfs x y
  | Some None => forall n, ~ tc (spawns agents wfs) n n
  end.
Proof.
  unfold spawnCycle. set (E := spawn_edges agents wfs).
  set (names := sort_strings (map fst (map_to_list agents))).
  assert (Hk : (whites (spawn_nodes agents wfs) (MkDfs ∅ []) <= S (length (spawn_nodes agents wfs)))%nat).
  { unfold whites. etrans; [apply length_filter|lia]. }
  assert (HF : Forall (fun n => n ∈ spawn_nodes agents wfs) names).
  { apply Forall_forall. intros n Hn. apply elem_of_app. left. unfold names in Hn. rewrite elem_of_sort in Hn. exact Hn. }
  pose proof (walk_names_ok E _ (spawn_nodes_closed agents wfs) _ names (MkDfs ∅ []) (inv_start E) eq_refl Hk HF) as H.
  destruct (walk_names E _ names _) as [[c|]|]; [| |done].
  - destruct H as (x & l & -> & Hl). split; [eauto|]. apply (linked_mono E); [|done].
    intros. by apply spawn_edges_spec.
  - intros n Hn. assert (Hn' : tc (edge E) n n).
    { eapply (tc_congruence id); [|done]. intros. by apply spawn_edges_spec. }
    revert Hn'. apply H. apply elem_of_sort, list_elem_of_fmap.
    assert (exists m, spawns agents wfs n m) as [m (a & _ & _ & _ & Ha & _)] by (inversion Hn; eauto).
    exists (n, a). split; [done|]. by apply elem_of_map_to_list.
Qed.

(** C32: the static cycle check is sound, complete and total: the depth-first
    search always ends (its fuel is never exhausted); a cycle it reports is a
    real one (a path of spawn edges that returns to its first agent); and when
    it reports none, no agent can reach itself through spawn edges. *)
Theorem spawn_cycle_correct (agents : gmap string AgentDef) (wfs : gmap string WorkflowDef) :
  match spawnCycle agents wfs with
  | None => False
  | Some (Some c) =>
      (exists x l, c = x :: l ++ [x]) /\
      forall i x y, c !! i = Some x -> c !! S i = Some y -> spawns agents wfs x y
  | Some None => forall n, ~ tc (spawns agents wfs) n n
  end.
Proof. apply spawn_cycle_correct_aux. Qed.

(** ** What a built registry guarantees *)
Lemma when_nil b e : when b e = [] <-> b = false.
Proof. by destruct b. Qed.

Lemma flat_map_nil {A B} (f : A -> list B) l : flat_map f l = [] <-> Forall (fun x => f x = []) l.
Proof.
  induction l as [|x l IH]; cbn; [split; [constructor|done]|].
  rewrite app_nil. split; [intros [? ?%IH]; by constructor|]. inversion 1; subst. split; [done|by apply IH].
Qed.

Lemma validate_named_nil {A} (key file : A -> string) kind check l m m' :
  validate_named key file kind check l m = ([], m') ->
  Forall (fun a => key a <> "" /\ check a = []) l /\ NoDup (map key l) /\
  (forall a, a ∈ l -> m !! key a = None) /\ m' = fold_left (fun m a => (<[key a := a]> m)) l m.
Proof.
  revert m; induction l as [|a l IH]; intros m H; cbn [validate_named] in H.
  { simplify_eq. split_and!; [constructor|constructor|by intros ? ?%not_elem_of_nil|done]. }
  destruct (bool_decide (key a = "")) eqn:E1; [by destruct (validate_named key file kind check l m)|].
  destruct (m !! key a) eqn:E2; [by destruct (validate_named key file kind check l m)|].
  destruct (validate_named key file kind check l (<[key a:=a]> m)) as [errs m1] eqn:E3.
  injection H as H1 ->. apply app_nil in H1 as [Hc ->]. apply IH in E3 as (HF & HN & Hfresh & ->).
  bool_prop. split_and!; [by constructor| | |done].
  - cbn. constructor; [|done]. intros (b & Hb & Hin)%list_elem_of_fmap.
    specialize (Hfresh b Hin). rewrite <- Hb, lookup_insert_eq in Hfresh. done.
  - intros b [->|Hb]%elem_of_cons; [done|]. specialize (Hfresh b Hb).
    by apply lookup_insert_None in Hfresh as [? _].
Qed.

Lemma fold_insert_lookup {A} (key : A -> string) l (m : gmap string A) k a :
  NoDup (map key l) ->
  (fold_left (fun m a => (<[key a := a]> m)) l m) !! k = Some a <->
  (a ∈ l /\ key a = k) \/ ((k ∉ map key l) /\ m !! k = Some a).
Proof.
  revert m; induction l as [|x l IH]; intros m HN; cbn [fold_left].
  { cbn. split; [right; split; [apply not_elem_of_nil|done]|]. by intros [[?%not_elem_of_nil _]|[_ ?]]. }
  cbn in HN. apply NoDup_cons in HN as [Hx HN]. rewrite IH by done. cbn [map]. rewrite !not_elem_of_cons, elem_of_cons.
  split.
  - intros [[? ?]|[Hk Hm]]; [by left; split; [right|]|].
    apply lookup_insert_Some in Hm as [[<- <-]|[? ?]]; [by left; split; [left|]|]. right. by split_and!.
  - intros [[[->|?] <-]|[[? ?] ?]].
    + right. split; [done|]. by rewrite lookup_insert_eq.
    + by left.
    + right. split; [done|]. by rewrite lookup_insert_ne.
Qed.

Lemma insert_all_lookup {A} (key : A -> string) l k a :
  NoDup (map key l) -> insert_all key l !! k = Some a <-> a ∈ l /\ key a = k.
Proof. intros HN. unfold insert_all. rewrite fold_insert_lookup by done. rewrite lookup_empty. naive_solver. Qed.

Section built.
  Context (url_Parse : string -> option (string * string)).

(** A grant that may stand in a registry. *)
Definition grant_ok (tools : gmap string ToolResource) (g : ToolGrant) : Prop :=
  well_formed_grant g /\ ("" ∉ g_Tools g) /\
  exists r, tools !! g_Resource g = Some r /\
    (g_Mode g = "read-only" -> tr_ReadOnlyTools r <> [] /\ (g_Tools g = ["*"] \/ g_Tools g ⊆ tr_ReadOnlyTools r)).

(** The exec door of an agent: an allowlist of named executables, served by
    refexec over a local socket no agent compartment can see. *)
Definition exec_ok (gw : GatewayConfig) (x : ExecConfig) : Prop :=
  Declared x = true ->
  x_Runtime x = "refexec" /\ second <= x_Timeout x /\ x_Allow x <> [] /\
  Forall (fun e => e_Exe e <> "") (x_Allow x) /\
  exists path, x_URL x = UnixScheme +:+ path /\ IsAbs path = true /\
    (gw_RefboxSocketDir gw <> "" -> InsideDir (Paths.Dir path) (gw_RefboxSocketDir gw) = false).

Definition agent_ok (gw : GatewayConfig) (a : AgentDef) : Prop :=
  a_Name a <> "" /\ EffectiveExecution a = "fronted" /\ validSecureOrUnixEndpoint url_Parse (a_Endpoint a) = true /\
  Forall (grant_ok (gw_Tools gw)) (a_Tools a) /\ exec_ok gw (a_Exec a).

Definition step_ok (reg : Registry) (w : WorkflowDef) (i : nat) (s : Step) : Prop :=
  (exists a, Agent reg (s_Agent s) = Some a /\ IsEnabled a = true) /\
  0 <= s_MaxBounces s <= 10 /\
  (s_OnFailure s <> "" -> exists j s', (j < i)%nat /\ w_Steps w !! j = Some s' /\ s_Name s' = s_OnFailure s).

Definition workflow_ok (reg : Registry) (w : WorkflowDef) : Prop :=
  w_Steps w <> [] /\ forall i s, w_Steps w !! i = Some s -> step_ok reg w i s.

Definition role_ok (reg : Registry) (r : RoleDef) : Prop :=
  r_AllowedGroups r <> [] /\
  (forall wf, wf ∈ r_Workflows r -> is_Some (Workflow reg wf)) /\
  (forall op, op ∈ control_list r -> op ∈ ControlOps) /\
  (control_list r <> [] -> "*" ∉ r_AllowedGroups r).

Definition spawn_ok (gw : GatewayConfig) (reg : Registry) (a : AgentDef) : Prop :=
  NoDup (a_MaySpawn a) /\
  forall t, t ∈ a_MaySpawn a ->
    RoleOwnsWorkflow reg (t_Role t) (t_Workflow t) = true /\ is_Some (Workflow reg (t_Workflow t)) /\
    1 <= p_MaxDepth (gw_Spawn gw) /\ 1 <= p_MaxParallel (gw_Spawn gw) /\ 1 <= p_MaxTotalSpawns (gw_Spawn gw) /\
    gw_SpawnSupervisor gw <> "".

Lemma all_tools_iff g : AllTools g = true <-> g_Tools g = ["*"].
Proof. apply bool_decide_eq_true. Qed.

Lemma grant_nil tools bad unk g all lim all' lim' :
  validate_grant tools bad unk g all lim = ([], (all', lim')) -> grant_ok tools g.
Proof.
  unfold validate_grant. intros H.
  destruct (bool_decide (g_Resource g = "")) eqn:E1; [done|].
  destruct (bool_decide (g_Tools g = []) && bool_decide (g_Mode g = "")) eqn:E2; [done|].
  destruct (bool_decide (g_Mode g = "all")) eqn:E3; [done|].
  destruct (contains [""; "read-only"; "read-write"] (g_Mode g)) eqn:E4; cbn [negb] in H; [|done].
  destruct (bool_decide (g_Tools g = [])) eqn:E5; [done|].
  destruct (contains (g_Tools g) "*" && negb (Nat.eqb (length (g_Tools g)) 1)) eqn:E6; [done|].
  destruct (bool_decide (g_Mode g = "")) eqn:E7; [done|]. bool_prop.
  injection H as He _. apply app_nil in He as [H1 He]. apply app_nil in He as [H2 He]. apply app_nil in He as [H3 _].
  destruct (tools !! g_Resource g) as [r|] eqn:Er; [|done].
  pose proof (shape_ok g E1 E3 E4 E5 E6 E7) as Hw.
  assert (Hne : "" ∉ g_Tools g).
  { destruct (AllTools g) eqn:Ea; [apply all_tools_iff in Ea; rewrite Ea; by intros ?%list_elem_of_singleton|].
    intros Hin. rewrite flat_map_nil in H2. apply (proj1 (Forall_forall _ _) H2) in Hin.
    by rewrite bool_decide_true in Hin. }
  split_and!; [done..|]. exists r. split; [done|]. intros Hro. unfold ReadOnly in H3. rewrite bool_decide_true in H3 by done.
  destruct (bool_decide (tr_ReadOnlyTools r = [])) eqn:E8; [done|]. bool_prop. split; [done|].
  destruct (AllTools g) eqn:Ea; [left; by apply all_tools_iff|right]. rewrite flat_map_nil in H3.
  intros x Hx. pose proof (proj1 (Forall_forall _ _) H3 x Hx) as Hk. cbn in Hk. apply when_nil in Hk.
  rewrite bool_decide_false in Hk by (by intros ->). cbn in Hk. apply negb_false_iff in Hk. by apply contains_true in Hk.
Qed.

Lemma grants_nil tools bad unk gs all lim :
  validate_grants tools bad unk gs all lim = [] -> Forall (grant_ok tools) gs.
Proof.
  revert all lim; induction gs as [|g gs IH]; intros all lim H; [constructor|]. cbn in H.
  destruct (validate_grant tools bad unk g all lim) as [errs [all' lim']] eqn:E.
  apply app_nil in H as [-> H]. constructor; [by eapply grant_nil|by eapply IH].
Qed.

Lemma unix_endpoint path : validSecureOrUnixEndpoint url_Parse (UnixScheme +:+ path) = IsAbs path.
Proof. unfold validSecureOrUnixEndpoint. by rewrite cut_prefix_app. Qed.

Lemma exec_nil gw a : validate_exec url_Parse gw a = [] -> exec_ok gw (a_Exec a).
Proof.
  unfold validate_exec, exec_ok. intros H Hd. rewrite Hd in H. cbn [negb] in H.
  repeat (apply app_nil in H as [? H]). rewrite flat_map_nil in H.
  repeat match goal with E : when _ _ = [] |- _ => apply when_nil in E end. bool_prop.
  assert (Hp : has_prefix (x_URL (a_Exec a)) UnixScheme = true) by done.
  apply has_prefix_spec in Hp as [path Hp]. rewrite Hp in *. rewrite unix_endpoint in *.
  split_and!; [done|lia|done| |].
  - eapply Forall_impl; [exact H|]. intros e He. apply when_nil in He. by bool_prop.
  - exists path. split_and!; [done..|]. intros Hdir.
    match goal with E : _ && _ && _ = false |- _ => revert E end. rewrite bool_decide_false by done.
    unfold trim_prefix. rewrite (proj2 (has_prefix_spec _ _)) by eauto. rewrite cut_prefix_app. done.
Qed.

Lemma agent_nil gw a : a_Name a <> "" -> validate_agent url_Parse gw a = [] -> agent_ok gw a.
Proof.
  intros Hn H. unfold validate_agent in H.
  apply app_nil in H as [H1 H]. apply app_nil in H as [H2 H]. apply app_nil in H as [H3 H4].
  split_and!; [done| | |by eapply grants_nil|by apply exec_nil].
  - destruct (bool_decide (a_Execution a = "contained")) eqn:E; [done|]. apply when_nil in H1.
    unfold EffectiveExecution. destruct (bool_decide (a_Execution a = "")); [done|]. cbn in H1. by bool_prop.
  - destruct (bool_decide (a_Endpoint a = "")); [done|]. apply when_nil in H2. by bool_prop.
Qed.

Lemma build_index_lookup steps i m name j :
  build_index steps i m !! name = Some j ->
  (exists k s, steps !! k = Some s /\ s_Name s = name /\ j = i + Z.of_nat k) \/ m !! name = Some j.
Proof.
  revert i m; induction steps as [|s r IH]; intros i m H; [by right|]. cbn in H.
  apply IH in H as [(k & s' & Hk & Hn & ->)|H].
  - left. exists (S k), s'. split_and!; [done..|lia].
  - apply lookup_insert_Some in H as [[<- <-]|[_ H]]; [|by right].
    left. exists O, s. split_and!; [done..|lia].
Qed.

Lemma steps_nil agents w index n i steps :
  validate_steps agents w index n i steps = [] ->
  forall k s, steps !! k = Some s -> validate_step agents w index n (i + Z.of_nat k) s = [].
Proof.
  revert i; induction steps as [|s r IH]; intros i H [|k] s' Hk; cbn in *; [done..| |].
  - simplify_eq. apply app_nil in H as [H _]. by rewrite Z.add_0_r.
  - apply app_nil in H as [_ H]. pose proof (IH _ H k s' Hk) as Hs. by replace (i + Z.of_nat (S k)) with (i + 1 + Z.of_nat k) by lia.
Qed.

Lemma workflow_nil agents wfs roles w :
  validate_workflow agents w = [] -> workflow_ok (MkRegistry agents wfs roles) w.
Proof.
  unfold validate_workflow. destruct (bool_decide (w_Steps w = [])) eqn:E; [done|]. bool_prop. intros H. split; [done|].
  intros i s Hi. pose proof (steps_nil _ _ _ _ _ _ H i s Hi) as Hs. unfold validate_step in Hs. rewrite Z.add_0_l in Hs.
  apply app_nil in Hs as [H1 Hs]. apply app_nil in Hs as [H2 Hs]. apply app_nil in Hs as [_ H4].
  apply when_nil in H2. bool_prop. split_and!; [|lia|lia|].
  - unfold Agent. cbn. destruct (agents !! s_Agent s) as [a|]; [|done]. exists a. split; [done|].
    apply when_nil in H1. by bool_prop.
  - intros Hf. rewrite bool_decide_false in H4 by done. apply when_nil in H4.
    destruct (build_index (w_Steps w) 0 ∅ !! s_OnFailure s) as [j|] eqn:Ej; [|done].
    apply build_index_lookup in Ej as [(k & s' & Hk & Hn & ->)|Ej]; [|by rewrite lookup_empty in Ej].
    bool_prop. exists k, s'. split_and!; [lia|done..].
Qed.

Lemma role_nil agents wfs roles r : validate_role wfs r = [] -> role_ok (MkRegistry agents wfs roles) r.
Proof.
  unfold validate_role. intros H.
  apply app_nil in H as [_ H]. apply app_nil in H as [_ H]. apply app_nil in H as [H3 H].
  apply app_nil in H as [H4 H]. apply app_nil in H as [H5 H6]. rewrite flat_map_nil in H3, H6.
  apply when_nil in H4, H5. bool_prop. split_and!.
  - done.
  - intros wf Hwf. pose proof (proj1 (Forall_forall _ _) H6 wf Hwf) as Hk. cbn in Hk. unfold Workflow. cbn.
    by destruct (wfs !! wf).
  - intros op Hop. pose proof (proj1 (Forall_forall _ _) H3 op Hop) as Hk. cbn in Hk. apply when_nil in Hk. bool_prop.
    by apply contains_true.
  - intros Hc. rewrite bool_decide_false in H4 by done. cbn in H4. by apply contains_false.
Qed.

Lemma targets_nil agents wfs roles bad ts seen :
  validate_targets wfs roles bad ts seen = [] ->
  NoDup ts /\ (forall t, t ∈ ts -> (t ∉ seen) /\
    RoleOwnsWorkflow (MkRegistry agents wfs roles) (t_Role t) (t_Workflow t) = true /\ is_Some (wfs !! t_Workflow t)).
Proof.
  revert seen; induction ts as [|t ts IH]; intros seen H; [split; [constructor|by intros ? ?%not_elem_of_nil]|].
  cbn in H. destruct (bool_decide (t_Role t = "") || bool_decide (t_Workflow t = "")); [done|].
  destruct (bool_decide (t ∈ seen)) eqn:E; [done|]. bool_prop. apply app_nil in H as [H1 H].
  apply IH in H as [HN HF]. split.
  - constructor; [|done]. intros Hin. apply HF in Hin as [Hin _]. apply Hin. by left.
  - intros t' [->|Hin]%elem_of_cons.
    + split; [done|]. unfold RoleOwnsWorkflow. cbn. destruct (roles !! t_Role t) as [ro|]; [|done].
      destruct (wfs !! t_Workflow t); [|done]. apply when_nil in H1. bool_prop. by split.
    + destruct (HF t' Hin) as (Hs & ?). split; [|done]. by apply not_elem_of_cons in Hs as [_ ?].
Qed.

Lemma cap_nil declared v : validate_cap declared v = [] -> declared = true -> 1 <= v.
Proof.
  unfold validate_cap. destruct (v <? 0) eqn:E; [done|]. intros H%when_nil ->. bool_prop.
  rewrite andb_true_r in H. bool_prop. lia.
Qed.

(** The parts of a clean [Validate], by name. *)
Lemma Validate_nil cfg :
  Validate url_Parse cfg = [] ->
  exists agents wfs roles,
    validate_agents url_Parse (c_Gateway cfg) (c_Agents cfg) ∅ = ([], agents) /\
    validate_workflows agents (c_Workflows cfg) ∅ = ([], wfs) /\
    validate_roles wfs (c_Roles cfg) ∅ = ([], roles) /\
    validate_spawn wfs roles (c_Agents cfg) = [] /\
    (spawn_declared (c_Agents cfg) = true ->
     1 <= p_MaxDepth (gw_Spawn (c_Gateway cfg)) /\ 1 <= p_MaxParallel (gw_Spawn (c_Gateway cfg)) /\
     1 <= p_MaxTotalSpawns (gw_Spawn (c_Gateway cfg)) /\ gw_SpawnSupervisor (c_Gateway cfg) <> "") /\
    (p_RejectCycles (gw_Spawn (c_Gateway cfg)) = true -> forall n, ~ tc (spawns agents wfs) n n).
Proof.
  unfold Validate. destruct (validate_agents _ _ _ _) as [e1 agents] eqn:E1.
  destruct (validate_workflows _ _ _) as [e3 wfs] eqn:E3. destruct (validate_roles _ _ _) as [e4 roles] eqn:E4.
  intros H. repeat (apply app_nil in H as [? H]). subst. exists agents, wfs, roles.
  split_and!; [done..| |].
  - intros Hd. repeat match goal with E : validate_cap _ _ = [] |- _ => apply (fun h => cap_nil _ _ h Hd) in E end.
    split_and!; [done..|]. intros Hs.
    match goal with E : validate_supervisor _ _ _ = [] |- _ => unfold validate_supervisor in E; rewrite Hd, Hs in E; done end.
  - intros Hr. rewrite Hr in H. pose proof (spawn_cycle_correct_aux agents wfs) as Hc.
    destruct (spawnCycle agents wfs) as [[c|]|]; done.
Qed.

(** What a built registry guarantees.  If [Build] accepts a configuration
    then the registry holds exactly the configured agents, workflows and
    roles, each under its own name; every agent is fronted, at a secure
    endpoint, with well-formed grants on declared resources (a read-only grant
    inside the resource's classification) and an exec door, if any, served by
    refexec outside the compartments' directory; every workflow has steps, run
    by enabled agents, with bounded bounces and fail-back targets that are
    earlier steps; every role names an access floor and existing workflows,
    grants known control operations only, and is not public if it grants any;
    every may_spawn target is owned by its role and bounded by positive caps;
    and with reject_cycles no agent can reach itself by spawning. *)
Theorem build_guarantees (cfg : Config) (reg : Registry) (H : Build url_Parse cfg = Ok reg) :
  (forall n a, Agent reg n = Some a <-> a ∈ c_Agents cfg /\ a_Name a = n) /\
  (forall n w, Workflow reg n = Some w <-> w ∈ c_Workflows cfg /\ w_Name w = n) /\
  (forall n r, Role reg n = Some r <-> r ∈ c_Roles cfg /\ r_Name r = n) /\
  (forall n a, Agent reg n = Some a -> agent_ok (c_Gateway cfg) a /\ spawn_ok (c_Gateway cfg) reg a) /\
  (forall n w, Workflow reg n = Some w -> workflow_ok reg w) /\
  (forall n r, Role reg n = Some r -> role_ok reg r) /\
  (p_RejectCycles (gw_Spawn (c_Gateway cfg)) = true -> forall n, ~ tc (spawns (reg_agents reg) (reg_workflows reg)) n n).
Proof.
  unfold Build in H. destruct (Validate url_Parse cfg) eqn:HV; [|done]. injection H as <-.
  apply Validate_nil in HV as (agents & wfs & roles & Ha & Hw & Hr & Hs & Hcaps & Hcyc).
  apply validate_named_nil in Ha as (FA & NA & _ & ->), Hw as (FW & NW & _ & ->), Hr as (FR & NR & _ & ->).
  fold (insert_all a_Name (c_Agents cfg)) in *. fold (insert_all w_Name (c_Workflows cfg)) in *.
  fold (insert_all r_Name (c_Roles cfg)) in *.
  unfold Agent at 1, Workflow at 1, Role at 1. cbn [reg_agents reg_workflows reg_roles].
  assert (LA := fun n a => insert_all_lookup a_Name (c_Agents cfg) n a NA).
  assert (LW := fun n w => insert_all_lookup w_Name (c_Workflows cfg) n w NW).
  assert (LR := fun n r => insert_all_lookup r_Name (c_Roles cfg) n r NR).
  split; [done|]. split; [done|]. split; [done|]. split_and!; [..|done].
  - intros n a [Hin _]%LA. destruct (proj1 (Forall_forall _ _) FA a Hin) as [Hn Hc].
    split; [by apply agent_nil|]. unfold validate_spawn in Hs. rewrite flat_map_nil in Hs.
    pose proof (proj1 (Forall_forall _ _) Hs a Hin) as Ht. cbn in Ht. rewrite bool_decide_false in Ht by done.
    apply (targets_nil (insert_all a_Name (c_Agents cfg))) in Ht as [HN HT]. split; [done|]. intros t Ht.
    destruct (HT t Ht) as (_ & Ho & Hx). split_and!; [done..| | | |]; apply Hcaps; unfold spawn_declared;
      apply existsb_exists; exists a; (split; [by apply list_elem_of_In|]); rewrite !bool_decide_false; try done;
      intros E; rewrite E in Ht; by apply not_elem_of_nil in Ht.
  - intros n w [Hin _]%LW. destruct (proj1 (Forall_forall _ _) FW w Hin) as [_ Hc]. by apply workflow_nil.
  - intros n r [Hin _]%LR. destruct (proj1 (Forall_forall _ _) FR r Hin) as [_ Hc]. by apply role_nil.
Qed.

End built.

(** A configuration with two spawning tiers, accepted by [Build]. *)
Definition ex_url (s : string) : option (string * string) :=
  if has_prefix s "https://" then Some ("https", "example.org") else None.
Definition ex_resource : ToolResource :=
  MkResource "mcp" "https://mcp" "static_env" "TOKEN" "" "" "" "" "" "" "" "" ["search"] "".
Definition ex_agent (name : string) (spawn : list SpawnTarget) : AgentDef :=
  MkAgent name None "m" [MkGrant "res" ["search"] "read-only"] "out" "fronted" "https://agent"
    (MkExec [MkExecEntry "git" ["status"]] "refexec" "unix:///run/refexec/s" (5 * second)) spawn "a.yaml".
Definition ex_config : Config :=
  MkConfig [ex_agent "lead" [MkTarget "dev" "sub"]; ex_agent "worker" []]
    [MkWorkflow "main" [MkStep "plan" "lead" "" "" 0; MkStep "do" "worker" "" "plan" 1] "w.yaml";
     MkWorkflow "sub" [MkStep "s" "worker" "finish" "" 0] "w.yaml"]
    [MkRole "dev" ["main"; "sub"] ["eng"] None "r.yaml"; MkRole "ops" [] ["sre"] (Some ["apply"]) "r.yaml"]
    (MkGateway ∅ {["res" := ex_resource]} "" "/run/refbox" "unix:///run/sup/s" (MkPolicy 2 1 4 true) 0).
Definition ex_registry : Registry :=
  MkRegistry (insert_all a_Name (c_Agents ex_config)) (insert_all w_Name (c_Workflows ex_config))
    (insert_all r_Name (c_Roles ex_config)).

Lemma ex_build : Build ex_url ex_config = Ok ex_registry.
Proof. vm_compute. reflexivity. Qed.

Lemma build_guarantees_witness :
  exists w, Workflow ex_registry "main" = Some w /\ workflow_ok ex_registry w.
Proof.
  eexists. split; [vm_compute; reflexivity|].
  refine (proj1 (proj2 (proj2 (proj2 (proj2 (build_guarantees ex_url ex_config ex_registry ex_build))))) "main" _ _).
  vm_compute. reflexivity.
Defined.
