(* ===== verification/Event.v ===== *)
(** * Run events and the run log ([internal/engine/events.go])

    The event vocabulary of a run ledger, its JSON form (field names, order
    and [omitempty] as the struct tags have them) and the run log: [OpenLog],
    [Log.Append] and [ReadLog] over the hash-chained ledger.  A [time.Time] is
    kept as its RFC 3339 text, which is all the ledger holds of it.  A slice
    is a list where nil and empty print alike, and an option where they do
    not.  Decoding follows [json.Unmarshal] into a zero struct; a string
    slice's null element is the empty string. *)
From coqutil Require Export Datatypes.RecordSetters.
From S2P Require Import Prelude Sha256 GoStr Json Ledger Config Origin.
Export OCamlLikeNotations.

(** ** Data *)
Record Binding : Type := MkBinding {
  b_Invoker : Invoker;
  b_Role : string;
  b_Workflow : string;
  b_RunID : string;
  b_ParentRunID : string;
  b_Depth : Z;
}.

Record RuntimeAttestation : Type := MkAttestation {
  ra_Runtime : string;
  ra_Session : string;
  ra_Command : option (list string);
  ra_PID : Z;
  ra_Spawn : Z;
  ra_CredentialEnv : string;
  ra_EnvNames : option (list string);
  ra_Materialization : string;
  ra_Confiner : string;
  ra_ConfinerOpts : list string;
}.

Record Event : Type := MkEvent {
  ev_Time : string;
  ev_Type : string;
  ev_Step : string;
  ev_Agent : string;
  ev_Status : string;
  ev_Reason : string;
  ev_Artifact : string;
  ev_ArtifactSHA : string;
  ev_Execution : string;
  ev_ConfigHash : string;
  ev_AuthMode : string;
  ev_ResourcesTouched : list string;
  ev_Tool : string;
  ev_ArgsSHA : string;
  ev_Command : list string;
  ev_ExitCode : ptr Z;
  ev_OutputSHA : string;
  ev_Mode : string;
  ev_Model : string;
  ev_PromptTokens : ptr Z;
  ev_CompletionTokens : ptr Z;
  ev_ChildRunID : string;
  ev_ChildRole : string;
  ev_ChildWorkflow : string;
  ev_Depth : Z;
  ev_ChildConfiner : string;
  ev_ChildConfinerOpts : list string;
  ev_DoorCalls : ptr Z;
  ev_DoorAccounting : string;
  ev_RuntimeAttestation : ptr RuntimeAttestation;
  ev_Actor : string;
  ev_Principal : string;
  ev_Origin : ptr Origin;
  ev_Binding : Binding;
  ev_Prev : string;
}.

Definition zeroInvoker : Invoker := MkInvoker "" "" "" [].
Definition zeroOrigin : Origin := MkOrigin "" "" "" "" "".
Definition zeroBinding : Binding := MkBinding zeroInvoker "" "" "" "" 0.
Definition zeroAttestation : RuntimeAttestation := MkAttestation "" "" None 0 0 "" None "" "" [].
Definition zeroEvent : Event := MkEvent "" "" "" "" "" "" "" "" "" "" "" [] "" "" [] None "" "" "" None None "" "" "" 0 "" [] None "" None "" "" None zeroBinding "".

Definition DoorAccountingAdmission : string := "admission".

(** [Binding.linkedTo]; [Depth] is an [int]. *)
Definition linkedTo (b : Binding) (parent : ptr Binding) : Binding :=
  match parent with
  | None => b
  | Some p => { b with b_ParentRunID := b_RunID p; b_Depth := b_Depth p + 1 }
  end.

(** ** Encoding *)
Definition enc_obj {A} (fields : A -> list (string * option json)) (a : A) : option json := Some (JObj (omit (fields a))).
Definition enc_ptr {A} (fields : A -> list (string * option json)) (p : ptr A) : option json :=
  match p with Some a => enc_obj fields a | None => None end.

Definition enc_invoker (i : Invoker) : list (string * option json) :=
  [("subject", enc_str (i_Subject i));
   ("issuer", enc_str (i_Issuer i));
   ("method", enc_str (i_Method i));
   ("groups", enc_strs_oe (i_Groups i))].

Definition enc_binding (b : Binding) : list (string * option json) :=
  [("invoker", enc_obj enc_invoker (b_Invoker b));
   ("role", enc_str (b_Role b));
   ("workflow", enc_str (b_Workflow b));
   ("run_id", enc_str (b_RunID b));
   ("parent_run_id", enc_str_oe (b_ParentRunID b));
   ("depth", enc_int_oe (b_Depth b))].

Definition enc_attestation (r : RuntimeAttestation) : list (string * option json) :=
  [("runtime", enc_str (ra_Runtime r));
   ("session", enc_str (ra_Session r));
   ("command", enc_strs (ra_Command r));
   ("pid", enc_int (ra_PID r));
   ("spawn", enc_int (ra_Spawn r));
   ("credential_env", enc_str (ra_CredentialEnv r));
   ("env_names", enc_strs (ra_EnvNames r));
   ("materialization", enc_str (ra_Materialization r));
   ("confiner", enc_str_oe (ra_Confiner r));
   ("confiner_opts", enc_strs_oe (ra_ConfinerOpts r))].

Definition enc_origin (o : Origin) : list (string * option json) :=
  [("via", enc_str (o_Via o));
   ("remote_addr", enc_str_oe (o_RemoteAddr o));
   ("forwarded_for", enc_str_oe (o_ForwardedFor o));
   ("user_agent", enc_str_oe (o_UserAgent o));
   ("server_host", enc_str_oe (o_ServerHost o))].

Definition event_fields (e : Event) : list (string * option json) :=
  [("time", enc_str (ev_Time e));
   ("type", enc_str (ev_Type e));
   ("step", enc_str_oe (ev_Step e));
   ("agent", enc_str_oe (ev_Agent e));
   ("status", enc_str_oe (ev_Status e));
   ("reason", enc_str_oe (ev_Reason e));
   ("artifact", enc_str_oe (ev_Artifact e));
   ("artifact_sha", enc_str_oe (ev_ArtifactSHA e));
   ("execution", enc_str_oe (ev_Execution e));
   ("config_hash", enc_str_oe (ev_ConfigHash e));
   ("auth_mode", enc_str_oe (ev_AuthMode e));
   ("resources_touched", enc_strs_oe (ev_ResourcesTouched e));
   ("tool", enc_str_oe (ev_Tool e));
   ("args_sha", enc_str_oe (ev_ArgsSHA e));
   ("command", enc_strs_oe (ev_Command e));
   ("exit_code", enc_ptr_int (ev_ExitCode e));
   ("output_sha", enc_str_oe (ev_OutputSHA e));
   ("mode", enc_str_oe (ev_Mode e));
   ("model", enc_str_oe (ev_Model e));
   ("prompt_tokens", enc_ptr_int (ev_PromptTokens e));
   ("completion_tokens", enc_ptr_int (ev_CompletionTokens e));
   ("child_run_id", enc_str_oe (ev_ChildRunID e));
   ("child_role", enc_str_oe (ev_ChildRole e));
   ("child_workflow", enc_str_oe (ev_ChildWorkflow e));
   ("depth", enc_int_oe (ev_Depth e));
   ("child_confiner", enc_str_oe (ev_ChildConfiner e));
   ("child_confiner_opts", enc_strs_oe (ev_ChildConfinerOpts e));
   ("door_calls", enc_ptr_int (ev_DoorCalls e));
   ("door_accounting", enc_str_oe (ev_DoorAccounting e));
   ("runtime_attestation", enc_ptr enc_attestation (ev_RuntimeAttestation e));
   ("actor", enc_str_oe (ev_Actor e));
   ("principal", enc_str_oe (ev_Principal e));
   ("origin", enc_ptr enc_origin (ev_Origin e));
   ("binding", enc_obj enc_binding (ev_Binding e));
   ("prev", enc_str (ev_Prev e))].

(** [json.Marshal(e)] *)
Definition marshal_event (e : Event) : string := marshal (JObj (omit (event_fields e))).
Arguments marshal_event : simpl never.

(** ** Decoding *)

(** RFC 3339 as [time.Time.UnmarshalJSON] accepts it. *)
Definition two_digits (a b : ascii) : option Z :=
  match digit_val a, digit_val b with Some x, Some y => Some (Z.of_N (10 * x + y)) | _, _ => None end.

Definition in_two (lo hi : Z) (a b : ascii) : bool :=
  match two_digits a b with Some v => in_range lo hi v | None => false end.

Definition leap (y : Z) : bool := (y mod 4 =? 0) && (negb (y mod 100 =? 0) || (y mod 400 =? 0)).
Definition days_in (y m : Z) : Z :=
  if m =? 2 then (if leap y then 29 else 28)
  else if (m =? 4) || (m =? 6) || (m =? 9) || (m =? 11) then 30 else 31.

Definition zone_ok (l : list ascii) : bool :=
  match l with
  | [z] => ascii_eqb z "Z"%char
  | [s; h1; h2; c; m1; m2] =>
      (ascii_eqb s "+"%char || ascii_eqb s "-"%char) && in_two 0 23 h1 h2 && ascii_eqb c ":"%char && in_two 0 59 m1 m2
  | _ => false
  end.

Fixpoint drop_digits (l : list ascii) : list ascii :=
  match l with
  | c :: r => if is_digit c then drop_digits r else l
  | [] => []
  end.

Definition frac_zone_ok (l : list ascii) : bool :=
  match l with
  | p :: d :: r => if ascii_eqb p "."%char then is_digit d && zone_ok (drop_digits r) else zone_ok l
  | _ => zone_ok l
  end.

Definition rfc3339_ok (s : string) : bool :=
  match String.list_ascii_of_string s with
  | y1 :: y2 :: y3 :: y4 :: a1 :: m1 :: m2 :: a2 :: d1 :: d2 :: a3 :: h1 :: h2 :: a4 :: n1 :: n2 :: a5 :: s1 :: s2 :: rest =>
      match two_digits y1 y2, two_digits y3 y4, two_digits m1 m2, two_digits d1 d2 with
      | Some ya, Some yb, Some mo, Some da =>
          let y := 100 * ya + yb in
          in_range 1 12 mo && in_range 1 (days_in y mo) da &&
          ascii_eqb a1 "-"%char && ascii_eqb a2 "-"%char && ascii_eqb a3 "T"%char &&
          in_two 0 23 h1 h2 && ascii_eqb a4 ":"%char && in_two 0 59 n1 n2 && ascii_eqb a5 ":"%char && in_two 0 59 s1 s2 &&
          frac_zone_ok rest
      | _, _, _, _ => false
      end
  | _ => false
  end.

Definition dec_time (v : json) (cur : string) : option string :=
  match v with
  | JNull => Some cur
  | JStr s => if rfc3339_ok s then Some s else None
  | _ => None
  end.

Definition dec_obj {A} (dec : list (string * json) -> A -> option A) (v : json) (cur : A) : option A :=
  match v with JNull => Some cur | JObj fs => dec fs cur | _ => None end.
Definition dec_ptr {A} (dec : list (string * json) -> A -> option A) (zero : A) (v : json) (cur : ptr A) : option (ptr A) :=
  match v with
  | JNull => Some None
  | JObj fs => match dec fs (default zero cur) with Some a => Some (Some a) | None => None end
  | _ => None
  end.

Definition dec_invoker (fs : list (string * json)) (cur : Invoker) : option Invoker :=
  xSubject ← dec_field (dec_str) (field_values "subject" fs) (i_Subject cur);
  xIssuer ← dec_field (dec_str) (field_values "issuer" fs) (i_Issuer cur);
  xMethod ← dec_field (dec_str) (field_values "method" fs) (i_Method cur);
  xGroups ← dec_field (dec_strs) (field_values "groups" fs) (i_Groups cur);
  Some (MkInvoker xSubject xIssuer xMethod xGroups).

Definition dec_binding (fs : list (string * json)) (cur : Binding) : option Binding :=
  xInvoker ← dec_field (dec_obj dec_invoker) (field_values "invoker" fs) (b_Invoker cur);
  xRole ← dec_field (dec_str) (field_values "role" fs) (b_Role cur);
  xWorkflow ← dec_field (dec_str) (field_values "workflow" fs) (b_Workflow cur);
  xRunID ← dec_field (dec_str) (field_values "run_id" fs) (b_RunID cur);
  xParentRunID ← dec_field (dec_str) (field_values "parent_run_id" fs) (b_ParentRunID cur);
  xDepth ← dec_field (dec_int) (field_values "depth" fs) (b_Depth cur);
  Some (MkBinding xInvoker xRole xWorkflow xRunID xParentRunID xDepth).

Definition dec_attestation (fs : list (string * json)) (cur : RuntimeAttestation) : option RuntimeAttestation :=
  xRuntime ← dec_field (dec_str) (field_values "runtime" fs) (ra_Runtime cur);
  xSession ← dec_field (dec_str) (field_values "session" fs) (ra_Session cur);
  xCommand ← dec_field (dec_strs_nil) (field_values "command" fs) (ra_Command cur);
  xPID ← dec_field (dec_int) (field_values "pid" fs) (ra_PID cur);
  xSpawn ← dec_field (dec_int) (field_values "spawn" fs) (ra_Spawn cur);
  xCredentialEnv ← dec_field (dec_str) (field_values "credential_env" fs) (ra_CredentialEnv cur);
  xEnvNames ← dec_field (dec_strs_nil) (field_values "env_names" fs) (ra_EnvNames cur);
  xMaterialization ← dec_field (dec_str) (field_values "materialization" fs) (ra_Materialization cur);
  xConfiner ← dec_field (dec_str) (field_values "confiner" fs) (ra_Confiner cur);
  xConfinerOpts ← dec_field (dec_strs) (field_values "confiner_opts" fs) (ra_ConfinerOpts cur);
  Some (MkAttestation xRuntime xSession xCommand xPID xSpawn xCredentialEnv xEnvNames xMaterialization xConfiner xConfinerOpts).

Definition dec_origin (fs : list (string * json)) (cur : Origin) : option Origin :=
  xVia ← dec_field (dec_str) (field_values "via" fs) (o_Via cur);
  xRemoteAddr ← dec_field (dec_str) (field_values "remote_addr" fs) (o_RemoteAddr cur);
  xForwardedFor ← dec_field (dec_str) (field_values "forwarded_for" fs) (o_ForwardedFor cur);
  xUserAgent ← dec_field (dec_str) (field_values "user_agent" fs) (o_UserAgent cur);
  xServerHost ← dec_field (dec_str) (field_values "server_host" fs) (o_ServerHost cur);
  Some (MkOrigin xVia xRemoteAddr xForwardedFor xUserAgent xServerHost).

Definition dec_event (fs : list (string * json)) (cur : Event) : option Event :=
  xTime ← dec_field (dec_time) (field_values "time" fs) (ev_Time cur);
  xType ← dec_field (dec_str) (field_values "type" fs) (ev_Type cur);
  xStep ← dec_field (dec_str) (field_values "step" fs) (ev_Step cur);
  xAgent ← dec_field (dec_str) (field_values "agent" fs) (ev_Agent cur);
  xStatus ← dec_field (dec_str) (field_values "status" fs) (ev_Status cur);
  xReason ← dec_field (dec_str) (field_values "reason" fs) (ev_Reason cur);
  xArtifact ← dec_field (dec_str) (field_values "artifact" fs) (ev_Artifact cur);
  xArtifactSHA ← dec_field (dec_str) (field_values "artifact_sha" fs) (ev_ArtifactSHA cur);
  xExecution ← dec_field (dec_str) (field_values "execution" fs) (ev_Execution cur);
  xConfigHash ← dec_field (dec_str) (field_values "config_hash" fs) (ev_ConfigHash cur);
  xAuthMode ← dec_field (dec_str) (field_values "auth_mode" fs) (ev_AuthMode cur);
  xResourcesTouched ← dec_field (dec_strs) (field_values "resources_touched" fs) (ev_ResourcesTouched cur);
  xTool ← dec_field (dec_str) (field_values "tool" fs) (ev_Tool cur);
  xArgsSHA ← dec_field (dec_str) (field_values "args_sha" fs) (ev_ArgsSHA cur);
  xCommand ← dec_field (dec_strs) (field_values "command" fs) (ev_Command cur);
  xExitCode ← dec_field (dec_ptr_int) (field_values "exit_code" fs) (ev_ExitCode cur);
  xOutputSHA ← dec_field (dec_str) (field_values "output_sha" fs) (ev_OutputSHA cur);
  xMode ← dec_field (dec_str) (field_values "mode" fs) (ev_Mode cur);
  xModel ← dec_field (dec_str) (field_values "model" fs) (ev_Model cur);
  xPromptTokens ← dec_field (dec_ptr_int) (field_values "prompt_tokens" fs) (ev_PromptTokens cur);
  xCompletionTokens ← dec_field (dec_ptr_int) (field_values "completion_tokens" fs) (ev_CompletionTokens cur);
  xChildRunID ← dec_field (dec_str) (field_values "child_run_id" fs) (ev_ChildRunID cur);
  xChildRole ← dec_field (dec_str) (field_values "child_role" fs) (ev_ChildRole cur);
  xChildWorkflow ← dec_field (dec_str) (field_values "child_workflow" fs) (ev_ChildWorkflow cur);
  xDepth ← dec_field (dec_int) (field_values "depth" fs) (ev_Depth cur);
  xChildConfiner ← dec_field (dec_str) (field_values "child_confiner" fs) (ev_ChildConfiner cur);
  xChildConfinerOpts ← dec_field (dec_strs) (field_values "child_confiner_opts" fs) (ev_ChildConfinerOpts cur);
  xDoorCalls ← dec_field (dec_ptr_int) (field_values "door_calls" fs) (ev_DoorCalls cur);
  xDoorAccounting ← dec_field (dec_str) (field_values "door_accounting" fs) (ev_DoorAccounting cur);
  xRuntimeAttestation ← dec_field (dec_ptr dec_attestation zeroAttestation) (field_values "runtime_attestation" fs) (ev_RuntimeAttestation cur);
  xActor ← dec_field (dec_str) (field_values "actor" fs) (ev_Actor cur);
  xPrincipal ← dec_field (dec_str) (field_values "principal" fs) (ev_Principal cur);
  xOrigin ← dec_field (dec_ptr dec_origin zeroOrigin) (field_values "origin" fs) (ev_Origin cur);
  xBinding ← dec_field (dec_obj dec_binding) (field_values "binding" fs) (ev_Binding cur);
  xPrev ← dec_field (dec_str) (field_values "prev" fs) (ev_Prev cur);
  Some (MkEvent xTime xType xStep xAgent xStatus xReason xArtifact xArtifactSHA xExecution xConfigHash xAuthMode xResourcesTouched xTool xArgsSHA xCommand xExitCode xOutputSHA xMode xModel xPromptTokens xCompletionTokens xChildRunID xChildRole xChildWorkflow xDepth xChildConfiner xChildConfinerOpts xDoorCalls xDoorAccounting xRuntimeAttestation xActor xPrincipal xOrigin xBinding xPrev).

(** [json.Unmarshal(raw, &e)] for a fresh [e] *)
Definition unmarshal_event (raw : string) : option Event :=
  match parse_json raw with
  | Some v => dec_obj dec_event v zeroEvent
  | None => None
  end.

(** ** The run log *)

(** [l_hist] is a history variable: the events whose append returned nil, as
    written. *)
Record Log : Type := MkLog { l_c : Chain; l_hist : list Event }.

Inductive log_error : Type := ErrRunExists | LogError (e : ledger_error).

(** [disk] is the content at the run's log path, [None] when absent. *)
Definition OpenLog (e : open_env) (disk : option string) : result log_error Log * option string :=
  match Create e disk Unlocked with
  | (Ok c, d) => (Ok (MkLog c []), d)
  | (Err ErrExist, d) => (Err ErrRunExists, d)
  | (Err x, d) => (Err (LogError x), d)
  end.

(** [Log.Append]: the mutex makes the body atomic. *)
Definition LogAppend (w : write_outcome) (l : Log) (e : Event) : Log * option ledger_error :=
  let e := { e with ev_Prev := prevHash (l_c l) } in
  let '(c, err) := Append w (l_c l) (marshal_event e) in
  (MkLog c (match err with None => l_hist l ++ [e] | Some _ => l_hist l end), err).

Fixpoint decode_records (recs : list string) (i : Z) (out : list Event) (head : Head) (verr : option ledger_error)
  : list Event * Head * option ledger_error :=
  match recs with
  | [] => (out, head, verr)
  | r :: rest =>
      match unmarshal_event r with
      | None => (out, MkHead "" (Z.of_nat (length out)), Some (ChainBrokenError (i + 1)))
      | Some e => decode_records rest (i + 1) (out ++ [e]) head verr
      end
  end.

Definition torn_or_broken (e : ledger_error) : bool :=
  match e with TornError _ | ChainBrokenError _ => true | _ => false end.

Definition ReadLog (e : open_env) (disk : option string) : list Event * Head * option ledger_error :=
  let '(recs, head, verr) := ReadVerify e disk Unlocked in
  match recs, verr with
  | [], Some x => if torn_or_broken x then decode_records recs 0 [] head verr else ([], MkHead "" 0, Some x)
  | _, _ => decode_records recs 0 [] head verr
  end.

(** ** What a reader gets back *)
Definition san_invoker (i : Invoker) : Invoker :=
  MkInvoker (to_valid (i_Subject i))
    (to_valid (i_Issuer i))
    (to_valid (i_Method i))
    (map to_valid (i_Groups i)).

Definition san_binding (b : Binding) : Binding :=
  MkBinding (san_invoker (b_Invoker b))
    (to_valid (b_Role b))
    (to_valid (b_Workflow b))
    (to_valid (b_RunID b))
    (to_valid (b_ParentRunID b))
    (b_Depth b).

Definition san_attestation (r : RuntimeAttestation) : RuntimeAttestation :=
  MkAttestation (to_valid (ra_Runtime r))
    (to_valid (ra_Session r))
    (map to_valid <$> ra_Command r)
    (ra_PID r)
    (ra_Spawn r)
    (to_valid (ra_CredentialEnv r))
    (map to_valid <$> ra_EnvNames r)
    (to_valid (ra_Materialization r))
    (to_valid (ra_Confiner r))
    (map to_valid (ra_ConfinerOpts r)).

Definition san_origin (o : Origin) : Origin :=
  MkOrigin (to_valid (o_Via o))
    (to_valid (o_RemoteAddr o))
    (to_valid (o_ForwardedFor o))
    (to_valid (o_UserAgent o))
    (to_valid (o_ServerHost o)).

Definition san_event (e : Event) : Event :=
  MkEvent (to_valid (ev_Time e))
    (to_valid (ev_Type e))
    (to_valid (ev_Step e))
    (to_valid (ev_Agent e))
    (to_valid (ev_Status e))
    (to_valid (ev_Reason e))
    (to_valid (ev_Artifact e))
    (to_valid (ev_ArtifactSHA e))
    (to_valid (ev_Execution e))
    (to_valid (ev_ConfigHash e))
    (to_valid (ev_AuthMode e))
    (map to_valid (ev_ResourcesTouched e))
    (to_valid (ev_Tool e))
    (to_valid (ev_ArgsSHA e))
    (map to_valid (ev_Command e))
    (ev_ExitCode e)
    (to_valid (ev_OutputSHA e))
    (to_valid (ev_Mode e))
    (to_valid (ev_Model e))
    (ev_PromptTokens e)
    (ev_CompletionTokens e)
    (to_valid (ev_ChildRunID e))
    (to_valid (ev_ChildRole e))
    (to_valid (ev_ChildWorkflow e))
    (ev_Depth e)
    (to_valid (ev_ChildConfiner e))
    (map to_valid (ev_ChildConfinerOpts e))
    (ev_DoorCalls e)
    (to_valid (ev_DoorAccounting e))
    (san_attestation <$> ev_RuntimeAttestation e)
    (to_valid (ev_Actor e))
    (to_valid (ev_Principal e))
    (san_origin <$> ev_Origin e)
    (san_binding (ev_Binding e))
    (to_valid (ev_Prev e)).

Definition int_ok (z : Z) : Prop := min_int64 <= z <= max_int64.
Definition ptr_int_ok (p : ptr Z) : Prop := match p with Some z => int_ok z | None => True end.
Definition attestation_ok (p : ptr RuntimeAttestation) : Prop :=
  match p with Some r => int_ok (ra_PID r) /\ int_ok (ra_Spawn r) | None => True end.

(** The events a Go program can hold: every [int] is a machine integer and
    the time is one [time.Time] marshals. *)
Record event_ok (e : Event) : Prop := {
  ok_time : rfc3339_ok (ev_Time e) = true /\ valid_utf8 (ev_Time e) = true;
  ok_exit : ptr_int_ok (ev_ExitCode e);
  ok_prompt : ptr_int_ok (ev_PromptTokens e);
  ok_completion : ptr_int_ok (ev_CompletionTokens e);
  ok_depth : int_ok (ev_Depth e);
  ok_doors : ptr_int_ok (ev_DoorCalls e);
  ok_binding : int_ok (b_Depth (ev_Binding e));
  ok_attestation : attestation_ok (ev_RuntimeAttestation e);
}.

(** ** The round trip *)
Definition opt_list {A} (v : option A) : list A := match v with Some x => [x] | None => [] end.

Lemma dec_struct_field {A} (d : json -> A -> option A) fs k v cur x :
  NoDup (map (fun kv => fold_key kv.1) fs) -> (k, v) ∈ fs ->
  dec_field d (map coerce (opt_list v)) cur = Some x ->
  dec_field d (field_values k (coerce_fields (omit fs))) cur = Some x.
Proof. intros HN Hin H. rewrite field_values_coerce, (field_values_omit fs k v HN Hin). exact H. Qed.

Lemma bind_step {A B} (m : option A) (f : A -> option B) x r : m = Some x -> f x = r -> (m ≫= f) = r.
Proof. by intros -> <-. Qed.

Lemma rt_str s cur : dec_field dec_str (map coerce (opt_list (enc_str s))) cur = Some (to_valid s).
Proof. done. Qed.
Lemma rt_str_oe s : dec_field dec_str (map coerce (opt_list (enc_str_oe s))) "" = Some (to_valid s).
Proof. unfold enc_str_oe. by case_bool_decide as E; [rewrite E|]. Qed.
Lemma rt_int z cur : int_ok z -> dec_field dec_int (map coerce (opt_list (enc_int z))) cur = Some z.
Proof. intros H. cbn. by rewrite parse_int64_itoa. Qed.
Lemma rt_int_oe z : int_ok z -> dec_field dec_int (map coerce (opt_list (enc_int_oe z))) 0 = Some z.
Proof. intros H. unfold enc_int_oe. destruct (Z.eqb_spec z 0) as [->|]; [done|]. cbn. by rewrite parse_int64_itoa. Qed.
Lemma rt_ptr_int p : ptr_int_ok p -> dec_field dec_ptr_int (map coerce (opt_list (enc_ptr_int p))) None = Some p.
Proof. destruct p as [z|]; [|done]. intros H. cbn. by rewrite parse_int64_itoa. Qed.
Lemma rt_time s cur : rfc3339_ok s = true /\ valid_utf8 s = true ->
  dec_field dec_time (map coerce (opt_list (enc_str s))) cur = Some (to_valid s).
Proof. intros [H Hv]. cbn. rewrite to_valid_id by done. by rewrite H. Qed.

Lemma mapM_elems l : mapM dec_elem (map coerce (map JStr l)) = Some (map to_valid l).
Proof. induction l as [|x l IH]; [done|]. cbn. by rewrite IH. Qed.

Lemma rt_strs l : dec_field dec_strs (map coerce (opt_list (enc_strs_oe l))) [] = Some (map to_valid l).
Proof. destruct l as [|x l]; [done|]. unfold enc_strs_oe, opt_list. cbn [map coerce dec_field dec_strs].
  pose proof (mapM_elems (x :: l)) as H. cbn [map coerce] in H. by rewrite H. Qed.
Lemma rt_strs_nil l cur :
  dec_field dec_strs_nil (map coerce (opt_list (enc_strs l))) cur = Some (map to_valid <$> l).
Proof.
  destruct l as [l|]; [|done]. unfold enc_strs, opt_list. cbn [map coerce dec_field dec_strs_nil].
  by rewrite mapM_elems.
Qed.

Lemma rt_obj {A} (fields : A -> list (string * option json)) (dec : list (string * json) -> A -> option A) a b cur :
  dec (coerce_fields (omit (fields a))) cur = Some b ->
  dec_field (dec_obj dec) (map coerce (opt_list (enc_obj fields a))) cur = Some b.
Proof. intros H. unfold enc_obj, opt_list. cbn [map coerce dec_field dec_obj]. fold (coerce_fields (omit (fields a))). by rewrite H. Qed.

Lemma rt_ptr {A} (fields : A -> list (string * option json)) (dec : list (string * json) -> A -> option A) (san : A -> A) zero p :
  (forall a, p = Some a -> dec (coerce_fields (omit (fields a))) zero = Some (san a)) ->
  dec_field (dec_ptr dec zero) (map coerce (opt_list (enc_ptr fields p))) None = Some (san <$> p).
Proof.
  destruct p as [a|]; [|done]. intros H. specialize (H a eq_refl). unfold enc_ptr, enc_obj, opt_list.
  cbn [map coerce dec_field dec_ptr default]. fold (coerce_fields (omit (fields a))). unfold from_option, id. by rewrite H.
Qed.

#[export] Hint Resolve rt_str rt_str_oe rt_int rt_int_oe rt_ptr_int rt_time rt_strs rt_strs_nil : go.

(** A field's place in the struct; its key is a literal. *)
Ltac find_field := first [ apply list_elem_of_here | apply list_elem_of_further; find_field ].
Ltac decode_fields keys :=
  repeat (eapply bind_step; [eapply dec_struct_field; [exact keys | find_field | eauto with go] |]); try reflexivity.

Lemma invoker_keys i : NoDup (map (fun kv => fold_key kv.1) (enc_invoker i)).
Proof. apply (bool_decide_unpack _). vm_compute. exact I. Qed.
Lemma binding_keys b : NoDup (map (fun kv => fold_key kv.1) (enc_binding b)).
Proof. apply (bool_decide_unpack _). vm_compute. exact I. Qed.
Lemma attestation_keys r : NoDup (map (fun kv => fold_key kv.1) (enc_attestation r)).
Proof. apply (bool_decide_unpack _). vm_compute. exact I. Qed.
Lemma origin_keys o : NoDup (map (fun kv => fold_key kv.1) (enc_origin o)).
Proof. apply (bool_decide_unpack _). vm_compute. exact I. Qed.
Lemma event_keys e : NoDup (map (fun kv => fold_key kv.1) (event_fields e)).
Proof. apply (bool_decide_unpack _). vm_compute. exact I. Qed.

Lemma rt_invoker i : dec_invoker (coerce_fields (omit (enc_invoker i))) zeroInvoker = Some (san_invoker i).
Proof. unfold dec_invoker. decode_fields (invoker_keys i). Qed.
Lemma rt_origin o : dec_origin (coerce_fields (omit (enc_origin o))) zeroOrigin = Some (san_origin o).
Proof. unfold dec_origin. decode_fields (origin_keys o). Qed.

Lemma rt_binding_invoker b :
  dec_field (dec_obj dec_invoker) (map coerce (opt_list (enc_obj enc_invoker (b_Invoker b)))) zeroInvoker
  = Some (san_invoker (b_Invoker b)).
Proof. apply rt_obj, rt_invoker. Qed.
#[local] Hint Resolve rt_binding_invoker : go.

Lemma rt_binding b : int_ok (b_Depth b) ->
  dec_binding (coerce_fields (omit (enc_binding b))) zeroBinding = Some (san_binding b).
Proof. intros H. unfold dec_binding. decode_fields (binding_keys b). Qed.

Lemma rt_attestation r : int_ok (ra_PID r) -> int_ok (ra_Spawn r) ->
  dec_attestation (coerce_fields (omit (enc_attestation r))) zeroAttestation = Some (san_attestation r).
Proof. intros H1 H2. unfold dec_attestation. decode_fields (attestation_keys r). Qed.

Lemma rt_event_binding e : int_ok (b_Depth (ev_Binding e)) ->
  dec_field (dec_obj dec_binding) (map coerce (opt_list (enc_obj enc_binding (ev_Binding e)))) zeroBinding
  = Some (san_binding (ev_Binding e)).
Proof. intros H. by apply rt_obj, rt_binding. Qed.
Lemma rt_event_origin p :
  dec_field (dec_ptr dec_origin zeroOrigin) (map coerce (opt_list (enc_ptr enc_origin p))) None = Some (san_origin <$> p).
Proof. apply rt_ptr. intros o _. apply rt_origin. Qed.
Lemma rt_event_attestation p : attestation_ok p ->
  dec_field (dec_ptr dec_attestation zeroAttestation) (map coerce (opt_list (enc_ptr enc_attestation p))) None
  = Some (san_attestation <$> p).
Proof. intros H. apply rt_ptr. intros r ->. destruct H. by apply rt_attestation. Qed.
#[local] Hint Resolve rt_event_binding rt_event_origin rt_event_attestation : go.

Lemma rt_event e : event_ok e -> dec_event (coerce_fields (omit (event_fields e))) zeroEvent = Some (san_event e).
Proof. intros []. unfold dec_event. decode_fields (event_keys e). Qed.

(** *** The marshalled text is well-formed JSON on one line *)
Definition wf_opt (d : Z) (v : option json) : Prop :=
  match v with Some x => wf_json x /\ depth_of x <= d | None => True end.
Definition wf_fields (d : Z) (fs : list (string * option json)) : Prop :=
  Forall (fun kv => valid_utf8 kv.1 = true /\ wf_opt d kv.2) fs.

Lemma wf_omit d fs : 0 <= d -> wf_fields d fs -> wf_opt (d + 1) (Some (JObj (omit fs))).
Proof.
  intros Hd. induction 1 as [|[k v] fs [Hk Hv] _ [IH1 IH2]]; [by split; [|cbn; lia]|]. rewrite omit_cons.
  destruct v as [x|]; [|done]. cbn [app]. destruct Hv as [Hv1 Hv2]. split; [done|]. cbn in *. lia.
Qed.

Lemma wf_strs l : wf_opt 1 (Some (JArr (map JStr l))).
Proof. induction l as [|x l [IH1 IH2]]; cbn in *; [done|]. split; [done|]. lia. Qed.

Lemma wf_mono d d' v : d <= d' -> wf_opt d v -> wf_opt d' v.
Proof. destruct v; [|done]. intros H [? ?]. split; [done|lia]. Qed.

Lemma wf_str d s : 0 <= d -> wf_opt d (enc_str s).
Proof. by split. Qed.
Lemma wf_str_oe d s : 0 <= d -> wf_opt d (enc_str_oe s).
Proof. unfold enc_str_oe. by case_bool_decide. Qed.
Lemma wf_int d z : 0 <= d -> wf_opt d (enc_int z).
Proof. split; [by exists z|done]. Qed.
Lemma wf_int_oe d z : 0 <= d -> wf_opt d (enc_int_oe z).
Proof. unfold enc_int_oe. destruct (z =? 0); [done|]. by split; [exists z|]. Qed.
Lemma wf_ptr_int d p : 0 <= d -> wf_opt d (enc_ptr_int p).
Proof. destruct p as [z|]; [|done]. by split; [exists z|]. Qed.
Lemma wf_strs_oe d l : 1 <= d -> wf_opt d (enc_strs_oe l).
Proof. intros. destruct l as [|x l]; [done|]. apply (wf_mono 1); [done|]. exact (wf_strs (x :: l)). Qed.
Lemma wf_strs_opt d l : 1 <= d -> wf_opt d (enc_strs l).
Proof. intros. destruct l as [l|]; [|split; [done|cbn; lia]]. apply (wf_mono 1); [done|]. exact (wf_strs l). Qed.
Lemma wf_obj {A} d (fields : A -> list (string * option json)) a : 1 <= d -> wf_fields (d - 1) (fields a) -> wf_opt d (enc_obj fields a).
Proof. intros Hd H. replace d with (d - 1 + 1) by lia. apply wf_omit; [lia|done]. Qed.
Lemma wf_ptr {A} d (fields : A -> list (string * option json)) p :
  1 <= d -> (forall a, wf_fields (d - 1) (fields a)) -> wf_opt d (enc_ptr fields p).
Proof. intros Hd H. destruct p as [a|]; [|done]. by apply wf_obj. Qed.

#[export] Hint Resolve wf_str wf_str_oe wf_int wf_int_oe wf_ptr_int wf_strs_oe wf_strs_opt : go.
#[local] Hint Extern 1 (_ <= _) => lia : go.
Ltac wf_struct := repeat (apply Forall_cons; split; [split; [vm_compute; reflexivity | cbn [snd]; eauto with go]|]); try apply Forall_nil_2.

Lemma wf_invoker i : wf_fields 1 (enc_invoker i).
Proof. wf_struct. Qed.
Lemma wf_binding b : wf_fields 2 (enc_binding b).
Proof. wf_struct. apply wf_obj; [lia|]. apply wf_invoker. Qed.
Lemma wf_attestation d r : 1 <= d -> wf_fields d (enc_attestation r).
Proof. intros. wf_struct. Qed.
Lemma wf_origin d o : 0 <= d -> wf_fields d (enc_origin o).
Proof. intros. wf_struct. Qed.

Lemma wf_event e : wf_fields 3 (event_fields e).
Proof.
  wf_struct.
  - apply wf_ptr; [lia|]. intros. apply wf_attestation; lia.
  - apply wf_ptr; [lia|]. intros. apply wf_origin; lia.
  - apply wf_obj; [lia|]. apply wf_binding.
Qed.

Lemma wf_event_obj e : wf_json (JObj (omit (event_fields e))) /\ depth_of (JObj (omit (event_fields e))) <= max_depth.
Proof. destruct (wf_omit 3 (event_fields e)) as [H1 H2]; [lia|apply wf_event|]. unfold max_depth. split; [done|lia]. Qed.

Lemma parse_marshal_event e : parse_json (marshal_event e) = Some (JObj (coerce_fields (omit (event_fields e)))).
Proof. destruct (wf_event_obj e) as [H1 H2]. unfold marshal_event. exact (parse_print _ H1 H2). Qed.

Lemma marshal_event_no_nl e : no_nl (marshal_event e).
Proof. destruct (wf_event_obj e) as [H1 _]. unfold no_nl, marshal_event, marshal. exact (print_nl _ EmptyString H1). Qed.

Lemma unmarshal_marshal e : event_ok e -> unmarshal_event (marshal_event e) = Some (san_event e).
Proof. intros H. unfold unmarshal_event. rewrite parse_marshal_event. exact (rt_event e H). Qed.

(** The chain fields of a marshalled event: its own prev, and no seq. *)
Lemma event_line_fields e : parseLineFields (marshal_event e) = Some (MkLF (Some (to_valid (ev_Prev e))) None).
Proof.
  unfold parseLineFields. rewrite parse_marshal_event, !field_values_coerce.
  rewrite (field_values_omit (event_fields e) "prev" (enc_str (ev_Prev e)) (event_keys e)) by find_field.
  rewrite (field_values_absent (event_fields e) "seq"); [done|].
  apply (bool_decide_unpack (~ _)). vm_compute. exact I.
Qed.

Strategy 1000 [marshal_event].

(** ** The run log over the ledger *)
Lemma hex_valid s : all_chars is_lower_hex s = true -> valid_utf8 s = true.
Proof.
  induction s as [|c s IH]; [done|]. cbn [all_chars valid_utf8]. intros [Hc Hs]%andb_true_iff.
  assert (utf8_size c s = 1%nat) as ->; [|by apply IH]. apply utf8_size_1.
  unfold is_lower_hex in Hc. apply orb_true_iff in Hc as [Hc|Hc]; bool_prop; lia.
Qed.

Lemma sha256_valid s : valid_utf8 (sha256_hex s) = true.
Proof. pose proof (sha256_hex_shape s) as H. unfold lower_hex_of_len in H. bool_prop. by apply hex_valid. Qed.

(** A run log never counts records and its head is a digest or empty. *)
Definition log_wf (l : Log) : Prop := valid_utf8 (prevHash (l_c l)) = true /\ seqMode (l_c l) = false.

Definition with_prev (e : Event) (l : Log) : Event := { e with ev_Prev := prevHash (l_c l) }.

Definition log_write (w : write_outcome) (l : Log) (e : Event) : Log :=
  let c := l_c l in
  let line := marshal_event (with_prev e l) in
  let f := file c +:+ write_bytes w (line +:+ String newline "") in
  match w with
  | WriteOk => MkLog (MkChain f (mode c) (base c) (sha256_hex line) (count c + 1) true false) (l_hist l ++ [with_prev e l])
  | _ => MkLog (with_file c f) (l_hist l)
  end.

(** An append to a run log fails exactly when the write or the sync does. *)
Lemma LogAppend_spec w l e : log_wf l ->
  LogAppend w l e = (log_write w l e, match w with WriteOk => None | _ => Some ErrIO end) /\ log_wf (log_write w l e).
Proof.
  intros [Hv Hs]. unfold LogAppend. fold (with_prev e l). unfold Append. rewrite event_line_fields.
  cbn [Prev Seq]. change (ev_Prev (with_prev e l)) with (prevHash (l_c l)). rewrite to_valid_id by done.
  rewrite bool_decide_true by done. cbn [negb is_Some_b]. rewrite Hs.
  replace (if seqEstablished (l_c l) then false else false) with false by (by destruct (seqEstablished (l_c l))).
  cbn [andb negb]. unfold log_write. destruct w; (split; [reflexivity|]); split;
    first [exact Hv | exact Hs | apply sha256_valid | reflexivity].
Qed.

(** The log's invariant while no write has failed: the file is the chain of
    the history's lines. *)
Definition log_inv (l : Log) : Prop :=
  log_wf l /\ chain_inv zeroStart (l_c l) (map marshal_event (l_hist l)).

Lemma LogAppend_inv l e : log_inv l -> log_inv (log_write WriteOk l e).
Proof.
  intros [Hw Hc]. destruct (LogAppend_spec WriteOk l e Hw) as [E Hw']. split; [done|].
  cbn [log_write l_hist l_c]. rewrite map_app. cbn [map].
  eapply Append_inv; [exact Hc|apply marshal_event_no_nl|].
  unfold LogAppend in E. fold (with_prev e l) in E.
  destruct (Append WriteOk (l_c l) (marshal_event (with_prev e l))) as [c err]. by injection E as -> _ ->.
Qed.

Lemma OpenLog_inv e disk l d : OpenLog e disk = (Ok l, d) -> log_inv l /\ l_hist l = [] /\ disk = None /\ d = Some "".
Proof.
  unfold OpenLog, Create. destruct (mkdir_ok e); cbn [negb]; [|done]. destruct disk; [done|].
  destruct (open_ok e); cbn [negb take_lock]; [|done]. intros [= <- <-]. split_and!; try done.
  split; [done|]. split_and!; try done. split_and!; try done. constructor.
Qed.

Lemma decode_records_ok evs i out head verr :
  Forall event_ok evs ->
  decode_records (map marshal_event evs) i out head verr = (out ++ map san_event evs, head, verr).
Proof.
  intros HF. revert i out. induction HF as [|e evs He HF IH]; intros i out; cbn [map decode_records].
  - by rewrite app_nil_r.
  - rewrite unmarshal_marshal by done. rewrite IH. by rewrite <- app_assoc.
Qed.

(** A log read back: the events of its history, in order. *)
Lemma ReadLog_back env l :
  open_ok env = true -> read_fault env = false -> log_inv l -> Forall event_ok (l_hist l) ->
  ReadLog env (Some (file (l_c l))) = (map san_event (l_hist l), MkHead (prevHash (l_c l)) (count (l_c l)), None).
Proof.
  intros Ho Hr [_ (Hf & _ & Hc)] HF. unfold ReadLog, ReadVerify, ReadVerifyFrom. cbn [validate zeroStart]. rewrite Ho, Hr.
  cbn [negb take_lock]. change (validate zeroStart) with true. cbn [negb]. unfold VerifyReader.
  change (validate zeroStart) with true. cbn [negb]. rewrite Hf, (loadChain_complete _ _ _ _ _ Hc). cbn [ld_records ld_head ld_err].
  rewrite decode_records_ok by done. by destruct (map marshal_event (l_hist l)).
Qed.

(** An event survives the ledger: marshalling it and decoding the line
    yields the same event, with only invalid UTF-8 replaced, for every event
    whose integers fit a machine word; the line is a single JSON line. *)
Theorem event_roundtrip (e : Event) (He : event_ok e) :
  unmarshal_event (marshal_event e) = Some (san_event e) /\ no_nl (marshal_event e).
Proof. split; [by apply unmarshal_marshal|apply marshal_event_no_nl]. Qed.

Definition ex_time : string := "2026-01-02T03:04:05.678Z".
Definition ex_event : Event :=
  { zeroEvent with ev_Time := ex_time; ev_Type := "step_failed"; ev_Reason := "a" +:+ String newline "<b>"; ev_DoorCalls := Some 3 }.

Lemma event_roundtrip_witness : unmarshal_event (marshal_event ex_event) = Some ex_event.
Proof.
  refine (eq_trans (proj1 (event_roundtrip ex_event _)) _); [split; vm_compute; try done; repeat split; done|].
  vm_compute. reflexivity.
Defined.

(** ** Decoded integers are machine integers *)
Lemma parse_int64_ok s z : parse_int64 s = Some z -> int_ok z.
Proof.
  unfold int_ok. assert (Hp : forall t, match parse_N t with Some n => if Z.of_N n <=? max_int64 then Some (Z.of_N n) else None | None => None end = Some z ->
    min_int64 <= z <= max_int64).
  { intros t. destruct (parse_N t) as [n|]; [|done]. destruct (Z.leb_spec (Z.of_N n) max_int64); [|done]. intros [= <-].
    unfold min_int64. lia. }
  assert (Hn : forall r, match parse_N r with Some n => if min_int64 <=? - Z.of_N n then Some (- Z.of_N n) else None | None => None end = Some z ->
    min_int64 <= z <= max_int64).
  { intros r. destruct (parse_N r) as [n|]; [|done]. destruct (Z.leb_spec min_int64 (- Z.of_N n)); [|done]. intros [= <-].
    unfold max_int64. lia. }
  destruct s as [|c r]; [done|]. unfold parse_int64. destruct c as [[] [] [] [] [] [] [] []]; first [apply Hp | apply Hn].
Qed.

Lemma dec_field_inv {A} (P : A -> Prop) (dec : json -> A -> option A) vs cur x :
  (forall v c y, dec v c = Some y -> P c -> P y) -> P cur -> dec_field dec vs cur = Some x -> P x.
Proof.
  intros Hd. revert cur; induction vs as [|v vs IH]; intros cur Hc; cbn [dec_field]; [by intros [= <-]|].
  destruct (dec v cur) as [y|] eqn:E; [|done]. apply IH. by eapply Hd.
Qed.

Lemma dec_int_ok v c y : dec_int v c = Some y -> int_ok c -> int_ok y.
Proof. destruct v; cbn; try done; [by intros [= <-]|]. intros Hp _. by eapply parse_int64_ok. Qed.

Lemma dec_ptr_int_ok v c y : dec_ptr_int v c = Some y -> ptr_int_ok c -> ptr_int_ok y.
Proof.
  destruct v; cbn; try done; [by intros [= <-]|]. destruct (parse_int64 _) as [z|] eqn:E; [|done]. intros [= <-] _. by eapply parse_int64_ok.
Qed.

Lemma zero_int_ok : int_ok 0.
Proof. by vm_compute. Qed.

(** An [int] computation. *)
Definition wrap64 (z : Z) : Z := (z + 2 ^ 63) mod two64 - 2 ^ 63.

Lemma wrap64_int z : int_ok (wrap64 z).
Proof. unfold int_ok, wrap64, min_int64, max_int64, two64. pose proof (Z.mod_pos_bound (z + 2 ^ 63) (2 ^ 64) ltac:(lia)). lia. Qed.
Lemma wrap64_id z : int_ok z -> wrap64 z = z.
Proof. unfold int_ok, wrap64, min_int64, max_int64, two64. intros. rewrite Z.mod_small; lia. Qed.
