(* ===== verification/Engine.v ===== *)
(** * The run engine ([internal/engine])

    [Run] admits a request, walks a workflow's steps with fail-back, and
    records everything on the run's log.  The world outside the engine (the
    executor, the gateway, the run's context, the clock, the disk) is any type
    [W] with the operations of the classes below; nothing is assumed of it
    unless a theorem says so, so the engine's theorems hold whatever an agent,
    a gateway or a disk does.

    While [Execute] runs, and while [Start] and [Stop] run, the gateway may
    append door events through [appendEvent]: those operations return the
    events in the order in which the log's mutex admits them.  [appendEvent]
    exists only in a fronted step, so other steps discard that list. *)
From S2P Require Import Prelude Sha256 GoStr Json Ledger Config Authz Origin Paths Registry Event.

Record StepResult : Type := MkStepResult { sr_Artifact : string; sr_Success : bool; sr_Reason : string }.

(** An error from [Execute]: whether it wraps [ErrStepConfig], and its text. *)
Record exec_error : Type := MkExecError { ee_config : bool; ee_text : string }.

(** Proxy coordinates ([WithProxyCoordinates]): url and token. *)
Abbreviation coords := (string * string)%type.

Class StepExecutor (W : Type) := {
  Execute : W -> ptr coords -> Binding -> AgentDef -> string -> gmap string string ->
            (StepResult * option exec_error) * list Event * W;
}.

Class ToolProxy (W : Type) := {
  Start : W -> Binding -> AgentDef -> result string coords * list Event * W;
  Stop : W -> Z * list Event * W;
}.

(** The process's own environment: the outcome of the next ledger write, the
    clock, whether the run's context is over, 8 random bytes, the artifact
    store. *)
Class Host (W : Type) := {
  next_write : W -> write_outcome * W;
  time_now : W -> string * W;
  ctx_err : W -> bool * W;
  rand8 : W -> string * W;
  store_open : W -> result string () * W;
  store_put : W -> string -> result string (string * string) * W;
}.

Record Result : Type := MkResult { res_RunID : string; res_Status : string; res_OutputSHA : string; res_OutputPreview : string }.

Record Options : Type := MkOptions {
  op_ConfigHash : string;
  op_NewGateway : bool;             (** [NewGateway != nil] *)
  op_Parent : ptr Binding;
  op_RunID : string;
  op_Origin : ptr Origin;
}.

Inductive run_error : Type :=
  | EOpenLog (e : log_error)
  | EStoreOpen (text : string)
  | ErrLedgerWrite (e : ledger_error)
  | EAppend (e : ledger_error)
  | ERefused (reason : string)
  | ERefusedUnrecorded (reason : string) (e : ledger_error)
  | EArtifactStore (text : string)
  | EArtifactStoreUnrecorded (text : string) (e : ledger_error).

Definition defaultMaxBounces : Z := 2.
Definition reasonArtifactStoreWriteFailed : string := "artifact store write failed".

Definition NewRunID (random : string) : string := "r-" +:+ hex_encode random.

Section engine.
  Context `{GoText} {W : Type} `{Host W} `{StepExecutor W} `{ToolProxy W}.

(** ** Admission ([Admit]): the reason to record, or nothing *)
Definition Admit (reg : Registry) (role workflow : string) (inv : Invoker) : option string :=
  match Role reg role with
  | None => Some ("role " +:+ quote role +:+ " is not in the registry")
  | Some ro =>
      match Workflow reg workflow with
      | None => Some ("workflow " +:+ quote workflow +:+ " is not in the registry")
      | Some _ =>
          if negb (RoleOwnsWorkflow reg role workflow)
          then Some ("role " +:+ quote role +:+ " does not own workflow " +:+ quote workflow)
          else if negb (GroupsAllow (i_Groups inv) (r_AllowedGroups ro))
          then Some ("role " +:+ quote role +:+ " requires membership in one of its allowed groups (" +:+
                     join ", " (r_AllowedGroups ro) +:+ "); the invoker's groups don't qualify")
          else None
      end
  end.

(** ** Engine state *)
Record state : Type := MkState { log : Log; logErr : option ledger_error; world : W }.

Definition append (bind : Binding) (st : state) (e : Event) : state * option ledger_error :=
  let '(t, w1) := time_now (world st) in
  let '(o, w2) := next_write w1 in
  let '(l, err) := LogAppend o (log st) { e with ev_Time := t; ev_Binding := bind } in
  (MkState l (logErr st) w2, err).

(** [emit]: fail-closed, the first error stops every later event. *)
Definition emit (bind : Binding) (e : Event) (st : state) : state :=
  match logErr st with
  | Some _ => st
  | None => let '(st', err) := append bind st e in MkState (log st') err (world st')
  end.

(** [appendEvent], the gateway's channel: the error is dropped. *)
Definition appendEvent (bind : Binding) (st : state) (e : Event) : state := (append bind st e).1.

Definition finishStep (bind : Binding) (ok : bool) (e : Event) (doorCalls : Z) (st : state) : state :=
  emit bind { e with ev_Type := if ok then "step_succeeded" else "step_failed"; ev_DoorCalls := Some doorCalls } st.

(** ** One step *)
Record vars : Type := MkVars {
  artifacts : gmap string string;
  bounces : gmap string Z;
  lastSHA : string;
  lastPreview : string;
}.

(** What an iteration of the loop does next. *)
Inductive next : Type :=
  | Return (r : Result) (e : option run_error) (st : state)
  | Continue (i : nat) (v : vars) (st : state).

Definition zeroStep : Step := MkStep "" "" "" "" 0.

Fixpoint find_step (steps : list Step) (target : string) (j : nat) : option nat :=
  match steps with
  | [] => None
  | s :: r => if bool_decide (s_Name s = target) then Some j else find_step r target (S j)
  end.

Section run.
  Context (reg : Registry) (opts : Options) (input : string) (runID : string) (bind : Binding) (steps : list Step).

Definition failed (e : option run_error) (st : state) : next := Return (MkResult runID "failed" "" "") e st.

(** [return r, nil], or [ledgerFailed] when the event just emitted was lost. *)
Definition return_recorded (r : Result) (e : option run_error) (lost : ledger_error -> run_error) (st : state) : next :=
  match logErr st with
  | Some le => failed (Some (lost le)) st
  | None => Return r e st
  end.

Definition finish (status reason : string) (st : state) : state :=
  emit bind { zeroEvent with ev_Type := "workflow_finished"; ev_Status := status; ev_Reason := reason } st.

Definition cancelled (st : state) : next :=
  return_recorded (MkResult runID "cancelled" "" "") None ErrLedgerWrite (finish "cancelled" "run cancelled" st).

(** Start, Execute and Stop: [inl] when the gateway did not start. *)
Definition serve_step (fronted : bool) (agent : AgentDef) (v : vars) (st : state)
  : state + (StepResult * option exec_error * Z * state) :=
  let door st evs := if fronted then fold_left (appendEvent bind) evs st else st in
  let on_world st w := MkState (log st) (logErr st) w in
  let execute coord st :=
    let '(r, evs, w) := Execute (world st) coord bind agent input (artifacts v) in
    let st := door (on_world st w) evs in
    if fronted then
      let '(n, evs', w') := Stop (world st) in
      inr (r.1, r.2, n, door (on_world st w') evs')
    else inr (r.1, r.2, 0, st) in
  if fronted then
    let '(r, evs, w) := Start (world st) bind agent in
    let st := door (on_world st w) evs in
    match r with
    | Err _ => inl st
    | Ok c => execute (Some c) st
    end
  else execute None st.

Definition step_event (step : Step) (agent : AgentDef) : Event :=
  { zeroEvent with ev_Step := s_Name step; ev_Agent := a_Name agent; ev_Execution := EffectiveExecution agent }.

(** The failure tail of the body: terminal, cancellation, fail-back. *)
Definition fail_back (step : Step) (agent : AgentDef) (reason : string) (doorCalls : Z) (i : nat) (v : vars) (st : state) : next :=
  let st := finishStep bind false { step_event step agent with ev_Reason := reason } doorCalls st in
  let '(c, w) := ctx_err (world st) in
  let st := MkState (log st) (logErr st) w in
  if c then cancelled st
  else
    let target :=
      if bool_decide (s_OnFailure step = "") && (0 <? i)%nat then s_Name (nth (i - 1) steps zeroStep) else s_OnFailure step in
    let cap := if s_MaxBounces step =? 0 then defaultMaxBounces else s_MaxBounces step in
    let b := default 0 (bounces v !! s_Name step) + 1 in
    let v := MkVars (artifacts v) (<[s_Name step := b]> (bounces v)) (lastSHA v) (lastPreview v) in
    if bool_decide (target = "") || (cap <? b) then
      let reason :=
        if bool_decide (target = "") then reason
        else "step " +:+ quote (s_Name step) +:+ " exhausted its " +:+ itoa cap +:+ " bounce(s): " +:+ reason in
      return_recorded (MkResult runID "failed" "" "") None ErrLedgerWrite (finish "failed" reason st)
    else
      let st := emit bind { zeroEvent with ev_Type := "bounced_back"; ev_Step := s_Name step; ev_Status := target; ev_Reason := reason } st in
      Continue (default i (find_step steps target 0)) v st.

(** The success tail: store the artifact, record the terminal, go on. *)
Definition succeed (step : Step) (agent : AgentDef) (artifact : string) (doorCalls : Z) (i : nat) (v : vars) (st : state) : next :=
  let '(put, st) :=
    if bool_decide (artifact = "") then (Ok ("", ""), st)
    else let '(r, w) := store_put (world st) artifact in (r, MkState (log st) (logErr st) w) in
  match put with
  | Err perr =>
      let st := finishStep bind false { step_event step agent with ev_Reason := reasonArtifactStoreWriteFailed } doorCalls st in
      let st := finish "failed" ("artifact store: " +:+ perr) st in
      return_recorded (MkResult runID "failed" "" "") (Some (EArtifactStore perr)) (EArtifactStoreUnrecorded perr) st
  | Ok (sha, preview) =>
      let arts := if bool_decide (a_Output agent = "") then artifacts v else <[a_Output agent := artifact]> (artifacts v) in
      let st := finishStep bind true { step_event step agent with ev_Artifact := preview; ev_ArtifactSHA := sha } doorCalls st in
      Continue (S i) (MkVars arts (bounces v) sha preview) st
  end.

(** The loop body. *)
Definition run_step (i : nat) (v : vars) (st : state) : next :=
  match logErr st with
  | Some le => failed (Some (ErrLedgerWrite le)) st
  | None =>
      let '(c, w) := ctx_err (world st) in
      let st := MkState (log st) (logErr st) w in
      if c then cancelled st
      else
        let step := nth i steps zeroStep in
        let agent := default zeroAgent (Agent reg (s_Agent step)) in
        let st := emit bind { step_event step agent with ev_Type := "step_started" } st in
        let fronted := op_NewGateway opts && bool_decide (EffectiveExecution agent = "fronted") in
        match serve_step fronted agent v st with
        | inl st =>
            let st := finishStep bind false { step_event step agent with ev_Reason := "tool proxy start failed" } 0 st in
            return_recorded (MkResult runID "failed" "" "") None ErrLedgerWrite (finish "failed" "tool proxy start failed" st)
        | inr (res, execErr, doorCalls, st) =>
            match execErr with
            | Some e =>
                if ee_config e then
                  let st := finishStep bind false { step_event step agent with ev_Reason := ee_text e } doorCalls st in
                  return_recorded (MkResult runID "failed" "" "") None ErrLedgerWrite (finish "failed" (ee_text e) st)
                else fail_back step agent (ee_text e) doorCalls i v st
            | None =>
                if sr_Success res then succeed step agent (sr_Artifact res) doorCalls i v st
                else fail_back step agent (sr_Reason res) doorCalls i v st
            end
        end
  end.

(** [for i < len(wf.Steps)] and what follows the loop; [None] is fuel run
    out. *)
Fixpoint run_loop (fuel : nat) (i : nat) (v : vars) (st : state) : option (Result * option run_error * state) :=
  match fuel with
  | O => None
  | S f =>
      if (i <? length steps)%nat then
        match run_step i v st with
        | Return r e st => Some (r, e, st)
        | Continue i v st => run_loop f i v st
        end
      else
        match return_recorded (MkResult runID "succeeded" (lastSHA v) (lastPreview v)) None ErrLedgerWrite
                (finish "succeeded" "" st) with
        | Return r e st => Some (r, e, st)
        | Continue _ _ _ => None
        end
  end.

(** Every step can bounce its cap's worth of times; each bounce starts at
    most one more pass over the steps. *)
Definition step_cap (s : Step) : nat := Z.to_nat (if s_MaxBounces s =? 0 then defaultMaxBounces else s_MaxBounces s).
Definition run_fuel : nat := S (S (sum_nat (map step_cap steps)) * S (length steps)).

End run.

(** ** [Run] and [RecordRefused] *)
Definition new_id (given : string) (w : W) : string * W :=
  if bool_decide (given = "") then let '(r, w) := rand8 w in (NewRunID r, w) else (given, w).

Definition root_binding (inv : Invoker) (role workflow runID : string) (parent : ptr Binding) : Binding :=
  linkedTo (MkBinding inv role workflow runID "" 0) parent.

Definition refused_event (reason : string) (o : ptr Origin) : Event :=
  { zeroEvent with ev_Type := "run_refused"; ev_Reason := reason; ev_Origin := Sanitized is_print o }.

(** [disk] is what is at the run's log path, [e] how its creation goes; the
    result carries the state after the run, [None] when no log was opened. *)
Definition Run (reg : Registry) (role workflow input : string) (inv : Invoker) (opts : Options)
    (e : open_env) (disk : option string) (w : W) : option (Result * option run_error * option state) :=
  let '(runID, w) := new_id (op_RunID opts) w in
  let bind := root_binding inv role workflow runID (op_Parent opts) in
  match OpenLog e disk with
  | (Err x, _) => Some (MkResult runID "failed" "" "", Some (EOpenLog x), None)
  | (Ok l, _) =>
      let '(opened, w) := store_open w in
      let st := MkState l None w in
      match opened with
      | Err x => Some (MkResult runID "failed" "" "", Some (EStoreOpen x), Some st)
      | Ok _ =>
          match Admit reg role workflow inv with
          | Some reason =>
              let st := emit bind (refused_event reason (op_Origin opts)) st in
              let err := match logErr st with
                         | Some le => ERefusedUnrecorded reason le
                         | None => ERefused reason
                         end in
              Some (MkResult runID "refused" "" "", Some err, Some st)
          | None =>
              let wf := default (MkWorkflow "" [] "") (Workflow reg workflow) in
              let st := emit bind { zeroEvent with ev_Type := "workflow_started"; ev_ConfigHash := op_ConfigHash opts;
                                    ev_Origin := Sanitized is_print (op_Origin opts);
                                    ev_DoorAccounting := DoorAccountingAdmission } st in
              match run_loop reg opts input runID bind (w_Steps wf) (run_fuel (w_Steps wf)) 0 (MkVars ∅ ∅ "" "") st with
              | None => None
              | Some (r, err, st) => Some (r, err, Some st)
              end
          end
      end
  end.

Definition RecordRefused (opts : Options) (inv : Invoker) (role workflow reason : string)
    (e : open_env) (disk : option string) (w : W) : string * option run_error * option state :=
  let '(runID, w) := new_id (op_RunID opts) w in
  match OpenLog e disk with
  | (Err x, _) => (runID, Some (EOpenLog x), None)
  | (Ok l, _) =>
      let bind := root_binding inv role workflow runID (op_Parent opts) in
      let '(st, err) := append bind (MkState l None w) (refused_event reason (op_Origin opts)) in
      (runID, match err with Some x => Some (EAppend x) | None => None end, Some st)
  end.

Definition Refuse (role workflow : string) (inv : Invoker) (reason : string) (parent : ptr Binding) :=
  RecordRefused (MkOptions "" false parent "" None) inv role workflow reason.

(** ** Termination *)
Definition room (bs : gmap string Z) (s : Step) : nat :=
  Z.to_nat ((if s_MaxBounces s =? 0 then defaultMaxBounces else s_MaxBounces s) - default 0 (bs !! s_Name s)).

Definition rooms (steps : list Step) (bs : gmap string Z) : nat := sum_nat (map (room bs) steps).

Lemma room_insert_le bs s0 b s : default 0 (bs !! s0) <= b -> (room (<[s0 := b]> bs) s <= room bs s)%nat.
Proof.
  intros Hb. unfold room. destruct (decide (s_Name s = s0)) as [<-|].
  - rewrite lookup_insert_eq. cbn. lia.
  - by rewrite lookup_insert_ne.
Qed.

(** A bounce uses up room of the step that bounced. *)
Lemma rooms_bounce steps bs i s :
  steps !! i = Some s ->
  let b := default 0 (bs !! s_Name s) + 1 in
  b <= (if s_MaxBounces s =? 0 then defaultMaxBounces else s_MaxBounces s) ->
  (S (rooms steps (<[s_Name s := b]> bs)) <= rooms steps bs)%nat.
Proof.
  intros Hi b Hb. revert i Hi. induction steps as [|x l IH]; [done|]. intros [|i] Hi; cbn in Hi; unfold rooms; cbn [map sum_nat].
  - simplify_eq. assert (sum_nat (map (room (<[s_Name s:=b]> bs)) l) <= sum_nat (map (room bs) l))%nat.
    { clear -b. induction l as [|y l IH]; [done|]. cbn [map sum_nat].
      pose proof (room_insert_le bs (s_Name s) b y ltac:(unfold b; lia)). lia. }
    assert (S (room (<[s_Name s:=b]> bs) s) <= room bs s)%nat; [|lia].
    unfold room. rewrite lookup_insert_eq. change (default 0 (Some b)) with b. unfold b in *. lia.
  - specialize (IH i Hi). unfold rooms in IH. pose proof (room_insert_le bs (s_Name s) b x ltac:(unfold b; lia)). lia.
Qed.

Lemma find_step_lt steps target j k : find_step steps target j = Some k -> (j <= k < j + length steps)%nat.
Proof.
  revert j; induction steps as [|s r IH]; [done|]. intros j. cbn. case_bool_decide; [intros [= ->]; lia|].
  intros ?%IH. lia.
Qed.

Lemma return_recorded_not_continue runID r e f st i v st' : return_recorded runID r e f st <> Continue i v st'.
Proof. unfold return_recorded, failed. by destruct (logErr st). Qed.

(** An iteration that goes on either advances or uses up a bounce. *)
Lemma run_step_progress reg opts input runID bind steps i v st i' v' st' :
  (i < length steps)%nat -> run_step reg opts input runID bind steps i v st = Continue i' v' st' ->
  (i' = S i /\ bounces v' = bounces v) \/
  ((i' < length steps)%nat /\ (S (rooms steps (bounces v')) <= rooms steps (bounces v))%nat).
Proof.
  intros Hi. assert (Hs : exists s, steps !! i = Some s /\ nth i steps zeroStep = s).
  { destruct (lookup_lt_is_Some_2 steps i Hi) as [s Hs]. exists s. split; [done|]. by apply nth_lookup_Some. }
  destruct Hs as (s & Hs & Hn). unfold run_step. rewrite Hn.
  assert (HF : forall agent reason n st, fail_back runID bind steps s agent reason n i v st = Continue i' v' st' ->
    (i' < length steps)%nat /\ (S (rooms steps (bounces v')) <= rooms steps (bounces v))%nat).
  { intros agent reason n st1. unfold fail_back. destruct (ctx_err _) as [c w]. destruct c.
    { unfold cancelled. by intros ?%return_recorded_not_continue. }
    match goal with |- context [if ?b || ?c then _ else _] => destruct b; [by intros ?%return_recorded_not_continue|] end.
    destruct (Z.ltb_spec (if s_MaxBounces s =? 0 then defaultMaxBounces else s_MaxBounces s)
                (default 0 (bounces v !! s_Name s) + 1)); [by intros ?%return_recorded_not_continue|].
    intros [= <- <- _]. cbn [bounces]. split; [|by eapply rooms_bounce].
    match goal with |- context [find_step steps ?t 0] => destruct (find_step steps t 0) as [k|] eqn:Ek end; [|done].
    apply find_step_lt in Ek. cbn. lia. }
  destruct (logErr st); [done|]. destruct (ctx_err _) as [c w]. destruct c.
  { unfold cancelled. by intros ?%return_recorded_not_continue. }
  destruct (serve_step _ _ _ _ _ _) as [st1|[[[res execErr] n] st1]].
  { by intros ?%return_recorded_not_continue. }
  destruct execErr as [e|].
  { destruct (ee_config e); [by intros ?%return_recorded_not_continue|]. intros ?%HF. by right. }
  destruct (sr_Success res); [|intros ?%HF; by right]. unfold succeed. intros Hc. left. revert Hc.
  destruct (bool_decide (sr_Artifact res = "")).
  - by intros [= <- <- _].
  - destruct (store_put _ _) as [[[sha preview]|perr] w']; [by intros [= <- <- _]|].
    by intros ?%return_recorded_not_continue.
Qed.

Lemma run_loop_total reg opts input runID bind steps fuel i v st :
  (rooms steps (bounces v) * S (length steps) + (length steps - i) < fuel)%nat ->
  is_Some (run_loop reg opts input runID bind steps fuel i v st).
Proof.
  revert i v st; induction fuel as [|fuel IH]; intros i v st Hf; [lia|]. cbn [run_loop].
  destruct (Nat.ltb_spec i (length steps)) as [Hi|Hi].
  - destruct (run_step reg opts input runID bind steps i v st) as [r e st'|i' v' st'] eqn:E; [by eexists|].
    apply run_step_progress in E as [[-> Hb]|[Hlt Hr]]; [..|done]; apply IH.
    + rewrite Hb. lia.
    + nia.
  - unfold return_recorded, failed. destruct (logErr _); by eexists.
Qed.

Lemma run_fuel_enough reg opts input runID bind steps st :
  is_Some (run_loop reg opts input runID bind steps (run_fuel steps) 0 (MkVars ∅ ∅ "" "") st).
Proof.
  apply run_loop_total. cbn [bounces]. unfold run_fuel.
  assert (rooms steps ∅ = sum_nat (map step_cap steps)) as ->; [|nia].
  unfold rooms. f_equal. apply map_ext. intros s. unfold room, step_cap. rewrite lookup_empty. cbn. lia.
Qed.

(** C3: a run always ends: whatever the executor, the gateway, the context,
    the clock and the disk do, [Run] returns.  (The model's fuel, one pass per
    allowed bounce, is never exhausted.) *)
Theorem run_total (reg : Registry) (role workflow input : string) (inv : Invoker) (opts : Options)
    (oe : open_env) (disk : option string) (w : W) :
  is_Some (Run reg role workflow input inv opts oe disk w).
Proof.
  unfold Run. destruct (new_id _ w) as [runID w1]. destruct (OpenLog oe disk) as [[l|x] d]; [|by eexists].
  destruct (store_open w1) as [[u|x] w2]; [|by eexists]. destruct (Admit reg role workflow inv); [by eexists|].
  set (st := emit _ _ _). set (bind := root_binding _ _ _ _ _).
  destruct (run_fuel_enough reg opts input runID bind (w_Steps (default (MkWorkflow "" [] "") (Workflow reg workflow))) st)
    as [[[r e] st'] Hr]. rewrite Hr. by eexists.
Qed.

(** A caller that decides a refusal itself leaves the same record: when
    the gate refuses, [RecordRefused] with its reason and [Run] write the very
    same log (bytes, head and events) and name the same run, and [Run] starts
    nothing. *)
Theorem record_refused_is_runs_refusal (reg : Registry) (role workflow input reason : string) (inv : Invoker) (opts : Options)
    (oe : open_env) (disk : option string) (w : W)
    (Hadm : Admit reg role workflow inv = Some reason) (Hstore : forall w, store_open w = (Ok (), w)) :
  match Run reg role workflow input inv opts oe disk w, RecordRefused opts inv role workflow reason oe disk w with
  | Some (r, Some e, st), (id, e', st') =>
      res_RunID r = id /\ log <$> st = log <$> st' /\
      match e' with
      | None => res_Status r = "refused" /\ e = ERefused reason
      | Some (EAppend le) => res_Status r = "refused" /\ e = ERefusedUnrecorded reason le
      | Some x => res_Status r = "failed" /\ e = x
      end
  | _, _ => False
  end.
Proof.
  unfold Run, RecordRefused. destruct (new_id _ w) as [runID w1]. destruct (OpenLog oe disk) as [[l|x] d]; [|done].
  rewrite Hstore, Hadm. unfold emit. cbn [logErr].
  destruct (append _ _ _) as [st err]. cbn [logErr log]. by destruct err.
Qed.

End engine.

(** ** A small concrete world

    One door call per fronted step, answers taken from a script, a disk that
    accepts every write.  The theorems' witnesses run the engine in it. *)
Record toy : Type := MkToy { toy_script : list (StepResult * option exec_error); toy_seen : bool }.

Definition toy_door : Event := { zeroEvent with ev_Type := "tool_call"; ev_Tool := "search" }.

#[local] Instance toy_text : GoText := {| is_print := fun z => 32 <=? z; quote := fun s => s |}.

#[global] Instance toy_host : Host toy := {|
  next_write := fun w => (WriteOk, w);
  time_now := fun w => (ex_time, w);
  ctx_err := fun w => (false, w);
  rand8 := fun w => ("abcdefgh", w);
  store_open := fun w => (Ok (), w);
  store_put := fun w body => (Ok (sha256_hex body, body), w);
|}.

#[global] Instance toy_executor : StepExecutor toy := {|
  Execute := fun w _ _ _ _ _ =>
    let r := match toy_script w with x :: _ => x | [] => (MkStepResult "done" true "", None) end in
    (r, if toy_seen w then [] else [toy_door], MkToy (drop 1 (toy_script w)) true);
|}.

#[global] Instance toy_gateway : ToolProxy toy := {|
  Start := fun w _ _ => (Ok ("http://proxy", "token"), [], MkToy (toy_script w) false);
  Stop := fun w => (if toy_seen w then 1 else 0, [], w);
|}.

(** The second step fails once and bounces back to the first. *)
Definition toy_world : toy :=
  MkToy [(MkStepResult "plan" true "", None); (MkStepResult "" false "flaky", None)] false.
Definition toy_options : Options := MkOptions "cfg" true None "r-1" None.
Definition toy_invoker : Invoker := MkInvoker "ann" "idp" "oidc" ["eng"].

Lemma ex_refusal : Admit ex_registry "ops" "main" toy_invoker = Some "role ops does not own workflow main".
Proof. vm_compute. reflexivity. Qed.

Lemma record_refused_is_runs_refusal_witness :
  let reason := "role ops does not own workflow main" in
  exists r st, Run ex_registry "ops" "main" "hi" toy_invoker toy_options ex_env None toy_world = Some (r, Some (ERefused reason), st) /\
    log <$> st = log <$> (RecordRefused toy_options toy_invoker "ops" "main" reason ex_env None toy_world).2.
Proof.
  intros reason. pose proof (record_refused_is_runs_refusal ex_registry "ops" "main" "hi" reason
    toy_invoker toy_options ex_env None toy_world ex_refusal (fun _ => eq_refl)) as Hx.
  assert (E : exists r st, Run ex_registry "ops" "main" "hi" toy_invoker toy_options ex_env None toy_world
    = Some (r, Some (ERefused reason), st)) by (eexists _, _; vm_compute; reflexivity).
  destruct E as (r & st & E). rewrite E in Hx. exists r, st. split; [exact E|].
  destruct (RecordRefused _ _ _ _ _ _ _ _) as [[id e'] st']. exact (proj1 (proj2 Hx)).
Defined.
