(* ===== verification/EngineTrace.v ===== *)
(** * What a run records ([internal/engine/engine.go])

    The grammar of a run ledger and the theorems that relate the engine to
    it: every run ends; a run that reports no ledger error has recorded a
    trace of the grammar that agrees with the status it returns; a lost event
    is never papered over.  [R] relates the count a step's terminal carries to
    the number of door events recorded in its window, so one proof serves the
    engine in an arbitrary world ([R] trivial) and with a gateway that keeps
    its contract ([R] equality). *)
From S2P Require Import Prelude Sha256 GoStr Json Ledger Config Authz Origin Paths Registry Event Engine.

(** ** The grammar *)
Definition door_types : list string := ["tool_call"; "model_call"; "exec"; "spawn"].

(** [terminalConsistent] as a relation: which lifecycle event may precede the
    final one. *)
Definition final_after (status prev : string) : Prop :=
  (status = "succeeded" /\ prev = "step_succeeded") \/
  (status = "failed" /\ prev = "step_failed") \/
  (status = "cancelled" /\ prev ∈ ["workflow_started"; "step_succeeded"; "step_failed"; "bounced_back"]).

Section grammar.
  Context (D : Event -> Prop) (R : Z -> nat -> Prop).

(** [walk p tr q n]: from last lifecycle event [p], the complete step windows
    and bounces of [tr] lead to [q] and hold [n] door events. *)
Inductive walk (p : string) : list Event -> string -> nat -> Prop :=
  | walk_nil : walk p [] p 0
  | walk_window tr q n s ds t k :
      walk p tr q n ->
      ev_Type s = "step_started" -> Forall D ds ->
      ev_Type t = "step_succeeded" \/ ev_Type t = "step_failed" ->
      ev_Step t = ev_Step s -> ev_DoorCalls t = Some k -> R k (length ds) ->
      walk p (tr ++ s :: ds ++ [t]) (ev_Type t) (n + length ds)
  | walk_bounce tr n b :
      walk p tr "step_failed" n -> ev_Type b = "bounced_back" ->
      walk p (tr ++ [b]) "bounced_back" n.

(** A finished run: its start, its windows, its end. *)
Definition finished_run (tr : list Event) (status : string) (n : nat) : Prop :=
  exists s body f q, tr = s :: body ++ [f] /\
    ev_Type s = "workflow_started" /\ ev_DoorAccounting s <> "" /\
    walk "workflow_started" body q n /\
    ev_Type f = "workflow_finished" /\ ev_Status f = status /\ final_after status q.

End grammar.

Lemma walk_mono (D D' : Event -> Prop) (R R' : Z -> nat -> Prop) p tr q n :
  (forall e, D e -> D' e) -> (forall k m, R k m -> R' k m) -> walk D R p tr q n -> walk D' R' p tr q n.
Proof.
  intros HD HR. induction 1 as [|tr q n s ds t k _ IH Hs Hds Ht Hst Hk HRk|tr n b _ IH Hb].
  - constructor.
  - eapply walk_window; eauto. by eapply Forall_impl.
  - by constructor.
Qed.

(** ** Appending events *)
Section trace.
  Context `{GoText} {W : Type} `{Host W} `{StepExecutor W} `{ToolProxy W}.

Abbreviation hist st := (l_hist (log st)).

(** [e'] is [e] as the log keeps it: stamped with a time, the binding and the
    chain link. *)
Definition stamped (bind : Binding) (e e' : Event) : Prop :=
  exists t p, e' = { { e with ev_Time := t; ev_Binding := bind } with ev_Prev := p }.

Lemma append_cases bind (st : state) e st' err :
  append bind st e = (st', err) ->
  logErr st' = logErr st /\
  ((err = None /\ exists e', stamped bind e e' /\ hist st' = hist st ++ [e']) \/
   (exists x, err = Some x /\ hist st' = hist st)).
Proof.
  unfold append. destruct (time_now _) as [t w1]. destruct (next_write w1) as [o w2].
  unfold LogAppend. destruct (Append o _ _) as [c er]. intros [= <- <-]. split; [done|]. cbn [log l_hist].
  destruct er as [x|]; [right; by exists x|left]. split; [done|]. eexists. split; [|done]. by eexists _, _.
Qed.

Lemma emit_cases bind e (st : state) :
  logErr st = None ->
  (logErr (emit bind e st) = None /\ exists e', stamped bind e e' /\ hist (emit bind e st) = hist st ++ [e']) \/
  is_Some (logErr (emit bind e st)).
Proof.
  intros Hn. unfold emit. rewrite Hn. destruct (append bind st e) as [st' err] eqn:E.
  apply append_cases in E as [_ [[-> H']|(x & -> & H')]]; [left|right]; [done|by eexists].
Qed.

Lemma emit_stuck bind e (st : state) x : logErr st = Some x -> emit bind e st = st.
Proof. intros Hx. unfold emit. by rewrite Hx. Qed.

Lemma doors_cases bind evs (st : state) :
  exists es ds, es `sublist_of` evs /\ Forall2 (stamped bind) es ds /\
    hist (fold_left (appendEvent bind) evs st) = hist st ++ ds /\
    logErr (fold_left (appendEvent bind) evs st) = logErr st.
Proof.
  revert st; induction evs as [|e evs IH]; intros st; cbn [fold_left].
  { exists [], []. by rewrite app_nil_r. }
  destruct (IH (appendEvent bind st e)) as (es & ds & Hsub & HF & -> & ->). unfold appendEvent.
  destruct (append bind st e) as [st' err] eqn:E. cbn [fst].
  apply append_cases in E as [-> [[_ (e' & Hst & ->)]|(x & _ & ->)]].
  - exists (e :: es), (e' :: ds). rewrite <- app_assoc. split_and!; [by constructor|by constructor|done|done].
  - exists es, ds. split_and!; [by constructor|done..].
Qed.

(** The events the engine emits itself: no field but the door count is a
    number, and that count satisfies [K]. *)
Definition engine_event (K : Z -> Prop) (e : Event) : Prop :=
  ev_ExitCode e = None /\ ev_PromptTokens e = None /\ ev_CompletionTokens e = None /\ ev_Depth e = 0 /\
  ev_RuntimeAttestation e = None /\ match ev_DoorCalls e with Some k => K k | None => True end.

(** ** The walk of a run *)
Section run.
  Context (D : Event -> Prop) (R : Z -> nat -> Prop) (K : Z -> Prop) (G : state (W := W) -> Prop).
  Context (reg : Registry) (opts : Options) (input runID : string) (bind : Binding) (steps : list Step).

  (** [G] is an invariant of the engine's states under the events the engine
      itself emits, and under it a served step records door events that satisfy
      [D], in a number [R] relates to the count the engine reads, a count that
      satisfies [K]. *)
  Hypothesis G_emit : forall e st, engine_event K e -> G st -> G (emit bind e st).
  Hypothesis G_ctx : forall st, G st -> G (MkState (log st) (logErr st) (ctx_err (world st)).2).
  Hypothesis G_put : forall st a, G st -> G (MkState (log st) (logErr st) (store_put (world st) a).2).
  Hypothesis G_serve : forall fronted agent v st, G st ->
    let ok k st' := logErr st' = logErr st /\ G st' /\ K k /\
      exists ds, hist st' = hist st ++ ds /\ Forall D ds /\ R k (length ds) in
    match serve_step input bind fronted agent v st with
    | inl st' => ok 0 st'
    | inr (_, _, k, st') => ok k st'
    end.

Definition start_ok (s : Event) : Prop := ev_Type s = "workflow_started" /\ ev_DoorAccounting s <> "".

(** Between steps: the windows so far, the last lifecycle event [p], and, when
    that is a success, the artifact the variables remember. *)
Definition between (p : string) (v : vars) (st : state (W := W)) : Prop :=
  logErr st = None -> exists s body n, hist st = s :: body /\ start_ok s /\ walk D R "workflow_started" body p n /\
    (p = "step_succeeded" -> exists body' t, body = body' ++ [t] /\ ev_Type t = "step_succeeded" /\
       ev_ArtifactSHA t = lastSHA v /\ ev_Artifact t = lastPreview v).

(** Inside a step's window, with [ds] recorded. *)
Definition within (name : string) (ok : nat -> Prop) (st : state (W := W)) : Prop :=
  logErr st = None -> exists s body p n x ds, hist st = s :: body ++ x :: ds /\ start_ok s /\
    walk D R "workflow_started" body p n /\ ev_Type x = "step_started" /\ ev_Step x = name /\ Forall D ds /\ ok (length ds).

Lemma open_window p v name e st :
  between p v st -> ev_Type e = "step_started" -> ev_Step e = name ->
  within name (fun m => m = O) (emit bind e st).
Proof.
  intros Hb Ht Hn Hl. destruct (logErr st) as [x|] eqn:E; [rewrite (emit_stuck _ _ _ x) in Hl by done; congruence|].
  destruct (emit_cases bind e st E) as [[_ (e' & (t & q & ->) & Hh)]|[x Hx]]; [|congruence].
  destruct (Hb E) as (s & body & n & Hs & Hst & Hw & _). rewrite Hh, Hs.
  eexists s, body, p, n, _, []. split_and!; [done|done|done|exact Ht|exact Hn|constructor|done].
Qed.

Lemma serve_window name k st st' :
  within name (fun m => m = O) st -> logErr st' = logErr st ->
  (exists ds, hist st' = hist st ++ ds /\ Forall D ds /\ R k (length ds)) -> within name (R k) st'.
Proof.
  intros Hw El (ds & Hh & HD & HR) Hl. rewrite El in Hl.
  destruct (Hw Hl) as (s & body & p & n & x & ds0 & Hs & Hst & Hwk & Hx & Hn & _ & Hz).
  destruct ds0; [|done]. exists s, body, p, n, x, ds. rewrite Hh, Hs.
  split_and!; [|done..]. cbn. by rewrite <- app_assoc.
Qed.

Lemma close_window name k ok e v st :
  within name (R k) st -> ev_Step e = name ->
  (ok = true -> ev_ArtifactSHA e = lastSHA v /\ ev_Artifact e = lastPreview v) ->
  between (if ok then "step_succeeded" else "step_failed") v (finishStep bind ok e k st).
Proof.
  intros Hw Hn Ha Hl. unfold finishStep in *. set (e1 := apply_update _ _) in *.
  destruct (logErr st) as [x|] eqn:E; [rewrite (emit_stuck _ _ _ x) in Hl by done; congruence|].
  destruct (emit_cases bind e1 st E) as [[_ (e' & (t & q & ->) & Hh)]|[x Hx]]; [|congruence].
  destruct (Hw E) as (s & body & p & n & x & ds & Hs & Hst & Hwk & Hx & Hxn & HD & HR).
  set (e2 := apply_update _ _) in Hh. rewrite Hh, Hs.
  assert (Ht : ev_Type e2 = if ok then "step_succeeded" else "step_failed") by done.
  exists s, (body ++ x :: ds ++ [e2]), (n + length ds)%nat. split_and!.
  - cbn. f_equal. rewrite <- app_assoc. done.
  - done.
  - rewrite <- Ht. eapply walk_window; [done..| | | |done]; [rewrite Ht; destruct ok; auto|by rewrite Hxn|done].
  - intros Hp. destruct ok; [|done]. exists (body ++ x :: ds), e2. rewrite <- app_assoc.
    destruct (Ha eq_refl). by split_and!.
Qed.

Lemma bounce_between v v' e st :
  between "step_failed" v st -> ev_Type e = "bounced_back" -> between "bounced_back" v' (emit bind e st).
Proof.
  intros Hb Ht Hl. destruct (logErr st) as [x|] eqn:E; [rewrite (emit_stuck _ _ _ x) in Hl by done; congruence|].
  destruct (emit_cases bind e st E) as [[_ (e' & (t & q & ->) & Hh)]|[x Hx]]; [|congruence].
  destruct (Hb E) as (s & body & n & Hs & Hst & Hw & _). rewrite Hh, Hs.
  eexists s, (body ++ [_]), n. split_and!; [done|done|by constructor|done].
Qed.

Lemma walk_prev body p n : walk D R "workflow_started" body p n ->
  p ∈ ["workflow_started"; "step_succeeded"; "step_failed"; "bounced_back"].
Proof.
  destruct 1 as [|tr q n s ds t k _ _ _ [Ht|Ht]|]; rewrite ?Ht; rewrite !elem_of_cons; tauto.
Qed.

(** The error a lost event must surface as. *)
Definition reports_loss (le : ledger_error) (e : option run_error) : Prop :=
  e = Some (ErrLedgerWrite le) \/ exists t, e = Some (EArtifactStoreUnrecorded t le).

(** What [Run] owes its caller once the workflow has started. *)
Definition done_ok (r : Result) (e : option run_error) (st : state (W := W)) : Prop :=
  match logErr st with
  | Some le => res_Status r = "failed" /\ reports_loss le e
  | None =>
      (exists n, finished_run D R (hist st) (res_Status r) n) /\
      (e = None \/ exists t, e = Some (EArtifactStore t)) /\
      (res_Status r = "succeeded" -> exists tr t f, hist st = tr ++ [t; f] /\ ev_Type t = "step_succeeded" /\
         ev_ArtifactSHA t = res_OutputSHA r /\ ev_Artifact t = res_OutputPreview r)
  end.

Lemma finish_done p v status reason r e lost st r' e' st' :
  between p v st -> final_after status p -> res_Status r = status ->
  (e = None \/ exists t, e = Some (EArtifactStore t)) ->
  (forall le, reports_loss le (Some (lost le))) ->
  (status = "succeeded" -> res_OutputSHA r = lastSHA v /\ res_OutputPreview r = lastPreview v) ->
  return_recorded runID r e lost (finish bind status reason st) = Return r' e' st' ->
  done_ok r' e' st' /\ st' = finish bind status reason st.
Proof.
  intros Hb Hf Hr He Hlost Hout. unfold return_recorded, failed, done_ok.
  destruct (logErr (finish bind status reason st)) as [le|] eqn:El; intros [= <- <- <-].
  { split; [|done]. rewrite El. split; [done|apply Hlost]. }
  split; [|done]. rewrite El. unfold finish in *. set (e0 := apply_update _ _) in *.
  destruct (logErr st) as [x|] eqn:E; [rewrite (emit_stuck _ _ _ x) in El by done; congruence|].
  destruct (emit_cases bind e0 st E) as [[_ (e' & (t & q & ->) & Hh)]|[x Hx]]; [|congruence].
  destruct (Hb E) as (s & body & n & Hs & [Hst1 Hst2] & Hw & Hlast). rewrite Hh, Hs. split_and!; [|done|].
  - exists n. eexists s, body, _, p. rewrite Hr. split_and!; [done|done|done|done|done|done|done].
  - intros Hsucc. rewrite Hr in Hsucc.
    assert (p = "step_succeeded") as -> by (destruct Hf as [[_ ?]|[[? _]|[? _]]]; congruence).
    destruct (Hlast eq_refl) as (body' & t' & -> & Ht' & H1' & H2'). destruct (Hout Hsucc) as [-> ->].
    exists (s :: body'), t'. eexists. split_and!; [|done..]. cbn. by rewrite <- app_assoc.
Qed.

Definition step_done (x : next (W := W)) : Prop :=
  match x with
  | Return r e st => done_ok r e st /\ G st
  | Continue i v st => G st /\ exists p, between p v st /\ (p = "step_succeeded" \/ (i < length steps)%nat)
  end.

Lemma return_done p v status reason r e lost st :
  G st -> between p v st -> final_after status p -> res_Status r = status ->
  (e = None \/ exists t, e = Some (EArtifactStore t)) ->
  (forall le, reports_loss le (Some (lost le))) -> (status = "succeeded" -> res_OutputSHA r = lastSHA v /\ res_OutputPreview r = lastPreview v) ->
  step_done (return_recorded runID r e lost (finish bind status reason st)).
Proof.
  intros HG Hb Hf Hr He Hl Ho.
  destruct (return_recorded runID r e lost (finish bind status reason st)) as [r' e' st'|? ? ?] eqn:E.
  - destruct (finish_done _ _ _ _ _ _ _ _ _ _ _ Hb Hf Hr He Hl Ho E) as [? ->]. split; [done|]. by apply G_emit.
  - by apply return_recorded_not_continue in E.
Qed.

Lemma failed_after p : p = "step_failed" -> final_after "failed" p.
Proof. intros ->. right; left. done. Qed.

Lemma lost_write le : reports_loss le (Some (ErrLedgerWrite le)).
Proof. by left. Qed.

Lemma cancelled_done p v st : G st -> between p v st -> p ∈ ["workflow_started"; "step_succeeded"; "step_failed"; "bounced_back"] ->
  step_done (cancelled runID bind st).
Proof.
  intros HG Hb Hp. eapply return_done; [done|exact Hb|right; right; done|done|by left|apply lost_write|done].
Qed.

Lemma fail_back_done step agent reason k i v st :
  (i < length steps)%nat -> G st -> K k -> within (s_Name step) (R k) st ->
  step_done (fail_back runID bind steps step agent reason k i v st).
Proof.
  intros Hi HG HK Hw. unfold fail_back. set (e := apply_update _ (step_event step agent)).
  assert (Hb : between "step_failed" v (finishStep bind false e k st)) by (by apply (close_window (s_Name step))).
  assert (HG' : G (finishStep bind false e k st)) by (by apply G_emit).
  set (st1 := finishStep bind false e k st) in *. pose proof (G_ctx st1 HG') as HG1.
  destruct (ctx_err (world st1)) as [c w]. cbn [snd] in HG1.
  set (st2 := MkState (log st1) (logErr st1) w) in *. assert (Hb2 : between "step_failed" v st2) by exact Hb.
  destruct c; [by eapply cancelled_done; [done|exact Hb2|rewrite !elem_of_cons; tauto]|].
  match goal with |- context [if ?b then return_recorded _ _ _ _ _ else _] => destruct b end.
  - eapply return_done; [done|exact Hb2|by apply failed_after|done|by left|apply lost_write|done].
  - split; [by apply G_emit|]. exists "bounced_back". split; [by eapply bounce_between|]. right.
    match goal with |- context [find_step steps ?t 0] => destruct (find_step steps t 0) as [j|] eqn:Ej end; [|done].
    apply find_step_lt in Ej. cbn. lia.
Qed.

Lemma succeed_done step agent artifact k i v st :
  G st -> K k -> within (s_Name step) (R k) st ->
  step_done (succeed runID bind step agent artifact k i v st).
Proof.
  intros HG HK Hw. unfold succeed.
  assert (Hcont : forall sha preview st', G st' -> within (s_Name step) (R k) st' ->
    let arts := if bool_decide (a_Output agent = "") then artifacts v else <[a_Output agent := artifact]> (artifacts v) in
    step_done (Continue (S i) (MkVars arts (bounces v) sha preview)
      (finishStep bind true (apply_update (mk_update ev_ArtifactSHA (constant sha))
        (apply_update (mk_update ev_Artifact (constant preview)) (step_event step agent))) k st'))).
  { intros sha preview st' HG' Hw' arts. split; [by apply G_emit|]. exists "step_succeeded". split; [|by left].
    by apply (close_window (s_Name step) k true). }
  destruct (bool_decide (artifact = "")); [by apply Hcont|].
  pose proof (G_put st artifact HG) as HGp. destruct (store_put (world st) artifact) as [put w]. cbn [snd] in HGp.
  destruct put as [[sha preview]|perr]; [by apply Hcont|].
  set (e := apply_update _ (step_event step agent)). set (st1 := MkState (log st) (logErr st) w) in *.
  eapply (return_done "step_failed" v); [by apply G_emit| |by apply failed_after|done|right; by eexists| |done].
  - by apply (close_window (s_Name step)).
  - intros le. right. by eexists.
Qed.

Lemma run_step_done p i v st :
  (i < length steps)%nat -> G st -> between p v st -> step_done (run_step reg opts input runID bind steps i v st).
Proof.
  intros Hi HG Hb. unfold run_step. destruct (logErr st) as [le|] eqn:El.
  { split; [|done]. unfold done_ok. rewrite El. split; [done|by left]. }
  pose proof (G_ctx st HG) as HG1. destruct (ctx_err (world st)) as [c w]. cbn [snd] in HG1. rewrite El in HG1.
  set (st1 := MkState (log st) None w) in *. assert (Hb1 : between p v st1) by (intros _; apply Hb, El).
  destruct c.
  { eapply cancelled_done; [done|exact Hb1|]. destruct (Hb El) as (? & ? & ? & _ & _ & Hw & _). by eapply walk_prev. }
  set (step := nth i steps zeroStep). set (agent := default zeroAgent (Agent reg (s_Agent step))).
  set (e := apply_update _ (step_event step agent)).
  assert (Hw : within (s_Name step) (fun m => m = O) (emit bind e st1)) by (by eapply open_window).
  pose proof (G_serve (op_NewGateway opts && bool_decide (EffectiveExecution agent = "fronted")) agent v
    (emit bind e st1) (G_emit e st1 ltac:(done) HG1)) as Hs. cbv zeta in Hs.
  destruct (serve_step _ _ _ _ _ _) as [st2|[[[res execErr] k] st2]]; destruct Hs as (El2 & HG2 & HK & Hds);
    pose proof (serve_window _ _ _ _ Hw El2 Hds) as Hw2.
  { eapply (return_done "step_failed" v); [by apply G_emit| |by apply failed_after|done|by left|apply lost_write|done].
    by apply (close_window (s_Name step)). }
  destruct execErr as [x|].
  - destruct (ee_config x); [|by apply fail_back_done].
    eapply (return_done "step_failed" v); [by apply G_emit| |by apply failed_after|done|by left|apply lost_write|done].
    by apply (close_window (s_Name step)).
  - destruct (sr_Success res); [by apply succeed_done|by apply fail_back_done].
Qed.

Lemma run_loop_done fuel p i v st r e st' :
  G st -> between p v st -> (p = "step_succeeded" \/ (i < length steps)%nat) ->
  run_loop reg opts input runID bind steps fuel i v st = Some (r, e, st') -> done_ok r e st' /\ G st'.
Proof.
  revert p i v st; induction fuel as [|fuel IH]; [done|]. intros p i v st HG Hb Hp. cbn [run_loop].
  destruct (Nat.ltb_spec i (length steps)) as [Hi|Hi].
  - pose proof (run_step_done p i v st Hi HG Hb) as Hs.
    destruct (run_step reg opts input runID bind steps i v st) as [r0 e0 st0|i0 v0 st0].
    + by intros [= <- <- <-].
    + destruct Hs as (HG0 & p0 & Hb0 & Hp0). by eapply IH.
  - destruct Hp as [->|Hp]; [|lia].
    pose proof (return_done "step_succeeded" v "succeeded" "" (MkResult runID "succeeded" (lastSHA v) (lastPreview v))
      None ErrLedgerWrite st HG Hb ltac:(by left) eq_refl ltac:(by left) lost_write ltac:(done)) as Hd.
    destruct (return_recorded _ _ _ _ _); [|done]. by intros [= <- <- <-].
Qed.

End run.

(** ** In an arbitrary world *)
Lemma doors_bound bind evs (st : state (W := W)) :
  exists ds, hist (fold_left (appendEvent bind) evs st) = hist st ++ ds /\
    Forall (fun e => ev_Binding e = bind) ds /\ logErr (fold_left (appendEvent bind) evs st) = logErr st.
Proof.
  destruct (doors_cases bind evs st) as (es & ds & _ & HF & Hh & Hl). exists ds. split_and!; [done| |done].
  clear -HF. induction HF as [|e e' es ds (t & p & ->) _ IH]; constructor; [done|exact IH].
Qed.

Lemma serve_any input bind fronted agent v (st : state (W := W)) :
  let ok st' := logErr st' = logErr st /\
    exists ds, hist st' = hist st ++ ds /\ Forall (fun e => ev_Binding e = bind) ds in
  match serve_step input bind fronted agent v st with
  | inl st' => ok st'
  | inr (_, _, _, st') => ok st'
  end.
Proof.
  intros ok. unfold serve_step.
  assert (Hdoor : forall st0 evs w, ok st0 ->
    ok (if fronted then fold_left (appendEvent bind) evs (MkState (log st0) (logErr st0) w) else MkState (log st0) (logErr st0) w)).
  { intros st0 evs w (Hl & ds & Hh & HF). destruct fronted; [|split; [done|by exists ds]].
    destruct (doors_bound bind evs (MkState (log st0) (logErr st0) w)) as (ds' & Hh' & HF' & Hl').
    split; [by rewrite Hl'|]. exists (ds ++ ds'). rewrite Hh'. cbn [log]. rewrite Hh, app_assoc. split; [done|].
    by apply Forall_app. }
  assert (Hst : ok st) by (split; [done|]; exists []; by rewrite app_nil_r).
  destruct fronted.
  - destruct (Start _ _ _) as [[r evs] w]. specialize (Hdoor st evs w Hst) as H1'.
    destruct r as [c|]; [|done]. set (st1 := fold_left _ _ _) in *.
    destruct (Execute _ _ _ _ _ _) as [[r evs1] w1]. specialize (Hdoor st1 evs1 w1 H1') as H2'.
    set (st2 := fold_left (appendEvent bind) evs1 _) in *. destruct (Stop _) as [[n evs2] w2].
    exact (Hdoor st2 evs2 w2 H2').
  - destruct (Execute _ _ _ _ _ _) as [[r evs1] w1]. exact (Hdoor st evs1 w1 Hst).
Qed.

Definition bound_to (bind : Binding) (st : state (W := W)) : Prop := Forall (fun e => ev_Binding e = bind) (hist st).

Lemma emit_bound bind e (st : state (W := W)) : bound_to bind st -> bound_to bind (emit bind e st).
Proof.
  intros Hb. unfold emit. destruct (logErr st); [done|]. destruct (append bind st e) as [st' err] eqn:E.
  unfold bound_to in *. cbn [log].
  apply append_cases in E as [_ [[_ (e' & (t & p & ->) & ->)]|(x & _ & ->)]]; [|done].
  apply Forall_app. split; [done|]. by repeat constructor.
Qed.

(** What a call of [Run] that opened a log leaves behind, in any world. *)
Definition run_accounted (adm : option string) (bind : Binding) (r : Result) (e : option run_error) (st : state (W := W)) : Prop :=
  match logErr st with
  | Some le =>
      (res_Status r = "failed" /\ reports_loss le e) \/
      (res_Status r = "refused" /\ exists reason, adm = Some reason /\ e = Some (ERefusedUnrecorded reason le))
  | None =>
      (exists t, e = Some (EStoreOpen t) /\ res_Status r = "failed" /\ hist st = []) \/
      (exists reason ev, adm = Some reason /\ res_Status r = "refused" /\ e = Some (ERefused reason) /\
         hist st = [ev] /\ ev_Type ev = "run_refused" /\ ev_Reason ev = reason) \/
      (adm = None /\ (e = None \/ exists t, e = Some (EArtifactStore t)) /\
       (exists n, finished_run (fun _ => True) (fun _ _ => True) (hist st) (res_Status r) n) /\
       (res_Status r = "succeeded" -> exists tr t f, hist st = tr ++ [t; f] /\ ev_Type t = "step_succeeded" /\
          ev_ArtifactSHA t = res_OutputSHA r /\ ev_Artifact t = res_OutputPreview r))
  end.

Lemma run_loop_bound reg opts input runID bind steps p v i st fuel r e st' :
  bound_to bind st -> between (fun _ => True) (fun _ _ => True) p v st -> (p = "step_succeeded" \/ (i < length steps)%nat) ->
  run_loop reg opts input runID bind steps fuel i v st = Some (r, e, st') ->
  done_ok (fun _ => True) (fun _ _ => True) r e st' /\ bound_to bind st'.
Proof.
  eapply (run_loop_done _ _ (fun _ => True)); [by intros; apply emit_bound|done|done|].
  intros fronted agent v0 st0 HG. pose proof (serve_any input bind fronted agent v0 st0) as Hs. cbv zeta in *.
  assert (Hok : forall st1, logErr st1 = logErr st0 /\
      (exists ds, hist st1 = hist st0 ++ ds /\ Forall (fun e => ev_Binding e = bind) ds) ->
    logErr st1 = logErr st0 /\ bound_to bind st1 /\ True /\
      exists ds, hist st1 = hist st0 ++ ds /\ Forall (fun _ => True) ds /\ True).
  { intros st1 (Hl & ds & Hh & HF). split_and!; [done| |done|].
    - unfold bound_to. rewrite Hh. by apply Forall_app.
    - exists ds. split_and!; [done|by apply Forall_true|done]. }
  destruct (serve_step _ _ _ _ _ _) as [st1|[[[? ?] ?] st1]]; by apply Hok.
Qed.

(** Every result carries the run's own id. *)
Definition returns_id (runID : string) (x : next (W := W)) : Prop :=
  match x with Return r _ _ => res_RunID r = runID | Continue _ _ _ => True end.

Lemma return_recorded_id runID r e f st : res_RunID r = runID -> returns_id runID (return_recorded runID r e f st).
Proof. intros Hr. unfold return_recorded, failed. by destruct (logErr st). Qed.

Lemma fail_back_id runID bind steps step agent reason k i v st :
  returns_id runID (fail_back runID bind steps step agent reason k i v st).
Proof.
  unfold fail_back, cancelled. destruct (ctx_err _) as [[] w]; [by apply return_recorded_id|].
  match goal with |- context [if ?b then return_recorded _ _ _ _ _ else _] => destruct b end; [by apply return_recorded_id|done].
Qed.

Lemma run_step_id reg opts input runID bind steps i v (st : state (W := W)) :
  returns_id runID (run_step reg opts input runID bind steps i v st).
Proof.
  unfold run_step. destruct (logErr st); [done|].
  destruct (ctx_err _) as [[] w]; [by apply return_recorded_id|].
  destruct (serve_step _ _ _ _ _ _) as [st1|[[[res execErr] k] st1]]; [by apply return_recorded_id|].
  destruct execErr as [x|]; [destruct (ee_config x); [by apply return_recorded_id|apply fail_back_id]|].
  destruct (sr_Success res); [|apply fail_back_id]. unfold succeed. destruct (bool_decide _); [done|].
  destruct (store_put _ _) as [[[sha preview]|perr] w']; [done|by apply return_recorded_id].
Qed.

Lemma run_loop_id reg opts input runID bind steps fuel i v (st : state (W := W)) r e st' :
  run_loop reg opts input runID bind steps fuel i v st = Some (r, e, st') -> res_RunID r = runID.
Proof.
  revert i v st; induction fuel as [|fuel IH]; [done|]. intros i v st. cbn [run_loop].
  destruct (i <? length steps)%nat.
  - pose proof (run_step_id reg opts input runID bind steps i v st) as Hi.
    destruct (run_step _ _ _ _ _ _ _ _ _); [|apply IH]. by intros [= <- <- <-].
  - unfold return_recorded, failed. destruct (logErr _); intros E; by simplify_eq.
Qed.

Lemma started_between D R bind e v (st : state (W := W)) :
  hist st = [] -> logErr st = None -> ev_Type e = "workflow_started" -> ev_DoorAccounting e <> "" ->
  between D R "workflow_started" v (emit bind e st).
Proof.
  intros Hh Hl Ht Hd Hl'. destruct (emit_cases bind e st Hl) as [[_ (e' & (t & q & ->) & Hh')]|[x Hx]]; [|congruence].
  rewrite Hh', Hh. eexists _, [], O. split_and!; [done|by split|constructor|done].
Qed.

(** C2: a run accounts for itself, in any world.  Every event on the log
    carries the run's one binding.  If an event of the engine's was lost, the
    run is reported failed (or refused) with the ledger error.  Otherwise the
    log is exactly one [run_refused] event with [Admit]'s reason, or empty
    because the artifact store did not open, or a complete run: one
    [workflow_started], whole step windows and bounces, one
    [workflow_finished] whose status is the one returned and is consistent
    with the event before it; and a succeeded run returns the digest and
    preview of the last recorded [step_succeeded]. *)
Theorem run_accounts (reg : Registry) (role workflow input : string) (inv : Invoker) (opts : Options)
    (oe : open_env) (disk : option string) (w : W) (r : Result) (e : option run_error) (st : state)
    (Hsteps : forall wf, Workflow reg workflow = Some wf -> w_Steps wf <> [])
    (Hrun : Run reg role workflow input inv opts oe disk w = Some (r, e, Some st)) :
  let bind := root_binding inv role workflow (res_RunID r) (op_Parent opts) in
  Forall (fun ev => ev_Binding ev = bind) (hist st) /\
  run_accounted (Admit reg role workflow inv) bind r e st.
Proof.
  unfold Run in Hrun. destruct (new_id _ w) as [runID w1].
  set (bind := root_binding inv role workflow runID (op_Parent opts)) in *.
  destruct (OpenLog oe disk) as [[l|x] d] eqn:Eo; [|done]. apply OpenLog_inv in Eo as (_ & Hl & _).
  destruct (store_open w1) as [[u|x] w2].
  2:{ injection Hrun as <- <- <-. cbn. rewrite Hl. split; [constructor|]. left. by exists x. }
  set (st0 := MkState l None w2) in *. assert (Hb0 : bound_to bind st0) by (unfold bound_to; cbn; rewrite Hl; constructor).
  destruct (Admit reg role workflow inv) as [reason|] eqn:Ea.
  - set (ev := refused_event reason (op_Origin opts)) in *. injection Hrun as <- <- <-. cbn [res_RunID res_Status].
    split; [by apply emit_bound|]. unfold run_accounted.
    destruct (emit_cases bind ev st0 eq_refl) as [[-> (e' & (t & q & ->) & Hh)]|[le Hle]].
    + right; left. exists reason. eexists. rewrite Hh. cbn [log st0]. rewrite Hl. split_and!; [done..|reflexivity|reflexivity].
    + rewrite Hle. right. split; [done|]. by exists reason.
  - set (ev := apply_update _ _) in Hrun. set (wf := default _ _) in Hrun.
    assert (Hne : w_Steps wf <> []).
    { unfold wf. unfold Admit in Ea. destruct (Role reg role); [|done].
      destruct (Workflow reg workflow) as [wf'|] eqn:Ew; [|done]. by apply Hsteps. }
    destruct (run_loop _ _ _ _ _ _ _ _ _ _) as [[[r1 e1] st1]|] eqn:El; [|done]. injection Hrun as <- <- <-.
    assert (Hid : res_RunID r1 = runID) by (by eapply run_loop_id). rewrite Hid. fold bind.
    eapply (run_loop_bound _ _ _ _ _ _ "workflow_started") in El as [Hd Hb].
    + split; [exact Hb|]. unfold done_ok in Hd. unfold run_accounted.
      destruct (logErr st1); [by left|]. destruct Hd as (? & ? & ?). right; right. done.
    + by apply emit_bound.
    + by apply started_between.
    + right. destruct (w_Steps wf); [done|cbn; lia].
Qed.

End trace.

(** ** The engine in the small world *)
#[local] Existing Instance toy_text.
Definition toy_run := Run ex_registry "dev" "main" "hi" toy_invoker toy_options ex_env None toy_world.

Definition state_of {W} (dflt : state (W := W)) (x : option (Result * option run_error * option (state (W := W)))) : state :=
  match x with Some (_, _, Some st) => st | _ => dflt end.
Definition result_of {W} (x : option (Result * option run_error * option (state (W := W)))) : Result :=
  match x with Some (r, _, _) => r | None => MkResult "" "" "" "" end.

Definition toy_state : state (W := toy) := state_of (MkState (MkLog ex_chain0 []) None toy_world) toy_run.
Definition toy_result : Result := result_of toy_run.

Lemma toy_run_eq : toy_run = Some (toy_result, None, Some toy_state).
Proof. vm_compute. reflexivity. Qed.

Example toy_types : map ev_Type (l_hist (log toy_state)) =
  ["workflow_started"; "step_started"; "tool_call"; "step_succeeded"; "step_started"; "tool_call"; "step_failed"; "bounced_back";
   "step_started"; "tool_call"; "step_succeeded"; "step_started"; "tool_call"; "step_succeeded"; "workflow_finished"].
Proof. vm_compute. reflexivity. Qed.

Lemma ex_steps wf : Workflow ex_registry "main" = Some wf -> w_Steps wf <> [].
Proof. vm_compute. by intros [= <-]. Qed.

Lemma run_accounts_witness :
  Forall (fun ev => ev_Binding ev = root_binding toy_invoker "dev" "main" (res_RunID toy_result) None) (l_hist (log toy_state)).
Proof.
  exact (proj1 (run_accounts ex_registry "dev" "main" "hi" toy_invoker toy_options ex_env None toy_world
    toy_result None toy_state ex_steps toy_run_eq)).
Defined.

