(* ===== verification/Completeness.v ===== *)
(** * Ledger completeness ([internal/completeness/completeness.go])

    [Check] judges whether a verified run ledger accounts for itself.  Its
    specification is the grammar of [EngineTrace]: a ledger is judged complete
    exactly when it is a finished run in which every window holds as many door
    events as its terminal claims. *)
From S2P Require Import Prelude Sha256 GoStr Json Ledger Config Authz Origin Paths Registry Event Engine EngineTrace.

Definition Complete : string := "complete".
Definition Gap : string := "gap".
Definition Unterminated : string := "unterminated".
Definition NoClaim : string := "no-claim".

Record Report : Type := MkReport { Verdict : string; Detail : string; rep_DoorCalls : Z }.

#[global] Instance report_eq_dec : EqDecision Report.
Proof. solve_decision. Defined.

Definition gap (detail : string) : Report := MkReport Gap detail 0.

Definition doorTypes (t : string) : bool := contains ["tool_call"; "model_call"; "exec"; "spawn"] t.

Definition terminalConsistent (status prev : string) : bool :=
  if bool_decide (status = "succeeded") then bool_decide (prev = "step_succeeded")
  else if bool_decide (status = "failed") then bool_decide (prev = "step_failed")
  else if bool_decide (status = "cancelled") then
    bool_decide (prev = "workflow_started") || bool_decide (prev = "step_succeeded") ||
    bool_decide (prev = "step_failed") || bool_decide (prev = "bounced_back")
  else false.

(** The loop over [events[1:]]: [open] is the open window (its step and its
    door events so far), [prev] the last lifecycle event. *)
Fixpoint check_loop (events : list Event) (open : option (string * Z)) (prev : string) (total : Z) : Report :=
  match events with
  | [] => MkReport Complete "" total
  | e :: rest =>
      let last := bool_decide (rest = []) in
      let t := ev_Type e in
      if doorTypes t then
        match open with
        | None => gap (t +:+ " event outside a step window")
        | Some (step, doors) => check_loop rest (Some (step, doors + 1)) prev (total + 1)
        end
      else if bool_decide (t = "step_started") then
        match open with
        | Some (step, _) => gap ("step " +:+ step +:+ " has no terminal before step_started")
        | None => check_loop rest (Some (ev_Step e, 0)) t total
        end
      else if bool_decide (t = "step_succeeded") || bool_decide (t = "step_failed") then
        match open with
        | Some (step, doors) =>
            if bool_decide (step = ev_Step e) then
              match ev_DoorCalls e with
              | None => gap ("step " +:+ ev_Step e +:+ " terminal lacks door_calls")
              | Some n =>
                  if negb (n =? doors)
                  then gap ("step " +:+ ev_Step e +:+ ": " +:+ itoa n +:+ " door call(s) admitted, " +:+ itoa doors +:+ " recorded")
                  else check_loop rest None t total
              end
            else gap (t +:+ " for step " +:+ ev_Step e +:+ " without a matching step_started")
        | None => gap (t +:+ " for step " +:+ ev_Step e +:+ " without a matching step_started")
        end
      else if bool_decide (t = "bounced_back") then
        match open with
        | Some (step, _) => gap ("bounced_back inside step " +:+ step +:+ "'s window")
        | None =>
            if negb (bool_decide (prev = "step_failed")) then gap "bounced_back not after step_failed"
            else check_loop rest None t total
        end
      else if bool_decide (t = "workflow_finished") then
        if negb last then gap "workflow_finished is not the last event"
        else match open with
             | Some (step, _) => gap ("step " +:+ step +:+ " has no terminal before workflow_finished")
             | None =>
                 if negb (terminalConsistent (ev_Status e) prev)
                 then gap ("workflow_finished " +:+ ev_Status e +:+ " after " +:+ prev)
                 else check_loop rest None t total
             end
      else match open with
           | Some (step, _) => gap (t +:+ " inside step " +:+ step +:+ "'s window")
           | None => gap (t +:+ " outside a step window")
           end
  end.

Definition has_door_calls (e : Event) : bool :=
  (bool_decide (ev_Type e = "step_succeeded") || bool_decide (ev_Type e = "step_failed")) && is_Some_b (ev_DoorCalls e).

Definition Check_ (events : list Event) : Report :=
  match events with
  | [] => MkReport Unterminated "" 0
  | first :: rest =>
      let t := ev_Type first in
      if bool_decide (t = "run_refused") then
        if bool_decide (rest = []) then MkReport Complete "" 0 else gap "run_refused is not alone"
      else if negb (bool_decide (t = "workflow_started")) then
        gap ("first event is " +:+ t +:+ ", want workflow_started or run_refused")
      else if negb (bool_decide (ev_Type (List.last events zeroEvent) = "workflow_finished")) then
        MkReport Unterminated "" 0
      else if bool_decide (ev_DoorAccounting first = "") then
        if List.existsb has_door_calls events
        then gap "door_calls present without the accounting marker on workflow_started"
        else MkReport NoClaim "" 0
      else check_loop rest None t 0
  end.

(** [Report.Line]; the em dash is E2 80 94. *)
Definition dash : string := encode_rune 8212.
Definition Line (r : Report) : string :=
  let nl := String newline "" in
  if bool_decide (Verdict r = Complete) then
    "ledger completeness: complete (" +:+ itoa (rep_DoorCalls r) +:+ " door call(s) accounted)" +:+ nl
  else if bool_decide (Verdict r = Gap) then "ledger completeness: GAP " +:+ dash +:+ " " +:+ Detail r +:+ nl
  else if bool_decide (Verdict r = Unterminated) then
    "ledger completeness: UNTERMINATED " +:+ dash +:+ " no final event; still running or tail lost (this reader cannot tell which)" +:+ nl
  else if bool_decide (Verdict r = NoClaim) then
    "ledger completeness: no claim (recorded before door accounting)" +:+ nl
  else "".

(** ** The specification *)
Definition door (e : Event) : Prop := ev_Type e ∈ door_types.
Definition counted (k : Z) (m : nat) : Prop := k = Z.of_nat m.

Lemma doorTypes_iff t : doorTypes t = true <-> t ∈ door_types.
Proof. apply contains_true. Qed.

Lemma terminalConsistent_iff status prev : terminalConsistent status prev = true <-> final_after status prev.
Proof.
  unfold terminalConsistent, final_after. rewrite !elem_of_cons, elem_of_nil.
  repeat case_bool_decide; simplify_eq/=; try (split; naive_solver).
Qed.

(** A window and a bounce at the front of a walk. *)
Lemma walk_front_window D R p s ds t k tr q n :
  ev_Type s = "step_started" -> Forall D ds -> ev_Type t = "step_succeeded" \/ ev_Type t = "step_failed" ->
  ev_Step t = ev_Step s -> ev_DoorCalls t = Some k -> R k (length ds) ->
  walk D R (ev_Type t) tr q n -> walk D R p (s :: ds ++ t :: tr) q (length ds + n).
Proof.
  intros Hs Hds Ht Hst Hk HR Hw. remember (ev_Type t) as p0 eqn:Hp0.
  induction Hw as [|tr q n s' ds' t' k' _ IH ? ? ? ? ? ?|tr n b _ IH ?].
  - rewrite Nat.add_0_r. subst p0.
    replace (s :: ds ++ [t]) with ([] ++ s :: ds ++ [t]) by done.
    change (length ds) with (0 + length ds)%nat. by eapply walk_window; [constructor|..].
  - replace (s :: ds ++ t :: tr ++ s' :: ds' ++ [t']) with ((s :: ds ++ t :: tr) ++ s' :: ds' ++ [t'])
      by (cbn; by rewrite <- app_assoc).
    rewrite Nat.add_assoc. by eapply walk_window; [apply IH|..].
  - replace (s :: ds ++ t :: tr ++ [b]) with ((s :: ds ++ t :: tr) ++ [b]) by (cbn; by rewrite <- app_assoc).
    by apply walk_bounce; [apply IH|].
Qed.

Lemma walk_front_bounce D R b tr q n :
  ev_Type b = "bounced_back" -> walk D R "bounced_back" tr q n -> walk D R "step_failed" (b :: tr) q n.
Proof.
  intros Hb. induction 1 as [|tr q n s' ds' t' k' _ IH ? ? ? ? ? ?|tr n b' _ IH ?].
  - apply (walk_bounce D R _ []); [constructor|done].
  - by apply (walk_window D R _ (b :: tr) q n s' ds' t' k').
  - by apply (walk_bounce D R _ (b :: tr)).
Qed.

Definition ends (tr : list Event) (p : string) (n : nat) : Prop :=
  exists body q f, tr = body ++ [f] /\ walk door counted p body q n /\
    ev_Type f = "workflow_finished" /\ final_after (ev_Status f) q.

(** *** From the verdict to the grammar *)
Lemma gap_not_complete d N : gap d <> MkReport Complete "" N.
Proof. done. Qed.

Definition rest_of_window (evs : list Event) (step : string) (d total N : Z) : Prop :=
  exists ds t k tr n, evs = ds ++ t :: tr /\ Forall door ds /\
    (ev_Type t = "step_succeeded" \/ ev_Type t = "step_failed") /\ ev_Step t = step /\
    ev_DoorCalls t = Some k /\ k = d + Z.of_nat (length ds) /\
    ends tr (ev_Type t) n /\ N = total + Z.of_nat (length ds) + Z.of_nat n.

Lemma ends_window p s evs total N :
  ev_Type s = "step_started" -> rest_of_window evs (ev_Step s) 0 total N ->
  exists n, ends (s :: evs) p n /\ N = total + Z.of_nat n.
Proof.
  intros Hs (ds & t & k & tr & n & -> & Hds & Ht & Hst & Hk & Hkn & (body & q & f & -> & Hw & Hf & Hfin) & ->).
  exists (length ds + n)%nat. split; [|lia]. exists (s :: ds ++ t :: body), q, f.
  split; [by cbn; rewrite <- app_assoc|]. split; [|done].
  eapply walk_front_window; [done..| |done]. unfold counted. lia.
Qed.

Lemma ends_bounce b evs n : ev_Type b = "bounced_back" -> ends evs "bounced_back" n -> ends (b :: evs) "step_failed" n.
Proof.
  intros Hb (body & q & f & -> & Hw & Hf). exists (b :: body), q, f. split; [done|]. split; [|done].
  by apply walk_front_bounce.
Qed.

Lemma check_loop_sound evs open prev total N :
  check_loop evs open prev total = MkReport Complete "" N -> evs <> [] ->
  ev_Type (List.last evs zeroEvent) = "workflow_finished" ->
  match open with
  | None => exists n, ends evs prev n /\ N = total + Z.of_nat n
  | Some (step, d) => rest_of_window evs step d total N
  end.
Proof.
  revert open prev total; induction evs as [|e rest IH]; [done|]. intros open prev total Hc _ Hlast. cbn [check_loop] in Hc.
  assert (Hrest : ev_Type e <> "workflow_finished" -> rest <> [] /\ ev_Type (List.last rest zeroEvent) = "workflow_finished").
  { intros He. destruct rest; [by cbn in Hlast|]. by split. }
  destruct (doorTypes (ev_Type e)) eqn:Ed.
  { assert (He : ev_Type e <> "workflow_finished") by (intros E; by rewrite E in Ed).
    destruct (Hrest He) as [Hne Hl]. destruct open as [[step d]|]; [|by apply gap_not_complete in Hc].
    apply IH in Hc as (ds & t & k & tr & n & -> & Hds & Ht & Hst & Hk & Hkn & Hends & ->); [|done..].
    exists (e :: ds), t, k, tr, n. split_and!; try done; [constructor; [by apply doorTypes_iff|done]|cbn; lia|cbn; lia]. }
  case_bool_decide as E1.
  { destruct (Hrest ltac:(congruence)) as [Hne Hl]. destruct open as [[step d]|]; [by apply gap_not_complete in Hc|].
    apply IH in Hc; [|done..]. by apply ends_window. }
  destruct (bool_decide (ev_Type e = "step_succeeded") || bool_decide (ev_Type e = "step_failed")) eqn:E2.
  { apply orb_true_iff in E2. rewrite !bool_decide_eq_true in E2.
    destruct (Hrest ltac:(destruct E2; congruence)) as [Hne Hl].
    destruct open as [[step d]|]; [|by apply gap_not_complete in Hc].
    case_bool_decide as E3; [|by apply gap_not_complete in Hc].
    destruct (ev_DoorCalls e) as [k|] eqn:Ek; [|by apply gap_not_complete in Hc].
    destruct (Z.eqb_spec k d) as [->|]; cbn [negb] in Hc; [|by apply gap_not_complete in Hc].
    apply IH in Hc as (n & Hends & ->); [|done..].
    exists [], e, d, rest, n. split_and!; try done; [cbn; lia|cbn; lia]. }
  case_bool_decide as E3.
  { destruct (Hrest ltac:(congruence)) as [Hne Hl]. destruct open as [[step d]|]; [by apply gap_not_complete in Hc|].
    case_bool_decide as E4; cbn [negb] in Hc; [|by apply gap_not_complete in Hc]. rewrite E3 in Hc.
    apply IH in Hc as (n & Hends & ->); [|done..]. exists n. split; [|done]. subst prev. by apply ends_bounce. }
  case_bool_decide as E4; [|by destruct open as [[]|]; apply gap_not_complete in Hc].
  case_bool_decide as E5; cbn [negb] in Hc; [|by apply gap_not_complete in Hc]. subst rest.
  destruct open as [[step d]|]; [by apply gap_not_complete in Hc|].
  destruct (terminalConsistent (ev_Status e) prev) eqn:Et; cbn [negb] in Hc; [|by apply gap_not_complete in Hc].
  injection Hc as <-. exists O. split; [|lia]. exists [], prev, e. split_and!; [done|constructor|done|by apply terminalConsistent_iff].
Qed.

(** *** From the grammar to the verdict *)
Lemma check_doors ds rest step d prev total :
  Forall door ds ->
  check_loop (ds ++ rest) (Some (step, d)) prev total
  = check_loop rest (Some (step, d + Z.of_nat (length ds))) prev (total + Z.of_nat (length ds)).
Proof.
  intros HF. revert d total. induction HF as [|e ds He HF IH]; intros d total.
  - cbn. by rewrite !Z.add_0_r.
  - cbn [app check_loop length]. rewrite (proj2 (doorTypes_iff _) He), IH.
    replace (d + 1 + Z.of_nat (length ds)) with (d + Z.of_nat (S (length ds))) by lia.
    by replace (total + 1 + Z.of_nat (length ds)) with (total + Z.of_nat (S (length ds))) by lia.
Qed.

Lemma check_walk p tr q n rest total :
  walk door counted p tr q n -> check_loop (tr ++ rest) None p total = check_loop rest None q (total + Z.of_nat n).
Proof.
  intros Hw. revert rest; induction Hw as [|tr q n s ds t k _ IH Hs Hds Ht Hst Hk HR|tr n b _ IH Hb]; intros rest.
  - by rewrite Z.add_0_r.
  - rewrite <- app_assoc, IH. cbn [app check_loop]. rewrite Hs.
    change (doorTypes "step_started") with false. rewrite bool_decide_true by done. cbv iota zeta.
    rewrite <- app_assoc, check_doors by done. cbn [app check_loop]. unfold counted in HR. subst k.
    assert (doorTypes (ev_Type t) = false) as -> by (by destruct Ht as [-> | ->]).
    assert (bool_decide (ev_Type t = "step_started") = false) as -> by (by destruct Ht as [-> | ->]).
    assert (bool_decide (ev_Type t = "step_succeeded") || bool_decide (ev_Type t = "step_failed") = true) as ->
      by (by destruct Ht as [-> | ->]).
    rewrite (bool_decide_true (ev_Step s = ev_Step t)) by done. rewrite Hk, Z.add_0_l, Z.eqb_refl. cbn [negb].
    by replace (total + Z.of_nat (n + length ds)) with (total + Z.of_nat n + Z.of_nat (length ds)) by lia.
  - rewrite <- app_assoc, IH. cbn [app check_loop]. by rewrite Hb.
Qed.

(** [finished_run] with the real door types and counts. *)
Abbreviation accounted_run := (finished_run door counted).

Lemma check_complete_iff evs N :
  Check_ evs = MkReport Complete "" N <->
  (exists e, evs = [e] /\ ev_Type e = "run_refused" /\ N = 0) \/
  (exists status n, accounted_run evs status n /\ N = Z.of_nat n).
Proof.
  split.
  - destruct evs as [|e rest]; [done|]. cbn [Check_]. case_bool_decide as E1.
    { case_bool_decide as E2; [|by intros ?%gap_not_complete]. intros [= <-]. left. exists e. by subst. }
    case_bool_decide as E2; cbn [negb]; [|by intros ?%gap_not_complete].
    case_bool_decide as E3; cbn [negb]; [|done].
    case_bool_decide as E4; [by destruct (existsb has_door_calls (e :: rest))|]. intros Hc. right.
    destruct rest as [|e' rest']; [cbn in E3; congruence|]. change (List.last (e :: e' :: rest') zeroEvent) with (List.last (e' :: rest') zeroEvent) in E3.
    apply check_loop_sound in Hc as (n & (body & q & f & Hb & Hw & Hf & Hfin) & ->); [|done..].
    exists (ev_Status f), n. split; [|lia]. exists e, body, f, q. rewrite E2 in Hw. split_and!; try done. by rewrite Hb.
  - intros [(e & -> & Ht & ->)|(status & n & (s & body & f & q & -> & Hs & Hd & Hw & Hf & Hst & Hfin) & ->)].
    + cbn [Check_]. by rewrite Ht.
    + cbn [Check_]. rewrite Hs. cbn [bool_decide]. rewrite !app_comm_cons, List.last_last, Hf.
      rewrite (bool_decide_false (ev_DoorAccounting s = "")) by done. cbn.
      rewrite (check_walk _ _ _ _ _ _ Hw). cbn [check_loop]. rewrite Hf. cbn.
      rewrite (proj2 (terminalConsistent_iff _ _)) by (by rewrite Hst). cbn. done.
Qed.

(** C31: [Check] decides the grammar exactly: a ledger is judged complete with
    [N] door calls if and only if it is a lone [run_refused], or a finished run
    (a marked start, whole step windows and bounces, a consistent end) in
    which every step's terminal claims exactly the door events recorded in its
    window, [N] in all. *)
Theorem check_decides_grammar (evs : list Event) (N : Z) :
  Check_ evs = MkReport Complete "" N <->
  (exists e, evs = [e] /\ ev_Type e = "run_refused" /\ N = 0) \/
  (exists status n, accounted_run evs status n /\ N = Z.of_nat n).
Proof. apply check_complete_iff. Qed.

(** A lost door event is found and located: in a terminated, marked ledger
    whose windows account for themselves up to some step, if that step's
    terminal claims [k] door calls and [k] is not the number recorded in its
    window, the verdict is a gap that names the step and both numbers,
    whatever follows. *)
Theorem lost_door_event_is_a_gap (s x t : Event) (tr ds rest : list Event) (q : string) (n : nat) (k : Z)
    (Hs : ev_Type s = "workflow_started") (Hd : ev_DoorAccounting s <> "")
    (Htr : walk door counted "workflow_started" tr q n)
    (Hx : ev_Type x = "step_started") (Hds : Forall door ds)
    (Ht : ev_Type t = "step_succeeded" \/ ev_Type t = "step_failed") (Hst : ev_Step t = ev_Step x)
    (Hk : ev_DoorCalls t = Some k) (Hne : k <> Z.of_nat (length ds))
    (Hrest : ev_Type (List.last rest zeroEvent) = "workflow_finished") :
  Check_ (s :: tr ++ x :: ds ++ t :: rest)
  = gap ("step " +:+ ev_Step t +:+ ": " +:+ itoa k +:+ " door call(s) admitted, " +:+ itoa (Z.of_nat (length ds)) +:+ " recorded").
Proof.
  assert (Hlast : List.last (s :: tr ++ x :: ds ++ t :: rest) zeroEvent = List.last rest zeroEvent).
  { replace (s :: tr ++ x :: ds ++ t :: rest) with ((s :: tr ++ x :: ds ++ [t]) ++ rest)
      by (cbn; rewrite <- !app_assoc; cbn; by rewrite <- app_assoc).
    destruct rest as [|e r]; [by cbn in Hrest|]. clear. generalize (s :: tr ++ x :: ds ++ [t]). intros l.
    induction l as [|a l IH]; [done|]. rewrite <- IH. cbn. by destruct (l ++ e :: r) eqn:E; [destruct l|]. }
  cbn [Check_]. rewrite Hlast, Hs, Hrest. rewrite (bool_decide_false (ev_DoorAccounting s = "")) by done.
  change (bool_decide ("workflow_started" = "run_refused")) with false.
  change (bool_decide ("workflow_started" = "workflow_started")) with true.
  change (bool_decide ("workflow_finished" = "workflow_finished")) with true. cbn [negb].
  rewrite (check_walk _ _ _ _ _ _ Htr). cbn [check_loop]. rewrite Hx. change (doorTypes "step_started") with false.
  rewrite bool_decide_true by done. cbv iota zeta. rewrite check_doors by done. cbn [app check_loop].
  assert (doorTypes (ev_Type t) = false) as -> by (by destruct Ht as [-> | ->]).
  assert (bool_decide (ev_Type t = "step_started") = false) as -> by (by destruct Ht as [-> | ->]).
  assert (bool_decide (ev_Type t = "step_succeeded") || bool_decide (ev_Type t = "step_failed") = true) as ->
    by (by destruct Ht as [-> | ->]).
  rewrite (bool_decide_true (ev_Step x = ev_Step t)) by done. rewrite Hk, Z.add_0_l.
  by rewrite (proj2 (Z.eqb_neq _ _) Hne).
Qed.

Definition ex_ev (type step : string) : Event := { zeroEvent with ev_Type := type; ev_Step := step }.
Definition ex_started : Event := { ex_ev "workflow_started" "" with ev_DoorAccounting := "admission" }.
Definition ex_term (n : Z) : Event := { ex_ev "step_succeeded" "a" with ev_DoorCalls := Some n }.
Definition ex_finished : Event := { ex_ev "workflow_finished" "" with ev_Status := "succeeded" }.

Lemma lost_door_event_is_a_gap_witness :
  Check_ [ex_started; ex_ev "step_started" "a"; ex_ev "exec" ""; ex_term 2; ex_finished]
  = gap "step a: 2 door call(s) admitted, 1 recorded".
Proof.
  refine (lost_door_event_is_a_gap ex_started (ex_ev "step_started" "a") (ex_term 2) [] [ex_ev "exec" ""] [ex_finished]
    "workflow_started" 0 2 _ _ _ _ _ _ _ _ _ _); try reflexivity; try done.
  - constructor.
  - apply Forall_singleton, doorTypes_iff. reflexivity.
  - by left.
Defined.
