(* ===== verification/RunAudit.v ===== *)
(** * From a run to its audit

    The end-to-end theorem of the run ledger: a run over a gateway that keeps
    its contract ([engine.ToolProxy]'s comment on [Stop]) and a disk that does
    not fail leaves a file that reads back, byte for byte verified, as a
    ledger [completeness.Check] judges complete.  The contract is a class; the
    gateway's own model discharges it. *)
From S2P Require Import Prelude Sha256 GoStr Json Ledger Config Authz Origin Paths Registry Event Engine EngineTrace Completeness.

(** A door event as a gateway hands it to [appendEvent], which stamps time
    and binding: one of the four door types, machine integers throughout. *)
Record door_event (e : Event) : Prop := {
  de_type : door e;
  de_exit : ptr_int_ok (ev_ExitCode e);
  de_prompt : ptr_int_ok (ev_PromptTokens e);
  de_completion : ptr_int_ok (ev_CompletionTokens e);
  de_depth : int_ok (ev_Depth e);
  de_doors : ptr_int_ok (ev_DoorCalls e);
  de_attestation : attestation_ok (ev_RuntimeAttestation e);
}.

(** What a gateway promises the engine: [admitted] counts the door calls since
    the last successful [Start], every one of which appends one door event by
    the time [Stop] returns; [Stop] returns that count.  A failed [Start]
    serves nothing. *)
Class GatewayContract (W : Type) `{Host W} `{StepExecutor W} `{ToolProxy W} := {
  admitted : W -> Z;
  contract_start : forall w b a c evs w', Start w b a = (Ok c, evs, w') ->
    Forall door_event evs /\ admitted w' = Z.of_nat (length evs);
  contract_refused : forall w b a x evs w', Start w b a = (Err x, evs, w') -> evs = [];
  contract_execute : forall w c b a i arts r evs w', Execute w (Some c) b a i arts = (r, evs, w') ->
    Forall door_event evs /\ admitted w' = admitted w + Z.of_nat (length evs);
  contract_stop : forall w n evs w', Stop w = (n, evs, w') ->
    Forall door_event evs /\ n = admitted w + Z.of_nat (length evs) /\ int_ok n;
  contract_clock : forall w, admitted (time_now w).2 = admitted w;
  contract_write : forall w, admitted (next_write w).2 = admitted w;
}.

(** A disk on which every ledger write succeeds, and a clock that marshals. *)
Class GoodHost (W : Type) `{Host W} := {
  writes_succeed : forall w, (next_write w).1 = WriteOk;
  clock_marshals : forall w, rfc3339_ok (time_now w).1 = true /\ valid_utf8 (time_now w).1 = true;
}.

Section audit.
  Context `{GoText} {W : Type} `{Host W} `{StepExecutor W} `{ToolProxy W} `{!GatewayContract W} `{!GoodHost W}.

Abbreviation hist st := (l_hist (log st)).

(** The engine's states in a good world: no event was lost, the file is the
    chain of the history, and every event marshals. *)
Definition sound (st : state (W := W)) : Prop :=
  log_inv (log st) /\ logErr st = None /\ Forall event_ok (hist st).

(** An event of the engine's own, before stamping. *)
Definition plain_event (e : Event) : Prop :=
  ptr_int_ok (ev_ExitCode e) /\ ptr_int_ok (ev_PromptTokens e) /\ ptr_int_ok (ev_CompletionTokens e) /\
  int_ok (ev_Depth e) /\ ptr_int_ok (ev_DoorCalls e) /\ attestation_ok (ev_RuntimeAttestation e).

Lemma append_sound bind (st : state (W := W)) e :
  sound st -> int_ok (b_Depth bind) -> plain_event e ->
  exists e', stamped bind e e' /\ (append bind st e).2 = None /\ hist (append bind st e).1 = hist st ++ [e'] /\
    sound (append bind st e).1 /\ admitted (world (append bind st e).1) = admitted (world st).
Proof.
  intros (Hl & Hn & HF) Hb (P1 & P2 & P3 & P4 & P5 & P6). unfold append.
  pose proof (contract_clock (world st)) as Hc. pose proof (clock_marshals (world st)) as Ht.
  destruct (time_now (world st)) as [t w1]. cbn [fst snd] in *.
  pose proof (contract_write w1) as Hw. pose proof (writes_succeed w1) as Ho.
  destruct (next_write w1) as [o w2]. cbn [fst snd] in *. subst o.
  set (e1 := apply_update _ _). destruct (LogAppend_spec WriteOk (log st) e1 (proj1 Hl)) as [-> Hwf].
  exists (with_prev e1 (log st)). split_and!; [by exists t, (prevHash (l_c (log st)))|done|done| |cbn; congruence].
  split_and!; [by apply LogAppend_inv|done|]. apply Forall_app. split; [done|]. apply Forall_singleton. by split.
Qed.

Lemma emit_sound bind (st : state (W := W)) e :
  int_ok (b_Depth bind) -> plain_event e -> sound st -> sound (emit bind e st).
Proof.
  intros Hb He Hs. destruct (append_sound bind st e Hs Hb He) as (e' & _ & He' & _ & (H1' & H2' & H3') & _).
  unfold emit. rewrite (proj1 (proj2 Hs)). destruct (append bind st e) as [st' err]. cbn [fst snd] in *. subst err. by split_and!.
Qed.

Lemma door_plain e : door_event e -> plain_event e.
Proof. intros []. by split_and!. Qed.

Lemma doors_sound bind evs (st : state (W := W)) :
  int_ok (b_Depth bind) -> Forall door_event evs -> sound st ->
  exists ds, hist (fold_left (appendEvent bind) evs st) = hist st ++ ds /\ Forall door ds /\ length ds = length evs /\
    sound (fold_left (appendEvent bind) evs st) /\
    admitted (world (fold_left (appendEvent bind) evs st)) = admitted (world st).
Proof.
  intros Hb HF. revert st. induction HF as [|e evs He HF IH]; intros st Hs; cbn [fold_left].
  { exists []. rewrite app_nil_r. split_and!; done || constructor. }
  destruct (append_sound bind st e Hs Hb (door_plain e He)) as (e' & (t & p & ->) & _ & Hh & Hs' & Ha).
  change (append bind st e).1 with (appendEvent bind st e) in *.
  destruct (IH _ Hs') as (ds & Hh' & HD & Hlen & Hs'' & Ha'). rewrite Hh' , Hh, Ha', Ha.
  eexists (_ :: ds). rewrite <- app_assoc. split_and!; [done| |cbn; by rewrite Hlen|done|done].
  constructor; [apply He|done].
Qed.

Lemma serve_sound input bind fronted agent v (st : state (W := W)) :
  int_ok (b_Depth bind) -> sound st ->
  let ok k st' := logErr st' = logErr st /\ sound st' /\ int_ok k /\
    exists ds, hist st' = hist st ++ ds /\ Forall door ds /\ counted k (length ds) in
  match serve_step input bind fronted agent v st with
  | inl st' => ok 0 st'
  | inr (_, _, k, st') => ok k st'
  end.
Proof.
  intros Hb Hs ok. assert (Hz : int_ok 0) by (by vm_compute).
  assert (Hw : forall st0 w, sound st0 -> sound (MkState (log st0) (logErr st0) w)) by done.
  assert (Hok : forall k st' ds, sound st' -> int_ok k -> hist st' = hist st ++ ds -> Forall door ds -> k = Z.of_nat (length ds) -> ok k st').
  { intros k st' ds Hs' Hk Hh HD E. split_and!; [|done|done|by exists ds]. by rewrite (proj1 (proj2 Hs')), (proj1 (proj2 Hs)). }
  unfold serve_step. destruct fronted.
  - destruct (Start _ _ _) as [[r evs] w] eqn:Es. destruct r as [c|x].
    2:{ apply contract_refused in Es as ->. cbn [fold_left]. eapply (Hok 0 _ []); [by apply Hw|done|by rewrite app_nil_r|constructor|done]. }
    apply contract_start in Es as [Hev Ha].
    destruct (doors_sound bind evs _ Hb Hev (Hw st w Hs)) as (ds0 & Hh0 & HD0 & Hl0 & Hs0 & Ha0).
    set (st1 := fold_left _ _ _) in *. cbn [world] in Ha0.
    destruct (Execute _ _ _ _ _ _) as [[r evs1] w1] eqn:Ee. apply contract_execute in Ee as [Hev1 Ha1].
    destruct (doors_sound bind evs1 _ Hb Hev1 (Hw st1 w1 Hs0)) as (ds1 & Hh1 & HD1 & Hl1 & Hs1 & Ha1').
    set (st2 := fold_left (appendEvent bind) evs1 _) in *. cbn [world] in Ha1'.
    destruct (Stop _) as [[n evs2] w2] eqn:Ep. apply contract_stop in Ep as (Hev2 & Hn & Hni).
    destruct (doors_sound bind evs2 _ Hb Hev2 (Hw st2 w2 Hs1)) as (ds2 & Hh2 & HD2 & Hl2 & Hs2 & _).
    cbn [log] in Hh0, Hh1, Hh2. apply (Hok n _ (ds0 ++ ds1 ++ ds2)); [done|done| | |].
    + rewrite Hh2, Hh1, Hh0. by rewrite <- !app_assoc.
    + by rewrite !Forall_app.
    + rewrite !length_app. lia.
  - destruct (Execute _ _ _ _ _ _) as [[r evs1] w1]. eapply (Hok 0 _ []); [by apply Hw|done|by rewrite app_nil_r|constructor|done].
Qed.

(** ** What the reader's UTF-8 replacement leaves of the grammar *)
Lemma to_valid_nil s : to_valid s = "" -> s = "".
Proof.
  destruct s as [|c r]; [done|]. cbn [to_valid]. destruct (utf8_size c r) as [|[|[|[|[|]]]]]; destruct r as [|? [|? [|? ?]]]; done.
Qed.

Lemma san_walk p tr q n : walk door counted p tr q n -> walk door counted p (map san_event tr) q n.
Proof.
  assert (Hv : forall e x, valid_utf8 x = true -> ev_Type e = x -> ev_Type (san_event e) = x).
  { intros e x Hx Ht. cbn [san_event ev_Type]. rewrite Ht. by apply to_valid_id. }
  induction 1 as [|tr q n s ds t k _ IH Hs Hds Ht Hst Hk HR|tr n b _ IH Hb].
  - constructor.
  - rewrite map_app. cbn [map]. rewrite map_app. cbn [map].
    assert (Htt : ev_Type (san_event t) = ev_Type t) by (destruct Ht as [E|E]; rewrite E; by apply Hv).
    rewrite <- Htt, <- (length_map san_event ds). eapply (walk_window _ _ _ _ q n _ _ _ k); [done|by apply Hv| | | | |].
    + apply Forall_map. eapply Forall_impl; [exact Hds|]. intros e He. unfold door in *. cbn [san_event ev_Type].
      rewrite to_valid_id; [done|]. revert He. unfold door_types. rewrite !elem_of_cons, elem_of_nil. by intros [->|[->|[->|[->|[]]]]].
    + by rewrite Htt.
    + cbn [san_event ev_Step]. by rewrite Hst.
    + done.
    + by rewrite length_map.
  - rewrite map_app. cbn [map]. constructor; [done|by apply Hv].
Qed.

Lemma san_finished tr status n : accounted_run tr status n -> accounted_run (map san_event tr) status n.
Proof.
  intros (s & body & f & q & -> & Hs & Hd & Hw & Hf & Hst & Hfin).
  exists (san_event s), (map san_event body), (san_event f), q. split_and!.
  - cbn [map]. by rewrite map_app.
  - cbn [san_event ev_Type]. by rewrite Hs.
  - cbn [san_event ev_DoorAccounting]. by intros ?%to_valid_nil.
  - by apply san_walk.
  - cbn [san_event ev_Type]. by rewrite Hf.
  - cbn [san_event ev_Status]. rewrite Hst. by destruct Hfin as [[-> _]|[[-> _]|[-> _]]].
  - done.
Qed.

Lemma engine_plain e : engine_event int_ok e -> plain_event e.
Proof. intros (E1 & E2 & E3 & E4 & E5 & E6). unfold plain_event. rewrite E1, E2, E3, E4, E5. by split_and!. Qed.

Lemma run_loop_sound reg opts input runID bind steps p v i st fuel r e st' :
  int_ok (b_Depth bind) -> sound st -> between door counted p v st -> (p = "step_succeeded" \/ (i < length steps)%nat) ->
  run_loop reg opts input runID bind steps fuel i v st = Some (r, e, st') ->
  done_ok door counted r e st' /\ sound st'.
Proof.
  intros Hb. eapply (run_loop_done _ _ int_ok); [|done|done|].
  - intros e0 st0 He Hs. apply emit_sound; [done|by apply engine_plain|done].
  - intros fronted agent v0 st0 Hs. by apply serve_sound.
Qed.

(** ** Bounces *)
Definition is_bounce (name : string) (e : Event) : Prop := ev_Type e = "bounced_back" /\ ev_Step e = name.
#[local] Instance is_bounce_dec name e : Decision (is_bounce name e).
Proof. unfold is_bounce. apply _. Defined.

Definition bounce_count (name : string) (l : list Event) : nat := length (filter (is_bounce name) l).

(** The largest cap among the steps of a name. *)
Definition max_cap (steps : list Step) (name : string) : nat :=
  fold_right Nat.max O (map step_cap (filter (fun s => s_Name s = name) steps)).

Lemma max_cap_ge steps s : s ∈ steps -> (step_cap s <= max_cap steps (s_Name s))%nat.
Proof.
  intros Hin. unfold max_cap. assert (Hf : s ∈ filter (fun x => s_Name x = s_Name s) steps) by (by apply list_elem_of_filter).
  revert Hf. generalize (filter (fun x => s_Name x = s_Name s) steps). intros l. induction l as [|x l IH]; [by intros ?%not_elem_of_nil|].
  intros [->|Hx]%elem_of_cons; cbn; [lia|]. specialize (IH Hx). lia.
Qed.

Lemma bounce_count_app name l1 l2 : bounce_count name (l1 ++ l2) = (bounce_count name l1 + bounce_count name l2)%nat.
Proof. unfold bounce_count. by rewrite filter_app, length_app. Qed.

Lemma emit_bounces name bind e (st : state (W := W)) :
  (bounce_count name (hist (emit bind e st)) <= bounce_count name (hist st) + bounce_count name [e])%nat.
Proof.
  destruct (logErr st) as [x|] eqn:E; [rewrite (emit_stuck _ _ _ x) by done; lia|]. unfold emit. rewrite E.
  destruct (append bind st e) as [st' err] eqn:Ea. cbn [log].
  apply append_cases in Ea as [_ [[_ (e' & (t & p & ->) & ->)]|(x & _ & ->)]]; [|lia].
  rewrite bounce_count_app. unfold bounce_count, is_bounce. rewrite !filter_cons, !filter_nil. cbn [ev_Type ev_Step].
  do 2 case_decide; cbn; try lia. naive_solver.
Qed.

Lemma emit_no_bounce name bind e (st : state (W := W)) : ev_Type e <> "bounced_back" ->
  (bounce_count name (hist (emit bind e st)) <= bounce_count name (hist st))%nat.
Proof.
  intros Ht. pose proof (emit_bounces name bind e st) as Hb. unfold bounce_count at 3 in Hb.
  rewrite filter_cons, decide_False in Hb by (by intros [? _]). cbn in Hb. lia.
Qed.

Lemma doors_no_bounce name bind evs (st : state (W := W)) : Forall door_event evs ->
  bounce_count name (hist (fold_left (appendEvent bind) evs st)) = bounce_count name (hist st).
Proof.
  intros HF. destruct (doors_cases bind evs st) as (es & ds & Hsub & HF2 & -> & _). rewrite bounce_count_app.
  assert (bounce_count name ds = O); [|lia]. unfold bounce_count. rewrite filter_none; [done|].
  assert (HE : Forall door_event es).
  { apply Forall_forall. intros x Hx. apply (proj1 (Forall_forall _ _) HF). by eapply elem_of_sublist. }
  clear -HE HF2. induction HF2 as [|e e' es ds (t & p & ->) _ IH]; [constructor|]. inversion HE as [|? ? [Hd] HE']; subst.
  constructor; [|by apply IH]. intros [Ht _]. change (ev_Type e = "bounced_back") in Ht. unfold door in Hd. rewrite Ht in Hd.
  by apply doorTypes_iff in Hd.
Qed.

Lemma serve_no_bounce name input bind fronted agent v (st : state (W := W)) :
  bounce_count name (hist (match serve_step input bind fronted agent v st with inl st' => st' | inr (_, _, _, st') => st' end))
  = bounce_count name (hist st).
Proof.
  unfold serve_step. destruct fronted; [|by destruct (Execute _ _ _ _ _ _) as [[r evs] w]].
  destruct (Start _ _ _) as [[r evs] w] eqn:Es. destruct r as [c|x].
  2:{ by apply contract_refused in Es as ->. }
  apply contract_start in Es as [Hev _]. destruct (Execute _ _ _ _ _ _) as [[r1 evs1] w1] eqn:Ee.
  apply contract_execute in Ee as [Hev1 _]. destruct (Stop _) as [[n evs2] w2] eqn:Ep.
  apply contract_stop in Ep as (Hev2 & _). rewrite doors_no_bounce by done. cbn [log].
  rewrite doors_no_bounce by done. cbn [log]. by rewrite doors_no_bounce.
Qed.

(** The loop's invariant: recorded bounces never exceed the counter, which
    never exceeds the step's cap while the loop goes on. *)
Definition bounce_inv (steps : list Step) (v : vars) (st : state (W := W)) : Prop :=
  forall name, Z.of_nat (bounce_count name (hist st)) <= default 0 (bounces v !! name) /\
               default 0 (bounces v !! name) <= Z.of_nat (max_cap steps name).

Definition step_bounces (steps : list Step) (x : next (W := W)) : Prop :=
  match x with
  | Return _ _ st => forall name, (bounce_count name (hist st) <= max_cap steps name)%nat
  | Continue _ v st => bounce_inv steps v st
  end.

(** No more bounces than before. *)
Definition no_more (st st' : state (W := W)) : Prop :=
  forall name, (bounce_count name (hist st') <= bounce_count name (hist st))%nat.

Lemma inv_no_more steps v v' st st' : bounces v' = bounces v -> bounce_inv steps v st -> no_more st st' -> bounce_inv steps v' st'.
Proof. intros E Hi Hn name. rewrite E. destruct (Hi name) as [H1' H2']. specialize (Hn name). lia. Qed.

Lemma return_bounces steps v runID r e f bind status reason st0 st :
  bounce_inv steps v st0 -> no_more st0 st -> step_bounces steps (return_recorded runID r e f (finish bind status reason st)).
Proof.
  intros Hi Hn. assert (Hf : forall name, (bounce_count name (hist (finish bind status reason st)) <= max_cap steps name)%nat).
  { intros name. assert (bounce_count name (hist (finish bind status reason st)) <= bounce_count name (hist st))%nat
      by (apply emit_no_bounce; discriminate).
    specialize (Hn name). destruct (Hi name). lia. }
  unfold return_recorded, failed. by destruct (logErr (finish bind status reason st)).
Qed.

Lemma finishStep_no_more bind ok e k (st : state (W := W)) : no_more st (finishStep bind ok e k st).
Proof. intros name. apply emit_no_bounce. by destruct ok. Qed.

Lemma no_more_trans (a b c : state (W := W)) : no_more a b -> no_more b c -> no_more a c.
Proof. intros H1' H2' name. specialize (H1' name). specialize (H2' name). lia. Qed.

Lemma fail_back_bounces runID bind steps step agent reason k i v st0 st :
  step ∈ steps -> bounce_inv steps v st0 -> no_more st0 st ->
  step_bounces steps (fail_back runID bind steps step agent reason k i v st).
Proof.
  intros Hin Hi Hn. unfold fail_back. set (e := apply_update _ (step_event step agent)).
  pose proof (no_more_trans _ _ _ Hn (finishStep_no_more bind false e k st)) as Hn1.
  set (st1 := finishStep bind false e k st) in *. destruct (ctx_err (world st1)) as [c w].
  assert (Hn2 : no_more st0 (MkState (log st1) (logErr st1) w)) by exact Hn1.
  destruct c; [by eapply return_bounces|].
  match goal with |- context [if ?b || _ then _ else _] => destruct b; [by eapply return_bounces|] end.
  match goal with |- context [?c <? ?b] => destruct (Z.ltb_spec c b) as [|Hcap] end; [by eapply return_bounces|].
  cbn [orb]. intros name. cbn [bounces].
  match goal with |- context [emit bind ?b ?s] => pose proof (emit_bounces name bind b s) as He; set (bev := b) in * end.
  specialize (Hn2 name). destruct (Hi name) as [Hc Hm]. cbn [log] in *.
  destruct (decide (s_Name step = name)) as [<-|Hne].
  - rewrite lookup_insert_eq. assert (Ed : forall x : Z, default 0 (Some x) = x) by done. rewrite Ed.
    assert (bounce_count (s_Name step) [bev] <= 1)%nat by (unfold bounce_count; etrans; [apply length_filter|done]).
    pose proof (max_cap_ge steps step Hin) as Hge. unfold step_cap in Hge. lia.
  - rewrite lookup_insert_ne by done. assert (bounce_count name [bev] = O) as Hz.
    { unfold bounce_count. rewrite filter_cons, decide_False; [done|]. by intros [_ ?]. }
    lia.
Qed.

Lemma run_step_bounces reg opts input runID bind steps i v st :
  (i < length steps)%nat -> bounce_inv steps v st -> step_bounces steps (run_step reg opts input runID bind steps i v st).
Proof.
  intros Hi Hb. unfold run_step.
  assert (Hr : no_more st st) by (by intros name). destruct (logErr st).
  { intros name. destruct (Hb name). lia. }
  destruct (ctx_err (world st)) as [c w]. set (st1 := MkState (log st) None w).
  destruct c; [by eapply (return_bounces _ _ _ _ _ _ _ _ _ st st1)|].
  set (step := nth i steps zeroStep). set (agent := default zeroAgent (Agent reg (s_Agent step))).
  assert (Hin : step ∈ steps) by (apply list_elem_of_In, nth_In; done).
  set (e := apply_update _ (step_event step agent)).
  assert (Hn1 : no_more st (emit bind e st1)) by (intros name; apply (emit_no_bounce name bind e st1); discriminate).
  pose proof (fun name => serve_no_bounce name input bind
    (op_NewGateway opts && bool_decide (EffectiveExecution agent = "fronted")) agent v (emit bind e st1)) as Hs.
  destruct (serve_step _ _ _ _ _ _) as [st2|[[[res execErr] k] st2]];
    (assert (Hn2 : no_more st st2) by (intros name; rewrite Hs; apply Hn1)).
  { eapply return_bounces; [done|]. eapply no_more_trans; [done|apply finishStep_no_more]. }
  destruct execErr as [x|].
  { destruct (ee_config x); [|by eapply fail_back_bounces].
    eapply return_bounces; [done|]. eapply no_more_trans; [done|apply finishStep_no_more]. }
  destruct (sr_Success res); [|by eapply fail_back_bounces]. unfold succeed. destruct (bool_decide _).
  { eapply inv_no_more; [|exact Hb|]; [done|]. eapply no_more_trans; [done|apply finishStep_no_more]. }
  destruct (store_put _ _) as [[[sha preview]|perr] w'].
  - eapply inv_no_more; [|exact Hb|]; [done|]. eapply no_more_trans; [exact Hn2|].
    apply (finishStep_no_more bind true _ k (MkState (log st2) (logErr st2) w')).
  - eapply return_bounces; [done|]. eapply no_more_trans; [exact Hn2|].
    apply (finishStep_no_more bind false _ k (MkState (log st2) (logErr st2) w')).
Qed.

Lemma run_loop_bounces reg opts input runID bind steps fuel i v st r e st' :
  bounce_inv steps v st -> run_loop reg opts input runID bind steps fuel i v st = Some (r, e, st') ->
  forall name, (bounce_count name (hist st') <= max_cap steps name)%nat.
Proof.
  revert i v st; induction fuel as [|fuel IH]; [done|]. intros i v st Hb. cbn [run_loop].
  destruct (Nat.ltb_spec i (length steps)) as [Hi|Hi].
  - pose proof (run_step_bounces reg opts input runID bind steps i v st Hi Hb) as Hs.
    destruct (run_step _ _ _ _ _ _ _ _ _); [by intros [= <- <- <-]|by apply IH].
  - pose proof (return_bounces steps v runID (MkResult runID "succeeded" (lastSHA v) (lastPreview v)) None ErrLedgerWrite
      bind "succeeded" "" st st Hb ltac:(by intros name)) as Hs.
    destruct (return_recorded _ _ _ _ _); [by intros [= <- <- <-]|done].
Qed.

(** Fail-back is bounded: over a gateway that records only door events,
    however often the steps fail and whatever else goes wrong, a run records
    at most [max_bounces] (2 when unset) [bounced_back] events for each step
    name. *)
Theorem bounces_are_capped (reg : Registry) (role workflow input : string) (inv : Invoker) (opts : Options)
    (oe : open_env) (disk : option string) (w : W) (r : Result) (e : option run_error) (st : state) (wf : WorkflowDef) (name : string)
    (Hwf : Workflow reg workflow = Some wf)
    (Hrun : Run reg role workflow input inv opts oe disk w = Some (r, e, Some st)) :
  (bounce_count name (hist st) <= max_cap (w_Steps wf) name)%nat.
Proof.
  unfold Run in Hrun. destruct (new_id _ w) as [runID w1]. destruct (OpenLog oe disk) as [[l|x] d] eqn:Eo; [|done].
  apply OpenLog_inv in Eo as (_ & Hh & _). rewrite Hwf in Hrun. cbn [default] in Hrun.
  destruct (store_open w1) as [[u|x] w2]; [|injection Hrun as _ _ <-; cbn; rewrite Hh; cbn; lia].
  assert (H0' : forall e0 b, ev_Type e0 <> "bounced_back" -> bounce_count name (hist (emit b e0 (MkState l None w2))) = O).
  { intros e0 b He. pose proof (emit_no_bounce name b e0 (MkState l None w2) He) as Hn. cbn [log] in Hn. rewrite Hh in Hn.
    change (bounce_count name []) with O in Hn. lia. }
  destruct (Admit reg role workflow inv) as [reason|].
  { injection Hrun as _ _ <-. rewrite H0' by discriminate. lia. }
  destruct (run_loop _ _ _ _ _ _ _ _ _ _) as [[[r1 e1] st1]|] eqn:El; [|done]. injection Hrun as _ _ <-.
  eapply run_loop_bounces in El; [apply El|]. intros nm. cbn [bounces]. rewrite lookup_empty. cbn [default].
  match goal with |- context [emit ?b ?e0 ?s] =>
    assert (Hn : (bounce_count nm (hist (emit b e0 s)) <= bounce_count nm (hist s))%nat) by (apply emit_no_bounce; discriminate);
    set (st2 := emit b e0 s) in * end.
  cbn [log] in Hn. rewrite Hh in Hn. change (bounce_count nm []) with O in Hn. change (default 0 None) with 0. lia.
Qed.

(** What an auditor who reads the run's file finds: an intact chain, exactly
    the recorded events, and a complete account of the run. *)
Definition audited_complete (renv : open_env) (st : state (W := W)) : Prop :=
  exists evs head N,
    ReadLog renv (Some (file (l_c (log st)))) = (evs, head, None) /\
    evs = map san_event (hist st) /\ Check_ evs = MkReport Complete "" N.

Lemma run_audited (reg : Registry) (role workflow input : string) (inv : Invoker) (opts : Options)
    (oe : open_env) (disk : option string) (w : W) (r : Result) (e : option run_error) (st : state) (renv : open_env)
    (Hsteps : forall wf, Workflow reg workflow = Some wf -> w_Steps wf <> [])
    (Hdepth : int_ok (b_Depth (root_binding inv role workflow "" (op_Parent opts))))
    (Hrun : Run reg role workflow input inv opts oe disk w = Some (r, e, Some st))
    (Hstore : forall t, e <> Some (EStoreOpen t))
    (Hread : open_ok renv = true /\ read_fault renv = false) :
  audited_complete renv st.
Proof.
  cut (sound st /\ exists N, Check_ (map san_event (hist st)) = MkReport Complete "" N).
  { intros [(Hl & _ & HF) [N HN]]. destruct Hread. eexists _, _, N. split_and!; [by apply ReadLog_back|done|done]. }
  unfold Run in Hrun. destruct (new_id _ w) as [runID w1].
  set (bind := root_binding inv role workflow runID (op_Parent opts)) in *.
  assert (Hb : int_ok (b_Depth bind)) by (unfold bind, root_binding, linkedTo in *; by destruct (op_Parent opts)).
  destruct (OpenLog oe disk) as [[l|x] d] eqn:Eo; [|done]. apply OpenLog_inv in Eo as (Hl & Hh & _).
  destruct (store_open w1) as [[u|x] w2]; [|injection Hrun as _ <- _; by destruct (Hstore x)].
  set (st0 := MkState l None w2) in *.
  assert (Hs0 : sound st0) by (split_and!; [done|done|cbn; rewrite Hh; constructor]).
  destruct (Admit reg role workflow inv) as [reason|] eqn:Ea.
  - set (ev := refused_event reason (op_Origin opts)) in *. injection Hrun as _ _ <-.
    assert (Hs : sound (emit bind ev st0)) by (apply emit_sound; [done|by apply engine_plain|done]).
    split; [done|]. exists 0.
    destruct (emit_cases bind ev st0 eq_refl) as [[_ (e' & (t & q & ->) & ->)]|[le Hle]].
    + cbn [log st0]. rewrite Hh. apply check_complete_iff. left. eexists. split; [reflexivity|]. done.
    + by rewrite (proj1 (proj2 Hs)) in Hle.
  - set (ev := apply_update _ _) in Hrun. set (wf := default _ _) in Hrun.
    assert (Hne : w_Steps wf <> []).
    { unfold wf. unfold Admit in Ea. destruct (Role reg role); [|done].
      destruct (Workflow reg workflow) as [wf'|] eqn:Ew; [|done]. by apply Hsteps. }
    destruct (run_loop _ _ _ _ _ _ _ _ _ _) as [[[r1 e1] st1]|] eqn:El; [|done]. injection Hrun as _ _ <-.
    eapply (run_loop_sound _ _ _ _ _ _ "workflow_started") in El as [Hd Hs]; [|done| |by apply started_between|].
    + split; [done|]. unfold done_ok in Hd. rewrite (proj1 (proj2 Hs)) in Hd. destruct Hd as ((n & Hf) & _).
      exists (Z.of_nat n). apply check_complete_iff. right. exists (res_Status r1), n. split; [by apply san_finished|done].
    + apply emit_sound; [done|by apply engine_plain|done].
    + right. destruct (w_Steps wf); [done|cbn; lia].
Qed.

(** C1: the end-to-end guarantee.  Over a gateway that keeps its contract, on
    a disk that does not fail, whatever the executor and the agents do: a run
    that opened its log and store leaves bytes which verify as an intact
    chain, decode to exactly the events the engine recorded, and are judged
    complete by [Check], refused, failed, cancelled and succeeded runs alike. *)
Theorem run_is_audited_complete (reg : Registry) (role workflow input : string) (inv : Invoker) (opts : Options)
    (oe : open_env) (disk : option string) (w : W) (r : Result) (e : option run_error) (st : state) (renv : open_env)
    (Hsteps : forall wf, Workflow reg workflow = Some wf -> w_Steps wf <> [])
    (Hdepth : int_ok (b_Depth (root_binding inv role workflow "" (op_Parent opts))))
    (Hrun : Run reg role workflow input inv opts oe disk w = Some (r, e, Some st))
    (Hstore : forall t, e <> Some (EStoreOpen t))
    (Hread : open_ok renv = true /\ read_fault renv = false) :
  audited_complete renv st.
Proof. by eapply run_audited. Qed.

End audit.

#[local] Existing Instance toy_text.

(** The small world keeps the contract. *)
#[global] Instance toy_contract : GatewayContract toy.
Proof.
  refine {| admitted := fun w => if toy_seen w then 1 else 0 |}; cbn.
  - by intros w b a c evs w' [= <- <- <-].
  - by intros w b a x evs w' [= <- <- <-].
  - intros w c b a i arts r evs w' [= <- <- <-]. destruct (toy_seen w); [by split; [constructor|]|].
    split; [|done]. apply Forall_singleton. split; try done. apply doorTypes_iff. reflexivity.
  - intros w n evs w' [= <- <- <-]. by destruct (toy_seen w).
  - done.
  - done.
Defined.

#[global] Instance toy_good : GoodHost toy.
Proof. split; [done|]. intros w. by vm_compute. Defined.

Lemma run_is_audited_complete_witness :
  exists evs head, ReadLog ex_env (Some (file (l_c (log toy_state)))) = (evs, head, None) /\
    Check_ evs = MkReport Complete "" 4.
Proof.
  destruct (run_is_audited_complete ex_registry "dev" "main" "hi" toy_invoker toy_options ex_env None toy_world
    toy_result None toy_state ex_env ex_steps ltac:(by vm_compute) toy_run_eq ltac:(done) ltac:(done))
    as (evs & head & N & Hr & -> & Hc).
  exists (map san_event (l_hist (log toy_state))), head. split; [exact Hr|]. rewrite Hc. 
  assert (E : Check_ (map san_event (l_hist (log toy_state))) = MkReport Complete "" 4) by (vm_compute; reflexivity).
  rewrite Hc in E. exact E.
Defined.

Definition ex_main : WorkflowDef :=
  MkWorkflow "main" [MkStep "plan" "lead" "" "" 0; MkStep "do" "worker" "" "plan" 1] "w.yaml".

Lemma bounces_are_capped_witness : (bounce_count "do" (l_hist (log toy_state)) <= 1)%nat.
Proof.
  refine (bounces_are_capped ex_registry "dev" "main" "hi" toy_invoker toy_options ex_env None toy_world
    toy_result None toy_state ex_main "do" _ toy_run_eq). vm_compute. reflexivity.
Defined.
