(* ===== verification/Tree.v ===== *)
(** * Delegation trees ([internal/completeness/tree.go])

    A run that spawned others is audited together with them: [VerifyTree]
    walks the spawn events depth-first, reads every child's ledger, checks
    that parent and child name each other, and finally scans the log directory
    for children no spawn event names.  The file system is the directory
    listing and a finite map from paths to contents. *)
From S2P Require Import Prelude Sha256 GoStr Json Paths Ledger Config Authz Origin Registry Event Engine EngineTrace Completeness.

Record Node : Type := MkNode { RunID : string; Integrity : string; n_Report : Report }.
Record Tree : Type := MkTree { Root : Node; Children : list Node }.

Definition zeroReport : Report := MkReport "" "" 0.

Definition IntegrityWord (verr : option ledger_error) : string :=
  match verr with
  | None => "verified"
  | Some (TornError _) => "torn"
  | Some (ChainBrokenError _) => "broken"
  | Some _ => "error"
  end.

(** The log directory: what [os.ReadDir] lists (name and [IsDir], in name
    order; [None] when it fails), and the files by path, each with the
    outcome of its system calls. *)
Record LogDir : Type := MkLogDir {
  ld_list : option (list (string * bool));
  ld_files : gmap string (open_env * string);
}.

Definition no_env : open_env := MkOpenEnv true true (Ok ()) false.

Definition read_file (d : LogDir) (path : string) : list Event * Head * option ledger_error :=
  match ld_files d !! path with
  | Some (env, content) => ReadLog env (Some content)
  | None => ReadLog no_env None
  end.

Definition log_path (logDir runID : string) : string := Join [logDir; runID +:+ ".jsonl"].

Definition read_run (d : LogDir) (logDir runID : string) := read_file d (log_path logDir runID).

Definition events_of (r : list Event * Head * option ledger_error) : list Event := r.1.1.
Definition error_of (r : list Event * Head * option ledger_error) : option ledger_error := r.2.

(** ** The reverse map ([firstParent], [Parents]) *)

(** [bufio.ScanLines] drops one carriage return before the newline; a line
    that does not fit the 16 MiB buffer ends the scan. *)
Definition scan_first (content : string) : option string :=
  match split_lines content with
  | [] => None
  | (raw, _) :: _ =>
      if Z.of_nat (String.length raw) <? 16 * 2 ^ 20 then Some (trim_suffix raw (String "013" "")) else None
  end.

Definition firstParent (d : LogDir) (path : string) : string :=
  match ld_files d !! path with
  | None => ""
  | Some (env, content) =>
      if negb (open_ok env) then ""
      else match scan_first content with
           | None => ""
           | Some line => match unmarshal_event line with
                          | None => ""
                          | Some e => b_ParentRunID (ev_Binding e)
                          end
           end
  end.

Definition skipped (name : string) (isDir : bool) : bool :=
  isDir || negb (has_suffix name ".jsonl") || bool_decide (name = "control.jsonl") || str_contains name ".torn-".

Definition add_parent (d : LogDir) (logDir : string) (out : gmap string string) (entry : string * bool) : gmap string string :=
  let '(name, isDir) := entry in
  if skipped name isDir then out
  else <[trim_suffix name ".jsonl" := firstParent d (Join [logDir; name])]> out.

Definition Parents (d : LogDir) (logDir : string) : option (gmap string string) :=
  match ld_list d with
  | None => None
  | Some entries => Some (foldl (add_parent d logDir) ∅ entries)
  end.

(** ** The walk ([link], [VerifyTree]) *)

(** What [link] mutates: the report, the ids this run's spawn events name,
    the ids walked so far and the nodes appended so far. *)
Record walking : Type := MkWalking {
  wk_rep : Report;
  wk_named : gset string;
  wk_seen : gset string;
  wk_children : list Node;
}.

Definition downgrade (rep : Report) (detail : string) : Report :=
  if negb (bool_decide (Verdict rep = Gap)) then gap detail else rep.

Definition names_child (e : Event) : bool :=
  bool_decide (ev_Type e = "spawn") && negb (bool_decide (ev_ChildRunID e = "")).

Section Walk.
Context `{GoText} (d : LogDir) (logDir : string) (parents : option (gmap string string)).

(** The recursive call: the child's id, events and report, and the shared
    [seen] and [Children]. *)
Abbreviation recursion := (string -> list Event -> Report -> gset string -> list Node ->
                           option (Report * gset string * list Node)).

Definition link_back (runID : string) (e : Event) (cev : list Event) (rep : Report) : Report :=
  match cev with
  | [] => rep
  | first :: _ =>
      let b := ev_Binding first in
      if negb (bool_decide (b_ParentRunID b = runID))
      then downgrade rep ("child " +:+ ev_ChildRunID e +:+ " names parent " +:+ quote (b_ParentRunID b) +:+ ", not this run")
      else if negb (b_Depth b =? ev_Depth e)
      then downgrade rep ("child " +:+ ev_ChildRunID e +:+ " is at depth " +:+ itoa (b_Depth b) +:+ ", spawn says " +:+ itoa (ev_Depth e))
      else rep
  end.

Definition link_event (rec : recursion) (runID : string) (w : walking) (e : Event) : option walking :=
  if negb (names_child e) then Some w
  else
    let child := ev_ChildRunID e in
    let named := {[child]} ∪ wk_named w in
    if bool_decide (child ∈ wk_seen w) then Some (MkWalking (wk_rep w) named (wk_seen w) (wk_children w))
    else
      let seen := {[child]} ∪ wk_seen w in
      let r := read_run d logDir child in
      if bool_decide (error_of r = Some ErrNotExist) then
        Some (MkWalking (downgrade (wk_rep w) ("spawn names child " +:+ child +:+ ": no ledger under the log directory"))
                named seen (wk_children w))
      else
        let rep := link_back runID e (events_of r) (wk_rep w) in
        let node rp := MkNode child (IntegrityWord (error_of r)) rp in
        match error_of r with
        | Some _ => Some (MkWalking rep named seen (wk_children w ++ [node zeroReport]))
        | None =>
            let crep := Check_ (events_of r) in
            if negb (bool_decide (Verdict crep = NoClaim)) then
              match rec child (events_of r) crep seen (wk_children w) with
              | Some (crep', seen', children') => Some (MkWalking rep named seen' (children' ++ [node crep']))
              | None => None
              end
            else Some (MkWalking rep named seen (wk_children w ++ [node crep]))
        end.

Fixpoint link_events (rec : recursion) (runID : string) (w : walking) (events : list Event) : option walking :=
  match events with
  | [] => Some w
  | e :: rest =>
      match link_event rec runID w e with
      | Some w' => link_events rec runID w' rest
      | None => None
      end
  end.

Definition unnamed_detail (id : string) : string :=
  "child " +:+ id +:+ " names this run as its parent; no spawn event names it".

Definition reverse_step (ps : gmap string string) (runID : string) (named : gset string) (rep : Report) (id : string) : Report :=
  if bool_decide (ps !! id = Some runID) && negb (bool_decide (id ∈ named))
  then downgrade rep (unnamed_detail id) else rep.

Definition reverse_check (runID : string) (named : gset string) (rep : Report) : Report :=
  if bool_decide (Verdict rep = Unterminated) then rep
  else match parents with
       | None => downgrade rep "log directory could not be scanned for children"
       | Some ps => foldl (reverse_step ps runID named) rep (sort_strings (map fst (map_to_list ps)))
       end.

(** [None] is a walk that ran out of fuel. *)
Fixpoint link (fuel : nat) (runID : string) (events : list Event) (rep : Report) (seen : gset string) (children : list Node)
  : option (Report * gset string * list Node) :=
  match fuel with
  | O => None
  | S f =>
      match link_events (link f) runID (MkWalking rep ∅ seen children) events with
      | Some w => Some (reverse_check runID (wk_named w) (wk_rep w), wk_seen w, wk_children w)
      | None => None
      end
  end.
End Walk.

(** The ids a list of events names, and every id named in any file: the walk
    enters each at most once, so this many levels are enough. *)
Definition child_ids (events : list Event) : gset string := list_to_set (map ev_ChildRunID events).
Definition all_ids (d : LogDir) (events : list Event) : gset string :=
  child_ids events ∪ ⋃ (map (fun f => child_ids (events_of (ReadLog f.2.1 (Some f.2.2)))) (map_to_list (ld_files d))).
Definition tree_fuel (d : LogDir) (events : list Event) : nat := S (size (all_ids d events)).

Definition VerifyTree `{GoText} (d : LogDir) (logDir runID : string) (events : list Event) (verr : option ledger_error)
  : option Tree :=
  match verr with
  | Some _ => Some (MkTree (MkNode runID (IntegrityWord verr) zeroReport) [])
  | None =>
      let rep := Check_ events in
      if bool_decide (Verdict rep = NoClaim) then Some (MkTree (MkNode runID (IntegrityWord verr) rep) [])
      else match link d logDir (Parents d logDir) (tree_fuel d events) runID events rep {[runID]} [] with
           | Some (rep', _, children) => Some (MkTree (MkNode runID (IntegrityWord verr) rep') children)
           | None => None
           end
  end.

(** ** Reading a tree *)
Fixpoint first_failure (ns : list Node) : string :=
  match ns with
  | [] => ""
  | c :: r => if negb (bool_decide (Integrity c = "verified")) then Integrity c else first_failure r
  end.
Definition ChildIntegrityFailure (t : Tree) : string := first_failure (Children t).

Fixpoint worst_of (ns : list Node) (worst : string) : string :=
  match ns with
  | [] => worst
  | c :: r =>
      if bool_decide (Verdict (n_Report c) = Gap) then Gap
      else if bool_decide (Verdict (n_Report c) = Unterminated) then worst_of r Unterminated
      else worst_of r worst
  end.
Definition ChildCompletenessWorst (t : Tree) : string := worst_of (Children t) "".

Definition has_verdict (v : string) (ns : list Node) : bool :=
  List.existsb (fun n => bool_decide (Verdict (n_Report n) = v)) ns.

Definition ExitCode (t : Tree) : Z :=
  if negb (bool_decide (Integrity (Root t) = "verified")) || negb (bool_decide (ChildIntegrityFailure t = "")) then 1
  else
    let all := Root t :: Children t in
    if has_verdict Gap all then 11
    else if has_verdict Unterminated all then 12
    else 0.

Definition subtree_line (suffix : option (Node -> string)) (c : Node) : string :=
  let comp := if bool_decide (Verdict (n_Report c) = "") then "not judged" else Verdict (n_Report c) in
  let extra := match suffix with Some f => f c | None => "" end in
  "subtree: run " +:+ RunID c +:+ " " +:+ dash +:+ " integrity " +:+ Integrity c +:+ ", completeness " +:+ comp +:+ extra +:+ String newline "".

Definition SubtreeLinesWith (t : Tree) (suffix : option (Node -> string)) : string :=
  fold_right (fun c acc => subtree_line suffix c +:+ acc) "" (Children t).
Definition SubtreeLines (t : Tree) : string := SubtreeLinesWith t None.

(** ** Termination *)
Lemma child_in_ids e evs : e ∈ evs -> ev_ChildRunID e ∈ child_ids evs.
Proof. intros He. apply elem_of_list_to_set. by apply list_elem_of_fmap_2. Qed.

Lemma child_ids_cons e evs : child_ids (e :: evs) = {[ev_ChildRunID e]} ∪ child_ids evs.
Proof. done. Qed.

Lemma all_ids_run d logDir events id : child_ids (events_of (read_run d logDir id)) ⊆ all_ids d events.
Proof.
  unfold read_run, read_file. destruct (ld_files d !! log_path logDir id) as [[env c]|] eqn:E.
  - unfold all_ids. apply union_subseteq_r'. intros x Hx. apply elem_of_union_list. eexists. split; [|exact Hx].
    apply list_elem_of_fmap. exists (log_path logDir id, (env, c)). split; [done|]. by apply elem_of_map_to_list.
  - cbn. set_solver.
Qed.

Section Facts.
Context `{GoText} (d : LogDir) (logDir : string) (parents : option (gmap string string)).

Abbreviation link_ev := (link_event d logDir).
Abbreviation link_evs := (link_events d logDir).

Lemma not_seen_smaller (U seen : gset string) (c : string) : c ∈ U -> c ∉ seen -> (size (U ∖ ({[c]} ∪ seen)) < size (U ∖ seen))%nat.
Proof. intros Hc Hs. apply subset_size. split; [set_solver|]. intros Hsub. specialize (Hsub c). set_solver. Qed.

Section Total.
Context (U : gset string) (HU : forall id, child_ids (events_of (read_run d logDir id)) ⊆ U).

Definition returns (f : nat) (rec : string -> list Event -> Report -> gset string -> list Node -> option (Report * gset string * list Node)) : Prop :=
  forall id evs rep seen ch, child_ids evs ⊆ U -> (size (U ∖ seen) < f)%nat ->
    exists rep' seen' ch', rec id evs rep seen ch = Some (rep', seen', ch') /\ seen ⊆ seen'.

Lemma link_event_total f rec runID w e :
  returns f rec -> ev_ChildRunID e ∈ U -> (size (U ∖ wk_seen w) <= f)%nat ->
  exists w', link_ev rec runID w e = Some w' /\ wk_seen w ⊆ wk_seen w'.
Proof.
  intros Hrec Hc Hf. unfold link_event. destruct (names_child e); cbn [negb]; [|by eexists].
  case_bool_decide as Hseen; [eexists; split; [done|set_solver]|].
  case_bool_decide; [eexists; split; [done|set_solver]|].
  destruct (error_of _) as [x|] eqn:E; [eexists; split; [done|set_solver]|].
  case_bool_decide; cbn [negb]; [eexists; split; [done|set_solver]|].
  pose proof (not_seen_smaller U _ _ Hc Hseen) as Hlt.
  destruct (Hrec (ev_ChildRunID e) (events_of (read_run d logDir (ev_ChildRunID e)))
    (Check_ (events_of (read_run d logDir (ev_ChildRunID e)))) ({[ev_ChildRunID e]} ∪ wk_seen w) (wk_children w))
    as (rep' & seen' & ch' & -> & Hs); [apply HU|lia|].
  eexists. split; [done|]. cbn. set_solver.
Qed.

Lemma link_events_total f rec runID evs : returns f rec -> child_ids evs ⊆ U ->
  forall w, (size (U ∖ wk_seen w) <= f)%nat ->
  exists w', link_evs rec runID w evs = Some w' /\ wk_seen w ⊆ wk_seen w'.
Proof.
  intros Hrec. induction evs as [|e evs IH]; intros Hids w Hf; [by exists w|]. rewrite child_ids_cons in Hids.
  destruct (link_event_total f rec runID w e Hrec) as (w1 & E1 & Hs1); [set_solver|done|].
  cbn [link_events]. rewrite E1. destruct (IH ltac:(set_solver) w1) as (w' & E' & Hs').
  { assert (size (U ∖ wk_seen w1) <= size (U ∖ wk_seen w))%nat by (apply subseteq_size; set_solver). lia. }
  exists w'. split; [done|set_solver].
Qed.

Lemma link_total f : returns f (link d logDir parents f).
Proof.
  induction f as [|f IH]; intros id evs rep seen ch Hids Hf; [lia|]. cbn [link].
  destruct (link_events_total f _ id evs IH Hids (MkWalking rep ∅ seen ch)) as (w & -> & Hs); [cbn; lia|].
  by do 3 eexists.
Qed.
End Total.

(** ** What a walk leaves *)
Definition good_rep (r : Report) : Prop := Verdict r <> Gap /\ Verdict r <> Unterminated.
Definition fine (n : Node) : Prop := Integrity n = "verified" /\ good_rep (n_Report n).

(** A report only ever moves to a gap. *)
Definition moved (r r' : Report) : Prop := r' = r \/ Verdict r' = Gap.

Lemma moved_refl r : moved r r.
Proof. by left. Qed.
Lemma moved_trans r1 r2 r3 : moved r1 r2 -> moved r2 r3 -> moved r1 r3.
Proof. unfold moved. intros [->|?] [->|?]; auto. Qed.
Lemma moved_good r r' : moved r r' -> good_rep r' -> r' = r.
Proof. intros [?|?] [? ?]; [done|congruence]. Qed.
Lemma downgrade_gap r s : Verdict (downgrade r s) = Gap.
Proof. unfold downgrade. by case_bool_decide. Qed.
Lemma downgrade_moved r s : moved r (downgrade r s).
Proof. right. apply downgrade_gap. Qed.

Lemma link_back_moved id e cev rep : moved rep (link_back id e cev rep).
Proof.
  unfold link_back. destruct cev; [apply moved_refl|]. case_bool_decide; cbn [negb]; [|apply downgrade_moved].
  destruct (_ =? _); cbn [negb]; [apply moved_refl|apply downgrade_moved].
Qed.

Lemma reverse_check_moved id named rep : moved rep (reverse_check parents id named rep).
Proof.
  unfold reverse_check. case_bool_decide; [apply moved_refl|]. destruct parents as [ps|]; [|apply downgrade_moved].
  generalize (sort_strings (map fst (map_to_list ps))). intros l. revert rep H0. induction l as [|x l IH]; intros rep Hr; [apply moved_refl|].
  cbn [foldl]. assert (Hm : moved rep (reverse_step ps id named rep x)).
  { unfold reverse_step. destruct (_ && _); [apply downgrade_moved|apply moved_refl]. }
  eapply moved_trans; [exact Hm|]. apply IH. destruct Hm as [->|E]; [done|]. rewrite E. discriminate.
Qed.

Lemma reverse_check_named id named rep :
  good_rep (reverse_check parents id named rep) ->
  exists ps, parents = Some ps /\ forall p, ps !! p = Some id -> p ∈ named.
Proof.
  intros Hg. pose proof (moved_good _ _ (reverse_check_moved id named rep) Hg) as E. rewrite E in Hg.
  revert E. unfold reverse_check. rewrite bool_decide_false by apply Hg.
  destruct parents as [ps|]; [|intros E; destruct Hg as [Hg _]; rewrite <- E in Hg; by rewrite downgrade_gap in Hg].
  intros E. exists ps. split; [done|]. intros p Hp. destruct (decide (p ∈ named)) as [|Hn]; [done|exfalso].
  assert (Hin : p ∈ sort_strings (map fst (map_to_list ps))).
  { apply elem_of_sort, list_elem_of_fmap. exists (p, id). split; [done|]. by apply elem_of_map_to_list. }
  assert (Hgap : Verdict (foldl (reverse_step ps id named) rep (sort_strings (map fst (map_to_list ps)))) = Gap).
  { clear E Hg. revert Hin. generalize (sort_strings (map fst (map_to_list ps))). intros l. revert rep.
    assert (Hstay : forall l rep, Verdict rep = Gap -> Verdict (foldl (reverse_step ps id named) rep l) = Gap).
    { clear l. induction l as [|x l IH]; intros rep Hr; [done|]. apply IH. unfold reverse_step.
      destruct (_ && _); [apply downgrade_gap|done]. }
    induction l as [|x l IH]; intros rep Hin; [by apply elem_of_nil in Hin|]. cbn [foldl].
    apply elem_of_cons in Hin as [<-|Hin]; [|by apply IH]. apply Hstay. unfold reverse_step.
    rewrite !bool_decide_true, bool_decide_false by done. apply downgrade_gap. }
  rewrite E in Hgap. by destruct Hg.
Qed.

(** A run's ledger: what its id reads as. *)
Definition ledger_of (id : string) (evs : list Event) : Prop := exists h, read_run d logDir id = (evs, h, None).

(** Spawn events and ledgers under the directory name each other: every
    child [evs] names is one of [S], and every ledger that names the run as
    its parent is named by [evs]. *)
Definition closed (S : gset string) (id : string) (evs : list Event) : Prop :=
  (forall e, e ∈ evs -> names_child e = true -> ev_ChildRunID e ∈ S) /\
  (exists ps, parents = Some ps /\
     forall p, ps !! p = Some id -> exists e, e ∈ evs /\ names_child e = true /\ ev_ChildRunID e = p).

(** [evs], the ledger of [id], is the child a spawn event of [pevs] names:
    its first event links back to [pid] at that event's depth. *)
Definition links (pid : string) (pevs : list Event) (id : string) (evs : list Event) : Prop :=
  exists e first rest, e ∈ pevs /\ names_child e = true /\ ev_ChildRunID e = id /\ evs = first :: rest /\
    b_ParentRunID (ev_Binding first) = pid /\ b_Depth (ev_Binding first) = ev_Depth e.

Definition parent_in (id : string) (evs : list Event) (new : list Node) (pid : string) (pevs : list Event) : Prop :=
  (pid = id /\ pevs = evs) \/ (exists n, n ∈ new /\ RunID n = pid /\ ledger_of pid pevs).

Record node_ok (S : gset string) (P : string -> list Event -> Prop) (n : Node) (evs : list Event) : Prop := {
  nok_ledger : ledger_of (RunID n) evs;
  nok_report : n_Report n = Check_ evs;
  nok_closed : Verdict (Check_ evs) <> NoClaim -> closed S (RunID n) evs;
  nok_linked : exists pid pevs, P pid pevs /\ links pid pevs (RunID n) evs;
}.

Lemma closed_mono S S' id evs : S ⊆ S' -> closed S id evs -> closed S' id evs.
Proof. intros HS [Hf Hr]. split; [|done]. intros. apply HS. by apply Hf. Qed.

Lemma node_ok_mono S S' (P P' : string -> list Event -> Prop) n evs :
  S ⊆ S' -> (forall pid pevs, P pid pevs -> P' pid pevs) -> node_ok S P n evs -> node_ok S' P' n evs.
Proof.
  intros HS HP [H1 H2 H3 (pid & pevs & H4 & H5)]. split; [done|done| |by eauto].
  intros Hn. eapply closed_mono; [exact HS|]. by apply H3.
Qed.

Definition ids (ns : list Node) : gset string := list_to_set (map RunID ns).
Definition all_ok (S : gset string) (id : string) (evs : list Event) (new : list Node) : Prop :=
  forall n, n ∈ new -> exists nevs, node_ok S (parent_in id evs new) n nevs.

(** The frame of a walk: what it appends is new, distinct and classified. *)
Record fresh (seen seen' : gset string) (new : list Node) : Prop := {
  fr_grows : seen ⊆ seen';
  fr_nodup : NoDup (map RunID new);
  fr_new : forall n, n ∈ new -> (RunID n ∉ seen) /\ RunID n ∈ seen' /\ Integrity n <> "";
}.

Lemma fresh_nil seen : fresh seen seen [].
Proof. split; [done|constructor|by intros ? ?%elem_of_nil]. Qed.

Lemma fresh_grow seen seen' seen'' new : fresh seen' seen'' new -> seen ⊆ seen' -> fresh seen seen'' new.
Proof. intros [H1 H2 H3] Hs. split; [set_solver|done|]. intros n Hn. destruct (H3 n Hn) as (? & ? & ?). set_solver. Qed.

Lemma fresh_app s1 s2 s3 new1 new2 : fresh s1 s2 new1 -> fresh s2 s3 new2 -> fresh s1 s3 (new1 ++ new2).
Proof.
  intros [G1 N1 F1] [G2 N2 F2]. split; [set_solver| |].
  - rewrite map_app. apply NoDup_app. split_and!; [done| |done].
    intros x (n1 & -> & Hn1)%list_elem_of_fmap (n2 & E & Hn2)%list_elem_of_fmap.
    destruct (F1 _ Hn1) as (_ & Hin & _), (F2 _ Hn2) as (Hout & _ & _). rewrite E in Hin. done.
  - intros n [Hn|Hn]%elem_of_app; [destruct (F1 _ Hn) as (? & ? & ?)|destruct (F2 _ Hn) as (? & ? & ?)]; set_solver.
Qed.

Lemma fresh_node c seen seen' new word rp :
  c ∉ seen -> word <> "" -> fresh ({[c]} ∪ seen) seen' new -> fresh seen seen' (new ++ [MkNode c word rp]).
Proof.
  intros Hc Hw [G N F]. split; [set_solver| |].
  - rewrite map_app. apply NoDup_app. split_and!; [done| |apply NoDup_singleton].
    intros x (n1 & -> & Hn1)%list_elem_of_fmap E%list_elem_of_singleton.
    destruct (F _ Hn1) as (Hout & _ & _). rewrite E in Hout. cbn in Hout. set_solver.
  - intros n [Hn|Hn%list_elem_of_singleton]%elem_of_app; [destruct (F _ Hn) as (? & ? & ?); set_solver|].
    subst n. cbn. set_solver.
Qed.

Lemma IntegrityWord_ne e : IntegrityWord e <> "".
Proof. by destruct e as [[]|]. Qed.

Lemma all_ok_nil S id evs : all_ok S id evs [].
Proof. by intros n ?%elem_of_nil. Qed.

Lemma all_ok_app S1 S2 id evs n1 n2 : S1 ⊆ S2 -> all_ok S1 id evs n1 -> all_ok S2 id evs n2 -> all_ok S2 id evs (n1 ++ n2).
Proof.
  intros HS H1 H2 n [Hn|Hn]%elem_of_app; [destruct (H1 n Hn) as [nevs Hok]|destruct (H2 n Hn) as [nevs Hok]];
    exists nevs; (eapply node_ok_mono; [| |exact Hok]; [done|]);
    intros pid pevs [?|(m & Hm & ?)]; [by left|right; exists m; set_solver|by left|right; exists m; set_solver].
Qed.

(** A judged child after its own subtree. *)
Lemma all_ok_node S id evs c cev new rp :
  ledger_of c cev -> rp = Check_ cev -> (Verdict (Check_ cev) <> NoClaim -> closed S c cev) ->
  links id evs c cev -> all_ok S c cev new -> all_ok S id evs (new ++ [MkNode c "verified" rp]).
Proof.
  intros Hl -> Hc Hlk Hok n [Hn|Hn%list_elem_of_singleton]%elem_of_app.
  - destruct (Hok n Hn) as [nevs Hno]. exists nevs. eapply node_ok_mono; [done| |exact Hno].
    intros pid pevs [[-> ->]|(m & Hm & ?)]; right; [|exists m; set_solver].
    exists (MkNode c "verified" (Check_ cev)). split_and!; [set_solver|done|done].
  - subst n. exists cev. split; [done..|]. exists id, evs. split; [by left|done].
Qed.

Lemma link_back_good id evs e c cev rep :
  good_rep (link_back id e cev rep) -> e ∈ evs -> names_child e = true -> ev_ChildRunID e = c -> cev <> [] ->
  links id evs c cev.
Proof.
  intros Hg He Hn Hc Hne. destruct cev as [|first rest]; [done|]. unfold link_back in Hg.
  case_bool_decide as E; cbn [negb] in Hg; [|destruct Hg as [Hg _]; by rewrite downgrade_gap in Hg].
  destruct (Z.eqb_spec (b_Depth (ev_Binding first)) (ev_Depth e)) as [Ed|]; cbn [negb] in Hg;
    [|destruct Hg as [Hg _]; by rewrite downgrade_gap in Hg].
  by exists e, first, rest.
Qed.

Abbreviation recursion := (string -> list Event -> Report -> gset string -> list Node ->
                           option (Report * gset string * list Node)).

Definition walk_spec (rec : recursion) : Prop := forall id evs rep seen ch rep' seen' ch',
  rec id evs rep seen ch = Some (rep', seen', ch') ->
  exists new, ch' = ch ++ new /\ fresh seen seen' new /\ moved rep rep' /\
    (Forall fine new -> good_rep rep' -> seen' = seen ∪ ids new /\ closed seen' id evs /\ all_ok seen' id evs new).

(** One event, and a run of events, of the ledger [evs] of [id]. *)
Definition step_spec (id : string) (evs todo : list Event) (w w' : walking) : Prop :=
  exists new, wk_children w' = wk_children w ++ new /\ fresh (wk_seen w) (wk_seen w') new /\ moved (wk_rep w) (wk_rep w') /\
    (forall c, c ∈ wk_named w' -> c ∈ wk_named w \/ exists e, e ∈ todo /\ names_child e = true /\ ev_ChildRunID e = c) /\
    (Forall fine new -> good_rep (wk_rep w') ->
       wk_seen w' = wk_seen w ∪ ids new /\
       (forall e, e ∈ todo -> names_child e = true -> ev_ChildRunID e ∈ wk_seen w') /\ all_ok (wk_seen w') id evs new).

Lemma step_spec_refl id evs w : step_spec id evs [] w w.
Proof.
  exists []. split_and!; [by rewrite app_nil_r|apply fresh_nil|apply moved_refl|by left|]. intros _ _.
  split_and!; [set_solver|by intros ? ?%elem_of_nil|apply all_ok_nil].
Qed.

Lemma step_spec_trans id evs todo1 todo2 w1 w2 w3 :
  step_spec id evs todo1 w1 w2 -> step_spec id evs todo2 w2 w3 -> step_spec id evs (todo1 ++ todo2) w1 w3.
Proof.
  intros (n1 & C1 & F1 & M1 & N1 & S1) (n2 & C2 & F2 & M2 & N2 & S2). exists (n1 ++ n2). split_and!.
  - by rewrite C2, C1, app_assoc.
  - by eapply fresh_app.
  - by eapply moved_trans.
  - intros c Hc. destruct (N2 c Hc) as [Hc'|(e & ? & ?)]; [|right; exists e; set_solver].
    destruct (N1 c Hc') as [?|(e & ? & ?)]; [by left|right; exists e; set_solver].
  - intros [Hf1 Hf2]%Forall_app Hg. destruct (S2 Hf2 Hg) as (E2 & D2 & O2).
    pose proof (moved_good _ _ M2 Hg) as E. rewrite E in Hg. destruct (S1 Hf1 Hg) as (E1 & D1 & O1). split_and!.
    + rewrite E2, E1. unfold ids. rewrite map_app, list_to_set_app_L. set_solver.
    + intros e [He|He]%elem_of_app Hn; [apply (fr_grows _ _ _ F2); by apply D1|by apply D2].
    + eapply all_ok_app; [apply (fr_grows _ _ _ F2)|done..].
Qed.

Lemma read_run_ledger c : error_of (read_run d logDir c) = None -> ledger_of c (events_of (read_run d logDir c)).
Proof. unfold error_of, events_of, ledger_of. destruct (read_run d logDir c) as [[evs h] err]. cbn. intros ->. by exists h. Qed.

Lemma Check_good_nonempty evs : good_rep (Check_ evs) -> evs <> [].
Proof. by intros [_ Hu] ->. Qed.

(** The event that names a child: its node after the nodes [sub] of its own
    walk. *)
Lemma named_step id evs w e rep seen' sub node :
  e ∈ evs -> names_child e = true -> ev_ChildRunID e ∉ wk_seen w -> RunID node = ev_ChildRunID e ->
  Integrity node <> "" -> moved (wk_rep w) rep -> fresh ({[ev_ChildRunID e]} ∪ wk_seen w) seen' sub ->
  (Forall fine (sub ++ [node]) -> good_rep rep ->
     seen' = ({[ev_ChildRunID e]} ∪ wk_seen w) ∪ ids sub /\ all_ok seen' id evs (sub ++ [node])) ->
  step_spec id evs [e] w (MkWalking rep ({[ev_ChildRunID e]} ∪ wk_named w) seen' ((wk_children w ++ sub) ++ [node])).
Proof.
  intros He Hn Hc Hid Hi Hm Hf Hok. exists (sub ++ [node]). cbn. split_and!; [by rewrite app_assoc| |done| |].
  - destruct node as [i word rp]. cbn in *. subst i. by apply fresh_node.
  - intros c [->%elem_of_singleton|?]%elem_of_union; [|by left]. right. exists e. set_solver.
  - intros Hfine Hg. destruct (Hok Hfine Hg) as [E1 O1]. split_and!; [|by intros e' ->%list_elem_of_singleton _; set_solver|done].
    rewrite E1. unfold ids. rewrite map_app, list_to_set_app_L. cbn. rewrite Hid. set_solver.
Qed.

Lemma link_event_spec rec id evs w e w' :
  walk_spec rec -> e ∈ evs -> link_ev rec id w e = Some w' -> step_spec id evs [e] w w'.
Proof.
  intros Hrec He. unfold link_event. destruct (names_child e) eqn:Hn; cbn [negb].
  2: { intros [= <-]. destruct (step_spec_refl id evs w) as (new & ? & ? & ? & ? & Hs). exists new. split_and!; [done..| |].
       - by left.
       - intros Hf Hg. destruct (Hs Hf Hg) as (? & _ & ?). split_and!; [done| |done]. intros e' ->%list_elem_of_singleton. congruence. }
  set (c := ev_ChildRunID e). case_bool_decide as Hseen.
  { intros [= <-]. exists []. cbn. split_and!; [by rewrite app_nil_r|apply fresh_nil|apply moved_refl| |].
    - intros x [->%elem_of_singleton|?]%elem_of_union; [right; exists e; set_solver|by left].
    - intros _ _. split_and!; [set_solver|by intros e' ->%list_elem_of_singleton _|apply all_ok_nil]. }
  case_bool_decide as Habs.
  { intros [= <-]. exists []. cbn. split_and!; [by rewrite app_nil_r| |apply downgrade_moved| |].
    - eapply fresh_grow; [apply fresh_nil|set_solver].
    - intros x [->%elem_of_singleton|?]%elem_of_union; [right; exists e; set_solver|by left].
    - intros _ [Hg _]. by rewrite downgrade_gap in Hg. }
  destruct (error_of (read_run d logDir c)) as [x|] eqn:Ee.
  { intros [= <-]. rewrite <- (app_nil_r (wk_children w)). apply named_step; try done.
    - exact (IntegrityWord_ne (Some x)).
    - apply link_back_moved.
    - apply fresh_nil.
    - rewrite app_nil_l, Forall_singleton. intros [Hw _] _. by destruct x. }
  pose proof (read_run_ledger c Ee) as Hl. set (cev := events_of (read_run d logDir c)) in *.
  case_bool_decide as Hnc; cbn [negb].
  { intros [= <-]. rewrite <- (app_nil_r (wk_children w)). apply named_step; try done.
    - apply link_back_moved.
    - apply fresh_nil.
    - rewrite app_nil_l, Forall_singleton. intros [_ Hg'] Hg. split; [set_solver|].
      apply (all_ok_node _ id evs c cev [] _); try done; [|apply all_ok_nil].
      eapply link_back_good; [exact Hg|done..|]. by apply Check_good_nonempty. }
  destruct (rec c cev (Check_ cev) _ _) as [[[crep seen'] ch']|] eqn:Er; [|done]. intros [= <-].
  apply Hrec in Er as (sub & -> & Hfr & Hmv & Hspec). apply named_step; try done; [apply link_back_moved|].
  intros [Hfs [_ Hgc]%Forall_singleton]%Forall_app Hg. destruct (Hspec Hfs Hgc) as (E1 & Hcl & Hok). split; [done|].
  pose proof (moved_good _ _ Hmv Hgc) as Erep. apply all_ok_node with (cev := cev); try done.
  eapply link_back_good; [exact Hg|done..|]. apply Check_good_nonempty. rewrite <- Erep. exact Hgc.
Qed.

Lemma link_events_spec rec id evs todo : walk_spec rec -> (forall e, e ∈ todo -> e ∈ evs) ->
  forall w w', link_evs rec id w todo = Some w' -> step_spec id evs todo w w'.
Proof.
  intros Hrec. induction todo as [|e todo IH]; intros Hin w w'; cbn [link_events].
  - intros [= <-]. apply step_spec_refl.
  - destruct (link_ev rec id w e) as [w1|] eqn:E1; [|done]. intros E2.
    apply (step_spec_trans id evs [e] todo w w1 w').
    + eapply link_event_spec; [exact Hrec| |exact E1]. apply Hin. by left.
    + apply IH; [|done]. intros e' He'. apply Hin. by right.
Qed.

Lemma link_spec f : walk_spec (link d logDir parents f).
Proof.
  induction f as [|f IH]; intros id evs rep seen ch rep' seen' ch'; cbn [link]; [done|].
  destruct (link_evs _ _ _ _) as [w|] eqn:E; [|done]. intros [= <- <- <-].
  apply link_events_spec with (evs := evs) in E as (new & C & F & M & N & S); [|exact IH|done].
  exists new. cbn in *. split_and!; [done..|eapply moved_trans; [exact M|apply reverse_check_moved]|].
  intros Hf Hg. pose proof (reverse_check_named _ _ _ Hg) as (ps & Hps & Hrev).
  rewrite (moved_good _ _ (reverse_check_moved _ _ _) Hg) in Hg.
  destruct (S Hf Hg) as (E1 & D1 & O1). split_and!; [done| |done]. split; [done|]. exists ps. split; [done|].
  intros p Hp. destruct (N p (Hrev p Hp)) as [?|?]; [set_solver|done].
Qed.
End Facts.



Definition nodes (t : Tree) : list Node := Root t :: Children t.

Lemma VerifyTree_walk `{GoText} d logDir runID evs : Verdict (Check_ evs) <> NoClaim ->
  exists rep children seen, VerifyTree d logDir runID evs None = Some (MkTree (MkNode runID "verified" rep) children) /\
    link d logDir (Parents d logDir) (tree_fuel d evs) runID evs (Check_ evs) {[runID]} [] = Some (rep, seen, children).
Proof.
  intros Hn. unfold VerifyTree. rewrite bool_decide_false by done.
  destruct (link_total d logDir (Parents d logDir) (all_ids d evs) (all_ids_run d logDir evs) (tree_fuel d evs)
    runID evs (Check_ evs) {[runID]} []) as (rep & seen & ch & -> & _).
  - unfold all_ids. set_solver.
  - unfold tree_fuel. apply Nat.lt_succ_r, subseteq_size. set_solver.
  - by exists rep, ch, seen.
Qed.

(** Auditing a delegation tree always finishes, whatever the ledgers
    claim about each other (a corrupt parent that loops included), and judges
    every run at most once. *)
Theorem verify_tree_total `{GoText} (d : LogDir) (logDir runID : string) (events : list Event) (verr : option ledger_error) :
  exists t, VerifyTree d logDir runID events verr = Some t /\ RunID (Root t) = runID /\ NoDup (map RunID (nodes t)).
Proof.
  destruct verr as [x|]; [eexists; split_and!; [done..|apply NoDup_singleton]|].
  destruct (decide (Verdict (Check_ events) = NoClaim)) as [E|Hn].
  { unfold VerifyTree. rewrite bool_decide_true by done. eexists. split_and!; [done..|apply NoDup_singleton]. }
  destruct (VerifyTree_walk d logDir runID events Hn) as (rep & ch & seen & -> & Hlink). eexists. split_and!; [done..|].
  apply link_spec in Hlink as (new & -> & [_ Hnd Hfr] & _). cbn. constructor; [|done].
  intros (n & E & Hin)%list_elem_of_fmap. destruct (Hfr n Hin) as (Hout & _). rewrite <- E in Hout. set_solver.
Qed.

(** ** The exit code *)
Lemma first_failure_iff ns : Forall (fun n => Integrity n <> "") ns ->
  (first_failure ns = "" <-> Forall (fun n => Integrity n = "verified") ns).
Proof.
  induction 1 as [|n ns Hn _ IH]; [by split|]. cbn. case_bool_decide as E; cbn [negb]; rewrite Forall_cons; naive_solver.
Qed.

Lemma has_verdict_iff v ns : has_verdict v ns = true <-> Exists (fun n => Verdict (n_Report n) = v) ns.
Proof.
  unfold has_verdict. rewrite List.existsb_exists, Exists_exists. setoid_rewrite list_elem_of_In.
  by setoid_rewrite bool_decide_eq_true.
Qed.

Lemma VerifyTree_classified `{GoText} d logDir runID evs verr t :
  VerifyTree d logDir runID evs verr = Some t -> Forall (fun n => Integrity n <> "") (nodes t).
Proof.
  assert (Hroot : forall r, Forall (fun n => Integrity n <> "") (nodes (MkTree (MkNode runID (IntegrityWord verr) r) []))).
  { intros r. apply Forall_singleton, IntegrityWord_ne. }
  unfold VerifyTree. destruct verr as [x|]; [by intros [= <-]|]. case_bool_decide; [by intros [= <-]|].
  destruct (link _ _ _ _ _ _ _ _) as [[[rep seen] ch]|] eqn:E; [|done]. intros [= <-].
  apply link_spec in E as (new & -> & [_ _ Hfr] & _). constructor; [done|]. apply Forall_forall. intros n Hn. by apply Hfr.
Qed.

Definition verified_node (n : Node) : Prop := Integrity n = "verified".
Definition verdict_is (v : string) (n : Node) : Prop := Verdict (n_Report n) = v.

(** The exit code of a classified tree, case by case. *)
Lemma ExitCode_cases t : Forall (fun n => Integrity n <> "") (nodes t) ->
  (~ Forall verified_node (nodes t) /\ ExitCode t = 1) \/
  (Forall verified_node (nodes t) /\
    ((Exists (verdict_is Gap) (nodes t) /\ ExitCode t = 11) \/
     (~ Exists (verdict_is Gap) (nodes t) /\ Exists (verdict_is Unterminated) (nodes t) /\ ExitCode t = 12) \/
     (~ Exists (verdict_is Gap) (nodes t) /\ ~ Exists (verdict_is Unterminated) (nodes t) /\ ExitCode t = 0))).
Proof.
  intros Hcl. unfold ExitCode, nodes in *. inversion Hcl as [|? ? _ Hch]; subst.
  pose proof (first_failure_iff _ Hch) as Hff. fold (ChildIntegrityFailure t) in Hff. unfold verified_node.
  rewrite Forall_cons, <- Hff. case_bool_decide as E1; cbn [negb orb]; [|left; naive_solver].
  case_bool_decide as E2; cbn [negb]; [right|left; naive_solver]. split; [done|].
  pose proof (has_verdict_iff Gap (Root t :: Children t)) as HG. pose proof (has_verdict_iff Unterminated (Root t :: Children t)) as HU.
  unfold verdict_is. destruct (has_verdict Gap _); [left; naive_solver|]. right.
  destruct (has_verdict Unterminated _); [left|right]; split_and!; try done; naive_solver.
Qed.

(** The exit code of an audited tree is its worst verdict, in the documented
    precedence: 1 exactly when some ledger of the tree does not verify;
    otherwise 11 exactly when some run has a gap; otherwise 12 exactly when
    some run is unterminated; 0 exactly when none of these holds. *)
Theorem exit_code_is_the_worst `{GoText} (d : LogDir) (logDir runID : string) (events : list Event)
    (verr : option ledger_error) (t : Tree) (Ht : VerifyTree d logDir runID events verr = Some t) :
  (ExitCode t = 1 <-> ~ Forall verified_node (nodes t)) /\
  (ExitCode t = 11 <-> Forall verified_node (nodes t) /\ Exists (verdict_is Gap) (nodes t)) /\
  (ExitCode t = 12 <-> Forall verified_node (nodes t) /\ ~ Exists (verdict_is Gap) (nodes t) /\
                       Exists (verdict_is Unterminated) (nodes t)) /\
  (ExitCode t = 0 <-> Forall verified_node (nodes t) /\ ~ Exists (verdict_is Gap) (nodes t) /\
                      ~ Exists (verdict_is Unterminated) (nodes t)).
Proof.
  destruct (ExitCode_cases t (VerifyTree_classified _ _ _ _ _ _ Ht))
    as [[? ->]|[? [[? ->]|[(? & ? & ->)|(? & ? & ->)]]]]; split_and!; (split; [|naive_solver lia]); try done; naive_solver.
Qed.

(** A delegation tree closed under the directory: every node's ledger reads
    back verified and judged; every accounted run is complete, names only
    runs of the tree, and is named by no ledger it does not name itself; and
    every child links back, at the right depth, to a run of the tree whose
    spawn event names it. *)
Record tree_closed (d : LogDir) (logDir runID : string) (events : list Event) (t : Tree) : Prop := {
  tc_root : Verdict (Check_ events) = Complete;
  tc_root_closed : closed (Parents d logDir) (ids (nodes t)) runID events;
  tc_children : forall n, n ∈ Children t -> exists evs,
    node_ok d logDir (Parents d logDir) (ids (nodes t)) (parent_in d logDir runID events (Children t)) n evs /\
    (Verdict (Check_ evs) = Complete \/ Verdict (Check_ evs) = NoClaim);
}.

Lemma check_loop_verdicts evs open prev total :
  Verdict (check_loop evs open prev total) = Complete \/ Verdict (check_loop evs open prev total) = Gap.
Proof.
  revert open prev total. induction evs as [|e rest IH]; intros; [by left|]. cbn [check_loop].
  repeat (case_match; try apply IH; try (by right)).
Qed.

Lemma Check_verdicts evs : good_rep (Check_ evs) -> Verdict (Check_ evs) = Complete \/ Verdict (Check_ evs) = NoClaim.
Proof.
  intros [Hg Hu]. destruct evs as [|e rest]; [done|]. revert Hg Hu. cbn [Check_].
  repeat (case_match; try done; try (by left); try (by right)).
  intros Hg _. edestruct (check_loop_verdicts rest); [by left|done].
Qed.

Lemma exit_zero_nodes t : Forall (fun n => Integrity n <> "") (nodes t) -> ExitCode t = 0 -> Forall fine (nodes t).
Proof.
  intros Hcl E. destruct (ExitCode_cases t Hcl) as [[_ E']|[Hv [[_ E']|[(_ & _ & E')|(Hg & Hu & _)]]]]; try (rewrite E in E'; lia).
  apply Forall_forall. intros n Hn. split; [by eapply (proj1 (Forall_forall _ _) Hv)|].
  rewrite !Exists_exists in Hg, Hu. split; intros ?; [apply Hg|apply Hu]; by exists n.
Qed.

(** C40: a tree that audits to 0 is closed: if the root claims accounting and
    the exit code is 0, then no ledger is missing, unverified, incomplete or
    unlinked anywhere in the delegation tree, each is accounted for or claims no
    accounting, and no ledger
    in the log directory claims a parent in the tree that does not name it. *)
Theorem exit_zero_is_closed `{GoText} (d : LogDir) (logDir runID : string) (events : list Event) (t : Tree)
    (Hclaim : Verdict (Check_ events) <> NoClaim)
    (Ht : VerifyTree d logDir runID events None = Some t) (H0 : ExitCode t = 0) :
  tree_closed d logDir runID events t.
Proof.
  pose proof (exit_zero_nodes t (VerifyTree_classified _ _ _ _ _ _ Ht) H0) as Hfine.
  destruct (VerifyTree_walk d logDir runID events Hclaim) as (rep & ch & seen & Et & Hlink).
  rewrite Et in Ht. injection Ht as <-. apply link_spec in Hlink as (new & -> & Hfr & Hmv & Hspec).
  unfold nodes in Hfine. cbn in Hfine. inversion Hfine as [|? ? [_ Hgr] Hfn]; subst.
  destruct (Hspec Hfn Hgr) as (Es & Hcl & Hok). rewrite (moved_good _ _ Hmv Hgr) in Hgr. cbn in Hgr.
  rewrite app_nil_l in *. assert (Eids : ids (nodes (MkTree (MkNode runID "verified" rep) new)) = seen) by (rewrite Es; unfold ids; cbn; set_solver).
  split.
  - by destruct (Check_verdicts _ Hgr).
  - by rewrite Eids.
  - rewrite Eids. intros n Hn. destruct (Hok n Hn) as [evs Hno]. exists evs. split; [exact Hno|].
    apply Check_verdicts. destruct Hno as [_ <- _ _]. by destruct (proj1 (Forall_forall _ _) Hfn n Hn).
Qed.

#[local] Existing Instance toy_text.

(** ** A concrete tree: run [r] spawned [c] *)
Definition stamp (b : Binding) (e : Event) : Event := { e with ev_Time := ex_time; ev_Binding := b }.

Definition ex_append (l : Log) (e : Event) : Log := (LogAppend WriteOk l e).1.
Definition ex_empty_log : Log := MkLog (MkChain "" Unlocked 0 "" 0 false false) [].
Definition ex_file (evs : list Event) : string := file (l_c (foldl ex_append ex_empty_log evs)).

Definition ex_spawn : Event := { ex_ev "spawn" "a" with ev_ChildRunID := "c"; ev_Depth := 1 }.
Definition ex_parent_events : list Event :=
  map (stamp zeroBinding) [ex_started; ex_ev "step_started" "a"; ex_spawn; ex_term 1; ex_finished].
Definition ex_child_binding : Binding := MkBinding zeroInvoker "" "" "" "r" 1.
Definition ex_child_events : list Event :=
  map (stamp ex_child_binding) [ex_started; ex_ev "step_started" "a"; ex_term 0; ex_finished].

Definition ex_dir : LogDir :=
  MkLogDir (Some [("c.jsonl", false); ("control.jsonl", false); ("r.jsonl", false); ("sub", true)])
    (<["/logs/r.jsonl" := (no_env, ex_file ex_parent_events)]> (<["/logs/c.jsonl" := (no_env, ex_file ex_child_events)]> ∅)).

Definition ex_tree : Tree :=
  MkTree (MkNode "r" "verified" (MkReport Complete "" 1)) [MkNode "c" "verified" (MkReport Complete "" 0)].

Lemma ex_tree_eq : VerifyTree ex_dir "/logs" "r" (events_of (read_run ex_dir "/logs" "r")) None = Some ex_tree.
Proof. vm_compute. reflexivity. Qed.

Lemma exit_code_is_the_worst_witness : ExitCode ex_tree = 0.
Proof.
  apply (exit_code_is_the_worst ex_dir "/logs" "r" _ None ex_tree ex_tree_eq). unfold nodes, verified_node, verdict_is, ex_tree; cbn.
  rewrite !Forall_cons, !Exists_cons, !Exists_nil. split_and!; try done; intros [?|[?|?]]; done.
Defined.

Lemma exit_zero_is_closed_witness :
  tree_closed ex_dir "/logs" "r" (events_of (read_run ex_dir "/logs" "r")) ex_tree.
Proof. apply (exit_zero_is_closed ex_dir "/logs" "r" _ ex_tree); [|apply ex_tree_eq|reflexivity]. vm_compute. discriminate. Defined.

(** The child hidden from the parent's ledger, and the one whose ledger is
    gone. *)
Definition ex_silent_events : list Event :=
  map (stamp zeroBinding) [ex_started; ex_ev "step_started" "a"; ex_term 0; ex_finished].

Example unnamed_child_is_a_gap :
  match VerifyTree ex_dir "/logs" "r" ex_silent_events None with
  | Some t => ExitCode t = 11 /\ Detail (n_Report (Root t)) = "child c names this run as its parent; no spawn event names it"
  | None => False
  end.
Proof. vm_compute. done. Qed.

Example missing_child_is_a_gap :
  match VerifyTree (MkLogDir (Some []) ∅) "/logs" "r" ex_parent_events None with
  | Some t => ExitCode t = 11 /\ Detail (n_Report (Root t)) = "spawn names child c: no ledger under the log directory"
  | None => False
  end.
Proof. vm_compute. done. Qed.
