(* ===== verification/Attest.v ===== *)
(** * Text bounds and runtime attestations ([internal/rungateway]:
      [attestation.go], [errclass.go] and the text helpers of [proxy.go])

    What the doors may put on the ledger is bounded: [capRunes] caps
    agent-controlled text, and an attestation enters only if
    [validAttestation] accepts it.  An attestation arrives as a JSON value
    decoded into an empty interface and marshalled back ([any_of]): keys are
    deduplicated and sorted, numbers pass through [float64]. *)
From S2P Require Import Prelude Sha256 GoStr Json Ledger Config Origin Event.

(** ** Text *)
Definition capRunes (s : string) (n : nat) : string :=
  if Nat.ltb n (rune_count s) then take_runes n s else s.

(** The runes of a string with the bytes each was decoded from. *)
Fixpoint chunks (s : string) : list (Z * string) :=
  match s with
  | EmptyString => []
  | String c r =>
      match utf8_size c r, r with
      | 1%nat, _ => (byte_val c, String c "") :: chunks r
      | 2%nat, String c1 r1 => (rune2 c c1, String c (String c1 "")) :: chunks r1
      | 3%nat, String c1 (String c2 r2) => (rune3 c c1 c2, String c (String c1 (String c2 ""))) :: chunks r2
      | 4%nat, String c1 (String c2 (String c3 r3)) =>
          (rune4 c c1 c2 c3, String c (String c1 (String c2 (String c3 "")))) :: chunks r3
      | _, _ => (RuneError, String c "") :: chunks r
      end
  end.

(** [unicode.IsSpace] and [unicode.IsControl] *)
Definition is_space (r : Z) : bool :=
  in_range 9 13 r || (r =? 32) || (r =? 133) || (r =? 160) || (r =? 5760) || in_range 8192 8202 r ||
  (r =? 8232) || (r =? 8233) || (r =? 8239) || (r =? 8287) || (r =? 12288).
Definition is_control (r : Z) : bool := in_range 0 31 r || in_range 127 159 r.

(** [strings.Fields]: [cur] is the field being read. *)
Fixpoint fields_loop (cs : list (Z * string)) (cur : string) : list string :=
  let flush := if bool_decide (cur = "") then [] else [cur] in
  match cs with
  | [] => flush
  | (r, b) :: rest => if is_space r then flush ++ fields_loop rest "" else fields_loop rest (cur +:+ b)
  end.
Definition Fields (s : string) : list string := fields_loop (chunks s) "".

(** [strings.TrimSpace] *)
Fixpoint drop_spaces (cs : list (Z * string)) : list (Z * string) :=
  match cs with
  | (r, b) :: rest => if is_space r then drop_spaces rest else cs
  | [] => []
  end.
Definition TrimSpace (s : string) : string :=
  join "" (map snd (reverse (drop_spaces (reverse (drop_spaces (chunks s)))))).

Fixpoint replace_byte (a b : ascii) (s : string) : string :=
  match s with
  | EmptyString => ""
  | String c r => String (if ascii_eqb c a then b else c) (replace_byte a b r)
  end.

Definition hasControl (s : string) : bool := List.existsb is_control (runes s).

(** ** Error classes ([errClass])

    What [errors.Is] and [errors.As] find in an error's chain. *)
Record err_facts : Type := MkErrFacts {
  ef_deadline : bool;
  ef_canceled : bool;
  ef_refused : bool;
  ef_dns : bool;
  ef_net_timeout : bool;
}.

Definition errClass (err : option err_facts) : string :=
  match err with
  | None => "none"
  | Some e =>
      if ef_deadline e then "timeout"
      else if ef_canceled e then "canceled"
      else if ef_refused e then "connection_refused"
      else if ef_dns e then "dns"
      else if ef_net_timeout e then "timeout"
      else "other"
  end.

(** ** Numbers through [float64] *)

(** A literal as sign, integer mantissa and decimal exponent. *)
Definition lit_exp (s : string) : Z :=
  match s with
  | String c (String g r) =>
      if ascii_eqb g "-" then - Z.of_N (default 0%N (dec_value r 0))
      else if ascii_eqb g "+" then Z.of_N (default 0%N (dec_value r 0))
      else Z.of_N (default 0%N (dec_value (String g r) 0))
  | _ => 0
  end.

Definition lit_value (l : string) : bool * Z * Z :=
  let '(neg, u) := match l with String "-" r => (true, r) | _ => (false, l) end in
  let '(i, r) := span_digits u in
  let '(f, r') := match r with String "." t => span_digits t | _ => ("", r) end in
  (neg, Z.of_N (default 0%N (dec_value (i +:+ f) 0)), lit_exp r' - Z.of_nat (String.length f)).

(** The nearest integer to [p/q], ties to even. *)
Definition round_even (p q : Z) : Z :=
  let d := p / q in
  match 2 * (p mod q) ?= q with
  | Lt => d
  | Gt => d + 1
  | Eq => if Z.even d then d else d + 1
  end.

(** The IEEE double nearest to [m * 10^e], as [mant * 2^ex]; [None] when it
    overflows. *)
Definition to_float (m e : Z) : option (Z * Z) :=
  if m =? 0 then Some (0, 0)
  else
    let p := m * 10 ^ Z.max e 0 in
    let q := 10 ^ Z.max (- e) 0 in
    let l := Z.log2 p - Z.log2 q in
    let fl := if q * 2 ^ Z.max l 0 <=? p * 2 ^ Z.max (- l) 0 then l else l - 1 in
    let ex := Z.max (-1074) (fl - 52) in
    let mant := round_even (p * 2 ^ Z.max (- ex) 0) (q * 2 ^ Z.max ex 0) in
    if 2 ^ 1024 * 2 ^ Z.max (- ex) 0 <=? mant * 2 ^ Z.max ex 0 then None else Some (mant, ex).

(** The value of a double that is an integer. *)
Definition float_int (f : Z * Z) : option Z :=
  let '(mant, ex) := f in
  if 0 <=? ex then Some (mant * 2 ^ ex)
  else if mant mod 2 ^ (- ex) =? 0 then Some (mant / 2 ^ (- ex)) else None.

Definition reads_as (z v : Z) : bool :=
  match to_float z 0 with Some f => bool_decide (float_int f = Some v) | None => false end.

(** The shortest decimal digits that read back as the double [v], padded with
    zeros: the multiple of the largest power of ten, the closer one first. *)
Fixpoint shortest (k : nat) (v : Z) : Z :=
  match k with
  | O => v
  | S k' =>
      let u := 10 ^ Z.of_nat k in
      let lo := v / u * u in
      let near := if 2 * (v - lo) <=? u then lo else lo + u in
      let far := if 2 * (v - lo) <=? u then lo + u else lo in
      if reads_as near v then near else if reads_as far v then far else shortest k' v
  end.

(** [json.Marshal] of the [float64] a literal decodes to.  An integer below
    10^21 prints as digits; any other value keeps a fraction or an exponent,
    so no integer field accepts it, and the literal itself stands for it. *)
Definition float_text (l : string) : option string :=
  let '(neg, m, e) := lit_value l in
  match to_float m e with
  | None => None
  | Some f =>
      match float_int f with
      | Some v => if v <? 10 ^ 21 then let t := shortest 20 v in Some (itoa (if neg then - t else t)) else Some l
      | None => Some l
      end
  end.

(** ** A JSON value through [any] *)
Fixpoint insert_member (k : string) (v : json) (l : list (string * json)) : list (string * json) :=
  match l with
  | [] => [(k, v)]
  | (k', v') :: r => if String.leb k k' then (k, v) :: l else (k', v') :: insert_member k v r
  end.

(** Assignment to a key of a map kept in key order. *)
Definition insert_key (k : string) (v : json) (l : list (string * json)) : list (string * json) :=
  insert_member k v (filter (fun kv => kv.1 <> k) l).

(** Members are decoded in order, a later duplicate replacing an earlier one;
    the map is marshalled in key order. *)
Fixpoint any_of (v : json) : option json :=
  match v with
  | JNum l => match float_text l with Some t => Some (JNum t) | None => None end
  | JArr l =>
      match (fix elems (l : list json) : option (list json) :=
               match l with
               | [] => Some []
               | x :: r => match any_of x, elems r with Some y, Some ys => Some (y :: ys) | _, _ => None end
               end) l with
      | Some l' => Some (JArr l')
      | None => None
      end
  | JObj fs =>
      match (fix members (fs : list (string * json)) (acc : list (string * json)) : option (list (string * json)) :=
               match fs with
               | [] => Some acc
               | (k, x) :: r => match any_of x with Some y => members r (insert_key k y acc) | None => None end
               end) fs [] with
      | Some fs' => Some (JObj fs')
      | None => None
      end
  | _ => Some v
  end.

(** ** Attestations *)
Definition runtimeAttestationMetaKey : string := "agenthof.dev/runtime-attestation".
Definition knownRuntimes (r : string) : bool := contains ["refbridge"; "refexec"] r.
Definition maxAttestedArgv : nat := 32.
Definition maxAttestedEnvNames : nat := 64.
Definition maxAttestedRunes : nat := 200.
Definition maxAttestedConfinerOpts : nat := 16.

Inductive attestation_error : Type := errAttestationMissing | errAttestationMalformed.

Definition attestation_text (e : attestation_error) : string :=
  match e with
  | errAttestationMissing => "runtime attestation missing"
  | errAttestationMalformed => "runtime attestation malformed"
  end.

Definition is_lower (c : ascii) : bool := in_range 97 122 (byte_val c).
Definition is_alpha (c : ascii) : bool := is_lower c || in_range 65 90 (byte_val c).

(** [^[A-Za-z_][A-Za-z0-9_]*$] *)
Definition envNameRE (s : string) : bool :=
  match s with
  | EmptyString => false
  | String c r => (is_alpha c || ascii_eqb c "_") && all_chars (fun d => is_alpha d || is_digit d || ascii_eqb d "_") r
  end.

(** [^[a-z][a-z0-9-]{0,39}$] *)
Definition confinerTokenRE (s : string) : bool :=
  match s with
  | EmptyString => false
  | String c r => is_lower c && all_chars (fun d => is_lower d || is_digit d || ascii_eqb d "-") r &&
                  Nat.leb (String.length r) 39
  end.

Definition arg_bad (s : string) : bool := Nat.ltb maxAttestedRunes (rune_count s) || hasControl s.
Definition env_bad (s : string) : bool := negb (envNameRE s) || Nat.ltb maxAttestedRunes (rune_count s).

Definition validAttestation (a : RuntimeAttestation) (declared : string) : bool :=
  let command := default [] (ra_Command a) in
  let envNames := default [] (ra_EnvNames a) in
  if negb (bool_decide (ra_Runtime a = declared)) || negb (knownRuntimes (ra_Runtime a)) then false
  else if Nat.ltb maxAttestedRunes (rune_count (ra_Session a)) || hasControl (ra_Session a) then false
  else if Nat.eqb (length command) 0 || Nat.ltb maxAttestedArgv (length command) then false
  else if List.existsb arg_bad command then false
  else if (ra_PID a <? 1) || (ra_Spawn a <? 1) then false
  else if Nat.ltb maxAttestedEnvNames (length envNames) then false
  else if List.existsb env_bad envNames then false
  else if negb (bool_decide (ra_Confiner a = "")) && negb (confinerTokenRE (ra_Confiner a)) then false
  else if Nat.ltb maxAttestedConfinerOpts (length (ra_ConfinerOpts a)) then false
  else if List.existsb (fun o => negb (confinerTokenRE o)) (ra_ConfinerOpts a) then false
  else if bool_decide (ra_Runtime a = "refexec")
  then bool_decide (ra_CredentialEnv a = "") && bool_decide (ra_Materialization a = "")
  else if negb (bool_decide (ra_Confiner a = "")) || Nat.ltb 0 (length (ra_ConfinerOpts a)) then false
  else if env_bad (ra_CredentialEnv a) then false
  else contains ["env-at-spawn"; "respawn-on-rotation"] (ra_Materialization a).

Definition argvRecordable (argv : list string) : bool :=
  if Nat.eqb (length argv) 0 || Nat.ltb maxAttestedArgv (length argv) then false
  else negb (List.existsb arg_bad argv).

(** [decodeAttestation]: [raw] is the value in the interface, already through
    [any_of]; nil is [None] or null.  A JSON value always marshals. *)
Definition decodeAttestation (raw : option json) (declared : string) : result attestation_error RuntimeAttestation :=
  match raw with
  | None | Some JNull => Err errAttestationMissing
  | Some v =>
      match dec_obj dec_attestation v zeroAttestation with
      | None => Err errAttestationMalformed
      | Some a => if validAttestation a declared then Ok a else Err errAttestationMalformed
      end
  end.

(** [takeRuntimeAttestation] on the result's [_meta] map: the attestation, if
    one is to be recorded, whether a claim was dropped, and the map left. *)
Definition takeRuntimeAttestation (meta : gmap string json) (declared : string)
  : result attestation_error (ptr RuntimeAttestation * bool) * gmap string json :=
  let raw := meta !! runtimeAttestationMetaKey in
  let meta' := delete runtimeAttestationMetaKey meta in
  if bool_decide (declared = "") then (Ok (None, is_Some_b raw), meta')
  else match raw with
       | None => (Err errAttestationMissing, meta')
       | Some v => match decodeAttestation (Some v) declared with
                   | Ok a => (Ok (Some a, false), meta')
                   | Err e => (Err e, meta')
                   end
       end.

(** ** Facts *)
Lemma insert_member_perm k v l : insert_member k v l ≡ₚ (k, v) :: l.
Proof.
  induction l as [|[k' v'] l IH]; [done|]. cbn. destruct (String.leb k k'); [done|]. rewrite IH. constructor.
Qed.

Lemma elem_of_insert_key k v l k' v' : (k', v') ∈ insert_key k v l <-> (k' = k /\ v' = v) \/ (k' <> k /\ (k', v') ∈ l).
Proof.
  unfold insert_key. rewrite insert_member_perm, elem_of_cons, list_elem_of_filter. cbn. naive_solver.
Qed.

(** The exec door's bound on an argv is exactly the ledger's: a command
    is recordable if and only if a valid attestation stays valid when it
    names that command, and every valid attestation names a recordable one. *)
Theorem argv_bounds_agree (a : RuntimeAttestation) (declared : string) (argv : list string)
    (Ha : validAttestation a declared = true) :
  validAttestation { a with ra_Command := Some argv } declared = argvRecordable argv /\
  argvRecordable (default [] (ra_Command a)) = true.
Proof.
  destruct a as [rt sess cmd pid spn cred envs mat conf opts].
  unfold validAttestation, argvRecordable in *. cbn [ra_Runtime ra_Session ra_Command ra_PID ra_Spawn ra_CredentialEnv ra_EnvNames
    ra_Materialization ra_Confiner ra_ConfinerOpts default apply_update] in *.
  repeat match type of Ha with (if ?b then false else _) = true => destruct b eqn:?; [discriminate Ha|] end.
  rewrite Ha. split; [|done]. change (constant (Some argv) cmd) with (Some argv). cbn [default]. unfold id.
  destruct (Nat.eqb (length argv) 0 || Nat.ltb maxAttestedArgv (length argv)); [done|]. by destruct (List.existsb arg_bad argv).
Qed.

Definition ex_attestation : RuntimeAttestation :=
  MkAttestation "refexec" "s1" (Some ["git"; "status"]) 41 1 "" (Some ["PATH"]) "" "bwrap" ["net-open"].

Lemma argv_bounds_agree_witness : validAttestation { ex_attestation with ra_Command := Some ["ls"] } "refexec" = true.
Proof. refine (eq_trans (proj1 (argv_bounds_agree ex_attestation "refexec" ["ls"] _)) _); vm_compute; reflexivity. Defined.
