(* ===== verification/Grants.v ===== *)
(** * From grants to doors ([internal/rungateway/proxy.go], [Start])

    The first half of [Gateway.Start]: the per-resource allowlist derived from
    an agent's grants ([build_allow]) and the mirror of the upstream tools it
    leaves through ([mirror_grants]).  What an upstream answers (a failed
    connect, a failed listing, the names it exposes) is an argument. *)
From S2P Require Import Prelude Sha256 GoStr Json Paths Ledger Config Authz Origin Registry Event Engine.

Inductive start_error : Type :=
  | MintFailed (text : string)
  | ExecNotFirstHand (runtime : string)
  | GrantNeedsToolsAndMode (resource : string)
  | GrantModeAll (resource : string)
  | GrantUnknownMode (resource mode : string)
  | GrantNoTools (resource : string)
  | GrantStarNotAlone (resource : string)
  | GrantNoMode (resource : string)
  | GrantedTwice (resource : string)
  | NotClassified (resource tool : string)
  | ConnectFailed (resource text : string)
  | ListFailed (resource text : string)
  | ExposedTwice (tool owner resource : string)
  | MatchesNothing (resource : string)
  | NotExposed (resource tool : string)
  | ListenFailed (text : string).

(** ** The allowlist *)

(** A present key with [None] is the every-tool read-write grant. *)
Abbreviation allowedTools := (gmap string (option (gset string))).

Definition allows (a : allowedTools) (resourceID tool : string) : bool :=
  match a !! resourceID with
  | None => false
  | Some None => true
  | Some (Some names) => bool_decide (tool ∈ names)
  end.

Definition readOnlySet (res : ToolResource) : gset string := list_to_set (tr_ReadOnlyTools res).

(** The shape rules, in the switch's order. *)
Definition grant_shape (grant : ToolGrant) : option start_error :=
  let r := g_Resource grant in
  if bool_decide (g_Tools grant = []) && bool_decide (g_Mode grant = "") then Some (GrantNeedsToolsAndMode r)
  else if bool_decide (g_Mode grant = "all") then Some (GrantModeAll r)
  else if negb (bool_decide (g_Mode grant = "")) && negb (bool_decide (g_Mode grant = "read-only")) &&
          negb (bool_decide (g_Mode grant = "read-write")) then Some (GrantUnknownMode r (g_Mode grant))
  else if bool_decide (g_Tools grant = []) then Some (GrantNoTools r)
  else if contains (g_Tools grant) "*" && negb (Nat.eqb (length (g_Tools grant)) 1) then Some (GrantStarNotAlone r)
  else if bool_decide (g_Mode grant = "") then Some (GrantNoMode r)
  else None.

(** The names a well-formed grant puts in [allow]. *)
Definition effective_set (res : ToolResource) (grant : ToolGrant) : result start_error (option (gset string)) :=
  if EveryToolReadWrite grant then Ok None
  else if AllTools grant then Ok (Some (readOnlySet res))
  else
    match (if ReadOnly grant then List.find (fun name => negb (bool_decide (name ∈ readOnlySet res))) (g_Tools grant) else None) with
    | Some name => Err (NotClassified (g_Resource grant) name)
    | None => Ok (Some (list_to_set (g_Tools grant)))
    end.

Definition add_grant (tools : gmap string ToolResource) (allow : allowedTools) (grant : ToolGrant)
  : result start_error allowedTools :=
  match grant_shape grant with
  | Some e => Err e
  | None =>
      let r := g_Resource grant in
      let limited := match allow !! r with
                     | Some prev => negb (EveryToolReadWrite grant) || is_Some_b prev
                     | None => false
                     end in
      if limited then Err (GrantedTwice r)
      else
        let! names := effective_set (default zeroResource (tools !! r)) grant in
        Ok (<[r := names]> allow)
  end.

Fixpoint build_allow (tools : gmap string ToolResource) (grants : list ToolGrant) (allow : allowedTools)
  : result start_error allowedTools :=
  match grants with
  | [] => Ok allow
  | g :: rest => let! allow' := add_grant tools allow g in build_allow tools rest allow'
  end.

(** ** The mirror *)
Inductive upstream_answer : Type :=
  | ConnectErr (text : string)
  | ListErr (text : string)
  | Listed (names : list string).

(** The loop over [list.Tools]: [mirroredBy] maps a tool to its resource. *)
Fixpoint mirror_tools (allow : allowedTools) (id : string) (names : list string) (mirroredBy : gmap string string)
  : result start_error (gmap string string) :=
  match names with
  | [] => Ok mirroredBy
  | t :: rest =>
      if negb (allows allow id t) then mirror_tools allow id rest mirroredBy
      else match mirroredBy !! t with
           | Some owner => Err (ExposedTwice t owner id)
           | None => mirror_tools allow id rest (<[t := id]> mirroredBy)
           end
  end.

(** The names a grant expected and the upstream lacks. *)
Definition missing_names (res : ToolResource) (grant : ToolGrant) (exposed : list string) : option start_error :=
  let id := g_Resource grant in
  if EveryToolReadWrite grant then None
  else if AllTools grant then
    if List.existsb (contains exposed) (tr_ReadOnlyTools res) then None else Some (MatchesNothing id)
  else match List.find (fun name => negb (contains exposed name)) (g_Tools grant) with
       | Some name => Some (NotExposed id name)
       | None => None
       end.

Record mirrored : Type := MkMirrored {
  mi_seen : gset string;
  mi_by : gmap string string;
  mi_sessions : list string;          (** the resources connected, in order *)
}.

Definition mirror_grant (tools : gmap string ToolResource) (answers : string -> upstream_answer) (allow : allowedTools)
    (m : mirrored) (grant : ToolGrant) : result start_error mirrored :=
  let id := g_Resource grant in
  if bool_decide (id ∈ mi_seen m) then Ok m
  else
    let seen := {[id]} ∪ mi_seen m in
    match tools !! id with
    | None => Ok (MkMirrored seen (mi_by m) (mi_sessions m))
    | Some res =>
        match answers id with
        | ConnectErr t => Err (ConnectFailed id t)
        | ListErr t => Err (ListFailed id t)
        | Listed names =>
            let! by_ := mirror_tools allow id names (mi_by m) in
            match missing_names res grant names with
            | Some e => Err e
            | None => Ok (MkMirrored seen by_ (mi_sessions m ++ [id]))
            end
        end
    end.

Fixpoint mirror_grants (tools : gmap string ToolResource) (answers : string -> upstream_answer) (allow : allowedTools)
    (grants : list ToolGrant) (m : mirrored) : result start_error mirrored :=
  match grants with
  | [] => Ok m
  | g :: rest => let! m' := mirror_grant tools answers allow m g in mirror_grants tools answers allow rest m'
  end.

Definition no_mirror : mirrored := MkMirrored ∅ ∅ [].

(** The exec precondition; [url] is [execURLFor agent]. *)
Definition exec_startable (x : ExecConfig) (url : string) : bool :=
  negb (Declared x && (negb (bool_decide (x_Runtime x = "refexec")) || negb (has_prefix url UnixScheme) || (x_Timeout x <=? 0))).

(** Everything [Start] decides before it listens. *)
Definition start_doors (tools : gmap string ToolResource) (answers : string -> upstream_answer) (url : string) (agent : AgentDef)
  : result start_error (allowedTools * mirrored) :=
  if negb (exec_startable (a_Exec agent) url) then Err (ExecNotFirstHand (x_Runtime (a_Exec agent)))
  else
    let! allow := build_allow tools (a_Tools agent) ∅ in
    let! m := mirror_grants tools answers allow (a_Tools agent) no_mirror in
    Ok (allow, m).

(** ** The specification of a grant *)

(** What one grant lets an agent see of a resource. *)
Definition grant_permits (res : ToolResource) (g : ToolGrant) (tool : string) : Prop :=
  match decide (g_Tools g = ["*"]) with
  | left _ => g_Mode g = "read-only" -> tool ∈ tr_ReadOnlyTools res
  | right _ => tool ∈ g_Tools g /\ (g_Mode g = "read-only" -> tool ∈ tr_ReadOnlyTools res)
  end.

(** What all of them permit. *)
Definition permitted (tools : gmap string ToolResource) (grants : list ToolGrant) (id tool : string) : Prop :=
  exists g, g ∈ grants /\ g_Resource g = id /\ grant_permits (default zeroResource (tools !! id)) g tool.

(** ** Facts *)
Lemma grant_shape_none g : grant_shape g = None ->
  g_Tools g <> [] /\ (g_Mode g = "read-only" \/ g_Mode g = "read-write") /\ ("*" ∈ g_Tools g -> g_Tools g = ["*"]).
Proof.
  unfold grant_shape. destruct (bool_decide (g_Tools g = []) && bool_decide (g_Mode g = "")); [done|].
  destruct (bool_decide (g_Mode g = "all")); [done|]. destruct (_ && _ && _) eqn:E2; [done|].
  destruct (bool_decide (g_Tools g = [])) eqn:Et; [done|].
  destruct (contains (g_Tools g) "*" && negb (Nat.eqb (length (g_Tools g)) 1)) eqn:E3; [done|].
  destruct (bool_decide (g_Mode g = "")) eqn:Em; [done|]. intros _. split_and!; [by bool_prop| |].
  - destruct (bool_decide (g_Mode g = "read-only")) eqn:E4; [left; by bool_prop|].
    destruct (bool_decide (g_Mode g = "read-write")) eqn:E5; [right; by bool_prop|done].
  - intros Hs. rewrite (proj2 (contains_true _ _) Hs) in E3. cbn in E3. apply negb_false_iff, Nat.eqb_eq in E3.
    destruct (g_Tools g) as [|x [|]]; try done. by apply list_elem_of_singleton in Hs as ->.
Qed.

Definition in_names (names : option (gset string)) (t : string) : Prop :=
  match names with None => True | Some s => t ∈ s end.

Lemma find_none {A} (f : A -> bool) l : List.find f l = None -> Forall (fun x => f x = false) l.
Proof. intros Hf. apply Forall_forall. intros x Hx. eapply List.find_none; [exact Hf|by apply list_elem_of_In]. Qed.

Lemma effective_set_permits res g names : grant_shape g = None -> effective_set res g = Ok names ->
  forall t, in_names names t <-> grant_permits res g t.
Proof.
  intros (_ & Hm & _)%grant_shape_none. unfold effective_set, EveryToolReadWrite, AllTools, ReadOnly, grant_permits.
  intros Hn t. revert Hn. case_bool_decide as Ea; cbn [andb].
  - rewrite decide_True by done. case_bool_decide as Em; intros [= <-]; cbn [in_names].
    + split; [|done]. intros _ E. congruence.
    + unfold readOnlySet. rewrite elem_of_list_to_set. destruct Hm; [|done]. naive_solver.
  - rewrite decide_False by done. destruct (if bool_decide _ then _ else _) as [x|] eqn:Ef; [done|]. intros [= <-].
    cbn [in_names]. rewrite elem_of_list_to_set. split; [|tauto]. intros Ht. split; [done|]. intros Hro.
    rewrite bool_decide_true in Ef by done. apply find_none in Ef. pose proof (proj1 (Forall_forall _ _) Ef t Ht) as Hn. cbn in Hn.
    apply negb_false_iff, bool_decide_eq_true in Hn. by apply elem_of_list_to_set in Hn.
Qed.

Lemma allows_insert a r names id t :
  allows (<[r := names]> a) id t = true <-> (id = r /\ in_names names t) \/ (id <> r /\ allows a id t = true).
Proof.
  unfold allows. destruct (decide (id = r)) as [->|Hne].
  - rewrite lookup_insert_eq. destruct names as [s|]; cbn; [rewrite bool_decide_eq_true|]; naive_solver.
  - rewrite lookup_insert_ne by done. naive_solver.
Qed.

(** One grant: what it adds, and that it replaces nothing smaller. *)
Lemma add_grant_allows tools a g a' : add_grant tools a g = Ok a' ->
  grant_shape g = None /\
  forall id t, allows a' id t = true <->
    allows a id t = true \/ (g_Resource g = id /\ grant_permits (default zeroResource (tools !! id)) g t).
Proof.
  unfold add_grant. destruct (grant_shape g) as [|] eqn:Es; [done|].
  destruct (match a !! g_Resource g with Some _ => _ | None => _ end) eqn:El; [done|].
  destruct (effective_set _ g) as [names|] eqn:En; [|done]. cbn [result_bind]. intros [= <-]. split; [done|]. intros id t.
  rewrite allows_insert. pose proof (effective_set_permits _ _ _ Es En t) as Hp.
  destruct (decide (id = g_Resource g)) as [->|Hne]; [|naive_solver]. rewrite Hp.
  split; [naive_solver|]. intros [Ha|?]; [|naive_solver]. left. split; [done|].
  unfold allows in Ha. destruct (a !! g_Resource g) as [[prev|]|]; [| |done].
  - cbn in El. by rewrite orb_true_r in El.
  - rewrite orb_false_r in El. apply negb_false_iff in El. apply Hp. unfold effective_set in En. rewrite El in En. by simplify_eq.
Qed.

Lemma build_allow_allows tools gs a a' : build_allow tools gs a = Ok a' ->
  Forall (fun g => grant_shape g = None) gs /\
  forall id t, allows a' id t = true <-> allows a id t = true \/ permitted tools gs id t.
Proof.
  revert a; induction gs as [|g gs IH]; intros a; cbn [build_allow].
  - intros [= <-]. split; [constructor|]. intros. split; [by left|]. intros [?|(g & ?%elem_of_nil & _)]; done.
  - destruct (add_grant tools a g) as [a1|] eqn:E1; [|done]. cbn [result_bind]. intros [HF Hr]%IH.
    apply add_grant_allows in E1 as [Hs H1]. split; [by constructor|]. intros id t. rewrite Hr, H1. unfold permitted. split.
    + intros [[?|[? ?]]|(g' & ? & ? & ?)]; [by left|right; exists g; set_solver|right; exists g'; set_solver].
    + intros [?|(g' & [->|?]%elem_of_cons & ? & ?)]; [by left; left|by left; right|by right; exists g'].
Qed.

(** A limited grant is the only one on its resource. *)
Lemma build_allow_kept tools gs a a' r s : build_allow tools gs a = Ok a' -> a !! r = Some (Some s) ->
  a' !! r = Some (Some s) /\ Forall (fun g => g_Resource g <> r) gs.
Proof.
  revert a; induction gs as [|g gs IH]; intros a; cbn [build_allow]; [by intros [= <-]|].
  unfold add_grant. destruct (grant_shape g); [done|]. intros Hb Ha. destruct (decide (g_Resource g = r)) as [E|Hne].
  - rewrite E, Ha in Hb. cbn in Hb. by rewrite orb_true_r in Hb.
  - destruct (match a !! _ with Some _ => _ | None => _ end); [done|]. destruct (effective_set _ g) as [n|]; [|done].
    cbn [result_bind] in Hb. apply IH in Hb as [? ?]; [by split; [|constructor]|]. by rewrite lookup_insert_ne.
Qed.

Lemma build_allow_limited tools l1 g l2 a a' : build_allow tools (l1 ++ g :: l2) a = Ok a' -> EveryToolReadWrite g = false ->
  Forall (fun g' => g_Resource g' <> g_Resource g) (l1 ++ l2).
Proof.
  revert a; induction l1 as [|h l1 IH]; intros a; cbn [app build_allow]; unfold add_grant at 1.
  - destruct (grant_shape g); [done|]. intros Hb El. destruct (match a !! _ with Some _ => _ | None => _ end); [done|].
    unfold effective_set in Hb. rewrite El in Hb. destruct (AllTools g); cbn [result_bind] in Hb.
    + eapply build_allow_kept; [exact Hb|apply lookup_insert_eq].
    + destruct (if ReadOnly g then _ else _); [done|]. eapply build_allow_kept; [exact Hb|apply lookup_insert_eq].
  - destruct (grant_shape h); [done|]. intros Hb El. destruct (match a !! _ with Some _ => _ | None => _ end) eqn:Elim; [done|].
    destruct (effective_set _ h) as [n|] eqn:En; [|done]. cbn [result_bind] in Hb. pose proof (IH _ Hb El) as HF. constructor; [|done].
    intros E. clear IH HF. apply build_allow_allows in Hb as Hsh. destruct Hsh as [_ _].
    assert (Hin : forall l b b', build_allow tools (l ++ g :: l2) b = Ok b' -> b !! g_Resource g = None).
    { clear -El. induction l as [|x l IH]; intros b b'; cbn [app build_allow]; unfold add_grant at 1.
      - destruct (grant_shape g); [done|]. destruct (b !! g_Resource g) as [prev|]; [|done]. by rewrite El.
      - destruct (grant_shape x); [done|]. destruct (match b !! _ with Some _ => _ | None => _ end) eqn:Hl; [done|].
        destruct (effective_set _ x); [|done]. cbn [result_bind]. intros Hb%IH.
        destruct (decide (g_Resource x = g_Resource g)) as [Ex|?]; [by rewrite Ex, lookup_insert_eq in Hb|by rewrite lookup_insert_ne in Hb]. }
    apply Hin in Hb. by rewrite E, lookup_insert_eq in Hb.
Qed.

Lemma mirror_tools_by allow id names by_ by' : mirror_tools allow id names by_ = Ok by' ->
  forall t i, by' !! t = Some i <-> by_ !! t = Some i \/ (i = id /\ t ∈ names /\ allows allow id t = true).
Proof.
  revert by_; induction names as [|x names IH]; intros by_; cbn [mirror_tools].
  - intros [= <-] t i. split; [by left|]. intros [?|(_ & ?%elem_of_nil & _)]; done.
  - destruct (allows allow id x) eqn:Ea; cbn [negb].
    + destruct (by_ !! x) eqn:Ex; [done|]. intros Hm t i. rewrite (IH _ Hm). destruct (decide (t = x)) as [->|Hne].
      * rewrite lookup_insert_eq, Ex. set_solver.
      * rewrite lookup_insert_ne by done. set_solver.
    + intros Hm t i. rewrite (IH _ Hm). split; [set_solver|]. intros [?|(-> & [->|?]%elem_of_cons & ?)]; [by left|congruence|by right].
Qed.

(** What the mirror of a resource yields. *)
Definition listed (tools : gmap string ToolResource) (answers : string -> upstream_answer) (id t : string) : Prop :=
  exists res names, tools !! id = Some res /\ answers id = Listed names /\ t ∈ names.

Lemma mirror_grants_by tools answers allow gs m m' : mirror_grants tools answers allow gs m = Ok m' ->
  forall t i, mi_by m' !! t = Some i <->
    mi_by m !! t = Some i \/ ((i ∉ mi_seen m) /\ i ∈ map g_Resource gs /\ listed tools answers i t /\ allows allow i t = true).
Proof.
  revert m; induction gs as [|g gs IH]; intros m; cbn [mirror_grants map].
  - intros [= <-] t i. set_solver.
  - destruct (mirror_grant tools answers allow m g) as [m1|] eqn:E1; [|done]. cbn [result_bind]. intros Hm t i.
    rewrite (IH _ Hm). clear IH Hm. unfold mirror_grant in E1. cbv zeta in E1. case_bool_decide as Hs; [simplify_eq; set_solver|].
    destruct (tools !! g_Resource g) as [res|] eqn:Er.
    + destruct (answers (g_Resource g)) as [| |names] eqn:Ea; [done..|].
      destruct (mirror_tools _ _ _ _) as [by_|] eqn:Eb; [|done]. cbn [result_bind] in E1. destruct (missing_names _ _ _); [done|].
      simplify_eq/=. rewrite (mirror_tools_by _ _ _ _ _ Eb). split.
      * intros [[?|(-> & ? & ?)]|(? & ? & ? & ?)]; [by left| |right; set_solver].
        right. split_and!; [done|set_solver| |done]. by exists res, names.
      * intros [?|(Hn & Hi & (res' & names' & Hr' & Ha' & Ht) & Hal)]; [by left; left|].
        destruct (decide (i = g_Resource g)) as [->|]; [left; right; rewrite Ea in Ha'; by simplify_eq|].
        right. split_and!; [set_solver|set_solver|by exists res', names'|done].
    + simplify_eq/=. split; [intros [?|(? & ? & ? & ?)]; [by left|right; set_solver]|].
      intros [?|(Hn & Hi & Hl & Ha)]; [by left|]. right. split_and!; try done.
      * assert (i <> g_Resource g); [|set_solver]. intros ->. destruct Hl as (? & ? & ? & _). congruence.
      * apply elem_of_cons in Hi as [->|?]; [|done]. destruct Hl as (? & ? & ? & _). congruence.
Qed.

(** Each resource's first grant is checked against what it exposes. *)
Lemma mirror_grants_checked tools answers allow gs m m' l1 g l2 res :
  mirror_grants tools answers allow gs m = Ok m' -> gs = l1 ++ g :: l2 -> (g_Resource g ∉ mi_seen m) ->
  Forall (fun g' => g_Resource g' <> g_Resource g) l1 -> tools !! g_Resource g = Some res ->
  exists names, answers (g_Resource g) = Listed names /\ missing_names res g names = None.
Proof.
  intros Hm ->. revert m Hm. induction l1 as [|h l1 IH]; intros m; cbn [app mirror_grants].
  - unfold mirror_grant. intros Hm Hs _ Hr. rewrite bool_decide_false, Hr in Hm by done.
    destruct (answers (g_Resource g)) as [| |names]; [done..|]. exists names. split; [done|].
    destruct (mirror_tools _ _ _ _); [|done]. cbn [result_bind] in Hm. by destruct (missing_names _ _ _).
  - destruct (mirror_grant tools answers allow m h) as [m1|] eqn:E1; [|done]. cbn [result_bind].
    intros Hm Hs [Hh HF]%Forall_cons Hr. eapply IH; [exact Hm| |done|done].
    assert (mi_seen m1 = mi_seen m \/ mi_seen m1 = {[g_Resource h]} ∪ mi_seen m) as [->| ->]; [|done|set_solver].
    unfold mirror_grant in E1. cbv zeta in E1. case_bool_decide; [left; congruence|]. right. destruct (tools !! g_Resource h); [|by simplify_eq].
    destruct (answers (g_Resource h)); [discriminate..|]. destruct (mirror_tools _ _ _ _); [|discriminate]. cbn [result_bind] in E1.
    destruct (missing_names _ _ _); by simplify_eq.
Qed.

Lemma missing_named res g names t : missing_names res g names = None -> g_Tools g <> ["*"] -> t ∈ g_Tools g -> t ∈ names.
Proof.
  unfold missing_names, EveryToolReadWrite, AllTools. intros Hm Hn Ht. rewrite (bool_decide_false (g_Tools g = ["*"])) in Hm by done.
  cbn [andb] in Hm. destruct (List.find _ _) eqn:Ef; [done|]. apply find_none in Ef.
  pose proof (proj1 (Forall_forall _ _) Ef t Ht) as Hx. cbn in Hx. apply negb_false_iff in Hx. by apply contains_true.
Qed.

(** A named read-only grant was narrowed, never widened. *)
Lemma build_allow_classified tools gs a a' g t :
  build_allow tools gs a = Ok a' -> g ∈ gs -> g_Tools g <> ["*"] -> g_Mode g = "read-only" -> t ∈ g_Tools g ->
  t ∈ tr_ReadOnlyTools (default zeroResource (tools !! g_Resource g)).
Proof.
  revert a; induction gs as [|h gs IH]; intros a; cbn [build_allow]; [by intros _ ?%elem_of_nil|].
  destruct (add_grant tools a h) as [a1|] eqn:E1; [|done]. cbn [result_bind]. intros Hb [->|Hg]%elem_of_cons; [|by eapply IH].
  intros Hn Hro Ht. unfold add_grant in E1. destruct (grant_shape h); [done|].
  destruct (match a !! _ with Some _ => _ | None => _ end); [done|]. revert E1.
  unfold effective_set, EveryToolReadWrite, AllTools, ReadOnly. rewrite (bool_decide_false (g_Tools h = ["*"])), (bool_decide_true (g_Mode h = "read-only")) by done.
  cbn [andb]. destruct (List.find _ _) eqn:Ef; [done|]. intros _. apply find_none in Ef.
  pose proof (proj1 (Forall_forall _ _) Ef t Ht) as Hx. cbn in Hx. apply negb_false_iff, bool_decide_eq_true in Hx. by apply elem_of_list_to_set in Hx.
Qed.

(** C39: what an agent can reach through the tool door is exactly what its
    grants permit of what the upstreams expose.  When [Start] succeeds, a
    tool is mirrored, from exactly one resource, if and only if some grant on
    that resource permits it (every tool, the operator's read-only
    classification, or the names listed, which under read-only must all be
    classified) and the resource lists it; the call-time re-check admits the
    same pairs; and every tool an agent's grant names is there. *)
Theorem start_exposes_exactly_the_grants (tools : gmap string ToolResource) (answers : string -> upstream_answer)
    (url : string) (agent : AgentDef) (allow : allowedTools) (m : mirrored)
    (Hs : start_doors tools answers url agent = Ok (allow, m)) :
  (forall t id, mi_by m !! t = Some id <-> permitted tools (a_Tools agent) id t /\ listed tools answers id t) /\
  (forall id t, allows allow id t = true <-> permitted tools (a_Tools agent) id t) /\
  (forall g t, g ∈ a_Tools agent -> g_Tools g <> ["*"] -> t ∈ g_Tools g -> is_Some (tools !! g_Resource g) ->
     mi_by m !! t = Some (g_Resource g)).
Proof.
  unfold start_doors in Hs. destruct (exec_startable _ _); cbn [negb] in Hs; [|done].
  destruct (build_allow _ _ _) as [a|] eqn:Eb; [|done]. cbn [result_bind] in Hs.
  destruct (mirror_grants _ _ _ _ _) as [m'|] eqn:Em; [|done]. cbn [result_bind] in Hs. injection Hs as -> ->.
  pose proof (build_allow_allows _ _ _ _ Eb) as [_ Ha]. pose proof (mirror_grants_by _ _ _ _ _ _ Em) as Hby.
  assert (Hallow : forall id t, allows allow id t = true <-> permitted tools (a_Tools agent) id t).
  { intros id t. rewrite Ha. unfold allows at 1. rewrite lookup_empty. naive_solver. }
  assert (Hm : forall t id, mi_by m !! t = Some id <-> permitted tools (a_Tools agent) id t /\ listed tools answers id t).
  { intros t id. rewrite Hby, Hallow. cbn [mi_by no_mirror mi_seen]. rewrite lookup_empty. split; [naive_solver|].
    intros [Hp Hl]. right. split_and!; try done. destruct Hp as (g & Hg & <- & _). by apply list_elem_of_fmap_2. }
  split_and!; [done..|]. intros g t Hg Hn Ht [res Hr]. apply Hm.
  apply list_elem_of_split in Hg as (l1 & l2 & Hl).
  assert (He : EveryToolReadWrite g = false) by (unfold EveryToolReadWrite, AllTools; by rewrite bool_decide_false).
  rewrite Hl in Eb. pose proof (build_allow_limited _ _ _ _ _ _ Eb He) as [HF1 _]%Forall_app.
  destruct (mirror_grants_checked _ _ _ _ _ _ l1 g l2 res Em Hl ltac:(cbn; set_solver) HF1 Hr) as (names & Hans & Hmiss).
  pose proof (missing_named _ _ _ t Hmiss Hn Ht) as Hin. split; [|by exists res, names].
  exists g. split_and!; [rewrite Hl; set_solver|done|]. unfold grant_permits. rewrite decide_False by done. split; [done|]. intros Hro.
  eapply build_allow_classified; [exact Eb|set_solver|done..].
Qed.

Definition ex_answers (id : string) : upstream_answer := Listed ["search"; "delete"].
Definition ex_allow : allowedTools := {["res" := Some {["search"]}]}.
Definition ex_mirror : mirrored := MkMirrored {["res"]} {["search" := "res"]} ["res"].

Lemma ex_start : start_doors {["res" := ex_resource]} ex_answers "unix:///run/refexec/s" (ex_agent "lead" []) = Ok (ex_allow, ex_mirror).
Proof. vm_compute. reflexivity. Qed.

Lemma start_exposes_exactly_the_grants_witness : mi_by ex_mirror !! "search" = Some "res" /\ allows ex_allow "res" "delete" <> true.
Proof.
  destruct (start_exposes_exactly_the_grants {["res" := ex_resource]} ex_answers "unix:///run/refexec/s" (ex_agent "lead" [])
    ex_allow ex_mirror ex_start) as (_ & H2 & H3). split.
  - apply (H3 (MkGrant "res" ["search"] "read-only") "search"); [by left|done|by left|by exists ex_resource].
  - rewrite H2. intros (g & Hg & _ & Hp). apply list_elem_of_singleton in Hg as ->. unfold grant_permits in Hp.
    rewrite decide_False in Hp by done. destruct Hp as [Hp _]. by apply list_elem_of_singleton in Hp.
Defined.

(** ** The two gates agree *)

(** [Validate]'s [grantedAll] and [grantedLimited] are [allow]'s two kinds of
    keys. *)
Definition same_grants (all lim : list string) (a : allowedTools) : Prop :=
  forall r, (r ∈ all <-> a !! r = Some None) /\ (r ∈ lim <-> exists s, a !! r = Some (Some s)).

Lemma validate_grant_shape tools bad unk g all lim all' lim' :
  validate_grant tools bad unk g all lim = ([], (all', lim')) -> grant_shape g = None.
Proof.
  intros Hv. pose proof (grant_nil _ _ _ _ _ _ _ _ Hv) as ((_ & Ht & Hm) & _). unfold grant_shape.
  assert (Hm1 : g_Mode g <> "" /\ g_Mode g <> "all") by (by destruct Hm as [-> | ->]). destruct Hm1 as [Hm1 Hm2].
  assert (Htl : g_Tools g <> []) by (destruct Ht as [->|[? _]]; done).
  rewrite !(bool_decide_false (g_Mode g = "")), (bool_decide_false (g_Mode g = "all")), !(bool_decide_false (g_Tools g = [])) by done.
  cbn [andb negb]. assert (negb (bool_decide (g_Mode g = "read-only")) && negb (bool_decide (g_Mode g = "read-write")) = false) as ->.
  { destruct Hm as [-> | ->]; done. }
  assert (contains (g_Tools g) "*" && negb (length (g_Tools g) =? 1)%nat = false) as ->; [|done].
  destruct Ht as [->|[_ Hn]]; [done|]. by rewrite (proj2 (contains_false _ _) Hn).
Qed.

Lemma effective_set_ok tools g : grant_ok tools g -> exists names, effective_set (default zeroResource (tools !! g_Resource g)) g = Ok names /\
  (names = None <-> EveryToolReadWrite g = true).
Proof.
  intros (_ & _ & r & -> & Hro). cbn [default]. unfold effective_set. destruct (EveryToolReadWrite g) eqn:E; [by exists None|].
  destruct (AllTools g) eqn:Ea; [by eexists|]. destruct (ReadOnly g) eqn:Er; [|by eexists]. unfold ReadOnly in Er. bool_prop.
  destruct (List.find _ _) as [x|] eqn:Ef; [|by eexists]. exfalso. apply List.find_some in Ef as [Hin Hx].
  apply negb_true_iff, bool_decide_eq_false in Hx. apply Hx, elem_of_list_to_set. destruct (Hro Er) as [_ [Hs|Hs]].
  - unfold AllTools in Ea. rewrite Hs in Ea. done.
  - apply Hs. by apply list_elem_of_In.
Qed.

Lemma validate_grant_next tools bad unk g all lim all' lim' :
  validate_grant tools bad unk g all lim = ([], (all', lim')) ->
  ((contains all (g_Resource g) || contains lim (g_Resource g)) && (negb (EveryToolReadWrite g) || contains lim (g_Resource g)) = false) /\
  (all', lim') = (if EveryToolReadWrite g then (g_Resource g :: all, lim) else (all, g_Resource g :: lim)).
Proof.
  unfold validate_grant. repeat (case_match; [done|]). cbv zeta. intros [= He Hp]. split; [|done].
  apply app_nil in He as [_ He]. apply app_nil in He as [_ He]. apply app_nil in He as [_ He]. by apply when_nil in He.
Qed.

Lemma validated_add_grant tools bad unk g all lim all' lim' a :
  validate_grant tools bad unk g all lim = ([], (all', lim')) -> same_grants all lim a ->
  exists a', add_grant tools a g = Ok a' /\ same_grants all' lim' a'.
Proof.
  intros Hv Hs. pose proof (validate_grant_shape _ _ _ _ _ _ _ _ Hv) as Hsh. pose proof (grant_nil _ _ _ _ _ _ _ _ Hv) as Hok.
  destruct (effective_set_ok tools g Hok) as (names & En & Hnone). apply validate_grant_next in Hv as [Hdup Hnext].
  unfold add_grant. rewrite Hsh, En. cbn [result_bind]. destruct (Hs (g_Resource g)) as [Ha Hl].
  assert (Hin : (g_Resource g ∉ lim) /\ (EveryToolReadWrite g = false -> g_Resource g ∉ all)).
  { split; [intros H%contains_true; by rewrite H, !orb_true_r in Hdup|].
    intros He H%contains_true. by rewrite H, He in Hdup. }
  destruct Hin as [Hnl Hna].
  assert (match a !! g_Resource g with Some prev => negb (EveryToolReadWrite g) || is_Some_b prev | None => false end = false) as ->.
  { destruct (a !! g_Resource g) as [[s|]|] eqn:Eg; [exfalso; apply Hnl, Hl; by exists s| |done].
    destruct (EveryToolReadWrite g); [done|]. by destruct (Hna eq_refl); apply Ha. }
  eexists. split; [done|]. intros r. destruct (decide (r = g_Resource g)) as [->|Hne].
  - rewrite lookup_insert_eq. destruct (EveryToolReadWrite g).
    + injection Hnext as -> ->. rewrite (proj2 Hnone eq_refl). split; [set_solver|]. split; [done|]. by intros [? ?].
    + injection Hnext as -> ->. destruct names as [s|]; [|by discriminate (proj1 Hnone eq_refl)].
      split; [split; [by intros H%Hna|done]|]. split; [by exists s|set_solver].
  - rewrite lookup_insert_ne by done. destruct (Hs r) as [H1 H2]. rewrite <- H1, <- H2.
    destruct (EveryToolReadWrite g); injection Hnext as -> ->; set_solver.
Qed.

Lemma validated_build_allow tools bad unk gs all lim a :
  validate_grants tools bad unk gs all lim = [] -> same_grants all lim a -> exists a', build_allow tools gs a = Ok a'.
Proof.
  revert all lim a; induction gs as [|g gs IH]; intros all lim a; cbn [validate_grants build_allow]; [by eexists|].
  destruct (validate_grant tools bad unk g all lim) as [errs [all' lim']] eqn:Ev. intros [-> Hr]%app_nil Hs.
  destruct (validated_add_grant _ _ _ _ _ _ _ _ _ Ev Hs) as (a1 & -> & Hs1). cbn [result_bind]. by eapply IH.
Qed.

(** An agent of a built registry passed the agent rules. *)
Lemma built_agent_valid url_Parse cfg reg n a : Build url_Parse cfg = Ok reg -> Agent reg n = Some a ->
  a_Name a <> "" /\ validate_agent url_Parse (c_Gateway cfg) a = [].
Proof.
  unfold Build. destruct (Validate url_Parse cfg) eqn:HV; [|done]. intros [= <-].
  apply Validate_nil in HV as (agents & wfs & roles & Ha & _). apply validate_named_nil in Ha as (FA & NA & _ & ->).
  unfold Agent. cbn [reg_agents]. fold (insert_all a_Name (c_Agents cfg)). intros [Hin _]%(insert_all_lookup a_Name); [|done].
  exact (proj1 (Forall_forall _ _) FA a Hin).
Qed.

(** Refusals only an upstream can cause. *)
Definition upstream_error (e : start_error) : Prop :=
  match e with
  | ConnectFailed _ _ | ListFailed _ _ | ExposedTwice _ _ _ | MatchesNothing _ | NotExposed _ _ => True
  | _ => False
  end.

Lemma mirror_tools_error allow id names by_ e : mirror_tools allow id names by_ = Err e -> upstream_error e.
Proof.
  revert by_; induction names as [|t names IH]; intros by_; cbn [mirror_tools]; [done|].
  destruct (allows allow id t); cbn [negb]; [|apply IH]. destruct (by_ !! t); [by intros [= <-]|apply IH].
Qed.

Lemma missing_names_error res g names e : missing_names res g names = Some e -> upstream_error e.
Proof.
  unfold missing_names. destruct (EveryToolReadWrite g); [done|]. destruct (AllTools g); [by destruct (List.existsb _ _); intros [= <-]|].
  destruct (List.find _ _); [by intros [= <-]|done].
Qed.

Lemma mirror_grants_error tools answers allow gs m e : mirror_grants tools answers allow gs m = Err e -> upstream_error e.
Proof.
  revert m; induction gs as [|g gs IH]; intros m; cbn [mirror_grants]; [done|].
  destruct (mirror_grant tools answers allow m g) as [m1|e1] eqn:E1; cbn [result_bind]; [apply IH|]. intros [= ->].
  unfold mirror_grant in E1. cbv zeta in E1. case_bool_decide; [done|]. destruct (tools !! _); [|done].
  destruct (answers _); [by injection E1 as <-..|]. destruct (mirror_tools _ _ _ _) eqn:Em; cbn [result_bind] in E1;
    [|injection E1 as ->; by eapply mirror_tools_error].
  destruct (missing_names _ _ _) eqn:En; [|done]. injection E1 as ->. by eapply missing_names_error.
Qed.

(** The registry's gate and the gateway's gate agree.  For an agent of a
    registry that [Build] accepted, [Start] (which re-checks every grant and
    the exec block on its own) can only be refused for what an upstream
    answered: a failed connect or listing, a name two upstreams share, or a
    tool the upstream no longer exposes.  No shape, duplicate, classification
    or exec rule of [Start] is stricter than [Validate]'s. *)
Theorem validated_agent_starts (url_Parse : string -> option (string * string)) (cfg : Config) (reg : Registry) (n : string)
    (a : AgentDef) (answers : string -> upstream_answer)
    (HB : Build url_Parse cfg = Ok reg) (HA : Agent reg n = Some a) :
  match start_doors (gw_Tools (c_Gateway cfg)) answers (x_URL (a_Exec a)) a with
  | Ok _ => True
  | Err e => upstream_error e
  end.
Proof.
  destruct (built_agent_valid _ _ _ _ _ HB HA) as [Hn Hv]. pose proof (agent_nil _ _ _ Hn Hv) as (_ & _ & _ & _ & Hx).
  unfold validate_agent in Hv. apply app_nil in Hv as [_ Hv]. apply app_nil in Hv as [_ Hv]. apply app_nil in Hv as [Hg _].
  unfold start_doors. assert (exec_startable (a_Exec a) (x_URL (a_Exec a)) = true) as ->.
  { unfold exec_startable. destruct (Declared (a_Exec a)) eqn:Ed; [|done]. destruct (Hx Ed) as (-> & Ht & _ & _ & path & -> & _).
    rewrite (proj2 (has_prefix_spec _ _)) by (by exists path). cbn. apply negb_true_iff, Z.leb_gt. unfold second in Ht. lia. }
  cbn [negb]. destruct (validated_build_allow _ _ _ _ [] [] ∅ Hg) as [allow ->].
  { intros r. rewrite lookup_empty. set_solver. }
  cbn [result_bind]. destruct (mirror_grants _ _ _ _ _) eqn:Em; cbn [result_bind]; [done|]. by eapply mirror_grants_error.
Qed.

Lemma validated_agent_starts_witness :
  match start_doors (gw_Tools (c_Gateway ex_config)) ex_answers "unix:///run/refexec/s" (ex_agent "worker" []) with
  | Ok _ => True
  | Err e => upstream_error e
  end.
Proof. apply (validated_agent_starts ex_url ex_config ex_registry "worker" (ex_agent "worker" []) ex_answers ex_build). vm_compute. reflexivity. Defined.
