(* ===== verification/Credentials.v ===== *)
(** * Credentials ([internal/broker/broker.go], [internal/gateway/resolve.go],
      and the outbound leg of [internal/rungateway/proxy.go])

    Agents are credential-starved: a resource's credential is resolved by a
    broker on each outbound request and set as the bearer there.  The minting
    and the exchanging broker are arguments of [Dispatch] (they talk to token
    endpoints); the environment and the key file are arguments of the static
    paths. *)
From S2P Require Import Prelude Sha256 GoStr Json Ledger Config Origin Event Engine Paths Attest.

Record CredentialRef : Type := MkRef {
  cr_ResourceID : string;
  cr_Source : string;
  cr_Grant : string;
  cr_ClientAuth : string;
  cr_Issuer : string;
  cr_TokenURL : string;
  cr_Scope : string;
  cr_Audience : string;
  cr_TokenEnv : string;
  cr_ClientIDEnv : string;
  cr_ClientSecretEnv : string;
  cr_SubjectToken : string;
}.

(** The [Broker] interface: a credential, or an error's text. *)
Abbreviation Broker := (CredentialRef -> result string string).

Section brokers.
  Context `{GoText} (getenv : string -> string).

(** [StaticEnv.Resolve] *)
Definition StaticEnv (ref : CredentialRef) : result string string :=
  if bool_decide (cr_ClientAuth ref = "sigv4")
  then Err "broker: a sigv4 key pair is not a bearer; resolve it with ResolveKeyPair"
  else if negb (bool_decide (cr_Grant ref = ""))
  then Err ("broker: static_env handles the direct-bearer grant only, not " +:+ quote (cr_Grant ref))
  else if negb (bool_decide (cr_Source ref = "")) && negb (bool_decide (cr_Source ref = "static_env"))
  then Err ("broker: unsupported credential source " +:+ quote (cr_Source ref))
  else if bool_decide (cr_TokenEnv ref = "") then Err "broker: static_env credential has no env var configured"
  else
    let v := getenv (cr_TokenEnv ref) in
    if bool_decide (v = "") then Err ("broker: environment variable " +:+ cr_TokenEnv ref +:+ " is not set") else Ok v.

Record Dispatch : Type := MkDispatch {
  d_StaticEnv : Broker;
  d_ClientCredentials : Broker;
  d_TokenExchange : Broker;
}.

(** [Dispatch.Resolve] *)
Definition DispatchResolve (d : Dispatch) (ref : CredentialRef) : result string string :=
  if bool_decide (cr_Grant ref = "") then d_StaticEnv d ref
  else if bool_decide (cr_Grant ref = "client_credentials") then d_ClientCredentials d ref
  else if bool_decide (cr_Grant ref = "token_exchange") then d_TokenExchange d ref
  else Err ("broker: unsupported grant type " +:+ quote (cr_Grant ref)).

(** ** Model routes *)
Record Route : Type := MkModelRoute { rt_Endpoint : string; rt_Model : string; rt_APIKey : string }.

Definition zeroRef : CredentialRef := MkRef "" "" "" "" "" "" "" "" "" "" "" "".

(** [gateway.Resolve] *)
Definition Resolve (cfg : GatewayConfig) (logical roleKey : string) : result string Route :=
  let name := if bool_decide (logical = "") then gw_DefaultModel cfg else logical in
  match gw_Models cfg !! name with
  | None => Err ("model " +:+ quote name +:+ " has no gateway route")
  | Some route =>
      let key := if bool_decide (roleKey = "")
                 then match StaticEnv (MkRef "" "static_env" "" "" "" "" "" "" (m_APIKeyEnv route) "" "" "") with
                      | Ok v => Ok v
                      | Err e => Err ("gateway route " +:+ quote name +:+ ": " +:+ e +:+ "; no role key provisioned")
                      end
                 else Ok roleKey in
      let! apiKey := key in
      Ok (MkModelRoute (m_Endpoint route) (m_Model route) apiKey)
  end.
End brokers.

Definition RoleKeyPath (root role : string) : string := Join [root; ".agenthof"; "keys"; role +:+ ".key"].

(** [LoadRoleKey]; [read] is [os.ReadFile]. *)
Definition LoadRoleKey (read : string -> option string) (root role : string) : string :=
  match read (RoleKeyPath root role) with
  | None => ""
  | Some data => TrimSpace data
  end.

(** ** The outbound leg *)

(** The reference [connectUpstream] builds for a resource. *)
Definition credential_ref (subjectToken id : string) (res : ToolResource) : CredentialRef :=
  let exchange := bool_decide (tr_GrantType res = "token_exchange") in
  MkRef id (tr_CredentialSource res) (tr_GrantType res) (tr_ClientAuth res) (tr_Issuer res) (tr_TokenEndpoint res)
    (tr_Scope res) (if exchange then tr_Audience res else "") (tr_TokenEnv res) (tr_ClientIDEnv res) (tr_ClientSecretEnv res)
    (if exchange then subjectToken else "").

(** [upstreamTransport]: the dialled socket, if any, and the endpoint. *)
Definition upstreamTransport (rawURL : string) : option string * string :=
  match cut_prefix UnixScheme rawURL with
  | Some path => (Some path, "http://agenthof/")
  | None => (None, rawURL)
  end.

(** [injectingTransport.RoundTrip]: the headers that leave, or the broker's
    error and no request. *)
Definition RoundTrip (b : Broker) (ref : CredentialRef) (headers : gmap string string) : result string (gmap string string) :=
  let! cred := b ref in Ok (<["Authorization" := "Bearer " +:+ cred]> headers).

Definition authModeFor (res : ToolResource) : string :=
  let g := tr_GrantType res in
  if bool_decide (g = "") then "static_env"
  else if bool_decide (g = "client_credentials") then "client_credentials"
  else if bool_decide (g = "token_exchange") then "token_exchange"
  else g.

(** ** Properties *)

(** The invoker's own token reaches a broker only for an on-behalf-of
    resource.  For any resource whose grant is not [token_exchange], what
    leaves the gateway is the same whatever the invoker's token and the
    agent's own bearer are: the request carries the credential the grant's
    broker resolves, or does not leave at all; and under [token_exchange] only
    the exchanging broker ever sees the token. *)
Theorem outbound_credential_isolated `{GoText} (d : Dispatch) (t1 t2 id bearer : string) (res : ToolResource) (h : gmap string string) :
  (tr_GrantType res <> "token_exchange" ->
     RoundTrip (DispatchResolve d) (credential_ref t1 id res) (<["Authorization" := bearer]> h)
     = RoundTrip (DispatchResolve d) (credential_ref t2 id res) h) /\
  (tr_GrantType res = "token_exchange" ->
     RoundTrip (DispatchResolve d) (credential_ref t1 id res) (<["Authorization" := bearer]> h)
     = RoundTrip (d_TokenExchange d) (credential_ref t1 id res) h) /\
  (forall out, RoundTrip (DispatchResolve d) (credential_ref t1 id res) (<["Authorization" := bearer]> h) = Ok out ->
     exists cred, DispatchResolve d (credential_ref t1 id res) = Ok cred /\ out !! "Authorization" = Some ("Bearer " +:+ cred) /\
       delete "Authorization" out = delete "Authorization" h).
Proof.
  assert (Hh : forall c, <["Authorization" := c]> (<["Authorization" := bearer]> h) = <["Authorization" := c]> h)
    by (intros; apply insert_insert_eq).
  split_and!.
  - intros Hne. unfold credential_ref. rewrite (bool_decide_false (tr_GrantType res = "token_exchange")) by done.
    unfold RoundTrip. destruct (DispatchResolve d _); cbn [result_bind]; [by rewrite Hh|done].
  - intros He. unfold RoundTrip, DispatchResolve. assert (cr_Grant (credential_ref t1 id res) = "token_exchange") as -> by exact He.
    rewrite !bool_decide_false, bool_decide_true by done. destruct (d_TokenExchange d _); cbn [result_bind]; [by rewrite Hh|done].
  - intros out. unfold RoundTrip. destruct (DispatchResolve d _) as [cred|] eqn:E; cbn [result_bind]; [|done]. intros [= <-].
    exists cred. split_and!; [done|apply lookup_insert_eq|]. by rewrite !delete_insert_eq.
Qed.

(** A model route always carries a key: with a provisioned role key that
    key and no other, otherwise the route's own environment variable, never an
    empty key; and it resolves exactly when the model is routed and one of the
    two keys exists. *)
Theorem route_key_is_scoped `{GoText} (getenv : string -> string) (cfg : GatewayConfig) (logical roleKey : string) (r : ModelRoute)
    (Hl : logical <> "") (Hr : gw_Models cfg !! logical = Some r) :
  (roleKey <> "" -> Resolve getenv cfg logical roleKey = Ok (MkModelRoute (m_Endpoint r) (m_Model r) roleKey)) /\
  (roleKey = "" -> m_APIKeyEnv r <> "" -> getenv (m_APIKeyEnv r) <> "" ->
     Resolve getenv cfg logical roleKey = Ok (MkModelRoute (m_Endpoint r) (m_Model r) (getenv (m_APIKeyEnv r)))) /\
  (forall rt, Resolve getenv cfg logical roleKey = Ok rt ->
     rt_APIKey rt <> "" /\ rt_Endpoint rt = m_Endpoint r /\ rt_Model rt = m_Model r /\
     (roleKey = "" -> m_APIKeyEnv r <> "" /\ rt_APIKey rt = getenv (m_APIKeyEnv r))).
Proof.
  unfold Resolve. rewrite (bool_decide_false (logical = "")), Hr by done.
  unfold StaticEnv. cbn [cr_ClientAuth cr_Grant cr_Source cr_TokenEnv].
  rewrite (bool_decide_false ("" = "sigv4")), (bool_decide_true ("" = "")), (bool_decide_false ("static_env" = "")), (bool_decide_true ("static_env" = "static_env")) by done.
  cbn [negb andb]. split_and!.
  - intros Hk. by rewrite bool_decide_false.
  - intros -> He Hg. by rewrite bool_decide_true, !bool_decide_false by done.
  - intros rt. case_bool_decide as Ek; cbn [result_bind]; [|intros [= <-]; by split_and!].
    case_bool_decide as Ee; cbn [result_bind]; [done|]. case_bool_decide as Eg; cbn [result_bind]; [done|]. intros [= <-]. by split_and!.
Qed.

#[local] Existing Instance toy_text.
Lemma route_key_is_scoped_witness :
  Resolve (fun v => "key-of-" +:+ v) (MkGateway {["m" := MkRoute "https://llm" "gpt" "LLM_KEY"]} ∅ "m" "" "" (MkPolicy 0 0 0 false) 0) "m" ""
  = Ok (MkModelRoute "https://llm" "gpt" "key-of-LLM_KEY").
Proof.
  refine (proj1 (proj2 (route_key_is_scoped (fun v => "key-of-" +:+ v) _ "m" "" (MkRoute "https://llm" "gpt" "LLM_KEY") _ _)) _ _ _); try done.
Defined.
