(* ===== verification/Doors.v ===== *)
(** * The doors ([internal/rungateway]: [exec.go], [spawn.go] and the door
      handlers of [proxy.go])

    A door handler runs once for each admitted call.  It returns the events
    it appended, in order, and what it answered; what the operating system,
    the runtime, a model upstream or an MCP server answered is an argument.
    The spawn door is split where it takes the gateway's lock. *)
From S2P Require Import Prelude Sha256 GoStr Json Paths Ledger Config Authz Origin Registry Event Engine EngineTrace Completeness RunAudit Attest Grants Credentials.

Inductive answer : Type :=
  | HttpError (msg : string) (code : Z)
  | HttpJSON (code : Z) (body : json)
  | Relayed (code : Z) (body : string).

Abbreviation handled := (list Event * answer)%type.

(** [isJSONObject] *)
Definition isJSONObject (body : string) : bool :=
  match skip_ws body with
  | String "{" _ => is_Some_b (parse_json body)
  | _ => false
  end.

(** Decoding a request body into a struct. *)
Definition decode_body {A} (dec : list (string * json) -> A -> option A) (zero : A) (body : string) : option A :=
  match parse_json body with Some v => dec_obj dec v zero | None => None end.

Definition dec_command (fs : list (string * json)) (cur : list string) : option (list string) :=
  dec_field dec_strs (field_values "command" fs) cur.

(** ** The exec door *)
Definition reasonExecNotAllowlisted : string := "command is not on the exec allowlist".
Definition reasonExecCommandUnrecordable : string := "command exceeds the ledger's argv bounds".
Definition reasonExecRunNotDeclared : string := "first-hand exec is not declared for this agent".
Definition reasonExecFirstHandOnly : string := "exec on this agent is first-hand: authorize and attest are not available".
Definition reasonExecSocketDir : string := "exec runtime socket directory is not a private (0700) directory owned by this user".
Definition reasonExecUnreachable : string := "exec runtime unreachable".
Definition reasonExecTimedOut : string := "exec runtime call timed out".
Definition reasonExecCancelled : string := "exec runtime call was cancelled".
Definition reasonExecErrorStatus : string := "exec runtime returned an error status".
Definition reasonExecResponseTooLarge : string := "exec runtime response too large".
Definition reasonExecResponseMalformed : string := "exec runtime response malformed".
Definition reasonExecCommandMismatch : string := "runtime attestation names a different command".
Definition reasonExecOutputHash : string := "exec runtime output hash does not match the output".
Definition reasonExecAttestationMissing : string := "runtime attestation missing".
Definition reasonExecAttestationMalformed : string := "runtime attestation malformed".
Definition reasonExecRequestMalformed : string := "exec request malformed".

Definition maxExecRunResponse : Z := 8 * 2 ^ 20.

Inductive ctx_state : Type := CtxLive | CtxDeadline | CtxCanceled.

Definition ctxReason (ctx : ctx_state) (fallback : string) : string :=
  match ctx with
  | CtxDeadline => reasonExecTimedOut
  | CtxCanceled => reasonExecCancelled
  | CtxLive => fallback
  end.

(** What [os.Stat] reports; the owner only where the platform has one. *)
Record dir_stat : Type := MkStat { ds_dir : bool; ds_perm : Z; ds_uid : option Z }.

(** [CheckPrivateDir]: true when it returns nil. *)
Definition CheckPrivateDir (uid : Z) (stat : option dir_stat) : bool :=
  match stat with
  | None => false
  | Some fi =>
      ds_dir fi && (ds_perm fi =? 448) && match ds_uid fi with Some u => u =? uid | None => true end
  end.

(** One HTTP call: a failed exchange with the context's state, or a status,
    the bytes of the body and, if reading them failed, the context's state. *)
Inductive http_outcome : Type :=
  | CallFailed (ctx : ctx_state)
  | Answered (status : Z) (body : string) (fault : option ctx_state).

Record exec_env : Type := MkExecEnv {
  xe_stat : string -> option dir_stat;
  xe_uid : Z;
  xe_runtime : string -> string -> http_outcome;   (** socket path, request body *)
}.

Record execRunResponse : Type := MkExecResponse {
  er_ExitCode : ptr Z;
  er_Output : string;
  er_OutputSHA : string;
  er_Truncated : bool;
  er_OutputBytes : Z;
  er_RuntimeAttestation : option json;
}.

(** A field of type [any]. *)
Definition dec_any (v : json) (cur : option json) : option (option json) :=
  match v with JNull => Some None | _ => match any_of v with Some v' => Some (Some v') | None => None end end.

Definition dec_exec_response (fs : list (string * json)) (cur : execRunResponse) : option execRunResponse :=
  x1 ← dec_field dec_ptr_int (field_values "exit_code" fs) (er_ExitCode cur);
  x2 ← dec_field dec_str (field_values "output" fs) (er_Output cur);
  x3 ← dec_field dec_str (field_values "output_sha" fs) (er_OutputSHA cur);
  x4 ← dec_field dec_bool (field_values "truncated" fs) (er_Truncated cur);
  x5 ← dec_field dec_int (field_values "output_bytes" fs) (er_OutputBytes cur);
  x6 ← dec_field dec_any (field_values "runtime_attestation" fs) (er_RuntimeAttestation cur);
  Some (MkExecResponse x1 x2 x3 x4 x5 x6).
Definition zeroExecResponse : execRunResponse := MkExecResponse None "" "" false 0 None.

Section handlers.
  Context (bind : Binding) (agent : AgentDef).

(** An exec event of this door. *)
Definition exec_event (status reason : string) (argv : list string) : Event :=
  { zeroEvent with ev_Type := "exec"; ev_Agent := a_Name agent; ev_Status := status; ev_Reason := reason;
                   ev_Command := argv; ev_Mode := "runtime"; ev_Binding := bind }.

(** [execAssertedHandler], [refuseAssertedExec] *)
Definition execAssertedHandler (body : string) : handled :=
  match decode_body dec_command [] body with
  | None => ([exec_event "refused" reasonExecRequestMalformed []], HttpError reasonExecRequestMalformed 400)
  | Some argv => ([exec_event "refused" reasonExecFirstHandOnly argv], HttpError reasonExecFirstHandOnly 403)
  end.

(** What the answer of the runtime is worth: the reason it fails, or the
    verified response with its exit code and attestation.  The source reads one
    byte beyond the bound at most, so a connection that breaks later than that
    is not noticed: an answer over the bound is too large, and a fault counts
    for one within it.  (A read that brings the byte over the bound together
    with the fault is a fault in the source; only the reason differs.) *)
Definition judge_response (runtime : string) (argv : list string) (out : http_outcome)
  : result string (execRunResponse * Z * RuntimeAttestation) :=
  match out with
  | CallFailed ctx => Err (ctxReason ctx reasonExecUnreachable)
  | Answered status raw fault =>
      if (status <? 200) || (300 <=? status) then Err reasonExecErrorStatus
      else if maxExecRunResponse <? Z.of_nat (String.length raw) then Err reasonExecResponseTooLarge
      else match fault with
           | Some ctx => Err (ctxReason ctx reasonExecUnreachable)
           | None =>
               match decode_body dec_exec_response zeroExecResponse raw with
               | None => Err reasonExecResponseMalformed
               | Some res =>
                   match er_ExitCode res with
                   | None => Err reasonExecResponseMalformed
                   | Some exit =>
                       match decodeAttestation (er_RuntimeAttestation res) runtime with
                       | Err errAttestationMissing => Err reasonExecAttestationMissing
                       | Err errAttestationMalformed => Err reasonExecAttestationMalformed
                       | Ok att =>
                           if negb (bool_decide (default [] (ra_Command att) = argv)) then Err reasonExecCommandMismatch
                           else if negb (bool_decide (sha256_hex (er_Output res) = er_OutputSHA res)) then Err reasonExecOutputHash
                           else Ok (res, exit, att)
                       end
                   end
               end
           end
  end.

Definition exec_request (argv : list string) : string := marshal (JObj [("command", JArr (map JStr argv))]).

(** [execRunHandler]; [url] is [execURLFor agent].  Marshalling a list of
    strings and building a request for a constant route cannot fail, so those
    two branches of the source are not reachable. *)
Definition execRunHandler (url : string) (env : exec_env) (body : string) : handled :=
  match decode_body dec_command [] body with
  | None => ([exec_event "refused" reasonExecRequestMalformed []], HttpError reasonExecRequestMalformed 400)
  | Some argv =>
      let refuse reason := ([exec_event "refused" reason argv], HttpError reason 403) in
      let fail reason := ([exec_event "failed" reason argv], HttpError reason 502) in
      if negb (Declared (a_Exec agent)) then refuse reasonExecRunNotDeclared
      else if negb (Allows (a_Exec agent) argv) then refuse reasonExecNotAllowlisted
      else if negb (argvRecordable argv) then refuse reasonExecCommandUnrecordable
      else
        let sockPath := trim_prefix url UnixScheme in
        if negb (CheckPrivateDir (xe_uid env) (xe_stat env (Paths.Dir sockPath))) then fail reasonExecSocketDir
        else
          match judge_response (x_Runtime (a_Exec agent)) argv (xe_runtime env sockPath (exec_request argv)) with
          | Err reason => fail reason
          | Ok (res, exit, att) =>
              let status := if exit =? 0 then "succeeded" else "failed" in
              ([{ exec_event status "" argv with ev_ExitCode := Some exit; ev_OutputSHA := er_OutputSHA res;
                                                 ev_RuntimeAttestation := Some att }],
               HttpJSON 200 (JObj [("exit", JNum (itoa exit)); ("output", JStr (er_Output res)); ("truncated", JBool (er_Truncated res))]))
          end
  end.
End handlers.

(** [execURLFor]; [override] is the gateway's [execURL]. *)
Definition execURLFor (override : string) (agent : AgentDef) : string :=
  if negb (bool_decide (override = "")) then override else x_URL (a_Exec agent).

(** ** The spawn door *)
Definition reasonSpawnUnavailable : string := "spawn is not available to this run".
Definition reasonSpawnNotAllowed : string := "spawn target is not on the agent's may_spawn list".
Definition reasonSpawnDepth : string := "spawn would exceed max_depth".
Definition reasonSpawnParallel : string := "spawn would exceed max_parallel".
Definition reasonSpawnTotal : string := "spawn would exceed max_total_spawns".
Definition reasonSpawnIncomplete : string := "spawn did not complete".
Definition reasonSpawnRequestMalformed : string := "spawn request malformed".

Record SpawnResult : Type := MkSpawnResult {
  sp_ChildRunID : string;
  sp_Status : string;
  sp_Reason : string;
  sp_OutputSHA : string;
  sp_OutputPreview : string;
  sp_Provisioned : bool;
  sp_ChildConfiner : string;
  sp_ChildConfinerOpts : list string;
}.

Record spawnRequest : Type := MkSpawnRequest { sq_Role : string; sq_Workflow : string; sq_Input : string }.

Definition dec_spawn (fs : list (string * json)) (cur : spawnRequest) : option spawnRequest :=
  x1 ← dec_field dec_str (field_values "role" fs) (sq_Role cur);
  x2 ← dec_field dec_str (field_values "workflow" fs) (sq_Workflow cur);
  x3 ← dec_field dec_str (field_values "input" fs) (sq_Input cur);
  Some (MkSpawnRequest x1 x2 x3).

Section spawn.
  Context (bind : Binding) (agent : AgentDef).

Definition spawn_depth : Z := wrap64 (b_Depth bind + 1).

Definition spawn_event (status reason role workflow : string) : Event :=
  { zeroEvent with ev_Type := "spawn"; ev_Agent := a_Name agent; ev_Status := status; ev_Reason := reason;
                   ev_ChildRole := role; ev_ChildWorkflow := workflow; ev_Depth := spawn_depth; ev_Binding := bind }.

Definition spawn_answer (code : Z) (status id sha preview reason : string) : answer :=
  HttpJSON code (JObj (omit [("status", enc_str status); ("child_run_id", enc_str_oe id); ("output_sha", enc_str_oe sha);
                             ("output_preview", enc_str_oe preview); ("reason", enc_str_oe reason)])).

Definition childRole (q : spawnRequest) : string := capRunes (sq_Role q) 200.
Definition childWorkflow (q : spawnRequest) : string := capRunes (sq_Workflow q) 200.

Definition spawn_refuse (reason role workflow : string) : handled :=
  ([spawn_event "refused" reason role workflow], spawn_answer 403 "refused" "" "" "" reason).

(** Before the lock: a refusal, or the request to reserve for. *)
Definition spawn_precheck (hasSpawner : bool) (body : string) : handled + spawnRequest :=
  match decode_body dec_spawn (MkSpawnRequest "" "" "") body with
  | None => inl ([spawn_event "refused" reasonSpawnRequestMalformed "" ""],
                 spawn_answer 400 "refused" "" "" "" reasonSpawnRequestMalformed)
  | Some q =>
      if negb hasSpawner then inl (spawn_refuse reasonSpawnUnavailable (childRole q) (childWorkflow q))
      else if negb (MaySpawnTarget agent (sq_Role q) (sq_Workflow q))
      then inl (spawn_refuse reasonSpawnNotAllowed (childRole q) (childWorkflow q))
      else inr q
  end.

(** Under the lock: the cap that refuses, if one does. *)
Definition spawn_cap (policy : SpawnPolicy) (inflight total : Z) : option string :=
  if p_MaxDepth policy <? spawn_depth then Some reasonSpawnDepth
  else if p_MaxParallel policy <=? inflight then Some reasonSpawnParallel
  else if p_MaxTotalSpawns policy <=? total then Some reasonSpawnTotal
  else None.

Definition known_status (s : string) : string := if contains ["succeeded"; "failed"; "refused"] s then s else "failed".

(** After the child is over: [err] is whether [Spawn] returned an error. *)
Definition spawn_finish (q : spawnRequest) (res : SpawnResult) (err : bool) : handled :=
  if err then
    ([{ spawn_event "failed" reasonSpawnIncomplete (childRole q) (childWorkflow q) with
        ev_ChildRunID := sp_ChildRunID res; ev_ChildConfiner := sp_ChildConfiner res; ev_ChildConfinerOpts := sp_ChildConfinerOpts res }],
     HttpError reasonSpawnIncomplete 502)
  else
    let status := known_status (sp_Status res) in
    let reason := capRunes (sp_Reason res) 200 in
    ([{ spawn_event status reason (childRole q) (childWorkflow q) with
        ev_ChildRunID := sp_ChildRunID res; ev_OutputSHA := sp_OutputSHA res;
        ev_ChildConfiner := sp_ChildConfiner res; ev_ChildConfinerOpts := sp_ChildConfinerOpts res }],
     spawn_answer (if bool_decide (status = "refused") then 403 else 200) status (sp_ChildRunID res) (sp_OutputSHA res)
       (sp_OutputPreview res) reason).
End spawn.

(** ** The model door *)
Definition reasonModelRequestMalformed : string := "model request malformed".
Definition reasonModelRequestUnbuildable : string := "model request could not be rebuilt".
Definition reasonModelRouteMalformed : string := "model route endpoint malformed".
Definition maxModelResponse : Z := 10 * 2 ^ 20.

(** [net/http]'s status texts and [net/url]'s parser (scheme, host, path). *)
Class GoHttp := { StatusText : Z -> string; url_parse : string -> option (string * string * string) }.

Definition singleJoiningSlash (a b : string) : string :=
  let aslash := has_suffix a "/" in
  let bslash := has_prefix b "/" in
  if aslash && bslash then a +:+ trim_prefix b "/"
  else if negb aslash && negb bslash then a +:+ "/" +:+ b
  else a +:+ b.

(** [parseUsage] *)
Definition dec_usage (fs : list (string * json)) (cur : ptr Z * ptr Z) : option (ptr Z * ptr Z) :=
  x1 ← dec_field dec_ptr_int (field_values "prompt_tokens" fs) cur.1;
  x2 ← dec_field dec_ptr_int (field_values "completion_tokens" fs) cur.2;
  Some (x1, x2).
Definition dec_parsed (fs : list (string * json)) (cur : ptr Z * ptr Z) : option (ptr Z * ptr Z) :=
  dec_field (dec_obj dec_usage) (field_values "usage" fs) cur.
Definition parseUsage (body : string) : ptr Z * ptr Z := default (None, None) (decode_body dec_parsed (None, None) body).

(** The body as [map[string]json.RawMessage]: exact keys, the last duplicate
    wins, marshalled in key order with the raw values untouched. *)
Definition raw_fields (fs : list (string * json)) : list (string * json) :=
  fold_left (fun acc kv => insert_key kv.1 kv.2 acc) fs [].
Definition logical_model (req : list (string * json)) : string :=
  match List.find (fun kv => bool_decide (kv.1 = "model")) req with
  | Some (_, JStr s) => s
  | _ => ""
  end.

(** The headers [Rewrite] leaves on the outbound request. *)
Definition model_headers (key : string) (out : gmap string string) : gmap string string :=
  delete "Accept-Encoding" (delete "Cookie"
    (filter (fun kv => has_prefix kv.1 "X-Agenthof-" = false) (<["Authorization" := "Bearer " +:+ key]> out))).

(** What leaves for the upstream; the body is a value, since a raw member
    keeps its own spelling. *)
Record model_request : Type := MkModelRequest {
  mq_scheme : string; mq_host : string; mq_path : string; mq_headers : gmap string string; mq_body : json;
}.

(** The upstream: a failed round trip, or a status, content type, body and
    whether reading the body failed. *)
Inductive model_outcome : Type :=
  | RoundTripFailed
  | ModelAnswered (status : Z) (contentType body : string) (fault : bool).

Record model_env : Type := MkModelEnv {
  me_getenv : string -> string;
  me_readfile : string -> option string;
  me_keyRoot : string;
  me_headers : gmap string string;          (** [pr.Out.Header] as [Rewrite] finds it *)
  me_upstream : model_request -> model_outcome;
}.

Section model.
  Context `{GoText} `{GoHttp} (bind : Binding) (agent : AgentDef) (gw : GatewayConfig).

Definition model_event (status reason model : string) : Event :=
  { zeroEvent with ev_Type := "model_call"; ev_Agent := a_Name agent; ev_Status := status; ev_Reason := reason;
                   ev_Model := model; ev_Binding := bind }.

Definition effective_model : string := if bool_decide (a_Model agent = "") then gw_DefaultModel gw else a_Model agent.

(** [ModifyResponse]: what it recorded, and whether it returned an error.  The
    bound and the fault stand as in [judge_response]. *)
Definition modify_response (logical : string) (status : Z) (contentType body : string) (fault : bool) : list Event * bool :=
  if (status <? 200) || (300 <=? status) then
    let reason := if status =? 429 then "budget" else "upstream " +:+ itoa status +:+ " " +:+ StatusText status in
    ([model_event "refused" reason logical], false)
  else if str_contains contentType "text/event-stream" then ([model_event "started" "" logical], false)
  else if maxModelResponse <? Z.of_nat (String.length body) then ([model_event "failed" "upstream response too large" logical], true)
  else if fault then ([model_event "failed" "upstream read failed" logical], true)
  else
    let '(pt, ct) := parseUsage body in
    ([{ model_event "succeeded" "" logical with ev_PromptTokens := pt; ev_CompletionTokens := ct }], false).

(** [ErrorHandler], after [recorded] events. *)
Definition model_error (logical : string) (recorded : list Event) : handled :=
  (recorded ++ (if bool_decide (recorded = []) then [model_event "failed" "model call did not complete" logical] else []),
   HttpError "upstream error" 502).

(** [rp.ServeHTTP] *)
Definition serve_model (logical : string) (out : model_outcome) : handled :=
  match out with
  | RoundTripFailed => model_error logical []
  | ModelAnswered status contentType body fault =>
      match modify_response logical status contentType body fault with
      | (evs, true) => model_error logical evs
      | (evs, false) => (evs, Relayed status body)
      end
  end.

(** [modelHandler].  Marshalling the route's model name and a map of valid raw
    values cannot fail, so [reasonModelRequestUnbuildable] is not reachable. *)
Definition modelHandler (env : model_env) (body : string) : handled :=
  match parse_json body with
  | Some (JObj fs) =>
      let req := raw_fields fs in
      let logical := logical_model req in
      if bool_decide (logical = "") || negb (bool_decide (logical = effective_model)) then
        let echoed := capRunes logical 200 in
        ([model_event "refused" ("model " +:+ quote echoed +:+ " is not allowed for this agent") echoed], HttpError "model not allowed" 403)
      else
        match Resolve (me_getenv env) gw logical (LoadRoleKey (me_readfile env) (me_keyRoot env) (b_Role bind)) with
        | Err _ => ([model_event "failed" "model route not resolved" logical], HttpError "model route not resolved" 502)
        | Ok route =>
            let newBody := JObj (insert_key "model" (JStr (rt_Model route)) req) in
            let malformed := ([model_event "failed" reasonModelRouteMalformed logical], HttpError reasonModelRouteMalformed 502) in
            match url_parse (rt_Endpoint route) with
            | None => malformed
            | Some (scheme, host, path) =>
                if bool_decide (scheme = "") || bool_decide (host = "") then malformed
                else serve_model logical
                       (me_upstream env (MkModelRequest scheme host (singleJoiningSlash path "/v1/chat/completions")
                                           (model_headers (rt_APIKey route) (me_headers env)) newBody))
            end
        end
  | _ => ([model_event "refused" reasonModelRequestMalformed ""], HttpError reasonModelRequestMalformed 400)
  end.
End model.

(** ** The tool door *)

(** What the gateway uses of the MCP SDK's [CallToolResult]. *)
Class McpResult (R : Type) := {
  res_meta : R -> gmap string json;
  with_meta : R -> gmap string json -> R;
  res_isError : R -> bool;
  res_texts : R -> list string;              (** the [TextContent] of its content *)
  marshal_result : R -> string;
  error_result : string -> R;                (** IsError, with one text *)
  with_meta_meta : forall r m, res_meta (with_meta r m) = m;
  error_result_meta : forall t, res_meta (error_result t) = ∅;
  error_result_isError : forall t, res_isError (error_result t) = true;
}.

Definition argsSHA (raw : string) : string := sha256_hex raw.

Section tools.
  Context `{GoText} {R : Type} `{McpResult R} (bind : Binding) (agent : AgentDef) (tools : gmap string ToolResource).

Definition hashResult (result : R + string) : string * string :=
  let body := match result with inr err => err | inl r => marshal_result r end in
  (sha256_hex body, capRunes (join " " (Fields (replace_byte newline " " body))) 200).

Definition resultErrorText (result : R) : string :=
  let text := join " " (Fields (join " " (res_texts result))) in
  if bool_decide (text = "") then "upstream tool call reported an error" else capRunes text 200.

Definition tool_event (status reason tool args : string) : Event :=
  { zeroEvent with ev_Type := "tool_call"; ev_Agent := a_Name agent; ev_Status := status; ev_Reason := reason;
                   ev_Tool := tool; ev_ArgsSHA := argsSHA args; ev_Binding := bind }.

Definition resource_of (id : string) : ToolResource := default zeroResource (tools !! id).

(** The upstream's result once the attestation is out of it: what the agent
    gets and what the ledger gets. *)
Definition take_attestation (id : string) (call : R + string) : (R + string) * ptr RuntimeAttestation :=
  match call with
  | inr err => (inr err, None)
  | inl result =>
      match takeRuntimeAttestation (res_meta result) (tr_Runtime (resource_of id)) with
      | (Err e, _) => (inl (error_result (attestation_text e)), None)
      | (Ok (att, _), meta) => (inl (with_meta result meta), att)
      end
  end.

(** [forward]: [call] is what [upstream.CallTool] returned ([inr]: an error). *)
Definition forward (allow : allowedTools) (resourceID name args : string) (call : R + string) : list Event * (R + string) :=
  if negb (allows allow resourceID name) then
    let denyReason := "tool " +:+ quote name +:+ " on resource " +:+ quote resourceID +:+ " is not allowlisted for this run" in
    ([{ tool_event "refused" denyReason name args with ev_AuthMode := authModeFor (resource_of resourceID); ev_ResourcesTouched := [resourceID] }],
     inl (error_result denyReason))
  else
    let '(result, attestation) := take_attestation resourceID call in
    let '(status, reason) :=
      match result with
      | inr err => ("failed", capRunes err 200)
      | inl r => if res_isError r then ("failed", resultErrorText r) else ("succeeded", "")
      end in
    let '(sha, preview) := hashResult result in
    ([{ tool_event status reason name args with
        ev_AuthMode := authModeFor (resource_of resourceID); ev_ResourcesTouched := [resourceID];
        ev_ArtifactSHA := sha; ev_Artifact := preview; ev_RuntimeAttestation := attestation }],
     result).
End tools.

(** The SDK's dispatch of a [tools/call]: a registered tool's handler runs, on
    this call stack; an unknown tool is rejected without one. *)
Class McpDispatch (R : Type) := {
  dispatch : gmap string string -> (string -> list Event * (R + string)) -> string -> list Event * (R + string);
  dispatch_known : forall reg h name id, reg !! name = Some id -> dispatch reg h name = h id;
  dispatch_unknown : forall reg h name, reg !! name = None -> (dispatch reg h name).1 = [];
}.

(** [toolsCallMiddleware] once the call is admitted, with the mirrored
    handlers behind it. *)
Definition tools_call `{GoText} {R} `{McpResult R} `{McpDispatch R} (bind : Binding) (agent : AgentDef)
    (tools : gmap string ToolResource) (allow : allowedTools) (mirroredBy : gmap string string) (name args : string)
    (call : string -> R + string) : list Event * (R + string) :=
  let refused := match mirroredBy !! name with
                 | Some _ => []
                 | None => [tool_event bind agent "refused" "tool is not available to this run" name args]
                 end in
  let '(evs, r) := dispatch mirroredBy (fun id => forward bind agent tools allow id name args (call id)) name in
  (refused ++ evs, r).

(** ** Authentication *)

(** [authMiddleware]: the Authorization header against the run token. *)
Definition authorized (token header : string) : bool := bool_decide (header = "Bearer " +:+ token).

(** [mintToken], from 32 random bytes. *)
Definition mintToken (random : string) : string := hex_encode random.

(** ** Decoded integers are machine integers *)
Lemma dec_attestation_ok fs a : dec_attestation fs zeroAttestation = Some a -> int_ok (ra_PID a) /\ int_ok (ra_Spawn a).
Proof.
  unfold dec_attestation. intros Hd. repeat (apply bind_Some in Hd as (? & ? & Hd)). injection Hd as <-. cbn [ra_PID ra_Spawn].
  split; (eapply (dec_field_inv int_ok dec_int); [exact dec_int_ok|exact zero_int_ok|eassumption]).
Qed.

Lemma decodeAttestation_ok raw declared a : decodeAttestation raw declared = Ok a ->
  validAttestation a declared = true /\ attestation_ok (Some a).
Proof.
  unfold decodeAttestation. destruct raw as [v|]; [|done].
  assert (Hv : match dec_obj dec_attestation v zeroAttestation with
    | Some b => if validAttestation b declared then Ok b else Err errAttestationMalformed | None => Err errAttestationMalformed end = Ok a ->
    v <> JNull -> validAttestation a declared = true /\ attestation_ok (Some a)).
  { destruct (dec_obj dec_attestation v zeroAttestation) as [b|] eqn:Ed; [|done].
    destruct (validAttestation b declared) eqn:Ev; [|done]. intros [= <-] Hn. split; [done|].
    destruct v; try done. by eapply dec_attestation_ok. }
  destruct v; try done; intros Hd; by apply Hv.
Qed.

Lemma dec_exec_exit_ok fs r : dec_exec_response fs zeroExecResponse = Some r -> ptr_int_ok (er_ExitCode r).
Proof.
  unfold dec_exec_response. intros Hd. repeat (apply bind_Some in Hd as (? & ? & Hd)). injection Hd as <-. cbn [er_ExitCode].
  eapply (dec_field_inv ptr_int_ok); [exact dec_ptr_int_ok| |eassumption]. done.
Qed.

Lemma decode_body_inv {A} (P : A -> Prop) dec (zero : A) body x :
  (forall fs y, dec fs zero = Some y -> P y) -> P zero -> decode_body dec zero body = Some x -> P x.
Proof.
  unfold decode_body. destruct (parse_json body) as [v|]; [|done]. intros Hd Hz. destruct v; cbn; try done; [by intros [= <-]|apply Hd].
Qed.

Lemma parseUsage_ok body : ptr_int_ok (parseUsage body).1 /\ ptr_int_ok (parseUsage body).2.
Proof.
  unfold parseUsage. destruct (decode_body dec_parsed (None, None) body) as [p|] eqn:E; [|done]. cbn [default].
  revert E. apply (decode_body_inv (fun p : ptr Z * ptr Z => ptr_int_ok p.1 /\ ptr_int_ok p.2)); [|done].
  intros fs y. unfold dec_parsed. apply (dec_field_inv (fun p : ptr Z * ptr Z => ptr_int_ok p.1 /\ ptr_int_ok p.2)); [|done].
  intros v c y'. destruct v; cbn [dec_obj]; try done; [by intros [= <-]|]. intros Hd [Hc1 Hc2]. unfold dec_usage in Hd.
  repeat (apply bind_Some in Hd as (? & ? & Hd)). injection Hd as <-. cbn [fst snd].
  split; [exact (dec_field_inv _ _ _ _ _ dec_ptr_int_ok Hc1 H)|exact (dec_field_inv _ _ _ _ _ dec_ptr_int_ok Hc2 H0)].
Qed.

(** ** One event per call *)

(** What a handler leaves on the ledger: one door event, of this agent, under
    this run's binding. *)
Definition one_door (bind : Binding) (agent : AgentDef) (type : string) (evs : list Event) : Prop :=
  exists e, evs = [e] /\ door_event e /\ ev_Type e = type /\ ev_Agent e = a_Name agent /\ ev_Binding e = bind.

(** Discharge [one_door] for an event built from [zeroEvent]. *)
Ltac door_fields :=
  eexists; split; [reflexivity|]; split; [split|split_and!; reflexivity];
  try reflexivity; try exact I; try exact zero_int_ok; try apply wrap64_int;
  try (apply (doorTypes_iff _); reflexivity).

Lemma exec_event_door bind agent status reason argv : one_door bind agent "exec" [exec_event bind agent status reason argv].
Proof. door_fields. Qed.
Lemma spawn_event_door bind agent status reason role workflow : one_door bind agent "spawn" [spawn_event bind agent status reason role workflow].
Proof. door_fields. Qed.
Lemma model_event_door bind agent status reason model : one_door bind agent "model_call" [model_event bind agent status reason model].
Proof. door_fields. Qed.
Lemma tool_event_door bind agent status reason tool args : one_door bind agent "tool_call" [tool_event bind agent status reason tool args].
Proof. door_fields. Qed.

#[export] Hint Resolve exec_event_door spawn_event_door model_event_door tool_event_door : go.

Ltac door_ev := try unfold spawn_refuse; cbn [fst app]; solve [auto with go].

(** What the exec door's success rests on. *)
Lemma judge_response_ok runtime argv out res exit att :
  judge_response runtime argv out = Ok (res, exit, att) ->
  exists status raw, out = Answered status raw None /\ 200 <= status < 300 /\ Z.of_nat (String.length raw) <= maxExecRunResponse /\
    decode_body dec_exec_response zeroExecResponse raw = Some res /\ er_ExitCode res = Some exit /\ int_ok exit /\
    decodeAttestation (er_RuntimeAttestation res) runtime = Ok att /\ validAttestation att runtime = true /\ attestation_ok (Some att) /\
    default [] (ra_Command att) = argv /\ er_OutputSHA res = sha256_hex (er_Output res).
Proof.
  unfold judge_response. destruct out as [|status raw fault]; [done|].
  destruct (_ || _) eqn:Es; [done|]. apply orb_false_iff in Es as [Es1 Es2]. bool_prop.
  destruct (Z.ltb_spec maxExecRunResponse (Z.of_nat (String.length raw))); [done|]. destruct fault; [done|]. destruct (decode_body _ _ _) as [r|] eqn:Ed; [|done].
  destruct (er_ExitCode r) as [x|] eqn:Ex; [|done]. destruct (decodeAttestation _ _) as [a|[]] eqn:Ea; [|done..].
  case_bool_decide as Ec; cbn [negb]; [|done]. case_bool_decide as Eh; cbn [negb]; [|done]. intros [= <- <- <-].
  pose proof Ea as [? ?]%decodeAttestation_ok. exists status, raw. split_and!; try done.
  pose proof (decode_body_inv (fun r => ptr_int_ok (er_ExitCode r)) _ _ _ _ dec_exec_exit_ok I Ed) as Hi. cbn in Hi. by rewrite Ex in Hi.
Qed.

Lemma execRunHandler_one bind agent url env body : one_door bind agent "exec" (execRunHandler bind agent url env body).1.
Proof.
  unfold execRunHandler. destruct (decode_body _ _ _) as [argv|]; [|door_ev]. cbv zeta.
  destruct (negb (Declared (a_Exec agent))); [door_ev|]. destruct (negb (Config.Allows (a_Exec agent) argv)); [door_ev|].
  destruct (negb (argvRecordable argv)); [door_ev|]. destruct (negb (CheckPrivateDir _ _)); [door_ev|].
  destruct (judge_response _ _ _) as [[[res exit] att]|] eqn:Ej; [|door_ev].
  apply judge_response_ok in Ej as (? & ? & _ & _ & _ & _ & _ & Hi & _ & _ & Ha & _). door_fields; [exact Hi|exact Ha].
Qed.

Lemma execAssertedHandler_one bind agent body : one_door bind agent "exec" (execAssertedHandler bind agent body).1.
Proof. unfold execAssertedHandler. destruct (decode_body _ _ _); door_ev. Qed.

Lemma serve_model_one `{GoText} `{GoHttp} bind agent logical out : one_door bind agent "model_call" (serve_model bind agent logical out).1.
Proof.
  unfold serve_model, modify_response. destruct out as [|status ct body fault]; [unfold model_error; rewrite bool_decide_true by done; door_ev|].
  destruct (_ || _); [destruct (status =? 429); door_ev|]. destruct (str_contains _ _); [door_ev|].
  destruct (_ <? _); [unfold model_error; rewrite bool_decide_false by done; door_ev|].
  destruct fault; [unfold model_error; rewrite bool_decide_false by done; door_ev|].
  pose proof (parseUsage_ok body) as [H1' H2']. destruct (parseUsage body) as [pt ct']. cbn [fst snd] in *. door_fields; [exact H1'|exact H2'].
Qed.

Lemma modelHandler_one `{GoText} `{GoHttp} bind agent gw env body : one_door bind agent "model_call" (modelHandler bind agent gw env body).1.
Proof.
  unfold modelHandler. destruct (parse_json body) as [[]|]; try door_ev. cbv zeta.
  destruct (_ || _); [door_ev|]. destruct (Resolve _ _ _ _); [|door_ev].
  destruct (url_parse _) as [[[scheme host] path]|]; [|door_ev]. destruct (_ || _); [door_ev|]. apply serve_model_one.
Qed.

Lemma takeRuntimeAttestation_ok meta declared att dropped meta' :
  takeRuntimeAttestation meta declared = (Ok (att, dropped), meta') ->
  meta' = delete runtimeAttestationMetaKey meta /\
  match att with
  | None => declared = ""
  | Some a => declared <> "" /\ dropped = false /\ validAttestation a declared = true /\ attestation_ok (Some a)
  end.
Proof.
  unfold takeRuntimeAttestation. case_bool_decide as Ed; [by intros [= <- <- <-]|].
  destruct (meta !! _) as [v|]; [|done]. destruct (decodeAttestation _ _) as [a|] eqn:Ea; [|done]. intros [= <- <- <-].
  apply decodeAttestation_ok in Ea. naive_solver.
Qed.

Lemma take_attestation_att {R} `{McpResult R} tools id (call : R + string) r att :
  take_attestation tools id call = (r, att) -> attestation_ok att.
Proof.
  unfold take_attestation. destruct call as [c|]; [|by intros [= _ <-]].
  destruct (takeRuntimeAttestation _ _) as [[[a dr]|] meta] eqn:E; [|by intros [= _ <-]]. intros [= _ <-].
  apply takeRuntimeAttestation_ok in E as [_ Ha]. destruct a; [|done]. apply Ha.
Qed.

Lemma forward_one `{GoText} {R} `{McpResult R} bind agent tools allow id name args (call : R + string) :
  one_door bind agent "tool_call" (forward bind agent tools allow id name args call).1.
Proof.
  unfold forward. destruct (negb (allows _ _ _)); [door_fields|].
  destruct (take_attestation tools id call) as [r att] eqn:E. apply take_attestation_att in E.
  destruct (match r with inr _ => _ | inl _ => _ end) as [status reason]. destruct (hashResult r) as [sha preview]. door_fields. exact E.
Qed.

Lemma tools_call_one `{GoText} {R} `{McpResult R} `{McpDispatch R} bind agent tools allow by_ name args (call : string -> R + string) :
  one_door bind agent "tool_call" (tools_call bind agent tools allow by_ name args call).1.
Proof.
  unfold tools_call. destruct (by_ !! name) as [id|] eqn:E.
  - rewrite (dispatch_known _ _ _ _ E). pose proof (forward_one bind agent tools allow id name args (call id)) as Hf.
    by destruct (forward _ _ _ _ _ _ _ _).
  - set (h := fun id => _). pose proof (dispatch_unknown by_ h name E) as Hd. destruct (dispatch by_ h name) as [evs r].
    cbn [fst] in Hd. subst evs. cbn [fst]. rewrite app_nil_r. door_ev.
Qed.

Lemma spawn_precheck_one bind agent has body h : spawn_precheck bind agent has body = inl h -> one_door bind agent "spawn" h.1.
Proof.
  unfold spawn_precheck. destruct (decode_body _ _ _) as [q|]; [|intros [= <-]; door_ev].
  destruct (negb has); [intros [= <-]; door_ev|]. destruct (negb (MaySpawnTarget _ _ _)); [intros [= <-]; door_ev|done].
Qed.

Lemma spawn_finish_one bind agent q res err : one_door bind agent "spawn" (spawn_finish bind agent q res err).1.
Proof. unfold spawn_finish. destruct err; door_fields. Qed.

(** ** What a recorded success rests on *)

(** C38: a first-hand exec is recorded as succeeded only if everything it claims
    was checked: the agent declares exec and the operator allowlisted exactly
    the recorded argv, which fits the ledger's bounds; the runtime's socket
    directory is private to this user; the runtime answered, in time and
    within the size bound, exit code 0 with the attestation recorded, well formed
    for the declared runtime and names the very argv that was authorized; and
    the recorded hash is the hash of the output handed to the agent. *)
Theorem exec_success_is_attested (bind : Binding) (agent : AgentDef) (url : string) (env : exec_env) (body : string) (e : Event)
    (He : e ∈ (execRunHandler bind agent url env body).1) (Hs : ev_Status e = "succeeded") :
  exists argv res att status raw,
    decode_body dec_command [] body = Some argv /\ ev_Command e = argv /\
    Declared (a_Exec agent) = true /\ Config.Allows (a_Exec agent) argv = true /\ argvRecordable argv = true /\
    CheckPrivateDir (xe_uid env) (xe_stat env (Paths.Dir (trim_prefix url UnixScheme))) = true /\
    xe_runtime env (trim_prefix url UnixScheme) (exec_request argv) = Answered status raw None /\ 200 <= status < 300 /\
    Z.of_nat (String.length raw) <= maxExecRunResponse /\
    decode_body dec_exec_response zeroExecResponse raw = Some res /\
    er_ExitCode res = Some 0 /\ ev_ExitCode e = Some 0 /\
    ev_RuntimeAttestation e = Some att /\ decodeAttestation (er_RuntimeAttestation res) (x_Runtime (a_Exec agent)) = Ok att /\ validAttestation att (x_Runtime (a_Exec agent)) = true /\ default [] (ra_Command att) = argv /\
    ev_OutputSHA e = sha256_hex (er_Output res) /\
    (execRunHandler bind agent url env body).2 =
      HttpJSON 200 (JObj [("exit", JNum "0"); ("output", JStr (er_Output res)); ("truncated", JBool (er_Truncated res))]).
Proof.
  revert He. unfold execRunHandler.
  assert (Hf : forall st rs av (a : answer), st <> "succeeded" -> e ∈ ([exec_event bind agent st rs av], a).1 -> False).
  { intros st rs av a Hne ->%list_elem_of_singleton. by apply Hne. }
  destruct (decode_body dec_command [] body) as [argv|]; [|by intros ?%Hf]. cbv zeta.
  destruct (Declared (a_Exec agent)); cbn [negb]; [|by intros ?%Hf]. destruct (Config.Allows (a_Exec agent) argv) eqn:Ea; cbn [negb]; [|by intros ?%Hf].
  destruct (argvRecordable argv) eqn:Er; cbn [negb]; [|by intros ?%Hf].
  destruct (CheckPrivateDir (xe_uid env) _) eqn:Ec; cbn [negb]; [|by intros ?%Hf].
  destruct (judge_response _ _ _) as [[[res exit] att]|] eqn:Ej; [|by intros ?%Hf].
  apply judge_response_ok in Ej as (status & raw & Hout & Hst & Hlen & Hd & Hx & _ & Hda & Hv & _ & Hc & Hh).
  cbn [fst snd]. intros He%list_elem_of_singleton. subst e. exists argv, res, att, status, raw.
  change (ev_Status _) with (if exit =? 0 then "succeeded" else "failed") in Hs. destruct (Z.eqb_spec exit 0) as [->|]; [|done].
  destruct Hst as [Hst1 Hst2]. split_and!; try done.
Qed.

(** A runtime that honours its contract, for the agents of the example
    configuration. *)
Definition ex_output : string := "clean".
Definition ex_runtime_answer : string :=
  marshal (JObj [("exit_code", JNum "0"); ("output", JStr ex_output); ("output_sha", JStr (sha256_hex ex_output));
    ("runtime_attestation", JObj [("runtime", JStr "refexec"); ("session", JStr "s1"); ("command", JArr [JStr "git"; JStr "status"]);
       ("pid", JNum "41"); ("spawn", JNum "1"); ("env_names", JArr [JStr "PATH"])])]).
Definition ex_exec_env : exec_env :=
  MkExecEnv (fun _ => Some (MkStat true 448 (Some 1000))) 1000 (fun _ _ => Answered 200 ex_runtime_answer None).
Definition ex_exec_body : string := marshal (JObj [("command", JArr [JStr "git"; JStr "status"])]).
Definition ex_exec_agent : AgentDef := ex_agent "worker" [].
Definition ex_exec_result : handled := execRunHandler zeroBinding ex_exec_agent "unix:///run/refexec/s" ex_exec_env ex_exec_body.
Definition ex_exec_event : Event := List.hd zeroEvent ex_exec_result.1.

Lemma exec_success_is_attested_witness : ev_OutputSHA ex_exec_event = sha256_hex ex_output /\ ev_Command ex_exec_event = ["git"; "status"].
Proof.
  destruct (exec_success_is_attested zeroBinding ex_exec_agent "unix:///run/refexec/s" ex_exec_env ex_exec_body ex_exec_event)
    as (argv & res & att & status & raw & Hb & Hc & _ & _ & _ & _ & Hr & _ & _ & Hd & _ & _ & _ & _ & _ & _ & Hsha & _).
  - vm_compute. left.
  - vm_compute. reflexivity.
  - assert (Hbody : decode_body dec_command [] ex_exec_body = Some ["git"; "status"]) by (vm_compute; reflexivity).
    rewrite Hbody in Hb. injection Hb as <-. split; [|exact Hc]. rewrite Hsha. f_equal.
    change (xe_runtime _ _ _) with (Answered 200 ex_runtime_answer None) in Hr. injection Hr as _ <-.
    assert (Ho : match decode_body dec_exec_response zeroExecResponse ex_runtime_answer with Some r => er_Output r = ex_output | None => False end)
      by (vm_compute; reflexivity).
    rewrite Hd in Ho. exact Ho.
Defined.

(** Config is law on the exec door: unless the agent declares exec, the
    operator allowlisted the argv, the ledger can carry it and the socket
    directory is private, the runtime has no influence on the call at all: it
    is refused or failed the same way whatever the runtime would do. *)
Theorem runtime_asked_only_when_allowed (bind : Binding) (agent : AgentDef) (url body : string) (stat : string -> option dir_stat) (uid : Z)
    (run1 run2 : string -> string -> http_outcome)
    (Hgate : forall argv, decode_body dec_command [] body = Some argv ->
       Declared (a_Exec agent) && Config.Allows (a_Exec agent) argv && argvRecordable argv &&
       CheckPrivateDir uid (stat (Paths.Dir (trim_prefix url UnixScheme))) = false) :
  execRunHandler bind agent url (MkExecEnv stat uid run1) body = execRunHandler bind agent url (MkExecEnv stat uid run2) body /\
  exists e, (execRunHandler bind agent url (MkExecEnv stat uid run1) body).1 = [e] /\ (ev_Status e = "refused" \/ ev_Status e = "failed").
Proof.
  unfold execRunHandler. destruct (decode_body dec_command [] body) as [argv|]; [|by split; [|eexists; split; [|left]]].
  specialize (Hgate argv eq_refl). cbv zeta. cbn [xe_stat xe_uid].
  destruct (Declared (a_Exec agent)); cbn [negb andb] in *; [|by split; [|eexists; split; [|left]]].
  destruct (Config.Allows (a_Exec agent) argv); cbn [negb andb] in *; [|by split; [|eexists; split; [|left]]].
  destruct (argvRecordable argv); cbn [negb andb] in *; [|by split; [|eexists; split; [|left]]].
  rewrite Hgate. cbn [negb]. by split; [|eexists; split; [|right]].
Qed.

Lemma runtime_asked_only_when_allowed_witness :
  execRunHandler zeroBinding ex_exec_agent "unix:///run/refexec/s" (MkExecEnv (fun _ => None) 0 (fun _ _ => CallFailed CtxLive)) "{}"
  = execRunHandler zeroBinding ex_exec_agent "unix:///run/refexec/s" (MkExecEnv (fun _ => None) 0 (fun _ _ => Answered 200 "" None)) "{}".
Proof.
  refine (proj1 (runtime_asked_only_when_allowed zeroBinding ex_exec_agent "unix:///run/refexec/s" "{}" (fun _ => None) 0
    (fun _ _ => CallFailed CtxLive) (fun _ _ => Answered 200 "" None) _)).
  intros argv E. assert (E' : decode_body dec_command [] "{}" = Some []) by (vm_compute; reflexivity).
  rewrite E' in E. injection E as <-. vm_compute. reflexivity.
Defined.

(** Trust on the tool door.  Whatever an upstream answers: the agent never
    sees a runtime attestation (it is taken out of the result before the
    agent, and the recorded hash, get it); a resource the operator declared no
    runtime for never gets an attestation onto the ledger; a resource that
    declares one is recorded as succeeded only with an attestation that is
    valid for it; and a tool outside the grants is refused without the
    upstream having any influence. *)
Theorem tool_call_trust `{GoText} {R} `{McpResult R} (bind : Binding) (agent : AgentDef) (tools : gmap string ToolResource)
    (allow : allowedTools) (id name args : string) (call call' : R + string) :
  (forall r, (forward bind agent tools allow id name args call).2 = inl r -> res_meta r !! runtimeAttestationMetaKey = None) /\
  (forall e, e ∈ (forward bind agent tools allow id name args call).1 ->
     (tr_Runtime (resource_of tools id) = "" -> ev_RuntimeAttestation e = None) /\
     (tr_Runtime (resource_of tools id) <> "" -> ev_Status e = "succeeded" ->
        exists a, ev_RuntimeAttestation e = Some a /\ validAttestation a (tr_Runtime (resource_of tools id)) = true) /\
     (ev_Status e = "succeeded" -> allows allow id name = true)) /\
  (allows allow id name = false -> forward bind agent tools allow id name args call = forward bind agent tools allow id name args call').
Proof.
  unfold forward. destruct (allows allow id name) eqn:Ea; cbn [negb].
  2: { split_and!; [| |done].
       - cbn [snd]. intros r [= <-]. by rewrite error_result_meta.
       - intros e ->%list_elem_of_singleton. by split_and!. }
  unfold take_attestation. destruct call as [result|err].
  2: { destruct (hashResult (inr err)) as [sha preview]. cbn [fst snd]. split_and!; [done| |done]. intros e ->%list_elem_of_singleton. by split_and!. }
  destruct (takeRuntimeAttestation (res_meta result) (tr_Runtime (resource_of tools id))) as [[[att dropped]|ae] meta] eqn:Et.
  - apply takeRuntimeAttestation_ok in Et as [-> Hatt]. set (r := with_meta result _).
    destruct (if res_isError r then _ else _) as [status reason]. destruct (hashResult (inl r)) as [sha preview]. cbn [fst snd]. split_and!; [| |done].
    + intros r' [= <-]. unfold r. rewrite with_meta_meta. apply lookup_delete_eq.
    + intros e ->%list_elem_of_singleton. split_and!; [| |done].
      * intros Hr. destruct att; [by destruct Hatt|done].
      * intros Hr _. destruct att as [a|]; [|done]. exists a. split; [done|]. apply Hatt.
  - set (r := error_result _). unfold r. rewrite error_result_isError. destruct (hashResult (inl _)) as [sha preview]. cbn [fst snd].
    split_and!; [| |done].
    + intros r' [= <-]. by rewrite error_result_meta.
    + intros e ->%list_elem_of_singleton. by split_and!.
Qed.

(** *** The model door *)

(** A request the model door may send: for the agent's own model, with the
    route's key as the bearer, no run token or Agenthof header, no cookie, and
    the agent's body with only the model name replaced. *)
Definition sanitized `{GoText} (bind : Binding) (agent : AgentDef) (gw : GatewayConfig) (env : model_env) (body : string) (q : model_request) : Prop :=
  exists fs route,
    parse_json body = Some (JObj fs) /\ logical_model (raw_fields fs) = effective_model agent gw /\ effective_model agent gw <> "" /\
    Resolve (me_getenv env) gw (effective_model agent gw) (LoadRoleKey (me_readfile env) (me_keyRoot env) (b_Role bind)) = Ok route /\
    mq_headers q !! "Authorization" = Some ("Bearer " +:+ rt_APIKey route) /\
    (forall k, has_prefix k "X-Agenthof-" = true -> mq_headers q !! k = None) /\
    mq_headers q !! "Cookie" = None /\
    exists fields, mq_body q = JObj fields /\
      forall k v, (k, v) ∈ fields <-> (k = "model" /\ v = JStr (rt_Model route)) \/ (k <> "model" /\ (k, v) ∈ raw_fields fs).

Lemma model_headers_ok key out :
  model_headers key out !! "Authorization" = Some ("Bearer " +:+ key) /\
  (forall k, has_prefix k "X-Agenthof-" = true -> model_headers key out !! k = None) /\ model_headers key out !! "Cookie" = None.
Proof.
  unfold model_headers. split_and!.
  - rewrite !lookup_delete_ne by done. apply map_lookup_filter_Some. split; [apply lookup_insert_eq|done].
  - intros k Hk. apply lookup_delete_None. right. apply lookup_delete_None. right. apply map_lookup_filter_None. right.
    intros x _. cbn. by rewrite Hk.
  - rewrite lookup_delete_ne by done. apply lookup_delete_eq.
Qed.

Definition with_upstream (env : model_env) (up : model_request -> model_outcome) : model_env :=
  MkModelEnv (me_getenv env) (me_readfile env) (me_keyRoot env) (me_headers env) up.

(** The model door forwards only what it may: every request that reaches
    an upstream is sanitized.  Two upstreams that agree on the sanitized
    requests cannot be told apart through the door. *)
Theorem model_door_sends_sanitized `{GoText} `{GoHttp} (bind : Binding) (agent : AgentDef) (gw : GatewayConfig) (env : model_env) (body : string)
    (up1 up2 : model_request -> model_outcome)
    (Hup : forall q, sanitized bind agent gw env body q -> up1 q = up2 q) :
  modelHandler bind agent gw (with_upstream env up1) body = modelHandler bind agent gw (with_upstream env up2) body.
Proof.
  unfold modelHandler. destruct (parse_json body) as [[| | | | |fs]|] eqn:Ep; try done. cbv zeta.
  destruct (bool_decide (logical_model (raw_fields fs) = "")) eqn:E1; [done|].
  destruct (bool_decide (logical_model (raw_fields fs) = effective_model agent gw)) eqn:E2; cbn [negb orb]; [|done]. bool_prop.
  cbn [with_upstream me_getenv me_readfile me_keyRoot me_headers me_upstream].
  destruct (Resolve _ _ _ _) as [route|] eqn:Er; [|done]. destruct (url_parse _) as [[[scheme host] path]|]; [|done].
  destruct (_ || _); [done|]. rewrite Hup; [done|]. exists fs, route. rewrite E2 in *. split_and!; try done; try apply model_headers_ok.
  eexists. split; [done|]. intros k v. apply elem_of_insert_key.
Qed.

#[local] Existing Instance toy_text.
#[local] Instance toy_http : GoHttp := {| StatusText := fun _ => "status"; url_parse := fun s => Some ("https", s, "/v1/") |}.

Definition ex_model_gw : GatewayConfig := MkGateway {["m" := MkRoute "llm.example" "gpt" "LLM_KEY"]} ∅ "m" "" "" (MkPolicy 0 0 0 false) 0.
Definition ex_model_env (up : model_request -> model_outcome) : model_env :=
  MkModelEnv (fun v => "key-of-" +:+ v) (fun _ => None) "." {["Authorization" := "Bearer run-token"; "X-Agenthof-Run" := "r"]} up.
Definition ex_model_body : string := marshal (JObj [("model", JStr "m"); ("seed", JNum "9007199254740993")]).

(** An upstream that would answer a leaked header differently. *)
Definition ex_spy (q : model_request) : model_outcome :=
  match mq_headers q !! "X-Agenthof-Run" with
  | Some _ => RoundTripFailed
  | None => ModelAnswered 200 "application/json" "{}" false
  end.

Lemma model_door_sends_sanitized_witness :
  modelHandler zeroBinding ex_exec_agent ex_model_gw (ex_model_env ex_spy) ex_model_body
  = modelHandler zeroBinding ex_exec_agent ex_model_gw (ex_model_env (fun _ => ModelAnswered 200 "application/json" "{}" false)) ex_model_body.
Proof.
  apply (model_door_sends_sanitized zeroBinding ex_exec_agent ex_model_gw (ex_model_env ex_spy) ex_model_body ex_spy
    (fun _ => ModelAnswered 200 "application/json" "{}" false)).
  intros q (fs & route & _ & _ & _ & _ & _ & Hk & _). unfold ex_spy. by rewrite (Hk "X-Agenthof-Run").
Defined.
