(* ===== verification/Gateway.v ===== *)
(** * The per-run gateway ([internal/rungateway/proxy.go]: [New], [Start],
      [Stop], [admit], [registerDoor]; [spawn.go]'s caps)

    One gateway serves the steps of a run, one at a time, and many door calls
    at once.  The calls are goroutines that share the gateway's counters under
    its mutex, so the model is a transition system: an [action] is one atomic
    step of one thread (the engine's, or a call's), [step] executes it, and
    an execution is any sequence of enabled actions. *)
From S2P Require Import Prelude Sha256 GoStr Json Paths Ledger Config Authz Origin Registry Event Engine EngineTrace Completeness RunAudit Attest Grants Credentials Doors.

(** What a step's listener closes over. *)
Record server : Type := MkServer {
  sv_token : string;
  sv_bind : Binding;
  sv_agent : AgentDef;
  sv_allow : allowedTools;
  sv_mirrored : gmap string string;
}.

Record Gateway : Type := MkGatewayState {
  gp_gwcfg : GatewayConfig;
  gp_keyRoot : string;
  gp_subjectToken : string;
  gp_srv : option server;
  gp_sessions : list string;
  gp_closing : bool;
  gp_sockPath : string;
  gp_stepCancel : bool;             (** a step context is live *)
  gp_inflight : Z;
  gp_doorCalls : Z;
  gp_spawner : bool;                (** a [Spawner] was given *)
  gp_spawnInflight : Z;
  gp_spawnTotal : Z;
  gp_execURL : string;
}.

(** The fields [Start] and [Stop] assign together, the two counters of an
    admission, and the two of the spawn caps. *)
Definition set_step (p : Gateway) (srv : option server) (sessions : list string) (closing : bool) (sock : string) (cancel : bool) (doorCalls : Z) : Gateway :=
  MkGatewayState (gp_gwcfg p) (gp_keyRoot p) (gp_subjectToken p) srv sessions closing sock cancel (gp_inflight p) doorCalls
    (gp_spawner p) (gp_spawnInflight p) (gp_spawnTotal p) (gp_execURL p).
Definition set_holds (p : Gateway) (inflight doorCalls : Z) : Gateway :=
  MkGatewayState (gp_gwcfg p) (gp_keyRoot p) (gp_subjectToken p) (gp_srv p) (gp_sessions p) (gp_closing p) (gp_sockPath p) (gp_stepCancel p)
    inflight doorCalls (gp_spawner p) (gp_spawnInflight p) (gp_spawnTotal p) (gp_execURL p).
Definition set_spawns (p : Gateway) (inflight total : Z) : Gateway :=
  MkGatewayState (gp_gwcfg p) (gp_keyRoot p) (gp_subjectToken p) (gp_srv p) (gp_sessions p) (gp_closing p) (gp_sockPath p) (gp_stepCancel p)
    (gp_inflight p) (gp_doorCalls p) (gp_spawner p) inflight total (gp_execURL p).

Definition New (gw : GatewayConfig) (keyRoot subjectToken : string) : Gateway :=
  MkGatewayState gw keyRoot subjectToken None [] false "" false 0 0 false 0 0 "".
Definition WithSpawner (p : Gateway) : Gateway := { p with gp_spawner := true }.
Definition WithExecURL (url : string) (p : Gateway) : Gateway := { p with gp_execURL := url }.

(** ** [Start] *)

(** What the system answers a [Start]: random bytes, the upstreams, the local
    listener's address, the socket's nonce and whether its path binds. *)
Record start_env : Type := MkStartEnv {
  se_random : result string string;
  se_answers : string -> upstream_answer;
  se_tcp : result string string;
  se_nonce : result string string;
  se_unix : string -> option string;          (** [listenUnix]: an error's text *)
}.

(** [listenGateway] *)
Definition listenGateway (env : start_env) (dir runID : string) : result string string :=
  match se_nonce env with
  | Err t => Err ("socket nonce: " +:+ t)
  | Ok nonce =>
      let path := Join [dir; "gw-" +:+ runID +:+ "-" +:+ hex_encode nonce +:+ ".sock"] in
      match se_unix env path with
      | Some t => Err t
      | None => Ok (UnixScheme +:+ path)
      end
  end.

Definition listen (env : start_env) (gw : GatewayConfig) (runID : string) : result string string :=
  if negb (bool_decide (gw_RefboxSocketDir gw = "")) then listenGateway env (gw_RefboxSocketDir gw) runID
  else let! addr := se_tcp env in Ok ("http://" +:+ addr +:+ "/").

(** [Gateway.Start]: the url and the token, and the gateway afterwards; a
    refused start changes nothing (its sessions are closed again). *)
Definition GatewayStart (env : start_env) (bind : Binding) (agent : AgentDef) (p : Gateway) : result start_error coords * Gateway :=
  match se_random env with
  | Err t => (Err (MintFailed t), p)
  | Ok random =>
      let token := mintToken random in
      match start_doors (gw_Tools (gp_gwcfg p)) (se_answers env) (execURLFor (gp_execURL p) agent) agent with
      | Err e => (Err e, p)
      | Ok (allow, m) =>
          match listen env (gp_gwcfg p) (b_RunID bind) with
          | Err t => (Err (ListenFailed t), p)
          | Ok url =>
              (Ok (url, token),
               set_step p (Some (MkServer token bind agent allow (mi_by m))) (mi_sessions m) false
                 (default "" (cut_prefix UnixScheme url)) true 0)
          end
      end
  end.

(** ** [Stop]: the part under the lock; it then waits for [inflight] *)
Definition stop_begin (p : Gateway) : Gateway :=
  if gp_closing p then p
  else set_step p None [] true "" false (gp_doorCalls p).

(** ** [admit] and the release it returns *)
Definition admit_ (p : Gateway) : option Gateway :=
  if gp_closing p then None
  else Some (set_holds p (gp_inflight p + 1) (wrap64 (gp_doorCalls p + 1))).
Definition release (p : Gateway) : Gateway := set_holds p (gp_inflight p - 1) (gp_doorCalls p).

(** ** Requests *)
Inductive door_kind : Type :=
  | DTool (name args : string)
  | DAsserted (body : string)          (** /exec/authorize and /exec/attest *)
  | DRun (body : string)
  | DModel (body : string)
  | DSpawn (body : string).

Definition maxDoorBody : Z := 2 ^ 20.

(** What [registerDoor] checks before the hold: the method and the body, of
    which [io.ReadAll] returned [body] or failed. *)
Record http_request : Type := MkHttp { hr_auth : string; hr_post : bool; hr_read_ok : bool; hr_body : string }.

Definition body_of (k : door_kind) : string :=
  match k with DTool _ _ => "" | DAsserted b | DRun b | DModel b | DSpawn b => b end.

Definition route_ok (h : http_request) : bool :=
  hr_post h && hr_read_ok h && (Z.of_nat (String.length (hr_body h)) <=? maxDoorBody) && isJSONObject (hr_body h).

(** A request that reaches a door's admission: authorized by the listener's
    token, and for a route door well formed. *)
Definition reaches (sv : server) (h : http_request) (k : door_kind) : bool :=
  authorized (sv_token sv) (hr_auth h) &&
  match k with
  | DTool _ _ => true
  | _ => bool_decide (body_of k = hr_body h) && route_ok h
  end.

(** ** The transition system *)
Inductive phase : Type :=
  | Pending (sv : server) (k : door_kind)                 (** before [admit] *)
  | Serving (sv : server) (k : door_kind)                 (** admitted *)
  | Reserved (sv : server) (q : spawnRequest)             (** a child is running *)
  | Settled (evs : list Event) (slot : bool)              (** the handler is about to append [evs] *)
  | Recorded (slot : bool).                               (** appended; [slot]: spawnInflight still held *)

(** The engine's thread. *)
Inductive control : Type := Idle | Running | Stopping.

(** [sy_events] is what was appended since [Start]; [sy_provisioned] counts
    the children that consumed a compartment set in the whole run. *)
Record sys : Type := MkSys {
  sy_gw : Gateway;
  sy_ctl : control;
  sy_calls : list phase;
  sy_events : list Event;
  sy_provisioned : Z;
}.

Record oracle (R : Type) : Type := MkOracle { or_exec : exec_env; or_model : model_env; or_call : string -> R + string }.
Arguments MkOracle {R} _ _ _.
Arguments or_exec {R} _.
Arguments or_model {R} _.
Arguments or_call {R} _ _.

Inductive action (R : Type) : Type :=
  | AStart (env : start_env) (bind : Binding) (agent : AgentDef)
  | AStopBegin
  | AStopEnd
  | AArrive (h : http_request) (k : door_kind)
  | AAdmit (i : nat)
  | AServe (i : nat) (o : oracle R)
  | AChildOver (i : nat) (res : SpawnResult) (err : bool)
  | AAppend (i : nat)
  | AFreeSlot (i : nat)
  | ARelease (i : nat).
Arguments AStart {R} _ _ _.
Arguments AStopBegin {R}.
Arguments AStopEnd {R}.
Arguments AArrive {R} _ _.
Arguments AAdmit {R} _.
Arguments AServe {R} _ _.
Arguments AChildOver {R} _ _ _.
Arguments AAppend {R} _.
Arguments AFreeSlot {R} _.
Arguments ARelease {R} _.

Section gateway.
  Context `{GoText} `{GoHttp} {R : Type} `{McpResult R} `{McpDispatch R}.

(** A handler of the doors that take no lock. *)
Definition serve_request (p : Gateway) (sv : server) (k : door_kind) (o : oracle R) : list Event :=
  let bind := sv_bind sv in
  let agent := sv_agent sv in
  match k with
  | DTool name args => (tools_call bind agent (gw_Tools (gp_gwcfg p)) (sv_allow sv) (sv_mirrored sv) name args (or_call o)).1
  | DAsserted body => (execAssertedHandler bind agent body).1
  | DRun body => (execRunHandler bind agent (execURLFor (gp_execURL p) agent) (or_exec o) body).1
  | DModel body =>
      let e := or_model o in
      (modelHandler bind agent (gp_gwcfg p) (MkModelEnv (me_getenv e) (me_readfile e) (gp_keyRoot p) (me_headers e) (me_upstream e)) body).1
  | DSpawn _ => []
  end.

(** The spawn door up to its reservation. *)
Definition spawn_reserve (p : Gateway) (sv : server) (body : string) : Gateway * phase :=
  match spawn_precheck (sv_bind sv) (sv_agent sv) (gp_spawner p) body with
  | inl h => (p, Settled h.1 false)
  | inr q =>
      match spawn_cap (sv_bind sv) (gw_Spawn (gp_gwcfg p)) (gp_spawnInflight p) (gp_spawnTotal p) with
      | Some reason => (p, Settled (spawn_refuse (sv_bind sv) (sv_agent sv) reason (childRole q) (childWorkflow q)).1 false)
      | None => (set_spawns p (gp_spawnInflight p + 1) (gp_spawnTotal p + 1), Reserved sv q)
      end
  end.

Definition with_gw (s : sys) (p : Gateway) (calls : list phase) : sys :=
  MkSys p (sy_ctl s) calls (sy_events s) (sy_provisioned s).

(** One atomic action; [None] when it is not enabled.  An admission is enabled
    only while [doorCalls] fits an [int]. *)
Definition step (a : action R) (s : sys) : option sys :=
  let p := sy_gw s in
  let calls := sy_calls s in
  match a with
  | AStart env bind agent =>
      match sy_ctl s with
      | Idle =>
          match GatewayStart env bind agent p with
          | (Ok _, p') => Some (MkSys p' Running calls [] (sy_provisioned s))
          | (Err _, _) => None
          end
      | _ => None
      end
  | AStopBegin =>
      match sy_ctl s with
      | Running => Some (MkSys (stop_begin p) Stopping calls (sy_events s) (sy_provisioned s))
      | _ => None
      end
  | AStopEnd =>
      match sy_ctl s with
      | Stopping => if gp_inflight p =? 0 then Some (MkSys p Idle calls (sy_events s) (sy_provisioned s)) else None
      | _ => None
      end
  | AArrive h k =>
      match gp_srv p with
      | Some sv => if reaches sv h k then Some (with_gw s p (calls ++ [Pending sv k])) else None
      | None => None
      end
  | AAdmit i =>
      match calls !! i with
      | Some (Pending sv k) =>
          if gp_doorCalls p <? max_int64 then
            match admit_ p with
            | Some p' => Some (with_gw s p' (<[i := Serving sv k]> calls))
            | None => Some (with_gw s p (delete i calls))
            end
          else None
      | _ => None
      end
  | AServe i o =>
      match calls !! i with
      | Some (Serving sv (DSpawn body)) =>
          let '(p', ph) := spawn_reserve p sv body in Some (with_gw s p' (<[i := ph]> calls))
      | Some (Serving sv k) => Some (with_gw s p (<[i := Settled (serve_request p sv k o) false]> calls))
      | _ => None
      end
  | AChildOver i res err =>
      match calls !! i with
      | Some (Reserved sv q) =>
          let p' := if negb (sp_Provisioned res) then set_spawns p (gp_spawnInflight p) (gp_spawnTotal p - 1) else p in
          Some (MkSys p' (sy_ctl s) (<[i := Settled (spawn_finish (sv_bind sv) (sv_agent sv) q res err).1 true]> calls)
                  (sy_events s) (if sp_Provisioned res then sy_provisioned s + 1 else sy_provisioned s))
      | _ => None
      end
  | AAppend i =>
      match calls !! i with
      | Some (Settled evs slot) =>
          Some (MkSys p (sy_ctl s) (<[i := Recorded slot]> calls) (sy_events s ++ evs) (sy_provisioned s))
      | _ => None
      end
  | AFreeSlot i =>
      match calls !! i with
      | Some (Recorded true) =>
          Some (with_gw s (set_spawns p (gp_spawnInflight p - 1) (gp_spawnTotal p)) (<[i := Recorded false]> calls))
      | _ => None
      end
  | ARelease i =>
      match calls !! i with
      | Some (Recorded false) => Some (with_gw s (release p) (delete i calls))
      | _ => None
      end
  end.

(** A gateway as [New] and the two options leave it. *)
Definition initial (p : Gateway) : Prop :=
  exists gw root tok, p = New gw root tok \/ p = WithSpawner (New gw root tok) \/
    (exists url, p = WithExecURL url (New gw root tok) \/ p = WithExecURL url (WithSpawner (New gw root tok))).

Inductive reachable : sys -> Prop :=
  | reach_init p : initial p -> reachable (MkSys p Idle [] [] 0)
  | reach_step a s s' : reachable s -> step a s = Some s' -> reachable s'.

(** ** Counting calls *)
Definition weigh (f : phase -> Z) (l : list phase) : Z := foldr (fun ph n => f ph + n) 0 l.

Arguments weigh : simpl never.

Lemma weigh_cons f x l : weigh f (x :: l) = f x + weigh f l.
Proof. done. Qed.

Lemma weigh_one f x : weigh f [x] = f x.
Proof. rewrite weigh_cons. unfold weigh. cbn. lia. Qed.

Lemma weigh_app f l1 l2 : weigh f (l1 ++ l2) = weigh f l1 + weigh f l2.
Proof. induction l1 as [|x l IH]; [done|]. rewrite <- app_comm_cons, !weigh_cons. lia. Qed.

Lemma weigh_insert f l i x y : l !! i = Some x -> weigh f (<[i := y]> l) = weigh f l - f x + f y.
Proof.
  revert i; induction l as [|z l IH]; intros [|i] Hi; try done.
  - injection Hi as ->. change (<[0%nat := y]> (x :: l)) with (y :: l). rewrite !weigh_cons. lia.
  - change (<[S i := y]> (z :: l)) with (z :: <[i := y]> l). rewrite !weigh_cons, IH by done. lia.
Qed.

Lemma weigh_delete f l i x : l !! i = Some x -> weigh f (delete i l) = weigh f l - f x.
Proof.
  revert i; induction l as [|z l IH]; intros [|i] Hi; try done.
  - injection Hi as ->. change (delete 0%nat (x :: l)) with l. rewrite weigh_cons. lia.
  - change (delete (S i) (z :: l)) with (z :: delete i l). rewrite !weigh_cons, IH by done. lia.
Qed.

Lemma weigh_le f g l : (forall x, f x <= g x) -> weigh f l <= weigh g l.
Proof. intros Hfg. induction l as [|x l IH]; [done|]. rewrite !weigh_cons. specialize (Hfg x). lia. Qed.

Lemma weigh_nonneg f l : (forall x, 0 <= f x) -> 0 <= weigh f l.
Proof. intros Hf. induction l as [|x l IH]; [done|]. rewrite weigh_cons. specialize (Hf x). lia. Qed.

(** A call that holds the gateway, one that still owes its event, one that
    holds a parallel slot, one whose child is running. *)
Definition held (ph : phase) : Z := match ph with Pending _ _ => 0 | _ => 1 end.
Definition owes (ph : phase) : Z := match ph with Serving _ _ | Reserved _ _ | Settled _ _ => 1 | _ => 0 end.
Definition slot_of (ph : phase) : Z :=
  match ph with Reserved _ _ => 1 | Settled _ true => 1 | Recorded true => 1 | _ => 0 end.
Definition child_of (ph : phase) : Z := match ph with Reserved _ _ => 1 | _ => 0 end.

(** ** The invariant *)
Definition phase_ok (policy : SpawnPolicy) (ph : phase) : Prop :=
  match ph with
  | Settled evs _ => exists e, evs = [e] /\ door_event e
  | Reserved sv q => MaySpawnTarget (sv_agent sv) (sq_Role q) (sq_Workflow q) = true /\ spawn_depth (sv_bind sv) <= p_MaxDepth policy
  | _ => True
  end.

Definition policy_of (s : sys) : SpawnPolicy := gw_Spawn (gp_gwcfg (sy_gw s)).

Definition ctl_ok (s : sys) : Prop :=
  let p := sy_gw s in
  match sy_ctl s with
  | Idle => gp_srv p = None /\ gp_inflight p = 0 /\ (gp_closing p = true \/ sy_calls s = [])
  | Running => gp_closing p = false
  | Stopping => gp_closing p = true /\ gp_srv p = None
  end.

Record inv (s : sys) : Prop := {
  inv_held : gp_inflight (sy_gw s) = weigh held (sy_calls s);
  inv_doors : gp_doorCalls (sy_gw s) = Z.of_nat (length (sy_events s)) + weigh owes (sy_calls s);
  inv_int : gp_doorCalls (sy_gw s) <= max_int64;
  inv_slots : gp_spawnInflight (sy_gw s) = weigh slot_of (sy_calls s);
  inv_total : gp_spawnTotal (sy_gw s) = weigh child_of (sy_calls s) + sy_provisioned s;
  inv_parallel : gp_spawnInflight (sy_gw s) <= Z.max 0 (p_MaxParallel (policy_of s));
  inv_max_total : gp_spawnTotal (sy_gw s) <= Z.max 0 (p_MaxTotalSpawns (policy_of s));
  inv_provisioned : 0 <= sy_provisioned s;
  inv_events : Forall door_event (sy_events s);
  inv_phases : Forall (phase_ok (policy_of s)) (sy_calls s);
  inv_ctl : ctl_ok s;
}.

Lemma owes_held l : weigh held l = 0 -> weigh owes l = 0.
Proof.
  intros Hh. pose proof (weigh_le owes held l ltac:(by intros [])). pose proof (weigh_nonneg owes l ltac:(by intros [])). lia.
Qed.

Lemma inv_init p : initial p -> inv (MkSys p Idle [] [] 0).
Proof.
  intros (gw & root & tok & Hp).
  assert (gp_inflight p = 0 /\ gp_doorCalls p = 0 /\ gp_spawnInflight p = 0 /\ gp_spawnTotal p = 0 /\ gp_srv p = None) as (E1 & E2 & E3 & E4 & E5).
  { destruct Hp as [->|[->|(url & [->| ->])]]; done. }
  split; cbn; rewrite ?E1, ?E2, ?E3, ?E4; try done; try lia. unfold ctl_ok. cbn. auto.
Qed.

(** *** What each door leaves *)
Lemma one_door_settled bind agent type evs : one_door bind agent type evs -> exists e, evs = [e] /\ door_event e.
Proof. intros (e & -> & Hd & _). by exists e. Qed.

Lemma serve_request_settled p sv k o : (forall body, k <> DSpawn body) -> exists e, serve_request p sv k o = [e] /\ door_event e.
Proof.
  intros Hk. destruct k; [..|by destruct (Hk body)]; cbn; eapply one_door_settled;
    [apply tools_call_one|apply execAssertedHandler_one|apply execRunHandler_one|apply modelHandler_one].
Qed.

(** The reservation: either the call is settled and nothing changed, or one
    slot of each cap was taken, within the caps. *)
Lemma spawn_reserve_spec p sv body p' ph : spawn_reserve p sv body = (p', ph) ->
  (p' = p /\ exists e, ph = Settled [e] false /\ door_event e) \/
  (exists q, ph = Reserved sv q /\ p' = set_spawns p (gp_spawnInflight p + 1) (gp_spawnTotal p + 1) /\
     phase_ok (gw_Spawn (gp_gwcfg p)) ph /\ gp_spawnInflight p < p_MaxParallel (gw_Spawn (gp_gwcfg p)) /\
     gp_spawnTotal p < p_MaxTotalSpawns (gw_Spawn (gp_gwcfg p))).
Proof.
  unfold spawn_reserve. destruct (spawn_precheck _ _ _ _) as [h|q] eqn:Ep.
  - intros [= <- <-]. apply spawn_precheck_one, one_door_settled in Ep as (e & -> & He). left. by split; [|exists e].
  - destruct (spawn_cap _ _ _ _) as [reason|] eqn:Ec; intros [= <- <-].
    + left. split; [done|]. destruct (one_door_settled _ _ _ _ (spawn_event_door (sv_bind sv) (sv_agent sv) "refused" reason (childRole q) (childWorkflow q)))
        as (e & [= <-] & He). by eexists.
    + right. exists q. unfold spawn_cap in Ec. destruct (_ <? _) eqn:E1; [done|]. destruct (p_MaxParallel _ <=? _) eqn:E2; [done|].
      destruct (p_MaxTotalSpawns _ <=? _) eqn:E3; [done|]. bool_prop. split; [done|]. split; [done|]. split; [|done]. split; [|done].
      unfold spawn_precheck in Ep. destruct (decode_body _ _ _) as [q'|]; [|done]. destruct (negb (gp_spawner p)); [done|].
      destruct (MaySpawnTarget _ _ _) eqn:Em; [|done]. by injection Ep as <-.
Qed.

(** The counters after one call changed phase. *)
Ltac counters :=
  unfold policy_of in *; split; cbn -[max_int64]; unfold policy_of; cbn -[max_int64];
  try match goal with Hc : _ !! _ = Some _ |- _ => rewrite ?(weigh_insert _ _ _ _ _ Hc), ?(weigh_delete _ _ _ _ Hc) end;
  cbn [held owes slot_of child_of length]; rewrite ?length_app, ?weigh_app, ?weigh_one; cbn [length held owes slot_of child_of]; try done; try lia.

(** *** Every action preserves the invariant *)
Lemma ctl_ok_same s s' : ctl_ok s -> sy_ctl s' = sy_ctl s -> gp_srv (sy_gw s') = gp_srv (sy_gw s) ->
  gp_closing (sy_gw s') = gp_closing (sy_gw s) ->
  (sy_ctl s = Idle -> gp_inflight (sy_gw s') = gp_inflight (sy_gw s) /\ sy_calls s <> []) -> ctl_ok s'.
Proof.
  unfold ctl_ok. intros Hc -> -> ->. destruct (sy_ctl s); [|done..]. intros Hi. destruct (Hi eq_refl) as [-> Hne].
  destruct Hc as (? & ? & [?|?]); [|done]. auto.
Qed.

(** At [Idle] no call holds the gateway. *)
Lemma idle_held s i x : inv s -> sy_ctl s = Idle -> sy_calls s !! i = Some x -> held x = 0.
Proof.
  intros Hinv Hc Hi. pose proof (inv_ctl s Hinv) as Hctl. unfold ctl_ok in Hctl. rewrite Hc in Hctl. destruct Hctl as (_ & Hz & _).
  pose proof (inv_held s Hinv) as Hh. rewrite Hz in Hh.
  assert (Hd := weigh_delete held _ _ _ Hi). pose proof (weigh_nonneg held (delete i (sy_calls s)) ltac:(by intros [])).
  destruct x; cbn in *; lia.
Qed.

Lemma calls_ne (s : sys) i x : sy_calls s !! i = Some x -> sy_calls s <> [].
Proof. intros Hi E. by rewrite E in Hi. Qed.

Lemma inv_admit s s' i : inv s -> step (AAdmit i : action R) s = Some s' -> inv s'.
Proof.
  intros Hinv. cbn [step]. destruct (sy_calls s !! i) as [ph|] eqn:Hi; [|done]. destruct ph as [sv k| | | |]; try done.
  destruct (Z.ltb_spec (gp_doorCalls (sy_gw s)) max_int64) as [Hlt|]; [|done]. unfold admit_.
  assert (Hw : wrap64 (gp_doorCalls (sy_gw s) + 1) = gp_doorCalls (sy_gw s) + 1).
  { apply wrap64_id. pose proof (weigh_nonneg owes (sy_calls s) ltac:(by intros [])). pose proof (inv_doors s Hinv).
    unfold int_ok, min_int64 in *. lia. }
  destruct (gp_closing (sy_gw s)) eqn:Hcl; intros [= <-]; rewrite ?Hw; pose proof (calls_ne s i _ Hi) as Hne; destruct Hinv.
  - counters.
    + by apply Forall_delete.
    + eapply ctl_ok_same; [done..|]. intros _. done.
  - counters.
    + by apply Forall_insert.
    + revert inv_ctl0. unfold ctl_ok. cbn. rewrite Hcl. destruct (sy_ctl s); [|done|by intros [? _]].
      intros (_ & _ & [?|E]); [done|]. by rewrite E in Hi.
Qed.

Lemma inv_serve s s' i o : inv s -> step (AServe i o : action R) s = Some s' -> inv s'.
Proof.
  intros Hinv. cbn [step]. destruct (sy_calls s !! i) as [ph|] eqn:Hi; [|done]. destruct ph as [|sv k| | |]; try done.
  assert (Hctl : sy_ctl s <> Idle) by (intros E; pose proof (idle_held s i _ Hinv E Hi); done).
  assert (Hplain : (forall body, k <> DSpawn body) ->
    inv (with_gw s (sy_gw s) (<[i := Settled (serve_request (sy_gw s) sv k o) false]> (sy_calls s)))).
  { intros Hk. destruct Hinv. counters.
    - apply Forall_insert; [done|]. by apply serve_request_settled.
    - by eapply ctl_ok_same. }
  destruct k as [| | | |body]; try (by intros [= <-]; apply Hplain). clear Hplain.
  destruct (spawn_reserve (sy_gw s) sv body) as [p' ph] eqn:Er. intros [= <-]. destruct Hinv.
  apply spawn_reserve_spec in Er as [(-> & e & -> & He)|(q & -> & -> & Hok & Hp & Ht)].
  - counters.
    + apply Forall_insert; [done|]. by exists e.
    + by eapply ctl_ok_same.
  - counters.
    + by apply Forall_insert.
    + by eapply ctl_ok_same.
Qed.

Lemma inv_child s s' i res err : inv s -> step (AChildOver i res err : action R) s = Some s' -> inv s'.
Proof.
  intros Hinv. cbn [step]. destruct (sy_calls s !! i) as [ph|] eqn:Hi; [|done]. destruct ph as [| |sv q| |]; try done.
  assert (Hctl : sy_ctl s <> Idle) by (intros E; pose proof (idle_held s i _ Hinv E Hi); done). intros [= <-].
  pose proof (one_door_settled _ _ _ _ (spawn_finish_one (sv_bind sv) (sv_agent sv) q res err)) as Hs. destruct Hinv.
  destruct (sp_Provisioned res); cbn [negb];
    (counters;
     [by apply Forall_insert|by eapply ctl_ok_same]).
Qed.

Lemma inv_append s s' i : inv s -> step (AAppend i : action R) s = Some s' -> inv s'.
Proof.
  intros Hinv. cbn [step]. destruct (sy_calls s !! i) as [ph|] eqn:Hi; [|done]. destruct ph as [| | |evs slot|]; try done.
  assert (Hctl : sy_ctl s <> Idle) by (intros E; pose proof (idle_held s i _ Hinv E Hi); done). intros [= <-]. destruct Hinv.
  destruct (proj1 (Forall_lookup _ _) inv_phases0 _ _ Hi) as (e & -> & He).
  counters.
  - apply Forall_app. by split; [|apply Forall_singleton].
  - by apply Forall_insert.
  - by eapply ctl_ok_same.
Qed.

Lemma inv_free s s' i : inv s -> step (AFreeSlot i : action R) s = Some s' -> inv s'.
Proof.
  intros Hinv. cbn [step]. destruct (sy_calls s !! i) as [ph|] eqn:Hi; [|done]. destruct ph as [| | | |[]]; try done.
  assert (Hctl : sy_ctl s <> Idle) by (intros E; pose proof (idle_held s i _ Hinv E Hi); done). intros [= <-]. destruct Hinv.
  counters.
  - by apply Forall_insert.
  - by eapply ctl_ok_same.
Qed.

Lemma inv_release s s' i : inv s -> step (ARelease i : action R) s = Some s' -> inv s'.
Proof.
  intros Hinv. cbn [step]. destruct (sy_calls s !! i) as [ph|] eqn:Hi; [|done]. destruct ph as [| | | |[]]; try done.
  assert (Hctl : sy_ctl s <> Idle) by (intros E; pose proof (idle_held s i _ Hinv E Hi); done). intros [= <-]. destruct Hinv.
  counters.
  - by apply Forall_delete.
  - by eapply ctl_ok_same.
Qed.

Lemma inv_arrive s s' h k : inv s -> step (AArrive h k : action R) s = Some s' -> inv s'.
Proof.
  intros Hinv. cbn [step]. destruct (gp_srv (sy_gw s)) as [sv|] eqn:Hsv; [|done]. destruct (reaches sv h k); [|done]. intros [= <-]. destruct Hinv.
  counters.
  - apply Forall_app. by split; [|apply Forall_singleton].
  - revert inv_ctl0. unfold ctl_ok. cbn. rewrite Hsv. destruct (sy_ctl s); [by intros [? _]|done|by intros [_ ?]].
Qed.

Lemma inv_control s s' (a : action R) :
  match a with AStart _ _ _ | AStopBegin | AStopEnd => True | _ => False end -> inv s -> step a s = Some s' -> inv s'.
Proof.
  intros Ha Hinv. pose proof (inv_ctl s Hinv) as Hctl. unfold ctl_ok in Hctl. destruct a as [env bind agent| | | | | | | | |]; try done; cbn [step].
  - destruct (sy_ctl s) eqn:Ec; try done. destruct (GatewayStart env bind agent (sy_gw s)) as [[c|] p'] eqn:Eg; [|done]. intros [= <-].
    unfold GatewayStart in Eg. destruct (se_random env); [|done]. destruct (start_doors _ _ _ _) as [[allow m]|]; [|done].
    destruct (listen _ _ _) as [url|]; [|done]. injection Eg as _ <-. destruct Hctl as (_ & Hz & _). destruct Hinv.
    rewrite Hz in inv_held0. pose proof (owes_held _ (eq_sym inv_held0)) as Ho.
    counters.
  - destruct (sy_ctl s) eqn:Ec; try done. intros [= <-]. unfold stop_begin. rewrite Hctl. by destruct Hinv.
  - destruct (sy_ctl s) eqn:Ec; try done. destruct (Z.eqb_spec (gp_inflight (sy_gw s)) 0) as [E0|]; [|done]. intros [= <-].
    destruct Hinv. split; try done. unfold ctl_ok. cbn. destruct Hctl. auto.
Qed.

Lemma inv_step s s' (a : action R) : inv s -> step a s = Some s' -> inv s'.
Proof.
  intros Hinv. destruct a; eauto using inv_admit, inv_serve, inv_child, inv_append, inv_free, inv_release, inv_arrive;
    by apply inv_control.
Qed.

Lemma inv_reachable s : reachable s -> inv s.
Proof. induction 1; [by apply inv_init|by eapply inv_step]. Qed.

(** ** Properties *)

(** The atomic steps of the calls, as opposed to the engine's. *)
Definition call_action (a : action R) : Prop :=
  match a with AStart _ _ _ | AStopBegin | AStopEnd => False | _ => True end.

Fixpoint run_all (acts : list (action R)) (s : sys) : option sys :=
  match acts with
  | [] => Some s
  | a :: rest => match step a s with Some s' => run_all rest s' | None => None end
  end.

(** C33: every admitted door call is accounted for, in every interleaving.  In
    any reachable state the calls counted are exactly the events recorded since
    [Start] plus the calls in flight that still owe theirs, and [inflight]
    counts the holds; so when [Stop] returns, the number it returns is the
    number of door events recorded in the step, each of a door type and with
    machine integers throughout. *)
Theorem admitted_calls_are_recorded (s : sys) (Hs : reachable s) :
  gp_inflight (sy_gw s) = weigh held (sy_calls s) /\
  gp_doorCalls (sy_gw s) = Z.of_nat (length (sy_events s)) + weigh owes (sy_calls s) /\
  Forall door_event (sy_events s) /\
  (forall s', step (AStopEnd : action R) s = Some s' ->
     gp_doorCalls (sy_gw s') = Z.of_nat (length (sy_events s')) /\ 0 <= gp_doorCalls (sy_gw s') <= max_int64 /\
     Forall door_event (sy_events s')).
Proof.
  pose proof (inv_reachable s Hs) as Hinv. split_and!; [apply Hinv..|]. intros s' Hstep.
  pose proof (inv_step _ _ _ Hinv Hstep) as Hinv'. cbn [step] in Hstep. destruct (sy_ctl s); try done.
  destruct (Z.eqb_spec (gp_inflight (sy_gw s)) 0) as [E0|]; [|done]. injection Hstep as <-.
  pose proof (inv_held _ Hinv') as Hh. pose proof (inv_doors _ Hinv') as Hd. pose proof (inv_int _ Hinv') as Hi. cbn in Hh, Hd, Hi |- *.
  rewrite E0 in Hh. rewrite (owes_held _ (eq_sym Hh)) in Hd. split_and!; [lia|lia|done|]. apply Hinv'.
Qed.

(** The ledger type of a door's event. *)
Definition door_type (k : door_kind) : string :=
  match k with DTool _ _ => "tool_call" | DAsserted _ | DRun _ => "exec" | DModel _ => "model_call" | DSpawn _ => "spawn" end.

(** C37: every admitted call leaves exactly one event, and a well-typed one.
    Whatever the request's body, and whatever the runtime, the provider, the
    upstream or the child answers, the door's handler records one event of the
    door's own type, under the run's binding and the agent's name, whose every
    number is a machine integer; a spawn door either settles at once in such an
    event or reserves a slot and settles in one when the child is over. *)
Theorem every_door_records_one_typed_event (p : Gateway) (sv : server) (k : door_kind) (o : oracle R) (res : SpawnResult) (err : bool) :
  let recorded := one_door (sv_bind sv) (sv_agent sv) (door_type k) in
  match k with
  | DSpawn body =>
      match (spawn_reserve p sv body).2 with
      | Settled evs _ => recorded evs
      | Reserved _ q => recorded (spawn_finish (sv_bind sv) (sv_agent sv) q res err).1
      | _ => False
      end
  | _ => recorded (serve_request p sv k o)
  end.
Proof.
  destruct k as [name args|body|body|body|body]; cbn;
    [apply tools_call_one|apply execAssertedHandler_one|apply execRunHandler_one|apply modelHandler_one|].
  unfold spawn_reserve. destruct (spawn_precheck _ _ _ _) as [h|q] eqn:Ep; cbn; [by apply spawn_precheck_one in Ep|].
  destruct (spawn_cap _ _ _ _) as [reason|]; cbn; [apply spawn_event_door|apply spawn_finish_one].
Qed.

(** C34: the spawn caps hold in every interleaving and over the run's whole
    life: the children running at any moment never exceed [max_parallel]; the
    children that consumed a compartment set plus those still running never
    exceed [max_total_spawns], however many steps the run has; and every child
    that runs is on its agent's [may_spawn] list and within [max_depth]. *)
Theorem spawn_caps_hold (s : sys) (Hs : reachable s) :
  weigh child_of (sy_calls s) <= Z.max 0 (p_MaxParallel (policy_of s)) /\
  sy_provisioned s + weigh child_of (sy_calls s) <= Z.max 0 (p_MaxTotalSpawns (policy_of s)) /\
  (forall i sv q, sy_calls s !! i = Some (Reserved sv q) ->
     MaySpawnTarget (sv_agent sv) (sq_Role q) (sq_Workflow q) = true /\ spawn_depth (sv_bind sv) <= p_MaxDepth (policy_of s)).
Proof.
  pose proof (inv_reachable s Hs) as Hinv. destruct Hinv. split_and!; [|lia|].
  - pose proof (weigh_le child_of slot_of (sy_calls s) ltac:(by intros [| | |? []|[]])). lia.
  - intros i sv q Hi. exact (proj1 (Forall_lookup _ _) inv_phases0 _ _ Hi).
Qed.

(** Between steps the doors are shut: once [Stop] has returned and until
    the next [Start], no action of any call, however late, admits a call,
    records an event or changes the count [Stop] returned. *)
Theorem stopped_gateway_is_silent (s s' : sys) (a : action R) (Hs : reachable s) (Hidle : sy_ctl s = Idle)
    (Ha : call_action a) (Hstep : step a s = Some s') :
  sy_events s' = sy_events s /\ gp_doorCalls (sy_gw s') = gp_doorCalls (sy_gw s) /\ gp_inflight (sy_gw s') = 0 /\
  sy_provisioned s' = sy_provisioned s.
Proof.
  pose proof (inv_reachable s Hs) as Hinv. pose proof (inv_ctl s Hinv) as Hctl. unfold ctl_ok in Hctl. rewrite Hidle in Hctl.
  destruct Hctl as (Hsrv & Hz & Hcl). destruct a as [| | |h k|i|i o|i res err|i|i|i]; try done; cbn [step] in Hstep.
  - by rewrite Hsrv in Hstep.
  - destruct (sy_calls s !! i) as [ph|] eqn:Hi; [|done]. destruct ph; try done.
    destruct Hcl as [Hcl|Hcl]; [|by rewrite Hcl in Hi]. destruct (_ <? _); [|done]. unfold admit_ in Hstep. rewrite Hcl in Hstep. by injection Hstep as <-.
  - destruct (sy_calls s !! i) as [ph|] eqn:Hi; [|done]. destruct ph; try done; pose proof (idle_held s i _ Hinv Hidle Hi); done.
  - destruct (sy_calls s !! i) as [ph|] eqn:Hi; [|done]. destruct ph; try done; pose proof (idle_held s i _ Hinv Hidle Hi); done.
  - destruct (sy_calls s !! i) as [ph|] eqn:Hi; [|done]. destruct ph; try done; pose proof (idle_held s i _ Hinv Hidle Hi); done.
  - destruct (sy_calls s !! i) as [ph|] eqn:Hi; [|done]. destruct ph; try done; pose proof (idle_held s i _ Hinv Hidle Hi); done.
  - destruct (sy_calls s !! i) as [ph|] eqn:Hi; [|done]. destruct ph; try done; pose proof (idle_held s i _ Hinv Hidle Hi); done.
Qed.

(** *** [Stop] terminates *)

(** The actions a call still needs. *)
Definition work (ph : phase) : Z :=
  match ph with
  | Pending _ _ => 1
  | Serving _ _ => 5
  | Reserved _ _ => 4
  | Settled _ _ => 3
  | Recorded true => 2
  | Recorded false => 1
  end.

Lemma stopping_step s s' (a : action R) : inv s -> sy_ctl s = Stopping -> call_action a -> step a s = Some s' ->
  sy_ctl s' = Stopping /\ weigh work (sy_calls s') < weigh work (sy_calls s).
Proof.
  intros Hinv Hc Ha Hstep. pose proof (inv_ctl s Hinv) as Hctl. unfold ctl_ok in Hctl. rewrite Hc in Hctl. destruct Hctl as [Hcl Hsrv].
  destruct a as [| | |h k|i|i o|i res err|i|i|i]; try done; cbn [step] in Hstep; [by rewrite Hsrv in Hstep|..];
    (destruct (sy_calls s !! i) as [ph|] eqn:Hi; [|done]); destruct ph as [sv k|sv k|sv q|evs slot|slot]; try done.
  - destruct (_ <? _); [|done]. unfold admit_ in Hstep. rewrite Hcl in Hstep. injection Hstep as <-. cbn. split; [done|].
    rewrite (weigh_delete _ _ _ _ Hi). cbn. lia.
  - assert (Hplain : forall ph' p', work ph' <= 4 -> sy_ctl (with_gw s p' (<[i := ph']> (sy_calls s))) = Stopping /\
      weigh work (sy_calls (with_gw s p' (<[i := ph']> (sy_calls s)))) < weigh work (sy_calls s)).
    { intros ph' p' Hw. cbn. split; [done|]. rewrite (weigh_insert _ _ _ _ _ Hi). cbn [work]. lia. }
    destruct k as [| | | |body]; try (injection Hstep as <-; by apply Hplain).
    destruct (spawn_reserve _ _ _) as [p' ph'] eqn:Er. injection Hstep as <-. apply Hplain.
    apply spawn_reserve_spec in Er as [(_ & e & -> & _)|(q & -> & _)]; done.
  - injection Hstep as <-. cbn. split; [done|]. rewrite (weigh_insert _ _ _ _ _ Hi). cbn. lia.
  - injection Hstep as <-. cbn. split; [done|]. rewrite (weigh_insert _ _ _ _ _ Hi). destruct slot; cbn; lia.
  - destruct slot; [|done]. injection Hstep as <-. cbn. split; [done|]. rewrite (weigh_insert _ _ _ _ _ Hi). cbn. lia.
  - destruct slot; [done|]. injection Hstep as <-. cbn. split; [done|]. rewrite (weigh_delete _ _ _ _ Hi). cbn. lia.
Qed.

Lemma stopping_run s s' acts : inv s -> sy_ctl s = Stopping -> Forall call_action acts -> run_all acts s = Some s' ->
  inv s' /\ sy_ctl s' = Stopping /\ Z.of_nat (length acts) + weigh work (sy_calls s') <= weigh work (sy_calls s).
Proof.
  intros Hinv Hc HF. revert s Hinv Hc. induction HF as [|a acts Ha HF IH]; intros s Hinv Hc; cbn [run_all length].
  - intros [= <-]. split_and!; [done|done|lia].
  - destruct (step a s) as [s1|] eqn:E1; [|done]. intros Hr. destruct (stopping_step _ _ _ Hinv Hc Ha E1) as [Hc1 Hw].
    destruct (IH s1 (inv_step _ _ _ Hinv E1) Hc1 Hr) as (? & ? & ?). split_and!; [done|done|lia].
Qed.

(** A call that holds the gateway can always move on, whatever it is
    answered. *)
Lemma held_moves s i x (o : oracle R) res err : sy_calls s !! i = Some x -> held x = 1 ->
  exists a, call_action a /\ is_Some (step a s) /\
    (a = AServe i o \/ a = AChildOver i res err \/ a = AAppend i \/ a = AFreeSlot i \/ a = ARelease i).
Proof.
  intros Hi Hh. destruct x as [|sv k|sv q|evs slot|[]]; [done|..].
  - exists (AServe i o). split; [done|]. split; [|by left]. cbn [step]. rewrite Hi. destruct k; try (by eexists). by destruct (spawn_reserve _ _ _).
  - exists (AChildOver i res err). split; [done|]. split; [|by right; left]. cbn [step]. rewrite Hi. by eexists.
  - exists (AAppend i). split; [done|]. split; [|by do 2 right; left]. cbn [step]. rewrite Hi. by eexists.
  - exists (AFreeSlot i). split; [done|]. split; [|by do 3 right; left]. cbn [step]. rewrite Hi. by eexists.
  - exists (ARelease i). split; [done|]. split; [|by do 4 right]. cbn [step]. rewrite Hi. by eexists.
Qed.

Lemma weigh_pos l : 0 < weigh held l -> exists i x, l !! i = Some x /\ held x = 1.
Proof.
  induction l as [|x l IH]; [done|]. rewrite weigh_cons. intros Hp. destruct (decide (held x = 1)) as [E|E]; [by exists O, x|].
  assert (held x = 0) as E0 by (by destruct x). destruct IH as (i & y & Hi & Hy); [lia|]. by exists (S i), y.
Qed.

(** C36: [Stop] always returns.  From any state in which [Stop] has closed the
    doors: no schedule of the calls' actions is longer than the work they have
    left (five actions a call), so they run out; and as long as [Stop] is kept
    waiting, some held call can act, whatever the runtimes, upstreams and
    children answer.  When nothing can act, the wait is over. *)
Theorem stop_always_returns (s s' : sys) (acts : list (action R)) (o : oracle R) (res : SpawnResult) (err : bool)
    (Hs : reachable s) (Hc : sy_ctl s = Stopping) (Hacts : Forall call_action acts) (Hr : run_all acts s = Some s') :
  Z.of_nat (length acts) <= weigh work (sy_calls s) /\
  weigh work (sy_calls s) <= 5 * Z.of_nat (length (sy_calls s)) /\
  (is_Some (step (AStopEnd : action R) s') \/
   exists i a, call_action a /\ is_Some (step a s') /\
     (a = AServe i o \/ a = AChildOver i res err \/ a = AAppend i \/ a = AFreeSlot i \/ a = ARelease i)).
Proof.
  destruct (stopping_run _ _ _ (inv_reachable s Hs) Hc Hacts Hr) as (Hinv & Hc' & Hlen). split_and!.
  - pose proof (weigh_nonneg work (sy_calls s') ltac:(by intros [| | | |[]])). lia.
  - clear. induction (sy_calls s) as [|x l IH]; [done|]. rewrite weigh_cons. cbn [length]. assert (work x <= 5) by (by destruct x as [| | | |[]]). lia.
  - cbn [step]. rewrite Hc'. destruct (Z.eqb_spec (gp_inflight (sy_gw s')) 0) as [E|E]; [left; by eexists|right].
    rewrite (inv_held _ Hinv) in E. pose proof (weigh_nonneg held (sy_calls s') ltac:(by intros [])).
    destruct (weigh_pos (sy_calls s')) as (i & x & Hi & Hx); [lia|]. destruct (held_moves s' i x o res err Hi Hx) as (a & ? & ? & ?). by exists i, a.
Qed.

(** Executions reach what they compute. *)
Definition after (acts : list (action R)) (s : sys) : sys := default s (run_all acts s).

Lemma reachable_after acts s : reachable s -> is_Some_b (run_all acts s) = true -> reachable (after acts s).
Proof.
  unfold after. revert s. induction acts as [|a acts IH]; intros s Hs; cbn [run_all]; [done|].
  destruct (step a s) as [s1|] eqn:E1; [|done]. intros Hr. pose proof (IH s1 (reach_step a s s1 Hs E1) Hr) as Hx.
  by destruct (run_all acts s1).
Qed.
End gateway.

#[global] Arguments weigh : simpl never.

(** ** A concrete gateway: two calls, one of them a spawn *)
Record toy_res : Type := MkToyRes { ty_meta : gmap string json; ty_error : bool; ty_texts : list string }.
#[global, refine] Instance toy_mcp : McpResult toy_res := {|
  res_meta := ty_meta;
  with_meta := fun r m => MkToyRes m (ty_error r) (ty_texts r);
  res_isError := ty_error;
  res_texts := ty_texts;
  marshal_result := fun r => join "," (ty_texts r);
  error_result := fun t => MkToyRes ∅ true [t] |}.
Proof. all: done. Defined.
#[global, refine] Instance toy_dispatch : McpDispatch toy_res := {|
  dispatch := fun reg h name => match reg !! name with Some id => h id | None => ([], inr "unknown tool") end |}.
Proof. - by intros reg h name id ->. - by intros reg h name ->. Defined.

Definition ex_start_env : start_env :=
  MkStartEnv (Ok "0123456789abcdef0123456789abcdef") ex_answers (Ok "127.0.0.1:1") (Ok "nonc") (fun _ => None).
Definition ex_lead : AgentDef := ex_agent "lead" [MkTarget "dev" "sub"].
Definition ex_bind : Binding := MkBinding zeroInvoker "dev" "main" "r-1" "" 0.
Definition ex_gateway : Gateway := WithSpawner (New (c_Gateway ex_config) "." "").
Definition ex_sys : sys := MkSys ex_gateway Idle [] [] 0.
Definition ex_oracle : oracle toy_res := MkOracle ex_exec_env (ex_model_env ex_spy) (fun _ => inr "no upstream").
Definition ex_spawn_body : string := marshal (JObj [("role", JStr "dev"); ("workflow", JStr "sub"); ("input", JStr "go")]).
Definition ex_http (body : string) : http_request :=
  MkHttp ("Bearer " +:+ mintToken "0123456789abcdef0123456789abcdef") true true body.
Definition ex_child : SpawnResult := MkSpawnResult "r-2" "succeeded" "" "" "" true "" [].

Definition ex_serving : list (action toy_res) :=
  [AStart ex_start_env ex_bind ex_lead; AArrive (ex_http ex_exec_body) (DRun ex_exec_body);
   AArrive (ex_http ex_spawn_body) (DSpawn ex_spawn_body); AAdmit 1; AAdmit 0; AServe 1 ex_oracle; AServe 0 ex_oracle].
Definition ex_stopping : list (action toy_res) := ex_serving ++ [AStopBegin].
Definition ex_stopped : list (action toy_res) :=
  ex_stopping ++ [AAppend 0; ARelease 0; AChildOver 0 ex_child false; AAppend 0; AFreeSlot 0; ARelease 0; AStopEnd].

#[local] Existing Instances toy_text toy_http.

Lemma ex_reachable : reachable (R := toy_res) ex_sys.
Proof. apply reach_init. exists (c_Gateway ex_config), ".", "". right. by left. Qed.

Ltac reach_ex := apply reachable_after; [exact ex_reachable|vm_compute; reflexivity].

Lemma admitted_calls_are_recorded_witness :
  let s := after ex_stopped ex_sys in
  gp_doorCalls (sy_gw s) = Z.of_nat (length (sy_events s)) + weigh owes (sy_calls s) /\ gp_doorCalls (sy_gw s) = 2.
Proof.
  split; [|vm_compute; reflexivity].
  refine (proj1 (proj2 (admitted_calls_are_recorded (R := toy_res) (after ex_stopped ex_sys) _))). reach_ex.
Defined.

Lemma spawn_caps_hold_witness :
  let s := after ex_serving ex_sys in weigh child_of (sy_calls s) = 1 /\ weigh child_of (sy_calls s) <= 1.
Proof.
  split; [vm_compute; reflexivity|]. refine (proj1 (spawn_caps_hold (R := toy_res) (after ex_serving ex_sys) _)). reach_ex.
Defined.

(** A request the first step's listener accepted and Stop overtook. *)
Definition ex_late : list (action toy_res) :=
  [AStart ex_start_env ex_bind ex_lead; AArrive (ex_http ex_exec_body) (DRun ex_exec_body); AStopBegin; AStopEnd].

Lemma stopped_gateway_is_silent_witness : sy_events (after (ex_late ++ [AAdmit 0]) ex_sys) = [].
Proof.
  refine (eq_trans (proj1 (stopped_gateway_is_silent (R := toy_res) (after ex_late ex_sys) (after (ex_late ++ [AAdmit 0]) ex_sys) (AAdmit 0) _ _ _ _)) _).
  - reach_ex.
  - vm_compute. reflexivity.
  - exact I.
  - vm_compute. reflexivity.
  - vm_compute. reflexivity.
Defined.

Lemma stop_always_returns_witness :
  weigh work (sy_calls (after ex_stopping ex_sys)) <= 10.
Proof.
  refine (proj1 (proj2 (stop_always_returns (R := toy_res) (after ex_stopping ex_sys) (after ex_stopping ex_sys) [] ex_oracle ex_child false _ _ _ _))).
  - reach_ex.
  - vm_compute. reflexivity.
  - constructor.
  - reflexivity.
Defined.

(** A request that the first step's listener authorized, and that reaches
    [admit] only after the next [Start], is admitted there: it is counted in
    the second step and recorded under the first step's agent. *)
Definition ex_second : AgentDef := ex_agent "worker" [].
Definition ex_stale : list (action toy_res) :=
  ex_late ++ [AStart ex_start_env ex_bind ex_second; AAdmit 0; AServe 0 ex_oracle; AAppend 0].

Example stale_request_is_recorded_in_the_next_step :
  let s := after ex_stale ex_sys in
  match gp_srv (sy_gw s), sy_events s with
  | Some sv, [e] => a_Name (sv_agent sv) = "worker" /\ ev_Agent e = "lead" /\ gp_doorCalls (sy_gw s) = 1
  | _, _ => False
  end.
Proof. vm_compute. done. Qed.
