(* ===== verification/GatewayRun.v ===== *)
(** * A run over the gateway

    The engine's world with the gateway of [Gateway] in it: while a step
    executes, an arbitrary script of actions interleaves the calls of its
    agent; [Stop] lets another script run and then waits, every remaining
    call answered in some way.  This world keeps the contract of [RunAudit],
    so a run over it is audited complete whatever agents, upstreams, runtimes
    and children do. *)
From S2P Require Import Prelude Sha256 GoStr Json Paths Ledger Config Authz Origin Registry Event Engine EngineTrace Completeness RunAudit Attest Grants Credentials Doors Gateway.

(** The text of a refused [Start]. *)
Definition start_error_text `{GoText} (e : start_error) : string :=
  let q := quote in
  match e with
  | MintFailed t => "mint run token: " +:+ t
  | ExecNotFirstHand r => "exec runtime " +:+ q r +:+ " must be refexec with a unix:// url and a positive timeout"
  | GrantNeedsToolsAndMode r =>
      "resource " +:+ q r +:+ " grant needs tools and mode: write {resource: " +:+ q r +:+
      jq ", tools: ['*'], mode: read-write} for every tool, or list tools and set mode"
  | GrantModeAll r =>
      "resource " +:+ q r +:+ jq " grant: mode: all is retired; write tools: ['*'], mode: read-write for every tool, or mode: read-only"
  | GrantUnknownMode r m => "resource " +:+ q r +:+ " grant has mode " +:+ q m +:+ " (want read-only or read-write)"
  | GrantNoTools r => "resource " +:+ q r +:+ jq " grant has no tools: list the tools it may call, or tools: ['*'] for every tool"
  | GrantStarNotAlone r => "resource " +:+ q r +:+ jq " grant lists '*' alongside other tools; '*' must be the only entry"
  | GrantNoMode r => "resource " +:+ q r +:+ " grant has no mode: set mode: read-only or read-write"
  | GrantedTwice r =>
      "resource " +:+ q r +:+ jq " is granted more than once; a repeat is allowed only when every grant is the every-tool read-write grant (tools: ['*'], mode: read-write)"
  | NotClassified r t => "resource " +:+ q r +:+ " tool " +:+ q t +:+ " is not classified read-only"
  | ConnectFailed r t => "connect upstream " +:+ q r +:+ ": " +:+ t
  | ListFailed r t => "list tools for " +:+ q r +:+ ": " +:+ t
  | ExposedTwice t o r => "tool " +:+ q t +:+ " is exposed by both resource " +:+ q o +:+ " and " +:+ q r
  | MatchesNothing r => "resource " +:+ q r +:+ " read-only grant matches no exposed tool"
  | NotExposed r t => "resource " +:+ q r +:+ " does not expose allowlisted tool " +:+ q t
  | ListenFailed t => "listen: " +:+ t
  end.

Section world.
  Context `{GoText} `{GoHttp} {R : Type} `{McpResult R} `{McpDispatch R}.

(** ** Playing a script *)
Definition is_call (a : action R) : bool :=
  match a with AStart _ _ _ | AStopBegin | AStopEnd => false | _ => true end.

(** An action that is not enabled, or not a call's, is skipped. *)
Definition advance (a : action R) (s : sys) : sys := default s (step a s).
Fixpoint play (acts : list (action R)) (s : sys) : sys :=
  match acts with
  | [] => s
  | a :: rest => play rest (if is_call a then advance a s else s)
  end.

(** The wait in [Stop]: the first call that holds the gateway acts. *)
Definition next_of (o : oracle R) (res : SpawnResult) (err : bool) (i : nat) (ph : phase) : option (action R) :=
  match ph with
  | Pending _ _ => None
  | Serving _ _ => Some (AServe i o)
  | Reserved _ _ => Some (AChildOver i res err)
  | Settled _ _ => Some (AAppend i)
  | Recorded true => Some (AFreeSlot i)
  | Recorded false => Some (ARelease i)
  end.

Fixpoint next_action (o : oracle R) (res : SpawnResult) (err : bool) (i : nat) (calls : list phase) : option (action R) :=
  match calls with
  | [] => None
  | ph :: rest => match next_of o res err i ph with Some a => Some a | None => next_action o res err (S i) rest end
  end.

Fixpoint drain (fuel : nat) (o : oracle R) (res : SpawnResult) (err : bool) (s : sys) : sys :=
  match fuel with
  | O => s
  | S f => match next_action o res err 0 (sy_calls s) with
           | Some a => drain f o res err (advance a s)
           | None => s
           end
  end.

Definition held_work (ph : phase) : Z := match ph with Pending _ _ => 0 | _ => work ph end.
Definition drain_all (o : oracle R) (res : SpawnResult) (err : bool) (s : sys) : sys :=
  drain (Z.to_nat (weigh held_work (sy_calls s))) o res err s.

(** ** Facts *)

(** An extension of a state: more events, the same control. *)
Definition extends (s s' : sys) : Prop := (exists evs, sy_events s' = sy_events s ++ evs) /\ sy_ctl s' = sy_ctl s.

Lemma extends_refl s : extends s s.
Proof. split; [exists []; by rewrite app_nil_r|done]. Qed.
Lemma extends_calls s p calls n : extends s (MkSys p (sy_ctl s) calls (sy_events s) n).
Proof. split; [exists []; by rewrite app_nil_r|done]. Qed.
Lemma extends_trans s1 s2 s3 : extends s1 s2 -> extends s2 s3 -> extends s1 s3.
Proof. intros [[e1 E1] C1] [[e2 E2] C2]. split; [exists (e1 ++ e2); by rewrite E2, E1, app_assoc|congruence]. Qed.

Lemma step_extends a s s' : is_call a = true -> step a s = Some s' -> extends s s'.
Proof.
  intros Ha Hs. destruct a as [| | |h k|i|i o|i res err|i|i|i]; try done; cbn [step] in Hs.
  - destruct (gp_srv _); [|done]. destruct (reaches _ _ _); [|done]. injection Hs as <-. apply extends_calls.
  - destruct (sy_calls s !! i) as [[]|]; try done. destruct (_ <? _); [|done]. destruct (admit_ _); injection Hs as <-; apply extends_calls.
  - destruct (sy_calls s !! i) as [[|sv k| | |]|]; try done.
    destruct k; try (injection Hs as <-; apply extends_calls). destruct (spawn_reserve _ _ _). injection Hs as <-. apply extends_calls.
  - destruct (sy_calls s !! i) as [[]|]; try done. injection Hs as <-. apply extends_calls.
  - destruct (sy_calls s !! i) as [[| | |evs slot|]|]; try done. injection Hs as <-. split; [by exists evs|done].
  - destruct (sy_calls s !! i) as [[| | | |[]]|]; try done. injection Hs as <-. apply extends_calls.
  - destruct (sy_calls s !! i) as [[| | | |[]]|]; try done. injection Hs as <-. apply extends_calls.
Qed.

Lemma advance_inv a s : inv s -> inv (advance a s).
Proof. intros Hi. unfold advance. destruct (step a s) eqn:E; [|done]. by eapply inv_step. Qed.

Lemma advance_extends a s : is_call a = true -> extends s (advance a s).
Proof. intros Ha. unfold advance. destruct (step a s) eqn:E; [by eapply step_extends|apply extends_refl]. Qed.

Lemma play_inv acts s : inv s -> inv (play acts s).
Proof. revert s; induction acts as [|a acts IH]; intros s Hi; [done|]. apply IH. destruct (is_call a); [by apply advance_inv|done]. Qed.

Lemma play_extends acts s : extends s (play acts s).
Proof.
  revert s; induction acts as [|a acts IH]; intros s; [apply extends_refl|]. eapply extends_trans; [|apply IH].
  destruct (is_call a) eqn:E; [by apply advance_extends|apply extends_refl].
Qed.

Lemma next_of_call o res err i ph a : next_of o res err i ph = Some a -> is_call a = true.
Proof. by destruct ph as [| | | |[]]; intros [= <-]. Qed.

Lemma next_action_spec o res err calls k :
  match next_action o res err k calls with
  | Some a => exists i ph, calls !! i = Some ph /\ next_of o res err (k + i) ph = Some a
  | None => weigh held calls = 0
  end.
Proof.
  revert k; induction calls as [|ph calls IH]; intros k; cbn [next_action]; [done|].
  destruct (next_of o res err k ph) as [a|] eqn:En.
  - exists O, ph. split; [done|]. by rewrite Nat.add_0_r.
  - specialize (IH (S k)). destruct (next_action o res err (S k) calls) as [a|].
    + destruct IH as (i & ph' & Hi & Hn). exists (S i), ph'. split; [done|]. by rewrite Nat.add_succ_r.
    + rewrite weigh_cons, IH. by destruct ph as [| | | |[]].
Qed.

(** The chosen action is enabled and is progress. *)
Lemma next_progress o res err s i ph a : sy_calls s !! i = Some ph -> next_of o res err i ph = Some a ->
  exists s', step a s = Some s' /\ weigh held_work (sy_calls s') < weigh held_work (sy_calls s).
Proof.
  intros Hi Hn. assert (Hins : forall ph' (p : Gateway), held_work ph' < held_work ph -> weigh held_work (sy_calls (with_gw s p (<[i := ph']> (sy_calls s)))) < weigh held_work (sy_calls s)).
  { intros ph' p Hw. cbn. rewrite (weigh_insert _ _ _ _ _ Hi). lia. }
  destruct ph as [sv k|sv k|sv q|evs slot|[]]; try done; injection Hn as <-; cbn [step]; rewrite Hi.
  - destruct k as [| | | |body]; try (eexists; split; [reflexivity|]; by apply Hins).
    destruct (spawn_reserve _ _ _) as [p' ph'] eqn:Er. eexists; split; [reflexivity|]. apply Hins.
    apply spawn_reserve_spec in Er as [(_ & e & -> & _)|(q & -> & _)]; done.
  - eexists; split; [reflexivity|]. cbn. rewrite (weigh_insert _ _ _ _ _ Hi). cbn. lia.
  - eexists; split; [reflexivity|]. cbn. rewrite (weigh_insert _ _ _ _ _ Hi). destruct slot; cbn; lia.
  - eexists; split; [reflexivity|]. by apply Hins.
  - eexists; split; [reflexivity|]. cbn. rewrite (weigh_delete _ _ _ _ Hi). cbn. lia.
Qed.

Lemma drain_spec fuel o res err s : inv s -> weigh held_work (sy_calls s) <= Z.of_nat fuel ->
  inv (drain fuel o res err s) /\ extends s (drain fuel o res err s) /\ weigh held (sy_calls (drain fuel o res err s)) = 0.
Proof.
  revert s; induction fuel as [|f IH]; intros s Hi Hf; cbn [drain].
  - split_and!; [done|apply extends_refl|]. pose proof (weigh_le held held_work (sy_calls s) ltac:(by intros [| | | |[]])).
    pose proof (weigh_nonneg held (sy_calls s) ltac:(by intros [])). lia.
  - pose proof (next_action_spec o res err (sy_calls s) 0) as Hn. destruct (next_action o res err 0 (sy_calls s)) as [a|].
    + destruct Hn as (i & ph & Hc & Hn). destruct (next_progress o res err s i ph a Hc Hn) as (s' & Es & Hw).
      unfold advance. rewrite Es. cbn [default]. unfold id. destruct (IH s') as (I' & E' & Z'); [by eapply inv_step|lia|].
      split_and!; [done| |done]. eapply extends_trans; [|exact E']. eapply step_extends; [by eapply next_of_call|exact Es].
    + split_and!; [done|apply extends_refl|done].
Qed.

Lemma drain_all_spec o res err s : inv s ->
  inv (drain_all o res err s) /\ extends s (drain_all o res err s) /\ weigh held (sy_calls (drain_all o res err s)) = 0.
Proof. intros Hi. apply drain_spec; [done|]. pose proof (weigh_nonneg held_work (sy_calls s) ltac:(by intros [| | | |[]])). lia. Qed.

(** ** The engine's world *)

(** What the rest of the host answers, in order; a stream that runs dry gives
    its default.  The clock is any clock whose times marshal. *)
Record host_script : Type := MkHostScript {
  hs_clock : nat -> string;
  hs_clock_ok : forall n, rfc3339_ok (hs_clock n) = true /\ valid_utf8 (hs_clock n) = true;
  hs_ctx : nat -> bool;
  hs_rand : nat -> string;
  hs_store_open : nat -> result string ();
  hs_store_put : nat -> string -> result string (string * string);
}.

(** The environment of one step: what [Start] is answered, what happens while
    the executor runs and what it returns, what happens while [Stop] waits and
    how the calls it waits for end. *)
Record step_script : Type := MkStepScript {
  ss_start : start_env;
  ss_calls : list (action R);
  ss_result : StepResult * option exec_error;
  ss_stop : list (action R);
  ss_oracle : oracle R;
  ss_child : SpawnResult;
  ss_child_err : bool;
}.

(** The gateway in a state the invariant holds in, the script of every step,
    the host, and how many steps and host calls there have been. *)
Record gworld : Type := MkGWorld {
  gy_sys : sys;
  gy_inv : inv gy_sys;
  gy_steps : nat -> step_script;
  gy_now : nat;
  gy_host : host_script;
  gy_tick : nat;
}.

Definition ticked (w : gworld) : gworld := MkGWorld (gy_sys w) (gy_inv w) (gy_steps w) (gy_now w) (gy_host w) (S (gy_tick w)).
Definition moved_to (w : gworld) (s : sys) (Hs : inv s) (n : nat) : gworld := MkGWorld s Hs (gy_steps w) n (gy_host w) (gy_tick w).
Definition script (w : gworld) : step_script := gy_steps w (gy_now w).
Definition new_events (s s' : sys) : list Event := drop (length (sy_events s)) (sy_events s').

#[global] Instance gworld_host : Host gworld := {|
  next_write := fun w => (WriteOk, w);
  time_now := fun w => (hs_clock (gy_host w) (gy_tick w), ticked w);
  ctx_err := fun w => (hs_ctx (gy_host w) (gy_tick w), ticked w);
  rand8 := fun w => (hs_rand (gy_host w) (gy_tick w), ticked w);
  store_open := fun w => (hs_store_open (gy_host w) (gy_tick w), ticked w);
  store_put := fun w body => (hs_store_put (gy_host w) (gy_tick w) body, ticked w);
|}.

Definition world_start (w : gworld) (b : Binding) (a : AgentDef) : result string coords * list Event * gworld :=
  let env := ss_start (script w) in
  let s := gy_sys w in
  let r := match sy_ctl s, (GatewayStart env b a (sy_gw s)).1 with
           | Idle, Ok c => Ok c
           | Idle, Err e => Err (start_error_text e)
           | _, _ => Err "gateway is already serving a step"
           end in
  (r, [], moved_to w (advance (AStart env b a) s) (advance_inv (AStart env b a) s (gy_inv w)) (gy_now w)).

Definition world_execute (w : gworld) (c : ptr coords) : (StepResult * option exec_error) * list Event * gworld :=
  let acts := match c with Some _ => ss_calls (script w) | None => [] end in
  let s := gy_sys w in
  (ss_result (script w), new_events s (play acts s), moved_to w (play acts s) (play_inv acts s (gy_inv w)) (gy_now w)).

(** [Stop]: close, wait, return the count. *)
Definition stopped (ss : step_script) (s : sys) : sys :=
  advance AStopEnd (drain_all (ss_oracle ss) (ss_child ss) (ss_child_err ss) (play (ss_stop ss) (advance AStopBegin s))).

Lemma stopped_inv ss s : inv s -> inv (stopped ss s).
Proof. intros Hs. apply advance_inv, drain_all_spec, play_inv, advance_inv, Hs. Qed.

Definition world_stop (w : gworld) : Z * list Event * gworld :=
  let s := gy_sys w in
  let s' := stopped (script w) s in
  (gp_doorCalls (sy_gw s'), new_events s s', moved_to w s' (stopped_inv (script w) s (gy_inv w)) (S (gy_now w))).

#[global] Instance gworld_executor : StepExecutor gworld := {| Execute := fun w c _ _ _ _ => world_execute w c |}.
#[global] Instance gworld_gateway : ToolProxy gworld := {| Start := world_start; Stop := world_stop |}.

(** ** The contract *)
Lemma new_events_extends s s' : extends s s' -> inv s' ->
  Forall door_event (new_events s s') /\ Z.of_nat (length (sy_events s')) = Z.of_nat (length (sy_events s)) + Z.of_nat (length (new_events s s')).
Proof.
  intros [[evs E] _] Hi. unfold new_events. rewrite E, drop_app_length, length_app. split; [|lia].
  pose proof (inv_events _ Hi) as HF. rewrite E in HF. apply (proj1 (Forall_app _ _ _) HF).
Qed.

Lemma advance_control_events a s : match a with AStopBegin | AStopEnd => True | _ => False end -> sy_events (advance a s) = sy_events s /\ sy_calls (advance a s) = sy_calls s.
Proof.
  intros Ha. unfold advance. destruct a; try done; cbn [step]; destruct (sy_ctl s); try done. by destruct (_ =? _).
Qed.

Lemma stopped_spec ss s : inv s ->
  (exists evs, sy_events (stopped ss s) = sy_events s ++ evs) /\ gp_doorCalls (sy_gw (stopped ss s)) = Z.of_nat (length (sy_events (stopped ss s))).
Proof.
  intros Hs. set (s1 := advance AStopBegin s). assert (Hs1 : inv s1) by (by apply advance_inv).
  set (s2 := play (ss_stop ss) s1). assert (Hs2 : inv s2) by (by apply play_inv).
  destruct (drain_all_spec (ss_oracle ss) (ss_child ss) (ss_child_err ss) s2 Hs2) as (Hs3 & He3 & Hz3).
  set (s3 := drain_all _ _ _ s2) in *. pose proof (advance_control_events AStopEnd s3 I) as [E4 C4].
  pose proof (stopped_inv ss s Hs) as Hs4. change (stopped ss s) with (advance AStopEnd s3) in *.
  pose proof (extends_trans _ _ _ (play_extends (ss_stop ss) s1) He3) as [[evs Ee] _].
  pose proof (advance_control_events AStopBegin s I) as [E1 _]. split.
  - exists evs. rewrite E4, Ee. unfold s1. by rewrite E1.
  - rewrite (inv_doors _ Hs4), C4, (owes_held _ Hz3). lia.
Qed.

#[global] Instance gworld_contract : GatewayContract gworld.
Proof.
  refine {| admitted := fun w => Z.of_nat (length (sy_events (gy_sys w))) |}; cbn [Start Stop Execute gworld_gateway gworld_executor time_now next_write gworld_host].
  - intros w b a c evs w' [= Hr <- <-]. split; [constructor|]. cbn [gy_sys moved_to length]. unfold advance. cbn [step].
    destruct (sy_ctl (gy_sys w)); try done. destruct (GatewayStart _ _ _ _) as [[c'|e] p']; done.
  - by intros w b a x evs w' [= _ <- _].
  - intros w c b a i arts r evs w' [= <- <- <-]. cbn [gy_sys moved_to]. apply new_events_extends; [apply play_extends|apply play_inv, gy_inv].
  - intros w n evs w' [= <- <- <-]. pose proof (stopped_spec (script w) (gy_sys w) (gy_inv w)) as [[evs E] Hn].
    pose proof (stopped_inv (script w) (gy_sys w) (gy_inv w)) as Hi. rewrite Hn. unfold new_events. rewrite E, drop_app_length, length_app.
    split_and!; [|lia|].
    + pose proof (inv_events _ Hi) as HF. rewrite E in HF. apply (proj1 (Forall_app _ _ _) HF).
    + pose proof (inv_int _ Hi) as Hm. rewrite Hn, E, length_app in Hm. unfold int_ok, min_int64. lia.
  - done.
  - done.
Defined.

#[global] Instance gworld_good : GoodHost gworld.
Proof. split; [done|]. intros w. apply (hs_clock_ok (gy_host w)). Defined.

(** C35: the end-to-end guarantee, with the gateway's own model in the run.
    Whatever interleaving of door calls the agents produce in each step,
    whatever upstreams, runtimes, token endpoints and spawned children answer,
    and however late a call is when [Stop] runs: a run that opened its log and
    store, on a disk that does not fail, leaves a file that verifies, decodes
    to exactly the recorded events, and is judged complete. *)
Theorem gateway_run_is_audited (reg : Registry) (role workflow input : string) (invk : Invoker) (opts : Options)
    (oe : open_env) (disk : option string) (w : gworld) (r : Result) (e : option run_error) (st : state (W := gworld)) (renv : open_env)
    (Hsteps : forall wf, Workflow reg workflow = Some wf -> w_Steps wf <> [])
    (Hdepth : int_ok (b_Depth (root_binding invk role workflow "" (op_Parent opts))))
    (Hrun : Run reg role workflow input invk opts oe disk w = Some (r, e, Some st))
    (Hstore : forall t, e <> Some (EStoreOpen t))
    (Hread : open_ok renv = true /\ read_fault renv = false) :
  audited_complete renv st.
Proof. by eapply run_audited. Qed.
End world.

(** ** A concrete run over the gateway *)
#[local] Existing Instances toy_text toy_http.

Definition ex_host_script : host_script.
Proof.
  refine (MkHostScript (fun _ => ex_time) _ (fun _ => false) (fun _ => "abcdefgh") (fun _ => Ok ()) (fun _ body => Ok (sha256_hex body, body))).
  intros _. by vm_compute.
Defined.

(** In each step the agent runs a command and spawns a child; [Stop] finds
    both calls in flight. *)
Definition ex_step_script : step_script (R := toy_res) :=
  MkStepScript ex_start_env
    [AArrive (ex_http ex_exec_body) (DRun ex_exec_body); AArrive (ex_http ex_spawn_body) (DSpawn ex_spawn_body); AAdmit 1; AAdmit 0; AServe 1 ex_oracle]
    (MkStepResult "done" true "", None) [AServe 0 ex_oracle] ex_oracle ex_child false.

Definition ex_gworld : gworld (R := toy_res) :=
  MkGWorld ex_sys (inv_reachable (R := toy_res) ex_sys ex_reachable) (fun _ => ex_step_script) 0 ex_host_script 0.

Definition ex_grun : option (Result * option run_error * option (state (W := gworld (R := toy_res)))) :=
  Run ex_registry "dev" "main" "hi" toy_invoker toy_options ex_env None ex_gworld.

Definition grun_state (o : option (Result * option run_error * option (state (W := gworld (R := toy_res))))) : state (W := gworld (R := toy_res)) :=
  match o with Some (_, _, Some st) => st | _ => MkState (MkLog (MkChain "" Unlocked 0 "" 0 false false) []) None ex_gworld end.
Definition grun_status (o : option (Result * option run_error * option (state (W := gworld (R := toy_res))))) : string * bool :=
  match o with Some (r, None, Some _) => (res_Status r, true) | _ => ("", false) end.

Lemma ex_grun_ok : grun_status ex_grun = ("succeeded", true).
Proof. vm_compute. reflexivity. Qed.

Lemma grun_inv : exists r, ex_grun = Some (r, None, Some (grun_state ex_grun)).
Proof. pose proof ex_grun_ok as Hok. unfold grun_status, grun_state in *. destruct ex_grun as [[[r [x|]] [st|]]|]; try done. by exists r. Qed.

Lemma ex_depth : int_ok (b_Depth (root_binding toy_invoker "dev" "main" "" (op_Parent toy_options))).
Proof. by vm_compute. Qed.

Lemma gateway_run_is_audited_witness :
  audited_complete ex_env (grun_state ex_grun) /\
  length (filter (fun e => ev_Type e = "exec" \/ ev_Type e = "spawn") (l_hist (log (grun_state ex_grun)))) = 4%nat.
Proof.
  split; [|vm_compute; reflexivity]. destruct grun_inv as [r Hr].
  assert (Hall : forall st, ex_grun = Some (r, None, Some st) -> audited_complete ex_env st).
  { intros st Hst. unfold ex_grun in Hst.
    refine (gateway_run_is_audited (R := toy_res) ex_registry "dev" "main" "hi" toy_invoker toy_options ex_env None ex_gworld r None
      st ex_env ex_steps ex_depth Hst (fun t E => eq_ind None (fun o => match o with None => True | Some _ => False end) I _ E) (conj eq_refl eq_refl)). }
  exact (Hall _ Hr).
Defined.
