(* ===== verification/ControlRecord.v ===== *)
(** * Control records ([internal/control]: [event.go], [decode.go], [log.go]'s
      record and permits, [installing.go], [anchors.go], the sink block of
      [sink.go] and the seal permit of [seal.go])

    The control ledger records what changed the governance itself.  A record
    is one JSON line; [Append] (see [Segments]) admits it only through the
    structural permits of this file.  A [time.Time] is its RFC 3339 text, ""
    for the zero time, and is compared through [instant].  Message texts of
    errors are not modelled: an error is its cause. *)
From S2P Require Import Prelude Sha256 GoStr Json Paths Ledger Config Origin Event.

(** ** Data *)
Record Reason : Type := MkReason {
  rs_Code : string;
  rs_Message : string;
}.

Record Witness : Type := MkWitness {
  wt_OSUser : string;
  wt_Hostname : string;
}.

Record SealSink : Type := MkSink {
  sk_Kind : string;
  sk_URL : string;
  sk_Key : string;
  sk_Mode : string;
  sk_RetainUntil : string;
}.

Record Seal : Type := MkSeal {
  sl_Segment : Z;
  sl_FirstSeq : Z;
  sl_HeadSeq : Z;
  sl_HeadHash : string;
  sl_ContentSHA256 : string;
  sl_Sink : ptr SealSink;
}.

Record Anchor : Type := MkAnchor {
  an_RunID : string;
  an_Seq : Z;
  an_Hash : string;
  an_Kind : string;
  an_BackendKind : string;
  an_Backend : string;
  an_Ref : string;
  an_Proof : string;
  an_BackendKeyID : string;
}.

(** A control event as its callers build it; [V] is [Append]'s. *)
Record CEvent : Type := MkCEvent {
  ce_V : string;
  ce_Action : string;
  ce_Agent : string;
  ce_Outcome : string;
  ce_Reason : ptr Reason;
  ce_Invoker : Invoker;
  ce_AssertedAs : string;
  ce_Witness : Witness;
  ce_ConfigHash : string;
  ce_Bootstrap : bool;
  ce_FragmentLen : Z;
  ce_FragmentSHA : string;
  ce_Origin : ptr Origin;
  ce_Detail : string;
  ce_Anchor : ptr Anchor;
  ce_Seal : ptr Seal;
}.

(** The on-disk shape, in wire order. *)
Record record : Type := MkRecord {
  r_V : string;
  r_Seq : Z;
  r_Time : string;
  r_Action : string;
  r_Agent : string;
  r_Outcome : string;
  r_Reason : ptr Reason;
  r_Invoker : Invoker;
  r_AssertedAs : string;
  r_Witness : Witness;
  r_ConfigHash : string;
  r_Bootstrap : bool;
  r_FragmentLen : Z;
  r_FragmentSHA : string;
  r_Origin : ptr Origin;
  r_Detail : string;
  r_Anchor : ptr Anchor;
  r_Seal : ptr Seal;
  r_Prev : string;
  r_LogID : string;
}.

(** The reader's companion: no [prev], no [log_id]. *)
Record DecodedEvent : Type := MkDecoded {
  d_V : string;
  d_Seq : Z;
  d_Time : string;
  d_Action : string;
  d_Agent : string;
  d_Outcome : string;
  d_Reason : ptr Reason;
  d_Invoker : Invoker;
  d_AssertedAs : string;
  d_Witness : Witness;
  d_ConfigHash : string;
  d_Bootstrap : bool;
  d_FragmentLen : Z;
  d_FragmentSHA : string;
  d_Origin : ptr Origin;
  d_Detail : string;
  d_Anchor : ptr Anchor;
  d_Seal : ptr Seal;
}.

Definition zeroReason : Reason := MkReason "" "".
Definition zeroWitness : Witness := MkWitness "" "".
Definition zeroSink : SealSink := MkSink "" "" "" "" "".
Definition zeroSeal : Seal := MkSeal 0 0 0 "" "" None.
Definition zeroAnchor : Anchor := MkAnchor "" 0 "" "" "" "" "" "" "".
Definition zeroCEvent : CEvent := MkCEvent "" "" "" "" None zeroInvoker "" zeroWitness "" false 0 "" None "" None None.
Definition zeroRecord : record := MkRecord "" 0 "" "" "" "" None zeroInvoker "" zeroWitness "" false 0 "" None "" None None "" "".
Definition zeroDecoded : DecodedEvent := MkDecoded "" 0 "" "" "" "" None zeroInvoker "" zeroWitness "" false 0 "" None "" None None.

(** ** Times

    Nanoseconds since January 1 of year 1; [time.Time]'s parser keeps nine
    fractional digits. *)
Definition month_days (y m : Z) : Z :=
  foldr (fun k n => if k <? m then days_in y k + n else n) 0 [1; 2; 3; 4; 5; 6; 7; 8; 9; 10; 11; 12].
Definition day_number (y m d : Z) : Z :=
  365 * (y - 1) + (y - 1) / 4 - (y - 1) / 100 + (y - 1) / 400 + month_days y m + (d - 1).

Fixpoint frac_nanos (k : nat) (unit : Z) (l : list ascii) : Z :=
  match k, l with
  | S k', c :: r => match digit_val c with Some x => Z.of_N x * unit + frac_nanos k' (unit / 10) r | None => 0 end
  | _, _ => 0
  end.

Definition two_z (a b : ascii) : Z := default 0 (two_digits a b).

(** Seconds east of UTC. *)
Definition zone_seconds (l : list ascii) : Z :=
  match l with
  | [s; h1; h2; _; m1; m2] =>
      let z := 3600 * two_z h1 h2 + 60 * two_z m1 m2 in if ascii_eqb s "-"%char then - z else z
  | _ => 0
  end.

Definition instant (s : string) : Z :=
  match String.list_ascii_of_string s with
  | y1 :: y2 :: y3 :: y4 :: _ :: m1 :: m2 :: _ :: d1 :: d2 :: _ :: h1 :: h2 :: _ :: n1 :: n2 :: _ :: s1 :: s2 :: rest =>
      let '(nanos, zone) :=
        match rest with
        | p :: r => if ascii_eqb p "."%char then (frac_nanos 9 100000000 r, drop_digits r) else (0, rest)
        | [] => (0, [])
        end in
      let days := day_number (100 * two_z y1 y2 + two_z y3 y4) (two_z m1 m2) (two_z d1 d2) in
      (days * 86400 + 3600 * two_z h1 h2 + 60 * two_z n1 n2 + two_z s1 s2 - zone_seconds zone) * 1000000000 + nanos
  | _ => 0
  end.

Definition IsZero (t : string) : bool := instant t =? 0.
Definition After (t u : string) : bool := instant u <? instant t.

(** [time.Time.MarshalJSON] *)
Definition time_text (t : string) : string := if bool_decide (t = "") then "0001-01-01T00:00:00Z" else t.
Definition enc_time (t : string) : option json := Some (JStr (time_text t)).
Definition time_ok (t : string) : Prop := rfc3339_ok (time_text t) = true /\ valid_utf8 (time_text t) = true.

Example instants :
  map instant ["0001-01-01T00:00:00Z"; "1970-01-01T00:00:00Z"; "1970-01-01T01:00:00+01:00"; "2000-03-01T00:00:00.5Z"]
  = [0; 62135596800 * 10 ^ 9; 62135596800 * 10 ^ 9; (62135596800 + 951868800) * 10 ^ 9 + 5 * 10 ^ 8].
Proof. vm_compute. reflexivity. Qed.

(** ** The wire form *)
Definition enc_reason (r : Reason) : list (string * option json) :=
  [("code", enc_str (rs_Code r));
   ("message", enc_str (rs_Message r))].

Definition enc_witness (w : Witness) : list (string * option json) :=
  [("os_user", enc_str (wt_OSUser w));
   ("hostname", enc_str (wt_Hostname w))].

Definition enc_sink (s : SealSink) : list (string * option json) :=
  [("kind", enc_str (sk_Kind s));
   ("url", enc_str (sk_URL s));
   ("key", enc_str (sk_Key s));
   ("mode", enc_str (sk_Mode s));
   ("retain_until", enc_time (sk_RetainUntil s))].

Definition enc_seal (s : Seal) : list (string * option json) :=
  [("segment", enc_int (sl_Segment s));
   ("first_seq", enc_int (sl_FirstSeq s));
   ("head_seq", enc_int (sl_HeadSeq s));
   ("head_hash", enc_str (sl_HeadHash s));
   ("content_sha256", enc_str (sl_ContentSHA256 s));
   ("sink", enc_ptr enc_sink (sl_Sink s))].

Definition enc_anchor (a : Anchor) : list (string * option json) :=
  [("run_id", enc_str_oe (an_RunID a));
   ("seq", enc_int (an_Seq a));
   ("hash", enc_str (an_Hash a));
   ("kind", enc_str (an_Kind a));
   ("backend_kind", enc_str_oe (an_BackendKind a));
   ("backend", enc_str_oe (an_Backend a));
   ("ref", enc_str_oe (an_Ref a));
   ("proof", enc_str_oe (an_Proof a));
   ("backend_key_id", enc_str_oe (an_BackendKeyID a))].

Definition record_fields (r : record) : list (string * option json) :=
  [("v", enc_str (r_V r));
   ("seq", enc_int (r_Seq r));
   ("time", enc_time (r_Time r));
   ("action", enc_str (r_Action r));
   ("agent", enc_str_oe (r_Agent r));
   ("outcome", enc_str (r_Outcome r));
   ("reason", enc_ptr enc_reason (r_Reason r));
   ("invoker", enc_obj enc_invoker (r_Invoker r));
   ("asserted_as", enc_str_oe (r_AssertedAs r));
   ("witness", enc_obj enc_witness (r_Witness r));
   ("config_hash", enc_str_oe (r_ConfigHash r));
   ("bootstrap", enc_bool_oe (r_Bootstrap r));
   ("fragment_len", enc_int_oe (r_FragmentLen r));
   ("fragment_sha256", enc_str_oe (r_FragmentSHA r));
   ("origin", enc_ptr enc_origin (r_Origin r));
   ("detail", enc_str_oe (r_Detail r));
   ("anchor", enc_ptr enc_anchor (r_Anchor r));
   ("seal", enc_ptr enc_seal (r_Seal r));
   ("prev", enc_str (r_Prev r));
   ("log_id", enc_str_oe (r_LogID r))].

(** [json.Marshal(rec)] *)
Definition marshal_record (r : record) : string := marshal (JObj (omit (record_fields r))).
Arguments marshal_record : simpl never.

Definition dec_reason (fs : list (string * json)) (cur : Reason) : option Reason :=
  xCode ← dec_field (dec_str) (field_values "code" fs) (rs_Code cur);
  xMessage ← dec_field (dec_str) (field_values "message" fs) (rs_Message cur);
  Some (MkReason xCode xMessage).

Definition dec_witness (fs : list (string * json)) (cur : Witness) : option Witness :=
  xOSUser ← dec_field (dec_str) (field_values "os_user" fs) (wt_OSUser cur);
  xHostname ← dec_field (dec_str) (field_values "hostname" fs) (wt_Hostname cur);
  Some (MkWitness xOSUser xHostname).

Definition dec_sink (fs : list (string * json)) (cur : SealSink) : option SealSink :=
  xKind ← dec_field (dec_str) (field_values "kind" fs) (sk_Kind cur);
  xURL ← dec_field (dec_str) (field_values "url" fs) (sk_URL cur);
  xKey ← dec_field (dec_str) (field_values "key" fs) (sk_Key cur);
  xMode ← dec_field (dec_str) (field_values "mode" fs) (sk_Mode cur);
  xRetainUntil ← dec_field (dec_time) (field_values "retain_until" fs) (sk_RetainUntil cur);
  Some (MkSink xKind xURL xKey xMode xRetainUntil).

Definition dec_seal (fs : list (string * json)) (cur : Seal) : option Seal :=
  xSegment ← dec_field (dec_int) (field_values "segment" fs) (sl_Segment cur);
  xFirstSeq ← dec_field (dec_int) (field_values "first_seq" fs) (sl_FirstSeq cur);
  xHeadSeq ← dec_field (dec_int) (field_values "head_seq" fs) (sl_HeadSeq cur);
  xHeadHash ← dec_field (dec_str) (field_values "head_hash" fs) (sl_HeadHash cur);
  xContentSHA256 ← dec_field (dec_str) (field_values "content_sha256" fs) (sl_ContentSHA256 cur);
  xSink ← dec_field (dec_ptr dec_sink zeroSink) (field_values "sink" fs) (sl_Sink cur);
  Some (MkSeal xSegment xFirstSeq xHeadSeq xHeadHash xContentSHA256 xSink).

Definition dec_anchor (fs : list (string * json)) (cur : Anchor) : option Anchor :=
  xRunID ← dec_field (dec_str) (field_values "run_id" fs) (an_RunID cur);
  xSeq ← dec_field (dec_int) (field_values "seq" fs) (an_Seq cur);
  xHash ← dec_field (dec_str) (field_values "hash" fs) (an_Hash cur);
  xKind ← dec_field (dec_str) (field_values "kind" fs) (an_Kind cur);
  xBackendKind ← dec_field (dec_str) (field_values "backend_kind" fs) (an_BackendKind cur);
  xBackend ← dec_field (dec_str) (field_values "backend" fs) (an_Backend cur);
  xRef ← dec_field (dec_str) (field_values "ref" fs) (an_Ref cur);
  xProof ← dec_field (dec_str) (field_values "proof" fs) (an_Proof cur);
  xBackendKeyID ← dec_field (dec_str) (field_values "backend_key_id" fs) (an_BackendKeyID cur);
  Some (MkAnchor xRunID xSeq xHash xKind xBackendKind xBackend xRef xProof xBackendKeyID).

Definition dec_record (fs : list (string * json)) (cur : record) : option record :=
  xV ← dec_field (dec_str) (field_values "v" fs) (r_V cur);
  xSeq ← dec_field (dec_int) (field_values "seq" fs) (r_Seq cur);
  xTime ← dec_field (dec_time) (field_values "time" fs) (r_Time cur);
  xAction ← dec_field (dec_str) (field_values "action" fs) (r_Action cur);
  xAgent ← dec_field (dec_str) (field_values "agent" fs) (r_Agent cur);
  xOutcome ← dec_field (dec_str) (field_values "outcome" fs) (r_Outcome cur);
  xReason ← dec_field (dec_ptr dec_reason zeroReason) (field_values "reason" fs) (r_Reason cur);
  xInvoker ← dec_field (dec_obj dec_invoker) (field_values "invoker" fs) (r_Invoker cur);
  xAssertedAs ← dec_field (dec_str) (field_values "asserted_as" fs) (r_AssertedAs cur);
  xWitness ← dec_field (dec_obj dec_witness) (field_values "witness" fs) (r_Witness cur);
  xConfigHash ← dec_field (dec_str) (field_values "config_hash" fs) (r_ConfigHash cur);
  xBootstrap ← dec_field (dec_bool) (field_values "bootstrap" fs) (r_Bootstrap cur);
  xFragmentLen ← dec_field (dec_int) (field_values "fragment_len" fs) (r_FragmentLen cur);
  xFragmentSHA ← dec_field (dec_str) (field_values "fragment_sha256" fs) (r_FragmentSHA cur);
  xOrigin ← dec_field (dec_ptr dec_origin zeroOrigin) (field_values "origin" fs) (r_Origin cur);
  xDetail ← dec_field (dec_str) (field_values "detail" fs) (r_Detail cur);
  xAnchor ← dec_field (dec_ptr dec_anchor zeroAnchor) (field_values "anchor" fs) (r_Anchor cur);
  xSeal ← dec_field (dec_ptr dec_seal zeroSeal) (field_values "seal" fs) (r_Seal cur);
  xPrev ← dec_field (dec_str) (field_values "prev" fs) (r_Prev cur);
  xLogID ← dec_field (dec_str) (field_values "log_id" fs) (r_LogID cur);
  Some (MkRecord xV xSeq xTime xAction xAgent xOutcome xReason xInvoker xAssertedAs xWitness xConfigHash xBootstrap xFragmentLen xFragmentSHA xOrigin xDetail xAnchor xSeal xPrev xLogID).

Definition dec_decoded (fs : list (string * json)) (cur : DecodedEvent) : option DecodedEvent :=
  xV ← dec_field (dec_str) (field_values "v" fs) (d_V cur);
  xSeq ← dec_field (dec_int) (field_values "seq" fs) (d_Seq cur);
  xTime ← dec_field (dec_time) (field_values "time" fs) (d_Time cur);
  xAction ← dec_field (dec_str) (field_values "action" fs) (d_Action cur);
  xAgent ← dec_field (dec_str) (field_values "agent" fs) (d_Agent cur);
  xOutcome ← dec_field (dec_str) (field_values "outcome" fs) (d_Outcome cur);
  xReason ← dec_field (dec_ptr dec_reason zeroReason) (field_values "reason" fs) (d_Reason cur);
  xInvoker ← dec_field (dec_obj dec_invoker) (field_values "invoker" fs) (d_Invoker cur);
  xAssertedAs ← dec_field (dec_str) (field_values "asserted_as" fs) (d_AssertedAs cur);
  xWitness ← dec_field (dec_obj dec_witness) (field_values "witness" fs) (d_Witness cur);
  xConfigHash ← dec_field (dec_str) (field_values "config_hash" fs) (d_ConfigHash cur);
  xBootstrap ← dec_field (dec_bool) (field_values "bootstrap" fs) (d_Bootstrap cur);
  xFragmentLen ← dec_field (dec_int) (field_values "fragment_len" fs) (d_FragmentLen cur);
  xFragmentSHA ← dec_field (dec_str) (field_values "fragment_sha256" fs) (d_FragmentSHA cur);
  xOrigin ← dec_field (dec_ptr dec_origin zeroOrigin) (field_values "origin" fs) (d_Origin cur);
  xDetail ← dec_field (dec_str) (field_values "detail" fs) (d_Detail cur);
  xAnchor ← dec_field (dec_ptr dec_anchor zeroAnchor) (field_values "anchor" fs) (d_Anchor cur);
  xSeal ← dec_field (dec_ptr dec_seal zeroSeal) (field_values "seal" fs) (d_Seal cur);
  Some (MkDecoded xV xSeq xTime xAction xAgent xOutcome xReason xInvoker xAssertedAs xWitness xConfigHash xBootstrap xFragmentLen xFragmentSHA xOrigin xDetail xAnchor xSeal).

(** [decodeRecord] *)
Definition decodeRecord (raw : string) : option record :=
  match parse_json raw with Some v => dec_obj dec_record v zeroRecord | None => None end.

(** [Decode] *)
Definition Decode (raw : string) : option DecodedEvent :=
  match parse_json raw with Some v => dec_obj dec_decoded v zeroDecoded | None => None end.

(** ** Permits

    The rules a record must meet before the ledger is opened, in the code's
    order; the first broken one is the error. *)
Inductive permit_error : Type :=
  | AnchorOnOther (action : string)
  | AnchorSaysNothing
  | RefusedAnchorCovers
  | AnchorConfigHash
  | AnchorHashShape (hash : string)
  | AnchorRunIDShape (runID : string)
  | AnchorProofCap (len : Z)
  | AnchorFieldCap (name : string) (len : Z)
  | AnchorIncomplete (field : string)
  | AnchorKindUnknown (kind : string)
  | AnchorBeyondChain (seq count : Z)
  | SealOnOther (action : string)
  | SealSaysNothing
  | RefusedSealCloses
  | SealCarriesMore
  | SealHashShape
  | SealNumbersMalformed
  | SinkKindEmpty
  | SinkURLBad (url : string)
  | SinkKeyBad (key : string)
  | SinkModeBad (mode : string)
  | SinkRetainUnset
  | SealSegment (named active : Z)
  | SealFirstSeq (named active : Z)
  | SealHeadSeq (named active : Z)
  | SealHeadHash (named active : string)
  | SealContent (named active : string)
  | RestoreNotSuccess
  | RestoreCarriesMore
  | RestoreSaysNothing
  | ReasonRequired (outcome : string).

Definition MaxAnchorProofLen : Z := 8192.
Definition MaxAnchorRefLen : Z := 256.
Definition MaxAnchorBackendLen : Z := 2048.
Definition MaxAnchorBackendKindLen : Z := 64.
Definition MaxAnchorBackendKeyIDLen : Z := 128.
Definition MaxSinkKeyLen : Z := 1024.

Definition str_len (s : string) : Z := Z.of_nat (String.length s).
Definition anchorHashRE (s : string) : bool := lower_hex_of_len 64 s.
Definition genesisLogIDRE (s : string) : bool := lower_hex_of_len 32 s.
Definition runIDRE (s : string) : bool :=
  match cut_prefix "r-" s with Some h => lower_hex_of_len 16 h | None => false end.

Fixpoint over_cap (fs : list (string * string * Z)) : option permit_error :=
  match fs with
  | [] => None
  | (name, value, cap) :: r => if cap <? str_len value then Some (AnchorFieldCap name (str_len value)) else over_cap r
  end.

(** What a successful anchor must carry. *)
Definition anchor_complete (a : Anchor) : option permit_error :=
  if bool_decide (an_Kind a = "") then Some (AnchorIncomplete "kind")
  else if negb (bool_decide (an_Kind a = "tlog")) && negb (bool_decide (an_Kind a = "signed")) then Some (AnchorKindUnknown (an_Kind a))
  else if bool_decide (an_BackendKind a = "") then Some (AnchorIncomplete "backend_kind")
  else if bool_decide (an_Backend a = "") then Some (AnchorIncomplete "backend")
  else if bool_decide (an_Ref a = "") then Some (AnchorIncomplete "ref")
  else if bool_decide (an_Proof a = "") && bool_decide (an_RunID a = "") then Some (AnchorIncomplete "proof")
  else None.

Definition checkAnchorShape (e : CEvent) : option permit_error :=
  if is_Some_b (ce_Anchor e) && negb (bool_decide (ce_Action e = "anchor")) then Some (AnchorOnOther (ce_Action e))
  else if negb (bool_decide (ce_Action e = "anchor")) then None
  else if bool_decide (ce_Outcome e = "success") && negb (is_Some_b (ce_Anchor e)) then Some AnchorSaysNothing
  else if bool_decide (ce_Outcome e = "refused") && is_Some_b (ce_Anchor e) then Some RefusedAnchorCovers
  else if negb (bool_decide (ce_ConfigHash e = "")) then Some AnchorConfigHash
  else
    match ce_Anchor e with
    | None => None
    | Some a =>
        if negb (anchorHashRE (an_Hash a)) then Some (AnchorHashShape (an_Hash a))
        else if negb (bool_decide (an_RunID a = "")) && negb (runIDRE (an_RunID a)) then Some (AnchorRunIDShape (an_RunID a))
        else if MaxAnchorProofLen <? str_len (an_Proof a) then Some (AnchorProofCap (str_len (an_Proof a)))
        else
          match over_cap [("ref", an_Ref a, MaxAnchorRefLen); ("backend", an_Backend a, MaxAnchorBackendLen);
                          ("backend_kind", an_BackendKind a, MaxAnchorBackendKindLen);
                          ("backend_key_id", an_BackendKeyID a, MaxAnchorBackendKeyIDLen)] with
          | Some err => Some err
          | None => if bool_decide (ce_Outcome e = "success") then anchor_complete a else None
          end
    end.

Definition checkAnchorCoverage (a : ptr Anchor) (count : Z) : option permit_error :=
  match a with
  | Some a => if bool_decide (an_RunID a = "") && ((an_Seq a <? 1) || (count <? an_Seq a)) then Some (AnchorBeyondChain (an_Seq a) count) else None
  | None => None
  end.

(** What [url.Parse] is read for: [net/url] is not modelled. *)
Record url_parts : Type := MkURL {
  u_Scheme : string; u_Host : string; u_User : bool; u_RawQuery : string; u_ForceQuery : bool; u_Fragment : string; u_Path : string;
}.
Class GoURL := { parse_url : string -> option url_parts }.

Fixpoint all_slashes (s : string) : bool :=
  match s with EmptyString => true | String c r => ascii_eqb c slash && all_slashes r end.

Section permits.
  Context `{GoURL}.

(** [strings.Trim(path, "/") != ""] is that some byte is not a slash. *)
Definition sinkURLOK (s : string) : bool :=
  match parse_url s with
  | None => false
  | Some u =>
      (bool_decide (u_Scheme u = "http") || bool_decide (u_Scheme u = "https")) && negb (bool_decide (u_Host u = "")) &&
      negb (u_User u) && bool_decide (u_RawQuery u = "") && negb (u_ForceQuery u) && bool_decide (u_Fragment u = "") &&
      negb (all_slashes (u_Path u))
  end.

Definition checkSealSink (s : ptr SealSink) : option permit_error :=
  match s with
  | None => None
  | Some s =>
      if bool_decide (sk_Kind s = "") then Some SinkKindEmpty
      else if negb (sinkURLOK (sk_URL s)) || (MaxAnchorBackendLen <? str_len (sk_URL s)) then Some (SinkURLBad (sk_URL s))
      else if bool_decide (sk_Key s = "") || has_prefix (sk_Key s) "/" || (MaxSinkKeyLen <? str_len (sk_Key s)) ||
              contains (split_on slash (sk_Key s)) ".." then Some (SinkKeyBad (sk_Key s))
      else if negb (bool_decide (sk_Mode s = "compliance")) then Some (SinkModeBad (sk_Mode s))
      else if IsZero (sk_RetainUntil s) then Some SinkRetainUnset
      else None
  end.

Definition checkSealShape (e : CEvent) : option permit_error :=
  if is_Some_b (ce_Seal e) && negb (bool_decide (ce_Action e = "seal")) then Some (SealOnOther (ce_Action e))
  else if negb (bool_decide (ce_Action e = "seal")) then None
  else if bool_decide (ce_Outcome e = "success") && negb (is_Some_b (ce_Seal e)) then Some SealSaysNothing
  else if negb (bool_decide (ce_Outcome e = "success")) && is_Some_b (ce_Seal e) then Some RefusedSealCloses
  else if negb (bool_decide (ce_ConfigHash e = "")) || is_Some_b (ce_Anchor e) || negb (bool_decide (ce_Detail e = "")) then Some SealCarriesMore
  else
    match ce_Seal e with
    | None => None
    | Some s =>
        if negb (anchorHashRE (sl_HeadHash s)) || negb (anchorHashRE (sl_ContentSHA256 s)) then Some SealHashShape
        else if (sl_Segment s <? 1) || (sl_FirstSeq s <? 1) || (sl_HeadSeq s <? sl_FirstSeq s) then Some SealNumbersMalformed
        else checkSealSink (sl_Sink s)
    end.

Definition checkRestoreShape (e : CEvent) : option permit_error :=
  if negb (bool_decide (ce_Action e = "restore")) then None
  else if negb (bool_decide (ce_Outcome e = "success")) then Some RestoreNotSuccess
  else if negb (bool_decide (ce_ConfigHash e = "")) || is_Some_b (ce_Anchor e) || is_Some_b (ce_Seal e) ||
          negb (ce_FragmentLen e =? 0) || negb (bool_decide (ce_FragmentSHA e = "")) then Some RestoreCarriesMore
  else if bool_decide (ce_Detail e = "") then Some RestoreSaysNothing
  else None.

(** The permits [Append] applies before it opens anything. *)
Definition permit (e : CEvent) : option permit_error :=
  match checkAnchorShape e with
  | Some err => Some err
  | None =>
      match checkSealShape e with
      | Some err => Some err
      | None =>
          match checkRestoreShape e with
          | Some err => Some err
          | None =>
              if negb (bool_decide (ce_Outcome e = "success")) && negb (is_Some_b (ce_Reason e)) then Some (ReasonRequired (ce_Outcome e)) else None
          end
      end
  end.
End permits.

(** ** Readers of a verified chain *)
Definition Installing (e : DecodedEvent) : bool :=
  bool_decide (d_Outcome e = "success") && negb (bool_decide (d_ConfigHash e = "")) &&
  (bool_decide (d_Action e = "apply") || bool_decide (d_Action e = "vouch") ||
   (bool_decide (d_Action e = "enable") || bool_decide (d_Action e = "disable")) && negb (d_Bootstrap e)).

Definition last_installing (acc : option DecodedEvent) (raw : string) : option DecodedEvent :=
  match Decode raw with Some d => if Installing d then Some d else acc | None => acc end.
Definition LastInstalling (records : list string) : option DecodedEvent := foldl last_installing None records.

(** [IsTainted]: the seq of the first repair record. *)
Fixpoint IsTainted (records : list string) : option Z :=
  match records with
  | [] => None
  | r :: rest =>
      match decodeRecord r with
      | Some rec => if bool_decide (r_Action rec = "repair") then Some (r_Seq rec) else IsTainted rest
      | None => IsTainted rest
      end
  end.

Inductive mismatch : Type :=
  | NoCoverage
  | HashNotHex
  | NotBefore (seq recordSeq : Z)
  | NotReproduced (seq : Z) (chainHash recorded : string).

Record AnchorCheck : Type := MkAnchorCheck { ac_RecordSeq : Z; ac_Anchor : ptr Anchor; ac_Mismatch : option mismatch }.

(** The verdict on one anchor; [records] is the whole chain. *)
Definition anchor_verdict (records : list string) (seq : Z) (a : ptr Anchor) : option mismatch :=
  match a with
  | None => Some NoCoverage
  | Some a =>
      if negb (anchorHashRE (an_Hash a)) then Some HashNotHex
      else if (an_Seq a <? 1) || (seq <=? an_Seq a) || (Z.of_nat (length records) <? an_Seq a) then Some (NotBefore (an_Seq a) seq)
      else
        let got := sha256_hex (nth (Z.to_nat (an_Seq a - 1)) records "") in
        if bool_decide (got = an_Hash a) then None else Some (NotReproduced (an_Seq a) got (an_Hash a))
  end.

Definition check_anchor (records : list string) (raw : string) : option AnchorCheck :=
  match decodeRecord raw with
  | None => None
  | Some rec =>
      if negb (bool_decide (r_Action rec = "anchor")) || negb (bool_decide (r_Outcome rec = "success")) then None
      else match r_Anchor rec with
           | Some a => if negb (bool_decide (an_RunID a = "")) then None
                       else Some (MkAnchorCheck (r_Seq rec) (Some a) (anchor_verdict records (r_Seq rec) (Some a)))
           | None => Some (MkAnchorCheck (r_Seq rec) None (anchor_verdict records (r_Seq rec) None))
           end
  end.
Definition CheckAnchors (records : list string) : list AnchorCheck := omap (check_anchor records) records.

Definition dec_log_id (fs : list (string * json)) (cur : string) : option string :=
  dec_field dec_str (field_values "log_id" fs) cur.

Definition GenesisLogID (records : list string) : option string :=
  match records with
  | [] => None
  | r :: _ =>
      match parse_json r with
      | Some v => match dec_obj dec_log_id v "" with
                  | Some id => if genesisLogIDRE id then Some id else None
                  | None => None
                  end
      | None => None
      end
  end.

Definition IsLogID (s : string) : bool := genesisLogIDRE s.

(** ** What a reader gets back *)
Definition san_reason (r : Reason) : Reason :=
  MkReason (to_valid (rs_Code r))
    (to_valid (rs_Message r)).
Definition san_witness (w : Witness) : Witness :=
  MkWitness (to_valid (wt_OSUser w))
    (to_valid (wt_Hostname w)).
Definition san_sink (s : SealSink) : SealSink :=
  MkSink (to_valid (sk_Kind s))
    (to_valid (sk_URL s))
    (to_valid (sk_Key s))
    (to_valid (sk_Mode s))
    (time_text (sk_RetainUntil s)).
Definition san_seal (s : Seal) : Seal :=
  MkSeal (sl_Segment s)
    (sl_FirstSeq s)
    (sl_HeadSeq s)
    (to_valid (sl_HeadHash s))
    (to_valid (sl_ContentSHA256 s))
    (san_sink <$> sl_Sink s).
Definition san_anchor (a : Anchor) : Anchor :=
  MkAnchor (to_valid (an_RunID a))
    (an_Seq a)
    (to_valid (an_Hash a))
    (to_valid (an_Kind a))
    (to_valid (an_BackendKind a))
    (to_valid (an_Backend a))
    (to_valid (an_Ref a))
    (to_valid (an_Proof a))
    (to_valid (an_BackendKeyID a)).

Definition san_record (r : record) : record :=
  MkRecord (to_valid (r_V r))
    (r_Seq r)
    (time_text (r_Time r))
    (to_valid (r_Action r))
    (to_valid (r_Agent r))
    (to_valid (r_Outcome r))
    (san_reason <$> r_Reason r)
    (san_invoker (r_Invoker r))
    (to_valid (r_AssertedAs r))
    (san_witness (r_Witness r))
    (to_valid (r_ConfigHash r))
    (r_Bootstrap r)
    (r_FragmentLen r)
    (to_valid (r_FragmentSHA r))
    (san_origin <$> r_Origin r)
    (to_valid (r_Detail r))
    (san_anchor <$> r_Anchor r)
    (san_seal <$> r_Seal r)
    (to_valid (r_Prev r))
    (to_valid (r_LogID r)).

Definition sink_ok (p : ptr SealSink) : Prop := match p with Some s => time_ok (sk_RetainUntil s) | None => True end.
Definition seal_ok (p : ptr Seal) : Prop :=
  match p with Some s => int_ok (sl_Segment s) /\ int_ok (sl_FirstSeq s) /\ int_ok (sl_HeadSeq s) /\ sink_ok (sl_Sink s) | None => True end.
Definition anchor_ok (p : ptr Anchor) : Prop := match p with Some a => int_ok (an_Seq a) | None => True end.

(** The records a Go program can hold. *)
Record record_ok (r : record) : Prop := {
  rok_seq : int_ok (r_Seq r);
  rok_time : time_ok (r_Time r);
  rok_fragment : int_ok (r_FragmentLen r);
  rok_anchor : anchor_ok (r_Anchor r);
  rok_seal : seal_ok (r_Seal r);
}.

(** *** The round trip *)
Lemma rt_enc_time t cur : time_ok t -> dec_field dec_time (map coerce (opt_list (enc_time t))) cur = Some (time_text t).
Proof. intros [Ht Hv]. cbn. rewrite to_valid_id by done. by rewrite Ht. Qed.
Lemma rt_bool b : dec_field dec_bool (map coerce (opt_list (enc_bool_oe b))) false = Some b.
Proof. by destruct b. Qed.
#[export] Hint Resolve rt_enc_time rt_bool : go.

Lemma reason_keys r : NoDup (map (fun kv => fold_key kv.1) (enc_reason r)).
Proof. apply (bool_decide_unpack _). vm_compute. exact I. Qed.
Lemma witness_keys w : NoDup (map (fun kv => fold_key kv.1) (enc_witness w)).
Proof. apply (bool_decide_unpack _). vm_compute. exact I. Qed.
Lemma sink_keys s : NoDup (map (fun kv => fold_key kv.1) (enc_sink s)).
Proof. apply (bool_decide_unpack _). vm_compute. exact I. Qed.
Lemma seal_keys s : NoDup (map (fun kv => fold_key kv.1) (enc_seal s)).
Proof. apply (bool_decide_unpack _). vm_compute. exact I. Qed.
Lemma anchor_keys a : NoDup (map (fun kv => fold_key kv.1) (enc_anchor a)).
Proof. apply (bool_decide_unpack _). vm_compute. exact I. Qed.
Lemma record_keys r : NoDup (map (fun kv => fold_key kv.1) (record_fields r)).
Proof. apply (bool_decide_unpack _). vm_compute. exact I. Qed.

Lemma rt_reason r : dec_reason (coerce_fields (omit (enc_reason r))) zeroReason = Some (san_reason r).
Proof. unfold dec_reason. decode_fields (reason_keys r). Qed.
Lemma rt_witness w : dec_witness (coerce_fields (omit (enc_witness w))) zeroWitness = Some (san_witness w).
Proof. unfold dec_witness. decode_fields (witness_keys w). Qed.
Lemma rt_sink s : time_ok (sk_RetainUntil s) -> dec_sink (coerce_fields (omit (enc_sink s))) zeroSink = Some (san_sink s).
Proof. intros Ht. unfold dec_sink. decode_fields (sink_keys s). Qed.
Lemma rt_anchor a : int_ok (an_Seq a) -> dec_anchor (coerce_fields (omit (enc_anchor a))) zeroAnchor = Some (san_anchor a).
Proof. intros Hs. unfold dec_anchor. decode_fields (anchor_keys a). Qed.

Lemma rt_seal_sink p : sink_ok p ->
  dec_field (dec_ptr dec_sink zeroSink) (map coerce (opt_list (enc_ptr enc_sink p))) None = Some (san_sink <$> p).
Proof. intros Hp. apply rt_ptr. intros s ->. by apply rt_sink. Qed.
#[local] Hint Resolve rt_seal_sink : go.

Lemma rt_seal s : seal_ok (Some s) -> dec_seal (coerce_fields (omit (enc_seal s))) zeroSeal = Some (san_seal s).
Proof. intros (H1 & H2 & H3 & H4). unfold dec_seal. decode_fields (seal_keys s). Qed.

Lemma rt_record_reason p :
  dec_field (dec_ptr dec_reason zeroReason) (map coerce (opt_list (enc_ptr enc_reason p))) None = Some (san_reason <$> p).
Proof. apply rt_ptr. intros r _. apply rt_reason. Qed.
Lemma rt_record_witness w :
  dec_field (dec_obj dec_witness) (map coerce (opt_list (enc_obj enc_witness w))) zeroWitness = Some (san_witness w).
Proof. apply rt_obj, rt_witness. Qed.
Lemma rt_record_invoker i :
  dec_field (dec_obj dec_invoker) (map coerce (opt_list (enc_obj enc_invoker i))) zeroInvoker = Some (san_invoker i).
Proof. apply rt_obj, rt_invoker. Qed.
Lemma rt_record_anchor p : anchor_ok p ->
  dec_field (dec_ptr dec_anchor zeroAnchor) (map coerce (opt_list (enc_ptr enc_anchor p))) None = Some (san_anchor <$> p).
Proof. intros Hp. apply rt_ptr. intros a ->. by apply rt_anchor. Qed.
Lemma rt_record_seal p : seal_ok p ->
  dec_field (dec_ptr dec_seal zeroSeal) (map coerce (opt_list (enc_ptr enc_seal p))) None = Some (san_seal <$> p).
Proof. intros Hp. apply rt_ptr. intros s ->. by apply rt_seal. Qed.
#[local] Hint Resolve rt_record_reason rt_record_witness rt_record_invoker rt_record_anchor rt_record_seal rt_event_origin : go.

Lemma rt_record r : record_ok r -> dec_record (coerce_fields (omit (record_fields r))) zeroRecord = Some (san_record r).
Proof. intros []. unfold dec_record. decode_fields (record_keys r). Qed.

(** *** One well-formed line *)
Lemma wf_time d t : 0 <= d -> wf_opt d (enc_time t).
Proof. by split. Qed.
Lemma wf_bool d b : 0 <= d -> wf_opt d (enc_bool_oe b).
Proof. by destruct b. Qed.
#[export] Hint Resolve wf_time wf_bool : go.
#[local] Hint Extern 1 (_ <= _) => lia : go.

Lemma wf_sink s : wf_fields 0 (enc_sink s).
Proof. wf_struct. Qed.
Lemma wf_seal s : wf_fields 1 (enc_seal s).
Proof. wf_struct. apply wf_ptr; [lia|]. intros. apply wf_sink. Qed.
Lemma wf_anchor d a : 0 <= d -> wf_fields d (enc_anchor a).
Proof. intros. wf_struct. Qed.
Lemma wf_reason d r : 0 <= d -> wf_fields d (enc_reason r).
Proof. intros. wf_struct. Qed.
Lemma wf_witness d w : 0 <= d -> wf_fields d (enc_witness w).
Proof. intros. wf_struct. Qed.

Lemma wf_record r : wf_fields 2 (record_fields r).
Proof.
  wf_struct; first [apply wf_ptr; [lia|]; intros | apply wf_obj; [lia|]];
    first [apply wf_seal | apply wf_invoker | apply wf_anchor; lia | apply wf_reason; lia | apply wf_witness; lia | apply wf_origin; lia].
Qed.

Lemma wf_record_obj r : wf_json (JObj (omit (record_fields r))) /\ depth_of (JObj (omit (record_fields r))) <= max_depth.
Proof. destruct (wf_omit 2 (record_fields r)) as [H1 H2]; [lia|apply wf_record|]. unfold max_depth. split; [done|lia]. Qed.

Lemma parse_marshal_record r : parse_json (marshal_record r) = Some (JObj (coerce_fields (omit (record_fields r)))).
Proof. destruct (wf_record_obj r) as [H1 H2]. exact (parse_print _ H1 H2). Qed.

Lemma marshal_record_no_nl r : no_nl (marshal_record r).
Proof. destruct (wf_record_obj r) as [H1 _]. unfold no_nl, marshal_record, marshal. exact (print_nl _ EmptyString H1). Qed.

Lemma decode_marshal_record r : record_ok r -> decodeRecord (marshal_record r) = Some (san_record r).
Proof. intros H. unfold decodeRecord. rewrite parse_marshal_record. exact (rt_record r H). Qed.

(** The chain fields of a control line. *)
Lemma record_line_fields r : 0 <= r_Seq r < two64 ->
  parseLineFields (marshal_record r) = Some (MkLF (Some (to_valid (r_Prev r))) (Some (r_Seq r))).
Proof.
  intros Hs. unfold parseLineFields. rewrite parse_marshal_record, !field_values_coerce.
  rewrite (field_values_omit (record_fields r) "prev" (enc_str (r_Prev r)) (record_keys r)) by find_field.
  rewrite (field_values_omit (record_fields r) "seq" (enc_int (r_Seq r)) (record_keys r)) by find_field.
  cbn. by rewrite parse_uint64_itoa.
Qed.

Strategy 1000 [marshal_record].

(** ** Anchors *)

(** The position [n] of a chain has the hash [h]. *)
Definition head_at (records : list string) (n : Z) (h : string) : Prop :=
  1 <= n <= Z.of_nat (length records) /\ sha256_hex (nth (Z.to_nat (n - 1)) records "") = h.

Arguments anchor_verdict : simpl never.

Lemma anchor_verdict_none records seq a :
  anchor_verdict records seq a = None <->
  exists x, a = Some x /\ anchorHashRE (an_Hash x) = true /\ an_Seq x < seq /\ head_at records (an_Seq x) (an_Hash x).
Proof.
  unfold anchor_verdict, head_at. destruct a as [x|]; [|naive_solver]. split.
  - destruct (anchorHashRE (an_Hash x)) eqn:Eh; cbn [negb]; [|done]. destruct (_ || _) eqn:E; [done|]. bool_prop.
    case_bool_decide; [|done]. intros _. exists x. split_and!; try done; lia.
  - intros (? & [= <-] & -> & Hlt & Hn & Hh). cbn [negb].
    rewrite (proj2 (Z.ltb_ge _ _)), (proj2 (Z.leb_gt _ _)), (proj2 (Z.ltb_ge _ _)) by lia. by rewrite bool_decide_true.
Qed.

Lemma head_at_app records more n h : head_at records n h -> head_at (records ++ more) n h.
Proof. intros [Hn Hh]. split; [rewrite length_app; lia|]. rewrite app_nth1 by lia. done. Qed.

(** The chain up to a position ends in that position's hash. *)
Lemma head_at_chain b e s records p e' s' n h :
  chain b 0 "" e s records p e' s' -> head_at records n h ->
  exists e1 s1, chain b 0 "" e s (take (Z.to_nat n) records) h e1 s1.
Proof.
  intros Hc [Hn Hh]. rewrite <- (take_drop (Z.to_nat n) records) in Hc. apply chain_app_inv in Hc as (p1 & e1 & s1 & Hc & _).
  exists e1, s1. replace h with p1; [done|]. rewrite <- Hh.
  assert (take (Z.to_nat n) records = take (Z.to_nat (n - 1)) records ++ [nth (Z.to_nat (n - 1)) records ""]) as Ht.
  { replace (Z.to_nat n) with (S (Z.to_nat (n - 1))) by lia. apply take_S_r.
    rewrite nth_lookup. by destruct (lookup_lt_is_Some_2 records (Z.to_nat (n - 1)) ltac:(lia)) as [x ->]. }
  rewrite Ht in Hc. by apply chain_snoc_inv in Hc as (_ & _ & _ & _ & -> & _).
Qed.

Lemma check_anchor_app records more raw c :
  check_anchor records raw = Some c -> ac_Mismatch c = None -> check_anchor (records ++ more) raw = Some c.
Proof.
  unfold check_anchor. destruct (decodeRecord raw) as [rec|]; [|done]. destruct (_ || _); [done|].
  assert (Hv : forall a, anchor_verdict records (r_Seq rec) a = None -> anchor_verdict (records ++ more) (r_Seq rec) a = None).
  { intros a (x & -> & ? & ? & ?)%anchor_verdict_none. apply anchor_verdict_none. exists x. eauto using head_at_app. }
  destruct (r_Anchor rec) as [a|].
  - destruct (negb _); [done|]. intros [= <-]. cbn [ac_Mismatch]. intros Hn. by rewrite (Hv (Some a) Hn), Hn.
  - by intros [= <-].
Qed.

Lemma check_anchor_head records raw c :
  check_anchor records raw = Some c -> ac_Mismatch c = None ->
  exists a, ac_Anchor c = Some a /\ head_at records (an_Seq a) (an_Hash a).
Proof.
  unfold check_anchor. destruct (decodeRecord raw) as [rec|]; [|done]. destruct (_ || _); [done|].
  destruct (r_Anchor rec) as [a|].
  - destruct (negb _); [done|]. intros [= <-]. cbn [ac_Mismatch ac_Anchor]. intros (x & [= <-] & _ & _ & Hh)%anchor_verdict_none. by exists a.
  - by intros [= <-].
Qed.

(** An anchor pins the history before it.  A verified anchor stays
    verified however the chain grows; and two verified control ledgers that
    both reproduce an anchor of the same head hash have the same records up to
    that head, the same number of them included, or they exhibit two different
    records with one SHA-256 digest.  So whoever holds the anchored hash
    detects any rewrite of what it covers. *)
Theorem anchor_pins_history (d1 d2 : string) (l1 l2 : loaded) (c1 c2 : AnchorCheck) (a1 a2 : Anchor)
    (H1 : loadChain (MkReader d1 false) zeroStart = l1) (H2 : loadChain (MkReader d2 false) zeroStart = l2)
    (E1 : ld_err l1 = None) (E2 : ld_err l2 = None)
    (Hc1 : c1 ∈ CheckAnchors (ld_records l1)) (Hc2 : c2 ∈ CheckAnchors (ld_records l2))
    (Hm1 : ac_Mismatch c1 = None) (Hm2 : ac_Mismatch c2 = None)
    (Ha1 : ac_Anchor c1 = Some a1) (Ha2 : ac_Anchor c2 = Some a2) (Hh : an_Hash a1 = an_Hash a2) :
  (forall more, c1 ∈ CheckAnchors (ld_records l1 ++ more)) /\
  (take (Z.to_nat (an_Seq a1)) (ld_records l1) = take (Z.to_nat (an_Seq a2)) (ld_records l2) /\ an_Seq a1 = an_Seq a2 \/
   collision_in (ld_records l1) (ld_records l2)).
Proof.
  destruct l1 as [rs1 h1 e1 s1 er1], l2 as [rs2 h2 e2 s2 er2]. cbn in E1, E2, Hc1, Hc2 |- *. subst er1 er2.
  apply loadChain_sound in H1 as [_ (_ & _ & C1)], H2 as [_ (_ & _ & C2)].
  apply list_elem_of_omap in Hc1 as (raw1 & Hin1 & Hr1), Hc2 as (raw2 & _ & Hr2). split.
  { intros more. apply list_elem_of_omap. exists raw1. split; [apply elem_of_app; by left|by apply check_anchor_app]. }
  destruct (check_anchor_head _ _ _ Hr1 Hm1) as (? & Ex & Hp1). simplify_eq. destruct (check_anchor_head _ _ _ Hr2 Hm2) as (? & Ex & Hp2). simplify_eq.
  destruct (head_at_chain _ _ _ _ _ _ _ _ _ C1 Hp1) as (? & ? & T1), (head_at_chain _ _ _ _ _ _ _ _ _ C2 Hp2) as (? & ? & T2).
  rewrite Hh in T1. destruct (chain_head_commits _ _ _ _ _ _ _ _ _ _ T1 T2) as [Et|Hcol].
  - left. split; [done|]. apply (f_equal length) in Et. rewrite !length_take in Et. destruct Hp1 as [? _], Hp2 as [? _]. lia.
  - right. apply (collision_mono _ _ (drop (Z.to_nat (an_Seq a1)) rs1) (drop (Z.to_nat (an_Seq a2)) rs2)) in Hcol. by rewrite !take_drop in Hcol.
Qed.

(** A concrete control ledger: an apply, and the anchor of that head. *)
Definition ex_log_id : string := "0123456789abcdef0123456789abcdef".
Definition ex_apply : record :=
  { zeroRecord with r_V := "control/1"; r_Seq := 1; r_Time := ex_time; r_Action := "apply"; r_Outcome := "success";
    r_ConfigHash := "c0"; r_LogID := ex_log_id }.
Definition ex_apply_line : string := marshal_record ex_apply.
Definition ex_the_anchor : Anchor := MkAnchor "" 1 (sha256_hex ex_apply_line) "tlog" "transparency-log" "https://log" "e1" "cA==" "".
Definition ex_anchor_line : string :=
  marshal_record { zeroRecord with r_V := "control/1"; r_Seq := 2; r_Time := ex_time; r_Action := "anchor"; r_Outcome := "success";
    r_Anchor := Some ex_the_anchor; r_Prev := sha256_hex ex_apply_line }.
Definition ex_control_file : string := bytes_of [ex_apply_line; ex_anchor_line].
Definition ex_control_loaded : loaded := loadChain (MkReader ex_control_file false) zeroStart.
Definition ex_check : AnchorCheck := MkAnchorCheck 2 (Some ex_the_anchor) None.

Lemma anchor_pins_history_witness :
  (forall more, ex_check ∈ CheckAnchors (ld_records ex_control_loaded ++ more)) /\ an_Seq ex_the_anchor = 1.
Proof.
  assert (CheckAnchors (ld_records ex_control_loaded) = [ex_check]) as Hc by (vm_compute; reflexivity).
  split; [|reflexivity].
  refine (proj1 (anchor_pins_history ex_control_file ex_control_file ex_control_loaded ex_control_loaded ex_check ex_check
    ex_the_anchor ex_the_anchor _ _ _ _ _ _ _ _ _ _ _));
    try (vm_compute; reflexivity); rewrite Hc; apply list_elem_of_singleton; reflexivity.
Defined.

(** The permits, on concrete events: a seal on an apply, a successful anchor
    without coverage, a denial without a reason. *)
Section examples.
#[local] Instance no_url : GoURL := {| parse_url := fun _ => None |}.
Example permits_refuse :
  map permit [ { zeroCEvent with ce_Action := "apply"; ce_Outcome := "success"; ce_Seal := Some zeroSeal };
               { zeroCEvent with ce_Action := "anchor"; ce_Outcome := "success" };
               { zeroCEvent with ce_Action := "apply"; ce_Outcome := "refused" };
               { zeroCEvent with ce_Action := "restore"; ce_Outcome := "success" };
               { zeroCEvent with ce_Action := "apply"; ce_Outcome := "success" } ]
  = [Some (SealOnOther "apply"); Some AnchorSaysNothing; Some (ReasonRequired "refused"); Some RestoreSaysNothing; None].
Proof. vm_compute. reflexivity. Qed.
End examples.
