(* ===== verification/Manifest.v ===== *)
(** * The segment manifest ([internal/control/manifest.go])

    [<active>.segments] lists the sealed segments of a control ledger.  It is
    an advisory index: [ParseManifest] checks its shape, the reader (see
    [Segments]) recomputes every value in it.  All files of a set live in one
    directory, so a path is its base name, and [active] is the base name of
    the resolved active file. *)
From S2P Require Import Prelude Sha256 GoStr Json Paths Ledger Config Origin Event ControlRecord.

(** ** Names *)
Fixpoint zeros (n : nat) : string := match n with O => "" | S k => String "0" (zeros k) end.
(** [%06d] of a non-negative integer *)
Definition pad6 (n : Z) : string := zeros (6 - String.length (itoa n)) +:+ itoa n.
Definition SegmentPath (active : string) (n : Z) : string := active +:+ ".seg-" +:+ pad6 n.
Definition ManifestPath (active : string) : string := active +:+ ".segments".

(** [segmentNameRE] on what follows the active's base name; the ordinal. *)
Definition segmentNameRE (suffix : string) : option Z :=
  match cut_prefix ".seg-" suffix with
  | Some ds => if Nat.eqb (String.length ds) 6 && all_chars is_digit ds then parse_uint64 ds else None
  | None => None
  end.

(** ** Data *)
Definition ManifestVersion : string := "segments/1".

Record ManifestEntry : Type := MkEntry {
  me_N : Z;
  me_File : string;
  me_FirstSeq : Z;
  me_HeadSeq : Z;
  me_HeadHash : string;
  me_SHA256 : string;
  me_Bytes : Z;
  me_SealedAt : string;
}.

Record Manifest : Type := MkManifest { m_V : string; m_LogID : string; m_Segments : list ManifestEntry }.

Definition zeroEntry : ManifestEntry := MkEntry 0 "" 0 0 "" "" 0 "".
Definition zeroManifest : Manifest := MkManifest "" "" [].

(** ** The wire form *)
Definition enc_entry (e : ManifestEntry) : list (string * option json) :=
  [("n", enc_int (me_N e));
   ("file", enc_str (me_File e));
   ("first_seq", enc_int (me_FirstSeq e));
   ("head_seq", enc_int (me_HeadSeq e));
   ("head_hash", enc_str (me_HeadHash e));
   ("sha256", enc_str (me_SHA256 e));
   ("bytes", enc_int (me_Bytes e));
   ("sealed_at", enc_time (me_SealedAt e))].

Definition entry_json (e : ManifestEntry) : json := JObj (omit (enc_entry e)).
(** A nil slice is null. *)
Definition enc_entries (l : list ManifestEntry) : option json :=
  Some (match l with [] => JNull | _ => JArr (map entry_json l) end).
Definition manifest_fields (m : Manifest) : list (string * option json) :=
  [("v", enc_str (m_V m)); ("log_id", enc_str (m_LogID m)); ("segments", enc_entries (m_Segments m))].
Definition marshal_manifest (m : Manifest) : string := marshal (JObj (omit (manifest_fields m))).
Arguments marshal_manifest : simpl never.

(** [DisallowUnknownFields]: every key must name a field. *)
Definition known_keys (names : list string) (fs : list (string * json)) : bool :=
  List.forallb (fun kv => List.existsb (fun n => key_matches n kv.1) names) fs.

Definition dec_entry_fields (fs : list (string * json)) (cur : ManifestEntry) : option ManifestEntry :=
  xN ← dec_field (dec_int) (field_values "n" fs) (me_N cur);
  xFile ← dec_field (dec_str) (field_values "file" fs) (me_File cur);
  xFirstSeq ← dec_field (dec_int) (field_values "first_seq" fs) (me_FirstSeq cur);
  xHeadSeq ← dec_field (dec_int) (field_values "head_seq" fs) (me_HeadSeq cur);
  xHeadHash ← dec_field (dec_str) (field_values "head_hash" fs) (me_HeadHash cur);
  xSHA256 ← dec_field (dec_str) (field_values "sha256" fs) (me_SHA256 cur);
  xBytes ← dec_field (dec_int) (field_values "bytes" fs) (me_Bytes cur);
  xSealedAt ← dec_field (dec_time) (field_values "sealed_at" fs) (me_SealedAt cur);
  Some (MkEntry xN xFile xFirstSeq xHeadSeq xHeadHash xSHA256 xBytes xSealedAt).

Definition dec_entry (fs : list (string * json)) (cur : ManifestEntry) : option ManifestEntry :=
  if known_keys ["n"; "file"; "first_seq"; "head_seq"; "head_hash"; "sha256"; "bytes"; "sealed_at"] fs
  then dec_entry_fields fs cur else None.

(** A slice of structs decodes over the elements it already holds. *)
Fixpoint dec_elements (l : list json) (cur : list ManifestEntry) : option (list ManifestEntry) :=
  match l with
  | [] => Some []
  | v :: r =>
      e ← dec_obj dec_entry v (match cur with [] => zeroEntry | c :: _ => c end);
      es ← dec_elements r (match cur with [] => [] | _ :: cs => cs end);
      Some (e :: es)
  end.
Definition dec_entries (v : json) (cur : list ManifestEntry) : option (list ManifestEntry) :=
  match v with JNull => Some [] | JArr l => dec_elements l cur | _ => None end.

Definition dec_manifest (fs : list (string * json)) (cur : Manifest) : option Manifest :=
  if known_keys ["v"; "log_id"; "segments"] fs then
    v ← dec_field dec_str (field_values "v" fs) (m_V cur);
    id ← dec_field dec_str (field_values "log_id" fs) (m_LogID cur);
    segs ← dec_field dec_entries (field_values "segments" fs) (m_Segments cur);
    Some (MkManifest v id segs)
  else None.

(** ** [ParseManifest] *)
Inductive manifest_error : Type :=
  | ManifestDecode
  | ManifestTrailing
  | ManifestV (v : string)
  | ManifestLogID
  | ManifestEmpty
  | ManifestField (i : Z) (field : string).

(** [Decoder.More] after the first value. *)
Definition More (rest : string) : bool :=
  match skip_ws rest with
  | EmptyString => false
  | String c _ => negb (ascii_eqb c "]"%char) && negb (ascii_eqb c "}"%char)
  end.

Definition check_entry (active : string) (i prevHead : Z) (e : ManifestEntry) : option manifest_error :=
  let n := i + 1 in
  if negb (me_N e =? n) then Some (ManifestField i "n")
  else if negb (bool_decide (me_File e = SegmentPath active n)) then Some (ManifestField i "file")
  else if negb (me_FirstSeq e =? prevHead + 1) then Some (ManifestField i "first_seq")
  else if me_HeadSeq e <? me_FirstSeq e then Some (ManifestField i "head_seq")
  else if negb (anchorHashRE (me_HeadHash e)) then Some (ManifestField i "head_hash")
  else if negb (anchorHashRE (me_SHA256 e)) then Some (ManifestField i "sha256")
  else if me_Bytes e <=? 0 then Some (ManifestField i "bytes")
  else None.

Fixpoint check_entries (active : string) (i prevHead : Z) (l : list ManifestEntry) : option manifest_error :=
  match l with
  | [] => None
  | e :: r => match check_entry active i prevHead e with
              | Some err => Some err
              | None => check_entries active (i + 1) (me_HeadSeq e) r
              end
  end.

Definition ParseManifest (active data : string) : result manifest_error Manifest :=
  match parse_value (json_fuel data) 0 data with
  | None => Err ManifestDecode
  | Some (v, rest) =>
      match dec_obj dec_manifest v zeroManifest with
      | None => Err ManifestDecode
      | Some m =>
          if More rest then Err ManifestTrailing
          else if negb (bool_decide (m_V m = ManifestVersion)) then Err (ManifestV (m_V m))
          else if negb (genesisLogIDRE (m_LogID m)) then Err ManifestLogID
          else if bool_decide (length (m_Segments m) = 0%nat) then Err ManifestEmpty
          else match check_entries active 0 0 (m_Segments m) with
               | Some err => Err err
               | None => Ok m
               end
      end
  end.

(** ** Digests ([segmentDigests], [segmentBytes], [sealContentDigest]) *)
Definition segmentBytes (records : list string) : string := bytes_of records.
Definition segmentDigests (records : list string) : string * Z :=
  (sha256_hex (bytes_of records), str_len (bytes_of records)).
Definition sealContentDigest (preSeal : list string) : string := (segmentDigests preSeal).1.

(** ** The round trip *)
Record entry_ok (e : ManifestEntry) : Prop := {
  eo_n : int_ok (me_N e);
  eo_first : int_ok (me_FirstSeq e);
  eo_head : int_ok (me_HeadSeq e);
  eo_bytes : int_ok (me_Bytes e);
  eo_time : time_ok (me_SealedAt e) /\ me_SealedAt e <> "";
  eo_file : valid_utf8 (me_File e) = true;
  eo_hash : valid_utf8 (me_HeadHash e) = true;
  eo_sha : valid_utf8 (me_SHA256 e) = true;
}.

Lemma entry_keys e : NoDup (map (fun kv => fold_key kv.1) (enc_entry e)).
Proof. apply (bool_decide_unpack _). vm_compute. exact I. Qed.
Lemma manifest_keys m : NoDup (map (fun kv => fold_key kv.1) (manifest_fields m)).
Proof. apply (bool_decide_unpack _). vm_compute. exact I. Qed.

Lemma rt_entry e : entry_ok e -> dec_entry (coerce_fields (omit (enc_entry e))) zeroEntry = Some e.
Proof.
  intros [H1 H2 H3 H4 [H5 Hne] H6 H7 H8]. unfold dec_entry. replace (known_keys _ _) with true by (by destruct e).
  transitivity (Some (MkEntry (me_N e) (to_valid (me_File e)) (me_FirstSeq e) (me_HeadSeq e) (to_valid (me_HeadHash e)) (to_valid (me_SHA256 e)) (me_Bytes e) (time_text (me_SealedAt e)))).
  - unfold dec_entry_fields. decode_fields (entry_keys e).
  - rewrite !to_valid_id by done. unfold time_text. rewrite bool_decide_false by done. by destruct e.
Qed.

Lemma rt_elements l : Forall entry_ok l -> dec_elements (map coerce (map entry_json l)) [] = Some l.
Proof.
  induction 1 as [|e l He Hl IH]; [done|]. cbn [map dec_elements]. rewrite IH. unfold entry_json. cbn [coerce].
  fold (coerce_fields (omit (enc_entry e))). cbn [dec_obj]. rewrite (rt_entry e He). done.
Qed.

Lemma rt_entries l : Forall entry_ok l -> dec_field dec_entries (map coerce (opt_list (enc_entries l))) [] = Some l.
Proof.
  intros Hl. destruct l as [|e l]; [done|]. unfold enc_entries, opt_list. cbn [map coerce dec_field dec_entries].
  pose proof (rt_elements (e :: l) Hl) as E. cbn [map] in E. by rewrite E.
Qed.

Lemma wf_entry e : wf_fields 0 (enc_entry e).
Proof. assert (0 <= 0) by lia. wf_struct. Qed.

Lemma wf_manifest m : wf_fields 2 (manifest_fields m).
Proof.
  assert (0 <= 2) by lia. wf_struct. cbn [snd enc_entries wf_opt]. destruct (m_Segments m) as [|e l]; [by split; [|cbn; lia]|].
  generalize (e :: l). clear. intros l. induction l as [|e l [IH1 IH2]]; [by split; [|cbn; lia]|]. destruct (wf_omit 0 (enc_entry e)) as [W1 W2]; [lia|apply wf_entry|].
  fold (entry_json e) in W1, W2. cbn [map]. generalize dependent (entry_json e). intros v W1 W2. cbn in IH1, IH2 |- *. split; [done|]. lia.
Qed.

Lemma parse_marshal_manifest m : exists rest,
  parse_value (json_fuel (marshal_manifest m)) 0 (marshal_manifest m) = Some (JObj (coerce_fields (omit (manifest_fields m))), rest) /\ skip_ws rest = "".
Proof.
  destruct (wf_omit 2 (manifest_fields m)) as [H1 H2]; [lia|apply wf_manifest|].
  assert (parse_json (marshal_manifest m) = Some (JObj (coerce_fields (omit (manifest_fields m))))) as Hp.
  { apply parse_print; [done|]. unfold max_depth. lia. }
  unfold parse_json in Hp. destruct (parse_value _ _ _) as [[v rest]|]; [|done]. exists rest.
  destruct (skip_ws rest); [|done]. by injection Hp as ->.
Qed.

Lemma rt_manifest m : valid_utf8 (m_V m) = true -> valid_utf8 (m_LogID m) = true -> Forall entry_ok (m_Segments m) ->
  dec_manifest (coerce_fields (omit (manifest_fields m))) zeroManifest = Some m.
Proof.
  intros Hv Hi Hl. unfold dec_manifest. replace (known_keys _ _) with true by (by destruct m).
  transitivity (Some (MkManifest (to_valid (m_V m)) (to_valid (m_LogID m)) (m_Segments m))).
  - pose proof (rt_entries _ Hl). decode_fields (manifest_keys m).
  - rewrite !to_valid_id by done. by destruct m.
Qed.

(** A manifest's own text parses back to it, provided it meets the rules. *)
Lemma parse_written active m :
  m_V m = ManifestVersion -> genesisLogIDRE (m_LogID m) = true -> m_Segments m <> [] -> Forall entry_ok (m_Segments m) ->
  check_entries active 0 0 (m_Segments m) = None -> ParseManifest active (marshal_manifest m) = Ok m.
Proof.
  intros Hv Hi Hne Hl Hc. unfold ParseManifest. destruct (parse_marshal_manifest m) as (rest & -> & Hr). cbn [dec_obj].
  assert (valid_utf8 (m_LogID m) = true) by (apply hex_valid; unfold genesisLogIDRE, lower_hex_of_len in Hi; by apply andb_true_iff in Hi as [_ ?]).
  rewrite rt_manifest by (by rewrite ?Hv). unfold More. rewrite Hr, bool_decide_true by done. rewrite Hi, Hc. cbn [negb].
  rewrite bool_decide_false; [done|]. by destruct (m_Segments m).
Qed.

(** ** Segment names *)
Lemma dec_value_zeros k s : dec_value (zeros k +:+ s) 0 = dec_value s 0.
Proof. induction k as [|k IH]; [done|]. cbn [zeros]. rewrite app_cons_str. exact IH. Qed.

Lemma parse_pad6 n : 0 <= n < two64 -> parse_uint64 (pad6 n) = Some n.
Proof.
  intros Hn. pose proof (parse_uint64_itoa n Hn) as Hp. rewrite <- Hp. unfold parse_uint64, pad6, parse_N in *.
  rewrite <- (dec_value_zeros (6 - String.length (itoa n)) (itoa n)).
  destruct (itoa n) as [|c r]; [done|]. by destruct (zeros _).
Qed.

Lemma dec_digits_length f n acc k : (n < 10 ^ N.of_nat k)%N -> (1 <= k)%nat ->
  (String.length (dec_digits f n acc) <= k + String.length acc)%nat.
Proof.
  revert n acc k. induction f as [|f IH]; intros n acc k Hn Hk; cbn [dec_digits]; [lia|].
  destruct (N.eqb_spec (n / 10) 0) as [E|E]; [cbn; lia|].
  destruct k as [|[|k]]; [lia|exfalso; apply E, N.div_small; exact Hn|].
  assert (n / 10 < 10 ^ N.of_nat (S k))%N as Hd.
  { apply N.Div0.div_lt_upper_bound. rewrite Nat2N.inj_succ, N.pow_succ_r' in Hn. lia. }
  specialize (IH (n / 10)%N (String (digit_char (n mod 10)) acc) (S k) Hd ltac:(lia)). cbn [String.length] in IH. lia.
Qed.

Lemma itoa_digits n : 0 <= n -> all_chars is_digit (itoa n) = true.
Proof. intros Hn. unfold itoa. rewrite (proj2 (Z.ltb_ge _ _)) by lia. by apply dec_digits_all. Qed.

Lemma zeros_digits k s : all_chars is_digit (zeros k +:+ s) = all_chars is_digit s.
Proof. induction k as [|k IH]; [done|]. cbn [zeros]. rewrite app_cons_str. exact IH. Qed.
Lemma zeros_length k : String.length (zeros k) = k.
Proof. induction k; cbn; congruence. Qed.

(** Up to a million segments the names are the ones the listing expects. *)
Lemma segment_name_matches n : 0 <= n <= 999999 -> segmentNameRE (".seg-" +:+ pad6 n) = Some n.
Proof.
  intros Hn. unfold segmentNameRE. rewrite cut_prefix_app. rewrite parse_pad6 by (unfold two64; lia).
  unfold pad6. rewrite zeros_digits, itoa_digits by lia. rewrite length_app_str, zeros_length.
  assert (String.length (itoa n) <= 6)%nat as Hl.
  { unfold itoa. rewrite (proj2 (Z.ltb_ge _ _)) by lia. etrans; [apply (dec_digits_length _ _ _ 6); [|lia]|cbn; lia].
    change (10 ^ N.of_nat 6)%N with 1000000%N. lia. }
  by replace (6 - String.length (itoa n) + String.length (itoa n))%nat with 6%nat by lia.
Qed.

Lemma app_inv_head_str p s t : p +:+ s = p +:+ t -> s = t.
Proof. intros E. apply (f_equal (cut_prefix p)) in E. rewrite !cut_prefix_app in E. by injection E. Qed.

Lemma SegmentPath_inj active n m : 0 <= n < two64 -> 0 <= m < two64 -> SegmentPath active n = SegmentPath active m -> n = m.
Proof.
  intros Hn Hm E. unfold SegmentPath in E. apply app_inv_head_str, app_inv_head_str in E.
  apply (f_equal parse_uint64) in E. rewrite !parse_pad6 in E by done. by injection E.
Qed.

(** *** Examples *)
Definition ex_entry : ManifestEntry := MkEntry 1 (SegmentPath "c" 1) 1 2 (sha256_hex "a") (sha256_hex "b") 10 "2026-01-02T03:04:05Z".
Definition ex_manifest : Manifest := MkManifest ManifestVersion "0123456789abcdef0123456789abcdef" [ex_entry].

(** [More] is false at a closing bracket or brace, whatever follows it: such
    trailing data is not refused. *)
Example trailing_bracket_accepted :
  ParseManifest "c" (marshal_manifest ex_manifest +:+ "} anything") = Ok ex_manifest /\
  ParseManifest "c" (marshal_manifest ex_manifest +:+ "x") = Err ManifestTrailing.
Proof. vm_compute. split; reflexivity. Qed.
