(* ===== verification/Segments.v ===== *)
(** * The segmented control ledger ([internal/control]: [segments.go],
      [faults.go], [log.go]'s writer and repair, [seal.go], [sink.go]'s seam)

    One logical chain kept in several files: sealed segments, listed by a
    manifest, and the active segment that takes appends.  The directory that
    holds them is a [disk]: names refer to inodes, inodes hold bytes, so a
    hard link and a rename are what they are on Unix.  The outcome of every
    fallible step (a write cut short, a link refused, a rename never reached)
    is an argument; a crash is the failure of the step it precedes.  Failing
    reads and listings are left out: they surface as they are and change
    nothing.  An operation runs under the active's exclusive lock, so its
    locked part is atomic; what it read before the lock may be stale, and is
    a disk of its own. *)
From S2P Require Import Prelude Sha256 GoStr Json Paths Ledger Config Origin Event ControlRecord Manifest.

(** ** The directory *)
Record disk : Type := MkDisk { dk_names : gmap string nat; dk_files : gmap nat string; dk_next : nat }.

Definition file_of (d : disk) (ino : nat) : string := default "" (dk_files d !! ino).
Definition content (d : disk) (name : string) : option string := file_of d <$> dk_names d !! name.
Definition sameFile (d : disk) (name : string) (ino : nat) : bool := bool_decide (dk_names d !! name = Some ino).
Definition set_file (d : disk) (ino : nat) (s : string) : disk := MkDisk (dk_names d) (<[ino := s]> (dk_files d)) (dk_next d).
Definition link_name (d : disk) (name : string) (ino : nat) : disk := MkDisk (<[name := ino]> (dk_names d)) (dk_files d) (dk_next d).
Definition create_file (d : disk) (name s : string) : disk :=
  MkDisk (<[name := dk_next d]> (dk_names d)) (<[dk_next d := s]> (dk_files d)) (S (dk_next d)).

(** [atomicfile.Replace]: renamed into place, failed with the temp removed,
    or stopped with the temp left behind under its name. *)
Inductive rep_outcome : Type := RepOk | RepFailed | RepStopped (suffix partial : string).
Definition Replace (d : disk) (dest pattern data : string) (o : rep_outcome) : bool * disk :=
  match o with
  | RepOk => (true, create_file d dest data)
  | RepFailed => (false, d)
  | RepStopped suffix partial => (false, create_file d (pattern +:+ suffix) partial)
  end.

(** ** Verdicts *)
Inductive Fault : Type :=
  FaultTorn | FaultBroken | FaultBoundary | FaultMissingSegment | FaultActiveMissing | FaultUnexpectedSegment | FaultManifest | FaultSealNotLast.

Inductive set_cause : Type :=
  | ChainCause (e : ledger_error)
  | ManifestCause (e : manifest_error)
  | Disagreement (field : string)
  | RetainCause
  | LogIDCause.

(** [want] only shapes the text, and is left out. *)
Record SetError : Type := MkSetError {
  se_Fault : Fault; se_Segment : Z; se_Path : string; se_Seq : Z; se_Err : option set_cause; se_olderBinary : bool;
  se_noManifest : bool;
}.
Definition set_error (f : Fault) (segment : Z) (path : string) (seq : Z) (err : option set_cause) : SetError :=
  MkSetError f segment path seq err false false.

(** [SetError.Unwrap]: only the active's own chain error shows through. *)
Definition Unwrap (e : SetError) : option set_cause :=
  match se_Fault e with
  | FaultTorn | FaultBroken => if se_Segment e =? 0 then se_Err e else None
  | _ => None
  end.

Inductive SealStep : Type := SealStepPreflight | SealStepLink | SealStepRecord | SealStepSink | SealStepManifest | SealStepSwap.

Inductive control_error : Type :=
  | ESet (e : SetError)
  | ELedger (e : ledger_error)
  | EPermit (e : permit_error)
  | ENotExist
  | EIO
  | EManifest (e : manifest_error)
  | ErrSealed
  | ErrNothingToSeal
  | ErrUnsealable
  | ErrNoHardLinks
  | ErrNothingToComplete
  | ERotatedTwice
  | ESealMisused
  | ESealUndecodable
  | ESinkPosture
  | ESinkKey
  | ESink (text : string)
  | ESealStep (step : SealStep) (e : control_error)
  | ERepairSealed
  | ERepairNotTorn
  | ERepairBroken (seq : Z)
  | ERepairNoSeal
  | ERepairRotated
  | ERepairRange
  | ERepairChanged
  | ERepairFragment
  | ERepairRotation (e : control_error)
  | ERepairAppend (e : control_error).

(** ** The view *)
Inductive State : Type := StateOpen | StateSealedNotRotated | StateRotatedNotSwapped.
#[global] Instance state_eq_dec : EqDecision State.
Proof. solve_decision. Defined.

Record Segment : Type := MkSegment {
  sg_N : Z; sg_Path : string; sg_FirstSeq : Z; sg_HeadSeq : Z; sg_HeadHash : string; sg_SHA256 : string; sg_Bytes : Z;
  sg_Records : Z; sg_SealedAt : string; sg_Sink : ptr SealSink;
}.
Definition zeroSegment : Segment := MkSegment 0 "" 0 0 "" "" 0 0 "" None.

(** [FirstSeq] is 1 throughout. *)
Record View : Type := MkView {
  v_Records : list string; v_Head : Head; v_Sealed : list Segment; v_Active : Segment; v_State : State; v_LogID : string;
}.
Definition zeroView : View := MkView [] (MkHead "" 0) [] zeroSegment StateOpen "".

Definition RotatingSegment (v : View) : Z :=
  match v_State v with
  | StateSealedNotRotated => Z.of_nat (length (v_Sealed v)) + 1
  | _ => Z.of_nat (length (v_Sealed v))
  end.

Definition activeRecords (v : View) : list string :=
  drop (length (v_Records v) - Z.to_nat (sg_Records (v_Active v))) (v_Records v).

Definition manifestEntry (active : string) (s : Segment) : ManifestEntry :=
  MkEntry (sg_N s) (SegmentPath active (sg_N s)) (sg_FirstSeq s) (sg_HeadSeq s) (sg_HeadHash s) (sg_SHA256 s) (sg_Bytes s) (sg_SealedAt s).

(** ** Siblings *)
Section set.
  Context (active : string).

Definition siblingNames (d : disk) : list string :=
  filter (fun n => has_prefix n (active +:+ ".seg-") = true) (sort_strings (map fst (map_to_list (dk_names d)))).

Fixpoint list_siblings (names : list string) : result control_error (list (Z * string)) :=
  match names with
  | [] => Ok []
  | p :: r =>
      match segmentNameRE (default "" (cut_prefix active p)) with
      | None => Err (ESet (set_error FaultUnexpectedSegment 0 p 0 None))
      | Some n => let! l := list_siblings r in Ok ((n, p) :: l)
      end
  end.
(** Names of one width sort as their ordinals do, so this is [sortedOrdinals]
    order too. *)
Definition listSiblings (d : disk) : result control_error (list (Z * string)) := list_siblings (siblingNames d).

Definition hasHistory (d : disk) : bool :=
  is_Some_b (dk_names d !! ManifestPath active) || negb (bool_decide (length (siblingNames d) = 0%nat)).

Definition loadManifest (d : disk) : result control_error (option Manifest) :=
  match content d (ManifestPath active) with
  | None => Ok None
  | Some data =>
      match ParseManifest active data with
      | Ok m => Ok (Some m)
      | Err e => Err (ESet (set_error FaultManifest 0 (ManifestPath active) 0 (Some (ManifestCause e))))
      end
  end.

Definition activeMissing : control_error := ESet (set_error FaultActiveMissing 0 active 0 None).

(** ** Seals inside a segment *)
Definition sealChainFieldsAgree (got : ptr Seal) (want : Seal) : bool :=
  match got with
  | None => false
  | Some g =>
      (sl_Segment g =? sl_Segment want) && (sl_FirstSeq g =? sl_FirstSeq want) && (sl_HeadSeq g =? sl_HeadSeq want) &&
      bool_decide (sl_HeadHash g = sl_HeadHash want) && bool_decide (sl_ContentSHA256 g = sl_ContentSHA256 want)
  end.

Definition is_seal (rec : record) : bool := bool_decide (r_Action rec = "seal") && bool_decide (r_Outcome rec = "success").

Definition retain_bad (rec : record) : bool :=
  match r_Seal rec with
  | Some s => match sl_Sink s with Some b => negb (After (sk_RetainUntil b) (r_Time rec)) | None => false end
  | None => false
  end.

(** What the scan for a successful seal finds. *)
Inductive seal_scan : Type :=
  | NoSeal
  | NotLast (seq : Z)
  | Planted (seq : Z)
  | RetainPast (seq : Z)
  | Seals (rec : record).

(** The scan of segment [ordinal], which begins at [first]; [pre] is what was
    scanned. *)
Fixpoint scan_seal (ordinal first : Z) (pre rest : list string) : seal_scan :=
  match rest with
  | [] => NoSeal
  | r :: rest' =>
      match decodeRecord r with
      | Some rec =>
          if is_seal rec then
            match rest' with
            | _ :: _ => NotLast (r_Seq rec)
            | [] =>
                if negb (sealChainFieldsAgree (r_Seal rec)
                           (MkSeal ordinal first (r_Seq rec - 1) (r_Prev rec) (sealContentDigest pre) None)) then Planted (r_Seq rec)
                else if retain_bad rec then RetainPast (r_Seq rec)
                else Seals rec
            end
          else scan_seal ordinal first (pre ++ [r]) rest'
      | None => scan_seal ordinal first (pre ++ [r]) rest'
      end
  end.

(** ** Phase one: the sealed segments *)

(** The manifest's figures against the file's. *)
Definition entry_disagrees (start : Start) (head : Head) (whole : string) (size fsize : Z) (e : ManifestEntry) : option string :=
  if negb (me_FirstSeq e =? StartBase start + 1) then Some "first_seq"
  else if negb (me_HeadSeq e =? StartBase start + Count head) then Some "head_seq"
  else if negb (bool_decide (me_HeadHash e = Hash head)) then Some "head_hash"
  else if negb (bool_decide (me_SHA256 e = whole)) then Some "sha256"
  else if negb (me_Bytes e =? fsize) || negb (size =? fsize) then Some "bytes"
  else None.

Definition verifySealed (d : disk) (k : Z) (start : Start) (e : ManifestEntry) : result control_error Segment * list string :=
  let path := SegmentPath active k in
  match content d path with
  | None => (Err (ESet (set_error FaultMissingSegment k path 0 None)), [])
  | Some data =>
      let '(recs, head, verr) := VerifyReader (MkReader data false) start in
      let b := StartBase start in
      match verr with
      | Some (TornError off) => (Err (ESet (set_error FaultTorn k path (b + Z.of_nat (length recs) + 1) (Some (ChainCause (TornError off))))), recs)
      | Some (ChainBrokenError line) =>
          if (line =? 1) && (1 <? k) then (Err (ESet (set_error FaultBoundary k path (b + 1) (Some (ChainCause (ChainBrokenError line))))), recs)
          else (Err (ESet (set_error FaultBroken k path (b + line) (Some (ChainCause (ChainBrokenError line))))), recs)
      | Some x => (Err (ELedger x), recs)
      | None =>
          let disagree f := Err (ESet (set_error FaultManifest k path 0 (Some (Disagreement f)))) in
          let '(whole, size) := segmentDigests recs in
          match scan_seal k (b + 1) [] recs with
          | NotLast seq => (Err (ESet (set_error FaultSealNotLast k path (seq + 1) None)), recs)
          | Planted _ | NoSeal => (disagree "seal", recs)
          | RetainPast _ => (Err (ESet (set_error FaultManifest k path 0 (Some RetainCause))), recs)
          | Seals rec =>
              if IsZero (r_Time rec) then (disagree "seal", recs)
              else match entry_disagrees start head whole size (str_len data) e with
                   | Some f => (disagree f, recs)
                   | None =>
                       (Ok (MkSegment k path (b + 1) (b + Count head) (Hash head) whole (str_len data) (Count head) (r_Time rec)
                              (match r_Seal rec with Some s => sl_Sink s | None => None end)), recs)
                   end
          end
      end
  end.

Record sealedWalk : Type := MkWalk { w_m : option Manifest; w_v : View; w_start : Start }.

Definition add_segment (w : sealedWalk) (seg : Segment) (recs : list string) : sealedWalk :=
  let v := w_v w in
  MkWalk (w_m w) (MkView (v_Records v ++ recs) (v_Head v) (v_Sealed v ++ [seg]) (v_Active v) (v_State v) (v_LogID v))
    (MkStart (sg_HeadHash seg) (sg_HeadSeq seg)).

(** The head of the prefix that verified before a fault. *)
Definition fault_walk (w : sealedWalk) (recs : list string) : sealedWalk :=
  let v := w_v w in
  let head := match last recs with
              | Some r => MkHead (sha256_hex r) (StartBase (w_start w) + Z.of_nat (length recs))
              | None => MkHead (StartPrev (w_start w)) (StartBase (w_start w))
              end in
  MkWalk (w_m w) (MkView (v_Records v ++ recs) head (v_Sealed v) (v_Active v) (v_State v) (v_LogID v)) (w_start w).

Fixpoint walk_entries (d : disk) (k : Z) (es : list ManifestEntry) (w : sealedWalk) : sealedWalk * option control_error :=
  match es with
  | [] => (w, None)
  | e :: r =>
      match verifySealed d k (w_start w) e with
      | (Err err, recs) => (fault_walk w recs, Some err)
      | (Ok seg, recs) => walk_entries d (k + 1) r (add_segment w seg recs)
      end
  end.

Definition emptyWalk : sealedWalk := MkWalk None zeroView zeroStart.

Definition walkSealed (d : disk) : sealedWalk * option control_error :=
  match loadManifest d with
  | Err e => (emptyWalk, Some e)
  | Ok None => (emptyWalk, None)
  | Ok (Some m) => walk_entries d 1 (m_Segments m) (MkWalk (Some m) (MkView [] (MkHead "" 0) [] zeroSegment StateOpen (m_LogID m)) zeroStart)
  end.

(** ** Phase two: the active *)
Definition dec_first (fs : list (string * json)) (cur : string * string) : option (string * string) :=
  p ← dec_field dec_str (field_values "prev" fs) cur.1;
  i ← dec_field dec_str (field_values "log_id" fs) cur.2;
  Some (p, i).

Definition maxGenesisLine : nat := Z.to_nat 8192.

Definition firstLineIsFreshGenesis (data : string) : bool :=
  let line := match split_lines (take_str maxGenesisLine data) with [] => "" | (l, _) :: _ => l end in
  match parse_json line with
  | Some v => match dec_obj dec_first v ("", "") with
              | Some (prev, id) => bool_decide (prev = "") && genesisLogIDRE id
              | None => false
              end
  | None => false
  end.

Definition mapActiveFault (data : string) (start : Start) (prefix : list string) (verr : ledger_error) : control_error :=
  let b := StartBase start in
  match verr with
  | TornError _ => ESet (set_error FaultTorn 0 active (b + Z.of_nat (length prefix) + 1) (Some (ChainCause verr)))
  | ChainBrokenError line =>
      if (line =? 1) && (0 <? b) then
        ESet (MkSetError FaultBoundary 0 active (b + 1) (Some (ChainCause verr)) (firstLineIsFreshGenesis data) false)
      else ESet (set_error FaultBroken 0 active (b + line) (Some (ChainCause verr)))
  | _ => ELedger verr
  end.

Definition with_state (v : View) (st : State) : View := MkView (v_Records v) (v_Head v) (v_Sealed v) (v_Active v) st (v_LogID v).

Definition finishActive (v : View) (sealedCount : Z) : View * option control_error :=
  match scan_seal (sealedCount + 1) (sg_FirstSeq (v_Active v)) [] (activeRecords v) with
  | NoSeal => (v, None)
  | NotLast seq => (v, Some (ESet (set_error FaultSealNotLast 0 active (seq + 1) None)))
  | Planted seq => (v, Some (ESet (set_error FaultManifest (sealedCount + 1) active seq (Some (Disagreement "seal")))))
  | RetainPast seq => (v, Some (ESet (set_error FaultManifest (sealedCount + 1) active seq (Some RetainCause))))
  | Seals _ => (with_state v StateSealedNotRotated, None)
  end.

Definition identityCheck (v : View) (m : Manifest) : View * option control_error :=
  if bool_decide (GenesisLogID (v_Records v) = Some (m_LogID m)) then (v, None)
  else (v, Some (ESet (set_error FaultManifest 0 (ManifestPath active) 0 (Some LogIDCause)))).

(** The first sibling the manifest does not explain; [n] segments are listed. *)
Definition unexplained (d : disk) (ino : nat) (n : Z) (siblings : list (Z * string)) : option string :=
  snd <$> List.find (fun s => negb ((1 <=? s.1) && (s.1 <=? n)) && negb ((s.1 =? n + 1) && sameFile d s.2 ino)) siblings.

(** [verifyActive] is [VerifyReader], or [Resume] for the writer: the same
    records, head and error. *)
Definition readActive (d : disk) (ino : nat) (w : sealedWalk) : View * option control_error :=
  let v := w_v w in
  let data := file_of d ino in
  match listSiblings d with
  | Err e => (v, Some e)
  | Ok siblings =>
      match w_m w with
      | None =>
          match unexplained d ino 0 siblings with
          | Some p => (v, Some (ESet (MkSetError FaultUnexpectedSegment 0 p 0 None false true)))
          | None =>
              let '(recs, head, verr) := VerifyReader (MkReader data false) zeroStart in
              let v := MkView recs head (v_Sealed v) (MkSegment 0 active 1 (Count head) (Hash head) "" (str_len data) (Count head) "" None)
                         (v_State v) (v_LogID v) in
              match verr with
              | Some x => (v, Some (mapActiveFault data zeroStart recs x))
              | None => finishActive v 0
              end
          end
      | Some m =>
          let n := Z.of_nat (length (m_Segments m)) in
          let start := w_start w in
          let b := StartBase start in
          match unexplained d ino n siblings with
          | Some p => (v, Some (ESet (set_error FaultUnexpectedSegment 0 p 0 None)))
          | None =>
              let sealedHead := MkHead (StartPrev start) b in
              if sameFile d (SegmentPath active n) ino then
                identityCheck (MkView (v_Records v) sealedHead (v_Sealed v) (MkSegment 0 active (b + 1) b (StartPrev start) "" 0 0 "" None)
                                 StateRotatedNotSwapped (v_LogID v)) m
              else
                let '(recs, head, verr) := VerifyReader (MkReader data false) start in
                let v := MkView (v_Records v ++ recs) (if 0 <? Count head then MkHead (Hash head) (b + Count head) else sealedHead) (v_Sealed v)
                           (MkSegment 0 active (b + 1) (b + Count head) (Hash head) "" (str_len data) (Count head) "" None)
                           (v_State v) (v_LogID v) in
                match verr with
                | Some x => (v, Some (mapActiveFault data start recs x))
                | None =>
                    match finishActive v n with
                    | (v, Some e) => (v, Some e)
                    | (v, None) => identityCheck v m
                    end
                end
          end
      end
  end.

(** [Read], once the shared lock is held; [lock] is what the lock answered. *)
Definition Read (lock : result ledger_error ()) (d : disk) : View * option control_error :=
  match dk_names d !! active with
  | None => if hasHistory d then (zeroView, Some activeMissing) else (zeroView, Some ENotExist)
  | Some ino =>
      match lock with
      | Err e => (zeroView, Some (ELedger e))
      | Ok _ =>
          match walkSealed d with
          | (w, Some e) => (w_v w, Some e)
          | (w, None) => readActive d ino w
          end
      end
  end.

(** ** The writer's entry *)

(** One attempt: the disk the name was looked up and the sealed segments were
    walked on, whether the name was swapped between the open and the lock,
    what the lock answered, and the disk under the lock. *)
Record attempt : Type := MkAttempt { at_walk : disk; at_swapped : bool; at_lock : result ledger_error (); at_disk : disk }.
Definition now (d : disk) : attempt := MkAttempt d false (Ok ()) d.

Inductive lock_result : Type :=
  | Retry
  | Failed (v : View) (e : control_error) (d : disk)
  | Held (ino : nat) (start : Start) (v : View) (d : disk).

Definition manifestEqual (a b : option Manifest) : bool :=
  match a, b with
  | None, None => true
  | Some x, Some y =>
      Nat.eqb (length (m_Segments x)) (length (m_Segments y)) &&
      bool_decide (me_HeadHash <$> last (m_Segments x) = me_HeadHash <$> last (m_Segments y))
  | _, _ => false
  end.

(** The locked part of an attempt. *)
Definition locked_part (d : disk) (ino : nat) (swapped : bool) (w : sealedWalk) : lock_result :=
  if swapped then Retry
  else match loadManifest d with
       | Err e => Failed zeroView e d
       | Ok m2 =>
           if negb (manifestEqual (w_m w) m2) then Retry
           else match readActive d ino w with
                | (v, Some e) => Failed v e d
                | (v, None) => Held ino (w_start w) v d
                end
       end.

Definition lock_attempt (create : bool) (t : attempt) : lock_result :=
  let dw := at_walk t in
  let d := at_disk t in
  let missing := negb (is_Some_b (dk_names dw !! active)) in
  if missing && hasHistory dw then Failed zeroView activeMissing d
  else
    match walkSealed dw with
    | (w, Some e) => Failed (w_v w) e d
    | (w, None) =>
        match dk_names d !! active with
        | None =>
            if missing && create then
              let d := create_file d active "" in
              match at_lock t with
              | Err e => Failed zeroView (ELedger e) d
              | Ok _ => locked_part d (dk_next (at_disk t)) (at_swapped t) w
              end
            else Failed zeroView ENotExist d
        | Some ino =>
            match at_lock t with
            | Err e => Failed zeroView (ELedger e) d
            | Ok _ => locked_part d ino (at_swapped t) w
            end
        end
    end.

Definition lockActive (create : bool) (t1 t2 : attempt) : lock_result :=
  match lock_attempt create t1 with
  | Retry => match lock_attempt create t2 with
             | Retry => Failed zeroView ERotatedTwice (at_disk t2)
             | r => r
             end
  | r => r
  end.

(** [openActive]: the chain resumed over the locked handle. *)
Definition openActive (t1 t2 : attempt) : result control_error (Chain * nat * View) * disk :=
  match lockActive true t1 t2 with
  | Retry => (Err ERotatedTwice, at_disk t2)
  | Failed _ e d => (Err e, d)
  | Held ino start v d =>
      if negb (bool_decide (v_State v = StateOpen)) then (Err ErrSealed, d)
      else match Resume (MkReader (file_of d ino) false) Locked start with
           | (Ok c, _) => (Ok (c, ino, v), d)
           | (Err e, _) => (Err (ELedger e), d)
           end
  end.

Definition Writable (t1 t2 : attempt) : option control_error :=
  match (openActive t1 t2).1 with Ok _ => None | Err e => Some e end.
End set.

(** ** Appending *)

(** [manifestLogID] *)
Definition manifestLogID (v : View) : result control_error string :=
  if negb (bool_decide (v_LogID v = "")) then Ok (v_LogID v)
  else match GenesisLogID (v_Records v) with Some id => Ok id | None => Err ErrUnsealable end.

Definition checkSealPlacement (c : Chain) (view : View) (e : CEvent) : option control_error :=
  match ce_Seal e with
  | None => None
  | Some s =>
      if negb (bool_decide (ce_Action e = "seal")) then None
      else if count c <? 1 then Some ErrNothingToSeal
      else
        match manifestLogID view with
        | Err err => Some err
        | Ok _ =>
            let want := Z.of_nat (length (v_Sealed view)) + 1 in
            let first := base c + 1 in
            let head := base c + count c in
            let content := sealContentDigest (activeRecords view) in
            if negb (sl_Segment s =? want) then Some (EPermit (SealSegment (sl_Segment s) want))
            else if negb (sl_FirstSeq s =? first) then Some (EPermit (SealFirstSeq (sl_FirstSeq s) first))
            else if negb (sl_HeadSeq s =? head) then Some (EPermit (SealHeadSeq (sl_HeadSeq s) head))
            else if negb (bool_decide (sl_HeadHash s = prevHash c)) then Some (EPermit (SealHeadHash (sl_HeadHash s) (prevHash c)))
            else if negb (bool_decide (sl_ContentSHA256 s = content)) then Some (EPermit (SealContent (sl_ContentSHA256 s) content))
            else None
        end
  end.

(** What an append takes from outside: the clock, sixteen random bytes and
    the outcome of the write. *)
Record append_env : Type := MkAppendEnv { ae_now : string; ae_random : option string; ae_write : write_outcome }.

Section append.
  Context `{GoText} `{GoURL}.

Definition record_of (c : Chain) (env : append_env) (e : CEvent) : record :=
  MkRecord "control/1" (base c + count c + 1) (ae_now env) (ce_Action e) (ce_Agent e) (ce_Outcome e) (ce_Reason e) (ce_Invoker e)
    (ce_AssertedAs e) (ce_Witness e) (ce_ConfigHash e) (ce_Bootstrap e) (ce_FragmentLen e) (ce_FragmentSHA e)
    (Sanitized is_print (ce_Origin e)) (Clean is_print (ce_Detail e)) (ce_Anchor e) (ce_Seal e) (prevHash c)
    (if (base c =? 0) && (count c =? 0) then hex_encode (default "" (ae_random env)) else "").

(** The new head, or the error; the chain carries the file. *)
Definition appendOn (c : Chain) (view : View) (env : append_env) (e : CEvent) : result control_error (Head * string) * Chain :=
  let logical := base c + count c in
  match checkAnchorCoverage (ce_Anchor e) logical with
  | Some p => (Err (EPermit p), c)
  | None =>
      match checkSealPlacement c view e with
      | Some err => (Err err, c)
      | None =>
          let line := marshal_record (record_of c env e) in
          if (base c =? 0) && (count c =? 0) && negb (is_Some_b (ae_random env)) then (Err EIO, c)
          else match Ledger.Append (ae_write env) c line with
          | (c', Some err) => (Err (ELedger err), c')
          | (c', None) => (Ok (MkHead (prevHash c') (base c' + count c'), line), c')
          end
      end
  end.

Definition Append (active : string) (t1 t2 : attempt) (env : append_env) (e : CEvent) : result control_error Head * disk :=
  match permit e with
  | Some p => (Err (EPermit p), at_disk t1)
  | None =>
      match openActive active t1 t2 with
      | (Err err, d) => (Err err, d)
      | (Ok (c, ino, view), d) =>
          let '(r, c') := appendOn c view env e in
          (match r with Ok (head, _) => Ok head | Err err => Err err end, set_file d ino (file c'))
      end
  end.

(** ** Sealing *)

(** The sink seam; [None] is the floor. *)
Record PutReceipt : Type := MkReceipt { pr_VersionID : string; pr_RetainUntil : string; pr_Existed : bool }.
Record SinkWriter : Type := MkSinkWriter {
  sw_Kind : string;
  sw_URL : string;
  sw_Prepare : SealSink -> option string;
  sw_Locator : string -> Z -> string -> SealSink;
  sw_Put : SealSink -> string -> string -> result string PutReceipt;
}.

Record SealResult : Type := MkSealResult {
  sr_Segment : Z; sr_FirstSeq : Z; sr_HeadSeq : Z; sr_HeadHash : string; sr_SHA256 : string; sr_Path : string; sr_Completed : bool;
  sr_Sink : ptr SealSink; sr_Receipt : ptr PutReceipt;
}.

Inductive link_outcome : Type := LinkOk | LinkUnsupported | LinkFailed.

Definition linkSegment (active : string) (d : disk) (ino : nat) (n : Z) (o : link_outcome) : option control_error * disk :=
  let seg := SegmentPath active n in
  match dk_names d !! seg with
  | Some i => if bool_decide (i = ino) then (None, d) else (Some (ESet (set_error FaultUnexpectedSegment 0 seg 0 None)), d)
  | None =>
      match o with
      | LinkOk => (None, link_name d seg ino)
      | LinkUnsupported => (Some ErrNoHardLinks, d)
      | LinkFailed => (Some EIO, d)
      end
  end.

Definition is_temp (active name : string) : bool :=
  has_prefix name (active +:+ ".segments-") || has_prefix name ("." +:+ active +:+ ".next-") || has_prefix name ("." +:+ active +:+ ".restore-").
Definition sweepTemps (active : string) (d : disk) : disk :=
  MkDisk (filter (fun nv => is_temp active nv.1 = false) (dk_names d)) (dk_files d) (dk_next d).

Definition writeManifest (active : string) (d : disk) (m : Manifest) (o : rep_outcome) : option control_error * disk :=
  let data := marshal_manifest m in
  match ParseManifest active data with
  | Err e => (Some (EManifest e), d)
  | Ok _ => match Replace d (ManifestPath active) (active +:+ ".segments-") data o with
            | (true, d') => (None, d')
            | (false, d') => (Some EIO, d')
            end
  end.

Definition swapActive (active : string) (d : disk) (o : rep_outcome) : option control_error * disk :=
  match Replace d active ("." +:+ active +:+ ".next-") "" o with
  | (true, d') => (None, d')
  | (false, d') => (Some EIO, d')
  end.

Record confirmedCopy : Type := MkConfirmed { cc_block : SealSink; cc_whole : string; cc_receipt : PutReceipt }.

(** What a rotation takes from outside. *)
Record rotate_env : Type := MkRotateEnv { re_link : link_outcome; re_manifest : rep_outcome; re_swap : rep_outcome }.

(** The protected copy a seal record names: the receipt, none on the floor. *)
Definition protect (sink : option SinkWriter) (pre : option confirmedCopy) (logID : string) (n : Z) (rec : record) (whole bytes : string)
  : result control_error (option (SealSink * PutReceipt)) :=
  match match r_Seal rec with Some s => sl_Sink s | None => None end with
  | None => Ok None
  | Some block =>
      match sink with
      | None => Err ESinkPosture
      | Some sw =>
          if negb (bool_decide (sw_Kind sw = sk_Kind block)) || negb (bool_decide (sw_URL sw = sk_URL block)) then Err ESinkPosture
          else if negb (bool_decide (sk_Key block = sk_Key (sw_Locator sw logID n (r_Time rec)))) then Err ESinkKey
          else
            match pre with
            | Some p =>
                if bool_decide (sk_Kind (cc_block p) = sk_Kind block) && bool_decide (sk_URL (cc_block p) = sk_URL block) &&
                   bool_decide (cc_whole p = whole)
                then Ok (Some (block, cc_receipt p))
                else match sw_Put sw block bytes whole with Ok r => Ok (Some (block, r)) | Err t => Err (ESink t) end
            | None => match sw_Put sw block bytes whole with Ok r => Ok (Some (block, r)) | Err t => Err (ESink t) end
            end
      end
  end.

Definition seal_result (n : Z) (seg : Segment) (sunk : option (SealSink * PutReceipt)) : SealResult :=
  MkSealResult n (sg_FirstSeq seg) (sg_HeadSeq seg) (sg_HeadHash seg) (sg_SHA256 seg) (sg_Path seg) false (fst <$> sunk) (snd <$> sunk).

Definition finish_swap (active : string) (d : disk) (n : Z) (seg : Segment) (sunk : option (SealSink * PutReceipt)) (o : rep_outcome)
  : result control_error SealResult * disk :=
  match swapActive active d o with
  | (Some e, d') => (Err (ESealStep SealStepSwap e), d')
  | (None, d') => (Ok (seal_result n seg sunk), d')
  end.

(** State B: the link, the protected copy and the manifest. *)
Definition commit_manifest (active : string) (d : disk) (ino : nat) (v : View) (sink : option SinkWriter) (pre : option confirmedCopy) (env : rotate_env)
  : result control_error (Segment * option (SealSink * PutReceipt)) * disk :=
  let n := Z.of_nat (length (v_Sealed v)) + 1 in
  let recs := activeRecords v in
  match linkSegment active d ino n (re_link env) with
  | (Some e, d) => (Err (ESealStep SealStepLink e), d)
  | (None, d) =>
      match decodeRecord (default "" (last recs)) with
      | None => (Err (ESealStep SealStepManifest ESealUndecodable), d)
      | Some rec =>
          match r_Seal rec with
          | None => (Err (ESealStep SealStepManifest ESealUndecodable), d)
          | Some s =>
              let '(whole, size) := segmentDigests recs in
              let seg := MkSegment n (SegmentPath active n) (sg_FirstSeq (v_Active v)) (Count (v_Head v)) (Hash (v_Head v)) whole size
                           (Z.of_nat (length recs)) (r_Time rec) (sl_Sink s) in
              match manifestLogID v with
              | Err e => (Err (ESealStep SealStepManifest e), d)
              | Ok logID =>
                  match protect sink pre logID n rec whole (segmentBytes recs) with
                  | Err e => (Err (ESealStep SealStepSink e), d)
                  | Ok sunk =>
                      let m := MkManifest ManifestVersion logID (map (manifestEntry active) (v_Sealed v ++ [seg])) in
                      match writeManifest active d m (re_manifest env) with
                      | (Some e, d) => (Err (ESealStep SealStepManifest e), d)
                      | (None, d) => (Ok (seg, sunk), d)
                      end
                  end
              end
          end
      end
  end.

Definition rotate (active : string) (d : disk) (ino : nat) (v : View) (sink : option SinkWriter) (pre : option confirmedCopy) (env : rotate_env)
  : result control_error SealResult * disk :=
  match v_State v with
  | StateRotatedNotSwapped =>
      finish_swap active d (Z.of_nat (length (v_Sealed v))) (default zeroSegment (last (v_Sealed v))) None (re_swap env)
  | _ =>
      match commit_manifest active d ino v sink pre env with
      | (Err e, d) => (Err e, d)
      | (Ok (seg, sunk), d) => finish_swap active d (sg_N seg) seg sunk (re_swap env)
      end
  end.

(** The view once the seal line is written. *)
Definition sealed_view (v : View) (head : Head) (line : string) : View :=
  let a := v_Active v in
  MkView (v_Records v ++ [line]) head (v_Sealed v)
    (MkSegment (sg_N a) (sg_Path a) (sg_FirstSeq a) (Count head) (Hash head) (sg_SHA256 a) (sg_Bytes a) (sg_Records a + 1) (sg_SealedAt a) (sg_Sink a))
    (v_State v) (v_LogID v).

Record seal_env : Type := MkSealEnv { sv_now : string; sv_append : append_env; sv_link : link_outcome; sv_rotate : rotate_env }.

Definition SealActive (active : string) (t1 t2 : attempt) (env : seal_env) (e : CEvent) (sink : option SinkWriter)
  : result control_error SealResult * disk :=
  if negb (bool_decide (ce_Action e = "seal")) || negb (bool_decide (ce_Outcome e = "success")) || is_Some_b (ce_Seal e)
  then (Err ESealMisused, at_disk t1)
  else
    match openActive active t1 t2 with
    | (Err err, d) => (Err err, d)
    | (Ok (c, ino, v), d) =>
        let d := sweepTemps active d in
        if count c =? 0 then (Err ErrNothingToSeal, d)
        else
          match manifestLogID v with
          | Err err => (Err err, d)
          | Ok logID =>
              let n := Z.of_nat (length (v_Sealed v)) + 1 in
              let loc := match sink with Some sw => Some (sw_Locator sw logID n (sv_now env)) | None => None end in
              let refused := match sink, loc with Some sw, Some l => sw_Prepare sw l | _, _ => None end in
              match refused with
              | Some t => (Err (ESealStep SealStepPreflight (ESink t)), d)
              | None =>
                  match linkSegment active d ino n (sv_link env) with
                  | (Some err, d) => (Err (ESealStep SealStepLink err), d)
                  | (None, d) =>
                      let s := MkSeal n (base c + 1) (base c + count c) (prevHash c) (sealContentDigest (activeRecords v)) loc in
                      let e := { e with ce_Seal := Some s } in
                      match checkSealShape e with
                      | Some p => (Err (ESealStep SealStepRecord (EPermit p)), d)
                      | None =>
                          match appendOn c v (sv_append env) e with
                          | (Err err, c') => (Err (ESealStep SealStepRecord err), set_file d ino (file c'))
                          | (Ok (head, line), c') => rotate active (set_file d ino (file c')) ino (sealed_view v head line) sink None (sv_rotate env)
                          end
                      end
                  end
              end
          end
    end.

Definition completeSealWith (active : string) (t1 t2 : attempt) (env : rotate_env) (sink : option SinkWriter) (pre : option confirmedCopy)
  : result control_error SealResult * disk :=
  match lockActive active false t1 t2 with
  | Retry => (Err ERotatedTwice, at_disk t2)
  | Failed _ e d => (Err e, d)
  | Held ino _ v d =>
      if bool_decide (v_State v = StateOpen) then (Err ErrNothingToComplete, d)
      else
        match rotate active (sweepTemps active d) ino v sink pre env with
        | (Ok r, d) => (Ok (MkSealResult (sr_Segment r) (sr_FirstSeq r) (sr_HeadSeq r) (sr_HeadHash r) (sr_SHA256 r) (sr_Path r) true (sr_Sink r) (sr_Receipt r)), d)
        | (Err e, d) => (Err e, d)
        end
  end.

Definition CompleteSeal (active : string) (t1 t2 : attempt) (env : rotate_env) (sink : option SinkWriter) := completeSealWith active t1 t2 env sink None.

(** ** Repair *)
Record RepairResult : Type := MkRepairResult { rr_FragmentLen : Z; rr_FragmentSHA : string; rr_CompletedSegment : Z }.

(** The active's first successful seal, if the rotation it asks for can
    complete. *)
Fixpoint seal_index (i : nat) (recs : list string) : option (nat * record) :=
  match recs with
  | [] => None
  | r :: rest =>
      match decodeRecord r with
      | Some rec => if is_seal rec then Some (i, rec) else seal_index (S i) rest
      | None => seal_index (S i) rest
      end
  end.

Definition sealToComplete (active : string) (v : View) (recs : list string) : result control_error (option (nat * record)) :=
  match seal_index 0 recs with
  | None => Ok None
  | Some (i, rec) =>
      let a := v_Active v in
      let through :=
        MkView (take (length (v_Records v) - length recs + i + 1) (v_Records v))
          (MkHead (sha256_hex (nth i recs "")) (r_Seq rec)) (v_Sealed v)
          (MkSegment (sg_N a) (sg_Path a) (sg_FirstSeq a) (sg_HeadSeq a) (sg_HeadHash a) (sg_SHA256 a) (sg_Bytes a) (Z.of_nat i + 1) (sg_SealedAt a) (sg_Sink a))
          (v_State v) (v_LogID v) in
      match finishActive active through (Z.of_nat (length (v_Sealed v))) with
      | (_, Some e) => Err e
      | (_, None) => let! _ := manifestLogID through in Ok (Some (i, rec))
      end
  end.

(** The fragment's file: the first free name of the thousand tried. *)
Definition maxTornFragmentAttempts : nat := Z.to_nat 1000.
Definition torn_candidate (active : string) (unix : Z) (attempt : nat) : string :=
  active +:+ ".torn-" +:+ itoa unix +:+ match attempt with O => "" | S _ => "-" +:+ itoa (Z.of_nat attempt + 1) end.
Fixpoint torn_name (active : string) (unix : Z) (d : disk) (fuel attempt : nat) : option string :=
  match fuel with
  | O => None
  | S f =>
      let name := torn_candidate active unix attempt in
      if is_Some_b (dk_names d !! name) then torn_name active unix d f (S attempt) else Some name
  end.

(** What moving the tail aside takes from outside: whether the name was
    swapped before the lock, the lock, the clock, what of the fragment was
    written when its write failed, and whether the truncate and its sync
    succeeded. *)
Record move_env : Type := MkMoveEnv {
  mv_swapped : bool; mv_lock : result ledger_error (); mv_unix : Z; mv_partial : option string; mv_truncate : bool; mv_sync : bool;
}.

Fixpoint drop_str (n : nat) (s : string) : string :=
  match n, s with
  | S n', String _ r => drop_str n' r
  | _, _ => s
  end.

Definition writeTornFragment (active : string) (d : disk) (env : move_env) (fragment : string) : option control_error * disk :=
  match torn_name active (mv_unix env) d maxTornFragmentAttempts 0 with
  | None => (Some ERepairFragment, d)
  | Some name =>
      match mv_partial env with
      | Some part => (Some EIO, create_file d name part)
      | None => (None, create_file d name fragment)
      end
  end.

Definition moveTailAside (active : string) (d : disk) (env : move_env) (offset : Z) (prefix : list string)
  : result control_error RepairResult * disk :=
  match dk_names d !! active with
  | None => (Err ENotExist, d)
  | Some ino =>
      match mv_lock env with
      | Err e => (Err (ELedger e), d)
      | Ok _ =>
          let raw := file_of d ino in
          if mv_swapped env then (Err ERepairRotated, d)
          else if (offset <? 0) || (str_len raw <? offset) then (Err ERepairRange, d)
          else
            let before := take_str (Z.to_nat offset) raw in
            let changed := match last prefix with
                           | Some r => negb (has_suffix before (r +:+ String newline ""))
                           | None => false
                           end in
            if changed then (Err ERepairChanged, d)
            else
              let fragment := drop_str (Z.to_nat offset) raw in
              match writeTornFragment active d env fragment with
              | (Some e, d) => (Err e, d)
              | (None, d) =>
                  if negb (mv_truncate env) then (Err EIO, d)
                  else
                    let d := set_file d ino before in
                    if negb (mv_sync env) then (Err EIO, d) else (Ok (MkRepairResult (str_len fragment) (sha256_hex fragment) 0), d)
              end
      end
  end.

(** The repair record's author. *)
Record author : Type := MkAuthor { au_op : Invoker; au_asserted : string; au_witness : Witness }.

Definition repair_event (res : RepairResult) (by_ : author) : CEvent :=
  { zeroCEvent with ce_Action := "repair"; ce_Outcome := "success"; ce_FragmentLen := rr_FragmentLen res; ce_FragmentSHA := rr_FragmentSHA res;
    ce_Invoker := au_op by_; ce_AssertedAs := au_asserted by_; ce_Witness := au_witness by_ }.

Definition appendRepair (active : string) (t1 t2 : attempt) (env : append_env) (res : RepairResult) (by_ : author) : option control_error * disk :=
  match Append active t1 t2 env (repair_event res by_) with
  | (Ok _, d) => (None, d)
  | (Err e, d) => (Some (ERepairAppend e), d)
  end.

(** Between the phases of a repair no lock is held: [rp_gap i] is what other
    processes did before phase [i]. *)
Record repair_env : Type := MkRepairEnv {
  rp_lock : result ledger_error (); rp_move : move_env; rp_rotate : rotate_env; rp_append : append_env; rp_gap : nat -> disk -> disk;
}.

(** The last phase: the repair record, on the disk the gap leaves. *)
Definition record_repair (active : string) (env : repair_env) (d : disk) (res : RepairResult) (by_ : author) : result control_error RepairResult * disk :=
  let t := now (rp_gap env 2 d) in
  match appendRepair active t t (rp_append env) res by_ with
  | (Some e, d) => (Err e, d)
  | (None, d) => (Ok res, d)
  end.

(** The protected copy of a seal to complete, confirmed before anything is
    touched. *)
Definition preconfirm (v : View) (sealed : list string) (rec : record) (s : Seal) (sink : option SinkWriter)
  : result control_error (option confirmedCopy) :=
  match sl_Sink s with
  | None => Ok None
  | Some block =>
      match sink with
      | None => Err ESinkPosture
      | Some sw =>
          if negb (bool_decide (sw_Kind sw = sk_Kind block)) || negb (bool_decide (sw_URL sw = sk_URL block)) then Err ESinkPosture
          else
            let! logID := manifestLogID v in
            if negb (bool_decide (sk_Key block = sk_Key (sw_Locator sw logID (Z.of_nat (length (v_Sealed v)) + 1) (r_Time rec)))) then Err ESinkKey
            else
              let whole := (segmentDigests sealed).1 in
              match sw_Put sw block (segmentBytes sealed) whole with
              | Ok r => Ok (Some (MkConfirmed block whole r))
              | Err t => Err (ESink t)
              end
      end
  end.

Definition repair_rotation (active : string) (env : repair_env) (d : disk) (v : View) (recs : list string) (i : nat) (sink : option SinkWriter) (by_ : author)
  : result control_error RepairResult * disk :=
  let sealed := take (S i) recs in
  match decodeRecord (default "" (last sealed)) with
  | None => (Err ESealUndecodable, d)
  | Some rec =>
      match r_Seal rec with
      | None => (Err ESealUndecodable, d)
      | Some s =>
          match preconfirm v sealed rec s sink with
          | Err e => (Err e, d)
          | Ok pre =>
              match moveTailAside active (rp_gap env 0 d) (rp_move env) (str_len (bytes_of sealed)) sealed with
              | (Err e, d) => (Err e, d)
              | (Ok res, d) =>
                  let t := now (rp_gap env 1 d) in
                  match completeSealWith active t t (rp_rotate env) sink pre with
                  | (Err e, d) => (Err (ERepairRotation e), d)
                  | (Ok sr, d) => record_repair active env d (MkRepairResult (rr_FragmentLen res) (rr_FragmentSHA res) (sr_Segment sr)) by_
                  end
              end
          end
      end
  end.

Definition Repair (active : string) (d : disk) (env : repair_env) (by_ : author) (sink : option SinkWriter) : result control_error RepairResult * disk :=
  match Read active (rp_lock env) d with
  | (v, None) => (Err (if bool_decide (v_State v = StateOpen) then ERepairNotTorn else ERepairSealed), d)
  | (v, Some (ESet se)) =>
      if negb (se_Segment se =? 0) then (Err (ESet se), d)
      else
        match se_Fault se with
        | FaultBroken => (Err (ERepairBroken (se_Seq se)), d)
        | FaultTorn | FaultSealNotLast =>
            let recs := activeRecords v in
            match sealToComplete active v recs with
            | Err e => (Err e, d)
            | Ok None =>
                match se_Err se with
                | Some (ChainCause (TornError off)) =>
                    match moveTailAside active (rp_gap env 0 d) (rp_move env) off recs with
                    | (Err e, d) => (Err e, d)
                    | (Ok res, d) => record_repair active env d res by_
                    end
                | _ => (Err ERepairNoSeal, d)
                end
            | Ok (Some (i, _)) => repair_rotation active env d v recs i sink by_
            end
        | _ => (Err (ESet se), d)
        end
  | (_, Some e) => (Err e, d)
  end.
End append.
