(* ===== verification/SegmentSet.v ===== *)
(** * What a segment set means

    The specification of the segmented control ledger: a set is a list of
    sealed segments and an active one, and stands for one chain of records.
    [repr] relates a directory to the set it holds; [view_of] is the view a
    reader must get.  [Read] returns it ([Read_repr]). *)
From S2P Require Import Prelude Sha256 GoStr Json Paths Ledger Config Origin Event ControlRecord Manifest Segments.

(** ** One chain in pieces *)
Definition zlen {A} (l : list A) : Z := Z.of_nat (length l).
Lemma zlen_app {A} (l1 l2 : list A) : zlen (l1 ++ l2) = zlen l1 + zlen l2.
Proof. unfold zlen. rewrite length_app. lia. Qed.
Lemma zlen_nonneg {A} (l : list A) : 0 <= zlen l.
Proof. unfold zlen. lia. Qed.

(** Where the chain stands after [rs]. *)
Definition head_hash (rs : list string) : string := match last rs with Some r => sha256_hex r | None => "" end.
Definition start_of (rs : list string) : Start := MkStart (head_hash rs) (zlen rs).

Lemma start_of_valid rs : validate (start_of rs) = true.
Proof.
  unfold validate, start_of, head_hash, zlen. cbn [StartPrev StartBase]. destruct rs as [|x rs _] using rev_ind; [done|].
  rewrite last_snoc, length_app. cbn [length]. rewrite bool_decide_false by apply sha256_hex_nonempty.
  by rewrite (proj2 (Z.eqb_neq _ _)) by lia.
Qed.

(** The records [rs] are a numbered chain from the genesis. *)
Definition lchain (rs : list string) : Prop :=
  Forall no_nl rs /\ zlen rs < max_int64 /\ exists est sm, chain 0 0 "" false false rs (head_hash rs) est sm /\ (rs <> [] -> sm = true).

Lemma accepts_shift b k i p e s raw s' : accepts b (k + i) p e s raw s' <-> accepts (b + k) i p e s raw s'.
Proof. unfold accepts. by replace (b + (k + i + 1)) with (b + k + (i + 1)) by lia. Qed.

Lemma chain_shift b k i p e s rs p' e' s' : chain b (k + i) p e s rs p' e' s' <-> chain (b + k) i p e s rs p' e' s'.
Proof.
  split.
  - intros Hc. remember (k + i) as j eqn:Ej. revert i Ej.
    induction Hc as [|j p e s raw sm1 rs p' e' s' Ha Hc IH]; intros i' ->; [constructor|].
    econstructor; [by apply accepts_shift|]. apply IH. lia.
  - intros Hc. induction Hc as [|i p e s raw sm1 rs p' e' s' Ha Hc IH]; [constructor|].
    econstructor; [by apply accepts_shift|]. by replace (k + i + 1) with (k + (i + 1)) by lia.
Qed.

Lemma chain_end b i p e s rs p' e' s' : chain b i p e s rs p' e' s' ->
  p' = match last rs with Some r => sha256_hex r | None => p end /\ (rs <> [] -> e' = true).
Proof.
  destruct rs as [|r rs _] using rev_ind; [by inversion 1|]. intros (p1 & e1 & s1 & _ & Hc)%chain_app_inv. rewrite last_snoc.
  inversion Hc as [|? ? ? ? ? ? ? ? ? ? _ Hn]; subst. inversion Hn; subst. done.
Qed.

(** The mode never changes once established. *)
Lemma chain_mode b i p m rs p' e' s' : chain b i p true m rs p' e' s' -> s' = m.
Proof.
  intros Hc. remember true as e0 eqn:E0. revert E0. induction Hc as [|i p e s raw s1 rs p' e' s' (g & _ & Hg & Hm & _) Hc IH]; intros ->; [done|].
  rewrite (Hm eq_refl). by apply IH.
Qed.

Lemma head_hash_app rs1 rs2 : head_hash (rs1 ++ rs2) = match last rs2 with Some r => sha256_hex r | None => head_hash rs1 end.
Proof.
  unfold head_hash. destruct rs2 as [|r rs _] using rev_ind; [by rewrite app_nil_r|]. by rewrite app_assoc, !last_snoc.
Qed.

(** A chain cut in two: the second part continues the first from its head. *)
Definition continues (rs1 rs2 : list string) : Prop :=
  exists est sm, chain_from (start_of rs1) rs2 (MkHead (head_hash (rs1 ++ rs2)) (zlen rs2)) est sm /\ (rs1 ++ rs2 <> [] -> sm = true).

Lemma lchain_split rs1 rs2 : lchain (rs1 ++ rs2) <-> (lchain rs1 /\ zlen (rs1 ++ rs2) < max_int64 /\ continues rs1 rs2).
Proof.
  split.
  - intros (Hn & Hl & est & sm & Hc & Hsm). apply Forall_app in Hn as [Hn1 Hn2]. apply chain_app_inv in Hc as (p1 & e1 & s1 & Hc1 & Hc2).
    pose proof (zlen_nonneg rs1). pose proof (zlen_nonneg rs2). rewrite zlen_app in Hl.
    assert (p1 = head_hash rs1 /\ (rs1 <> [] -> e1 = true)) as [-> He1] by (by apply chain_end in Hc1).
    assert (rs1 <> [] -> s1 = true) as Hs1.
    { intros Hne. destruct rs2 as [|r rs2]; [inversion Hc2; subst; apply Hsm; by destruct rs1|].
      inversion Hc2 as [|? ? ? ? ? sm1 ? ? ? ? (f & Hf & Hs & Heq & _) Hc']; subst.
      rewrite (Heq (He1 Hne)), <- (chain_mode _ _ _ _ _ _ _ _ Hc'). apply Hsm. by destruct rs1. }
    split; [split_and!; [done|lia|by exists e1, s1]|]. split; [rewrite zlen_app; lia|]. exists est, sm. split; [|done]. split_and!; [done|done|].
    cbn [start_of StartBase StartPrev Hash]. rewrite Z.add_0_l in Hc2. apply (chain_shift 0 (zlen rs1) 0). rewrite Z.add_0_r.
    destruct rs1 as [|r0 rs1]; [by inversion Hc1; subst|]. rewrite He1, Hs1 in Hc2 by done.
    by replace (0 <? zlen (r0 :: rs1)) with true by (symmetry; apply Z.ltb_lt; unfold zlen; cbn; lia).
  - intros ((Hn1 & _ & e1 & s1 & Hc1 & Hs1) & Hl & est & sm & (Hn2 & _ & Hc2) & Hsm).
    split_and!; [by apply Forall_app|done|]. exists est, sm. split; [|done]. eapply chain_app; [exact Hc1|].
    cbn [start_of StartBase StartPrev Hash] in Hc2. rewrite Z.add_0_l. apply (chain_shift 0 (zlen rs1) 0) in Hc2. rewrite Z.add_0_r in Hc2.
    destruct rs1 as [|r0 rs1]; [by inversion Hc1; subst|]. destruct (chain_end _ _ _ _ _ _ _ _ _ Hc1) as [_ He]. rewrite He, Hs1 by done.
    by replace (0 <? zlen (r0 :: rs1)) with true in Hc2 by (symmetry; apply Z.ltb_lt; unfold zlen; cbn; lia).
Qed.

(** A segment's file verifies from where the chain stood. *)
Lemma segment_verifies rs1 rs2 : lchain (rs1 ++ rs2) ->
  VerifyReader (MkReader (bytes_of rs2) false) (start_of rs1) = (rs2, MkHead (head_hash (rs1 ++ rs2)) (zlen rs2), None).
Proof.
  intros (_ & _ & est & sm & Hc & _)%lchain_split. unfold VerifyReader. rewrite start_of_valid. cbn [negb].
  by rewrite (loadChain_complete _ _ _ _ _ Hc).
Qed.

(** ** The set and its view *)
Section set.
  Context (a : string).

(** The seal that ends a segment. *)
Definition seal_record (seg : list string) : record := default zeroRecord (decodeRecord (default "" (last seg))).

(** The segment [seg], number [k], after the records [rs]. *)
Definition segment_of (rs : list string) (k : Z) (seg : list string) : Segment :=
  let rec := seal_record seg in
  MkSegment k (SegmentPath a k) (zlen rs + 1) (zlen (rs ++ seg)) (head_hash (rs ++ seg)) (sha256_hex (bytes_of seg)) (str_len (bytes_of seg))
    (zlen seg) (r_Time rec) (match r_Seal rec with Some s => sl_Sink s | None => None end).

Fixpoint segments_of (rs : list string) (k : Z) (segs : list (list string)) : list Segment :=
  match segs with
  | [] => []
  | seg :: r => segment_of rs k seg :: segments_of (rs ++ seg) (k + 1) r
  end.

Definition sealed_by (rs : list string) (k : Z) (seg : list string) : Prop :=
  scan_seal k (zlen rs + 1) [] seg = Seals (seal_record seg) /\ IsZero (r_Time (seal_record seg)) = false /\ time_ok (r_Time (seal_record seg)).

Fixpoint segs_ok (rs : list string) (k : Z) (segs : list (list string)) : Prop :=
  match segs with
  | [] => True
  | seg :: r => sealed_by rs k seg /\ segs_ok (rs ++ seg) (k + 1) r
  end.

(** What a reader must see: [id] is the identity the manifest carries. *)
Definition view_of (id : string) (segs : list (list string)) (act : list string) (st : State) (size : Z) : View :=
  let rs := concat segs in
  MkView (rs ++ act) (MkHead (head_hash (rs ++ act)) (zlen (rs ++ act))) (segments_of [] 1 segs)
    (MkSegment 0 a (zlen rs + 1) (zlen (rs ++ act)) (head_hash (rs ++ act)) "" size (zlen act) "" None) st id.

(** The manifest that lists [segs]. *)
Definition lists (m : Manifest) (segs : list (list string)) : Prop :=
  m_Segments m = map (manifestEntry a) (segments_of [] 1 segs) /\ GenesisLogID (concat segs) = Some (m_LogID m).

Definition manifest_repr (d : disk) (ino : nat) (id : string) (segs : list (list string)) : Prop :=
  match segs with
  | [] => dk_names d !! ManifestPath a = None /\ id = ""
  | _ => exists j m, dk_names d !! ManifestPath a = Some j /\ j <> ino /\ ParseManifest a (file_of d j) = Ok m /\ lists m segs /\ m_LogID m = id
  end.

(** A name the listing finds: a listed segment, or the next one, linked to
    the active and not yet in the manifest. *)
Definition sibling_ok (d : disk) (ino : nat) (st : State) (n : Z) (name : string) : Prop :=
  exists k, name = SegmentPath a k /\ (1 <= k <= n \/ (k = n + 1 /\ st <> StateRotatedNotSwapped) /\ dk_names d !! name = Some ino).

(** Where the active stands. *)
Definition scan_ok (segs : list (list string)) (act : list string) (st : State) : Prop :=
  let scan := scan_seal (zlen segs + 1) (zlen (concat segs) + 1) [] act in
  match st with
  | StateOpen => scan = NoSeal
  | StateSealedNotRotated => sealed_by (concat segs) (zlen segs + 1) act
  | StateRotatedNotSwapped => act = [] /\ segs <> []
  end.

(** The directory [d] holds the set; the active name refers to [ino], whose
    bytes are the records [act] and an unfinished line [frag]. *)
Record repr (d : disk) (ino : nat) (id : string) (segs : list (list string)) (act : list string) (frag : string) (st : State) : Prop := {
  rep_active : dk_names d !! a = Some ino;
  rep_file : match st with
            | StateRotatedNotSwapped => frag = "" /\ dk_names d !! SegmentPath a (zlen segs) = Some ino
            | _ => file_of d ino = bytes_of act +:+ frag
            end;
  rep_segs : forall i seg, segs !! i = Some seg ->
    exists j, dk_names d !! SegmentPath a (Z.of_nat i + 1) = Some j /\ file_of d j = bytes_of seg /\ (j = ino -> st = StateRotatedNotSwapped);
  rep_manifest : manifest_repr d ino id segs;
  rep_siblings : forall name, is_Some (dk_names d !! name) -> has_prefix name (a +:+ ".seg-") = true -> sibling_ok d ino st (zlen segs) name;
  rep_count : zlen segs < 999999;
  rep_next : forall name j, dk_names d !! name = Some j -> (j < dk_next d)%nat;
  rep_chain : lchain (concat segs ++ act);
  rep_frag : no_nl frag;
  rep_bytes : str_len (bytes_of (concat segs ++ act)) < max_int64;
  rep_seals : segs_ok [] 1 segs;
  rep_scan : scan_ok segs act st;
}.

(** ** The sealed walk *)
Lemma verifySealed_ok d k rs seg :
  content d (SegmentPath a k) = Some (bytes_of seg) -> lchain (rs ++ seg) -> sealed_by rs k seg ->
  verifySealed a d k (start_of rs) (manifestEntry a (segment_of rs k seg)) = (Ok (segment_of rs k seg), seg).
Proof.
  intros Hd Hc (Hs & Hz & _). unfold verifySealed. rewrite Hd, (segment_verifies _ _ Hc). unfold segmentDigests.
  change (StartBase (start_of rs)) with (zlen rs). rewrite Hs, Hz.
  assert (entry_disagrees (start_of rs) (MkHead (head_hash (rs ++ seg)) (zlen seg)) (sha256_hex (bytes_of seg)) (str_len (bytes_of seg))
            (str_len (bytes_of seg)) (manifestEntry a (segment_of rs k seg)) = None) as ->.
  { unfold entry_disagrees, manifestEntry, segment_of. cbn. rewrite zlen_app, !Z.eqb_refl, !bool_decide_true by done. done. }
  unfold segment_of. cbn. by rewrite zlen_app.
Qed.

Lemma walk_entries_ok d k rs segs w :
  (forall i seg, segs !! i = Some seg -> content d (SegmentPath a (k + Z.of_nat i)) = Some (bytes_of seg)) ->
  lchain (rs ++ concat segs) -> segs_ok rs k segs -> w_start w = start_of rs ->
  walk_entries a d k (map (manifestEntry a) (segments_of rs k segs)) w
  = (MkWalk (w_m w) (MkView (v_Records (w_v w) ++ concat segs) (v_Head (w_v w)) (v_Sealed (w_v w) ++ segments_of rs k segs) (v_Active (w_v w))
              (v_State (w_v w)) (v_LogID (w_v w))) (start_of (rs ++ concat segs)), None).
Proof.
  revert k rs w. induction segs as [|seg segs IH]; intros k rs w Hd Hc Hs Hw; cbn [segments_of map walk_entries concat].
  - rewrite !app_nil_r. rewrite <- Hw. by destruct w as [m [] s].
  - destruct Hs as [Hs Hs']. cbn [concat] in Hc. rewrite app_assoc in Hc.
    assert (lchain (rs ++ seg)) as Hc1 by (by apply lchain_split in Hc as [? _]).
    rewrite Hw, verifySealed_ok; [|by specialize (Hd O seg eq_refl); rewrite Z.add_0_r in Hd|done|done].
    rewrite (IH (k + 1) (rs ++ seg)); [|..|done].
    + cbn. by rewrite <- !app_assoc.
    + intros i s Hi. specialize (Hd (S i) s Hi). by replace (k + 1 + Z.of_nat i) with (k + Z.of_nat (S i)) by lia.
    + done.
    + done.
Qed.

Definition walk_of (m : option Manifest) (id : string) (segs : list (list string)) : sealedWalk :=
  MkWalk m (MkView (concat segs) (MkHead "" 0) (segments_of [] 1 segs) zeroSegment StateOpen id) (start_of (concat segs)).

Lemma walk_repr d ino id segs act frag st : repr d ino id segs act frag st ->
  exists m, loadManifest a d = Ok m /\ walkSealed a d = (walk_of m id segs, None) /\
    match m with None => segs = [] /\ id = "" | Some m => segs <> [] /\ lists m segs /\ m_LogID m = id end.
Proof.
  intros Hr. pose proof (rep_manifest _ _ _ _ _ _ _ Hr) as Hm. unfold walkSealed, loadManifest, content. destruct segs as [|seg segs].
  - destruct Hm as [-> ->]. exists None. by split_and!.
  - destruct Hm as (j & m & -> & _ & Hp & [Hl Hg] & Hid). cbn [fmap option_fmap option_map]. rewrite Hp. exists (Some m). split; [done|].
    split; [|done]. rewrite Hl, walk_entries_ok with (rs := []).
    + unfold walk_of. cbn. by rewrite Hid.
    + intros i s Hi. destruct (rep_segs _ _ _ _ _ _ _ Hr i s Hi) as (ji & Hn & Hf & _). unfold content.
      replace (1 + Z.of_nat i) with (Z.of_nat i + 1) by lia. rewrite Hn. cbn. by rewrite Hf.
    + pose proof (rep_chain _ _ _ _ _ _ _ Hr) as Hc. by apply lchain_split in Hc as [Hc _].
    + exact (rep_seals _ _ _ _ _ _ _ Hr).
    + done.
Qed.

(** ** The listing *)
Lemma list_siblings_ok names : (forall p, p ∈ names -> exists k, p = SegmentPath a k /\ 1 <= k <= 999999) ->
  exists l, list_siblings a names = Ok l /\ forall s, s ∈ l -> s.2 ∈ names /\ s.2 = SegmentPath a s.1 /\ 1 <= s.1 <= 999999.
Proof.
  induction names as [|p names IH]; intros Hp; cbn [list_siblings].
  - exists []. split; [done|]. intros s Hs. by apply elem_of_nil in Hs.
  - destruct (Hp p) as (k & -> & Hk); [left|]. unfold SegmentPath at 1. rewrite cut_prefix_app. cbn [default].
    unfold id. rewrite segment_name_matches by lia. destruct IH as (l & -> & Hl); [intros q Hq; apply Hp; by right|].
    exists ((k, SegmentPath a k) :: l). split; [done|]. intros s [->|Hs]%elem_of_cons; [cbn; split_and!; [by left|done|lia|lia]|].
    destruct (Hl s Hs) as (? & ? & ?). split_and!; [by right|done|lia|lia].
Qed.

Lemma elem_of_siblings d p : p ∈ siblingNames a d -> is_Some (dk_names d !! p) /\ has_prefix p (a +:+ ".seg-") = true.
Proof.
  unfold siblingNames. rewrite list_elem_of_filter, elem_of_sort, list_elem_of_fmap. intros [Hp ([k v] & -> & Hk)].
  split; [|done]. apply elem_of_map_to_list in Hk. by exists v.
Qed.

Lemma find_none_all {A} (f : A -> bool) l : (forall x, x ∈ l -> f x = false) -> List.find f l = None.
Proof.
  induction l as [|x l IH]; intros Hf; [done|]. cbn. rewrite (Hf x) by left. apply IH. intros y Hy. apply Hf. by right.
Qed.

Lemma siblings_explained d ino st n : n < 999999 ->
  (forall name, is_Some (dk_names d !! name) -> has_prefix name (a +:+ ".seg-") = true -> sibling_ok d ino st n name) -> 0 <= n ->
  exists l, listSiblings a d = Ok l /\ unexplained d ino n l = None.
Proof.
  intros Hn Hs Hn0. destruct (list_siblings_ok (siblingNames a d)) as (l & Hl & Hin).
  { intros p [Hp1 Hp2]%elem_of_siblings. destruct (Hs p Hp1 Hp2) as (k & -> & Hk). exists k. split; [done|]. lia. }
  exists l. split; [done|]. unfold unexplained. rewrite find_none_all; [done|]. intros [k p] Hk.
  destruct (Hin _ Hk) as (Hp & Epk & Hb). cbn [fst snd] in *. apply elem_of_siblings in Hp as [Hp1 Hp2].
  destruct (Hs p Hp1 Hp2) as (k' & -> & Hk'). apply SegmentPath_inj in Epk; [|unfold two64; lia..]. subst k'.
  destruct Hk' as [Hk'|[[-> _] Hino]].
  - by rewrite (proj2 (Z.leb_le 1 k)), (proj2 (Z.leb_le k n)) by lia.
  - unfold sameFile. rewrite Z.eqb_refl, bool_decide_true by done. by rewrite andb_false_r.
Qed.

(** ** Reading the set back *)
Lemma genesis_app rs act id : GenesisLogID rs = Some id -> GenesisLogID (rs ++ act) = Some id.
Proof. by destruct rs. Qed.

Lemma fragment_verifies rs1 rs2 frag : lchain (rs1 ++ rs2) -> frag <> "" -> no_nl frag ->
  VerifyReader (MkReader (bytes_of rs2 +:+ frag) false) (start_of rs1)
  = (rs2, MkHead (head_hash (rs1 ++ rs2)) (zlen rs2), Some (TornError (str_len (bytes_of rs2)))).
Proof.
  intros (_ & _ & est & sm & Hc & _)%lchain_split Hf Hn. unfold VerifyReader. rewrite start_of_valid. cbn [negb].
  by rewrite (loadChain_fragment _ _ _ _ _ _ Hc Hf Hn).
Qed.

Lemma activeRecords_view id segs act st size : activeRecords (view_of id segs act st size) = act.
Proof.
  unfold activeRecords, view_of, zlen. cbn. rewrite length_app, Nat2Z.id.
  replace (length (concat segs) + length act - length act)%nat with (length (concat segs)) by lia. apply drop_app_length.
Qed.

(** The size a reader reports. *)
Definition size_of (d : disk) (ino : nat) (st : State) : Z := match st with StateRotatedNotSwapped => 0 | _ => str_len (file_of d ino) end.

Lemma segments_of_length rs k segs : length (segments_of rs k segs) = length segs.
Proof. revert rs k. induction segs; intros; cbn; auto. Qed.

Lemma not_same_file d ino id segs act frag st : repr d ino id segs act frag st -> segs <> [] ->
  sameFile d (SegmentPath a (zlen segs)) ino = bool_decide (st = StateRotatedNotSwapped).
Proof.
  intros Hr Hne. unfold sameFile. apply bool_decide_ext. destruct segs as [|seg segs _] using rev_ind; [done|].
  destruct (rep_segs _ _ _ _ _ _ _ Hr (length segs) seg) as (j & Hj & _ & Hji); [by rewrite list_lookup_middle|].
  unfold zlen. rewrite length_app. cbn [length]. replace (Z.of_nat (length segs + 1)) with (Z.of_nat (length segs) + 1) by lia. rewrite Hj.
  split; [intros [= ->]; by apply Hji|]. intros ->. destruct (rep_file _ _ _ _ _ _ _ Hr) as [_ Hf].
  unfold zlen in Hf. rewrite length_app in Hf. cbn [length] in Hf. replace (Z.of_nat (length segs + 1)) with (Z.of_nat (length segs) + 1) in Hf by lia.
  congruence.
Qed.

(** What a reader answers: the view, or the active's torn tail. *)
Definition verdict (d : disk) (ino : nat) (id : string) (segs : list (list string)) (act : list string) (frag : string) (st : State)
  : View * option control_error :=
  if bool_decide (frag = "") then (view_of id segs act st (size_of d ino st), None)
  else (view_of id segs act StateOpen (str_len (file_of d ino)),
        Some (ESet (set_error FaultTorn 0 a (zlen (concat segs ++ act) + 1) (Some (ChainCause (TornError (str_len (bytes_of act)))))))).

Lemma finish_ok id segs act st size : st <> StateRotatedNotSwapped -> scan_ok segs act st ->
  finishActive a (view_of id segs act StateOpen size) (zlen segs) = (view_of id segs act st size, None).
Proof.
  intros Hst Hs. unfold finishActive. rewrite activeRecords_view. cbn [view_of v_Active sg_FirstSeq].
  destruct st; cbn [scan_ok] in Hs; [by rewrite Hs| |done]. destruct Hs as [-> _]. done.
Qed.

Lemma view_head rs act : (if 0 <? zlen act then MkHead (head_hash (rs ++ act)) (zlen rs + zlen act) else MkHead (head_hash rs) (zlen rs))
  = MkHead (head_hash (rs ++ act)) (zlen (rs ++ act)).
Proof.
  destruct act as [|r act]; [by rewrite app_nil_r|]. rewrite zlen_app. by rewrite (proj2 (Z.ltb_lt _ _)) by (unfold zlen; cbn; lia).
Qed.

(** The verifier's answer on the active, whatever the tail. *)
Lemma active_verifies d ino id segs act frag st : repr d ino id segs act frag st -> st <> StateRotatedNotSwapped ->
  VerifyReader (MkReader (file_of d ino) false) (start_of (concat segs))
  = (act, MkHead (head_hash (concat segs ++ act)) (zlen act), if bool_decide (frag = "") then None else Some (TornError (str_len (bytes_of act)))).
Proof.
  intros Hr Hst. pose proof (rep_chain _ _ _ _ _ _ _ Hr) as Hc. pose proof (rep_file _ _ _ _ _ _ _ Hr) as Hf.
  assert (file_of d ino = bytes_of act +:+ frag) as -> by (by destruct st). clear Hf. case_bool_decide as Hfr.
  - subst frag. rewrite app_nil_str. by apply segment_verifies.
  - apply fragment_verifies; [done..|]. exact (rep_frag _ _ _ _ _ _ _ Hr).
Qed.

Lemma readActive_repr d ino id segs act frag st m : repr d ino id segs act frag st ->
  match m with None => segs = [] /\ id = "" | Some m => segs <> [] /\ lists m segs /\ m_LogID m = id end ->
  readActive a d ino (walk_of m id segs) = verdict d ino id segs act frag st.
Proof.
  intros Hr Hm. unfold readActive. cbn [walk_of w_v w_m w_start].
  destruct (siblings_explained d ino st (zlen segs)) as (l & -> & Hu);
    [exact (rep_count _ _ _ _ _ _ _ Hr)|exact (rep_siblings _ _ _ _ _ _ _ Hr)|apply zlen_nonneg|].
  pose proof (rep_scan _ _ _ _ _ _ _ Hr) as Hs. unfold verdict. destruct m as [m|].
  - destruct Hm as (Hne & [Hl Hg] & Hid). rewrite Hl, length_map, segments_of_length. fold (zlen segs). rewrite Hu.
    rewrite (not_same_file _ _ _ _ _ _ _ Hr Hne).
    destruct (decide (st = StateRotatedNotSwapped)) as [->|Hst].
    + rewrite bool_decide_true by done. destruct Hs as [-> _]. destruct (rep_file _ _ _ _ _ _ _ Hr) as [-> _]. rewrite bool_decide_true by done.
      unfold identityCheck. cbn [v_Records]. rewrite bool_decide_true by done. unfold view_of, size_of, start_of. cbn. by rewrite app_nil_r.
    + rewrite bool_decide_false by done. rewrite (active_verifies _ _ _ _ _ _ _ Hr Hst). cbn [Count Hash start_of StartBase StartPrev]. rewrite view_head, <- zlen_app.
      case_bool_decide as Hf.
      * replace (size_of d ino st) with (str_len (file_of d ino)) by (by destruct st).
        pose proof (finish_ok id segs act st (str_len (file_of d ino)) Hst Hs) as Hfin. unfold view_of in Hfin. cbn in *. rewrite Hfin. unfold identityCheck.
        cbn [v_Records]. rewrite bool_decide_true by (by apply genesis_app). done.
      * unfold mapActiveFault, view_of. cbn. fold (zlen act). by rewrite !zlen_app.
  - destruct Hm as [-> ->]. change (zlen []) with 0 in Hu. rewrite Hu.
    assert (st <> StateRotatedNotSwapped) as Hst by (destruct st; cbn in Hs; naive_solver).
    pose proof (active_verifies _ _ _ _ _ _ _ Hr Hst) as Hv. change (start_of (concat [])) with zeroStart in Hv. rewrite Hv.
    cbn [concat app Count Hash]. case_bool_decide as Hf.
    + replace (size_of d ino st) with (str_len (file_of d ino)) by (by destruct st).
      exact (finish_ok "" [] act st (str_len (file_of d ino)) Hst Hs).
    + done.
Qed.

(** Reading a directory that holds a set gives that set. *)
Lemma Read_repr d ino id segs act frag st : repr d ino id segs act frag st ->
  Read a (Ok ()) d = verdict d ino id segs act frag st.
Proof.
  intros Hr. unfold Read. rewrite (rep_active _ _ _ _ _ _ _ Hr). destruct (walk_repr _ _ _ _ _ _ _ Hr) as (m & _ & -> & Hm).
  by apply readActive_repr.
Qed.
End set.
