(* ===== verification/SegmentSound.v ===== *)
(** * What a clean read of a segment set establishes

    For any directory at all, not only one this program wrote: when [Read]
    reports no fault, the records it returns, across every segment, are one
    hash-linked sequence from the genesis and the head it returns is theirs.
    So a head held elsewhere commits to the whole set. *)
From S2P Require Import Prelude Sha256 GoStr Json Paths Ledger Config Origin Event ControlRecord Manifest Segments SegmentSet.

(** Every record names the digest of the one before it, and [p] first. *)
Fixpoint linked (p : string) (rs : list string) : Prop :=
  match rs with
  | [] => True
  | r :: rest => (exists f, parseLineFields r = Some f /\ Prev f = Some p) /\ linked (sha256_hex r) rest
  end.

Definition end_of (p : string) (rs : list string) : string := match last rs with Some r => sha256_hex r | None => p end.

Lemma linked_app p rs1 rs2 : linked p (rs1 ++ rs2) <-> linked p rs1 /\ linked (end_of p rs1) rs2.
Proof.
  revert p. induction rs1 as [|r rs1 IH]; intros p; cbn [app linked]; [tauto|]. rewrite IH.
  replace (end_of p (r :: rs1)) with (end_of (sha256_hex r) rs1); [tauto|]. unfold end_of. rewrite last_cons. by destruct (last rs1).
Qed.

Lemma chain_linked b i p e s rs p' e' s' : chain b i p e s rs p' e' s' -> linked p rs.
Proof. induction 1 as [|i p e s raw sm1 rs p' e' s' (f & Hf & _ & _ & _ & Hp) _ IH]; [done|]. split; [by exists f|done]. Qed.

(** The head commits to everything before it. *)
Lemma linked_commits rs1 rs2 : linked "" rs1 -> linked "" rs2 -> head_hash rs1 = head_hash rs2 -> rs1 = rs2 \/ collision_in rs1 rs2.
Proof.
  revert rs2. induction rs1 as [|x rs1 IH] using rev_ind; intros rs2 H1 H2 Hh.
  - destruct rs2 as [|y rs2 _] using rev_ind; [by left|]. unfold head_hash in Hh. rewrite last_snoc in Hh. by destruct (sha256_hex_nonempty y).
  - destruct rs2 as [|y rs2 _] using rev_ind; [unfold head_hash in Hh; rewrite last_snoc in Hh; by destruct (sha256_hex_nonempty x)|].
    unfold head_hash in Hh. rewrite !last_snoc in Hh. destruct (decide (x = y)) as [->|Hne].
    + apply linked_app in H1 as [H1 [(f1 & Hf1 & Hp1) _]], H2 as [H2 [(f2 & Hf2 & Hp2) _]].
      destruct (IH rs2 H1 H2) as [->|Hc]; [unfold head_hash, end_of in *; congruence|by left|]. right. by apply collision_mono.
    + right. exists x, y. rewrite !elem_of_app, !list_elem_of_singleton. split_and!; auto.
Qed.

(** ** Soundness of the reader *)
Lemma VerifyReader_linked data s rs h : VerifyReader (MkReader data false) s = (rs, h, None) ->
  linked (StartPrev s) rs /\ h = MkHead (end_of (StartPrev s) rs) (zlen rs).
Proof.
  unfold VerifyReader. destruct (validate s); [|done]. cbn [negb]. destruct (loadChain _ _) as [rs' h' est sm er] eqn:E. intros [= <- <- ->].
  apply loadChain_sound in E as [_ (_ & Hcnt & Hc)]. split; [by eapply chain_linked|]. apply chain_end in Hc as [Hh _]. destruct h'. cbn in *. subst. done.
Qed.

Section sound.
  Context (a : string).

(** The walk stands at the end of the records it returned. *)
Definition walk_sound (w : sealedWalk) : Prop :=
  linked "" (v_Records (w_v w)) /\ w_start w = start_of (v_Records (w_v w)).

Lemma end_of_head rs1 rs2 : end_of (head_hash rs1) rs2 = head_hash (rs1 ++ rs2).
Proof. by rewrite head_hash_app. Qed.

Lemma verifySealed_sound d k w e seg recs : walk_sound w -> verifySealed a d k (w_start w) e = (Ok seg, recs) -> walk_sound (add_segment w seg recs).
Proof.
  intros [Hl Hs]. unfold verifySealed. destruct (content d (SegmentPath a k)) as [data|]; [|done].
  destruct (VerifyReader _ _) as [[recs' head] verr] eqn:Ev. destruct verr as [[]|]; try (by repeat case_match).
  rewrite Hs in *. apply VerifyReader_linked in Ev as [Hlr Hh]. cbn [start_of StartPrev StartBase] in *.
  destruct (segmentDigests recs') as [whole size]. destruct (scan_seal _ _ _ _) as [| | | |rec]; try done. destruct (IsZero _); [done|].
  destruct (entry_disagrees _ _ _ _ _ _); [done|]. intros [= <- <-]. unfold walk_sound, add_segment. cbn. split.
  - apply linked_app. split; [done|]. exact Hlr.
  - rewrite Hh. cbn. unfold start_of. by rewrite end_of_head, zlen_app.
Qed.

Lemma walk_entries_sound d k es w w' : walk_sound w -> walk_entries a d k es w = (w', None) -> walk_sound w'.
Proof.
  revert k w. induction es as [|e es IH]; intros k w Hw; cbn [walk_entries]; [by intros [= <-]|].
  destruct (verifySealed a d k (w_start w) e) as [[seg|err] recs] eqn:E; [|done]. apply IH. by eapply verifySealed_sound.
Qed.

Lemma walkSealed_sound d w : walkSealed a d = (w, None) -> walk_sound w.
Proof.
  unfold walkSealed. destruct (loadManifest a d) as [[m|]|]; [|by intros [= <-]|done]. by apply walk_entries_sound.
Qed.

Definition view_sound (v : View) : Prop :=
  linked "" (v_Records v) /\ v_Head v = MkHead (head_hash (v_Records v)) (zlen (v_Records v)).

Lemma finishActive_same v n v' : finishActive a v n = (v', None) -> v_Records v' = v_Records v /\ v_Head v' = v_Head v.
Proof. unfold finishActive. by destruct (scan_seal _ _ _ _); intros [= <-]. Qed.
Lemma identityCheck_same v m v' : identityCheck a v m = (v', None) -> v' = v.
Proof. unfold identityCheck. by case_bool_decide; intros [= <-]. Qed.

Lemma view_same v v' : v_Records v' = v_Records v /\ v_Head v' = v_Head v -> view_sound v -> view_sound v'.
Proof. unfold view_sound. by intros [-> ->]. Qed.

Lemma readActive_sound d ino w v : walk_sound w -> (w_m w = None -> v_Records (w_v w) = []) -> readActive a d ino w = (v, None) -> view_sound v.
Proof.
  intros [Hl Hs] Hnil. unfold readActive. destruct (listSiblings a d) as [sib|]; [|done]. destruct (w_m w) as [m|].
  - destruct (unexplained _ _ _ _); [done|]. destruct (sameFile _ _ _).
    + intros E%identityCheck_same. subst v. split; [done|]. cbn. by rewrite Hs.
    + rewrite Hs. destruct (VerifyReader _ _) as [[recs head] verr] eqn:Ev. destruct verr; [done|].
      apply VerifyReader_linked in Ev as [Hlr Hh]. cbn [start_of StartPrev StartBase] in *.
      destruct (finishActive _ _ _) as [v1 [e1|]] eqn:Ef; [done|]. intros ->%identityCheck_same.
      eapply view_same; [by eapply finishActive_same|]. split; cbn; [apply linked_app; by split|].
      rewrite Hh. cbn. rewrite end_of_head. apply view_head.
  - destruct (unexplained _ _ _ _); [done|]. destruct (VerifyReader _ _) as [[recs head] verr] eqn:Ev. destruct verr; [done|].
    apply VerifyReader_linked in Ev as [Hlr Hh]. intros Ef. eapply view_same; [by eapply finishActive_same|]. split; [done|]. cbn. by rewrite Hh.
Qed.

Lemma Read_sound d lock v : Read a lock d = (v, None) -> view_sound v.
Proof.
  unfold Read. destruct (dk_names d !! a) as [ino|]; [|by destruct (hasHistory a d)]. destruct lock; [|done].
  destruct (walkSealed a d) as [w [e|]] eqn:Ew; [done|]. apply readActive_sound; [by eapply walkSealed_sound|].
  unfold walkSealed in Ew. destruct (loadManifest a d) as [[m|]|]; [|by simplify_eq|done].
  assert (Hm : forall k es w0, walk_entries a d k es w0 = (w, None) -> w_m w = w_m w0).
  { intros k es. revert k. induction es as [|x es IH]; intros k w0; cbn [walk_entries]; [by intros [= <-]|].
    destruct (verifySealed _ _ _ _ _) as [[seg|] recs]; [|done]. intros E. by rewrite (IH _ _ E). }
  rewrite (Hm _ _ _ Ew). done.
Qed.
End sound.

(** C7: one head pins the whole set.  Take any two directories that [Read]
    finds clean, whoever wrote them and however each cut its history into
    segments: if they report the same head hash, they hold the same records in
    the same order, each naming the digest of the one before it, or two
    different lines with one SHA-256 have been
    exhibited.  So a head kept elsewhere (an anchor, a seal receipt) detects a
    lost, altered, reordered or inserted record anywhere in the set. *)
Theorem set_head_commits (a1 a2 : string) (d1 d2 : disk) (v1 v2 : View)
    (H1 : Read a1 (Ok ()) d1 = (v1, None)) (H2 : Read a2 (Ok ()) d2 = (v2, None)) (Hh : Hash (v_Head v1) = Hash (v_Head v2)) :
  linked "" (v_Records v1) /\ Count (v_Head v1) = zlen (v_Records v1) /\
  (v_Records v1 = v_Records v2 \/ collision_in (v_Records v1) (v_Records v2)).
Proof.
  apply Read_sound in H1 as [L1 E1], H2 as [L2 E2]. rewrite E1, E2 in *. cbn in *. split; [done|]. split; [done|].
  destruct (linked_commits _ _ L1 L2 Hh) as [->|Hc]; [by left|by right].
Qed.

Definition ex_root : string := jq "{'v':'control/1','seq':1,'action':'apply','prev':'','log_id':'0123456789abcdef0123456789abcdef'}".
Definition ex_dir : disk := MkDisk {[ "c" := 0%nat ]} {[ 0%nat := bytes_of [ex_root] ]} 1.
Definition ex_view : View := view_of "c" "" [] [ex_root] StateOpen (str_len (bytes_of [ex_root])).

Lemma set_head_commits_witness :
  linked "" [ex_root] /\ Count (v_Head ex_view) = 1 /\ ([ex_root] = [ex_root] \/ collision_in [ex_root] [ex_root]).
Proof.
  apply (set_head_commits "c" "c" ex_dir ex_dir ex_view ex_view); vm_compute; reflexivity.
Defined.
