(* ===== verification/SegmentOps.v ===== *)
(** * The control ledger's operations refine the set

    Every operation of [Segments] that changes the directory, against the
    meaning [SegmentSet] gives it: an append adds one record, a seal and its
    completion move the active among the sealed segments, a repair moves a
    torn tail aside; whatever step fails, the set still reads, and the records
    a reader was shown stay. *)
From S2P Require Import Prelude Sha256 GoStr Json Paths Ledger Config Origin Event ControlRecord Manifest Segments SegmentSet.

Arguments rep_active {a d ino id segs act frag st}.
Arguments rep_file {a d ino id segs act frag st}.
Arguments rep_segs {a d ino id segs act frag st}.
Arguments rep_manifest {a d ino id segs act frag st}.
Arguments rep_siblings {a d ino id segs act frag st}.
Arguments rep_count {a d ino id segs act frag st}.
Arguments rep_next {a d ino id segs act frag st}.
Arguments rep_chain {a d ino id segs act frag st}.
Arguments rep_frag {a d ino id segs act frag st}.
Arguments rep_bytes {a d ino id segs act frag st}.
Arguments rep_seals {a d ino id segs act frag st}.
Arguments rep_scan {a d ino id segs act frag st}.

Create HintDb control.

(** ** Names *)
Lemma app_self_str (s t : string) : s = s +:+ t -> t = "".
Proof. intros E. rewrite <- (app_nil_str s) in E at 1. by apply app_inv_head_str in E. Qed.

(** A name that starts with a dot and the base name is no name of the set. *)
Lemma dotted_name a x y c : "." +:+ a +:+ String "." x = a +:+ String "." (String c y) -> c = "."%char.
Proof.
  induction a as [|h t IH].
  - intros E. by injection E.
  - change ("." +:+ String h t +:+ String "." x) with (String "." (String h (t +:+ String "." x))).
    change (String h t +:+ String "." (String c y)) with (String h (t +:+ String "." (String c y))).
    intros E. injection E as <- E. by apply IH.
Qed.

Lemma dotted_active a x : "." +:+ a +:+ x <> a.
Proof.
  intros E. apply (f_equal String.length) in E. rewrite !length_app_str in E. cbn in E. lia.
Qed.

(** The names a set uses: the active, the manifest and the segments. *)
Definition set_name (a name : string) : Prop := name = a \/ name = ManifestPath a \/ has_prefix name (a +:+ ".seg-") = true.

(** The names that are never part of it. *)
Definition free_name (a name : string) : Prop :=
  (exists x, name = a +:+ ".segments-" +:+ x) \/ (exists x, name = "." +:+ a +:+ ".next-" +:+ x) \/
  (exists x, name = "." +:+ a +:+ ".restore-" +:+ x) \/ (exists x, name = a +:+ ".torn-" +:+ x).

Lemma free_not_set a name : free_name a name -> set_name a name -> False.
Proof.
  intros Hf [->|[->|[r ->]%has_prefix_spec]].
  - destruct Hf as [[x E]|[[x E]|[[x E]|[x E]]]].
    + by apply app_self_str in E.
    + by apply (dotted_active a (".next-" +:+ x)).
    + by apply (dotted_active a (".restore-" +:+ x)).
    + by apply app_self_str in E.
  - unfold ManifestPath in Hf. destruct Hf as [[x E]|[[x E]|[[x E]|[x E]]]].
    + apply app_inv_head_str in E. done.
    + symmetry in E. by apply dotted_name in E.
    + symmetry in E. by apply dotted_name in E.
    + apply app_inv_head_str in E. done.
  - rewrite app_assoc_str in Hf. destruct Hf as [[x E]|[[x E]|[[x E]|[x E]]]].
    + apply app_inv_head_str in E. done.
    + symmetry in E. by apply dotted_name in E.
    + symmetry in E. by apply dotted_name in E.
    + apply app_inv_head_str in E. done.
Qed.

Lemma segment_prefix a k : has_prefix (SegmentPath a k) (a +:+ ".seg-") = true.
Proof. apply has_prefix_spec. exists (pad6 k). by rewrite app_assoc_str. Qed.
Lemma segment_set_name a k : set_name a (SegmentPath a k).
Proof. right; right. apply segment_prefix. Qed.
Lemma active_set_name a : set_name a a.
Proof. by left. Qed.
Lemma manifest_set_name a : set_name a (ManifestPath a).
Proof. by right; left. Qed.
#[export] Hint Resolve segment_set_name active_set_name manifest_set_name : control.

Lemma temp_free a name : is_temp a name = true -> free_name a name.
Proof.
  unfold is_temp, free_name. intros H. apply orb_true_iff in H as [[H|H]%orb_true_iff|H]; apply has_prefix_spec in H as [x ->];
    rewrite ?app_assoc_str; naive_solver.
Qed.

Lemma segment_not_active a k : SegmentPath a k <> a.
Proof. intros E. symmetry in E. by apply app_self_str in E. Qed.
Lemma manifest_not_active a : ManifestPath a <> a.
Proof. intros E. symmetry in E. by apply app_self_str in E. Qed.
Lemma segment_not_manifest a k : SegmentPath a k <> ManifestPath a.
Proof. intros E. apply app_inv_head_str in E. done. Qed.
Lemma active_not_sibling a : has_prefix a (a +:+ ".seg-") = false.
Proof. apply not_true_is_false. intros [r E]%has_prefix_spec. rewrite app_assoc_str in E. by apply app_self_str in E. Qed.
Lemma manifest_not_sibling a : has_prefix (ManifestPath a) (a +:+ ".seg-") = false.
Proof. apply not_true_is_false. intros [r E]%has_prefix_spec. rewrite app_assoc_str in E. apply app_inv_head_str in E. done. Qed.

(** ** Changes of the directory *)
Section changes.
  Context (a : string).

(** A change outside the set's names and their files leaves the set. *)
Lemma repr_ext d d' ino id segs act frag st : repr a d ino id segs act frag st ->
  (forall name, set_name a name -> dk_names d' !! name = dk_names d !! name) ->
  (forall name j, dk_names d !! name = Some j -> file_of d' j = file_of d j) ->
  (forall name j, dk_names d' !! name = Some j -> (j < dk_next d')%nat) ->
  repr a d' ino id segs act frag st.
Proof.
  intros Hr Hn Hf Hx. assert (Hino : file_of d' ino = file_of d ino) by (by apply (Hf a), (rep_active Hr)). split; try by destruct Hr.
  - rewrite Hn by auto with control. apply (rep_active Hr).
  - rewrite Hn by auto with control. rewrite Hino. apply (rep_file Hr).
  - intros i seg Hi. destruct (rep_segs Hr i seg Hi) as (j & Hj & Hfj & Hst). exists j. rewrite Hn, (Hf _ _ Hj) by auto with control. done.
  - pose proof (rep_manifest Hr) as Hm. unfold manifest_repr in *. rewrite Hn by auto with control. destruct segs as [|seg segs]; [done|].
    destruct Hm as (j & m & Hj & Hm). exists j, m. by rewrite (Hf _ _ Hj).
  - intros name [j Hj] Hp. rewrite Hn in Hj by (by right; right). destruct (rep_siblings Hr name ltac:(by exists j) Hp) as (k & -> & Hk).
    exists k. split; [done|]. by rewrite Hn by auto with control.
Qed.

Lemma repr_sweep d ino id segs act frag st : repr a d ino id segs act frag st -> repr a (sweepTemps a d) ino id segs act frag st.
Proof.
  intros Hr. apply (repr_ext d); [done|..].
  - intros name Hs. cbn. destruct (dk_names d !! name) as [j|] eqn:E.
    + apply map_lookup_filter_Some. split; [done|]. cbn. apply not_true_is_false. intros Ht. by eapply free_not_set, Hs; apply temp_free.
    + apply map_lookup_filter_None. by left.
  - done.
  - intros name j [Hj _]%map_lookup_filter_Some. exact (rep_next Hr _ _ Hj).
Qed.

Lemma file_create d name s j : j <> dk_next d -> file_of (create_file d name s) j = file_of d j.
Proof. intros Hj. unfold file_of. cbn. by rewrite lookup_insert_ne by done. Qed.
Lemma file_created d name s : file_of (create_file d name s) (dk_next d) = s.
Proof. unfold file_of. cbn. by rewrite lookup_insert_eq. Qed.

Lemma next_create d name s : (forall n j, dk_names d !! n = Some j -> (j < dk_next d)%nat) ->
  forall n j, dk_names (create_file d name s) !! n = Some j -> (j < dk_next (create_file d name s))%nat.
Proof. intros Hd n j. cbn. rewrite lookup_insert_Some. intros [[_ <-]|[_ Hj]]; [lia|]. specialize (Hd _ _ Hj). lia. Qed.

Lemma repr_create d ino id segs act frag st name s : repr a d ino id segs act frag st -> free_name a name ->
  repr a (create_file d name s) ino id segs act frag st.
Proof.
  intros Hr Hf. apply (repr_ext d); [done|..].
  - intros n Hs. cbn. rewrite lookup_insert_ne; [done|]. intros ->. by eapply free_not_set.
  - intros n j Hj. apply file_create. pose proof (rep_next Hr _ _ Hj). lia.
  - apply next_create. apply (rep_next Hr).
Qed.

(** The active's bytes change. *)
Lemma repr_set_file d ino id segs act frag st act' frag' st' :
  repr a d ino id segs act frag st -> st <> StateRotatedNotSwapped -> st' <> StateRotatedNotSwapped ->
  lchain (concat segs ++ act') -> no_nl frag' -> str_len (bytes_of (concat segs ++ act')) < max_int64 -> scan_ok segs act' st' ->
  repr a (set_file d ino (bytes_of act' +:+ frag')) ino id segs act' frag' st'.
Proof.
  intros Hr Hst Hst' Hc Hf Hb Hs. assert (Hino : file_of (set_file d ino (bytes_of act' +:+ frag')) ino = bytes_of act' +:+ frag').
  { unfold file_of. cbn. by rewrite lookup_insert_eq. }
  assert (Hne : forall j, j <> ino -> file_of (set_file d ino (bytes_of act' +:+ frag')) j = file_of d j).
  { intros j Hj. unfold file_of. cbn. by rewrite lookup_insert_ne. }
  split; try done; try by destruct Hr.
  - destruct st'; [apply Hino..|done].
  - intros i seg Hi. destruct (rep_segs Hr i seg Hi) as (j & Hj & Hfj & Hji). exists j.
    assert (j <> ino) by (intros ->; by apply Hst, Hji). by rewrite Hne.
  - pose proof (rep_manifest Hr) as Hm. unfold manifest_repr in *. destruct segs as [|seg segs]; [done|].
    destruct Hm as (j & m & Hj & Hji & Hm). exists j, m. by rewrite Hne.
  - intros name Hn Hp. destruct (rep_siblings Hr name Hn Hp) as (k & Hk & Hk'). exists k. split; [done|]. destruct Hk' as [?|[[? _] ?]]; [by left|by right].
Qed.

(** The active gets the next segment's name. *)
Lemma repr_link d ino id segs act frag st : repr a d ino id segs act frag st -> st <> StateRotatedNotSwapped ->
  dk_names d !! SegmentPath a (zlen segs + 1) = None ->
  repr a (link_name d (SegmentPath a (zlen segs + 1)) ino) ino id segs act frag st.
Proof.
  intros Hr Hst Hno. pose proof (rep_count Hr). pose proof (zlen_nonneg segs).
  split; try by destruct Hr.
  - cbn. rewrite lookup_insert_ne by apply segment_not_active. apply (rep_active Hr).
  - pose proof (rep_file Hr). by destruct st.
  - intros i seg Hi. destruct (rep_segs Hr i seg Hi) as (j & Hj & Hfj & Hji). exists j. split; [|done]. cbn. rewrite lookup_insert_ne; [done|].
    intros E. apply lookup_lt_Some in Hi. apply SegmentPath_inj in E; unfold zlen, two64 in *; lia.
  - pose proof (rep_manifest Hr) as Hm. unfold manifest_repr in *. cbn [link_name dk_names]. by rewrite lookup_insert_ne by apply segment_not_manifest.
  - intros name Hn Hp. cbn [link_name dk_names] in Hn. destruct (decide (name = SegmentPath a (zlen segs + 1))) as [->|Hd].
    + exists (zlen segs + 1). split; [done|]. right. split; [done|]. cbn. by rewrite lookup_insert_eq.
    + rewrite lookup_insert_ne in Hn by done. destruct (rep_siblings Hr name Hn Hp) as (k & -> & Hk). exists k. split; [done|].
      cbn. by rewrite lookup_insert_ne by done.
  - intros name j. cbn. rewrite lookup_insert_Some. intros [[_ <-]|[_ Hj]]; [exact (rep_next Hr _ _ (rep_active Hr))|exact (rep_next Hr _ _ Hj)].
Qed.

(** The manifest lists the sealed active: the set is rotated. *)
Lemma segs_ok_snoc rs k segs act : segs_ok rs k segs -> sealed_by (rs ++ concat segs) (k + zlen segs) act -> segs_ok rs k (segs ++ [act]).
Proof.
  revert rs k. induction segs as [|seg segs IH]; intros rs k; cbn [segs_ok app concat].
  - rewrite app_nil_r, Z.add_0_r. done.
  - intros [Hs Hr] Ha. split; [done|]. apply IH; [done|]. rewrite <- app_assoc.
    replace (k + 1 + zlen segs) with (k + zlen (seg :: segs)) by (unfold zlen; cbn; lia). done.
Qed.

Lemma concat_snoc (segs : list (list string)) act : concat (segs ++ [act]) = concat segs ++ act.
Proof. rewrite concat_app. cbn. by rewrite app_nil_r. Qed.

Lemma zlen_snoc {A} (l : list A) x : zlen (l ++ [x]) = zlen l + 1.
Proof. by rewrite zlen_app. Qed.

Lemma repr_rotated d ino id segs act data m : repr a d ino id segs act "" StateSealedNotRotated ->
  dk_names d !! SegmentPath a (zlen segs + 1) = Some ino -> zlen segs + 1 < 999999 ->
  ParseManifest a data = Ok m -> lists a m (segs ++ [act]) ->
  repr a (create_file d (ManifestPath a) data) ino (m_LogID m) (segs ++ [act]) [] "" StateRotatedNotSwapped.
Proof.
  intros Hr Hl Hn Hp Hm. pose proof (zlen_nonneg segs).
  assert (Hnext : forall name j, dk_names d !! name = Some j -> j <> dk_next d) by (intros name j Hj; pose proof (rep_next Hr _ _ Hj); lia).
  split.
  - cbn. rewrite lookup_insert_ne by apply manifest_not_active. apply (rep_active Hr).
  - split; [done|]. rewrite zlen_snoc. cbn. by rewrite lookup_insert_ne by (apply not_eq_sym, segment_not_manifest).
  - intros i seg [Hi|[Hi ->]]%lookup_snoc_Some.
    + destruct (rep_segs Hr i seg) as (j & Hj & Hf & _); [tauto|]. exists j. cbn.
      rewrite lookup_insert_ne by (apply not_eq_sym, segment_not_manifest). split; [done|]. split; [|done]. by rewrite file_create by eauto.
    + exists ino. subst i. fold (zlen segs). cbn. rewrite lookup_insert_ne by (apply not_eq_sym, segment_not_manifest). split; [done|]. split; [|done].
      rewrite file_create by (by eapply Hnext). rewrite (rep_file Hr). by rewrite app_nil_str.
  - unfold manifest_repr. destruct (segs ++ [act]) as [|s0 ss] eqn:E; [by destruct segs|].
    exists (dk_next d), m. cbn. rewrite lookup_insert_eq, file_created. split_and!; try done. intros <-. by apply (Hnext _ _ (rep_active Hr)).
  - intros name Hs Hpre. cbn in Hs. rewrite lookup_insert_ne in Hs; [|intros <-; by rewrite manifest_not_sibling in Hpre].
    destruct (rep_siblings Hr name Hs Hpre) as (k & -> & Hk). exists k. split; [done|]. left. rewrite zlen_snoc. lia.
  - rewrite zlen_snoc. lia.
  - apply next_create. apply (rep_next Hr).
  - rewrite concat_snoc, app_nil_r. apply (rep_chain Hr).
  - done.
  - rewrite concat_snoc, app_nil_r. apply (rep_bytes Hr).
  - apply segs_ok_snoc; [apply (rep_seals Hr)|]. cbn. pose proof (rep_scan Hr) as Hs. cbn in Hs. by rewrite Z.add_comm.
  - split; [done|]. by destruct segs.
Qed.

(** A fresh active file: the set is open again. *)
Lemma repr_swapped d ino id segs : repr a d ino id segs [] "" StateRotatedNotSwapped ->
  repr a (create_file d a "") (dk_next d) id segs [] "" StateOpen.
Proof.
  intros Hr. assert (Hnext : forall name j, dk_names d !! name = Some j -> j <> dk_next d) by (intros name j Hj; pose proof (rep_next Hr _ _ Hj); lia).
  split; try by destruct Hr.
  - cbn. by rewrite lookup_insert_eq.
  - by rewrite file_created.
  - intros i seg Hi. destruct (rep_segs Hr i seg Hi) as (j & Hj & Hf & _). exists j. cbn.
    rewrite lookup_insert_ne by (apply not_eq_sym, segment_not_active). rewrite file_create by eauto. split_and!; [done|done|]. intros ->. by apply Hnext in Hj.
  - pose proof (rep_manifest Hr) as Hm. unfold manifest_repr in *. cbn. rewrite lookup_insert_ne by (apply not_eq_sym, manifest_not_active).
    destruct segs as [|seg segs]; [done|]. destruct Hm as (j & m & Hj & _ & Hm). exists j, m. rewrite file_create by eauto.
    split_and!; [done|by eapply Hnext|by apply Hm..].
  - intros name Hs Hpre. cbn in Hs. rewrite lookup_insert_ne in Hs; [|intros <-; by rewrite active_not_sibling in Hpre].
    destruct (rep_siblings Hr name Hs Hpre) as (k & -> & [Hk|[[_ Hk] _]]); [|done]. exists k. split; [done|]. by left.
  - apply next_create. apply (rep_next Hr).
Qed.
End changes.

(** ** Taking the lock *)
Section locking.
  Context (a : string).

(** Nothing of the set is there yet. *)
Record fresh (d : disk) : Prop := {
  fr_active : dk_names d !! a = None;
  fr_manifest : dk_names d !! ManifestPath a = None;
  fr_siblings : forall name, is_Some (dk_names d !! name) -> has_prefix name (a +:+ ".seg-") = false;
  fr_next : forall name j, dk_names d !! name = Some j -> (j < dk_next d)%nat;
}.

(** The directory holds the records [rs], sealed in [segs] but for the
    active's. *)
Definition holds (d : disk) (segs : list (list string)) (rs : list string) : Prop :=
  fresh d /\ segs = [] /\ rs = [] \/ exists ino id act frag st, repr a d ino id segs act frag st /\ rs = concat segs ++ act.

Lemma repr_holds d ino id segs act frag st : repr a d ino id segs act frag st -> holds d segs (concat segs ++ act).
Proof. intros Hr. right. exists ino, id, act, frag, st. by split. Qed.

Lemma fresh_created d : fresh d -> repr a (create_file d a "") (dk_next d) "" [] [] "" StateOpen.
Proof.
  intros Hf. split; try done.
  - cbn. by rewrite lookup_insert_eq.
  - by rewrite file_created.
  - split; [|done]. cbn. rewrite lookup_insert_ne by (apply not_eq_sym, manifest_not_active). apply (fr_manifest _ Hf).
  - intros name Hs Hp. cbn in Hs. rewrite lookup_insert_ne in Hs; [|intros <-; by rewrite active_not_sibling in Hp].
    by rewrite (fr_siblings _ Hf name Hs) in Hp.
  - apply next_create, (fr_next _ Hf).
  - split_and!; [constructor|done|]. exists false, false. split; [constructor|done].
Qed.

Lemma fresh_no_history d : fresh d -> hasHistory a d = false.
Proof.
  intros Hf. unfold hasHistory. rewrite (fr_manifest _ Hf). cbn. rewrite bool_decide_true; [done|].
  destruct (siblingNames a d) as [|p l] eqn:E; [done|]. destruct (elem_of_siblings a d p) as [H1 H2]; [rewrite E; left|].
  by rewrite (fr_siblings _ Hf p H1) in H2.
Qed.

(** What a walk made on an earlier directory saw. *)
Definition sees (d : disk) (segs : list (list string)) : Prop := exists rs, holds d segs rs.

Definition manifest_of (m : option Manifest) (id : string) (segs : list (list string)) : Prop :=
  match m with None => segs = [] /\ id = "" | Some m => segs <> [] /\ lists a m segs /\ m_LogID m = id end.

Lemma walk_sees d segs : sees d segs -> exists m id, walkSealed a d = (walk_of a m id segs, None) /\ manifest_of m id segs /\
  negb (is_Some_b (dk_names d !! a)) && hasHistory a d = false.
Proof.
  intros (rs & [(Hf & -> & _)|(ino & id & act & frag & st & Hr & _)]).
  - exists None, "". unfold walkSealed, loadManifest, content. rewrite (fr_manifest _ Hf), fresh_no_history by done. by rewrite andb_false_r.
  - destruct (walk_repr a _ _ _ _ _ _ _ Hr) as (m & _ & Hw & Hm). exists m, id. by rewrite (rep_active Hr).
Qed.

(** Two manifests of one history are equal exactly when they list as many
    segments. *)
Lemma manifests_of_prefix m1 id1 segs1 m2 id2 segs2 :
  manifest_of m1 id1 segs1 -> manifest_of m2 id2 segs2 -> segs1 `prefix_of` segs2 ->
  manifestEqual m1 m2 = true -> segs1 = segs2 /\ id1 = id2.
Proof.
  intros H1 H2 [ext ->] He. destruct m1 as [m1|], m2 as [m2|]; cbn in He; try done.
  - destruct H1 as (_ & [Hl1 Hg1] & <-), H2 as (_ & [Hl2 Hg2] & <-). apply andb_true_iff in He as [He _]. apply Nat.eqb_eq in He.
    rewrite Hl1, Hl2, !length_map, !segments_of_length, length_app in He. destruct ext; [|cbn in He; lia].
    rewrite app_nil_r in *. split; [done|]. congruence.
  - destruct H1 as [-> ->], H2 as [E ->]. by rewrite E.
Qed.

Lemma manifest_equal_refl m1 id1 m2 id2 segs : manifest_of m1 id1 segs -> manifest_of m2 id2 segs -> manifestEqual m1 m2 = true.
Proof.
  intros H1 H2. destruct m1 as [m1|], m2 as [m2|]; cbn in *; [|by destruct H1 as [H1 _], H2 as [H2 _]..|done].
  destruct H1 as (_ & [-> _] & _), H2 as (_ & [-> _] & _). by rewrite Nat.eqb_refl, bool_decide_true.
Qed.

(** The attempt's earlier walk saw a prefix of the set. *)
Definition walks (t : attempt) (segs : list (list string)) : Prop := exists segsw, sees (at_walk t) segsw /\ segsw `prefix_of` segs.

Definition answer (d : disk) (ino : nat) (segs : list (list string)) (r : View * option control_error) : lock_result :=
  match r with
  | (v, Some e) => Failed v e d
  | (v, None) => Held ino (start_of (concat segs)) v d
  end.

(** Under the lock, a stale walk is retried; otherwise the attempt decides on
    the directory as it is. *)
Lemma locked_part_repr d ino id segs act frag st swapped m idw segsw :
  repr a d ino id segs act frag st -> manifest_of m idw segsw -> segsw `prefix_of` segs ->
  locked_part a d ino swapped (walk_of a m idw segsw) = Retry \/
  locked_part a d ino swapped (walk_of a m idw segsw) = answer d ino segs (verdict a d ino id segs act frag st).
Proof.
  intros Hr Hm Hp. unfold locked_part. destruct swapped; [by left|]. destruct (walk_repr a _ _ _ _ _ _ _ Hr) as (m2 & -> & _ & Hm2).
  cbn [walk_of w_m]. destruct (manifestEqual m m2) eqn:He; [|by left]. right. cbn [negb].
  destruct (manifests_of_prefix _ _ _ _ _ _ Hm Hm2 Hp He) as [-> ->]. rewrite (readActive_repr a _ _ _ _ _ _ _ _ Hr Hm). unfold answer, verdict.
  by case_bool_decide.
Qed.

Lemma lock_attempt_repr create t ino id segs act frag st :
  repr a (at_disk t) ino id segs act frag st -> walks t segs ->
  lock_attempt a create t = Retry \/ (exists e, lock_attempt a create t = Failed zeroView (ELedger e) (at_disk t)) \/
  lock_attempt a create t = answer (at_disk t) ino segs (verdict a (at_disk t) ino id segs act frag st).
Proof.
  intros Hr (segsw & Hs & Hp). unfold lock_attempt. destruct (walk_sees _ _ Hs) as (m & idw & -> & Hm & ->). rewrite (rep_active Hr).
  destruct (at_lock t) as [?|e]; [|right; left; by exists e]. destruct (locked_part_repr _ _ _ _ _ _ _ (at_swapped t) _ _ _ Hr Hm Hp) as [->| ->]; tauto.
Qed.

Lemma lock_attempt_now create d ino id segs act frag st : repr a d ino id segs act frag st ->
  lock_attempt a create (now d) = answer d ino segs (verdict a d ino id segs act frag st).
Proof.
  intros Hr. unfold lock_attempt. cbn [now at_walk at_disk at_lock at_swapped]. rewrite (rep_active Hr). cbn [is_Some_b negb andb].
  destruct (walk_repr a _ _ _ _ _ _ _ Hr) as (m & Hl & -> & Hm). unfold locked_part. rewrite Hl. cbn [walk_of w_m].
  rewrite (manifest_equal_refl _ _ _ _ _ Hm Hm). cbn [negb]. rewrite (readActive_repr a _ _ _ _ _ _ _ _ Hr Hm). unfold answer, verdict.
  by case_bool_decide.
Qed.

Lemma lock_attempt_fresh create t : fresh (at_disk t) -> walks t [] ->
  let d := create_file (at_disk t) a "" in
  lock_attempt a create t = Retry \/
  (exists v e d', lock_attempt a create t = Failed v e d' /\ (d' = at_disk t \/ d' = d)) \/
  lock_attempt a create t = Held (dk_next (at_disk t)) zeroStart (view_of a "" [] [] StateOpen 0) d.
Proof.
  intros Hf (segsw & Hs & [ext E]) d. symmetry in E. apply app_eq_nil in E as [-> ->]. unfold lock_attempt.
  destruct (walk_sees _ _ Hs) as (m & idw & -> & Hm & ->). rewrite (fr_active _ Hf).
  destruct (negb _ && create); [|right; left; eauto 10]. fold d. destruct (at_lock t) as [?|e]; [|right; left; eauto 10].
  destruct (locked_part_repr _ _ _ _ _ _ _ (at_swapped t) _ _ _ (fresh_created _ Hf) Hm ltac:(by exists [])) as [E|E];
    fold d in E; rewrite E; [by left|]. right; right. unfold answer, verdict. rewrite bool_decide_true by done. cbn [size_of]. unfold d. by rewrite file_created.
Qed.
End locking.

(** ** The opened chain *)
Section opening.
  Context (a : string).

(** The directory the lock was taken on: the one found, or the one with the
    active just created. *)
Definition opened (d d' : disk) : Prop := d' = d \/ fresh a d /\ d' = create_file d a "".

Lemma opened_holds d d' segs rs : holds a d segs rs -> opened d d' -> holds a d' segs rs.
Proof.
  intros Hh [->|[Hf ->]]; [done|]. destruct Hh as [(_ & -> & ->)|(ino & id & act & frag & st & Hr & _)]; [|pose proof (rep_active Hr) as H; by rewrite (fr_active _ _ Hf) in H].
  exact (repr_holds a _ _ _ _ _ _ _ (fresh_created a _ Hf)).
Qed.

(** The handle resumed over the active. *)
Record chain_at (c : Chain) (segs : list (list string)) (act : list string) : Prop := {
  ca_file : file c = bytes_of act;
  ca_base : base c = zlen (concat segs);
  ca_count : count c = zlen act;
  ca_prev : prevHash c = head_hash (concat segs ++ act);
  ca_mode : seqEstablished c = true -> seqMode c = true;
  ca_chain : chain_from (start_of (concat segs)) act (MkHead (prevHash c) (count c)) (seqEstablished c) (seqMode c);
}.

(** The set the deciding attempt found. *)
Definition deciding (create : bool) (t1 t2 : attempt) : attempt :=
  match lock_attempt a create t1 with Retry => t2 | _ => t1 end.

Lemma lockActive_deciding create t1 t2 :
  lockActive a create t1 t2 = match lock_attempt a create (deciding create t1 t2) with
                              | Retry => Failed zeroView ERotatedTwice (at_disk t2)
                              | r => r
                              end.
Proof. unfold lockActive, deciding. destruct (lock_attempt a create t1) eqn:E; [done|by rewrite E..]. Qed.

Lemma deciding_retry create t1 t2 : lock_attempt a create (deciding create t1 t2) = Retry -> deciding create t1 t2 = t2.
Proof. unfold deciding. destruct (lock_attempt a create t1) eqn:E; [done|by rewrite E..]. Qed.

Lemma lockActive_repr create t1 t2 ino id segs act frag st :
  let d := at_disk (deciding create t1 t2) in
  repr a d ino id segs act frag st -> walks a (deciding create t1 t2) segs ->
  (exists v e, lockActive a create t1 t2 = Failed v e d) \/
  frag = "" /\ lockActive a create t1 t2 = Held ino (start_of (concat segs)) (view_of a id segs act st (size_of d ino st)) d.
Proof.
  intros d Hr Hw. rewrite lockActive_deciding. destruct (lock_attempt_repr a create _ _ _ _ _ _ _ Hr Hw) as [E|[[e ->]|E]].
  - rewrite E. left. unfold d. rewrite (deciding_retry _ _ _ E). by do 2 eexists.
  - left. by do 2 eexists.
  - rewrite E. unfold answer, verdict. case_bool_decide as Hf; [by right|left; by do 2 eexists].
Qed.

Lemma lockActive_fresh create t1 t2 :
  let d := at_disk (deciding create t1 t2) in
  fresh a d -> walks a (deciding create t1 t2) [] ->
  (exists v e d', lockActive a create t1 t2 = Failed v e d' /\ opened d d') \/
  lockActive a create t1 t2 = Held (dk_next d) zeroStart (view_of a "" [] [] StateOpen 0) (create_file d a "").
Proof.
  intros d Hf Hw. rewrite lockActive_deciding. destruct (lock_attempt_fresh a create _ Hf Hw) as [E|[(v & e & d' & -> & Hd)| ->]].
  - rewrite E. left. do 3 eexists. split; [done|]. left. unfold d. by rewrite (deciding_retry _ _ _ E).
  - left. do 3 eexists. split; [done|]. destruct Hd as [->| ->]; [by left|by right].
  - by right.
Qed.

Lemma resume_repr d ino id segs act st : repr a d ino id segs act "" st -> st <> StateRotatedNotSwapped ->
  exists c, (Resume (MkReader (file_of d ino) false) Locked (start_of (concat segs))).1 = Ok c /\ chain_at c segs act.
Proof.
  intros Hr Hst. assert (file_of d ino = bytes_of act) as ->. { pose proof (rep_file Hr). rewrite app_nil_str in *. by destruct st. }
  pose proof (rep_chain Hr) as Hc. apply lchain_split in Hc as (_ & _ & est & sm & Hc & Hsm). unfold Resume. rewrite start_of_valid. cbn [negb].
  rewrite (loadChain_complete _ _ _ _ _ Hc). cbn [ld_err]. eexists. split; [done|]. split; try done.
  cbn. intros He. apply Hsm. intros Hnil. apply app_eq_nil in Hnil as [E1 E2]. destruct Hc as (_ & _ & Hc). rewrite E1, E2 in Hc.
  inversion Hc; subst. done.
Qed.

Lemma openActive_repr t1 t2 ino id segs act frag st :
  let d := at_disk (deciding true t1 t2) in
  repr a d ino id segs act frag st -> walks a (deciding true t1 t2) segs ->
  (exists e, openActive a t1 t2 = (Err e, d)) \/
  exists c, openActive a t1 t2 = (Ok (c, ino, view_of a id segs act StateOpen (size_of d ino StateOpen)), d) /\
    frag = "" /\ st = StateOpen /\ chain_at c segs act.
Proof.
  intros d Hr Hw. unfold openActive. destruct (lockActive_repr _ _ _ _ _ _ _ _ _ Hr Hw) as [(v & e & ->)|[-> ->]]; [left; by eexists|].
  cbn [view_of v_State]. case_bool_decide as Hst; [|left; by eexists]. subst st. cbn [negb].
  destruct (resume_repr _ _ _ _ _ _ Hr ltac:(done)) as (c & Hc & Hat). fold d. destruct (Resume _ _ _) as [r recs]. cbn in Hc. subst r. right. by exists c.
Qed.

Lemma openActive_fresh t1 t2 :
  let d := at_disk (deciding true t1 t2) in
  fresh a d -> walks a (deciding true t1 t2) [] ->
  (exists e d', openActive a t1 t2 = (Err e, d') /\ opened d d') \/
  exists c, openActive a t1 t2 = (Ok (c, dk_next d, view_of a "" [] [] StateOpen 0), create_file d a "") /\ chain_at c [] [].
Proof.
  intros d Hf Hw. unfold openActive. destruct (lockActive_fresh _ _ _ Hf Hw) as [(v & e & d' & -> & Ho)| ->]; [left; by do 2 eexists|].
  cbn [view_of v_State]. rewrite bool_decide_true by done. cbn [negb].
  destruct (resume_repr _ _ _ _ _ _ (fresh_created a _ Hf) ltac:(done)) as (c & Hc & Hat). change zeroStart with (start_of (concat [])). fold d in Hc.
  destruct (Resume _ _ _) as [r recs]. cbn in Hc. subst r. right. by exists c.
Qed.

Lemma openActive_now d ino id segs act : repr a d ino id segs act "" StateOpen ->
  exists c, openActive a (now d) (now d) = (Ok (c, ino, view_of a id segs act StateOpen (size_of d ino StateOpen)), d) /\ chain_at c segs act.
Proof.
  intros Hr. unfold openActive, lockActive. rewrite (lock_attempt_now a true _ _ _ _ _ _ _ Hr). unfold answer, verdict. rewrite bool_decide_true by done.
  cbn [view_of v_State]. rewrite bool_decide_true by done. cbn [negb].
  destruct (resume_repr _ _ _ _ _ _ Hr ltac:(done)) as (c & Hc & Hat). destruct (Resume _ _ _) as [r recs]. cbn in Hc. subst r. by exists c.
Qed.
End opening.

(** ** One more record *)
Lemma head_hash_valid rs : valid_utf8 (head_hash rs) = true.
Proof. unfold head_hash. destruct (last rs); [apply sha256_valid|done]. Qed.

Lemma scan_snoc o f pre rest r : scan_seal o f pre rest = NoSeal -> scan_seal o f pre (rest ++ [r]) = scan_seal o f (pre ++ rest) [r].
Proof.
  revert pre. induction rest as [|x rest IH]; intros pre Hs; [by rewrite app_nil_r|]. cbn [scan_seal app] in *.
  destruct (decodeRecord x) as [rec|].
  - destruct (is_seal rec); [by repeat case_match|]. rewrite IH by done. by rewrite <- app_assoc.
  - rewrite IH by done. by rewrite <- app_assoc.
Qed.

Lemma time_text_idem t : time_text (time_text t) = time_text t.
Proof. unfold time_text. by repeat case_bool_decide. Qed.

Lemma str_len_app s t : str_len (s +:+ t) = str_len s + str_len t.
Proof. unfold str_len. rewrite length_app_str. lia. Qed.

Lemma zlen_bytes rs : zlen rs <= str_len (bytes_of rs).
Proof.
  induction rs as [|r rs IH]; [done|]. cbn [bytes_of]. rewrite str_len_app. unfold zlen, str_len in *. cbn [length String.length]. lia.
Qed.

Section appending.
  Context `{GoText} `{GoURL} (a : string).

(** The record that [e] becomes after [rs]. *)
Definition record_at (rs : list string) (env : append_env) (e : CEvent) : record :=
  MkRecord "control/1" (zlen rs + 1) (ae_now env) (ce_Action e) (ce_Agent e) (ce_Outcome e) (ce_Reason e) (ce_Invoker e)
    (ce_AssertedAs e) (ce_Witness e) (ce_ConfigHash e) (ce_Bootstrap e) (ce_FragmentLen e) (ce_FragmentSHA e)
    (Sanitized is_print (ce_Origin e)) (Clean is_print (ce_Detail e)) (ce_Anchor e) (ce_Seal e) (head_hash rs)
    (if zlen rs =? 0 then hex_encode (default "" (ae_random env)) else "").
Definition line_at (rs : list string) (env : append_env) (e : CEvent) : string := marshal_record (record_at rs env e).

Lemma record_of_at c segs act env e : chain_at c segs act -> record_of c env e = record_at (concat segs ++ act) env e.
Proof.
  intros []. unfold record_of, record_at. rewrite ca_base0, ca_count0, ca_prev0, zlen_app. f_equal.
  pose proof (zlen_nonneg (concat segs)). pose proof (zlen_nonneg act).
  destruct (Z.eqb_spec (zlen (concat segs)) 0), (Z.eqb_spec (zlen act) 0), (Z.eqb_spec (zlen (concat segs) + zlen act) 0); try done; lia.
Qed.

(** What a caller can hand in: a Go value, the clock's time, text that is
    UTF-8 where the readers compare it, and a retention that outlasts the
    seal. *)
Definition retained (env : append_env) (e : CEvent) : Prop :=
  match ce_Seal e with
  | Some s => match sl_Sink s with Some b => After (time_text (sk_RetainUntil b)) (time_text (ae_now env)) = true | None => True end
  | None => True
  end.
Record event_ok (env : append_env) (e : CEvent) : Prop := {
  eo_time : time_ok (ae_now env);
  eo_clock : IsZero (time_text (ae_now env)) = false;
  eo_fragment : int_ok (ce_FragmentLen e);
  eo_anchor : anchor_ok (ce_Anchor e);
  eo_seal : seal_ok (ce_Seal e);
  eo_action : valid_utf8 (ce_Action e) = true;
  eo_outcome : valid_utf8 (ce_Outcome e) = true;
  eo_retained : retained env e;
}.
(** The file can grow by the record. *)
Definition room (rs : list string) (env : append_env) (e : CEvent) : Prop := str_len (bytes_of (rs ++ [line_at rs env e])) < max_int64.

Lemma room_count rs env e : room rs env e -> zlen rs + 1 < max_int64.
Proof. unfold room. intros Hr. pose proof (zlen_bytes (rs ++ [line_at rs env e])) as Hz. rewrite zlen_app in Hz. unfold zlen in *. cbn [length] in Hz. lia. Qed.

Lemma line_decodes rs env e : event_ok env e -> room rs env e -> decodeRecord (line_at rs env e) = Some (san_record (record_at rs env e)).
Proof.
  intros [] Hr%room_count. apply decode_marshal_record. pose proof (zlen_nonneg rs). split; try done. cbn. unfold int_ok, min_int64, max_int64 in *. lia.
Qed.

Lemma line_no_nl rs env e : no_nl (line_at rs env e).
Proof. apply marshal_record_no_nl. Qed.

Lemma line_accepted rs env e est : room rs env e -> accepts 0 (zlen rs) (head_hash rs) est true (line_at rs env e) true.
Proof.
  intros Hr%room_count. pose proof (zlen_nonneg rs). eexists. split.
  { apply record_line_fields. cbn. unfold max_int64, two64 in *. lia. }
  cbn. split_and!; [done|done| |by rewrite to_valid_id by apply head_hash_valid].
  intros _. f_equal. unfold wrapu64. rewrite Z.mod_small; [lia|]. unfold max_int64, two64 in *. lia.
Qed.

(** The line extends the numbered chain. *)
Lemma lchain_snoc rs env e : lchain rs -> room rs env e -> lchain (rs ++ [line_at rs env e]).
Proof.
  intros (Hn & Hl & est & sm & Hc & Hsm) Hr. pose proof (room_count _ _ _ Hr). split_and!.
  - apply Forall_app. split; [done|]. repeat constructor. apply line_no_nl.
  - by rewrite zlen_snoc.
  - exists true, true. split; [|done]. eapply chain_app; [exact Hc|]. rewrite head_hash_app. cbn [last].
    apply chain_cons with (sm1 := true); [|constructor]. rewrite Z.add_0_l. fold (zlen rs).
    destruct rs as [|r0 rs]; [|rewrite Hsm by done; by apply line_accepted]. inversion Hc; subst.
    apply (line_accepted [] env e false) in Hr as (f & Hf & Hm & _ & Hseq & Hprev). exists f. by split_and!.
Qed.

(** The state the active is in once [e] is appended. *)
Definition state_after (e : CEvent) : State :=
  if bool_decide (ce_Action e = "seal") && bool_decide (ce_Outcome e = "success") then StateSealedNotRotated else StateOpen.

Lemma is_seal_at rs env e : event_ok env e ->
  is_seal (san_record (record_at rs env e)) = bool_decide (ce_Action e = "seal") && bool_decide (ce_Outcome e = "success").
Proof. intros []. unfold is_seal. cbn. by rewrite !to_valid_id. Qed.

Lemma placed_seal c segs act size e s : chain_at c segs act -> ce_Action e = "seal" -> ce_Seal e = Some s ->
  forall id, checkSealPlacement c (view_of a id segs act StateOpen size) e = None ->
  exists sink, s = MkSeal (zlen segs + 1) (zlen (concat segs) + 1) (zlen (concat segs ++ act)) (head_hash (concat segs ++ act)) (sealContentDigest act) sink.
Proof.
  intros Hc Ha Hs id. unfold checkSealPlacement. rewrite Hs, Ha, bool_decide_true by done. cbn [negb]. destruct (count c <? 1); [done|].
  destruct (manifestLogID _); [|done]. rewrite (activeRecords_view a). cbn [view_of v_Sealed]. rewrite segments_of_length. fold (zlen segs).
  rewrite (ca_base _ _ _ Hc), (ca_count _ _ _ Hc), (ca_prev _ _ _ Hc), <- zlen_app.
  destruct (Z.eqb_spec (sl_Segment s) (zlen segs + 1)); [|done]. destruct (Z.eqb_spec (sl_FirstSeq s) (zlen (concat segs) + 1)); [|done].
  destruct (Z.eqb_spec (sl_HeadSeq s) (zlen (concat segs ++ act))); [|done]. cbn [negb]. case_bool_decide; [|done]. case_bool_decide; [|done].
  intros _. exists (sl_Sink s). destruct s; cbn in *. by subst.
Qed.

Lemma scan_after c segs act size env e : chain_at c segs act -> scan_ok segs act StateOpen -> checkSealShape e = None -> event_ok env e ->
  room (concat segs ++ act) env e ->
  forall id, checkSealPlacement c (view_of a id segs act StateOpen size) e = None ->
  scan_ok segs (act ++ [line_at (concat segs ++ act) env e]) (state_after e).
Proof.
  intros Hc Hs Hshape He Hr lid Hp. set (rs := concat segs ++ act) in *. pose proof (line_decodes rs env e He Hr) as Hd.
  assert (Hscan : scan_seal (zlen segs + 1) (zlen (concat segs) + 1) [] (act ++ [line_at rs env e]) =
    if is_seal (san_record (record_at rs env e)) then Seals (san_record (record_at rs env e)) else NoSeal).
  { rewrite scan_snoc by done. cbn [app scan_seal]. rewrite Hd. rewrite is_seal_at by done. destruct (bool_decide (ce_Action e = "seal")) eqn:Ea; [|done].
    destruct (bool_decide (ce_Outcome e = "success")) eqn:Eo; [|done]. cbn [andb]. apply bool_decide_eq_true in Ea, Eo.
    unfold checkSealShape in Hshape. rewrite Ea, Eo, !bool_decide_true in Hshape by done. cbn [negb andb] in Hshape.
    destruct (ce_Seal e) as [s|] eqn:Es; [|done]. destruct (placed_seal _ _ _ _ _ _ Hc Ea Es _ Hp) as (sink & ->).
    pose proof (eo_retained _ _ He) as Hret. unfold retained in Hret. rewrite Es in Hret. cbn [sl_Sink] in Hret.
    unfold retain_bad. cbn [san_record record_at r_Seal r_Seq r_Prev r_Time]. rewrite Es. cbn [fmap option_fmap option_map san_seal sl_Sink].
    unfold sealChainFieldsAgree, san_seal. cbn [sl_Segment sl_FirstSeq sl_HeadSeq sl_HeadHash sl_ContentSHA256]. fold rs.
    rewrite !to_valid_id by (apply head_hash_valid || apply sha256_valid). replace (zlen rs + 1 - 1) with (zlen rs) by lia.
    rewrite !Z.eqb_refl, !bool_decide_true by done. cbn [andb negb]. destruct sink as [b|]; [|done]. cbn. by rewrite Hret. }
  unfold state_after. rewrite is_seal_at in Hscan by done. destruct (_ && _); [|exact Hscan].
  unfold scan_ok, sealed_by, seal_record. rewrite last_snoc. cbn [default id]. unfold id. rewrite Hd. cbn [default]. split; [exact Hscan|].
  cbn [san_record r_Time record_at]. split; [apply (eo_clock _ _ He)|]. destruct (eo_time _ _ He). split; by rewrite time_text_idem.
Qed.
End appending.

(** ** The manifest of a set *)
Lemma valid_utf8_app s t : valid_utf8 s = true -> valid_utf8 (s +:+ t) = valid_utf8 t.
Proof.
  intros Hs. rewrite <- (encode_runes s Hs). pose proof (runes_scalar s) as Hr. induction Hr as [|z rs Hz _ IH]; [done|].
  cbn [encode_all]. by rewrite app_assoc_str, valid_encode.
Qed.

Lemma digits_valid s : all_chars is_digit s = true -> valid_utf8 s = true.
Proof.
  induction s as [|c s IH]; [done|]. cbn [all_chars valid_utf8]. intros [Hc Hs]%andb_true_iff.
  assert (utf8_size c s = 1%nat) as ->; [|by apply IH]. apply utf8_size_1. unfold is_digit, in_range in Hc. bool_prop. lia.
Qed.

Lemma segment_path_valid a k : valid_utf8 a = true -> 0 <= k -> valid_utf8 (SegmentPath a k) = true.
Proof.
  intros Ha Hk. unfold SegmentPath. rewrite valid_utf8_app by done. rewrite valid_utf8_app by done. apply digits_valid.
  unfold pad6. rewrite zeros_digits. by apply itoa_digits.
Qed.

Section manifest.
  Context (a : string).

Lemma segments_of_snoc rs k segs act : segments_of a rs k (segs ++ [act]) = segments_of a rs k segs ++ [segment_of a (rs ++ concat segs) (k + zlen segs) act].
Proof.
  revert rs k. induction segs as [|seg segs IH]; intros rs k; cbn [segments_of app concat].
  - by rewrite app_nil_r, Z.add_0_r.
  - f_equal. rewrite IH. rewrite app_assoc. do 3 f_equal. unfold zlen. cbn [length]. lia.
Qed.

Lemma sealed_nonempty rs k seg : sealed_by rs k seg -> seg <> [].
Proof. intros [Hs _] ->. done. Qed.

Lemma bytes_nonempty rs : rs <> [] -> 0 < str_len (bytes_of rs).
Proof. intros Hne. pose proof (zlen_bytes rs). destruct rs; [done|]. unfold zlen in *. cbn [length] in *. lia. Qed.

Lemma head_hash_shape rs : rs <> [] -> anchorHashRE (head_hash rs) = true.
Proof.
  destruct rs as [|r rs _] using rev_ind; [done|]. intros _. unfold head_hash. rewrite last_snoc. apply sha256_hex_shape.
Qed.

Lemma entry_of_ok rs k seg : valid_utf8 a = true -> sealed_by rs k seg -> 1 <= k <= 999999 ->
  str_len (bytes_of (rs ++ seg)) < max_int64 ->
  entry_ok (manifestEntry a (segment_of a rs k seg)) /\ check_entry a (k - 1) (zlen rs) (manifestEntry a (segment_of a rs k seg)) = None.
Proof.
  intros Ha Hs Hk Hb. pose proof (sealed_nonempty _ _ _ Hs) as Hne. destruct Hs as (_ & Hz & Ht).
  pose proof (zlen_bytes (rs ++ seg)) as Hl. pose proof (zlen_nonneg rs). pose proof (bytes_nonempty seg Hne).
  rewrite bytes_of_app, str_len_app in Hb, Hl. rewrite zlen_app in Hl. assert (0 <= str_len (bytes_of rs)) by (unfold str_len; lia).
  assert (1 <= zlen seg) by (destruct seg; [done|unfold zlen; cbn; lia]). assert (rs ++ seg <> []) by (by destruct rs).
  split.
  - split; cbn; rewrite ?zlen_app; unfold int_ok, min_int64, max_int64 in *; try lia.
    + split; [done|]. intros E. by rewrite E in Hz.
    + apply segment_path_valid; [done|lia].
    + apply head_hash_valid.
    + apply sha256_valid.
  - unfold check_entry. cbn. rewrite zlen_app. replace (k - 1 + 1) with k by lia. rewrite !Z.eqb_refl, bool_decide_true by done. cbn [negb].
    rewrite (proj2 (Z.ltb_ge _ _)), head_hash_shape by (done || lia). unfold anchorHashRE. rewrite sha256_hex_shape. cbn [negb].
    by rewrite (proj2 (Z.leb_gt _ _)) by lia.
Qed.

Lemma entries_ok rs k segs : valid_utf8 a = true -> segs_ok rs k segs -> 1 <= k -> k + zlen segs <= 1000000 ->
  str_len (bytes_of (rs ++ concat segs)) < max_int64 ->
  Forall entry_ok (map (manifestEntry a) (segments_of a rs k segs)) /\
  check_entries a (k - 1) (zlen rs) (map (manifestEntry a) (segments_of a rs k segs)) = None.
Proof.
  intros Ha. revert rs k. induction segs as [|seg segs IH]; intros rs k Hs Hk Hn Hb; [split; [constructor|done]|].
  destruct Hs as [Hs Hss]. cbn [concat] in Hb. rewrite app_assoc in Hb. assert (zlen (seg :: segs) = zlen segs + 1) as Hz by (unfold zlen; cbn; lia).
  pose proof (zlen_nonneg segs). destruct (IH (rs ++ seg) (k + 1) Hss) as [IH1 IH2]; [lia|lia|done|].
  destruct (entry_of_ok rs k seg Ha Hs) as [H1 H2]; [lia| |].
  { rewrite bytes_of_app, str_len_app in Hb. assert (0 <= str_len (bytes_of (concat segs))) by (unfold str_len; lia). lia. }
  cbn [segments_of map check_entries]. split; [by constructor|]. rewrite H2.
  replace (k - 1 + 1) with (k + 1 - 1) by lia. exact IH2.
Qed.

Lemma genesis_shape rs id : GenesisLogID rs = Some id -> genesisLogIDRE id = true.
Proof. unfold GenesisLogID. intros Hg. repeat case_match; by simplify_eq. Qed.

Lemma genesis_nonempty rs id : GenesisLogID rs = Some id -> id <> "".
Proof. intros Hg ->. by apply genesis_shape in Hg. Qed.

(** The identity a manifest is written with. *)
Lemma manifest_identity d ino id segs act frag st st' size logID : repr a d ino id segs act frag st ->
  manifestLogID (view_of a id segs act st' size) = Ok logID -> GenesisLogID (concat segs ++ act) = Some logID.
Proof.
  intros Hr. unfold manifestLogID. cbn [view_of v_LogID v_Records]. case_bool_decide as Hid; cbn [negb].
  - by destruct (GenesisLogID _); intros [= ->].
  - intros [= <-]. pose proof (rep_manifest Hr) as Hm. destruct segs as [|seg segs]; [by destruct Hm|]. destruct Hm as (j & m & _ & _ & _ & [_ Hg] & <-).
    by apply genesis_app.
Qed.

(** The manifest that lists the sealed active parses back to itself. *)
Lemma written_manifest d ino id segs act logID : valid_utf8 a = true -> repr a d ino id segs act "" StateSealedNotRotated ->
  GenesisLogID (concat segs ++ act) = Some logID ->
  let m := MkManifest ManifestVersion logID (map (manifestEntry a) (segments_of a [] 1 segs ++ [segment_of a (concat segs) (zlen segs + 1) act])) in
  ParseManifest a (marshal_manifest m) = Ok m /\ lists a m (segs ++ [act]).
Proof.
  intros Ha Hr Hg m. pose proof (rep_count Hr). pose proof (zlen_nonneg segs).
  assert (Hs : segments_of a [] 1 (segs ++ [act]) = segments_of a [] 1 segs ++ [segment_of a (concat segs) (zlen segs + 1) act]).
  { rewrite segments_of_snoc. by rewrite (Z.add_comm 1). }
  assert (Hok : segs_ok [] 1 (segs ++ [act])).
  { apply segs_ok_snoc; [apply (rep_seals Hr)|]. rewrite Z.add_comm. exact (rep_scan Hr). }
  destruct (entries_ok [] 1 (segs ++ [act]) Ha Hok) as [H1 H2]; [lia|rewrite zlen_snoc; lia| |].
  { cbn [app]. rewrite concat_snoc. apply (rep_bytes Hr). }
  rewrite Hs in H1, H2. split.
  - apply parse_written; [done|by eapply genesis_shape| |done|done]. cbn. by destruct (segments_of a [] 1 segs).
  - split; [cbn; by rewrite Hs|]. by rewrite concat_snoc.
Qed.
End manifest.
