(* ===== verification/ControlLedger.v ===== *)
(** * The control ledger, operation by operation

    [Append], [SealActive], [CompleteSeal] and [Repair] on any directory that
    holds a set, whatever the disk, the lock, the clock and the sink answer. *)
From S2P Require Import Prelude Sha256 GoStr Json Paths Ledger Config Origin Event ControlRecord Manifest Segments SegmentSet SegmentOps.

Lemma take_str_all n s : (String.length s <= n)%nat -> take_str n s = s.
Proof. revert n. induction s as [|c s IH]; intros [|n] Hn; cbn in *; [done|done|lia|]. f_equal. apply IH. lia. Qed.

(** The branch that stops with an error. *)
Ltac refused := eexists _, _; (split; [done|]); left; (split; [by eexists|first [done | by eexists]]).

Section control.
  Context `{GoText} `{GoURL} (a : string).

(** ** Appending *)

(** What a write leaves: the whole line, or a fragment of it. *)
Lemma write_leaves w line : no_nl line ->
  (exists frag, no_nl frag /\ write_bytes w (line +:+ String newline "") = frag /\ w <> WriteOk) \/
  write_bytes w (line +:+ String newline "") = line +:+ String newline "".
Proof.
  intros Hn. destruct w as [| |n]; cbn [write_bytes]; [by right|by right|]. destruct (decide (n <= String.length line)%nat) as [Hl|Hl].
  - left. exists (take_str n line). rewrite take_str_app_le by done. split_and!; [by apply take_str_no_nl|done|done].
  - right. apply take_str_all. rewrite length_app_str. cbn. lia.
Qed.

Lemma ledger_append c segs act env e : chain_at c segs act -> room (concat segs ++ act) env e ->
  let rs := concat segs ++ act in let line := line_at rs env e in
  exists c' err, Ledger.Append (ae_write env) c line = (c', err) /\
    file c' = bytes_of act +:+ write_bytes (ae_write env) (line +:+ String newline "") /\
    match ae_write env with
    | WriteOk => err = None /\ prevHash c' = sha256_hex line /\ base c' + count c' = zlen rs + 1
    | _ => err = Some ErrIO
    end.
Proof.
  intros Hc Hr rs line. pose proof (line_accepted rs env e true Hr) as (f & Hf & Hm & _ & Hseq & Hprev).
  specialize (Hseq eq_refl). unfold Ledger.Append. fold line in Hf. rewrite Hf, Hprev, (ca_prev _ _ _ Hc). fold rs. rewrite bool_decide_true by done. cbn [negb].
  assert ((if seqEstablished c then seqMode c else is_Some_b (Seq f)) = true) as ->.
  { destruct (seqEstablished c) eqn:E; [by apply (ca_mode _ _ _ Hc)|done]. }
  rewrite (ca_base _ _ _ Hc), (ca_count _ _ _ Hc), (ca_file _ _ _ Hc). rewrite Hseq.
  replace (zlen (concat segs) + (zlen act + 1)) with (0 + (zlen rs + 1)) by (unfold rs; rewrite zlen_app; lia). rewrite bool_decide_true by done. cbn [negb andb].
  destruct (ae_write env); do 2 eexists; (split; [done|]); cbn; rewrite ?(ca_file _ _ _ Hc); split_and!; try done.
  unfold rs. rewrite zlen_app. lia.
Qed.

Lemma appendOn_cases c id segs act d ino size env e :
  repr a d ino id segs act "" StateOpen -> chain_at c segs act ->
  checkSealShape e = None -> event_ok env e -> room (concat segs ++ act) env e ->
  let rs := concat segs ++ act in let line := line_at rs env e in
  exists r c' act' frag', appendOn c (view_of a id segs act StateOpen size) env e = (r, c') /\
    repr a (set_file d ino (file c')) ino id segs act' frag' (if bool_decide (act' = act) then StateOpen else state_after e) /\
    (act' = act \/ act' = act ++ [line] /\ frag' = "" /\ checkSealPlacement c (view_of a id segs act StateOpen size) e = None) /\
    (forall h l, r = Ok (h, l) -> act' = act ++ [line] /\ h = MkHead (sha256_hex line) (zlen rs + 1) /\ l = line).
Proof.
  intros Hr Hc Hs He Hroom rs line.
  assert (Hsame : repr a (set_file d ino (file c)) ino id segs act "" StateOpen).
  { rewrite (ca_file _ _ _ Hc), <- (app_nil_str (bytes_of act)). by eapply repr_set_file; try apply Hr. }
  unfold appendOn. destruct (checkAnchorCoverage _ _); [exists (Err (EPermit p)), c, act, ""; rewrite bool_decide_true by done; by split_and!; [..|left|]|].
  destruct (checkSealPlacement _ _ _) as [x|] eqn:Hp; [exists (Err x), c, act, ""; rewrite bool_decide_true by done; by split_and!; [..|left|]|].
  rewrite (record_of_at c segs act env e Hc). fold rs. fold (line_at rs env e). fold line.
  destruct (_ && negb _); [exists (Err EIO), c, act, ""; rewrite bool_decide_true by done; by split_and!; [..|left|]|].
  destruct (ledger_append c segs act env e Hc Hroom) as (c' & err & HA & Hf & Hw). fold rs in HA, Hf, Hw. fold line in HA, Hf, Hw. rewrite HA.
  destruct (write_leaves (ae_write env) line (line_no_nl _ _ _)) as [(frag & Hnl & E & Hne)|E].
  - rewrite E in Hf. destruct (ae_write env); [done|..]; subst err; exists (Err (ELedger ErrIO)), c', act, frag; rewrite bool_decide_true by done;
      (split_and!; [done| |by left|done]); rewrite Hf; (eapply repr_set_file; [apply Hr|..]; try done; apply Hr).
  - rewrite E, <- bytes_of_snoc in Hf.
    assert (Hnew : repr a (set_file d ino (file c')) ino id segs (act ++ [line]) "" (state_after e)).
    { rewrite Hf, <- (app_nil_str (bytes_of (act ++ [line]))). eapply repr_set_file; [apply Hr|..]; try done.
      - unfold state_after. by destruct (_ && _).
      - rewrite app_assoc. apply lchain_snoc; [apply Hr|done].
      - rewrite app_assoc. done.
      - eapply scan_after; try done. apply (rep_scan Hr). }
    assert (act ++ [line] <> act) as Hdiff. { intros Eq. rewrite <- (app_nil_r act) in Eq at 2. by apply app_inv_head in Eq. }
    destruct (ae_write env); cycle 1; [|..].
    1, 2: subst err; exists (Err (ELedger ErrIO)), c', (act ++ [line]), ""; rewrite bool_decide_false by done; split_and!; [done|done|by right|done].
    destruct Hw as (-> & Hh & Hcount). exists (Ok (MkHead (prevHash c') (base c' + count c'), line)), c', (act ++ [line]), "".
    rewrite bool_decide_false by done. split_and!; [done|done|by right|]. intros h l [= <- <-]. rewrite Hh, Hcount. done.
Qed.

(** ** Rotation *)
Lemma linkSegment_cases d ino id segs act st o : repr a d ino id segs act "" st -> st <> StateRotatedNotSwapped ->
  exists err d', linkSegment a d ino (zlen segs + 1) o = (err, d') /\ repr a d' ino id segs act "" st /\ file_of d' = file_of d /\
    (err = None -> dk_names d' !! SegmentPath a (zlen segs + 1) = Some ino) /\ (o = LinkOk -> err = None).
Proof.
  intros Hr Hst. pose proof (rep_count Hr). pose proof (zlen_nonneg segs). unfold linkSegment. destruct (dk_names d !! SegmentPath a (zlen segs + 1)) as [i|] eqn:E.
  - destruct (rep_siblings Hr (SegmentPath a (zlen segs + 1))) as (k & Ek & Hk); [by exists i|apply segment_prefix|].
    apply SegmentPath_inj in Ek; [|unfold two64; lia|unfold two64; lia]. subst k. destruct Hk as [Hk|[_ Hk]]; [lia|].
    assert (i = ino) as -> by congruence. rewrite bool_decide_true by done. exists None, d. by split_and!.
  - destruct o; eexists _, _; (split; [done|]); [|split_and!; [done|done|intros [=]|intros [=]]..].
    split_and!; [by apply repr_link|done| |done]. intros _. cbn. by rewrite lookup_insert_eq.
Qed.

Lemma writeManifest_cases d m o : ParseManifest a (marshal_manifest m) = Ok m ->
  exists err d', writeManifest a d m o = (err, d') /\
    (err = None /\ d' = create_file d (ManifestPath a) (marshal_manifest m) \/
     err = Some EIO /\ o <> RepOk /\ (d' = d \/ exists name s, free_name a name /\ d' = create_file d name s)).
Proof.
  intros Hp. unfold writeManifest. rewrite Hp. destruct o as [| |suffix part]; cbn [Replace].
  - eexists _, _. split; [done|]. by left.
  - eexists _, _. split; [done|]. right. by split_and!; [..|left].
  - eexists _, _. split; [done|]. right. split_and!; [done|done|]. right. eexists _, _. split; [|done]. left. exists suffix. by rewrite app_assoc_str.
Qed.

(** The swap that ends a rotation. *)
Lemma finish_swap_cases d ino id segs n seg sunk o : repr a d ino id segs [] "" StateRotatedNotSwapped ->
  exists r d', finish_swap a d n seg sunk o = (r, d') /\
    (r = Ok (seal_result n seg sunk) /\ repr a d' (dk_next d) id segs [] "" StateOpen \/
     (exists e, r = Err e) /\ o <> RepOk /\ repr a d' ino id segs [] "" StateRotatedNotSwapped).
Proof.
  intros Hr. unfold finish_swap, swapActive. destruct o as [| |suffix part]; cbn [Replace]; eexists _, _; (split; [done|]).
  - left. split; [done|]. by eapply repr_swapped.
  - right. split_and!; [by eexists|done|done].
  - right. split_and!; [by eexists|done|]. apply repr_create; [done|]. right; left. exists suffix. by rewrite !app_assoc_str.
Qed.

(** The segment the rotation closes. *)
Definition closed_segment (segs : list (list string)) (act : list string) : Segment := segment_of a (concat segs) (zlen segs + 1) act.

Lemma commit_manifest_cases d ino id segs act st size sink pre env :
  valid_utf8 a = true -> zlen segs + 1 < 999999 -> repr a d ino id segs act "" StateSealedNotRotated ->
  exists r d', commit_manifest a d ino (view_of a id segs act st size) sink pre env = (r, d') /\
    ((exists e, r = Err e) /\ repr a d' ino id segs act "" StateSealedNotRotated \/
     exists sunk id', r = Ok (closed_segment segs act, sunk) /\ repr a d' ino id' (segs ++ [act]) [] "" StateRotatedNotSwapped).
Proof.
  intros Ha Hn Hr. unfold commit_manifest. cbn [view_of v_Sealed v_Active v_Head sg_FirstSeq Count Hash]. rewrite segments_of_length, (activeRecords_view a). fold (zlen segs).
  destruct (linkSegment_cases d ino id segs act StateSealedNotRotated (re_link env) Hr ltac:(done)) as (err & d1 & -> & Hr1 & _ & Hlink & _).
  destruct err as [e|]; [refused|]. specialize (Hlink eq_refl).
  destruct (decodeRecord (default "" (last act))) as [rec|] eqn:Hd; [|refused].
  destruct (r_Seal rec) as [s|] eqn:Hs; [|refused]. unfold segmentDigests.
  match goal with |- context [manifestLogID ?v] => destruct (manifestLogID v) as [logID|e] eqn:Hl end;
    [|refused].
  apply (manifest_identity a _ _ _ _ _ _ _ _ _ _ Hr1) in Hl.
  destruct (protect _ _ _ _ _ _ _) as [sunk|e]; [|refused].
  assert (MkSegment (zlen segs + 1) (SegmentPath a (zlen segs + 1)) (zlen (concat segs) + 1) (zlen (concat segs ++ act)) (head_hash (concat segs ++ act))
            (sha256_hex (bytes_of act)) (str_len (bytes_of act)) (Z.of_nat (length act)) (r_Time rec) (sl_Sink s) = closed_segment segs act) as ->.
  { unfold closed_segment, segment_of, seal_record. rewrite Hd. cbn [default]. cbn. by rewrite Hs. }
  destruct (written_manifest a _ _ _ _ _ _ Ha Hr1 Hl) as [Hp Hlists]. fold (closed_segment segs act) in Hp, Hlists.
  destruct (writeManifest_cases d1 _ (re_manifest env) Hp) as (err & d2 & -> & [[-> ->]|(-> & _ & Hd2)]).
  - eexists _, _. split; [done|]. right. eexists _, _. split; [done|]. exact (repr_rotated a _ _ _ _ _ _ _ Hr1 Hlink Hn Hp Hlists).
  - eexists _, _. split; [done|]. left. split; [by eexists|]. destruct Hd2 as [->|(name & s0 & Hfree & ->)]; [done|by apply repr_create].
Qed.

(** Where a rotation can leave the set. *)
Definition rotation (d' : disk) (ino : nat) (id : string) (segs : list (list string)) (act : list string) (ok : bool) : Prop :=
  if ok then exists ino' id', repr a d' ino' id' (segs ++ [act]) [] "" StateOpen
  else repr a d' ino id segs act "" StateSealedNotRotated \/ exists id', repr a d' ino id' (segs ++ [act]) [] "" StateRotatedNotSwapped.

Definition is_ok {E A} (r : result E A) : bool := match r with Ok _ => true | Err _ => false end.

Lemma rotate_sealed d ino id segs act st size sink pre env :
  valid_utf8 a = true -> zlen segs + 1 < 999999 -> st <> StateRotatedNotSwapped -> repr a d ino id segs act "" StateSealedNotRotated ->
  exists r d', rotate a d ino (view_of a id segs act st size) sink pre env = (r, d') /\ rotation d' ino id segs act (is_ok r) /\
    (forall res, r = Ok res -> exists sunk, res = seal_result (zlen segs + 1) (closed_segment segs act) sunk).
Proof.
  intros Ha Hn Hst Hr. destruct (commit_manifest_cases d ino id segs act st size sink pre env Ha Hn Hr) as (r & d1 & Hc & Hcases).
  assert (Hrot : rotate a d ino (view_of a id segs act st size) sink pre env =
    match r with Err e => (Err e, d1) | Ok (seg, sunk) => finish_swap a d1 (sg_N seg) seg sunk (re_swap env) end).
  { unfold rotate. rewrite Hc. cbn [view_of v_State]. destruct st; [by destruct r as [[]|]..|done]. }
  rewrite Hrot. destruct Hcases as [[[e ->] Hr1]|(sunk & id' & -> & Hr1)].
  - eexists _, _. split; [done|]. split; [by left|done].
  - destruct (finish_swap_cases d1 ino id' (segs ++ [act]) (zlen segs + 1) (closed_segment segs act) sunk (re_swap env) Hr1) as (r & d2 & Hf & Hcases).
    exists r, d2. split; [exact Hf|]. destruct Hcases as [[-> Hr2]|([e ->] & _ & Hr2)].
    + split; [by eexists _, _|]. intros res [= <-]. by exists sunk.
    + split; [right; by eexists|done].
Qed.

Lemma rotate_rotated d ino id segs size sink pre env : repr a d ino id segs [] "" StateRotatedNotSwapped ->
  exists r d', rotate a d ino (view_of a id segs [] StateRotatedNotSwapped size) sink pre env = (r, d') /\
    (is_ok r = true /\ repr a d' (dk_next d) id segs [] "" StateOpen \/
     is_ok r = false /\ re_swap env <> RepOk /\ repr a d' ino id segs [] "" StateRotatedNotSwapped).
Proof.
  intros Hr. unfold rotate. cbn [view_of v_State v_Sealed]. rewrite segments_of_length.
  match goal with |- context [finish_swap a d ?n ?seg None ?o] => destruct (finish_swap_cases d ino id segs n seg None o Hr) as (r & d' & Hf & Hc) end.
  exists r, d'. split; [exact Hf|]. destruct Hc as [[-> Hr']|([e ->] & Ho & Hr')]; [by left|by right].
Qed.

(** ** Sealing *)

(** The seal that [SealActive] writes, and the event it goes with. *)
Definition seal_for (segs : list (list string)) (act : list string) (loc : option SealSink) : Seal :=
  MkSeal (zlen segs + 1) (zlen (concat segs) + 1) (zlen (concat segs ++ act)) (head_hash (concat segs ++ act)) (sealContentDigest act) loc.
Definition sealing (segs : list (list string)) (act : list string) (loc : option SealSink) (e : CEvent) : CEvent :=
  { e with ce_Seal := Some (seal_for segs act loc) }.

Lemma sealing_state segs act loc e : ce_Action e = "seal" -> ce_Outcome e = "success" -> state_after (sealing segs act loc e) = StateSealedNotRotated.
Proof. unfold state_after, sealing. destruct e; cbn. by intros -> ->. Qed.

Definition locate (sink : option SinkWriter) (logID : string) (n : Z) (t : string) : option SealSink :=
  match sink with Some sw => Some (sw_Locator sw logID n t) | None => None end.

(** What sealing the set needs of the caller's event, the clock and the sink. *)
Definition seal_input_ok (env : seal_env) (sink : option SinkWriter) (e : CEvent) (segs : list (list string)) (act : list string) : Prop :=
  forall logID, GenesisLogID (concat segs ++ act) = Some logID ->
  let e' := sealing segs act (locate sink logID (zlen segs + 1) (sv_now env)) e in
  event_ok (sv_append env) e' /\ room (concat segs ++ act) (sv_append env) e'.

Lemma sealed_view_of id segs act size line :
  sealed_view (view_of a id segs act StateOpen size) (MkHead (sha256_hex line) (zlen (concat segs ++ act) + 1)) line
  = view_of a id segs (act ++ [line]) StateOpen size.
Proof.
  unfold sealed_view, view_of. cbn. rewrite app_assoc, head_hash_app, !zlen_snoc. done.
Qed.

(** Where a seal can leave the set; [line] is the seal's. *)
Definition seal_outcome (d' : disk) (ino : nat) (id : string) (segs : list (list string)) (act : list string) (line : string) (ok : bool) : Prop :=
  if ok then exists ino' id', repr a d' ino' id' (segs ++ [act ++ [line]]) [] "" StateOpen
  else (exists frag, repr a d' ino id segs act frag StateOpen) \/ rotation d' ino id segs (act ++ [line]) false.

(** From the appended seal on. *)
Lemma seal_tail d c ino id segs act size loc env e sink :
  valid_utf8 a = true -> zlen segs + 1 < 999999 -> ce_Action e = "seal" -> ce_Outcome e = "success" ->
  let e' := sealing segs act loc e in
  checkSealShape e' = None -> event_ok (sv_append env) e' -> room (concat segs ++ act) (sv_append env) e' ->
  repr a d ino id segs act "" StateOpen -> chain_at c segs act ->
  exists r d',
    match appendOn c (view_of a id segs act StateOpen size) (sv_append env) e' with
    | (Err err, c') => (Err (ESealStep SealStepRecord err), set_file d ino (file c'))
    | (Ok (head, line), c') =>
        rotate a (set_file d ino (file c')) ino (sealed_view (view_of a id segs act StateOpen size) head line) sink None (sv_rotate env)
    end = (r, d') /\ seal_outcome d' ino id segs act (line_at (concat segs ++ act) (sv_append env) e') (is_ok r).
Proof.
  intros Ha Hn Eact Eout e' Hshape He Hroom Hr Hc. set (line := line_at _ _ e').
  destruct (appendOn_cases c id segs act d ino size (sv_append env) e' Hr Hc Hshape He Hroom) as (r & c' & act' & frag' & -> & Hr' & Hact & Hok).
  fold line in Hact, Hok.
  assert (Hst : state_after e' = StateSealedNotRotated). { by apply sealing_state. }
  rewrite Hst in Hr'. destruct r as [[head l]|err].
  - destruct (Hok _ _ eq_refl) as (-> & -> & ->). rewrite sealed_view_of.
    rewrite bool_decide_false in Hr' by (intros E; rewrite <- (app_nil_r act) in E at 2; by apply app_inv_head in E).
    destruct Hact as [E|(_ & -> & _)]; [rewrite <- (app_nil_r act) in E at 2; by apply app_inv_head in E|].
    destruct (rotate_sealed _ ino id segs (act ++ [line]) StateOpen size sink None (sv_rotate env) Ha Hn ltac:(done) Hr') as (r & d' & -> & Hrot & _).
    exists r, d'. split; [done|]. unfold seal_outcome. destruct (is_ok r); [exact Hrot|by right].
  - eexists _, _. split; [done|]. cbn [is_ok seal_outcome]. destruct (decide (act' = act)) as [->|Hne].
    + rewrite bool_decide_true in Hr' by done. left. by eexists.
    + rewrite bool_decide_false in Hr' by done. destruct Hact as [?|(-> & -> & _)]; [done|]. right. by left.
Qed.


(** A seal on a set: refused with the set untouched, or the set the seal's
    outcome describes. *)
Lemma seal_cases t1 t2 env e sink ino id segs act frag st :
  valid_utf8 a = true -> zlen segs + 1 < 999999 -> ce_Action e = "seal" -> ce_Outcome e = "success" -> ce_Seal e = None ->
  repr a (at_disk (deciding a true t1 t2)) ino id segs act frag st -> walks a (deciding a true t1 t2) segs -> seal_input_ok env sink e segs act ->
  exists r d' , SealActive a t1 t2 env e sink = (r, d') /\
    (is_ok r = false /\ repr a d' ino id segs act frag st \/
     exists logID, GenesisLogID (concat segs ++ act) = Some logID /\ seal_outcome d' ino id segs act
       (line_at (concat segs ++ act) (sv_append env) (sealing segs act (locate sink logID (zlen segs + 1) (sv_now env)) e)) (is_ok r)).
Proof.
  intros Ha Hn Eact Eout Eseal Hr Hw Hin. unfold SealActive. rewrite Eact, Eout, Eseal, !bool_decide_true by done. cbn [negb orb is_Some_b].
  destruct (openActive_repr a t1 t2 ino id segs act frag st Hr Hw) as [[x ->]|(c & -> & -> & -> & Hc)]; [eexists _, _; split; [done|]; by left|].
  apply repr_sweep in Hr. set (d := sweepTemps a _) in *. destruct (count c =? 0); [eexists _, _; split; [done|]; by left|].
  destruct (manifestLogID _) as [logID|x] eqn:Hl; [|eexists _, _; split; [done|]; by left].
  pose proof (manifest_identity a _ _ _ _ _ _ _ _ _ _ Hr Hl) as Hg. destruct (Hin logID Hg) as [He Hroom].
  cbn [view_of v_Sealed]. rewrite segments_of_length. fold (zlen segs). fold (locate sink logID (zlen segs + 1) (sv_now env)).
  destruct (match sink, locate sink logID (zlen segs + 1) (sv_now env) with Some sw, Some l => sw_Prepare sw l | _, _ => None end); [eexists _, _; split; [done|]; by left|].
  destruct (linkSegment_cases d ino id segs act StateOpen (sv_link env) Hr ltac:(done)) as (err & d1 & -> & Hr1 & _).
  destruct err as [x|]; [eexists _, _; split; [done|]; by left|].
  fold (view_of a id segs act StateOpen (size_of (at_disk (deciding a true t1 t2)) ino StateOpen)). rewrite (activeRecords_view a).
  rewrite (ca_base _ _ _ Hc), (ca_count _ _ _ Hc), (ca_prev _ _ _ Hc), <- zlen_app.
  fold (seal_for segs act (locate sink logID (zlen segs + 1) (sv_now env))). fold (sealing segs act (locate sink logID (zlen segs + 1) (sv_now env)) e).
  destruct (checkSealShape _) eqn:Hshape; [eexists _, _; split; [done|]; by left|].
  destruct (seal_tail d1 c ino id segs act (size_of (at_disk (deciding a true t1 t2)) ino StateOpen) _ env e sink Ha Hn Eact Eout Hshape He Hroom Hr1 Hc) as (r & d' & -> & Ho).
  eexists _, _. split; [done|]. right. by exists logID.
Qed.

(** ** Completing *)

(** A set with the records of the active among the sealed segments, or not
    yet. *)
Definition same_records (d' : disk) (segs : list (list string)) (act : list string) (done_ : bool) : Prop :=
  exists ino' id' segs' act' frag' st', repr a d' ino' id' segs' act' frag' st' /\ concat segs' ++ act' = concat segs ++ act /\
    (done_ = true -> act' = [] /\ frag' = "" /\ st' = StateOpen).

Lemma rotation_same d' ino id segs act ok : rotation d' ino id segs act ok -> same_records d' segs act ok.
Proof.
  unfold rotation, same_records. destruct ok.
  - intros (ino' & id' & Hr). exists ino', id', (segs ++ [act]), [], "", StateOpen. rewrite concat_snoc, app_nil_r. by split_and!.
  - intros [Hr|[id' Hr]]; [exists ino, id, segs, act, "", StateSealedNotRotated; by split_and!|].
    exists ino, id', (segs ++ [act]), [], "", StateRotatedNotSwapped. rewrite concat_snoc, app_nil_r. by split_and!.
Qed.

Lemma same_repr d ino id segs act frag st : repr a d ino id segs act frag st -> same_records d segs act false.
Proof. intros Hr. exists ino, id, segs, act, frag, st. by split_and!. Qed.

Lemma rotate_same d ino id segs act st size sink pre env : valid_utf8 a = true -> zlen segs + 1 < 999999 -> st <> StateOpen ->
  repr a d ino id segs act "" st ->
  exists r d', rotate a d ino (view_of a id segs act st size) sink pre env = (r, d') /\ same_records d' segs act (is_ok r).
Proof.
  intros Ha Hn Hst Hr. destruct st; [done| |].
  - destruct (rotate_sealed d ino id segs act StateSealedNotRotated size sink pre env Ha Hn ltac:(done) Hr) as (r & d' & Hrot & Ho & _).
    exists r, d'. split; [done|]. by eapply rotation_same.
  - destruct (rep_scan Hr) as [-> _]. destruct (rotate_rotated d ino id segs size sink pre env Hr) as (r & d' & Hrot & Ho). exists r, d'. split; [done|].
    destruct Ho as [[-> Hr']|(-> & _ & Hr')]; [|by eapply same_repr]. exists (dk_next d), id, segs, [], "", StateOpen. by split_and!.
Qed.

Lemma complete_cases t1 t2 env sink pre ino id segs act frag st :
  valid_utf8 a = true -> zlen segs + 1 < 999999 ->
  repr a (at_disk (deciding a false t1 t2)) ino id segs act frag st -> walks a (deciding a false t1 t2) segs ->
  exists r d', completeSealWith a t1 t2 env sink pre = (r, d') /\ same_records d' segs act (is_ok r).
Proof.
  intros Ha Hn Hr Hw. unfold completeSealWith. destruct (lockActive_repr a false _ _ _ _ _ _ _ _ Hr Hw) as [(v & e & ->)|[-> ->]].
  - eexists _, _. split; [done|]. by eapply same_repr.
  - cbn [view_of v_State]. case_bool_decide as Hst; [eexists _, _; split; [done|]; by eapply same_repr|].
    match goal with |- context [rotate a ?d _ _ _ _ _] => destruct (rotate_same d ino id segs act st (size_of (at_disk (deciding a false t1 t2)) ino st) sink pre env Ha Hn Hst) as (r & d' & Hrot & Ho) end;
      [by apply repr_sweep|]. rewrite Hrot. destruct r; eexists _, _; (split; [done|exact Ho]).
Qed.

(** A seal scanned as a segment's last record is that record, decoded. *)
Lemma scan_seals_last o f pre rest rec : scan_seal o f pre rest = Seals rec ->
  exists r s, last rest = Some r /\ decodeRecord r = Some rec /\ r_Seal rec = Some s.
Proof.
  revert pre. induction rest as [|r rest IH]; intros pre; [done|]. cbn [scan_seal].
  assert (Hrec : forall pre, scan_seal o f pre rest = Seals rec -> exists r' s, last (r :: rest) = Some r' /\ decodeRecord r' = Some rec /\ r_Seal rec = Some s).
  { intros pre' Hs. destruct (IH _ Hs) as (r' & s & Hl & Hd). exists r', s. split; [|done]. by destruct rest. }
  destruct (decodeRecord r) as [rec'|] eqn:Hd; [|by apply Hrec]. destruct (is_seal rec'); [|by apply Hrec]. destruct rest as [|]; [|done].
  unfold sealChainFieldsAgree. destruct (r_Seal rec') as [s|] eqn:Hs; [|done]. repeat case_match; intros [= <-]. exists r, s. by split_and!.
Qed.

(** The sink confirms the copy the seal names, or the seal names none. *)
Definition confirms (sink : option SinkWriter) (pre : option confirmedCopy) (logID : string) (segs : list (list string)) (act : list string) : Prop :=
  exists sunk, protect sink pre logID (zlen segs + 1) (seal_record act) (sha256_hex (bytes_of act)) (segmentBytes act) = Ok sunk.

Definition all_ok (env : rotate_env) : Prop := re_link env = LinkOk /\ re_manifest env = RepOk /\ re_swap env = RepOk.

Lemma manifest_identity_ok d ino id segs act frag st st' size logID : repr a d ino id segs act frag st ->
  GenesisLogID (concat segs ++ act) = Some logID -> manifestLogID (view_of a id segs act st' size) = Ok logID.
Proof.
  intros Hr Hg. unfold manifestLogID. cbn [view_of v_LogID v_Records]. rewrite Hg. case_bool_decide as Hid; [done|]. cbn [negb].
  pose proof (rep_manifest Hr) as Hm. destruct segs as [|seg segs]; [by destruct Hm|]. destruct Hm as (j & m & _ & _ & _ & [_ Hg'] & <-).
  f_equal. apply (genesis_app _ act) in Hg'. congruence.
Qed.

Lemma commit_ok d ino id segs act st size sink pre env logID :
  valid_utf8 a = true -> repr a d ino id segs act "" StateSealedNotRotated -> all_ok env ->
  GenesisLogID (concat segs ++ act) = Some logID -> confirms sink pre logID segs act ->
  is_ok (commit_manifest a d ino (view_of a id segs act st size) sink pre env).1 = true.
Proof.
  intros Ha Hr (El & Em & _) Hg [sunk Hp]. unfold commit_manifest. cbn [view_of v_Sealed v_Active v_Head sg_FirstSeq Count Hash].
  rewrite segments_of_length, (activeRecords_view a). fold (zlen segs).
  destruct (linkSegment_cases d ino id segs act StateSealedNotRotated (re_link env) Hr ltac:(done)) as (err & d1 & -> & Hr1 & _ & _ & Herr).
  rewrite (Herr El). destruct (rep_scan Hr) as (Hs & _). apply scan_seals_last in Hs as (r & s & Hlast & Hd & Hseal).
  assert (decodeRecord (default "" (last act)) = Some (seal_record act)) as -> by (by rewrite Hlast). rewrite Hseal. unfold segmentDigests.
  rewrite (manifest_identity_ok _ _ _ _ _ _ _ _ _ _ Hr1 Hg), Hp.
  assert (MkSegment (zlen segs + 1) (SegmentPath a (zlen segs + 1)) (zlen (concat segs) + 1) (zlen (concat segs ++ act)) (head_hash (concat segs ++ act))
            (sha256_hex (bytes_of act)) (str_len (bytes_of act)) (Z.of_nat (length act)) (r_Time (seal_record act)) (sl_Sink s) = closed_segment segs act) as ->.
  { unfold closed_segment, segment_of. by rewrite Hseal. }
  destruct (written_manifest a _ _ _ _ _ _ Ha Hr1 Hg) as [Hparse _]. fold (closed_segment segs act) in Hparse. rewrite Em.
  destruct (writeManifest_cases d1 _ RepOk Hparse) as (err' & d2 & -> & [[-> _]|(_ & ? & _)]); done.
Qed.

Lemma rotate_ok d ino id segs act st size sink pre env logID :
  valid_utf8 a = true -> zlen segs + 1 < 999999 -> st <> StateOpen -> repr a d ino id segs act "" st -> all_ok env ->
  GenesisLogID (concat segs ++ act) = Some logID -> (st = StateSealedNotRotated -> confirms sink pre logID segs act) ->
  is_ok (rotate a d ino (view_of a id segs act st size) sink pre env).1 = true.
Proof.
  intros Ha Hn Hst Hr Hok Hg Hc. destruct st; [done| |].
  - pose proof (commit_ok d ino id segs act StateSealedNotRotated size sink pre env logID Ha Hr Hok Hg (Hc eq_refl)) as Hcommit.
    destruct (commit_manifest_cases d ino id segs act StateSealedNotRotated size sink pre env Ha Hn Hr) as (r & d1 & E & Hcases).
    unfold rotate. cbn [view_of v_State]. fold (view_of a id segs act StateSealedNotRotated size). rewrite E in *. cbn in Hcommit.
    destruct Hcases as [[[e ->] _]|(sunk & id' & -> & Hr1)]; [done|].
    destruct (finish_swap_cases d1 ino id' (segs ++ [act]) (sg_N (closed_segment segs act)) (closed_segment segs act) sunk (re_swap env) Hr1) as (r & d2 & -> & [[-> _]|(_ & Ho & _)]); [done|].
    by destruct Hok as (_ & _ & ?).
  - destruct (rep_scan Hr) as [-> _]. destruct (rotate_rotated d ino id segs size sink pre env Hr) as (r & d' & -> & [[? _]|(_ & Ho & _)]); [done|].
    by destruct Hok as (_ & _ & ?).
Qed.

Lemma complete_done d ino id segs act env sink res d' : valid_utf8 a = true -> zlen segs + 1 < 999999 ->
  repr a d ino id segs act "" StateSealedNotRotated -> CompleteSeal a (now d) (now d) env sink = (Ok res, d') ->
  exists ino' id', repr a d' ino' id' (segs ++ [act]) [] "" StateOpen.
Proof.
  intros Ha Hn Hr. unfold CompleteSeal, completeSealWith, lockActive. rewrite (lock_attempt_now a false _ _ _ _ _ _ _ Hr). unfold answer, verdict.
  rewrite bool_decide_true by done. cbn [view_of v_State]. rewrite bool_decide_false by done. apply repr_sweep in Hr.
  destruct (rotate_sealed _ ino id segs act StateSealedNotRotated (size_of d ino StateSealedNotRotated) sink None env Ha Hn ltac:(done) Hr) as (r & d1 & -> & Ho & _).
  destruct r as [res'|]; intros [= _ <-]. exact Ho.
Qed.

(** ** Append as a whole *)
Lemma permit_shape e : permit e = None -> checkSealShape e = None.
Proof. unfold permit. by repeat case_match. Qed.

(** The records stay, or the line is added. *)
Definition extends (d' : disk) (segs : list (list string)) (rs : list string) (line : string) : Prop := holds a d' segs rs \/ holds a d' segs (rs ++ [line]).

Lemma append_repr c d ino id segs act size env e : repr a d ino id segs act "" StateOpen -> chain_at c segs act ->
  checkSealShape e = None -> event_ok env e -> room (concat segs ++ act) env e ->
  let rs := concat segs ++ act in
  exists r c', appendOn c (view_of a id segs act StateOpen size) env e = (r, c') /\ extends (set_file d ino (file c')) segs rs (line_at rs env e) /\
    (forall h l, r = Ok (h, l) -> h = MkHead (sha256_hex (line_at rs env e)) (zlen rs + 1) /\
      repr a (set_file d ino (file c')) ino id segs (act ++ [line_at rs env e]) "" (state_after e)).
Proof.
  intros Hr Hc Hs He Hroom rs. destruct (appendOn_cases c id segs act d ino size env e Hr Hc Hs He Hroom) as (r & c' & act' & frag' & -> & Hr' & Hact & Hok).
  exists r, c'. split; [done|]. split.
  - destruct Hact as [->|(-> & -> & _)]; [left; by eapply repr_holds|right]. unfold rs. rewrite <- app_assoc. by eapply repr_holds.
  - intros h l E. destruct (Hok _ _ E) as (-> & -> & _). split; [done|].
    assert (act ++ [line_at rs env e] <> act) as Hdiff by (intros Eq; rewrite <- (app_nil_r act) in Eq at 2; by apply app_inv_head in Eq).
    rewrite bool_decide_false in Hr' by done. destruct Hact as [?|(_ & -> & _)]; [done|]. exact Hr'.
Qed.

(** The set an attempt decides on. *)
Definition attempt_on (t : attempt) (segs : list (list string)) (rs : list string) : Prop := holds a (at_disk t) segs rs /\ walks a t segs.

Lemma control_append_cases t1 t2 env e segs rs : permit e = None -> event_ok env e -> attempt_on (deciding a true t1 t2) segs rs -> room rs env e ->
  exists r d', Append a t1 t2 env e = (r, d') /\ extends d' segs rs (line_at rs env e) /\
    (forall h, r = Ok h -> h = MkHead (sha256_hex (line_at rs env e)) (zlen rs + 1) /\ holds a d' segs (rs ++ [line_at rs env e])).
Proof.
  intros Hp He [Hh Hw] Hroom. unfold Append. rewrite Hp. destruct Hh as [(Hf & -> & ->)|(ino & id & act & frag & st & Hr & ->)].
  - destruct (openActive_fresh a t1 t2 Hf Hw) as [(x & d' & -> & Ho)|(c & -> & Hc)].
    + eexists _, _. split; [done|]. split; [|done]. left. apply (opened_holds a (at_disk (deciding a true t1 t2))); [by left|done].
    + destruct (append_repr c _ _ "" [] [] 0 env e (fresh_created a _ Hf) Hc (permit_shape _ Hp) He Hroom) as (r & c' & -> & Hx & Hok).
      eexists _, _. split; [done|]. split; [exact Hx|]. intros h Hh. destruct r as [[h' l]|]; simplify_eq. destruct (Hok _ _ eq_refl) as [-> Hr'].
      split; [done|]. exact (repr_holds a _ _ _ _ _ _ _ Hr').
  - destruct (openActive_repr a t1 t2 _ _ _ _ _ _ Hr Hw) as [(x & ->)|(c & -> & -> & -> & Hc)].
    + eexists _, _. split; [done|]. split; [|done]. left. by eapply repr_holds.
    + destruct (append_repr c _ ino id segs act (size_of (at_disk (deciding a true t1 t2)) ino StateOpen) env e Hr Hc (permit_shape _ Hp) He Hroom) as (r & c' & -> & Hx & Hok).
      eexists _, _. split; [done|]. split; [exact Hx|]. intros h Hh. destruct r as [[h' l]|]; simplify_eq. destruct (Hok _ _ eq_refl) as [-> Hr'].
      split; [done|]. rewrite <- app_assoc. by eapply repr_holds.
Qed.

(** A successful append, wherever the deciding attempt stood. *)
Lemma control_append_repr t1 t2 env e segs rs h d' : permit e = None -> event_ok env e -> attempt_on (deciding a true t1 t2) segs rs -> room rs env e ->
  Append a t1 t2 env e = (Ok h, d') ->
  exists ino id act, rs = concat segs ++ act /\ repr a d' ino id segs (act ++ [line_at rs env e]) "" (state_after e).
Proof.
  intros Hp He [Hh Hw] Hroom. unfold Append. rewrite Hp. destruct Hh as [(Hf & -> & ->)|(ino & id & act & frag & st & Hr & ->)].
  - destruct (openActive_fresh a t1 t2 Hf Hw) as [(x & d2 & -> & Ho)|(c & -> & Hc)]; [done|].
    destruct (append_repr c _ _ "" [] [] 0 env e (fresh_created a _ Hf) Hc (permit_shape _ Hp) He Hroom) as (r & c' & -> & _ & Hok).
    destruct r as [[h' l]|]; intros [= <- <-]. destruct (Hok _ _ eq_refl) as [_ Hr']. by eexists _, _, [].
  - destruct (openActive_repr a t1 t2 _ _ _ _ _ _ Hr Hw) as [(x & ->)|(c & -> & -> & -> & Hc)]; [done|].
    destruct (append_repr c _ ino id segs act (size_of (at_disk (deciding a true t1 t2)) ino StateOpen) env e Hr Hc (permit_shape _ Hp) He Hroom) as (r & c' & -> & _ & Hok).
    destruct r as [[h' l]|]; intros [= <- <-]. destruct (Hok _ _ eq_refl) as [_ Hr']. by eexists _, _, act.
Qed.

(** With nothing in the way, an append that is not a seal succeeds. *)
Lemma append_ok d ino id segs act env e : repr a d ino id segs act "" StateOpen ->
  let rs := concat segs ++ act in
  permit e = None -> ce_Seal e = None -> checkAnchorCoverage (ce_Anchor e) (zlen rs) = None -> event_ok env e -> room rs env e ->
  ae_write env = WriteOk -> is_Some (ae_random env) ->
  exists d', Append a (now d) (now d) env e = (Ok (MkHead (sha256_hex (line_at rs env e)) (zlen rs + 1)), d') /\
    repr a d' ino id segs (act ++ [line_at rs env e]) "" (state_after e) /\ dk_names d' = dk_names d /\ (forall j, j <> ino -> file_of d' j = file_of d j).
Proof.
  intros Hr rs Hp Hs Hcov He Hroom Hw [rnd Hrnd]. unfold Append. rewrite Hp. destruct (openActive_now a d ino id segs act Hr) as (c & -> & Hc).
  destruct (append_repr c d ino id segs act (size_of d ino StateOpen) env e Hr Hc (permit_shape _ Hp) He Hroom) as (r & c' & E & _ & Hok). rewrite E.
  assert (exists h l, r = Ok (h, l)) as (h & l & ->).
  { unfold appendOn in E. rewrite (ca_base _ _ _ Hc), (ca_count _ _ _ Hc), <- zlen_app in E. fold rs in E. rewrite Hcov in E.
    unfold checkSealPlacement in E. rewrite Hs, Hrnd in E. cbn [is_Some_b negb] in E. rewrite andb_false_r in E.
    rewrite (record_of_at c segs act env e Hc) in E. fold rs in E. fold (line_at rs env e) in E.
    destruct (ledger_append c segs act env e Hc Hroom) as (c1 & err & E1 & _ & Hm). fold rs in E1. rewrite E1 in E. rewrite Hw in Hm.
    destruct Hm as [-> _]. simplify_eq. eauto. }
  destruct (Hok _ _ eq_refl) as [-> Hr']. eexists. split; [done|]. split_and!; [exact Hr'|done|]. intros j Hj. unfold file_of. cbn. by rewrite lookup_insert_ne by done.
Qed.

Lemma append_done d ino id segs act env e h d' : repr a d ino id segs act "" StateOpen -> permit e = None -> event_ok env e -> room (concat segs ++ act) env e ->
  Append a (now d) (now d) env e = (Ok h, d') -> repr a d' ino id segs (act ++ [line_at (concat segs ++ act) env e]) "" (state_after e).
Proof.
  intros Hr Hp He Hroom. unfold Append. rewrite Hp. destruct (openActive_now a d ino id segs act Hr) as (c & -> & Hc).
  destruct (append_repr c d ino id segs act (size_of d ino StateOpen) env e Hr Hc (permit_shape _ Hp) He Hroom) as (r & c' & -> & _ & Hok).
  destruct r as [[h' l]|]; intros [= <- <-]. by destruct (Hok _ _ eq_refl).
Qed.

(** ** Repair *)
Lemma drop_str_app s t : drop_str (String.length s) (s +:+ t) = t.
Proof. induction s as [|c s IH]; [done|exact IH]. Qed.

Lemma no_seal_index o f pre act i : scan_seal o f pre act = NoSeal -> seal_index i act = None.
Proof.
  revert pre i. induction act as [|r act IH]; intros pre i; [done|]. cbn [scan_seal seal_index].
  destruct (decodeRecord r) as [rec|]; [|by apply IH]. destruct (is_seal rec); [|by apply IH]. by repeat case_match.
Qed.

Lemma torn_name_free unix d fuel k name : torn_name a unix d fuel k = Some name -> free_name a name /\ dk_names d !! name = None.
Proof.
  revert k. induction fuel as [|fuel IH]; intros k; [done|]. cbn [torn_name]. destruct (dk_names d !! torn_candidate a unix k) eqn:E; [by apply IH|].
  intros [= <-]. split; [|done]. right; right; right. by eexists.
Qed.

Lemma scan_prefix o f pre act more : scan_seal o f pre (act ++ more) = NoSeal -> scan_seal o f pre act = NoSeal.
Proof.
  revert pre. induction act as [|r act IH]; intros pre; [done|]. cbn [app scan_seal]. destruct (decodeRecord r) as [rec|]; [|apply IH].
  destruct (is_seal rec); [|apply IH]. by repeat case_match.
Qed.

(** The file up to the end of [act] ends with its last record. *)
Lemma ends_with_last act : match last act with Some r => negb (has_suffix (bytes_of act) (r +:+ String newline "")) | None => false end = false.
Proof. destruct act as [|x act _] using rev_ind; [done|]. by rewrite last_snoc, bytes_of_snoc, rev_str_app_has. Qed.

(** The environment in which nothing fails. *)
Definition move_ok (env : move_env) (d : disk) : Prop :=
  mv_swapped env = false /\ mv_lock env = Ok () /\ mv_partial env = None /\ mv_truncate env = true /\ mv_sync env = true /\
  is_Some (torn_name a (mv_unix env) d maxTornFragmentAttempts 0).

(** Moving a tail aside writes it to a free name and cuts the active there.
    The tail is whatever follows the records [act]: on the directory the tear
    was found on, the fragment. *)
Lemma move_ok_result d ino id segs act more frag env : repr a d ino id segs (act ++ more) frag StateOpen ->
  move_ok env d ->
  let tail := bytes_of more +:+ frag in
  exists name d', moveTailAside a d env (str_len (bytes_of act)) act = (Ok (MkRepairResult (str_len tail) (sha256_hex tail) 0), d') /\
    dk_names d !! name = None /\ repr a d' ino id segs act "" StateOpen /\ content d' name = Some tail.
Proof.
  intros Hr (E1 & E2 & E3 & E4 & E5 & [name E6]) tail. unfold moveTailAside. rewrite (rep_active Hr), (rep_file Hr), E1, E2, bytes_of_app, app_assoc_str.
  fold tail. rewrite str_len_app. rewrite (proj2 (Z.ltb_ge _ 0)), (proj2 (Z.ltb_ge _ (str_len (bytes_of act)))) by (unfold str_len; lia). cbn [orb].
  replace (Z.to_nat (str_len (bytes_of act))) with (String.length (bytes_of act)) by (unfold str_len; lia). rewrite take_str_app, drop_str_app.
  rewrite ends_with_last. unfold writeTornFragment. rewrite E6, E3, E4, E5. cbn [negb]. apply torn_name_free in E6 as [Hfree Hnone].
  pose proof (rep_next Hr _ _ (rep_active Hr)) as Hlt. exists name. eexists. split; [done|]. split_and!; [done| |].
  - pose proof (rep_chain Hr) as Hc. rewrite app_assoc in Hc. pose proof (rep_bytes Hr) as Hb. rewrite app_assoc, bytes_of_app, str_len_app in Hb.
    rewrite <- (app_nil_str (bytes_of act)). eapply repr_set_file; [by apply (repr_create a d _ _ _ _ _ _ name tail Hr)|done|done|by apply lchain_split in Hc as [? _]|done| |].
    + assert (0 <= str_len (bytes_of more)) by (unfold str_len; lia). lia.
    + exact (scan_prefix _ _ _ _ _ (rep_scan Hr)).
  - unfold content. cbn. rewrite lookup_insert_eq. cbn. f_equal. unfold file_of. cbn. rewrite lookup_insert_ne by lia. by rewrite lookup_insert_eq.
Qed.

(** Whatever fails, on a directory whose active still ends with the records the
    tear was found after, open or sealed. *)
Lemma move_cases d ino id segs act frag st env : repr a d ino id segs act frag st -> st <> StateRotatedNotSwapped ->
  exists r d', moveTailAside a d env (str_len (bytes_of act)) act = (r, d') /\
    ((exists e, r = Err e) /\ (exists frag', repr a d' ino id segs act frag' st) \/
     exists name, r = Ok (MkRepairResult (str_len frag) (sha256_hex frag) 0) /\ free_name a name /\ dk_names d !! name = None /\
       repr a d' ino id segs act "" st /\ content d' name = Some frag /\ dk_names d' !! name <> Some ino).
Proof.
  intros Hr Hst. assert (Hfile : file_of d ino = bytes_of act +:+ frag) by (pose proof (rep_file Hr) as Hf; by destruct st).
  unfold moveTailAside. rewrite (rep_active Hr), Hfile.
  destruct (mv_lock env); [|refused]. destruct (mv_swapped env); [refused|].
  rewrite str_len_app. rewrite (proj2 (Z.ltb_ge _ 0)), (proj2 (Z.ltb_ge _ (str_len (bytes_of act)))) by (unfold str_len; lia). cbn [orb].
  replace (Z.to_nat (str_len (bytes_of act))) with (String.length (bytes_of act)) by (unfold str_len; lia). rewrite take_str_app, drop_str_app.
  rewrite ends_with_last. unfold writeTornFragment. destruct (torn_name _ _ _ _ _) as [name|] eqn:Hn; [|refused].
  apply torn_name_free in Hn as [Hfree Hnone]. assert (Hcreate := fun s => repr_create a d ino id segs act frag st name s Hr Hfree).
  destruct (mv_partial env); [eexists _, _; split; [done|]; left; split; [by eexists|exists frag; apply Hcreate]|].
  destruct (mv_truncate env); cbn [negb]; [|eexists _, _; split; [done|]; left; split; [by eexists|exists frag; apply Hcreate]].
  assert (Hcut : repr a (set_file (create_file d name frag) ino (bytes_of act)) ino id segs act "" st).
  { rewrite <- (app_nil_str (bytes_of act)). eapply repr_set_file; [apply (Hcreate frag)|..]; try done; apply Hr. }
  destruct (mv_sync env); cbn [negb]; [|eexists _, _; split; [done|]; left; split; [by eexists|by exists ""]].
  eexists _, _. split; [done|]. right. exists name. pose proof (rep_next Hr _ _ (rep_active Hr)) as Hlt.
  split_and!; try done.
  - unfold content. cbn. rewrite lookup_insert_eq. cbn. f_equal. unfold file_of. cbn. rewrite lookup_insert_ne by lia. by rewrite lookup_insert_eq.
  - cbn. rewrite lookup_insert_eq. intros [= E]. lia.
Qed.

Lemma content_append d ino id segs act env e name frag : repr a d ino id segs act "" StateOpen -> content d name = Some frag -> dk_names d !! name <> Some ino ->
  content (Append a (now d) (now d) env e).2 name = Some frag.
Proof.
  intros Hr Hc Hne. unfold Append. destruct (permit e); [done|]. destruct (openActive_now a d ino id segs act Hr) as (c & -> & _).
  destruct (appendOn _ _ _ _) as [r c']. cbn. unfold content in *. cbn. destruct (dk_names d !! name) as [j|]; [|done]. cbn in *. rewrite <- Hc. f_equal.
  unfold file_of. cbn. by rewrite lookup_insert_ne by congruence.
Qed.

Lemma repair_permitted res by_ : permit (repair_event res by_) = None.
Proof. done. Qed.
Lemma repair_state res by_ : state_after (repair_event res by_) = StateOpen.
Proof. done. Qed.

(** What a repair says of the tail it moved. *)
Definition found (frag : string) : RepairResult := MkRepairResult (str_len frag) (sha256_hex frag) 0.
Definition quiet (env : repair_env) : Prop := rp_lock env = Ok () /\ forall i d, rp_gap env i d = d.

(** The phases of a repair of a torn active, with whatever others do between
    them. *)
Lemma Repair_phases d ino id segs act frag env by_ sink : repr a d ino id segs act frag StateOpen -> frag <> "" -> rp_lock env = Ok () ->
  Repair a d env by_ sink =
  match moveTailAside a (rp_gap env 0 d) (rp_move env) (str_len (bytes_of act)) act with
  | (Err e, d) => (Err e, d)
  | (Ok res, d) => let t := now (rp_gap env 2 d) in match Append a t t (rp_append env) (repair_event res by_) with (Err e, d) => (Err (ERepairAppend e), d) | (Ok _, d) => (Ok res, d) end
  end.
Proof.
  intros Hr Hf Hl. unfold Repair. rewrite Hl, (Read_repr a _ _ _ _ _ _ _ Hr). unfold verdict. rewrite bool_decide_false by done. cbn [set_error se_Segment se_Fault se_Err Z.eqb negb].
  rewrite (activeRecords_view a). unfold sealToComplete. rewrite (no_seal_index _ _ _ _ 0%nat (rep_scan Hr)).
  destruct (moveTailAside _ _ _ _ _) as [[res|e] d1]; [|done]. unfold record_repair, appendRepair. cbv zeta. by destruct (Append _ _ _ _ _) as [[h|e] d2].
Qed.

Lemma Repair_torn d ino id segs act frag env by_ sink : repr a d ino id segs act frag StateOpen -> frag <> "" -> quiet env ->
  Repair a d env by_ sink =
  match moveTailAside a d (rp_move env) (str_len (bytes_of act)) act with
  | (Err e, d) => (Err e, d)
  | (Ok res, d) => match appendRepair a (now d) (now d) (rp_append env) res by_ with (Some e, d) => (Err e, d) | (None, d) => (Ok res, d) end
  end.
Proof.
  intros Hr Hf [Hl Hq]. rewrite (Repair_phases d ino id segs act frag env by_ sink Hr Hf Hl), Hq. destruct (moveTailAside _ _ _ _ _) as [[res|e] d1]; [|done].
  rewrite Hq. unfold appendRepair. by destruct (Append _ _ _ _ _) as [[h|e] d2].
Qed.

Lemma repair_cases d ino id segs act frag env by_ sink :
  let rs := concat segs ++ act in let e := repair_event (found frag) by_ in
  repr a d ino id segs act frag StateOpen -> frag <> "" -> quiet env -> event_ok (rp_append env) e -> room rs (rp_append env) e ->
  exists r d', Repair a d env by_ sink = (r, d') /\ extends d' segs rs (line_at rs (rp_append env) e) /\
    (forall res, r = Ok res -> res = found frag /\ repr a d' ino id segs (act ++ [line_at rs (rp_append env) e]) "" StateOpen /\
       exists name, free_name a name /\ dk_names d !! name = None /\ content d' name = Some frag).
Proof.
  intros rs e Hr Hf Hq He Hroom. rewrite (Repair_torn d ino id segs act frag env by_ sink Hr Hf Hq).
  destruct (move_cases d ino id segs act frag StateOpen (rp_move env) Hr ltac:(done)) as (r & d1 & -> & [[[x ->] [frag' Hr1]]|(name & -> & Hfree & Hnone & Hr1 & Hcont & Hdiff)]).
  - eexists _, _. split; [done|]. split; [left; by eapply repr_holds|done].
  - fold (found frag). unfold appendRepair. fold e.
    pose proof (content_append d1 ino id segs act (rp_append env) e name frag Hr1 Hcont) as Hc2.
    destruct (openActive_now a d1 ino id segs act Hr1) as (c & Hopen & Hc).
    destruct (append_repr c d1 ino id segs act (size_of d1 ino StateOpen) (rp_append env) e Hr1 Hc (permit_shape _ (repair_permitted _ _)) He Hroom) as (r & c' & Ha & Hx & Hr2).
    assert (E : Append a (now d1) (now d1) (rp_append env) e = (match r with Ok (head, _) => Ok head | Err err => Err err end, set_file d1 ino (file c'))).
    { unfold Append. rewrite (repair_permitted (found frag) by_ : permit e = None), Hopen, Ha. done. }
    rewrite E in *. destruct r as [[h l]|x]; eexists _, _; (split; [done|]); (split; [exact Hx|]); [|done]. intros res [= <-]. split; [done|].
    destruct (Hr2 _ _ eq_refl) as [_ Hr3]. split; [exact Hr3|]. exists name. split_and!; [done|done|]. by apply Hc2.
Qed.

Lemma tainted_by rs env e : event_ok env e -> room rs env e -> ce_Action e = "repair" -> is_Some (IsTainted (rs ++ [line_at rs env e])).
Proof.
  intros He Hroom Ea. pose proof (line_decodes rs env e He Hroom) as Hd. set (line := line_at rs env e) in *. clearbody line.
  assert (Ha : r_Action (san_record (record_at rs env e)) = "repair") by (cbn; rewrite to_valid_id by apply He; done).
  set (rec := san_record _) in *. clearbody rec. clear -Hd Ha. induction rs as [|r rs IH]; cbn [app IsTainted].
  - rewrite Hd, Ha, bool_decide_true by done. by eexists.
  - destruct (decodeRecord r) as [x|]; [|done]. case_bool_decide; [by eexists|done].
Qed.
End control.
