(* ===== verification/ControlHistory.v ===== *)
(** * The control ledger over time

    What the operations promise a reader, singly and in any interleaving: an
    append adds its record or nothing, a seal that stops anywhere can be
    finished, a torn tail can be moved aside, and over every history of
    operations, each deciding under the lock on walks that may be stale, what
    a reader was shown is a prefix of what any later reader is shown. *)
From S2P Require Import Prelude Sha256 GoStr Json Paths Ledger Config Origin Event ControlRecord Manifest Segments SegmentSet SegmentOps ControlLedger.

(** What a reader is shown, fault or not. *)
Definition shown (a : string) (d : disk) : list string := v_Records (Read a (Ok ()) d).1.

Lemma holds_shown a d segs rs : holds a d segs rs -> shown a d = rs.
Proof.
  unfold shown. intros [(Hf & -> & ->)|(ino & id & act & frag & st & Hr & ->)].
  - unfold Read. by rewrite (fr_active _ _ Hf), (fresh_no_history a d Hf).
  - rewrite (Read_repr a _ _ _ _ _ _ _ Hr). unfold verdict. by case_bool_decide.
Qed.

Lemma repr_shown a d ino id segs act frag st : repr a d ino id segs act frag st -> shown a d = concat segs ++ act.
Proof. intros Hr. by eapply holds_shown, repr_holds. Qed.

(** The set reads without fault, in state [st]. *)
Lemma repr_clean a d ino id segs act st : repr a d ino id segs act "" st ->
  Read a (Ok ()) d = (view_of a id segs act st (size_of d ino st), None).
Proof. intros Hr. rewrite (Read_repr a _ _ _ _ _ _ _ Hr). unfold verdict. by rewrite bool_decide_true. Qed.

(** A directory holds one set. *)
Lemma cut_unique {A} (segs segs' : list (list A)) act act' : map zlen segs = map zlen segs' -> concat segs ++ act = concat segs' ++ act' -> segs = segs' /\ act = act'.
Proof.
  revert segs'. induction segs as [|seg segs IH]; intros [|seg' segs'] Hl Hc; try done. cbn in Hl, Hc. injection Hl as Hl1 Hl2. rewrite <- !app_assoc in Hc.
  apply app_inj_1 in Hc as [-> Hc]; [|unfold zlen in Hl1; lia]. by destruct (IH segs' Hl2 Hc) as [-> ->].
Qed.

Lemma segments_records a rs k segs : map sg_Records (segments_of a rs k segs) = map zlen segs.
Proof. revert rs k. induction segs as [|seg segs IH]; intros; cbn; [done|]. by rewrite IH. Qed.

Lemma repr_unique a d ino id segs act frag st ino' id' segs' act' frag' st' :
  repr a d ino id segs act frag st -> repr a d ino' id' segs' act' frag' st' -> segs = segs' /\ act = act'.
Proof.
  intros Hr Hr'. pose proof (Read_repr a _ _ _ _ _ _ _ Hr) as E. rewrite (Read_repr a _ _ _ _ _ _ _ Hr') in E.
  assert (Hv : forall d ino id segs act frag st, v_Sealed (verdict a d ino id segs act frag st).1 = segments_of a [] 1 segs /\
            v_Records (verdict a d ino id segs act frag st).1 = concat segs ++ act) by (intros; unfold verdict; by case_bool_decide).
  destruct (Hv d ino id segs act frag st) as [H1 H2], (Hv d ino' id' segs' act' frag' st') as [H1' H2']. rewrite E in *.
  apply cut_unique; [|congruence]. rewrite <- !(segments_records a [] 1). congruence.
Qed.

Lemma holds_repr a d segs rs ino id segs' act frag st : holds a d segs rs -> repr a d ino id segs' act frag st -> segs = segs' /\ rs = concat segs' ++ act.
Proof.
  intros [(Hf & _)|(ino' & id' & act' & frag' & st' & Hr' & ->)] Hr; [pose proof (rep_active Hr) as Hn; by rewrite (fr_active _ _ Hf) in Hn|].
  by destruct (repr_unique _ _ _ _ _ _ _ _ _ _ _ _ _ _ Hr Hr') as [-> ->].
Qed.

Section history.
  Context `{GoText} `{GoURL} (a : string).

(** ** Any interleaving

    [h] is the directory's past, newest first.  An operation decides under the
    lock, on the newest directory; the walk it decides with may have been made
    on any directory of the past.

    A repair is its locked phases, each a step, with others acting in between:
    the move of the tail that was found on a directory [d0] of the past, the
    completion of a seal it may follow, and the append of the repair record
    ([CAppend]).  The one thing asked of it is that the active has the same
    records when the tail is moved as when it was found: without that, records
    can be lost ([concurrent_repair_drops_records]). *)
Inductive cstep (h : list disk) (d : disk) : disk -> Prop :=
  | CAppend t1 t2 env e :
      at_disk (deciding a true t1 t2) = d -> at_walk (deciding a true t1 t2) ∈ d :: h ->
      permit e = None -> event_ok env e -> room (shown a d) env e ->
      cstep h d (Append a t1 t2 env e).2
  | CSeal t1 t2 env e sink ino id segs act frag st :
      at_disk (deciding a true t1 t2) = d -> at_walk (deciding a true t1 t2) ∈ d :: h ->
      ce_Action e = "seal" -> ce_Outcome e = "success" -> ce_Seal e = None ->
      repr a d ino id segs act frag st -> zlen segs + 1 < 999999 -> seal_input_ok env sink e segs act ->
      cstep h d (SealActive a t1 t2 env e sink).2
  | CComplete t1 t2 env sink pre ino id segs act frag st :
      at_disk (deciding a false t1 t2) = d -> at_walk (deciding a false t1 t2) ∈ d :: h ->
      repr a d ino id segs act frag st -> zlen segs + 1 < 999999 ->
      cstep h d (completeSealWith a t1 t2 env sink pre).2
  | CMove d0 env ino0 ino id segs act frag0 frag st :
      d0 ∈ d :: h -> repr a d0 ino0 id segs act frag0 st -> repr a d ino id segs act frag st -> st <> StateRotatedNotSwapped ->
      cstep h d (moveTailAside a d env (str_len (bytes_of act)) act).2.

Inductive history : list disk -> disk -> Prop :=
  | HFresh d : fresh a d -> history [] d
  | HStep h d d' : history h d -> cstep h d d' -> history (d :: h) d'.

(** Everything in the past held a prefix of what is held now. *)
Definition grown (h : list disk) (segs : list (list string)) (rs : list string) : Prop :=
  forall d, d ∈ h -> exists segs0 rs0, holds a d segs0 rs0 /\ segs0 `prefix_of` segs /\ rs0 `prefix_of` rs.

Lemma grown_walks h d segs rs t : holds a d segs rs -> grown h segs rs -> at_walk t ∈ d :: h -> walks a t segs.
Proof.
  unfold walks. intros Hh Hg [->|Hin]%elem_of_cons; [exists segs; split; [by exists rs|done]|].
  destruct (Hg _ Hin) as (segs0 & rs0 & Hh0 & Hp & _). exists segs0. split; [by exists rs0|done].
Qed.

(** The set after an operation continues the set before it. *)
Definition continued (d' : disk) (segs : list (list string)) (rs : list string) : Prop :=
  exists segs' rs', holds a d' segs' rs' /\ segs `prefix_of` segs' /\ rs `prefix_of` rs'.

Lemma extends_continued d' segs rs line : extends a d' segs rs line -> continued d' segs rs.
Proof. intros [Hh|Hh]; [exists segs, rs; by split_and!|]. exists segs, (rs ++ [line]). split_and!; [done|done|by exists [line]]. Qed.

Lemma repr_continued d' ino id segs act frag st : repr a d' ino id segs act frag st -> continued d' segs (concat segs ++ act).
Proof. intros Hr. exists segs, (concat segs ++ act). split_and!; [by eapply repr_holds|done|done]. Qed.

Lemma rotated_continued d' ino id segs act st more : repr a d' ino id (segs ++ [act ++ more]) [] "" st -> continued d' segs (concat segs ++ act).
Proof.
  intros Hr. exists (segs ++ [act ++ more]), (concat segs ++ act ++ more). split_and!; [|by eexists|rewrite app_assoc; by eexists].
  apply repr_holds in Hr. by rewrite concat_snoc, app_nil_r in Hr.
Qed.

Lemma sealed_continued d' ino id segs act line ok : seal_outcome a d' ino id segs act line ok -> continued d' segs (concat segs ++ act).
Proof.
  unfold seal_outcome, rotation. destruct ok.
  - intros (ino' & id' & Hr). by eapply rotated_continued.
  - intros [[frag Hr]|[Hr|[id' Hr]]]; [by eapply repr_continued| |by eapply rotated_continued].
    exists segs, (concat segs ++ act ++ [line]). split_and!; [by eapply repr_holds|done|rewrite app_assoc; by eexists].
Qed.

Lemma rotate_continued d ino id segs act st size sink pre env : valid_utf8 a = true -> zlen segs + 1 < 999999 -> st <> StateOpen ->
  repr a d ino id segs act "" st -> continued (rotate a d ino (view_of a id segs act st size) sink pre env).2 segs (concat segs ++ act).
Proof.
  intros Ha Hn Hst Hr. destruct st; [done| |].
  - destruct (rotate_sealed a d ino id segs act StateSealedNotRotated size sink pre env Ha Hn ltac:(done) Hr) as (r & d' & -> & Ho & _).
    cbn. unfold rotation in Ho. destruct (is_ok r); [destruct Ho as (? & ? & Hr')|destruct Ho as [Hr'|[? Hr']]]; [|by eapply repr_continued|];
      rewrite <- (app_nil_r act) in Hr'; by eapply rotated_continued.
  - destruct (rep_scan Hr) as [-> _]. destruct (rotate_rotated a d ino id segs size sink pre env Hr) as (r & d' & -> & [[_ Hr']|(_ & _ & Hr')]); by eapply repr_continued.
Qed.

Lemma complete_continued t1 t2 env sink pre ino id segs act frag st : valid_utf8 a = true -> zlen segs + 1 < 999999 ->
  repr a (at_disk (deciding a false t1 t2)) ino id segs act frag st -> walks a (deciding a false t1 t2) segs ->
  continued (completeSealWith a t1 t2 env sink pre).2 segs (concat segs ++ act).
Proof.
  intros Ha Hn Hr Hw. unfold completeSealWith. destruct (lockActive_repr a false _ _ _ _ _ _ _ _ Hr Hw) as [(v & e & ->)|[-> ->]]; [by eapply repr_continued|].
  cbn [view_of v_State]. case_bool_decide as Hst; [by eapply repr_continued|]. apply repr_sweep in Hr.
  pose proof (rotate_continued _ _ _ _ _ _ (size_of (at_disk (deciding a false t1 t2)) ino st) sink pre env Ha Hn Hst Hr) as Hc.
  destruct (rotate _ _ _ _ _ _ _) as [[]]; exact Hc.
Qed.

Lemma move_continued d ino id segs act frag st env : repr a d ino id segs act frag st -> st <> StateRotatedNotSwapped ->
  continued (moveTailAside a d env (str_len (bytes_of act)) act).2 segs (concat segs ++ act).
Proof.
  intros Hr Hst. destruct (move_cases a d ino id segs act frag st env Hr Hst) as (r & d' & -> & [[_ [frag' Hr']]|(name & _ & _ & _ & Hr' & _)]); by eapply repr_continued.
Qed.

Lemma step_continued h d d' segs rs : valid_utf8 a = true -> holds a d segs rs -> grown h segs rs -> cstep h d d' -> continued d' segs rs.
Proof.
  intros Ha Hh Hg Hs. destruct Hs as [t1 t2 env e Hd Hw Hp He Hroom|t1 t2 env e sink ino id segs' act frag st Hd Hw E1 E2 E3 Hr Hn Hin
    |t1 t2 env sink pre ino id segs' act frag st Hd Hw Hr Hn|d0 env ino0 ino id segs' act frag0 frag st _ _ Hr Hst].
  - rewrite (holds_shown a d segs rs Hh) in Hroom. apply (grown_walks _ _ _ _ _ Hh Hg) in Hw. subst d.
    destruct (control_append_cases a t1 t2 env e segs rs Hp He (conj Hh Hw) Hroom) as (r & d' & -> & Hx & _). by eapply extends_continued.
  - destruct (holds_repr _ _ _ _ _ _ _ _ _ _ Hh Hr) as [-> ->]. apply (grown_walks _ _ _ _ _ Hh Hg) in Hw. subst d.
    destruct (seal_cases a t1 t2 env e sink ino id segs' act frag st Ha Hn E1 E2 E3 Hr Hw Hin) as (r & d' & -> & [[_ Hr']|(logID & _ & Ho)]);
      [by eapply repr_continued|by eapply sealed_continued].
  - destruct (holds_repr _ _ _ _ _ _ _ _ _ _ Hh Hr) as [-> ->]. apply (grown_walks _ _ _ _ _ Hh Hg) in Hw. subst d. by eapply complete_continued.
  - destruct (holds_repr _ _ _ _ _ _ _ _ _ _ Hh Hr) as [-> ->]. by eapply move_continued.
Qed.

Lemma history_holds h d : valid_utf8 a = true -> history h d -> exists segs rs, holds a d segs rs /\ grown h segs rs.
Proof.
  intros Ha. induction 1 as [d Hf|h d d' Hh (segs & rs & Hd & Hg) Hs].
  - exists [], []. split; [by left|]. intros d0 Hd0. by apply elem_of_nil in Hd0.
  - destruct (step_continued _ _ _ _ _ Ha Hd Hg Hs) as (segs' & rs' & Hd' & Hsegs & Hrs). exists segs', rs'. split; [done|].
    intros d0 [->|Hin]%elem_of_cons; [by exists segs, rs|]. destruct (Hg _ Hin) as (segs0 & rs0 & Hd0 & Hs0 & Hr0).
    exists segs0, rs0. split_and!; [done|by etrans|by etrans].
Qed.

(** A whole repair of a torn ledger is steps of a history: the tail is moved and
    the record appended, with steps of others before each, provided none of them
    gave the active a record before the move. *)
Lemma repair_is_steps h d ino id segs act frag env by_ sink h1 h2 :
  repr a d ino id segs act frag StateOpen -> frag <> "" -> rp_lock env = Ok () ->
  let moved := moveTailAside a (rp_gap env 0 d) (rp_move env) (str_len (bytes_of act)) act in
  history (h1 ++ d :: h) (rp_gap env 0 d) -> (exists ino' frag', repr a (rp_gap env 0 d) ino' id segs act frag' StateOpen) ->
  (forall res, moved.1 = Ok res -> history (h2 ++ moved.2 :: rp_gap env 0 d :: h1 ++ d :: h) (rp_gap env 2 moved.2) /\
     event_ok (rp_append env) (repair_event res by_) /\ room (shown a (rp_gap env 2 moved.2)) (rp_append env) (repair_event res by_)) ->
  exists h', history (h' ++ d :: h) (Repair a d env by_ sink).2.
Proof.
  intros Hr Hf Hl moved Hgap (ino' & frag' & Hr') Hnext. rewrite (Repair_phases a d ino id segs act frag env by_ sink Hr Hf Hl). fold moved.
  assert (Hm : history (rp_gap env 0 d :: h1 ++ d :: h) moved.2).
  { apply HStep; [done|]. eapply CMove; [|exact Hr|exact Hr'|done]. right. apply elem_of_app. right. by left. }
  destruct moved as [[res|e] d1]; [|by exists (rp_gap env 0 d :: h1)]. destruct (Hnext res eq_refl) as (H2 & He & Hroom). cbn [snd] in *. cbv zeta.
  set (t := now (rp_gap env 2 d1)). assert (Et : deciding a true t t = t) by (unfold deciding; by destruct (lock_attempt _ _ _)).
  exists (rp_gap env 2 d1 :: h2 ++ d1 :: rp_gap env 0 d :: h1).
  replace (match Append a t t _ _ with (Ok _, d) => (Ok res, d) | (Err e, d) => (Err (ERepairAppend e), d) end).2 with (Append a t t (rp_append env) (repair_event res by_)).2
    by (by destruct (Append _ _ _ _ _) as [[x|e] d2]).
  cbn [app]. rewrite <- app_assoc. cbn [app]. apply HStep; [exact H2|]. apply CAppend; rewrite ?Et; [done|by left|done|done|done].
Qed.

(** C5: the control ledger is append-only.  Over any history of appends, seals,
    completions and repairs that starts from an empty directory, where every
    operation decides under the lock on a walk of the sealed segments made on
    any earlier directory, where others act between the phases of a repair, and
    where any write, sync, link, rename or lock may fail at any step, the records
    a reader of an earlier directory was shown are a prefix of the records a
    reader of the latest is shown.  The one restriction is on a repair: no record
    has been added to the active between its read of the tear and the lock under
    which it moves the tail, which the code does not ensure (see
    [concurrent_repair_drops_records]). *)
Theorem control_ledger_append_only (h : list disk) (d d' : disk) (Ha : valid_utf8 a = true) (Hh : history h d') (Hd : d ∈ h) :
  shown a d `prefix_of` shown a d'.
Proof.
  destruct (history_holds h d' Ha Hh) as (segs & rs & Hd' & Hg). destruct (Hg d Hd) as (segs0 & rs0 & Hd0 & _ & Hp).
  by rewrite (holds_shown _ _ _ _ Hd0), (holds_shown _ _ _ _ Hd').
Qed.

(** An append adds its record or nothing.  Whatever the deciding attempt's
    walk saw of the past and whatever fails, a reader afterwards is shown the
    records from before, or those and the one line the event becomes; when the
    append reports success it is the latter, with the head it reports. *)
Theorem control_append_records (t1 t2 : attempt) (env : append_env) (e : CEvent) (segs : list (list string)) (rs : list string)
    (Hp : permit e = None) (He : event_ok env e) (Ht : attempt_on a (deciding a true t1 t2) segs rs) (Hr : room rs env e) :
  exists r d', Append a t1 t2 env e = (r, d') /\
    (shown a d' = rs \/ shown a d' = rs ++ [line_at rs env e]) /\
    (forall head, r = Ok head -> head = MkHead (sha256_hex (line_at rs env e)) (zlen rs + 1) /\ shown a d' = rs ++ [line_at rs env e]) /\
    decodeRecord (line_at rs env e) = Some (san_record (record_at rs env e)).
Proof.
  destruct (control_append_cases a t1 t2 env e segs rs Hp He Ht Hr) as (r & d' & E & Hx & Hok). exists r, d'. split; [done|]. split_and!.
  - destruct Hx as [Hx|Hx]; apply holds_shown in Hx; auto.
  - intros head Eh. destruct (Hok head Eh) as [-> Hd]. split; [done|]. by eapply holds_shown.
  - by apply line_decodes.
Qed.

(** C6: a seal is crash safe.  Wherever a seal stops (refused, the link, the
    record cut short, the protected copy, the manifest, the swap), a reader is
    shown the records from before, or those and the one line the caller's event
    becomes as this set's seal: a record that decodes to that event with the
    ordinal, the bounds, the head and the content digest of what it closes, and
    the sink's locator for the ledger's own identity.  When the seal reports
    success it is the latter, and the set reads without fault, is open, has one
    more sealed segment, which holds the active's records and the seal, and an
    empty active. *)
Theorem seal_is_crash_safe (t1 t2 : attempt) (env : seal_env) (e : CEvent) (sink : option SinkWriter)
    (ino : nat) (id : string) (segs : list (list string)) (act : list string) (frag : string) (st : State)
    (Ha : valid_utf8 a = true) (Hn : zlen segs + 1 < 999999)
    (He : ce_Action e = "seal" /\ ce_Outcome e = "success" /\ ce_Seal e = None)
    (Hr : repr a (at_disk (deciding a true t1 t2)) ino id segs act frag st) (Hw : walks a (deciding a true t1 t2) segs)
    (Hin : seal_input_ok env sink e segs act) :
  let rs := concat segs ++ act in
  exists r d' logID, let e' := sealing segs act (locate sink logID (zlen segs + 1) (sv_now env)) e in let line := line_at rs (sv_append env) e' in
    SealActive a t1 t2 env e sink = (r, d') /\
    (shown a d' = rs \/ shown a d' = rs ++ [line] /\ GenesisLogID rs = Some logID /\ decodeRecord line = Some (san_record (record_at rs (sv_append env) e'))) /\
    (is_ok r = true -> shown a d' = rs ++ [line] /\ exists v, Read a (Ok ()) d' = (v, None) /\ v_State v = StateOpen /\
       v_Sealed v = segments_of a [] 1 (segs ++ [act ++ [line]]) /\ activeRecords v = []).
Proof.
  intros rs. destruct He as (E1 & E2 & E3).
  destruct (seal_cases a t1 t2 env e sink ino id segs act frag st Ha Hn E1 E2 E3 Hr Hw Hin) as (r & d' & E & [[Hok Hr']|(logID & Hg & Ho)]).
  - exists r, d', "". split; [done|]. split; [left; by eapply repr_shown|]. by rewrite Hok.
  - destruct (Hin logID Hg) as [He' Hroom]. exists r, d', logID. cbv zeta. set (line := line_at _ _ _) in *. split; [done|].
    assert (Hd : decodeRecord line = Some (san_record (record_at rs (sv_append env) (sealing segs act (locate sink logID (zlen segs + 1) (sv_now env)) e)))) by (by apply line_decodes).
    unfold seal_outcome, rotation in Ho. destruct (is_ok r).
    + destruct Ho as (ino' & id' & Hr'). pose proof (repr_shown _ _ _ _ _ _ _ _ Hr') as Hs. rewrite concat_snoc, app_nil_r, app_assoc in Hs.
      split; [by right|]. intros _. split; [done|]. eexists. split; [exact (repr_clean _ _ _ _ _ _ _ Hr')|]. split_and!; [done|done|by apply activeRecords_view].
    + split; [|done]. destruct Ho as [[frag' Hr']|[Hr'|[id' Hr']]]; apply repr_shown in Hr'; rewrite Hr'.
      * by left.
      * right. unfold rs. by rewrite app_assoc.
      * right. unfold rs. by rewrite concat_snoc, app_nil_r, app_assoc.
Qed.

(** An interrupted seal can always be finished.  From either state a seal
    can leave behind, completing it succeeds once the disk and the sink answer,
    and then the set reads without fault, is open and its active empty, with
    every record the interrupted set showed, and no other. *)
Theorem interrupted_seal_completes (d : disk) (env : rotate_env) (sink : option SinkWriter)
    (ino : nat) (id : string) (segs : list (list string)) (act : list string) (st : State) (logID : string)
    (Ha : valid_utf8 a = true) (Hn : zlen segs + 1 < 999999) (Hst : st <> StateOpen)
    (Hr : repr a d ino id segs act "" st) (Hok : all_ok env) (Hg : GenesisLogID (concat segs ++ act) = Some logID)
    (Hc : st = StateSealedNotRotated -> confirms sink None logID segs act) :
  exists res d' v, CompleteSeal a (now d) (now d) env sink = (Ok res, d') /\ sr_Completed res = true /\
    Read a (Ok ()) d' = (v, None) /\ v_State v = StateOpen /\ shown a d' = concat segs ++ act /\ activeRecords v = [].
Proof.
  assert (Hlock : lockActive a false (now d) (now d) = Held ino (start_of (concat segs)) (view_of a id segs act st (size_of d ino st)) d).
  { unfold lockActive. rewrite (lock_attempt_now a false _ _ _ _ _ _ _ Hr). unfold answer, verdict. by rewrite bool_decide_true. }
  unfold CompleteSeal, completeSealWith. rewrite Hlock. cbn [view_of v_State]. rewrite bool_decide_false by done. apply repr_sweep in Hr.
  destruct (rotate_same a _ ino id segs act st (size_of d ino st) sink None env Ha Hn Hst Hr) as (r & d' & E & Hs).
  pose proof (rotate_ok a _ ino id segs act st (size_of d ino st) sink None env logID Ha Hn Hst Hr Hok Hg Hc) as Hgo. rewrite E in *. cbn in Hgo.
  destruct r as [res|]; [|done]. destruct Hs as (ino' & id' & segs' & act' & frag' & st' & Hr' & Hrs & (-> & -> & ->)); [done|].
  eexists _, d', _. split; [done|]. split; [done|]. split; [exact (repr_clean _ _ _ _ _ _ _ Hr')|]. split_and!; [done|by rewrite (repr_shown _ _ _ _ _ _ _ _ Hr')|by apply activeRecords_view].
Qed.

(** C8: a repair recovers a torn ledger without losing a byte.  On an open set
    whose active ends in an unterminated line, with no other writer in between
    and system calls that succeed, the damaged tail is kept whole in a file of its own
    under a name that was free, its length and digest are in the repair record
    that follows the last intact record, the set reads without fault and is
    marked tainted for good. *)
Theorem repair_recovers (d : disk) (env : repair_env) (by_ : author) (sink : option SinkWriter)
    (ino : nat) (id : string) (segs : list (list string)) (act : list string) (frag : string)
    (Hr : repr a d ino id segs act frag StateOpen) (Hf : frag <> "") (Hq : quiet env) (Hm : move_ok a (rp_move env) d)
    (Hw : ae_write (rp_append env) = WriteOk /\ is_Some (ae_random (rp_append env)))
    (He : event_ok (rp_append env) (repair_event (found frag) by_)) (Hroom : room (concat segs ++ act) (rp_append env) (repair_event (found frag) by_)) :
  let rs := concat segs ++ act in let line := line_at rs (rp_append env) (repair_event (found frag) by_) in
  exists d' v name, Repair a d env by_ sink = (Ok (MkRepairResult (str_len frag) (sha256_hex frag) 0), d') /\
    Read a (Ok ()) d' = (v, None) /\ v_State v = StateOpen /\ shown a d' = rs ++ [line] /\ is_Some (IsTainted (shown a d')) /\
    dk_names d !! name = None /\ content d' name = Some frag.
Proof.
  intros rs line. destruct Hw as [Hwr Hrnd].
  destruct (repair_cases a d ino id segs act frag env by_ sink Hr Hf Hq He Hroom) as (r & d' & E & _ & Hok).
  assert (exists res, r = Ok res) as [res ->].
  { rewrite (Repair_torn a d ino id segs act frag env by_ sink Hr Hf Hq) in E. rewrite <- (app_nil_r act) in Hr.
    destruct (move_ok_result a d ino id segs act [] frag (rp_move env) Hr Hm) as (name & d1 & E1 & _ & Hr1 & _). rewrite E1 in E.
    unfold appendRepair in E. change (bytes_of [] +:+ frag) with frag in E. fold (found frag) in E.
    destruct (append_ok a d1 ino id segs act (rp_append env) (repair_event (found frag) by_) Hr1) as (d2 & E2 & _); [done..|]. rewrite E2 in E. simplify_eq. by eexists. }
  destruct (Hok res eq_refl) as (-> & Hr' & name & _ & Hnone & Hcont). eexists d', _, name. split; [exact E|].
  split; [exact (repr_clean _ _ _ _ _ _ _ Hr')|]. rewrite (repr_shown _ _ _ _ _ _ _ _ Hr'), app_assoc. split_and!; [done|done| |done|done].
  by apply tainted_by.
Qed.

(** C9: two repairs at once can drop acknowledged records.  [Repair] reads the
    tear before it takes the lock that moves the tail, and under the lock it
    checks only that the bytes before the offset still end with the last intact
    record.  When another process has repaired and appended in between, that
    holds: the records appended since are moved aside as if they were the torn
    tail, the chain no longer shows them, and it still reads without fault. *)
Theorem concurrent_repair_drops_records (d dg : disk) (env : repair_env) (by_ : author) (sink : option SinkWriter)
    (ino : nat) (id : string) (segs : list (list string)) (act more : list string) (frag : string)
    (Hr : repr a d ino id segs act frag StateOpen) (Hf : frag <> "") (Hl : rp_lock env = Ok ())
    (Hg0 : rp_gap env 0 d = dg) (Hg2 : forall d, rp_gap env 2 d = d) (Hrg : repr a dg ino id segs (act ++ more) "" StateOpen) (Hm : move_ok a (rp_move env) dg)
    (Hw : ae_write (rp_append env) = WriteOk /\ is_Some (ae_random (rp_append env)))
    (He : event_ok (rp_append env) (repair_event (found (bytes_of more)) by_))
    (Hroom : room (concat segs ++ act) (rp_append env) (repair_event (found (bytes_of more)) by_)) :
  let rs := concat segs ++ act in let line := line_at rs (rp_append env) (repair_event (found (bytes_of more)) by_) in
  exists d' v, Repair a d env by_ sink = (Ok (found (bytes_of more)), d') /\
    shown a dg = rs ++ more /\ Read a (Ok ()) d' = (v, None) /\ v_Records v = rs ++ [line].
Proof.
  intros rs line. destruct Hw as [Hwr Hrnd]. destruct (move_ok_result a dg ino id segs act more "" (rp_move env) Hrg Hm) as (name & d1 & E1 & _ & Hr1 & _).
  rewrite app_nil_str in E1. fold (found (bytes_of more)) in E1.
  destruct (append_ok a d1 ino id segs act (rp_append env) (repair_event (found (bytes_of more)) by_) Hr1) as (d2 & E2 & Hr2 & _); [done..|].
  unfold Repair. rewrite Hl, (Read_repr a _ _ _ _ _ _ _ Hr). unfold verdict. rewrite bool_decide_false by done. cbn [set_error se_Segment se_Fault se_Err Z.eqb negb].
  rewrite (activeRecords_view a). unfold sealToComplete. rewrite (no_seal_index _ _ _ _ 0%nat (rep_scan Hr)). rewrite Hg0, E1. unfold record_repair. rewrite Hg2.
  unfold appendRepair. rewrite E2. eexists d2, _. split; [done|]. split; [rewrite (repr_shown _ _ _ _ _ _ _ _ Hrg); by rewrite app_assoc|].
  split; [exact (repr_clean _ _ _ _ _ _ _ Hr2)|]. cbn. by rewrite app_assoc.
Qed.
End history.

(** ** A concrete ledger, used by the witnesses *)
Definition ex_text : GoText := {| is_print := fun z => 32 <=? z; quote := fun s => s |}.
Definition ex_url : GoURL := {| parse_url := fun _ => None |}.
#[local] Existing Instance ex_text.
#[local] Existing Instance ex_url.

Definition ex_name : string := "control.jsonl".
Definition ex_empty : disk := MkDisk ∅ ∅ 0.
Definition ex_aenv : append_env := MkAppendEnv "2026-01-02T03:04:05Z" (Some "0123456789abcdef") WriteOk.
Definition ex_apply : CEvent := { zeroCEvent with ce_Action := "apply"; ce_Outcome := "success"; ce_ConfigHash := "c" }.
Definition ex_seal : CEvent := { zeroCEvent with ce_Action := "seal"; ce_Outcome := "success" }.

Ltac event_ok_tac := split; vm_compute; first [reflexivity | exact I | split; reflexivity | split; discriminate | idtac].

Lemma ex_fresh : fresh ex_name ex_empty.
Proof. split; try done. intros name [j Hj]. done. Qed.

Lemma ex_apply_ok : event_ok ex_aenv ex_apply.
Proof. event_ok_tac. Qed.

Definition ex_created : disk := create_file ex_empty ex_name "".
Definition ex_one : disk := (Append ex_name (now ex_created) (now ex_created) ex_aenv ex_apply).2.
Definition ex_line : string := line_at [] ex_aenv ex_apply.

Lemma ex_room : room [] ex_aenv ex_apply.
Proof. vm_compute. reflexivity. Qed.

Lemma ex_one_repr : repr ex_name ex_one 0 "" [] [ex_line] "" StateOpen.
Proof.
  apply (append_done ex_name ex_created 0 "" [] [] ex_aenv ex_apply (MkHead (sha256_hex ex_line) 1) ex_one (fresh_created _ _ ex_fresh) ltac:(reflexivity) ex_apply_ok ex_room).
  vm_compute. reflexivity.
Qed.

Lemma deciding_now a create d : deciding a create (now d) (now d) = now d.
Proof. unfold deciding. by destruct (lock_attempt _ _ _). Qed.

Lemma walks_now a d ino id segs act frag st : repr a d ino id segs act frag st -> walks a (now d) segs.
Proof. intros Hr. exists segs. split; [eexists; by eapply repr_holds|done]. Qed.

Lemma control_append_records_witness :
  exists r d', Append ex_name (now ex_empty) (now ex_empty) ex_aenv ex_apply = (r, d') /\
    (shown ex_name d' = [] \/ shown ex_name d' = [] ++ [ex_line]) /\
    (forall head, r = Ok head -> head = MkHead (sha256_hex ex_line) 1 /\ shown ex_name d' = [] ++ [ex_line]) /\
    decodeRecord ex_line = Some (san_record (record_at [] ex_aenv ex_apply)).
Proof.
  refine (control_append_records ex_name (now ex_empty) (now ex_empty) ex_aenv ex_apply [] [] ltac:(reflexivity) ex_apply_ok _ ex_room).
  rewrite deciding_now. split; [left; split; [exact ex_fresh|done]|]. exists []. split; [|done]. exists []. left. split; [exact ex_fresh|done].
Defined.

Definition ex_senv : seal_env := MkSealEnv "2026-01-02T03:04:06Z" ex_aenv LinkOk (MkRotateEnv LinkOk RepOk RepOk).

Lemma ex_sealing_ok : seal_input_ok ex_senv None ex_seal [] [ex_line].
Proof. intros logID _ e'. split; [|vm_compute; reflexivity]. split; vm_compute; first [reflexivity | exact I | split; reflexivity | split; discriminate | idtac]. all: repeat split; discriminate. Qed.

Definition ex_closed : result control_error SealResult * disk := SealActive ex_name (now ex_one) (now ex_one) ex_senv ex_seal None.
Lemma seal_is_crash_safe_witness :
  exists v line, shown ex_name ex_closed.2 = [ex_line; line] /\ r_Action <$> decodeRecord line = Some "seal" /\
    Read ex_name (Ok ()) ex_closed.2 = (v, None) /\ v_State v = StateOpen /\ v_Sealed v = segments_of ex_name [] 1 [[ex_line; line]].
Proof.
  destruct (seal_is_crash_safe ex_name (now ex_one) (now ex_one) ex_senv ex_seal None 0 "" [] [ex_line] "" StateOpen ltac:(reflexivity) ltac:(reflexivity)
    ltac:(done) ltac:(rewrite deciding_now; exact ex_one_repr) ltac:(rewrite deciding_now; by eapply walks_now, ex_one_repr) ex_sealing_ok) as (r & d' & logID & E & Hor & Hok).
  fold ex_closed in E. assert (Hr : is_ok r = true) by (change r with (r, d').1; rewrite <- E; vm_compute; reflexivity). rewrite E. cbn [snd]. destruct (Hok Hr) as (Hs & v & Hv & Hst & Hseg & _).
  exists v. eexists. split; [exact Hs|]. destruct Hor as [Hold|(_ & _ & Hd)]; [rewrite Hold in Hs; discriminate Hs|]. rewrite Hd. split_and!; [reflexivity|exact Hv|exact Hst|exact Hseg].
Defined.

(** A seal on the record, not yet in the manifest. *)
Definition ex_sealing : CEvent := sealing [] [ex_line] None ex_seal.
Definition ex_sealed : disk := (Append ex_name (now ex_one) (now ex_one) ex_aenv ex_sealing).2.
Definition ex_seal_line : string := line_at [ex_line] ex_aenv ex_sealing.

Lemma ex_sealed_repr : repr ex_name ex_sealed 0 "" [] [ex_line; ex_seal_line] "" StateSealedNotRotated.
Proof.
  destruct (ex_sealing_ok "30313233343536373839616263646566" ltac:(vm_compute; reflexivity)) as [He Hr].
  apply (append_done ex_name ex_one 0 "" [] [ex_line] ex_aenv ex_sealing (MkHead (sha256_hex ex_seal_line) 2) ex_sealed ex_one_repr); [vm_compute; reflexivity|exact He|exact Hr|].
  vm_compute. reflexivity.
Qed.

Definition ex_renv : rotate_env := MkRotateEnv LinkOk RepOk RepOk.

Lemma interrupted_seal_completes_witness :
  exists res d' v, CompleteSeal ex_name (now ex_sealed) (now ex_sealed) ex_renv None = (Ok res, d') /\ sr_Completed res = true /\
    Read ex_name (Ok ()) d' = (v, None) /\ v_State v = StateOpen /\ shown ex_name d' = [ex_line; ex_seal_line] /\ activeRecords v = [].
Proof.
  refine (interrupted_seal_completes ex_name ex_sealed ex_renv None 0 "" [] [ex_line; ex_seal_line] StateSealedNotRotated "30313233343536373839616263646566"
            ltac:(reflexivity) ltac:(reflexivity) ltac:(discriminate) ex_sealed_repr _ _ _).
  - by split_and!.
  - vm_compute. reflexivity.
  - intros _. exists None. vm_compute. reflexivity.
Defined.

(** A torn active, and one that another process repaired. *)
Definition ex_frag : string := "{torn".
Definition ex_torn : disk := set_file ex_one 0 (bytes_of [ex_line] +:+ ex_frag).
Definition ex_by (name : string) : author := MkAuthor zeroInvoker name zeroWitness.
Definition ex_move : move_env := MkMoveEnv false (Ok ()) 77 None true true.
Definition ex_repair (gap : nat -> disk -> disk) : repair_env := MkRepairEnv (Ok ()) ex_move ex_renv ex_aenv gap.
Definition ex_quiet : repair_env := ex_repair (fun _ d => d).

Lemma ex_torn_repr : repr ex_name ex_torn 0 "" [] [ex_line] ex_frag StateOpen.
Proof. eapply repr_set_file; [exact ex_one_repr|..]; try done; apply ex_one_repr. Qed.

Lemma ex_repair_ok frag by_ : int_ok (str_len frag) -> event_ok ex_aenv (repair_event (found frag) by_).
Proof. intros Hf. split; try done. Qed.

(** An append, one cut short, its tail moved aside, the repair recorded. *)
Definition ex_cut_env : append_env := MkAppendEnv "2026-01-02T03:04:05Z" (Some "0123456789abcdef") (WriteFailed 5).
Definition ex_cut : disk := (Append ex_name (now ex_one) (now ex_one) ex_cut_env ex_apply).2.
Definition ex_moved : result control_error RepairResult * disk := moveTailAside ex_name ex_cut ex_move (str_len (bytes_of [ex_line])) [ex_line].
Definition ex_recorded : disk := (Append ex_name (now ex_moved.2) (now ex_moved.2) ex_aenv (repair_event (found (take_str 5 ex_line)) (ex_by "a"))).2.

Lemma ex_cut_repr : repr ex_name ex_cut 0 "" [] [ex_line] (take_str 5 ex_line) StateOpen.
Proof.
  assert (E : ex_cut = set_file ex_one 0 (bytes_of [ex_line] +:+ take_str 5 ex_line)) by (vm_compute; reflexivity). rewrite E.
  eapply repr_set_file; [exact ex_one_repr|discriminate|discriminate|exact (rep_chain ex_one_repr)|vm_compute; reflexivity|exact (rep_bytes ex_one_repr)|exact (rep_scan ex_one_repr)].
Qed.

Lemma ex_append h d env e : history ex_name h d -> permit e = None -> event_ok env e -> room (shown ex_name d) env e ->
  history ex_name (d :: h) (Append ex_name (now d) (now d) env e).2.
Proof. intros Hh Hp He Hr. apply HStep; [exact Hh|]. apply CAppend; rewrite ?deciding_now; [done|by left|exact Hp|exact He|exact Hr]. Qed.
Lemma ex_cut_ok : event_ok ex_cut_env ex_apply.
Proof. event_ok_tac. Qed.

Lemma control_ledger_append_only_witness : shown ex_name ex_one `prefix_of` shown ex_name ex_recorded.
Proof.
  apply (control_ledger_append_only ex_name [ex_moved.2; ex_cut; ex_one; ex_empty] ex_one ex_recorded); [reflexivity| |right; right; by left].
  refine (ex_append _ ex_moved.2 ex_aenv _ _ _ _ _).
  - refine (HStep _ _ ex_cut ex_moved.2 _ (CMove ex_name _ ex_cut ex_cut ex_move 0 0 "" [] [ex_line] _ _ StateOpen ltac:(by left) ex_cut_repr ex_cut_repr ltac:(discriminate))).
    refine (ex_append _ ex_one ex_cut_env ex_apply _ eq_refl ex_cut_ok _); [|vm_compute; reflexivity].
    assert (E : ex_one = (Append ex_name (now ex_empty) (now ex_empty) ex_aenv ex_apply).2) by (vm_compute; reflexivity). rewrite E at 1.
    exact (ex_append [] ex_empty ex_aenv ex_apply (HFresh ex_name ex_empty ex_fresh) eq_refl ex_apply_ok ex_room).
  - reflexivity.
  - apply ex_repair_ok. vm_compute. split; discriminate.
  - vm_compute. reflexivity.
Defined.

Lemma repair_recovers_witness :
  exists d' v name, Repair ex_name ex_torn ex_quiet (ex_by "a") None = (Ok (MkRepairResult (str_len ex_frag) (sha256_hex ex_frag) 0), d') /\
    Read ex_name (Ok ()) d' = (v, None) /\ v_State v = StateOpen /\
    shown ex_name d' = [ex_line] ++ [line_at [ex_line] ex_aenv (repair_event (found ex_frag) (ex_by "a"))] /\ is_Some (IsTainted (shown ex_name d')) /\
    dk_names ex_torn !! name = None /\ content d' name = Some ex_frag.
Proof.
  refine (repair_recovers ex_name ex_torn ex_quiet (ex_by "a") None 0 "" [] [ex_line] ex_frag ex_torn_repr ltac:(discriminate) _ _ _ _ _).
  - by split.
  - split_and!; [done..|]. vm_compute. by eexists.
  - split; [done|]. by eexists.
  - apply ex_repair_ok. vm_compute. split; discriminate.
  - vm_compute. reflexivity.
Defined.

(** The other process repairs between the read and the lock. *)
Definition ex_other : disk := (Repair ex_name ex_torn ex_quiet (ex_by "b") None).2.
Definition ex_race : repair_env := ex_repair (fun i d => match i with O => (Repair ex_name d ex_quiet (ex_by "b") None).2 | _ => d end).
Definition ex_more : list string := [line_at [ex_line] ex_aenv (repair_event (found ex_frag) (ex_by "b"))].

Lemma ex_other_repr : repr ex_name ex_other 0 "" [] ([ex_line] ++ ex_more) "" StateOpen.
Proof.
  assert (E : Repair ex_name ex_torn ex_quiet (ex_by "b") None = (Ok (found ex_frag), ex_other)) by (vm_compute; reflexivity).
  destruct (repair_cases ex_name ex_torn 0 "" [] [ex_line] ex_frag ex_quiet (ex_by "b") None ex_torn_repr) as (r & d' & E' & _ & Hok);
    [discriminate|by split|apply ex_repair_ok; vm_compute; split; discriminate|vm_compute; reflexivity|].
  pose proof (eq_trans (eq_sym E') E) as Eq. generalize dependent ex_other. intros other _ Eq.
  destruct (Hok _ (f_equal fst Eq)) as (_ & Hr & _). pose proof (f_equal snd Eq) as Ed. cbn [snd] in Ed. rewrite <- Ed. exact Hr.
Qed.

Lemma concurrent_repair_drops_records_witness :
  exists d' v, Repair ex_name ex_torn ex_race (ex_by "a") None = (Ok (found (bytes_of ex_more)), d') /\
    shown ex_name ex_other = [ex_line] ++ ex_more /\ Read ex_name (Ok ()) d' = (v, None) /\
    v_Records v = [ex_line] ++ [line_at [ex_line] ex_aenv (repair_event (found (bytes_of ex_more)) (ex_by "a"))].
Proof.
  refine (concurrent_repair_drops_records ex_name ex_torn ex_other ex_race (ex_by "a") None 0 "" [] [ex_line] ex_more ex_frag
            ex_torn_repr ltac:(discriminate) eq_refl _ (fun _ => eq_refl) ex_other_repr _ _ _ _).
  - unfold ex_race, ex_repair, ex_other. cbn [rp_gap]. reflexivity.
  - split_and!; [done..|]. vm_compute. by eexists.
  - split; [done|]. by eexists.
  - apply ex_repair_ok. vm_compute. split; discriminate.
  - vm_compute. reflexivity.
Defined.
