(* ===== verification/Artifact.v ===== *)
(** * The artifact store ([internal/artifact/store.go])

    Bodies of artifacts kept out of the ledger, one file per body, named by
    its SHA-256.  The directory is a map from names to entries; the outcome of
    each system call is an argument.  A successful store can be read back, a
    prune removes old bodies and nothing else; a write cut short leaves a file
    that the next [Put] takes for the body. *)
From S2P Require Import Prelude Sha256 GoStr Json Ledger Attest Doors.

Record entry : Type := MkEntry { en_dir : bool; en_body : string; en_mtime : Z }.
#[global] Instance entry_eq_dec : EqDecision entry.
Proof. solve_decision. Defined.
Abbreviation store := (gmap string entry).

(** What [os.WriteFile] comes to: written, not even created, or stopped after
    [n] bytes. *)
Inductive put_outcome : Type := PutOk | PutRefused | PutPartial (n : nat).

Inductive artifact_error : Type := ErrWrite | ErrArtifact (sha : string).

Definition preview_of (body : string) : string := capRunes (join " " (Fields (replace_byte newline " " body))) 200.

Definition Put (s : store) (body : string) (time : Z) (o : put_outcome) : result artifact_error (string * string) * store :=
  let sha := sha256_hex body in
  if is_Some_b (s !! sha) then (Ok (sha, preview_of body), s)
  else match o with
       | PutOk => (Ok (sha, preview_of body), <[sha := MkEntry false body time]> s)
       | PutRefused => (Err ErrWrite, s)
       | PutPartial n => (Err ErrWrite, <[sha := MkEntry false (take_str n body) time]> s)
       end.

Definition Get (s : store) (sha : string) : result artifact_error string :=
  match s !! sha with
  | Some e => if en_dir e then Err (ErrArtifact sha) else Ok (en_body e)
  | None => Err (ErrArtifact sha)
  end.

Definition isArtifactName (name : string) : bool := lower_hex_of_len 64 name.

(** Whether an entry's information could be read and its file removed. *)
Record prune_env : Type := MkPruneEnv { pe_info : string -> bool; pe_remove : string -> bool }.

Definition pruned (env : prune_env) (cutoff : Z) (name : string) (e : entry) : bool :=
  negb (en_dir e) && isArtifactName name && pe_info env name && (en_mtime e <? cutoff) && pe_remove env name.

Fixpoint prune_loop (env : prune_env) (cutoff : Z) (l : list (string * entry)) (s : store) (n : Z) : store * Z :=
  match l with
  | [] => (s, n)
  | (name, e) :: r =>
      if pruned env cutoff name e then prune_loop env cutoff r (delete name s) (n + 1) else prune_loop env cutoff r s n
  end.
Definition Prune (env : prune_env) (s : store) (now olderThan : Z) : store * Z :=
  prune_loop env (now - olderThan) (map_to_list s) s 0.

(** ** Properties *)

(** Every body is under its own digest. *)
Definition store_ok (s : store) : Prop := forall name e, s !! name = Some e -> en_dir e = false /\ name = sha256_hex (en_body e).

Lemma put_ok s body time o : store_ok s -> (forall n, o <> PutPartial n) -> store_ok (Put s body time o).2.
Proof.
  intros Hs Ho. unfold Put. destruct (is_Some_b _); [done|]. destruct o as [| |n]; [|done|by destruct (Ho n)].
  cbn [snd]. intros name e [[<- <-]|[_ He]]%lookup_insert_Some; [done|by apply Hs].
Qed.

Lemma prune_loop_spec env cutoff l s n : NoDup l.*1 -> (forall name e, (name, e) ∈ l -> s !! name = Some e) ->
  let r := prune_loop env cutoff l s n in
  (forall name, r.1 !! name = match s !! name with
                            | Some e => if bool_decide ((name, e) ∈ l) && pruned env cutoff name e then None else Some e
                            | None => None
                            end) /\
  r.2 = n + Z.of_nat (length (filter (fun x => pruned env cutoff x.1 x.2 = true) l)).
Proof.
  revert s n. induction l as [|[name0 e0] l IH]; intros s n Hnd Hl; cbn [prune_loop].
  - split; [|cbn; lia]. intros name. cbn. by destruct (s !! name).
  - apply NoDup_cons in Hnd as [Hnew Hnd]. rewrite filter_cons. cbn [fst snd]. pose proof (Hl name0 e0 ltac:(left)) as H0.
    assert (Hin : forall name e, (name, e) ∈ l -> name <> name0).
    { intros name e He ->. apply Hnew. apply list_elem_of_fmap. by exists (name0, e). }
    destruct (pruned env cutoff name0 e0) eqn:Ep.
    + destruct (IH (delete name0 s) (n + 1) Hnd) as [IH1 IH2].
      { intros name e He. rewrite lookup_delete_ne by (intros <-; by apply (Hin _ _ He)). apply Hl. by right. }
      rewrite decide_True by done. split; [|rewrite IH2; cbn [length]; lia]. intros name. rewrite IH1. destruct (decide (name = name0)) as [->|Hne].
      * rewrite lookup_delete_eq, H0. rewrite bool_decide_true by left. by rewrite Ep.
      * rewrite lookup_delete_ne by done. destruct (s !! name) as [e|]; [|done].
        rewrite (bool_decide_ext ((name, e) ∈ (name0, e0) :: l) ((name, e) ∈ l)); [done|]. rewrite elem_of_cons. naive_solver.
    + destruct (IH s n Hnd) as [IH1 IH2]; [intros name e He; apply Hl; by right|].
      rewrite decide_False by done. split; [|done]. intros name. rewrite IH1. destruct (s !! name) as [e|] eqn:Es; [|done].
      destruct (decide (name = name0)) as [->|Hne].
      * assert (e = e0) as -> by congruence. rewrite Ep, !andb_false_r. done.
      * rewrite (bool_decide_ext ((name, e) ∈ (name0, e0) :: l) ((name, e) ∈ l)); [done|]. rewrite elem_of_cons. naive_solver.
Qed.

Lemma Prune_spec env s now older :
  (forall name, (Prune env s now older).1 !! name = match s !! name with
                                                   | Some e => if pruned env (now - older) name e then None else Some e
                                                   | None => None
                                                   end) /\
  (Prune env s now older).2 = Z.of_nat (length (filter (fun x => pruned env (now - older) x.1 x.2 = true) (map_to_list s))).
Proof.
  destruct (prune_loop_spec env (now - older) (map_to_list s) s 0) as [H1 H2].
  - apply NoDup_fst_map_to_list.
  - intros name e He. by apply elem_of_map_to_list in He.
  - split; [|unfold Prune; rewrite H2; lia]. intros name. unfold Prune. rewrite H1. destruct (s !! name) as [e|] eqn:E; [|done].
    by rewrite bool_decide_true by (by apply elem_of_map_to_list).
Qed.

(** What is stored can be read back.  On a store whose bodies are under
    their own digests, a [Put] that reports success returns the body's digest
    and [Get] of it then returns that body (or a SHA-256 collision is
    exhibited); the store keeps that property under [Put]s that are not cut
    short and under every [Prune]; and a [Prune] removes exactly the files
    named like a digest that are older than its cutoff and could be removed,
    and reports their number. *)
Theorem artifacts_read_back (s : store) (body : string) (time now older : Z) (o : put_outcome) (env : prune_env)
    (Hs : store_ok s) (Ho : forall n, o <> PutPartial n) :
  (forall sha preview, (Put s body time o).1 = Ok (sha, preview) ->
     exists b, Get (Put s body time o).2 sha = Ok b /\ (b = body \/ sha256_hex b = sha256_hex body /\ b <> body)) /\
  store_ok (Put s body time o).2 /\ store_ok (Prune env s now older).1 /\
  (forall name, (Prune env s now older).1 !! name = match s !! name with
     | Some e => if pruned env (now - older) name e then None else Some e
     | None => None end) /\
  (Prune env s now older).2 = Z.of_nat (length (filter (fun x => pruned env (now - older) x.1 x.2 = true) (map_to_list s))).
Proof.
  destruct (Prune_spec env s now older) as [Hp Hn]. split_and!; [| |intros name e He|done|done].
  - intros sha preview. unfold Put, Get. destruct (s !! sha256_hex body) as [e|] eqn:E; cbn [is_Some_b].
    + intros [= <- <-]. cbn. rewrite E. destruct (Hs _ _ E) as [-> Hh]. exists (en_body e). split; [done|].
      destruct (decide (en_body e = body)); [by left|by right].
    + destruct o; [|done|done]. intros [= <- <-]. cbn. rewrite lookup_insert_eq. exists body. split; [done|by left].
  - by apply put_ok.
  - rewrite Hp in He. destruct (s !! name) eqn:E; [|done]. destruct (pruned _ _ _ _); [done|]. simplify_eq. by apply Hs.
Qed.

Definition ex_body : string := "a body that is long enough".
Lemma artifacts_read_back_witness :
  exists b, Get (Put ∅ ex_body 5 PutOk).2 (sha256_hex ex_body) = Ok b /\ (b = ex_body \/ sha256_hex b = sha256_hex ex_body /\ b <> ex_body).
Proof.
  destruct (artifacts_read_back ∅ ex_body 5 0 0 PutOk (MkPruneEnv (fun _ => true) (fun _ => true))) as [Hp _]; [|done|].
  - intros name e He. done.
  - apply (Hp (sha256_hex ex_body) (preview_of ex_body)). reflexivity.
Defined.

(** A write cut short is later taken for the body.  [Put] reports the
    failed write, but the partial file stays under the body's digest, so the
    next [Put] of the same body finds it, writes nothing and reports success,
    and [Get] returns the fragment. *)
Theorem partial_put_is_taken_for_the_body (s : store) (body : string) (time time' : Z) (n : nat) (o : put_outcome)
    (Hnew : s !! sha256_hex body = None) (Hn : (n < String.length body)%nat) :
  let s1 := (Put s body time (PutPartial n)).2 in
  (Put s body time (PutPartial n)).1 = Err ErrWrite /\
  Put s1 body time' o = (Ok (sha256_hex body, preview_of body), s1) /\
  Get s1 (sha256_hex body) = Ok (take_str n body) /\ take_str n body <> body.
Proof.
  unfold Put, Get. rewrite Hnew. cbn [is_Some_b fst snd]. rewrite lookup_insert_eq. cbn. split_and!; try done.
  intros E. apply (f_equal String.length) in E. clear -E Hn. revert n Hn E. induction body as [|c b IH]; intros [|n] Hn E; cbn in *; try lia.
  injection E as E. apply (IH n); lia.
Qed.

Lemma partial_put_is_taken_for_the_body_witness :
  let s1 := (Put ∅ ex_body 1 (PutPartial 3)).2 in
  (Put ∅ ex_body 1 (PutPartial 3)).1 = Err ErrWrite /\
  Put s1 ex_body 2 PutOk = (Ok (sha256_hex ex_body, preview_of ex_body), s1) /\
  Get s1 (sha256_hex ex_body) = Ok (take_str 3 ex_body) /\ take_str 3 ex_body <> ex_body.
Proof. apply (partial_put_is_taken_for_the_body ∅ ex_body 1 2 3 PutOk); [reflexivity|cbn; lia]. Defined.
