(* ===== verification/Restore.v ===== *)
(** * Restoring the control ledger from the sink
      ([internal/control/restore.go])

    A sealed segment that is missing or damaged is put back from its protected
    copy ([Restore]), or the whole sealed set is ([Rebuild]).  The sink is a
    record of what it answers; every sink call comes before the lock, so what
    it answers is fixed for the operation.  As in [Segments], the outcome of a
    fallible step is an argument and other processes act in the gaps. *)
From S2P Require Import Prelude Sha256 GoStr Json Paths Ledger Config Origin Event ControlRecord Manifest Segments.

(** ** The sink, read back *)
Record SinkVersion : Type := MkVersion { sv_ID : string; sv_IsLatest : bool; sv_Size : Z; sv_LastModified : string }.
Record SinkRetention : Type := MkRetention { rt_Mode : string; rt_RetainUntil : string }.
Record KeyVersions : Type := MkKeyVersions { kv_Key : string; kv_Versions : list SinkVersion; kv_DeleteMarker : bool }.
Record SinkReader : Type := MkSinkReader {
  sr_Prefix : string -> string;
  sr_ListVersions : string -> result string KeyVersions;
  sr_ListPrefix : string -> result string (list KeyVersions);
  sr_GetRetention : string -> string -> result string SinkRetention;
  sr_Get : string -> string -> Z -> result string string;
}.

Definition maxRestoreBody : Z := Z.shiftl 256 20.
Definition maxRecordLine : Z := Z.shiftl 64 10.

(** ** Verdicts *)
Inductive fetch_error : Type :=
  | NotContinuing (k : Z) (prev : string)
  | NotASegment (k : Z)
  | CopyBroken (k line : Z)
  | CopyTorn (k records : Z)
  | NoGenesis
  | OtherGenesis (id : string)
  | RecordAfterSeal (k line : Z)
  | LastNotSeal (k : Z)
  | SealNotRecomputed (k : Z)
  | NoSinkBlock (k : Z)
  | OtherKey (k : Z) (key : string)
  | CopyRetain (k : Z)
  | CopySize (k : Z).

Inductive restore_error : Type :=
  | EControl (e : control_error)
  | ErrNothingToRestore
  | ERestoreEvent
  | ENotRestoreMatter
  | ERebuildHint (e : control_error) (logID : string)
  | ENotAtFault (n k : Z)
  | ERestoreSink (text : string)
  | EContinuesNone (k chained : Z)
  | ECopyMissing (k : Z)
  | EReplacedName
  | ERestoreRecord (e : control_error)
  | EOtherLedger (logID have : string)
  | ENotASegmentKey (key : string)
  | ENoSegments
  | EHole (k : Z)
  | ECannotRebuild (e : fetch_error)
  | ERebuilt (e : restore_error)
  | EFuel.

(** ** One fetched copy *)
Definition verifyFetchedSegment (data : string) (k : Z) (start : Start) (logID key : string) : result fetch_error (Segment * list string) :=
  let '(recs, head, err) := VerifyReader (MkReader data false) start in
  let body :=
    let genesis := if k =? 1 then match GenesisLogID recs with
                                  | None => Some NoGenesis
                                  | Some id => if bool_decide (id = logID) then None else Some (OtherGenesis id)
                                  end
                   else None in
    match genesis with
    | Some e => Err e
    | None =>
        match seal_index 0 (removelast recs) with
        | Some (i, _) => Err (RecordAfterSeal k (Z.of_nat i + 1))
        | None =>
            match decodeRecord (default "" (last recs)) with
            | None => Err (LastNotSeal k)
            | Some rec =>
                match r_Seal rec with
                | None => Err (LastNotSeal k)
                | Some s =>
                    if negb (is_seal rec) then Err (LastNotSeal k)
                    else if negb (sealChainFieldsAgree (Some s) (MkSeal k (StartBase start + 1) (r_Seq rec - 1) (r_Prev rec) (sealContentDigest (removelast recs)) None))
                    then Err (SealNotRecomputed k)
                    else match sl_Sink s with
                         | None => Err (NoSinkBlock k)
                         | Some block =>
                             if negb (bool_decide (sk_Key block = key)) then Err (OtherKey k (sk_Key block))
                             else if negb (After (sk_RetainUntil block) (r_Time rec)) then Err (CopyRetain k)
                             else
                               let '(whole, size) := segmentDigests recs in
                               if negb (size =? str_len data) then Err (CopySize k)
                               else Ok (MkSegment k "" (StartBase start + 1) (StartBase start + Count head) (Hash head) whole size (Count head) (r_Time rec)
                                          (Some block), recs)
                         end
                end
            end
        end
    end in
  match err with
  | Some (ChainBrokenError line) =>
      if (line =? 1) && (2 <=? k) then Err (NotContinuing k (StartPrev start))
      else match recs with [] => Err (NotASegment k) | _ => Err (CopyBroken k line) end
  | Some _ => match recs with [] => Err (NotASegment k) | _ => Err (CopyTorn k (Z.of_nat (length recs))) end
  | None => match recs with [] => Err (NotASegment k) | _ => body end
  end.

(** ** The active, peeked at *)

(** [lastLine]: of the file's last [maxRecordLine] bytes. *)
Definition lastLine (data : string) : option string :=
  let size := str_len data in
  let off := Z.max 0 (size - maxRecordLine) in
  let lines := split_lines (drop_str (Z.to_nat off) data) in
  match last lines with
  | Some (l, true) => if (Z.of_nat (length lines) =? 1) && (0 <? off) then None else Some l
  | _ => None
  end.

Section restore.
  Context (active : string).

Definition incompleteRotation (d : disk) (listed : Z) : bool :=
  match dk_names d !! active with
  | None => false
  | Some ino =>
      if (0 <? listed) && sameFile d (SegmentPath active listed) ino then true
      else match lastLine (file_of d ino) with
           | None => false
           | Some line => match decodeRecord line with Some rec => is_seal rec | None => false end
           end
  end.

(** [rootLogID]; [None] is the placeholder. *)
Definition rootLogID (d : disk) (v : View) : option string :=
  if negb (bool_decide (v_LogID v = "")) then Some (v_LogID v)
  else match GenesisLogID (v_Records v) with
       | Some id => Some id
       | None =>
           match loadManifest active d with
           | Ok (Some m) => Some (m_LogID m)
           | _ =>
               match content d (SegmentPath active 1) with
               | None => None
               | Some data =>
                   GenesisLogID [match split_lines (take_str maxGenesisLine data) with [] => "" | (l, _) :: _ => l end]
               end
           end
       end.

(** The faults a restore answers: the segment and the manifest. *)
Definition restorable (d : disk) (v : View) (verr : control_error) : result restore_error (Z * Manifest) :=
  match verr with
  | ESet se =>
      let f := se_Fault se in
      let hint := match f with
                  | FaultActiveMissing => true
                  | FaultManifest => se_Segment se =? 0
                  | FaultUnexpectedSegment => se_noManifest se
                  | _ => false
                  end in
      if hint then Err (ERebuildHint verr (default "<id>" (rootLogID d v)))
      else if se_Segment se =? 0 then Err (EControl verr)
      else match f with
           | FaultMissingSegment | FaultTorn | FaultBroken | FaultManifest | FaultBoundary =>
               match loadManifest active d with
               | Err e => Err (EControl e)
               | Ok None => Err (EControl verr)
               | Ok (Some m) =>
                   if (Z.of_nat (length (m_Segments m)) <? se_Segment se) || negb (Z.of_nat (length (v_Sealed v)) =? se_Segment se - 1)
                   then Err (EControl verr)
                   else Ok (se_Segment se, m)
               end
           | _ => Err (EControl verr)
           end
  | _ => Err (EControl verr)
  end.

Definition dec_prev (fs : list (string * json)) (cur : string) : option string := dec_field dec_str (field_values "prev" fs) cur.

(** [firstPrev]: the first line must be terminated within the bound. *)
Definition firstPrev (d : disk) (path : string) : string :=
  match content d path with
  | None => ""
  | Some data =>
      match split_lines (take_str (Z.to_nat maxRecordLine) data) with
      | (l, true) :: _ =>
          match parse_json l with
          | Some v => default "" (dec_obj dec_prev v "")
          | None => ""
          end
      | _ => ""
      end
  end.

(** ** Local writes *)
Record hold_env : Type := MkHoldEnv { ho_lock : result ledger_error (); ho_swapped : bool }.
Definition holdActive (d : disk) (env : hold_env) : result control_error nat :=
  match dk_names d !! active with
  | None => Err ENotExist
  | Some ino =>
      match ho_lock env with
      | Err e => Err (ELedger e)
      | Ok _ => if ho_swapped env then Err ERepairRotated else Ok ino
      end
  end.

(** The claimed name is renamed over; or the claim fails, or the rename does
    and the claim is removed; or it stops in between. *)
Inductive move_outcome : Type := MoveOk | MoveFailed | MoveStopped.

Definition replaced_candidate (what : string) (unix : Z) (attempt : nat) : string :=
  active +:+ ".replaced-" +:+ what +:+ "-" +:+ itoa unix +:+ match attempt with O => "" | S _ => "-" +:+ itoa (Z.of_nat attempt + 1) end.
Fixpoint replaced_name (what : string) (unix : Z) (d : disk) (fuel attempt : nat) : option string :=
  match fuel with
  | O => None
  | S f =>
      let name := replaced_candidate what unix attempt in
      if is_Some_b (dk_names d !! name) then replaced_name what unix d f (S attempt) else Some name
  end.

Definition rename_file (d : disk) (from to : string) : disk :=
  match dk_names d !! from with
  | Some ino => MkDisk (<[to := ino]> (delete from (dk_names d))) (dk_files d) (dk_next d)
  | None => d
  end.

Definition moveAsideReplaced (d : disk) (path what : string) (unix : Z) (o : move_outcome) : result restore_error string * disk :=
  match replaced_name what unix d maxTornFragmentAttempts 0 with
  | None => (Err EReplacedName, d)
  | Some name =>
      match o with
      | MoveOk => (Ok name, rename_file d path name)
      | MoveFailed => (Err (EControl EIO), d)
      | MoveStopped => (Err (EControl EIO), create_file d name "")
      end
  end.

Definition writeRestored (d : disk) (dest data : string) (o : rep_outcome) : option control_error * disk :=
  match Replace d dest ("." +:+ active +:+ ".restore-") data o with
  | (true, d') => (None, d')
  | (false, d') => (Some EIO, d')
  end.

(** What one segment's write takes from outside. *)
Record write_env : Type := MkWriteEnv { we_unix : Z; we_move : move_outcome; we_write : rep_outcome }.

(** The file under [path] moved aside, if any, and [data] in its place. *)
Definition replace_segment (d : disk) (k : Z) (data : string) (env : write_env) : result restore_error string * disk :=
  let path := SegmentPath active k in
  let moved := if is_Some_b (dk_names d !! path) then moveAsideReplaced d path (pad6 k) (we_unix env) (we_move env) else (Ok "", d) in
  match moved with
  | (Err e, d) => (Err e, d)
  | (Ok name, d) =>
      match writeRestored d path data (we_write env) with
      | (Some e, d) => (Err (EControl e), d)
      | (None, d) => (Ok name, d)
      end
  end.

(** ** Restore *)
Record RestoredSegment : Type := MkRestored {
  rd_N : Z; rd_Sink : ptr SealSink; rd_VersionID : string; rd_SHA256 : string; rd_Replaced : string;
  rd_NotOldest : bool; rd_Unlocked : bool; rd_ManifestDisagrees : bool;
}.

(** The selection: the first version that is segment [k] and that what follows
    chains from; [i] is the version's position, [chained] counts those that
    only chain from what precedes. *)
Fixpoint select_version (r : SinkReader) (key : string) (bound k : Z) (start : Start) (logID nextPrev : string) (vs : list SinkVersion) (i chained : Z)
  : result restore_error (option (string * Segment * SinkVersion * Z) * Z) :=
  match vs with
  | [] => Ok (None, chained)
  | ver :: rest =>
      match sr_Get r key (sv_ID ver) (Z.min (Z.max bound (sv_Size ver)) maxRestoreBody) with
      | Err t => Err (ERestoreSink t)
      | Ok b =>
          match verifyFetchedSegment b k start logID key with
          | Err _ => select_version r key bound k start logID nextPrev rest (i + 1) chained
          | Ok (seg, _) =>
              if negb (bool_decide (nextPrev = "")) && negb (bool_decide (sg_HeadHash seg = nextPrev))
              then select_version r key bound k start logID nextPrev rest (i + 1) (chained + 1)
              else Ok (Some (b, seg, ver, i), chained)
          end
      end
  end.

Definition seg_key (r : SinkReader) (logID : string) (k : Z) : string := sr_Prefix r logID +:+ "seg-" +:+ pad6 k.

Definition restore_start (v : View) (k : Z) : Start :=
  if 2 <=? k then
    let prev := nth (Z.to_nat (k - 2)) (v_Sealed v) zeroSegment in MkStart (sg_HeadHash prev) (sg_HeadSeq prev)
  else zeroStart.

Definition next_path (m : Manifest) (k : Z) : string :=
  if k =? Z.of_nat (length (m_Segments m)) then active else SegmentPath active (k + 1).

(** What is to be written for segment [k], from the sink and the directory. *)
Definition choose_copy (d : disk) (v : View) (m : Manifest) (k : Z) (verr : control_error) (r : SinkReader) : result restore_error (string * RestoredSegment) :=
  let start := restore_start v k in
  let entry := nth (Z.to_nat (k - 1)) (m_Segments m) zeroEntry in
  let bound := match verr with
               | ESet se => match se_Fault se with FaultManifest => maxRestoreBody | _ => me_Bytes entry end
               | _ => maxRestoreBody
               end in
  let key := seg_key r (v_LogID v) k in
  match sr_ListVersions r key with
  | Err t => Err (ERestoreSink t)
  | Ok kv =>
      match select_version r key bound k start (v_LogID v) (firstPrev d (next_path m k)) (kv_Versions kv) 0 0 with
      | Err e => Err e
      | Ok (None, chained) => Err (if 0 <? chained then EContinuesNone k chained else ECopyMissing k)
      | Ok (Some (data, seg, ver, i), _) =>
          match sr_GetRetention r key (sv_ID ver) with
          | Err t => Err (ERestoreSink t)
          | Ok lock =>
              Ok (data, MkRestored k (sg_Sink seg) (sv_ID ver) (sg_SHA256 seg) "" (0 <? i) (negb (bool_decide (rt_Mode lock = "COMPLIANCE")))
                          (negb (bool_decide (me_SHA256 entry = sg_SHA256 seg))))
          end
      end
  end.

Definition with_replaced (o : RestoredSegment) (name : string) : RestoredSegment :=
  MkRestored (rd_N o) (rd_Sink o) (rd_VersionID o) (rd_SHA256 o) name (rd_NotOldest o) (rd_Unlocked o) (rd_ManifestDisagrees o).

(** [d] is the directory read, [d'] the one under the lock. *)
Definition restoreSegment (d d' : disk) (v : View) (m : Manifest) (k : Z) (verr : control_error) (r : SinkReader) (hold : hold_env) (env : write_env)
  : result restore_error RestoredSegment * disk :=
  match choose_copy d v m k verr r with
  | Err e => (Err e, d')
  | Ok (data, out) =>
      match holdActive d' hold with
      | Err e => (Err (EControl e), d')
      | Ok _ =>
          match replace_segment (sweepTemps active d') k data env with
          | (Err e, d2) => (Err e, d2)
          | (Ok name, d2) => (Ok (with_replaced out name), d2)
          end
      end
  end.

(** What one round of a restore takes from outside; [ro_before] and [ro_gap] are
    what others did before its read and before its write. *)
Record round_env : Type := MkRound { ro_before : disk -> disk; ro_lock : result ledger_error (); ro_gap : disk -> disk; ro_hold : hold_env; ro_write : write_env }.

Definition checkRestoreEvent (e : CEvent) : bool :=
  bool_decide (ce_Action e = "restore") && bool_decide (ce_Outcome e = "success") && bool_decide (ce_Detail e = "").

(** The named ordinals the run has not come to, lowest first. *)
Definition not_at_fault (only : list Z) (last : Z) : option Z := List.find (fun n => last <? n) (merge_sort Z.le only).

(** The run was narrowed to other segments than [k]. *)
Definition outside (only : option (list Z)) (last k : Z) (verr : control_error) : option restore_error :=
  match only with
  | Some ns =>
      if bool_decide (k ∈ ns) then None
      else Some (match not_at_fault ns last with Some n => ENotAtFault n k | None => EControl verr end)
  | None => None
  end.

(** The rounds: the segments restored, and why the rounds ended ([None]: the
    set reads clean). *)
Fixpoint restore_rounds (fuel : nat) (envs : nat -> round_env) (only : option (list Z)) (r : SinkReader) (i : nat) (last : Z) (done_ : list RestoredSegment) (d : disk)
  : list RestoredSegment * option restore_error * disk :=
  match fuel with
  | O => (done_, Some EFuel, d)
  | S f =>
      let d := ro_before (envs i) d in
      match Read active (ro_lock (envs i)) d with
      | (v, None) =>
          if negb (bool_decide (v_State v = StateOpen)) then (done_, Some ENotRestoreMatter, d)
          else if last =? 0 then (done_, Some ErrNothingToRestore, d)
          else (done_, None, d)
      | (v, Some verr) =>
          match restorable d v verr with
          | Err e => (done_, Some e, d)
          | Ok (k, m) =>
              if k <=? last then (done_, Some (EControl verr), d)
              else if incompleteRotation d (Z.of_nat (length (m_Segments m))) then (done_, Some ENotRestoreMatter, d)
              else
                match outside only last k verr with
                | Some e => (done_, Some e, d)
                | None =>
                    match restoreSegment d (ro_gap (envs i) d) v m k verr r (ro_hold (envs i)) (ro_write (envs i)) with
                    | (Err e, d) => (done_, Some e, d)
                    | (Ok seg, d) => restore_rounds f envs only r (S i) k (done_ ++ [seg]) d
                    end
                end
          end
      end
  end.

(** ** Rebuild *)
Definition sinkSegmentKeyRE (s : string) : option Z :=
  match cut_prefix "seg-" s with
  | Some ds => if Nat.eqb (String.length ds) 6 && all_chars is_digit ds then parse_uint64 ds else None
  | None => None
  end.

Record fetchedSegment : Type := MkFetched { fe_data : string; fe_seg : Segment }.
Record fetchedChain : Type := MkFetchedChain { fc_segments : list fetchedSegment; fc_underLocked : list Z; fc_markerOnly : list Z }.

(** The listing, by ordinal: the keys that hold versions, and those that hold
    only a delete marker. *)
Fixpoint by_ordinal (prefix : string) (l : list KeyVersions) (acc : gmap Z KeyVersions) (marker : list Z) : result restore_error (gmap Z KeyVersions * list Z) :=
  match l with
  | [] => Ok (acc, marker)
  | kv :: r =>
      let n := default 0 (sinkSegmentKeyRE (trim_prefix (kv_Key kv) prefix)) in
      if n =? 0 then Err (ENotASegmentKey (kv_Key kv))
      else match kv_Versions kv with
           | [] => by_ordinal prefix r acc (marker ++ [n])
           | _ => by_ordinal prefix r (<[n := kv]> acc) marker
           end
  end.

Definition ordinals (n : Z) : list Z := map Z.of_nat (seq 1 (Z.to_nat n)).
Definition highest (held : gmap Z KeyVersions) : Z := foldr Z.max 0 (map fst (map_to_list held)).

Fixpoint fetch_segments (r : SinkReader) (logID : string) (held : gmap Z KeyVersions) (ks : list Z) (start : Start) (segs : list fetchedSegment) (under : list Z)
  : result restore_error (list fetchedSegment * list Z) :=
  match ks with
  | [] => Ok (segs, under)
  | k :: rest =>
      match held !! k with
      | None => Err (EHole k)
      | Some kv =>
          match kv_Versions kv with
          | [] => Err (EHole k)
          | ver :: _ =>
              match sr_Get r (kv_Key kv) (sv_ID ver) maxRestoreBody with
              | Err t => Err (ERestoreSink t)
              | Ok data =>
                  match verifyFetchedSegment data k start logID (kv_Key kv) with
                  | Err e => Err (ECannotRebuild e)
                  | Ok (seg, _) =>
                      match sr_GetRetention r (kv_Key kv) (sv_ID ver) with
                      | Err t => Err (ERestoreSink t)
                      | Ok lock =>
                          let until := match sg_Sink seg with Some b => sk_RetainUntil b | None => "" end in
                          let under' := if negb (bool_decide (rt_Mode lock = "COMPLIANCE")) || After until (rt_RetainUntil lock) then under ++ [k] else under in
                          fetch_segments r logID held rest (MkStart (sg_HeadHash seg) (sg_HeadSeq seg)) (segs ++ [MkFetched data seg]) under'
                      end
                  end
              end
          end
      end
  end.

Definition fetchChain (logID : string) (r : SinkReader) : result restore_error fetchedChain :=
  let prefix := sr_Prefix r logID in
  match sr_ListPrefix r prefix with
  | Err t => Err (ERestoreSink t)
  | Ok listed =>
      match by_ordinal prefix listed ∅ [] with
      | Err e => Err e
      | Ok (held, marker) =>
          if bool_decide (held = ∅) then Err ENoSegments
          else match List.find (fun k => negb (is_Some_b (held !! k))) (ordinals (highest held)) with
               | Some k => Err (EHole k)
               | None =>
                   match fetch_segments r logID held (ordinals (highest held)) zeroStart [] [] with
                   | Err e => Err e
                   | Ok (segs, under) => Ok (MkFetchedChain segs under (merge_sort Z.le marker))
                   end
               end
      end
  end.

Record RebuildResult : Type := MkRebuildResult {
  rb_Segments : Z; rb_Written : Z; rb_Replaced : Z; rb_ReplacedNames : list string; rb_ManifestReplaced : string; rb_ActiveCreated : bool;
  rb_Head : Head; rb_UnderLocked : list Z; rb_MarkerOnly : list Z; rb_LocalOnly : list Z; rb_Dropped : list Z; rb_manifestWritten : bool;
}.
Definition zeroRebuild : RebuildResult := MkRebuildResult 0 0 0 [] "" false (MkHead "" 0) [] [] [] [] false.

(** One segment file: left when identical, moved aside when it differs. *)
Definition write_segment (env : write_env) (k : Z) (data : string) (res : RebuildResult) (d : disk) : RebuildResult * option restore_error * disk :=
  let path := SegmentPath active k in
  let write res d := match writeRestored d path data (we_write env) with
                     | (Some e, d) => (res, Some (EControl e), d)
                     | (None, d) => ({ res with rb_Written := rb_Written res + 1 }, None, d)
                     end in
  match content d path with
  | Some have =>
      if bool_decide (have = data) then (res, None, d)
      else match moveAsideReplaced d path (pad6 k) (we_unix env) (we_move env) with
           | (Err e, d) => (res, Some e, d)
           | (Ok name, d) => write { res with rb_Replaced := rb_Replaced res + 1; rb_ReplacedNames := rb_ReplacedNames res ++ [name] } d
           end
  | None => write res d
  end.

(** The segment files, ascending. *)
Fixpoint write_segments (envs : Z -> write_env) (k : Z) (l : list fetchedSegment) (res : RebuildResult) (d : disk) : RebuildResult * option restore_error * disk :=
  match l with
  | [] => (res, None, d)
  | f :: rest =>
      match write_segment (envs k) k (fe_data f) res d with
      | (res, None, d) => write_segments envs (k + 1) rest res d
      | stop => stop
      end
  end.

(** The local entries beyond the sink's, kept while their files verify. *)
Fixpoint local_entries (d : disk) (j : Z) (start : Start) (es : list ManifestEntry) : list ManifestEntry * list Z * list Z :=
  match es with
  | [] => ([], [], [])
  | e :: rest =>
      match verifySealed active d j start e with
      | (Err _, _) => ([], [], map (fun i => j + Z.of_nat i) (seq 0 (length es)))
      | (Ok seg, _) =>
          let '(ms, kept, dropped) := local_entries d (j + 1) (MkStart (sg_HeadHash seg) (sg_HeadSeq seg)) rest in
          (manifestEntry active seg :: ms, j :: kept, dropped)
      end
  end.

Record rebuild_env : Type := MkRebuildEnv {
  bd_segments : Z -> write_env; bd_manifest : write_env; bd_swap : rep_outcome;
}.

(** The manifest, recomputed. *)
Definition rebuilt_manifest (d : disk) (logID : string) (fetched : list fetchedSegment) : Manifest * list Z * list Z :=
  let n := Z.of_nat (length fetched) in
  let lastSeg := match last fetched with Some f => fe_seg f | None => zeroSegment end in
  let entries := map (fun f => manifestEntry active (fe_seg f)) fetched in
  let '(more, kept, dropped) :=
    match loadManifest active d with
    | Ok (Some old) => local_entries d (n + 1) (MkStart (sg_HeadHash lastSeg) (sg_HeadSeq lastSeg)) (drop (length fetched) (m_Segments old))
    | _ => ([], [], [])
    end in
  (MkManifest ManifestVersion logID (entries ++ more), kept, dropped).

Definition rebuild_manifest (d : disk) (m : Manifest) (res : RebuildResult) (env : write_env) : RebuildResult * option restore_error * disk :=
  let path := ManifestPath active in
  let write res d := match writeManifest active d m (we_write env) with
                     | (Some e, d) => (res, Some (EControl e), d)
                     | (None, d) => ({ res with rb_manifestWritten := true }, None, d)
                     end in
  match content d path with
  | Some have =>
      if bool_decide (have = marshal_manifest m) then (res, None, d)
      else match moveAsideReplaced d path "segments" (we_unix env) (we_move env) with
           | (Err e, d) => (res, Some e, d)
           | (Ok name, d) => write { res with rb_ManifestReplaced := name; rb_ReplacedNames := rb_ReplacedNames res ++ [name] } d
           end
  | None => write res d
  end.

Definition rebuildWrite (d : disk) (logID : string) (fetched : list fetchedSegment) (createActive : bool) (env : rebuild_env)
  : RebuildResult * option restore_error * disk :=
  match write_segments (bd_segments env) 1 fetched zeroRebuild d with
  | (res, Some e, d) => (res, Some e, d)
  | (res, None, d) =>
      let '(m, kept, dropped) := rebuilt_manifest d logID fetched in
      match rebuild_manifest d m { res with rb_LocalOnly := kept; rb_Dropped := dropped } (bd_manifest env) with
      | (res, Some e, d) => (res, Some e, d)
      | (res, None, d) =>
          if createActive then
            match swapActive active d (bd_swap env) with
            | (Some e, d) => (res, Some (EControl e), d)
            | (None, d) => ({ res with rb_ActiveCreated := true }, None, d)
            end
          else (res, None, d)
      end
  end.

Section records.
  Context `{GoText} `{GoURL}.

Definition restore_event (e : CEvent) (s : RestoredSegment) : CEvent :=
  { e with ce_Detail := "segment " +:+ itoa (rd_N s) +:+ " restored from " +:+ match rd_Sink s with Some b => sk_Kind b | None => "" end +:+ " version " +:+ rd_VersionID s +:+ "; " +:+
      (if bool_decide (rd_Replaced s = "") then "nothing was there" else "replaced bytes kept at " +:+ rd_Replaced s) }.

(** One record for each segment restored. *)
Fixpoint restore_records (aenvs : nat -> append_env) (e : CEvent) (i : nat) (l : list RestoredSegment) (head : Head) (d : disk) : result restore_error Head * disk :=
  match l with
  | [] => (Ok head, d)
  | s :: rest =>
      match Append active (now d) (now d) (aenvs i) (restore_event e s) with
      | (Err err, d) => (Err (ERestoreRecord err), d)
      | (Ok h, d) => restore_records aenvs e (S i) rest h d
      end
  end.

Definition Restore (fuel : nat) (envs : nat -> round_env) (aenvs : nat -> append_env) (only : option (list Z)) (r : SinkReader) (e : CEvent) (d : disk)
  : list RestoredSegment * result restore_error Head * disk :=
  if negb (checkRestoreEvent e) then ([], Err ERestoreEvent, d)
  else match restore_rounds fuel envs only r 0 0 [] d with
       | (l, Some err, d) => (l, Err err, d)
       | (l, None, d) => let '(h, d) := restore_records aenvs e 0 l (MkHead "" 0) d in (l, h, d)
       end.

Definition rebuild_event (e : CEvent) (chain : fetchedChain) (res : RebuildResult) : CEvent :=
  let kind := match last (fc_segments chain) with
              | Some f => match sg_Sink (fe_seg f) with Some b => sk_Kind b | None => "" end
              | None => ""
              end in
  { e with ce_Detail := "rebuild from " +:+ kind +:+ ": " +:+ itoa (rb_Segments res) +:+ " segments verified against the sink, " +:+ itoa (rb_Written res) +:+ " written, " +:+
      itoa (rb_Replaced res) +:+ " replaced, manifest " +:+
      (if negb (bool_decide (rb_ManifestReplaced res = "")) || rb_manifestWritten res then "rewritten" else "kept") +:+
      ", active " +:+ (if rb_ActiveCreated res then "created" else "kept") }.

(** What a rebuild takes from outside: the first read's lock, the hold on the
    active (with what others did before it), the writes, the second read's
    lock, the append. *)
Record rebuild_world : Type := MkRebuildWorld {
  bw_lock : result ledger_error (); bw_gap : disk -> disk; bw_hold : hold_env; bw_env : rebuild_env; bw_after : disk -> disk; bw_lock2 : result ledger_error ();
  bw_append : append_env;
}.

(** Whether a rotation is under way, from the verdict or from the active. *)
Definition rotation_owed (d : disk) (v : View) (verr : option control_error) : result restore_error () :=
  match verr with
  | None => if bool_decide (v_State v = StateOpen) then Ok () else Err ENotRestoreMatter
  | Some (ESet _) | Some ENotExist =>
      let listed := match loadManifest active d with Ok (Some m) => Z.of_nat (length (m_Segments m)) | _ => 0 end in
      if incompleteRotation d listed then Err ENotRestoreMatter else Ok ()
  | Some e => Err (EControl e)
  end.

(** The second half: the re-read and the record. *)
Definition record_rebuild (d : disk) (world : rebuild_world) (chain : fetchedChain) (res : RebuildResult) (e : CEvent) : RebuildResult * option restore_error * disk :=
  let d := bw_after world d in
  match Read active (bw_lock2 world) d with
  | (_, Some verr) => (res, Some (ERebuilt (EControl verr)), d)
  | (v, None) =>
      if negb (bool_decide (v_State v = StateOpen)) then (res, Some (ERebuilt ENotRestoreMatter), d)
      else match Append active (now d) (now d) (bw_append world) (rebuild_event e chain res) with
           | (Err err, d) => (res, Some (ERebuilt (ERestoreRecord err)), d)
           | (Ok h, d) => ({ res with rb_Head := h }, None, d)
           end
  end.

Definition Rebuild (world : rebuild_world) (logID : string) (r : SinkReader) (e : CEvent) (d : disk) : RebuildResult * option restore_error * disk :=
  if negb (checkRestoreEvent e) then (zeroRebuild, Some ERestoreEvent, d)
  else
    let '(v, verr) := Read active (bw_lock world) d in
    match rotation_owed d v verr with
    | Err x => (zeroRebuild, Some x, d)
    | Ok _ =>
        let have := rootLogID d v in
        if is_Some_b have && negb (bool_decide (have = Some logID)) then (zeroRebuild, Some (EOtherLedger logID (default "" have)), d)
        else
          match fetchChain logID r with
          | Err x => (zeroRebuild, Some x, d)
          | Ok chain =>
              let d := bw_gap world d in
              match holdActive d (bw_hold world) with
              | Err (ELedger x) => (zeroRebuild, Some (EControl (ELedger x)), d)
              | Err ERepairRotated => (zeroRebuild, Some (EControl ERepairRotated), d)
              | held =>
                  let create := negb (match held with Ok _ => true | Err _ => false end) in
                  let '(res, err, d) := rebuildWrite (sweepTemps active d) logID (fc_segments chain) create (bw_env world) in
                  let res := { res with rb_Segments := Z.of_nat (length (fc_segments chain)); rb_UnderLocked := fc_underLocked chain; rb_MarkerOnly := fc_markerOnly chain } in
                  match err with
                  | Some x => (res, Some x, d)
                  | None => record_rebuild d world chain res e
                  end
              end
          end
    end.
End records.
End restore.
