(* ===== verification/RestoreSound.v ===== *)
(** * What a restore establishes

    A copy the fetch accepts is one the reader accepts in its place; a restore
    can only bring back the bytes the chain commits to, whatever the sink
    holds; and it ends. *)
From S2P Require Import Prelude Sha256 GoStr Json Paths Ledger Config Origin Event ControlRecord Manifest Segments SegmentSet SegmentSound SegmentOps ControlLedger ControlHistory Restore.

(** ** A fetched copy *)
Lemma scan_to_last o f pre l r : seal_index 0 l = None -> scan_seal o f pre (l ++ [r]) = scan_seal o f (pre ++ l) [r].
Proof.
  assert (Hi : forall i, seal_index i l = None -> forall pre, scan_seal o f pre (l ++ [r]) = scan_seal o f (pre ++ l) [r]); [|intros Hs; by apply (Hi 0%nat)].
  induction l as [|x l IH]; intros i Hs pre'; [by rewrite app_nil_r|]. cbn [seal_index app scan_seal] in *.
  destruct (decodeRecord x) as [rec|].
  - destruct (is_seal rec); [done|]. rewrite (IH _ Hs). by rewrite <- app_assoc.
  - rewrite (IH _ Hs). by rewrite <- app_assoc.
Qed.

(** What the fetch accepted. *)
Record fetched_ok (data : string) (k : Z) (start : Start) (key : string) (seg : Segment) (recs : list string) (rec : record) : Prop := {
  fo_verified : VerifyReader (MkReader data false) start = (recs, MkHead (sg_HeadHash seg) (sg_Records seg), None);
  fo_scan : scan_seal k (StartBase start + 1) [] recs = Seals rec;
  fo_bytes : str_len (bytes_of recs) = str_len data;
  fo_seg : exists block, r_Seal rec = Some block /\ sk_Key <$> sl_Sink block = Some key /\
    seg = MkSegment k "" (StartBase start + 1) (StartBase start + sg_Records seg) (sg_HeadHash seg) (sha256_hex (bytes_of recs)) (str_len (bytes_of recs))
            (sg_Records seg) (r_Time rec) (sl_Sink block);
}.

Lemma fetched_inv data k start logID key seg recs : verifyFetchedSegment data k start logID key = Ok (seg, recs) ->
  exists rec, fetched_ok data k start key seg recs rec /\ (k = 1 -> GenesisLogID recs = Some logID).
Proof.
  unfold verifyFetchedSegment. destruct (VerifyReader _ _) as [[recs' [hash cnt]] err] eqn:Ev.
  destruct err as [[]|]; try (by repeat case_match). destruct recs' as [|r0 rs0] eqn:Er; [done|]. rewrite <- Er in *.
  assert (Hne : recs' <> []) by (by rewrite Er). clear Er. cbn zeta.
  destruct (if k =? 1 then _ else _) as [e|] eqn:Eg; [done|]. destruct (seal_index 0 (removelast recs')) as [[]|] eqn:Ei; [done|].
  destruct (decodeRecord _) as [rec|] eqn:Ed; [|done]. destruct (r_Seal rec) as [s|] eqn:Es; [|done].
  destruct (is_seal rec) eqn:Eis; [|done]. cbn [negb]. destruct (sealChainFieldsAgree _ _) eqn:Eagree; [|done]. cbn [negb].
  destruct (sl_Sink s) as [block|] eqn:Eb; [|done]. case_bool_decide as Ekey; [|done]. cbn [negb].
  destruct (After _ _) eqn:Eafter; [|done]. cbn [negb]. unfold segmentDigests. destruct (Z.eqb_spec (str_len (bytes_of recs')) (str_len data)) as [Esize|]; [|done].
  cbn [negb Count Hash]. intros [= <- <-]. exists rec. split; [split|].
  - exact Ev.
  - destruct recs' as [|x l _] using rev_ind; [done|]. rewrite removelast_last in *. rewrite last_snoc in Ed. cbn [default] in Ed. unfold id in Ed. rewrite scan_to_last by done. cbn [app scan_seal]. rewrite Ed, Eis.
    rewrite Es, Eagree. cbn [negb]. unfold retain_bad. rewrite Es, Eb, Eafter. done.
  - done.
  - exists s. rewrite Eb. cbn. rewrite Ekey. done.
  - intros ->. cbn in Eg. destruct (GenesisLogID recs'); [|done]. case_bool_decide; [by subst|done].
Qed.

Definition with_path (seg : Segment) (path : string) : Segment :=
  MkSegment (sg_N seg) path (sg_FirstSeq seg) (sg_HeadSeq seg) (sg_HeadHash seg) (sg_SHA256 seg) (sg_Bytes seg) (sg_Records seg) (sg_SealedAt seg) (sg_Sink seg).

(** The fetch and the reader agree.  A copy the fetch accepts as segment
    [k] is, in its place and with the manifest entry computed from it, a
    segment the reader accepts, with the same records and figures; provided
    its seal bears a time, which the reader asks for and the fetch does not. *)
Theorem fetched_segment_reads (a data : string) (k : Z) (start : Start) (logID key : string) (seg : Segment) (recs : list string) (d : disk)
    (Hf : verifyFetchedSegment data k start logID key = Ok (seg, recs)) (Ht : IsZero (sg_SealedAt seg) = false)
    (Hd : content d (SegmentPath a k) = Some data) :
  verifySealed a d k start (manifestEntry a seg) = (Ok (with_path seg (SegmentPath a k)), recs).
Proof.
  destruct (fetched_inv _ _ _ _ _ _ _ Hf) as (rec & [Hv Hs Hb (block & Hseal & _ & Hseg)] & _).
  unfold verifySealed. rewrite Hd, Hv. unfold segmentDigests. rewrite Hs. rewrite Hseg in Ht. cbn [sg_SealedAt] in Ht. rewrite Ht.
  assert (entry_disagrees start (MkHead (sg_HeadHash seg) (sg_Records seg)) (sha256_hex (bytes_of recs)) (str_len (bytes_of recs)) (str_len data) (manifestEntry a seg) = None) as ->.
  { rewrite Hseg. unfold entry_disagrees, manifestEntry. cbn. rewrite Hb, !Z.eqb_refl, !bool_decide_true by done. done. }
  rewrite Hseal. f_equal. f_equal. rewrite Hseg at 3. unfold with_path. rewrite Hseg. cbn. by rewrite Hb.
Qed.

(** ** Selection *)
Lemma select_version_sound r key bound k start logID next vs i chained data seg ver j c :
  select_version r key bound k start logID next vs i chained = Ok (Some (data, seg, ver, j), c) ->
  (exists recs, verifyFetchedSegment data k start logID key = Ok (seg, recs)) /\ (next <> "" -> sg_HeadHash seg = next) /\
  exists n, sr_Get r key (sv_ID ver) n = Ok data.
Proof.
  revert i chained. induction vs as [|x vs IH]; intros i chained; cbn [select_version]; [done|].
  destruct (sr_Get _ _ _ _) as [b|] eqn:Eget; [|done]. destruct (verifyFetchedSegment b k start logID key) as [[s recs]|] eqn:Ev; [|by apply IH].
  destruct (negb (bool_decide (next = "")) && negb (bool_decide (sg_HeadHash s = next))) eqn:E; [by apply IH|].
  intros [= <- <- <- <- <-]. split; [by exists recs|]. split; [|by eexists]. intros Hne. rewrite bool_decide_false in E by done. cbn in E. apply negb_false_iff in E.
  by apply bool_decide_eq_true in E.
Qed.

(** The records the fetch accepts after [rs] are determined by the head they
    lead to. *)
Lemma fetched_determined data k rs seg logID key s recs : linked "" (rs ++ seg) ->
  verifyFetchedSegment data k (start_of rs) logID key = Ok (s, recs) -> sg_HeadHash s = head_hash (rs ++ seg) ->
  data = bytes_of recs /\ (recs = seg \/ collision_in (rs ++ recs) (rs ++ seg)).
Proof.
  intros Hl Hf Hh. destruct (fetched_inv _ _ _ _ _ _ _ Hf) as (rec & [Hv _ _ _] & _).
  pose proof (VerifyReader_linked _ _ _ _ Hv) as [Hlr Hhead]. cbn [start_of StartPrev] in *. rewrite end_of_head in Hhead. injection Hhead as Hhash _.
  assert (linked "" (rs ++ recs)) as Hl2.
  { apply linked_app in Hl as [Hrs _]. apply linked_app. split; [done|]. exact Hlr. }
  split.
  - unfold VerifyReader in Hv. rewrite start_of_valid in Hv. cbn [negb] in Hv. destruct (loadChain _ _) as [rs' h' est sm er] eqn:El.
    cbn in Hv. injection Hv as -> _ ->. by apply loadChain_sound in El as [-> _].
  - destruct (linked_commits _ _ Hl2 Hl) as [E|Hc]; [congruence| |by right]. left. by apply app_inv_head in E.
Qed.

(** ** The write *)
Section damage.
  Context (a : string).

Lemma replace_segment_content d k data env name d' : replace_segment a d k data env = (Ok name, d') -> content d' (SegmentPath a k) = Some data.
Proof.
  unfold replace_segment. destruct (if is_Some_b _ then _ else _) as [[n|] d1]; [|done].
  unfold writeRestored. destruct (we_write env); cbn [Replace]; [|done|done]. intros [= _ <-].
  unfold content. cbn. by rewrite lookup_insert_eq; cbn; rewrite file_created.
Qed.

(** ** Reading a damaged set *)

(** [d] is [d0] but for segment [k]'s name and its file. *)
Record damaged (d0 d : disk) (k : Z) : Prop := {
  dm_names : forall name, set_name a name -> name <> SegmentPath a k -> dk_names d !! name = dk_names d0 !! name;
  dm_files : forall name, set_name a name -> name <> SegmentPath a k -> content d name = content d0 name;
}.

Definition remove_name (d : disk) (name : string) : disk := MkDisk (delete name (dk_names d)) (dk_files d) (dk_next d).

Lemma removed_damaged d k : damaged d (remove_name d (SegmentPath a k)) k.
Proof. split; intros name _ Hne; unfold content; cbn; by rewrite lookup_delete_ne. Qed.

Lemma walk_entries_app d k es1 es2 w :
  walk_entries a d k (es1 ++ es2) w = match walk_entries a d k es1 w with
                                      | (w', None) => walk_entries a d (k + zlen es1) es2 w'
                                      | r => r
                                      end.
Proof.
  revert k w. induction es1 as [|e es1 IH]; intros k w; cbn [app walk_entries].
  - by rewrite Z.add_0_r.
  - destruct (verifySealed _ _ _ _ _) as [[seg|err] recs]; [|done]. rewrite IH.
    replace (k + 1 + zlen es1) with (k + zlen (e :: es1)) by (unfold zlen; cbn; lia). done.
Qed.

Lemma segments_of_app rs k l1 l2 : segments_of a rs k (l1 ++ l2) = segments_of a rs k l1 ++ segments_of a (rs ++ concat l1) (k + zlen l1) l2.
Proof.
  revert rs k. induction l1 as [|seg l1 IH]; intros rs k; cbn [app segments_of concat].
  - by rewrite app_nil_r, Z.add_0_r.
  - rewrite IH, app_assoc. do 3 f_equal. unfold zlen. cbn [length]. lia.
Qed.

Lemma walk_sealed_mono d k es w : (length (v_Sealed (w_v w)) <= length (v_Sealed (w_v (walk_entries a d k es w).1)))%nat.
Proof.
  revert k w. induction es as [|e es IH]; intros k w; cbn [walk_entries]; [done|].
  destruct (verifySealed _ _ _ _ _) as [[seg|err] recs]; [|done]. etrans; [|apply IH]. cbn. rewrite length_app. lia.
Qed.

Lemma readActive_sealed d ino w : v_Sealed (readActive a d ino w).1 = v_Sealed (w_v w).
Proof.
  unfold readActive, finishActive, identityCheck. destruct (listSiblings a d); [|done]. destruct (w_m w).
  - repeat case_match; simplify_eq; done.
  - repeat case_match; simplify_eq; done.
Qed.

Lemma damaged_read d0 d ino id l1 seg l2 act v verr :
  repr a d0 ino id (l1 ++ seg :: l2) act "" StateOpen -> damaged d0 d (zlen l1 + 1) ->
  Read a (Ok ()) d = (v, Some verr) -> length (v_Sealed v) = length l1 ->
  v_Sealed v = segments_of a [] 1 l1 /\ v_LogID v = id.
Proof.
  intros Hr Hd. pose proof (rep_count Hr) as Hcnt. rewrite zlen_app in Hcnt. pose proof (zlen_nonneg l1).
  assert (zlen (seg :: l2) = zlen l2 + 1) as Hz2 by (unfold zlen; cbn; lia). pose proof (zlen_nonneg l2).
  unfold Read. rewrite (dm_names _ _ _ Hd) by (auto with control || apply not_eq_sym, segment_not_active). rewrite (rep_active Hr).
  pose proof (rep_manifest Hr) as Hm. unfold manifest_repr in Hm. destruct (l1 ++ seg :: l2) as [|s0 ss] eqn:El; [by destruct l1|]. rewrite <- El in *.
  destruct Hm as (j & m & Hj & _ & Hp & [Hl Hg] & Hid).
  assert (loadManifest a d = Ok (Some m)) as Hload.
  { unfold loadManifest. rewrite (dm_files _ _ _ Hd) by (auto with control || apply not_eq_sym, segment_not_manifest). unfold content. rewrite Hj. cbn. by rewrite Hp. }
  unfold walkSealed. rewrite Hload, Hl, segments_of_app, map_app, walk_entries_app. rewrite walk_entries_ok with (rs := []); [..|done].
  2: { intros i s Hi. assert (i < length l1)%nat by (by eapply lookup_lt_Some). rewrite (dm_files _ _ _ Hd); [|auto with control|].
       - destruct (rep_segs Hr i s) as (ji & Hn & Hf & _); [rewrite lookup_app_l by done; done|]. unfold content. replace (1 + Z.of_nat i) with (Z.of_nat i + 1) by lia.
         rewrite Hn. cbn. by rewrite Hf.
       - intros E. apply SegmentPath_inj in E; unfold two64, zlen in *; lia. }
  2: { pose proof (rep_chain Hr) as Hc. rewrite concat_app, <- app_assoc in Hc. cbn [app]. by apply lchain_split in Hc as [? _]. }
  2: { pose proof (rep_seals Hr) as Hs. clear -Hs. revert Hs. generalize (@nil string) 1. induction l1 as [|x l1 IH]; intros rs k; [done|]. cbn. intros [? ?]. eauto. }
  cbn [segments_of map walk_entries app]. set (w1 := MkWalk _ _ _).
  destruct (verifySealed a d _ _ _) as [[sg|err] recs] eqn:Ev.
  - destruct (walk_entries a d _ _ (add_segment w1 sg recs)) as [w2 e2] eqn:Ew. intros Hv Hlen. exfalso.
    pose proof (walk_sealed_mono d (1 + zlen (map (manifestEntry a) (segments_of a [] 1 l1)) + 1) (map (manifestEntry a) (segments_of a (concat l1 ++ seg) (1 + zlen l1 + 1) l2)) (add_segment w1 sg recs)) as Hmono.
    rewrite Ew in Hmono. cbn in Hmono. rewrite length_app, segments_of_length in Hmono. cbn in Hmono.
    destruct e2 as [e2|]; [injection Hv as <- <-; lia|]. pose proof (readActive_sealed d ino w2) as Hs. rewrite Hv in Hs. cbn in Hs. rewrite Hs in Hlen. lia.
  - intros [= <- <-] _. cbn. split; [done|]. exact Hid.
Qed.
End damage.

Lemma restore_start_of a v l1 : v_Sealed v = segments_of a [] 1 l1 -> restore_start v (zlen l1 + 1) = start_of (concat l1).
Proof.
  intros Hv. unfold restore_start. rewrite Hv. destruct l1 as [|x l1 _] using rev_ind; [done|]. rewrite zlen_snoc. pose proof (zlen_nonneg l1).
  rewrite (proj2 (Z.leb_le _ _)) by lia. replace (Z.to_nat (zlen l1 + 1 + 1 - 2)) with (length (segments_of a [] 1 l1)) by (rewrite segments_of_length; unfold zlen; lia).
  rewrite segments_of_snoc, app_nth2, Nat.sub_diag by lia. cbn. unfold start_of. by rewrite concat_snoc.
Qed.

Lemma restorable_inv a d v verr k m : restorable a d v verr = Ok (k, m) ->
  exists se, verr = ESet se /\ se_Segment se = k /\ loadManifest a d = Ok (Some m) /\ Z.of_nat (length (v_Sealed v)) = k - 1.
Proof.
  unfold restorable. destruct verr as [se| | | | | | | | | | | | | | | | | | | | | | | | | | |]; try done.
  destruct (match se_Fault se with FaultActiveMissing => true | _ => _ end); [done|]. destruct (se_Segment se =? 0); [done|].
  assert (Hm : match loadManifest a d with
               | Err e => Err (EControl e)
               | Ok None => Err (EControl (ESet se))
               | Ok (Some m0) => if (Z.of_nat (length (m_Segments m0)) <? se_Segment se) || negb (Z.of_nat (length (v_Sealed v)) =? se_Segment se - 1)
                                 then Err (EControl (ESet se)) else Ok (se_Segment se, m0)
               end = Ok (k, m) -> exists se0, ESet se = ESet se0 /\ se_Segment se0 = k /\ loadManifest a d = Ok (Some m) /\ Z.of_nat (length (v_Sealed v)) = k - 1).
  { destruct (loadManifest a d) as [[m0|]|]; try done. destruct (_ || _) eqn:E; [done|]. intros [= <- <-]. exists se. bool_prop. split_and!; try done; lia. }
  destruct (se_Fault se); try done; exact Hm.
Qed.

Lemma choose_copy_sound a d v m k verr r data out : choose_copy a d v m k verr r = Ok (data, out) ->
  exists s recs, verifyFetchedSegment data k (restore_start v k) (v_LogID v) (seg_key r (v_LogID v) k) = Ok (s, recs) /\
    (firstPrev d (next_path a m k) <> "" -> sg_HeadHash s = firstPrev d (next_path a m k)) /\
    exists n, sr_Get r (seg_key r (v_LogID v) k) (rd_VersionID out) n = Ok data.
Proof.
  unfold choose_copy. destruct (sr_ListVersions _ _) as [kv|]; [|done]. destruct (select_version _ _ _ _ _ _ _ _ _ _) as [[[[[[b s] ver] i]|] c]|] eqn:Es; try done.
  apply select_version_sound in Es as ([recs Hv] & Hn & Hg). destruct (sr_GetRetention _ _ _); [|done]. intros [= <- <-]. by exists s, recs.
Qed.

Lemma segs_ok_in rs k l1 seg l2 : segs_ok rs k (l1 ++ seg :: l2) -> sealed_by (rs ++ concat l1) (k + zlen l1) seg.
Proof.
  revert rs k. induction l1 as [|x l1 IH]; intros rs k; cbn [app segs_ok concat].
  - intros [Hs _]. by rewrite app_nil_r, Z.add_0_r.
  - intros [_ Hs]. apply IH in Hs. rewrite app_assoc. by replace (k + zlen (x :: l1)) with (k + 1 + zlen l1) by (unfold zlen; cbn; lia).
Qed.

(** C11: a restore brings back the original bytes, whatever the sink serves.
    Take a set whose segment [k] was lost or altered and whose next record
    still names the digest of [k]'s last.  If restoring [k] succeeds, under any
    sink and whatever other processes did meanwhile, the file under the
    segment's name holds the bytes the sink served for the version reported,
    they are the lines [recs] of a segment the fetch accepts in that place,
    and [recs] are exactly the lines the set had; or else the lines served and
    the lines lost hold, at one place of the two chains, two different lines
    with one SHA-256. *)
Theorem restore_is_authentic (a : string) (d0 d d' d2 : disk) (ino : nat) (id : string) (l1 : list (list string)) (seg : list string) (l2 : list (list string))
    (act : list string) (v : View) (verr : control_error) (m : Manifest) (r : SinkReader) (hold : hold_env) (env : write_env) (out : RestoredSegment)
    (Hr : repr a d0 ino id (l1 ++ seg :: l2) act "" StateOpen) (Hd : damaged a d0 d (zlen l1 + 1))
    (Hread : Read a (Ok ()) d = (v, Some verr)) (Hm : restorable a d v verr = Ok (zlen l1 + 1, m))
    (Hnext : firstPrev d (next_path a m (zlen l1 + 1)) = head_hash (concat l1 ++ seg))
    (Hres : restoreSegment a d d' v m (zlen l1 + 1) verr r hold env = (Ok out, d2)) :
  exists s recs n,
    content d2 (SegmentPath a (zlen l1 + 1)) = Some (bytes_of recs) /\
    sr_Get r (seg_key r id (zlen l1 + 1)) (rd_VersionID out) n = Ok (bytes_of recs) /\
    verifyFetchedSegment (bytes_of recs) (zlen l1 + 1) (start_of (concat l1)) id (seg_key r id (zlen l1 + 1)) = Ok (s, recs) /\
    (recs = seg \/ collision_in (concat l1 ++ recs) (concat l1 ++ seg)).
Proof.
  destruct (restorable_inv _ _ _ _ _ _ Hm) as (se & _ & _ & _ & Hlen).
  destruct (damaged_read a d0 d ino id l1 seg l2 act v verr Hr Hd Hread) as [Hsealed Hid]; [unfold zlen in Hlen; lia|].
  unfold restoreSegment in Hres. destruct (choose_copy _ _ _ _ _ _ _) as [[data out0]|] eqn:Ec; [|done].
  apply choose_copy_sound in Ec as (s & recs & Hv & Hh & n & Hg). rewrite (restore_start_of a v l1 Hsealed), Hid in Hv. rewrite Hid in Hg. rewrite Hnext in Hh.
  destruct (holdActive _ _ _); [|done]. destruct (replace_segment _ _ _ _ _) as [[name|] d3] eqn:Ew; [|done]. injection Hres as <- <-.
  rewrite (replace_segment_content a _ _ _ _ _ _ Ew).
  assert (linked "" (concat l1 ++ seg)) as Hlink.
  { pose proof (rep_chain Hr) as (_ & _ & est & sm & Hc & _). apply chain_linked in Hc. rewrite concat_app in Hc. cbn [concat] in Hc. rewrite <- !app_assoc in Hc.
    rewrite app_assoc in Hc. by apply linked_app in Hc as [? _]. }
  destruct (fetched_determined data _ _ _ _ _ _ _ Hlink Hv) as [-> Hseg]; [|by exists s, recs, n].
  apply Hh. pose proof (segs_ok_in _ _ _ _ _ (rep_seals Hr)) as Hne%sealed_nonempty.
  intros E. pose proof (head_hash_shape (concat l1 ++ seg)) as Hsh. rewrite E in Hsh. assert (concat l1 ++ seg <> []) by (by destruct (concat l1)). by specialize (Hsh ltac:(done)).
Qed.

(** ** The rounds end

    Each round restores a higher segment than the one before, so as many rounds
    as a manifest can list, and one more that finds the set clean, are enough
    whatever other processes do in between. *)
Lemma restorable_listed a d v verr k m : restorable a d v verr = Ok (k, m) -> k <= Z.of_nat (length (m_Segments m)).
Proof.
  unfold restorable. destruct verr as [se| | | | | | | | | | | | | | | | | | | | | | | | | | |]; try done.
  destruct (match se_Fault se with FaultActiveMissing => true | _ => _ end); [done|]. destruct (se_Segment se =? 0); [done|].
  destruct (loadManifest a d) as [[m0|]|]; try (by case_match).
  destruct (_ || _) eqn:E; [by case_match|]. bool_prop. destruct (se_Fault se); try done; intros [= <- <-]; lia.
Qed.

Lemma restore_segment_number a d d' v m k verr r hold env out d2 : restoreSegment a d d' v m k verr r hold env = (Ok out, d2) -> rd_N out = k.
Proof.
  unfold restoreSegment. destruct (choose_copy _ _ _ _ _ _ _) as [[data o]|] eqn:Ec; [|done].
  destruct (holdActive _ _ _); [|done]. destruct (replace_segment _ _ _ _ _) as [[]]; [|done]. intros [= <- _]. cbn.
  unfold choose_copy in Ec. destruct (sr_ListVersions _ _); [|done]. destruct (select_version _ _ _ _ _ _ _ _ _ _) as [[[[[[]]]|]]|]; try done.
  destruct (sr_GetRetention _ _ _); [|done]. by injection Ec as _ <-.
Qed.

(** No step but the rounds themselves runs out of rounds. *)
Lemma restore_segment_error a d d' v m k verr r hold env e d2 : restoreSegment a d d' v m k verr r hold env = (Err e, d2) -> e <> EFuel.
Proof.
  assert (Hsel : forall key bound start logID next vs i c x, select_version r key bound k start logID next vs i c = Err x -> x <> EFuel).
  { intros key bound start logID next vs. induction vs as [|y vs IH]; intros i c x; cbn; [done|]. destruct (sr_Get _ _ _ _); [|by intros [= <-]].
    destruct (verifyFetchedSegment _ _ _ _ _) as [[]|]; [|by apply IH]. destruct (_ && _); [by apply IH|done]. }
  unfold restoreSegment. destruct (choose_copy _ _ _ _ _ _ _) as [[data o]|x] eqn:Ec.
  - destruct (holdActive _ _ _); [|by intros [= <- _]]. destruct (replace_segment _ _ _ _ _) as [[|x] d3] eqn:Ew; [done|]. intros [= <- _].
    unfold replace_segment, moveAsideReplaced in Ew. by repeat (case_match; simplify_eq).
  - intros [= <- _]. unfold choose_copy in Ec. destruct (sr_ListVersions _ _); [|by injection Ec as <-].
    destruct (select_version _ _ _ _ _ _ _ _ _ _) as [[[[[[]]]|] c]|x'] eqn:Es.
    + destruct (sr_GetRetention _ _ _); [done|by injection Ec as <-].
    + injection Ec as <-. by destruct (0 <? c).
    + injection Ec as <-. by eapply Hsel.
Qed.

(** The segments restored from [last] on, each above the one before. *)
Definition ascending (last : Z) (l : list RestoredSegment) : Prop := Sorted Z.lt (last :: map rd_N l).

Definition listings_below (a : string) (envs : nat -> round_env) (n : Z) : Prop :=
  forall j d m, loadManifest a (ro_before (envs j) d) = Ok (Some m) -> Z.of_nat (length (m_Segments m)) <= n.

Lemma rounds_spec a fuel envs only r n i last acc d : listings_below a envs n -> n - last < Z.of_nat fuel -> last <= n ->
  exists l err d', restore_rounds a fuel envs only r i last acc d = (acc ++ l, err, d') /\ err <> Some EFuel /\ ascending last l.
Proof.
  intros Hn. revert i last acc d. induction fuel as [|f IH]; intros i last acc d Hf Hl; cbn [restore_rounds]; [lia|].
  assert (Hstop : forall err (d' : disk), err <> Some EFuel -> exists l e d'', (acc, err, d') = (acc ++ l, e, d'') /\ e <> Some EFuel /\ ascending last l).
  { intros err d' He. exists [], err, d'. rewrite app_nil_r. split_and!; [done..|]. by repeat constructor. }
  destruct (Read a _ _) as [v [verr|]]; [|repeat case_match; by apply Hstop].
  destruct (restorable _ _ _ _) as [[k m]|e] eqn:Er; [|apply Hstop; unfold restorable in Er; by repeat (case_match; simplify_eq)].
  destruct (Z.leb_spec k last); [by apply Hstop|]. destruct (incompleteRotation _ _ _); [by apply Hstop|].
  destruct (outside _ _ _ _) as [e|] eqn:Eo; [apply Hstop; unfold outside in Eo; by repeat (case_match; simplify_eq)|].
  pose proof (restorable_listed _ _ _ _ _ _ Er) as Hk. destruct (restorable_inv _ _ _ _ _ _ Er) as (_ & _ & _ & Hm & _). apply Hn in Hm.
  destruct (restoreSegment _ _ _ _ _ _ _ _ _ _) as [[out|e] d2] eqn:Es.
  - destruct (IH (S i) k (acc ++ [out]) d2) as (l & err & d' & E & He & Ha); [lia..|]. exists (out :: l), err, d'.
    rewrite E, <- app_assoc. split_and!; [done..|]. unfold ascending in *. cbn [map]. rewrite (restore_segment_number _ _ _ _ _ _ _ _ _ _ _ _ Es).
    constructor; [done|]. by constructor.
  - apply Hstop. intros [= ->]. by eapply restore_segment_error.
Qed.

(** A restore ends.  Where no manifest it meets lists more than [n]
    segments, [n + 1] rounds decide it whatever the sink answers and whatever
    other processes do between its rounds: it never runs out of rounds, and it
    restores each segment at most once, in ascending order. *)
Theorem restore_ends (a : string) (envs : nat -> round_env) (only : option (list Z)) (r : SinkReader) (n : nat) (d : disk)
    (Hn : listings_below a envs (Z.of_nat n)) :
  exists l err d', restore_rounds a (S n) envs only r 0 0 [] d = (l, err, d') /\ err <> Some EFuel /\ ascending 0 l.
Proof. destruct (rounds_spec a (S n) envs only r (Z.of_nat n) 0 0 [] d Hn) as (l & err & d' & E & Hx); [lia..|]. by exists l, err, d'. Qed.

(** ** A concrete set with one segment in a sink, and its first segment lost *)
Definition rx_text : GoText := {| is_print := fun z => 32 <=? z; quote := fun s => s |}.
Definition rx_url : GoURL := {| parse_url := fun _ => Some (MkURL "https" "h" false "" false "" "/b") |}.
#[local] Existing Instance rx_text.
#[local] Existing Instance rx_url.

Definition rx_id : string := "30313233343536373839616263646566".
Definition rx_key : string := "p/" +:+ rx_id +:+ "/seg-000001".
Definition rx_locate (id : string) (n : Z) : SealSink := MkSink "s3" "https://h/b" ("p/" +:+ id +:+ "/seg-" +:+ pad6 n) "compliance" "2030-01-01T00:00:00Z".
Definition rx_writer : SinkWriter :=
  MkSinkWriter "s3" "https://h/b" (fun _ => None) (fun id n _ => rx_locate id n) (fun _ _ _ => Ok (MkReceipt "v1" "2030-01-01T00:00:00Z" false)).

Definition rx_one : disk := (Append ex_name (now ex_created) (now ex_created) ex_aenv ex_apply).2.
Definition rx_line : string := line_at [] ex_aenv ex_apply.
Definition rx_sealing : CEvent := sealing [] [rx_line] (Some (rx_locate rx_id 1)) ex_seal.
Definition rx_seal_line : string := line_at [rx_line] ex_aenv rx_sealing.
Definition rx_seg : list string := [rx_line; rx_seal_line].
Definition rx_sealed : disk := (Append ex_name (now rx_one) (now rx_one) ex_aenv rx_sealing).2.
Definition rx_rotated : disk := (CompleteSeal ex_name (now rx_sealed) (now rx_sealed) ex_renv (Some rx_writer)).2.
Definition rx_full : disk := (Append ex_name (now rx_rotated) (now rx_rotated) ex_aenv ex_apply).2.
Definition rx_next : string := line_at rx_seg ex_aenv ex_apply.
Definition rx_lost : disk := remove_name rx_full (SegmentPath ex_name 1).

Lemma rx_apply_ok : event_ok ex_aenv ex_apply.
Proof. event_ok_tac. Qed.

Lemma rx_one_repr : repr ex_name rx_one 0 "" [] [rx_line] "" StateOpen.
Proof.
  apply (append_done ex_name ex_created 0 "" [] [] ex_aenv ex_apply (MkHead (sha256_hex rx_line) 1) rx_one (fresh_created _ _ ex_fresh) ltac:(reflexivity) rx_apply_ok);
    vm_compute; reflexivity.
Qed.

Lemma rx_sealing_ok : event_ok ex_aenv rx_sealing.
Proof. split; vm_compute; first [reflexivity | exact I | split; reflexivity | split; discriminate | idtac]. all: repeat split; try discriminate; try reflexivity. Qed.

Lemma rx_sealed_repr : repr ex_name rx_sealed 0 "" [] rx_seg "" StateSealedNotRotated.
Proof.
  apply (append_done ex_name rx_one 0 "" [] [rx_line] ex_aenv rx_sealing (MkHead (sha256_hex rx_seal_line) 2) rx_sealed rx_one_repr);
    [vm_compute; reflexivity|exact rx_sealing_ok|vm_compute; reflexivity|vm_compute; reflexivity].
Qed.

Lemma rx_full_repr : exists ino id, repr ex_name rx_full ino id [rx_seg] [rx_next] "" StateOpen.
Proof.
  assert (E : is_ok (CompleteSeal ex_name (now rx_sealed) (now rx_sealed) ex_renv (Some rx_writer)).1 = true) by (vm_compute; reflexivity).
  destruct (CompleteSeal ex_name (now rx_sealed) (now rx_sealed) ex_renv (Some rx_writer)) as [[res|] d'] eqn:Ec; [|done].
  destruct (complete_done ex_name rx_sealed 0 "" [] rx_seg ex_renv (Some rx_writer) res d' ltac:(reflexivity) ltac:(reflexivity) rx_sealed_repr Ec) as (ino & id & Hr).
  exists ino, id. assert (d' = rx_rotated) as -> by (unfold rx_rotated; by rewrite Ec). clear Ec.
  assert (Ea : is_ok (Append ex_name (now rx_rotated) (now rx_rotated) ex_aenv ex_apply).1 = true) by (vm_compute; reflexivity).
  destruct (Append ex_name (now rx_rotated) (now rx_rotated) ex_aenv ex_apply) as [[h|] d'] eqn:Eap; [|done].
  assert (d' = rx_full) as -> by (unfold rx_full; by rewrite Eap).
  apply (append_done ex_name rx_rotated ino id [rx_seg] [] ex_aenv ex_apply h rx_full Hr ltac:(reflexivity) rx_apply_ok ltac:(vm_compute; reflexivity) Eap).
Qed.

Definition rx_versions : KeyVersions := MkKeyVersions rx_key [MkVersion "v1" true 1 ""] false.
Definition rx_reader : SinkReader :=
  MkSinkReader (fun id => "p/" +:+ id +:+ "/") (fun _ => Ok rx_versions) (fun _ => Ok [rx_versions]) (fun _ _ => Ok (MkRetention "COMPLIANCE" "2030-01-01T00:00:00Z"))
    (fun _ _ _ => Ok (bytes_of rx_seg)).
Definition ok_or {E A : Type} (x : A) (r : result E A) : A := match r with Ok y => y | Err _ => x end.
Definition rx_copy : Segment := fst (ok_or (zeroSegment, []) (verifyFetchedSegment (bytes_of rx_seg) 1 zeroStart rx_id rx_key)).

Lemma fetched_segment_reads_witness :
  verifySealed ex_name rx_full 1 zeroStart (manifestEntry ex_name rx_copy) = (Ok (with_path rx_copy (SegmentPath ex_name 1)), rx_seg).
Proof.
  apply (fetched_segment_reads ex_name (bytes_of rx_seg) 1 zeroStart rx_id rx_key rx_copy rx_seg rx_full); vm_compute; reflexivity.
Defined.

Definition rx_read : View * option control_error := Read ex_name (Ok ()) rx_lost.
Definition rx_verr : control_error := default EIO rx_read.2.
Definition rx_manifest : Manifest := default (MkManifest "" "" []) (ok_or None (loadManifest ex_name rx_lost)).
Definition rx_hold : hold_env := MkHoldEnv (Ok ()) false.
Definition rx_write : write_env := MkWriteEnv 77 MoveOk RepOk.
Definition rx_restored : result restore_error RestoredSegment * disk :=
  restoreSegment ex_name rx_lost rx_lost rx_read.1 rx_manifest 1 rx_verr rx_reader rx_hold rx_write.
Definition rx_out : RestoredSegment := ok_or (MkRestored 0 None "" "" "" false false false) rx_restored.1.

Lemma restore_is_authentic_witness :
  exists s recs n,
    content rx_restored.2 (SegmentPath ex_name 1) = Some (bytes_of recs) /\
    sr_Get rx_reader (seg_key rx_reader rx_id 1) (rd_VersionID rx_out) n = Ok (bytes_of recs) /\
    verifyFetchedSegment (bytes_of recs) 1 zeroStart rx_id (seg_key rx_reader rx_id 1) = Ok (s, recs) /\
    (recs = rx_seg \/ collision_in ([] ++ recs) ([] ++ rx_seg)).
Proof.
  destruct rx_full_repr as (ino & id & Hr).
  assert (id = rx_id) as ->.
  { pose proof (rep_manifest Hr) as (j & m & _ & _ & _ & [_ Hg] & Hid). rewrite Hid in Hg.
    assert (E : GenesisLogID rx_seg = Some rx_id) by (vm_compute; reflexivity). cbn [concat] in Hg. rewrite app_nil_r in Hg. congruence. }
  apply (restore_is_authentic ex_name rx_full rx_lost rx_lost rx_restored.2 ino rx_id [] rx_seg [] [rx_next] rx_read.1 rx_verr rx_manifest rx_reader rx_hold rx_write rx_out Hr (removed_damaged _ _ _));
    vm_compute; reflexivity.
Defined.

Definition rx_rounds : nat -> round_env := fun _ => MkRound (fun _ => rx_lost) (Ok ()) (fun d => d) rx_hold rx_write.

Lemma restore_ends_witness :
  exists l err d', restore_rounds ex_name 2 rx_rounds None rx_reader 0 0 [] rx_lost = (l, err, d') /\ err <> Some EFuel /\ ascending 0 l.
Proof.
  refine (restore_ends ex_name rx_rounds None rx_reader 1 rx_lost _). intros j d m Hm.
  assert (E : Z.of_nat (length (m_Segments rx_manifest)) <= 1) by (vm_compute; discriminate).
  unfold rx_manifest in E. cbn [rx_rounds ro_before] in Hm. by rewrite Hm in E.
Defined.
