(* ===== verification/Rebuilt.v ===== *)
(** * Rebuilding a lost control ledger

    A set was kept in a directory and its sealed segments were copied to a
    sink; the directory is lost.  [Rebuild] into an empty one fetches every
    copy, writes the segments, recomputes the manifest and creates the active:
    the sealed set is what it was, and one record says so. *)
From S2P Require Import Prelude Sha256 GoStr Json Paths Ledger Config Origin Event ControlRecord Manifest Segments SegmentSet SegmentSound SegmentOps ControlLedger ControlHistory Restore RestoreSound.

(** ** What the fetch brings back *)
Lemma scan_seals_inv o f seg rec : scan_seal o f [] seg = Seals rec ->
  exists l r s, seg = l ++ [r] /\ seal_index 0 l = None /\ decodeRecord r = Some rec /\ is_seal rec = true /\ r_Seal rec = Some s /\
    sealChainFieldsAgree (Some s) (MkSeal o f (r_Seq rec - 1) (r_Prev rec) (sealContentDigest l) None) = true /\ retain_bad rec = false.
Proof.
  assert (Hi : forall i pre, scan_seal o f pre seg = Seals rec -> exists l r s, seg = l ++ [r] /\ seal_index i l = None /\ decodeRecord r = Some rec /\
    is_seal rec = true /\ r_Seal rec = Some s /\
    sealChainFieldsAgree (Some s) (MkSeal o f (r_Seq rec - 1) (r_Prev rec) (sealContentDigest (pre ++ l)) None) = true /\ retain_bad rec = false);
    [|by apply (Hi 0%nat [])].
  induction seg as [|x seg IH]; intros i pre; cbn [scan_seal]; [done|].
  assert (Hrec : scan_seal o f (pre ++ [x]) seg = Seals rec -> seal_index i [x] = None -> exists l r s, x :: seg = l ++ [r] /\ seal_index i l = None /\
    decodeRecord r = Some rec /\ is_seal rec = true /\ r_Seal rec = Some s /\
    sealChainFieldsAgree (Some s) (MkSeal o f (r_Seq rec - 1) (r_Prev rec) (sealContentDigest (pre ++ l)) None) = true /\ retain_bad rec = false).
  { intros Hs Hx. destruct (IH (S i) _ Hs) as (l & r & s & -> & Hl & Hrest). exists (x :: l), r, s. rewrite <- app_assoc in Hrest. split; [done|]. split; [|done].
    cbn [seal_index] in *. destruct (decodeRecord x) as [rx|]; [|done]. by destruct (is_seal rx). }
  cbn [seal_index] in Hrec. destruct (decodeRecord x) as [rx|] eqn:Hd; [|auto]. destruct (is_seal rx) eqn:Hse; [|auto]. clear Hrec. destruct seg; [|done].
  destruct (sealChainFieldsAgree _ _) eqn:Ha; [|done]. cbn [negb]. destruct (retain_bad rx) eqn:Hrb; [done|]. intros [= <-].
  destruct (r_Seal rx) as [s|] eqn:Hs; [|done]. exists [], x, s. rewrite app_nil_r. by split_and!.
Qed.

Lemma zlen_pos {A} (l : list A) : l <> [] -> 1 <= zlen l.
Proof. destruct l; [done|]. unfold zlen. cbn. lia. Qed.

Section rebuilt.
  Context (a : string).

Definition without_path (s : Segment) : Segment := with_path s "".

Definition fetched_of (rs : list string) (k : Z) (seg : list string) : fetchedSegment := MkFetched (bytes_of seg) (without_path (segment_of a rs k seg)).

Fixpoint all_fetched (rs : list string) (k : Z) (segs : list (list string)) : list fetchedSegment :=
  match segs with
  | [] => []
  | seg :: r => fetched_of rs k seg :: all_fetched (rs ++ seg) (k + 1) r
  end.

(** The block that names a segment's protected copy. *)
Definition sink_block (seg : list string) : option SealSink := match r_Seal (seal_record seg) with Some s => sl_Sink s | None => None end.

Lemma fetch_ok rs k seg logID key : lchain (rs ++ seg) -> sealed_by rs k seg -> sk_Key <$> sink_block seg = Some key -> (k = 1 -> GenesisLogID seg = Some logID) ->
  verifyFetchedSegment (bytes_of seg) k (start_of rs) logID key = Ok (without_path (segment_of a rs k seg), seg).
Proof.
  intros Hc (Hs & _ & _) Hk Hg. unfold verifyFetchedSegment. rewrite (segment_verifies _ _ Hc). cbn zeta.
  destruct (scan_seals_inv _ _ _ _ Hs) as (l & r & s & E & Hi & Hd & Hse & Hsl & Ha & Hrb).
  assert ((if k =? 1 then match GenesisLogID seg with None => Some NoGenesis | Some id => if bool_decide (id = logID) then None else Some (OtherGenesis id) end
           else None) = None) as ->.
  { destruct (Z.eqb_spec k 1) as [Ek|]; [|done]. rewrite (Hg Ek), bool_decide_true by done. done. }
  assert (removelast seg = l) as -> by (rewrite E; apply removelast_last). assert (last seg = Some r) as -> by (by rewrite E, last_snoc).
  unfold sink_block in Hk. unfold retain_bad in Hrb. rewrite Hsl in Hk, Hrb. destruct (sl_Sink s) as [b|] eqn:Hb; [|done]. cbn in Hk. injection Hk as Hk.
  cbn [default]. unfold id. rewrite Hi, Hd, Hsl, Hse. change (StartBase (start_of rs)) with (zlen rs). rewrite Ha, Hb, Hk, bool_decide_true by done.
  rewrite Hrb. cbn [negb]. unfold segmentDigests. rewrite Z.eqb_refl. cbn [negb Count Hash]. destruct seg as [|x seg]; [by destruct l|].
  do 2 f_equal. unfold without_path, with_path, segment_of. cbn [sg_N sg_FirstSeq sg_HeadSeq sg_HeadHash sg_SHA256 sg_Bytes sg_Records sg_SealedAt sg_Sink].
  rewrite Hsl, Hb, zlen_app. done.
Qed.

(** ** A sink that holds the set *)

(** The sink lists exactly the keys of [segs], each with its oldest version
    the segment's bytes under a lock that can be read; each segment's seal
    names its key. *)
Record sink_holds (r : SinkReader) (logID : string) (held : Z -> KeyVersions) (segs : list (list string)) : Prop := {
  si_listed : exists listed, sr_ListPrefix r (sr_Prefix r logID) = Ok listed /\ forall kv, kv ∈ listed <-> exists k, 1 <= k <= zlen segs /\ kv = held k;
  si_key : forall k, 1 <= k <= zlen segs -> kv_Key (held k) = seg_key r logID k;
  si_copy : forall i seg, segs !! i = Some seg -> exists ver vs lock, kv_Versions (held (Z.of_nat i + 1)) = ver :: vs /\
    sr_Get r (seg_key r logID (Z.of_nat i + 1)) (sv_ID ver) maxRestoreBody = Ok (bytes_of seg) /\
    sr_GetRetention r (seg_key r logID (Z.of_nat i + 1)) (sv_ID ver) = Ok lock;
  si_block : forall i seg, segs !! i = Some seg -> sk_Key <$> sink_block seg = Some (seg_key r logID (Z.of_nat i + 1));
}.

Lemma key_matches r logID k : 0 <= k <= 999999 -> sinkSegmentKeyRE (trim_prefix (seg_key r logID k) (sr_Prefix r logID)) = Some k.
Proof.
  intros Hk. unfold trim_prefix, seg_key. rewrite cut_prefix_app. pose proof (segment_name_matches k Hk) as Hm. unfold segmentNameRE in Hm.
  rewrite cut_prefix_app in Hm. unfold sinkSegmentKeyRE. by rewrite cut_prefix_app.
Qed.

Section fetched.
  Context (r : SinkReader) (logID : string) (held : Z -> KeyVersions) (segs : list (list string)) (Hh : sink_holds r logID held segs) (Hn : zlen segs < 999999).

Lemma held_versions k : 1 <= k <= zlen segs -> exists ver vs, kv_Versions (held k) = ver :: vs.
Proof.
  intros Hk. assert (Z.to_nat (k - 1) < length segs)%nat as Hl by (unfold zlen in Hk; lia). apply lookup_lt_is_Some in Hl as [seg Hs].
  destruct (si_copy _ _ _ _ Hh _ _ Hs) as (ver & vs & _ & Hv & _). exists ver, vs. by replace (Z.of_nat (Z.to_nat (k - 1)) + 1) with k in Hv by lia.
Qed.

Lemma by_ordinal_held l acc : (forall kv, kv ∈ l -> exists k, 1 <= k <= zlen segs /\ kv = held k) ->
  (forall k kv, acc !! k = Some kv -> 1 <= k <= zlen segs /\ kv = held k) ->
  exists acc', by_ordinal (sr_Prefix r logID) l acc [] = Ok (acc', []) /\
    (forall k kv, acc' !! k = Some kv -> 1 <= k <= zlen segs /\ kv = held k) /\ (forall k, is_Some (acc !! k) \/ held k ∈ l /\ 1 <= k <= zlen segs -> is_Some (acc' !! k)).
Proof.
  revert acc. induction l as [|kv l IH]; intros acc Hl Ha; cbn [by_ordinal].
  { exists acc. split_and!; [done|done|]. intros k [Hk|[Hk _]]; [done|by apply elem_of_nil in Hk]. }
  destruct (Hl kv) as (k & Hk & ->); [left|]. rewrite (si_key _ _ _ _ Hh k Hk), key_matches by lia. cbn [default]. unfold id.
  rewrite (proj2 (Z.eqb_neq _ _)) by lia. destruct (held_versions k Hk) as (ver & vs & ->).
  destruct (IH (<[k := held k]> acc)) as (acc' & E & H1 & H2).
  - intros kv Hkv. apply Hl. by right.
  - intros k' kv. rewrite lookup_insert_Some. intros [[-> <-]|[_ Hk']]; [done|by apply Ha].
  - exists acc'. split_and!; [done|done|]. intros k' Hk'. apply H2. destruct (decide (k' = k)) as [->|Hne]; [left; rewrite lookup_insert_eq; by eexists|].
    rewrite lookup_insert_ne by done. destruct Hk' as [Hk'|[[E'|Hk']%elem_of_cons Hb]]; [by left| |by right].
    exfalso. apply Hne. pose proof (si_key _ _ _ _ Hh k' Hb) as H3. rewrite E', (si_key _ _ _ _ Hh k Hk) in H3.
    apply (f_equal (fun s => sinkSegmentKeyRE (trim_prefix s (sr_Prefix r logID)))) in H3. rewrite !key_matches in H3 by lia. by injection H3.
Qed.

Lemma foldr_max_spec (l : list Z) n : n ∈ l -> 0 <= n -> (forall k, k ∈ l -> k <= n) -> foldr Z.max 0 l = n.
Proof.
  intros Hin Hn0 Hle. apply Z.le_antisymm.
  - clear Hin. induction l as [|k l IH]; cbn; [done|]. apply Z.max_lub; [apply Hle; by left|]. apply IH. intros k' Hk'. apply Hle. by right.
  - clear Hle. induction Hin; cbn; lia.
Qed.

Lemma highest_held acc : segs <> [] -> (forall k kv, acc !! k = Some kv -> 1 <= k <= zlen segs /\ kv = held k) ->
  (forall k, 1 <= k <= zlen segs -> is_Some (acc !! k)) -> highest acc = zlen segs.
Proof.
  intros Hne H1 H2. pose proof (zlen_pos segs Hne). apply foldr_max_spec; [|lia|].
  - destruct (H2 (zlen segs)) as [kv Hkv]; [lia|]. apply list_elem_of_fmap. exists (zlen segs, kv). split; [done|]. by apply elem_of_map_to_list.
  - intros k (x & -> & Hx)%list_elem_of_fmap. destruct x as [k kv]. apply elem_of_map_to_list in Hx. cbn. destruct (H1 _ _ Hx) as [? _]. lia.
Qed.

Lemma fetch_segments_held acc done_ rest under f : segs = done_ ++ rest -> (forall k, 1 <= k <= zlen segs -> acc !! k = Some (held k)) ->
  lchain (concat segs) -> segs_ok [] 1 segs -> GenesisLogID (concat segs) = Some logID ->
  exists under', fetch_segments r logID acc (map Z.of_nat (seq (S (length done_)) (length rest))) (start_of (concat done_)) f under
    = Ok (f ++ all_fetched (concat done_) (zlen done_ + 1) rest, under').
Proof.
  intros E Hacc Hc Hs Hg. revert done_ E f under. induction rest as [|seg rest IH]; intros done_ E f under; cbn [seq map fetch_segments all_fetched length].
  { exists under. by rewrite app_nil_r. }
  assert (Hi : segs !! length done_ = Some seg) by (rewrite E; by apply list_lookup_middle).
  assert (Hb : 1 <= Z.of_nat (S (length done_)) <= zlen segs) by (rewrite E; unfold zlen; rewrite length_app; cbn; lia).
  rewrite (Hacc _ Hb). destruct (si_copy _ _ _ _ Hh _ _ Hi) as (ver & vs & lock & Hv & Hget & Hlock). pose proof (si_block _ _ _ _ Hh _ _ Hi) as Hkey.
  replace (Z.of_nat (length done_) + 1) with (Z.of_nat (S (length done_))) in * by lia. rewrite Hv, (si_key _ _ _ _ Hh _ Hb), Hget.
  assert (Hsb : sealed_by (concat done_) (Z.of_nat (S (length done_))) seg).
  { rewrite E in Hs. apply segs_ok_in in Hs. cbn in Hs. unfold zlen in Hs. by replace (1 + Z.of_nat (length done_)) with (Z.of_nat (S (length done_))) in Hs by lia. }
  rewrite (fetch_ok _ _ _ _ _); [|..|exact Hsb|exact Hkey|].
  - rewrite Hlock. match goal with |- context [fetch_segments _ _ _ _ _ _ ?u] => destruct (IH (done_ ++ [seg])) with (f := f ++ [fetched_of (concat done_) (zlen done_ + 1) seg]) (under := u) as [under' IH'] end.
    + by rewrite <- app_assoc.
    + exists under'. rewrite length_app, concat_snoc, zlen_snoc, <- app_assoc in IH'. cbn [length] in IH'.
      replace (length done_ + 1)%nat with (S (length done_)) in IH' by lia.
      unfold fetched_of at 1 in IH'. unfold start_of in IH' |- *. cbn [without_path with_path segment_of sg_HeadHash sg_HeadSeq].
      replace (zlen done_ + 1) with (Z.of_nat (S (length done_))) in * by (unfold zlen; lia). exact IH'.
  - rewrite E in Hc. rewrite concat_app in Hc. cbn [concat] in Hc. rewrite app_assoc in Hc. by apply lchain_split in Hc as [? _].
  - intros Hk. destruct done_; [|cbn in Hk; lia]. rewrite E in Hg. cbn in Hg. destruct seg as [|x seg]; [|done].
    by apply sealed_nonempty in Hsb.
Qed.

Lemma fetchChain_held : segs <> [] -> lchain (concat segs) -> segs_ok [] 1 segs -> GenesisLogID (concat segs) = Some logID ->
  exists under, fetchChain logID r = Ok (MkFetchedChain (all_fetched [] 1 segs) under []).
Proof.
  intros Hne Hc Hs Hg. unfold fetchChain. destruct (si_listed _ _ _ _ Hh) as (listed & -> & Hl).
  destruct (by_ordinal_held listed ∅) as (acc & -> & H1 & H2); [intros kv; apply Hl|done|].
  assert (H3 : forall k, 1 <= k <= zlen segs -> acc !! k = Some (held k)).
  { intros k Hk. destruct (H2 k) as [kv Hkv]; [right; split; [|done]; apply Hl; by exists k|]. rewrite Hkv. by destruct (H1 _ _ Hkv) as [_ ->]. }
  pose proof (zlen_pos segs Hne).
  rewrite bool_decide_false by (intros E; specialize (H3 1 ltac:(lia)); by rewrite E in H3).
  rewrite (highest_held acc Hne H1) by (intros k Hk; rewrite H3 by done; by eexists). rewrite find_none_all.
  - unfold ordinals. destruct (fetch_segments_held acc [] segs [] [] eq_refl H3 Hc Hs Hg) as [under E]. unfold zlen at 1. rewrite Nat2Z.id. cbn in E. cbn.
    change zeroStart with (start_of []). rewrite E. by exists under.
  - intros k Hk. unfold ordinals in Hk. apply list_elem_of_fmap in Hk as (i & -> & Hi). apply elem_of_seq in Hi. unfold zlen in Hi.
    rewrite H3 by (unfold zlen; lia). done.
Qed.
End fetched.

(** ** What the writes leave *)

(** The segment files and nothing else of the set. *)
Record written (d : disk) (segs : list (list string)) : Prop := {
  wr_active : dk_names d !! a = None;
  wr_manifest : dk_names d !! ManifestPath a = None;
  wr_segs : forall i seg, segs !! i = Some seg -> exists j, dk_names d !! SegmentPath a (Z.of_nat i + 1) = Some j /\ file_of d j = bytes_of seg;
  wr_siblings : forall name, is_Some (dk_names d !! name) -> has_prefix name (a +:+ ".seg-") = true -> exists k, name = SegmentPath a k /\ 1 <= k <= zlen segs;
  wr_next : forall name j, dk_names d !! name = Some j -> (j < dk_next d)%nat;
}.

Lemma fresh_written d : fresh a d -> written d [].
Proof. intros [H1 H2 H3 H4]. split; try done. intros name Hn Hp. by rewrite (H3 name Hn) in Hp. Qed.

Lemma fresh_sweep d : fresh a d -> fresh a (sweepTemps a d).
Proof.
  intros [H1 H2 H3 H4]. assert (Hs : forall name j, dk_names (sweepTemps a d) !! name = Some j -> dk_names d !! name = Some j).
  { intros name j Hj. cbn in Hj. by apply map_lookup_filter_Some in Hj as [? _]. }
  split.
  - destruct (dk_names (sweepTemps a d) !! a) eqn:E; [|done]. apply Hs in E. congruence.
  - destruct (dk_names (sweepTemps a d) !! ManifestPath a) eqn:E; [|done]. apply Hs in E. congruence.
  - intros name [j Hj]. apply H3. exists j. by apply Hs.
  - intros name j Hj. apply (H4 name). by apply Hs.
Qed.

Lemma written_next d segs : written d segs -> zlen segs < 999999 -> dk_names d !! SegmentPath a (zlen segs + 1) = None.
Proof.
  intros Hw Hn. destruct (dk_names d !! SegmentPath a (zlen segs + 1)) eqn:E; [|done]. pose proof (zlen_nonneg segs).
  destruct (wr_siblings _ _ Hw (SegmentPath a (zlen segs + 1))) as (k & Ek & Hk); [by eexists|apply segment_prefix|].
  apply SegmentPath_inj in Ek; unfold two64; lia.
Qed.

Lemma written_snoc d segs seg : written d segs -> zlen segs < 999999 -> written (create_file d (SegmentPath a (zlen segs + 1)) (bytes_of seg)) (segs ++ [seg]).
Proof.
  intros Hw Hn. pose proof (zlen_nonneg segs). pose proof (written_next d segs Hw Hn) as Hnone. split.
  - cbn. rewrite lookup_insert_ne by apply segment_not_active. apply (wr_active _ _ Hw).
  - cbn. rewrite lookup_insert_ne by apply segment_not_manifest. apply (wr_manifest _ _ Hw).
  - intros i s Hi. apply lookup_snoc_Some in Hi as [[Hl Hi]|[-> ->]].
    + destruct (wr_segs _ _ Hw i s Hi) as (j & Hj & Hf). exists j. cbn. rewrite lookup_insert_ne by congruence.
      split; [done|]. rewrite file_create; [done|]. pose proof (wr_next _ _ Hw _ _ Hj). lia.
    + exists (dk_next d). cbn. unfold zlen. rewrite lookup_insert_eq. split; [done|]. apply file_created.
  - intros name Hs Hp. rewrite zlen_snoc. cbn in Hs. destruct (decide (name = SegmentPath a (zlen segs + 1))) as [->|Hne]; [exists (zlen segs + 1); split; [done|lia]|].
    rewrite lookup_insert_ne in Hs by done. destruct (wr_siblings _ _ Hw name Hs Hp) as (k & -> & Hk). exists k. split; [done|lia].
  - apply next_create, (wr_next _ _ Hw).
Qed.

Lemma write_segments_ok envs done_ rest res d : written d done_ -> zlen (done_ ++ rest) < 999999 -> (forall k, we_write (envs k) = RepOk) ->
  exists d', write_segments a envs (zlen done_ + 1) (all_fetched (concat done_) (zlen done_ + 1) rest) res d
    = ({ res with rb_Written := rb_Written res + zlen rest }, None, d') /\ written d' (done_ ++ rest).
Proof.
  intros Hw Hn He. revert done_ res d Hw Hn. induction rest as [|seg rest IH]; intros done_ res d Hw Hn; cbn [all_fetched write_segments].
  { exists d. rewrite app_nil_r. split; [|done]. destruct res. cbn. by rewrite Z.add_0_r. }
  rewrite zlen_app in Hn. assert (zlen (seg :: rest) = zlen rest + 1) as Hz by (unfold zlen; cbn; lia). pose proof (zlen_nonneg rest).
  unfold write_segment, content. rewrite (written_next d done_ Hw) by lia. cbn [fmap option_fmap option_map]. unfold writeRestored. rewrite He. cbn [Replace fetched_of fe_data].
  destruct (IH (done_ ++ [seg]) { res with rb_Written := rb_Written res + 1 } (create_file d (SegmentPath a (zlen done_ + 1)) (bytes_of seg))) as (d' & E & Hw').
  - apply written_snoc; [done|lia].
  - rewrite !zlen_app. rewrite Hz in Hn. unfold zlen in *. cbn. lia.
  - rewrite concat_snoc, zlen_snoc in E. exists d'. rewrite E, <- app_assoc in *. split; [|done]. destruct res as [x w]. cbn. unfold constant. rewrite Hz. by replace (w + 1 + zlen rest) with (w + (zlen rest + 1)) by lia.
Qed.

(** The manifest and the active over the written segments make the set. *)
Lemma written_repr d segs id m : written d segs -> segs <> [] -> zlen segs < 999999 -> lchain (concat segs) -> str_len (bytes_of (concat segs)) < max_int64 -> segs_ok [] 1 segs ->
  ParseManifest a (marshal_manifest m) = Ok m -> lists a m segs -> m_LogID m = id ->
  repr a (create_file (create_file d (ManifestPath a) (marshal_manifest m)) a "") (S (dk_next d)) id segs [] "" StateOpen.
Proof.
  intros Hw Hne Hn Hc Hb Hs Hp Hl Hid. set (d1 := create_file d (ManifestPath a) (marshal_manifest m)).
  assert (Hnext : forall name j, dk_names d1 !! name = Some j -> (j < dk_next d1)%nat) by apply next_create, (wr_next _ _ Hw).
  split; rewrite ?app_nil_r; try done.
  - cbn. by rewrite lookup_insert_eq.
  - change (S (dk_next d)) with (dk_next d1). by rewrite file_created.
  - intros i seg Hi. destruct (wr_segs _ _ Hw i seg Hi) as (j & Hj & Hf). exists j. pose proof (wr_next _ _ Hw _ _ Hj). cbn.
    rewrite lookup_insert_ne by (apply not_eq_sym, segment_not_active). rewrite lookup_insert_ne by (apply not_eq_sym, segment_not_manifest).
    split; [done|]. rewrite file_create by (cbn; lia). unfold d1. rewrite file_create by lia. split; [done|]. intros ->. lia.
  - unfold manifest_repr. destruct segs; [done|]. exists (dk_next d), m. cbn. rewrite lookup_insert_ne by (apply not_eq_sym, manifest_not_active). rewrite lookup_insert_eq.
    rewrite file_create by (cbn; lia). unfold d1. rewrite file_created. split_and!; [done|lia|done|done|done].
  - intros name Hnm Hpre. cbn in Hnm. rewrite lookup_insert_ne in Hnm by (intros <-; by rewrite active_not_sibling in Hpre).
    rewrite lookup_insert_ne in Hnm by (intros <-; by rewrite manifest_not_sibling in Hpre). destruct (wr_siblings _ _ Hw name Hnm Hpre) as (k & -> & Hk).
    exists k. split; [done|]. by left.
  - by apply next_create.
Qed.

(** ** The rebuild *)
Section record.
  Context `{GoText} `{GoURL}.

(** The disk, the lock and the clock answer, and nobody else is there. *)
Record answering (world : rebuild_world) : Prop := {
  an_lock : bw_lock2 world = Ok ();
  an_alone : (forall d, bw_gap world d = d) /\ (forall d, bw_after world d = d);
  an_writes : (forall k, we_write (bd_segments (bw_env world) k) = RepOk) /\ we_write (bd_manifest (bw_env world)) = RepOk /\ bd_swap (bw_env world) = RepOk;
  an_append : ae_write (bw_append world) = WriteOk /\ is_Some (ae_random (bw_append world));
}.

(** What a rebuild of [segs] into an empty directory reports, but for the head
    and the locks. *)
Definition recovered (segs : list (list string)) : RebuildResult :=
  { zeroRebuild with rb_Segments := zlen segs; rb_Written := zlen segs; rb_manifestWritten := true; rb_ActiveCreated := true }.

Definition recovery_event (e : CEvent) (segs : list (list string)) : CEvent := rebuild_event e (MkFetchedChain (all_fetched [] 1 segs) [] []) (recovered segs).

Lemma all_fetched_entries rs k segs : map (fun f => manifestEntry a (fe_seg f)) (all_fetched rs k segs) = map (manifestEntry a) (segments_of a rs k segs).
Proof. revert rs k. induction segs as [|seg segs IH]; intros rs k; [done|]. cbn [all_fetched segments_of map]. by rewrite IH. Qed.

Lemma all_fetched_length rs k segs : length (all_fetched rs k segs) = length segs.
Proof. revert rs k. induction segs as [|seg segs IH]; intros rs k; cbn; [done|]. by rewrite IH. Qed.

Lemma rebuilt_manifest_ok d ino id segs act frag st logID : valid_utf8 a = true -> repr a d ino id segs act frag st -> segs <> [] ->
  GenesisLogID (concat segs) = Some logID ->
  let m := MkManifest ManifestVersion logID (map (manifestEntry a) (segments_of a [] 1 segs)) in
  ParseManifest a (marshal_manifest m) = Ok m /\ lists a m segs.
Proof.
  intros Ha Hr Hne Hg m. pose proof (rep_count Hr). destruct (entries_ok a [] 1 segs Ha (rep_seals Hr)) as [He1 He2]; [lia|lia| |].
  - pose proof (rep_bytes Hr) as Hb. rewrite bytes_of_app, str_len_app in Hb. assert (0 <= str_len (bytes_of act)) by (unfold str_len; lia). cbn [app]. lia.
  - split; [|by split]. apply parse_written; [done|by eapply genesis_shape| |done|done]. cbn. by destruct segs.
Qed.

Lemma rebuildWrite_ok d0 ino id segs act frag st d env : valid_utf8 a = true -> repr a d0 ino id segs act frag st -> segs <> [] -> GenesisLogID (concat segs) = Some id -> fresh a d ->
  (forall k, we_write (bd_segments env k) = RepOk) /\ we_write (bd_manifest env) = RepOk /\ bd_swap env = RepOk ->
  exists d', rebuildWrite a d id (all_fetched [] 1 segs) true env = ({ recovered segs with rb_Segments := 0 }, None, d') /\ exists ino', repr a d' ino' id segs [] "" StateOpen.
Proof.
  intros Ha Hr Hne Hg Hd (Hw & Hm & Hs). pose proof (rep_count Hr) as Hn.
  destruct (write_segments_ok (bd_segments env) [] segs zeroRebuild d (fresh_written d Hd) Hn Hw) as (d1 & E1 & Hw1). cbn [zlen length concat app] in E1, Hw1.
  change (zlen [] + 1) with 1 in E1. unfold rebuildWrite. rewrite E1. unfold rebuilt_manifest, loadManifest, content. rewrite (wr_manifest _ _ Hw1). cbn [fmap option_fmap option_map].
  rewrite app_nil_r, all_fetched_entries. destruct (rebuilt_manifest_ok d0 ino id segs act frag st id Ha Hr Hne Hg) as [Hp Hl]. cbn zeta in Hp, Hl.
  unfold rebuild_manifest, content. rewrite (wr_manifest _ _ Hw1). cbn [fmap option_fmap option_map]. unfold writeManifest. rewrite Hp, Hm. cbn [Replace].
  unfold swapActive. rewrite Hs. cbn [Replace]. eexists. split; [reflexivity|]. eexists. apply written_repr; try done.
  - pose proof (rep_chain Hr) as Hc. by apply lchain_split in Hc as [? _].
  - pose proof (rep_bytes Hr) as Hb. rewrite bytes_of_app, str_len_app in Hb. assert (0 <= str_len (bytes_of act)) by (unfold str_len; lia). lia.
  - exact (rep_seals Hr).
Qed.

Lemma fresh_read d lock : fresh a d -> Read a lock d = (zeroView, Some ENotExist).
Proof. intros Hf. unfold Read. by rewrite (fr_active _ _ Hf), (fresh_no_history a d Hf). Qed.

Lemma fresh_manifest d : fresh a d -> loadManifest a d = Ok None.
Proof. intros Hf. unfold loadManifest, content. by rewrite (fr_manifest _ _ Hf). Qed.

Lemma fresh_root d : fresh a d -> rootLogID a d zeroView = None.
Proof.
  intros Hf. unfold rootLogID. cbn. rewrite (fresh_manifest d Hf). unfold content. destruct (dk_names d !! SegmentPath a 1) eqn:E; [|done].
  pose proof (fr_siblings _ _ Hf (SegmentPath a 1) (mk_is_Some _ _ E)) as Hp. by rewrite segment_prefix in Hp.
Qed.

Lemma fresh_rotation d : fresh a d -> rotation_owed a d zeroView (Some ENotExist) = Ok ().
Proof. intros Hf. unfold rotation_owed, incompleteRotation. by rewrite (fr_active _ _ Hf). Qed.

Lemma restore_permitted e : permit e = None -> ce_Action e = "restore" -> ce_Seal e = None /\ ce_Anchor e = None.
Proof.
  unfold permit, checkRestoreShape. intros Hp Ea. rewrite Ea, (bool_decide_true ("restore" = "restore")) in Hp by done. destruct (checkAnchorShape e), (checkSealShape e); try done. cbn in Hp.
  destruct (bool_decide (ce_Outcome e = "success")); [|done]. cbn in Hp. destruct (bool_decide (ce_ConfigHash e = "")); [|done]. cbn in Hp.
  destruct (ce_Anchor e); [done|]. by destruct (ce_Seal e).
Qed.

(** C10: a lost ledger is rebuilt from the sink.  Let the directory of a set be
    gone, the sink hold its sealed segments (in any order of listing, whatever
    newer versions or locks they have) and the new directory hold nothing of the
    set.  With the disk answering and nobody else there, [Rebuild] succeeds: the
    set reads without fault and open, its sealed segments are, figure for
    figure, those a reader of the lost directory was shown, its records are
    theirs and one more, the record of the rebuild, whose head it reports. *)
Theorem rebuild_recovers (d0 d : disk) (ino : nat) (id : string) (segs : list (list string)) (act : list string) (frag : string) (st : State)
    (world : rebuild_world) (r : SinkReader) (held : Z -> KeyVersions) (e : CEvent)
    (Ha : valid_utf8 a = true) (Hr : repr a d0 ino id segs act frag st) (Hne : segs <> []) (Hd : fresh a d) (Hsink : sink_holds r id held segs) (Hw : answering world)
    (He : checkRestoreEvent e = true) (Hp : permit (recovery_event e segs) = None) (Hok : event_ok (bw_append world) (recovery_event e segs))
    (Hroom : room (concat segs) (bw_append world) (recovery_event e segs)) :
  let line := line_at (concat segs) (bw_append world) (recovery_event e segs) in
  exists res d' v, Rebuild a world id r e d = (res, None, d') /\ Read a (Ok ()) d' = (v, None) /\ v_State v = StateOpen /\
    v_Sealed v = v_Sealed (Read a (Ok ()) d0).1 /\ shown a d' = concat segs ++ [line] /\
    rb_Written res = zlen segs /\ rb_Head res = MkHead (sha256_hex line) (zlen (concat segs) + 1).
Proof.
  intros line. destruct Hw as [Hl2 [Hgap Hafter] Hwr [Hw Hrnd]].
  assert (Hg : GenesisLogID (concat segs) = Some id).
  { pose proof (rep_manifest Hr) as Hm. unfold manifest_repr in Hm. destruct segs; [done|]. destruct Hm as (j & m & _ & _ & _ & [_ Hg] & <-). exact Hg. }
  assert (Hc : lchain (concat segs)) by (pose proof (rep_chain Hr) as Hc; by apply lchain_split in Hc as [? _]).
  destruct (fetchChain_held r id held segs Hsink (rep_count Hr) Hne Hc (rep_seals Hr) Hg) as [under Hfetch].
  destruct (rebuildWrite_ok d0 ino id segs act frag st (sweepTemps a d) (bw_env world) Ha Hr Hne Hg (fresh_sweep d Hd) Hwr) as (d1 & Ew & ino1 & Hr1).
  assert (Hev : ce_Action (recovery_event e segs) = "restore").
  { unfold checkRestoreEvent in He. apply andb_prop in He as [[He _]%andb_prop _]. apply bool_decide_eq_true in He. by destruct e. }
  destruct (restore_permitted _ Hp Hev) as [Hseal Hanchor].
  destruct (append_ok a d1 ino1 id segs [] (bw_append world) (recovery_event e segs) Hr1 Hp Hseal) as (d2 & Ea & Hr2 & _);
    rewrite ?app_nil_r; [by rewrite Hanchor|done..|]. rewrite app_nil_r in Ea, Hr2. cbn [app] in Hr2.
  unfold Rebuild. rewrite He. cbn [negb]. rewrite (fresh_read d _ Hd), (fresh_rotation d Hd), (fresh_root d Hd). cbn [is_Some_b andb]. rewrite Hfetch, Hgap.
  unfold holdActive. rewrite (fr_active _ _ Hd). cbn [negb fc_segments fc_underLocked fc_markerOnly]. rewrite Ew. unfold record_rebuild. rewrite Hafter, Hl2, (repr_clean _ _ _ _ _ _ _ Hr1).
  cbn [view_of v_State]. rewrite bool_decide_true by done. cbn [negb].
  replace (state_after (recovery_event e segs)) with StateOpen in Hr2 by (unfold state_after; by rewrite Hev).
  match goal with |- context [Append a (now d1) (now d1) _ ?ev] => replace ev with (recovery_event e segs) end.
  2: { unfold recovery_event, rebuild_event. cbn. unfold constant. rewrite all_fetched_length. done. }
  rewrite Ea. eexists _, d2, _. split; [reflexivity|]. split; [exact (repr_clean _ _ _ _ _ _ _ Hr2)|]. split_and!; [done| |exact (repr_shown _ _ _ _ _ _ _ _ Hr2)|done|done].
  rewrite (Read_repr _ _ _ _ _ _ _ _ Hr). unfold verdict. by case_bool_decide.
Qed.
End record.
End rebuilt.

(** ** The concrete set of [RestoreSound], lost *)
#[local] Existing Instance rx_text.
#[local] Existing Instance rx_url.

Definition rx_world : rebuild_world :=
  MkRebuildWorld (Ok ()) (fun d => d) rx_hold (MkRebuildEnv (fun _ => rx_write) rx_write RepOk) (fun d => d) (Ok ()) ex_aenv.
Definition rx_restore : CEvent := { zeroCEvent with ce_Action := "restore"; ce_Outcome := "success" }.

Lemma rx_identity ino id : repr ex_name rx_full ino id [rx_seg] [rx_next] "" StateOpen -> id = rx_id.
Proof.
  intros Hr. destruct (rep_manifest Hr) as (j & m & _ & _ & _ & [_ Hg] & <-). assert (GenesisLogID (concat [rx_seg]) = Some rx_id) as E by (vm_compute; reflexivity).
  rewrite E in Hg. by injection Hg.
Qed.

Lemma rx_sink_holds : sink_holds rx_reader rx_id (fun _ => rx_versions) [rx_seg].
Proof.
  assert (Hseg : forall i seg, [rx_seg] !! i = Some seg -> i = 0%nat /\ seg = rx_seg) by (intros [|i] seg Hi; [by injection Hi|done]). split.
  - exists [rx_versions]. split; [done|]. intros kv. rewrite list_elem_of_singleton. split; [intros ->; exists 1; done|by intros (k & _ & ->)].
  - intros k Hk. assert (k = 1) as -> by (unfold zlen in Hk; cbn in Hk; lia). vm_compute. reflexivity.
  - intros i seg Hi. destruct (Hseg i seg Hi) as [-> ->]. eexists _, _, _. split_and!; reflexivity.
  - intros i seg Hi. destruct (Hseg i seg Hi) as [-> ->]. vm_compute. reflexivity.
Qed.

Lemma rebuild_recovers_witness :
  let line := line_at rx_seg ex_aenv (recovery_event ex_name rx_restore [rx_seg]) in
  exists res d' v, Rebuild ex_name rx_world rx_id rx_reader rx_restore ex_empty = (res, None, d') /\ Read ex_name (Ok ()) d' = (v, None) /\ v_State v = StateOpen /\
    v_Sealed v = v_Sealed (Read ex_name (Ok ()) rx_full).1 /\ shown ex_name d' = rx_seg ++ [line] /\
    rb_Written res = 1 /\ rb_Head res = MkHead (sha256_hex line) 3.
Proof.
  destruct rx_full_repr as (ino & id & Hr). pose proof (rx_identity _ _ Hr) as ->.
  apply (rebuild_recovers ex_name rx_full ex_empty ino rx_id [rx_seg] [rx_next] "" StateOpen rx_world rx_reader (fun _ => rx_versions) rx_restore
           ltac:(reflexivity) Hr ltac:(discriminate) ex_fresh rx_sink_holds).
  - split; [done|done|done|]. split; [done|by eexists].
  - reflexivity.
  - vm_compute. reflexivity.
  - event_ok_tac.
  - vm_compute. reflexivity.
Defined.
