(* ===== verification/Snapshot.v ===== *)
(** * The installed configuration ([internal/config]: [load.go]'s enumeration,
      [hash.go], [bundle.go], [installed.go])

    A configuration is the files a fixed enumeration reads; its name is a hash
    over them (canon files/v1).  Installing one stages a copy in the store,
    renames it to its hash and flips the pointer; every read verifies the bytes
    against the pointer first.

    A directory is a map from slash-relative paths to entries.  The outcome of a
    fallible step is an argument.  YAML decoding is third-party code, a class
    parameter.  Symbolic links are what reading them gives; the store holds
    directories only under the names of snapshots. *)
From S2P Require Import Prelude Sha256 GoStr Json Paths Ledger Config Origin Event Attest.

(** ** Directories *)
Inductive dent : Type :=
  | Dir
  | File (data : option string). (* [None]: a file that cannot be read *)
#[global] Instance dent_eq_dec : EqDecision dent.
Proof. solve_decision. Defined.
Abbreviation tree := (gmap string dent).

Inductive config_error : Type :=
  | NoConfigRoot
  | ReadError (rel : string)
  | InvalidPath
  | NotBundleable (rel : string)
  | BadPointer
  | PointerUnreadable
  | HashesAs (hash got : string)
  | Corrupt (hash got : string)
  | MalformedHash (hash : string)
  | ParseError (rel : string)
  | NoRoles
  | StoreIO
  | Exists (rel : string).

(** [path.Ext]: from the last dot of the last element. *)
Fixpoint ext_rev (r acc : string) : string :=
  match r with
  | EmptyString => ""
  | String c r' => if ascii_eqb c "/" then "" else if ascii_eqb c "." then String "." acc else ext_rev r' (String c acc)
  end.
Definition Ext (s : string) : string := ext_rev (rev_str s) "".
Definition yaml_ext (name : string) : bool := bool_decide (Ext name = ".yaml") || bool_decide (Ext name = ".yml").

(** The directory [sub]'s files with a YAML extension, by name. *)
Definition yaml_name (sub : string) (kv : string * dent) : option string :=
  match cut_prefix (sub +:+ "/") kv.1 with
  | Some n => if negb (has_byte "/" n) && negb (bool_decide (n = "")) && negb (bool_decide (kv.2 = Dir)) && yaml_ext n then Some n else None
  | None => None
  end.
Definition listSub (t : tree) (sub : string) : list string :=
  match t !! sub with
  | Some Dir => map (fun n => sub +:+ "/" +:+ n) (sort_strings (omap (yaml_name sub) (map_to_list t)))
  | _ => []
  end.

Definition bundleGroups : list string := ["agents"; "workflows"; "roles"].
Definition gateway_file : string := "gateway.yaml".

Definition configFiles (root : option tree) : result config_error (list string) :=
  match root with
  | None => Err NoConfigRoot
  | Some t => Ok (concat (map (listSub t) bundleGroups) ++ (if is_Some_b (t !! gateway_file) then [gateway_file] else []))
  end.

Definition read_file (t : tree) (rel : string) : result config_error string :=
  match t !! rel with
  | Some (File (Some data)) => Ok data
  | _ => Err (ReadError rel)
  end.

(** Every file in order, the first that cannot be read ending it. *)
Fixpoint read_files (t : tree) (rels : list string) : result config_error (list (string * string)) :=
  match rels with
  | [] => Ok []
  | rel :: rest =>
      let! data := read_file t rel in
      let! more := read_files t rest in
      Ok ((rel, data) :: more)
  end.

(** ** The canon *)
Definition canon (files : list (string * string)) : string :=
  join "" (map (fun f => sha256_sum f.1 +:+ sha256_sum f.2) files).
Definition sum (files : list (string * string)) : string := "sha256:" +:+ sha256_hex (canon files).

Definition HashDir (root : option tree) : result config_error string :=
  let! rels := configFiles root in
  let! files := read_files (default ∅ root) rels in
  Ok (sum files).

(** ** Bundles *)
Definition maxBundleNameRunes : nat := 200.

(** [strings.Cut] at a slash. *)
Fixpoint cut_slash (s : string) : string * option string :=
  match s with
  | EmptyString => ("", None)
  | String c r => if ascii_eqb c "/" then ("", Some r) else let '(g, n) := cut_slash r in (String c g, n)
  end.

Abbreviation bundle := (gmap string string).

Section bundles.
  Context `{GoText}.

Definition ValidBundlePath (rel : string) : bool :=
  if bool_decide (rel = gateway_file) then true
  else match cut_slash rel with
       | (_, None) => false
       | (group, Some name) =>
           if negb (contains bundleGroups group) || bool_decide (name = "") || bool_decide (name = ".") || bool_decide (name = "..") ||
              has_byte "/" name || has_byte "\" name then false
           else if negb (yaml_ext name) then false
           else if Nat.ltb maxBundleNameRunes (rune_count name) then false
           else List.forallb (fun r => negb (r =? RuneError) && is_print r) (runes name)
       end.
Definition in_group (g rel : string) : bool := negb (bool_decide (rel = gateway_file)) && bool_decide ((cut_slash rel).1 = g).
Definition bundleOrder (files : bundle) : list string :=
  concat (map (fun g => sort_strings (List.filter (in_group g) (map fst (map_to_list files)))) bundleGroups) ++
  (if is_Some_b (files !! gateway_file) then [gateway_file] else []).

Definition entries (files : bundle) (rels : list string) : list (string * string) := map (fun rel => (rel, default "" (files !! rel))) rels.

Definition all_valid (files : bundle) : bool := List.forallb ValidBundlePath (map fst (map_to_list files)).

Definition HashFiles (files : bundle) : result config_error string :=
  if negb (all_valid files) then Err InvalidPath else Ok (sum (entries files (bundleOrder files))).

(** The loop of [ReadBundle]. *)
Fixpoint read_bundle (t : tree) (rels : list string) (acc : bundle) : result config_error bundle :=
  match rels with
  | [] => Ok acc
  | rel :: rest =>
      if negb (ValidBundlePath rel) then Err (NotBundleable rel)
      else let! data := read_file t rel in read_bundle t rest (<[rel := data]> acc)
  end.
Definition ReadBundle (root : option tree) : result config_error bundle :=
  let! rels := configFiles root in
  read_bundle (default ∅ root) rels ∅.

(** One file written under a directory, its group's directory made first;
    [excl]: the file must not be there. *)
Definition put_file (excl : bool) (t : tree) (rel data : string) : result config_error tree :=
  if excl && is_Some_b (t !! rel) then Err (Exists rel)
  else
    let t := match cut_slash rel with (g, Some _) => <[g := Dir]> t | (_, None) => t end in
    Ok (<[rel := File (Some data)]> t).

(** The files in order; [ok] says whether the system lets a file be written. *)
Fixpoint put_files (excl : bool) (ok : string -> bool) (t : tree) (files : list (string * string)) : result config_error tree :=
  match files with
  | [] => Ok t
  | (rel, data) :: rest =>
      if negb (ok rel) then Err StoreIO
      else let! t := put_file excl t rel data in put_files excl ok t rest
  end.

(** [WriteBundle]: the directory it leaves, none on failure. *)
Definition WriteBundle (root : option tree) (mkdir : bool) (ok : string -> bool) (files : bundle) : result config_error tree :=
  if negb (all_valid files) then Err InvalidPath
  else match root with
       | Some _ => Err (Exists "")
       | None => if negb mkdir then Err StoreIO else put_files true ok ∅ (entries files (bundleOrder files))
       end.

(** ** The store *)

(** The pointer file ([None] absent, [Some None] unreadable), the directories
    by name, the signature files by snapshot. *)
Record istore : Type := MkIStore { is_current : option (option string); is_dirs : gmap string tree; is_sigs : gmap string (option string) }.

Definition installedHashRE (s : string) : bool :=
  match cut_prefix "sha256:" s with Some h => lower_hex_of_len 64 h | None => false end.

(** [InstalledHash]; [Ok None] is nothing installed. *)
Definition InstalledHash (s : istore) : result config_error (option string) :=
  match is_current s with
  | None => Ok None
  | Some None => Err PointerUnreadable
  | Some (Some raw) => let hash := TrimSpace raw in if installedHashRE hash then Ok (Some hash) else Err BadPointer
  end.

Definition SnapshotDir (hash : string) : string := trim_prefix hash "sha256:".

Definition VerifyInstalled (s : istore) (hash : string) : result config_error () :=
  let! got := HashDir (is_dirs s !! SnapshotDir hash) in
  if bool_decide (got = hash) then Ok () else Err (HashesAs hash got).

Definition SnapshotBundle (s : istore) (hash : string) : result config_error bundle :=
  let! files := ReadBundle (is_dirs s !! SnapshotDir hash) in
  let! got := HashFiles files in
  if bool_decide (got = hash) then Ok files else Err (HashesAs hash got).

(** [InstalledBundle]; [Ok None] is nothing installed. *)
Definition InstalledBundle (s : istore) : result config_error (option (bundle * string)) :=
  let! installed := InstalledHash s in
  match installed with
  | None => Ok None
  | Some hash => let! files := SnapshotBundle s hash in Ok (Some (files, hash))
  end.

(** What staging takes from outside: the store made, the temp's name, the
    files written. *)
Record stage_env : Type := MkStageEnv { sg_mkdir : bool; sg_temp : option string; sg_write : string -> bool }.

Definition set_dir (s : istore) (name : string) (t : tree) : istore := MkIStore (is_current s) (<[name := t]> (is_dirs s)) (is_sigs s).
Definition remove_dir (s : istore) (name : string) : istore := MkIStore (is_current s) (delete name (is_dirs s)) (is_sigs s).

(** A staged copy, or the store as it was. *)
Definition stage (s : istore) (env : stage_env) (copy : result config_error tree) : result config_error string * istore :=
  match sg_mkdir env, sg_temp env with
  | true, Some temp =>
      match copy with
      | Err e => (Err e, s)
      | Ok t => (Ok temp, set_dir s temp t)
      end
  | _, _ => (Err StoreIO, s)
  end.

Fixpoint copy_files (ok : string -> bool) (src t : tree) (rels : list string) : result config_error tree :=
  match rels with
  | [] => Ok t
  | rel :: rest =>
      let! data := read_file src rel in
      if negb (ok rel) then Err StoreIO
      else let! t := put_file false t rel data in copy_files ok src t rest
  end.

Definition StageSnapshot (s : istore) (env : stage_env) (src : option tree) : result config_error string * istore :=
  match configFiles src with
  | Err e => (Err e, s)
  | Ok rels => stage s env (copy_files (sg_write env) (default ∅ src) ∅ rels)
  end.

Definition StageFiles (s : istore) (env : stage_env) (files : bundle) : result config_error string * istore :=
  if negb (all_valid files) then (Err InvalidPath, s) else stage s env (put_files true (sg_write env) ∅ (entries files (bundleOrder files))).

(** What a commit takes from outside: the rename, the temp's removal, the
    pointer's replacement. *)
Record commit_env : Type := MkCommitEnv { cm_rename : bool; cm_remove : bool; cm_pointer : bool }.

Definition set_pointer (s : istore) (hash : string) (ok : bool) : option config_error * istore :=
  if ok then (None, MkIStore (Some (Some (hash +:+ String newline ""))) (is_dirs s) (is_sigs s)) else (Some StoreIO, s).

(** [os.Rename] of a directory replaces an empty one and fails on any other. *)
Definition CommitSnapshot (s : istore) (temp hash : string) (env : commit_env) : option config_error * istore :=
  if negb (installedHashRE hash) then (Some (MalformedHash hash), s)
  else match is_dirs s !! temp with
       | None => (Some StoreIO, s)
       | Some t =>
           let existing := is_dirs s !! SnapshotDir hash in
           if bool_decide (default ∅ existing = ∅) then
             if cm_rename env then set_pointer (set_dir (remove_dir s temp) (SnapshotDir hash) t) hash (cm_pointer env) else (Some StoreIO, s)
           else match HashDir existing with
                | Err e => (Some e, s)
                | Ok got =>
                    if negb (bool_decide (got = hash)) then (Some (Corrupt hash got), s)
                    else if cm_remove env then set_pointer (remove_dir s temp) hash (cm_pointer env) else (Some StoreIO, s)
                end
       end.
End bundles.

(** ** Loading *)

(** yaml.v3, into each type; the gateway's is decoded in place, so a failure
    may leave something behind. *)
Class ConfigYaml := {
  yaml_agent : string -> option AgentDef;
  yaml_workflow : string -> option WorkflowDef;
  yaml_role : string -> option RoleDef;
  yaml_gateway : string -> GatewayConfig * bool;
}.

Section loading.
  Context `{ConfigYaml}.

(** [path.Dir] of an enumerated path. *)
Definition group_of (rel : string) : string := match cut_slash rel with (g, Some _) => g | (_, None) => "." end.

Definition zeroConfig : Config := MkConfig [] [] [] (MkGateway ∅ ∅ "" "" "" (MkPolicy 0 0 0 false) 0).

(** One file decoded into the configuration; [false] is a parse error. *)
Definition load_file (cfg : Config) (rel data : string) : Config * bool :=
  let g := group_of rel in
  if bool_decide (g = "agents") then
    match yaml_agent data with
    | Some x => ({ cfg with c_Agents := c_Agents cfg ++ [{ x with a_SourceFile := rel }] }, true)
    | None => (cfg, false)
    end
  else if bool_decide (g = "workflows") then
    match yaml_workflow data with
    | Some x => ({ cfg with c_Workflows := c_Workflows cfg ++ [{ x with w_SourceFile := rel }] }, true)
    | None => (cfg, false)
    end
  else if bool_decide (g = "roles") then
    match yaml_role data with
    | Some x => ({ cfg with c_Roles := c_Roles cfg ++ [{ x with r_SourceFile := rel }] }, true)
    | None => (cfg, false)
    end
  else let '(gw, ok) := yaml_gateway data in ({ cfg with c_Gateway := gw }, ok).

Fixpoint load_loop (t : tree) (keep : string -> bool) (rels : list string) (cfg : Config) (errs : list config_error) : Config * list config_error :=
  match rels with
  | [] => (cfg, errs)
  | rel :: rest =>
      if negb (keep rel) then load_loop t keep rest cfg errs
      else match read_file t rel with
           | Err e => load_loop t keep rest cfg (errs ++ [e])
           | Ok data =>
               let '(cfg, ok) := load_file cfg rel data in
               load_loop t keep rest cfg (if ok then errs else errs ++ [ParseError rel])
           end
  end.

Definition loadFiles (root : option tree) (keep : string -> bool) : Config * list config_error :=
  match configFiles root with
  | Err e => (zeroConfig, [e])
  | Ok rels => load_loop (default ∅ root) keep rels zeroConfig []
  end.
Definition LoadDir (root : option tree) : Config * list config_error := loadFiles root (fun _ => true).

(** [InstalledRoles]; [Ok None] is nothing installed. *)
Definition InstalledRoles (s : istore) : result config_error (option (list RoleDef * string)) :=
  let! installed := InstalledHash s in
  match installed with
  | None => Ok None
  | Some hash =>
      let! _ := VerifyInstalled s hash in
      let '(cfg, errs) := loadFiles (is_dirs s !! SnapshotDir hash) (fun rel => bool_decide (group_of rel = "roles")) in
      match errs with
      | e :: _ => Err e
      | [] => match c_Roles cfg with [] => Err NoRoles | roles => Ok (Some (roles, hash)) end
      end
  end.

(** [LoadInstalled]: the configuration, the pointer's hash if one was read, and
    the errors. *)
Definition LoadInstalled (s : istore) : Config * option string * list config_error :=
  match InstalledHash s with
  | Err e => (zeroConfig, None, [e])
  | Ok None => (zeroConfig, None, [])
  | Ok (Some hash) =>
      match VerifyInstalled s hash with
      | Err e => (zeroConfig, Some hash, [e])
      | Ok _ =>
          let '(cfg, errs) := loadFiles (is_dirs s !! SnapshotDir hash) (fun _ => true) in
          (cfg, Some hash, match errs, c_Roles cfg with [], [] => [NoRoles] | _, _ => errs end)
      end
  end.
End loading.
