(* ===== verification/SnapshotSound.v ===== *)
(** * What the installed configuration guarantees

    The enumeration's order does not depend on where the files come from, so a
    directory, a bundle and a staged copy of the same files have one hash; that
    hash commits to them; an install changes what is read to the new
    configuration or not at all; and bytes that were changed behind the
    store's back are refused, never read. *)
From S2P Require Import Prelude Sha256 GoStr Json Paths Ledger Config Origin Event Attest Snapshot.

(** ** Sorted names *)
Lemma string_le_app p x y : String.le x y -> String.le (p +:+ x) (p +:+ y).
Proof.
  unfold String.le. induction p as [|c p IH]; [done|]. intros Hl. rewrite !app_cons_str. specialize (IH Hl). unfold String.leb in *. cbn [String.compare].
  unfold Ascii.compare. by rewrite N.compare_refl.
Qed.

Lemma insert_sorted x l : Sorted String.le l -> Sorted String.le (insert_str x l).
Proof.
  induction 1 as [|y l Hl IH Hy]; cbn [insert_str]; [by repeat constructor|]. destruct (String.leb x y) eqn:E.
  - constructor; [by constructor|]. constructor. by apply Is_true_true.
  - constructor; [done|]. assert (String.le y x) as Hyx by (destruct (total String.le x y) as [Hle|]; [apply Is_true_true in Hle; congruence|done]).
    destruct l as [|z l]; cbn; [by constructor|]. inversion Hy; subst. destruct (String.leb x z); by constructor.
Qed.

Lemma sort_sorted l : Sorted String.le (sort_strings l).
Proof. induction l as [|x l IH]; cbn; [constructor|]. by apply insert_sorted. Qed.

Lemma map_prefix_sorted p l : Sorted String.le l -> Sorted String.le (map (fun n => p +:+ "/" +:+ n) l).
Proof.
  induction 1 as [|x l Hl IH Hx]; cbn; [constructor|]. constructor; [done|]. destruct Hx; cbn; constructor. by do 2 apply string_le_app.
Qed.

(** Two duplicate-free lists with one set of elements sort alike. *)
Lemma sorted_same l1 l2 : NoDup l1 -> NoDup l2 -> (forall x, x ∈ l1 <-> x ∈ l2) -> Sorted String.le l1 -> l1 = sort_strings l2.
Proof.
  intros H1 H2 He Hs. apply (Sorted_unique String.le); [done|apply sort_sorted|]. rewrite sort_strings_perm. by apply NoDup_Permutation.
Qed.

(** ** Paths *)
Definition enumerable (rel : string) : Prop :=
  rel = gateway_file \/ exists g n, g ∈ bundleGroups /\ rel = g +:+ "/" +:+ n /\ has_byte "/" n = false /\ n <> "" /\ yaml_ext n = true.

Lemma cut_slash_app g n : has_byte "/" g = false -> cut_slash (g +:+ "/" +:+ n) = (g, Some n).
Proof.
  induction g as [|c g IH]; intros Hg; [done|]. cbn [has_byte] in Hg. apply orb_false_iff in Hg as [Hc Hg]. rewrite app_cons_str. cbn [cut_slash].
  rewrite IH by done. destruct (ascii_eqb c "/") eqn:E; [|done]. apply ascii_eqb_true in E as ->. done.
Qed.

Lemma cut_slash_inv rel g n : cut_slash rel = (g, Some n) -> rel = g +:+ "/" +:+ n /\ has_byte "/" g = false.
Proof.
  revert g. induction rel as [|c rel IH]; intros g; cbn; [done|]. destruct (ascii_eqb c "/") eqn:E.
  - apply ascii_eqb_true in E as ->. by intros [= <- <-].
  - destruct (cut_slash rel) as [g' n']. intros [= <- ->]. destruct (IH g' eq_refl) as [-> Hg]. rewrite app_cons_str. cbn. rewrite Hg.
    split; [done|]. destruct (ascii_eqb "/" c) eqn:E2; [|done]. apply ascii_eqb_true in E2 as <-. done.
Qed.

Lemma group_no_slash g : g ∈ bundleGroups -> has_byte "/" g = false.
Proof. unfold bundleGroups. rewrite !elem_of_cons, elem_of_nil. by intros [->|[->|[->|[]]]]. Qed.

Lemma group_not_gateway g n : g ∈ bundleGroups -> g +:+ "/" +:+ n <> gateway_file.
Proof. intros Hg E. apply (f_equal cut_slash) in E. by rewrite cut_slash_app in E by (by apply group_no_slash). Qed.

Lemma in_group_path g g' n : g' ∈ bundleGroups -> in_group g (g' +:+ "/" +:+ n) = bool_decide (g' = g).
Proof. intros Hg. unfold in_group. rewrite bool_decide_false by (by apply group_not_gateway). by rewrite cut_slash_app by (by apply group_no_slash). Qed.

(** ** The enumeration *)

(** [rel] is enumerated in [t]. *)
Definition listed (t : tree) (rel : string) : Prop :=
  rel = gateway_file /\ is_Some (t !! rel) \/
  exists g n e, g ∈ bundleGroups /\ rel = g +:+ "/" +:+ n /\ has_byte "/" n = false /\ n <> "" /\ yaml_ext n = true /\ t !! g = Some Dir /\ t !! rel = Some e /\ e <> Dir.

Lemma listed_enumerable t rel : listed t rel -> enumerable rel.
Proof. intros [[-> _]|(g & n & e & Hg & -> & H1 & H2 & H3 & _)]; [by left|right]. by exists g, n. Qed.

Lemma yaml_name_spec sub kv n : yaml_name sub kv = Some n <-> kv.1 = sub +:+ "/" +:+ n /\ has_byte "/" n = false /\ n <> "" /\ kv.2 <> Dir /\ yaml_ext n = true.
Proof.
  unfold yaml_name. destruct (cut_prefix _ _) as [m|] eqn:E.
  - apply cut_prefix_Some in E. rewrite app_assoc_str in E. rewrite E. transitivity (m = n /\ has_byte "/" m = false /\ m <> "" /\ kv.2 <> Dir /\ yaml_ext m = true).
    + destruct (has_byte "/" m), (bool_decide_reflect (m = "")), (bool_decide_reflect (kv.2 = Dir)), (yaml_ext m); cbn; split; try naive_solver.
    + split; [intros (-> & ?); done|]. intros (E2 & ?). do 2 apply (inj (String.app _)) in E2. by subst.
  - split; [done|]. intros (E2 & _). rewrite E2, <- app_assoc_str, cut_prefix_app in E. done.
Qed.

Lemma names_nodup sub (l : list (string * dent)) : NoDup (map fst l) -> NoDup (omap (yaml_name sub) l).
Proof.
  induction l as [|kv l IH]; [constructor|]. cbn. intros [Hn Hl]%NoDup_cons. destruct (yaml_name sub kv) as [n|] eqn:E; [|auto].
  constructor; [|auto]. intros (kv' & Hin & E')%list_elem_of_omap. apply yaml_name_spec in E as (E & _), E' as (E' & _).
  apply Hn. rewrite E, <- E'. by apply list_elem_of_fmap_2.
Qed.

Lemma listSub_elem t sub rel : sub ∈ bundleGroups -> rel ∈ listSub t sub <-> listed t rel /\ in_group sub rel = true.
Proof.
  intros Hs. unfold listSub. split.
  - destruct (t !! sub) as [[|]|] eqn:Ed; try (by intros ?%elem_of_nil). intros (n & -> & Hn)%list_elem_of_fmap. rewrite elem_of_sort in Hn.
    apply list_elem_of_omap in Hn as ([k e] & Hk & Hy). apply elem_of_map_to_list in Hk. apply yaml_name_spec in Hy as (E & H1 & H2 & H3 & H4). cbn in E, H3. subst k.
    split; [right; by exists sub, n, e|]. by rewrite in_group_path, bool_decide_true.
  - intros [[[-> _]|(g & n & e & Hg & -> & H1 & H2 & H3 & Hd & He & Hne)] Hi]; [done|]. rewrite in_group_path in Hi by done. apply bool_decide_eq_true in Hi as ->.
    rewrite Hd. apply list_elem_of_fmap. exists n. split; [done|]. rewrite elem_of_sort. apply list_elem_of_omap. exists (sub +:+ "/" +:+ n, e).
    split; [by apply elem_of_map_to_list|]. by apply yaml_name_spec.
Qed.

Lemma listSub_nodup t sub : NoDup (listSub t sub).
Proof.
  assert (Inj (=) (=) (fun n => sub +:+ "/" +:+ n)) by (intros x y E; by do 2 apply (inj (String.app _)) in E).
  unfold listSub. destruct (t !! sub) as [[|]|]; try constructor. apply (NoDup_fmap_2 (fun n => sub +:+ "/" +:+ n)).
  rewrite sort_strings_perm. apply names_nodup. apply NoDup_fst_map_to_list.
Qed.

Lemma listSub_sorted t sub : Sorted String.le (listSub t sub).
Proof. unfold listSub. destruct (t !! sub) as [[|]|]; try constructor. apply map_prefix_sorted, sort_sorted. Qed.

Lemma filter_keys_elem (fl : bundle) g rel : rel ∈ List.filter (in_group g) (map fst (map_to_list fl)) <-> is_Some (fl !! rel) /\ in_group g rel = true.
Proof.
  rewrite list_elem_of_In, filter_In, <- list_elem_of_In. split; intros [H1 H2]; (split; [|done]).
  - apply list_elem_of_fmap in H1 as ([k d] & -> & Hk). apply elem_of_map_to_list in Hk. by exists d.
  - destruct H1 as [d Hd]. apply list_elem_of_fmap. exists (rel, d). split; [done|]. by apply elem_of_map_to_list.
Qed.

Lemma group_order t (fl : bundle) g : g ∈ bundleGroups -> (forall rel, is_Some (fl !! rel) <-> listed t rel) ->
  listSub t g = sort_strings (List.filter (in_group g) (map fst (map_to_list fl))).
Proof.
  intros Hg Hl. apply sorted_same; [apply listSub_nodup| |intros rel; by rewrite listSub_elem, filter_keys_elem, Hl|apply listSub_sorted].
  apply NoDup_ListNoDup, List.NoDup_filter, NoDup_ListNoDup, NoDup_fst_map_to_list.
Qed.

(** The enumeration of a directory is the order of the files it lists. *)
Lemma config_order t (fl : bundle) : (forall rel, is_Some (fl !! rel) <-> listed t rel) -> configFiles (Some t) = Ok (bundleOrder fl).
Proof.
  intros Hl. unfold configFiles, bundleOrder. do 2 f_equal.
  - f_equal. apply map_ext_in. intros g Hg. apply group_order; [by apply list_elem_of_In|done].
  - assert (Hg : is_Some (fl !! gateway_file) <-> is_Some (t !! gateway_file)).
    { rewrite Hl. split; [intros [[_ H]|(g & n & e & Hg & E & _)]; [done|by apply eq_sym, group_not_gateway in E]|by left]. }
    destruct (t !! gateway_file), (fl !! gateway_file); try done; exfalso; destruct Hg as [H1 H2];
      [by destruct (H2 ltac:(by eexists))|by destruct (H1 ltac:(by eexists))].
Qed.

(** ** What a directory reads as *)

(** [t] reads as the files [fl]. *)
Record reads (t : tree) (fl : bundle) : Prop := {
  rd_listed : forall rel, is_Some (fl !! rel) <-> listed t rel;
  rd_bytes : forall rel data, fl !! rel = Some data -> t !! rel = Some (File (Some data));
}.

Definition canonical (fl : bundle) : list (string * string) := entries fl (bundleOrder fl).

Lemma reads_enumerable t fl rel : reads t fl -> is_Some (fl !! rel) -> enumerable rel.
Proof. intros Hr Hs. apply (rd_listed _ _ Hr) in Hs. by eapply listed_enumerable. Qed.

Lemma order_elem (fl : bundle) rel : (forall rel, is_Some (fl !! rel) -> enumerable rel) -> rel ∈ bundleOrder fl <-> is_Some (fl !! rel).
Proof.
  intros He. unfold bundleOrder. rewrite elem_of_app. split.
  - intros [Hc|Hg].
    + apply list_elem_of_In, in_concat in Hc as (l & (g & <- & Hg)%in_map_iff & Hl). apply list_elem_of_In in Hl. rewrite elem_of_sort, filter_keys_elem in Hl. by destruct Hl.
    + destruct (fl !! gateway_file) eqn:E; cbn in Hg; [|by apply elem_of_nil in Hg]. apply list_elem_of_singleton in Hg as ->. by rewrite E.
  - intros Hs. destruct (He _ Hs) as [->|(g & n & Hg & -> & _)].
    + right. destruct Hs as [d ->]. cbn. by apply list_elem_of_singleton.
    + left. apply list_elem_of_In, in_concat. exists (sort_strings (List.filter (in_group g) (map fst (map_to_list fl)))). split.
      * apply in_map_iff. exists g. split; [done|]. by apply list_elem_of_In.
      * apply list_elem_of_In. rewrite elem_of_sort, filter_keys_elem. split; [done|]. by rewrite in_group_path, bool_decide_true.
Qed.

Lemma reads_order t fl rel : reads t fl -> rel ∈ bundleOrder fl <-> is_Some (fl !! rel).
Proof. intros Hr. apply order_elem. intros ?. by eapply reads_enumerable. Qed.

Lemma read_files_ok t (fl : bundle) rels : (forall rel, rel ∈ rels -> exists data, fl !! rel = Some data /\ t !! rel = Some (File (Some data))) ->
  read_files t rels = Ok (entries fl rels).
Proof.
  induction rels as [|rel rels IH]; intros Hr; [done|]. cbn [read_files]. destruct (Hr rel) as (data & Hf & Ht); [left|]. unfold read_file. rewrite Ht. cbn [result_bind].
  rewrite IH by (intros; apply Hr; by right). cbn. by rewrite Hf.
Qed.

Lemma reads_files t fl : reads t fl -> configFiles (Some t) = Ok (bundleOrder fl) /\ read_files t (bundleOrder fl) = Ok (canonical fl).
Proof.
  intros Hr. split; [by apply config_order, Hr|]. apply read_files_ok. intros rel Hrel. apply (reads_order t fl rel Hr) in Hrel as [data Hd].
  exists data. split; [done|]. by apply Hr.
Qed.

Lemma reads_hash t fl : reads t fl -> HashDir (Some t) = Ok (sum (canonical fl)).
Proof. intros Hr. destruct (reads_files t fl Hr) as [Hc Hf]. unfold HashDir. rewrite Hc. cbn [result_bind]. change (default ∅ (Some t)) with t. by rewrite Hf. Qed.

Lemma configFiles_elem t rels : configFiles (Some t) = Ok rels -> forall rel, rel ∈ rels <-> listed t rel.
Proof.
  intros [= <-] rel. rewrite elem_of_app. cbn [map concat]. rewrite app_nil_r, !elem_of_app, !listSub_elem by (unfold bundleGroups; set_solver). split.
  - intros [[[? _]|[[? _]|[? _]]]|Hg]; [done..|]. destruct (t !! gateway_file) eqn:E; cbn in Hg; [|by apply elem_of_nil in Hg].
    apply list_elem_of_singleton in Hg as ->. left. by rewrite E.
  - intros Hl. destruct (Hl) as [[-> [e He]]|(g & n & e & Hg & -> & _)]; [right; rewrite He; by apply list_elem_of_singleton|]. left.
    rewrite !in_group_path by done. unfold bundleGroups in Hg. rewrite !elem_of_cons, elem_of_nil in Hg. destruct Hg as [->|[->|[->|[]]]]; [left|right; left|right; right]; done.
Qed.

(** Every directory that hashes reads as some files. *)
Lemma read_files_inv t rels files : read_files t rels = Ok files -> forall rel, rel ∈ rels -> exists data, t !! rel = Some (File (Some data)).
Proof.
  revert files. induction rels as [|r rels IH]; intros files; cbn [read_files]; [intros _ rel ?%elem_of_nil; done|]. unfold read_file.
  destruct (t !! r) as [[|[data|]]|] eqn:E; cbn [result_bind]; try done. destruct (read_files t rels) as [more|] eqn:Em; [|done]. intros _ rel [->|Hin]%elem_of_cons; [by exists data|].
  by eapply IH.
Qed.

Definition data_of (e : dent) : option string := match e with File d => d | Dir => None end.

Lemma readable t rels files : configFiles (Some t) = Ok rels -> read_files t rels = Ok files -> exists fl, reads t fl.
Proof.
  intros Hc Hf. pose proof (configFiles_elem t rels Hc) as He. pose proof (read_files_inv t rels files Hf) as Hr.
  assert (Hl : forall rel data, filter (fun kv => kv.1 ∈ rels) (omap data_of t) !! rel = Some data <-> rel ∈ rels /\ t !! rel = Some (File (Some data))).
  { intros rel data. rewrite map_lookup_filter_Some, lookup_omap. cbn. destruct (t !! rel) as [[|d]|]; cbn; naive_solver. }
  exists (filter (fun kv => kv.1 ∈ rels) (omap data_of t)). split.
  - intros rel. rewrite <- He. split; [intros [data Hd]; by apply Hl in Hd as [? _]|]. intros Hrel. destruct (Hr rel Hrel) as [data Hd]. exists data. by apply Hl.
  - intros rel data Hd. by apply Hl in Hd as [_ ?].
Qed.

Lemma hash_reads root h : HashDir root = Ok h -> exists t fl, root = Some t /\ reads t fl /\ h = sum (canonical fl).
Proof.
  intros Hh. destruct root as [t|]; [|done]. unfold HashDir in Hh. destruct (configFiles (Some t)) as [rels|] eqn:Ec; [|done]. cbn [result_bind] in Hh. change (default ∅ (Some t)) with t in Hh.
  destruct (read_files t rels) as [files|] eqn:Ef; [|done]. destruct (readable t rels files Ec Ef) as [fl Hr]. exists t, fl. split_and!; [done..|].
  pose proof (reads_hash t fl Hr) as H2. unfold HashDir in H2. rewrite Ec in H2. cbn [result_bind] in H2. change (default ∅ (Some t)) with t in H2. rewrite Ef in H2. cbn [result_bind] in H2, Hh. congruence.
Qed.

(** ** The hash commits *)

(** Everything the hash of [files] is taken over. *)
Definition parts (files : list (string * string)) : list string := map fst files ++ map snd files.
Definition hashed (files : list (string * string)) : list string := canon files :: parts files.
Definition hash_collision (f1 f2 : list (string * string)) : Prop := exists x y, x ∈ hashed f1 /\ y ∈ hashed f2 /\ x <> y /\ sha256_hex x = sha256_hex y.

Lemma parts_cons r d files x : x ∈ parts ((r, d) :: files) <-> x = r \/ x = d \/ x ∈ parts files.
Proof. unfold parts. cbn. rewrite elem_of_cons, !elem_of_app, elem_of_cons. tauto. Qed.

Lemma canon_cons f files : canon (f :: files) = sha256_sum f.1 +:+ sha256_sum f.2 +:+ canon files.
Proof. unfold canon. destruct files as [|f' files]; cbn [map join]; [by rewrite !app_nil_str|]. by rewrite app_assoc_str. Qed.

Lemma app_inj_length (a b c d : string) : String.length a = String.length c -> a +:+ b = c +:+ d -> a = c /\ b = d.
Proof.
  revert c. induction a as [|x a IH]; intros [|y c]; try done. intros [= Hl]. rewrite !app_cons_str. intros [= -> E]. by destruct (IH c Hl E) as [-> ->].
Qed.

Lemma canon_inj f1 f2 : canon f1 = canon f2 -> map (fun f => (sha256_sum f.1, sha256_sum f.2)) f1 = map (fun f => (sha256_sum f.1, sha256_sum f.2)) f2.
Proof.
  revert f2. induction f1 as [|a f1 IH]; intros [|b f2] E; [done| | |].
  - rewrite canon_cons in E. by apply (f_equal String.length) in E.
  - rewrite canon_cons in E. by apply (f_equal String.length) in E.
  - rewrite !canon_cons in E. apply app_inj_length in E as [E1 E]; [|done]. apply app_inj_length in E as [E2 E]; [|done]. cbn. by rewrite E1, E2, (IH f2 E).
Qed.

(** Lists of pairs with the same digests are equal, or two parts collide. *)
Lemma pairs_inj {A} (h : string -> A) (f1 f2 : list (string * string)) : map (fun f => (h f.1, h f.2)) f1 = map (fun f => (h f.1, h f.2)) f2 ->
  f1 = f2 \/ exists x y, x ∈ parts f1 /\ y ∈ parts f2 /\ x <> y /\ h x = h y.
Proof.
  revert f2. induction f1 as [|[r1 d1] f1 IH]; intros [|[r2 d2] f2] E; try done; [by left|]. cbn [map fst snd] in E. injection E as E1 E2 E.
  destruct (decide (r1 = r2)) as [->|Hr]; [|right; exists r1, r2; rewrite !parts_cons; auto 10].
  destruct (decide (d1 = d2)) as [->|Hd]; [|right; exists d1, d2; rewrite !parts_cons; auto 10].
  destruct (IH f2 E) as [->|(x & y & Hx & Hy & ?)]; [by left|]. right. exists x, y. rewrite !parts_cons. auto 10.
Qed.

Lemma sum_commits f1 f2 : sum f1 = sum f2 -> f1 = f2 \/ hash_collision f1 f2.
Proof.
  unfold sum. intros E. apply (inj (String.app _)) in E. destruct (decide (canon f1 = canon f2)) as [Ec|Hc].
  - apply canon_inj, pairs_inj in Ec as [->|(x & y & Hx & Hy & Hne & Hh)]; [by left|]. right. exists x, y.
    split_and!; [by right|by right|done|by apply sum_hex].
  - right. exists (canon f1), (canon f2). split_and!; [by left|by left|done|done].
Qed.

Lemma canonical_inj fl1 fl2 : (forall rel, is_Some (fl1 !! rel) -> enumerable rel) -> (forall rel, is_Some (fl2 !! rel) -> enumerable rel) -> canonical fl1 = canonical fl2 -> fl1 = fl2.
Proof.
  intros H1 H2 E. assert (Ho : bundleOrder fl1 = bundleOrder fl2).
  { apply (f_equal (map fst)) in E. unfold canonical, entries in E. rewrite !map_map in E. cbn in E. by rewrite !map_id in E. }
  apply map_eq. intros rel. destruct (decide (rel ∈ bundleOrder fl1)) as [Hin|Hout].
  - assert (default "" (fl1 !! rel) = default "" (fl2 !! rel)) as Ed.
    { unfold canonical, entries in E. rewrite <- Ho in E. apply list_elem_of_In in Hin. revert Hin E. generalize (bundleOrder fl1). clear. intros l. induction l as [|x l IH]; [done|].
      cbn. intros [->|Hin] [= E1 E]; auto. }
    pose proof Hin as Hin2. rewrite Ho in Hin2. apply (order_elem _ _ H1) in Hin as [d1 Hd1]. apply (order_elem _ _ H2) in Hin2 as [d2 Hd2]. rewrite Hd1, Hd2 in *. cbn in Ed. congruence.
  - pose proof Hout as Hout2. rewrite Ho in Hout2. rewrite (order_elem _ _ H1), <- eq_None_not_Some in Hout. rewrite (order_elem _ _ H2), <- eq_None_not_Some in Hout2. congruence.
Qed.

Lemma reads_commit t1 fl1 t2 fl2 : reads t1 fl1 -> reads t2 fl2 -> sum (canonical fl1) = sum (canonical fl2) -> fl1 = fl2 \/ hash_collision (canonical fl1) (canonical fl2).
Proof.
  intros H1 H2 [E|Hc]%sum_commits; [left|by right]. by apply canonical_inj in E; [|intros ?; by eapply reads_enumerable..].
Qed.

(** ** Written copies *)

(** [t] holds the files [fs] and the directories they need. *)
Record placed (t : tree) (fs : list (string * string)) : Prop := {
  pl_file : forall rel data, (rel, data) ∈ fs -> t !! rel = Some (File (Some data));
  pl_dir : forall g n data, g ∈ bundleGroups -> (g +:+ "/" +:+ n, data) ∈ fs -> t !! g = Some Dir;
  pl_only : forall k e, t !! k = Some e -> (exists data, (k, data) ∈ fs /\ e = File (Some data)) \/ k ∈ bundleGroups /\ e = Dir;
}.

Lemma enumerable_not_group rel g : enumerable rel -> g ∈ bundleGroups -> rel <> g.
Proof.
  intros He Hg ->. destruct He as [->|(g' & n & Hg' & -> & _)].
  - unfold bundleGroups, gateway_file in Hg. rewrite !elem_of_cons, elem_of_nil in Hg. by destruct Hg as [?|[?|[?|[]]]].
  - apply group_no_slash in Hg. rewrite !has_byte_app in Hg. by rewrite orb_true_r in Hg.
Qed.

Lemma placed_snoc excl t fs rel data t' : placed t fs -> (forall r d, (r, d) ∈ fs -> enumerable r) -> enumerable rel -> (forall d, (rel, d) ∉ fs) ->
  put_file excl t rel data = Ok t' -> placed t' (fs ++ [(rel, data)]).
Proof.
  intros [H1 H2 H3] Hfs Hrel Hnew. unfold put_file. destruct (excl && _); [done|]. intros [= <-].
  destruct Hrel as [->|(g & n & Hg & -> & Hrest)].
  - cbn [cut_slash]. change (cut_slash gateway_file) with (gateway_file, @None string). cbv iota beta. split.
    + intros r d. rewrite elem_of_app, list_elem_of_singleton. intros [Hin|[= -> ->]]; [|by rewrite lookup_insert_eq].
      rewrite lookup_insert_ne by (intros <-; by apply Hnew in Hin). by apply H1.
    + intros g n d Hg. rewrite elem_of_app, list_elem_of_singleton. intros [Hin|[= E _]]; [|by apply group_not_gateway in E].
      rewrite lookup_insert_ne; [by eapply H2|]. apply enumerable_not_group; [by left|done].
    + intros k e. rewrite lookup_insert_Some. intros [[<- <-]|[_ Hk]]; [left; exists data; by rewrite elem_of_app, list_elem_of_singleton; auto|].
      destruct (H3 k e Hk) as [(d & Hd & ->)|?]; [left; exists d; rewrite elem_of_app; auto|by right].
  - assert (He : enumerable (g +:+ "/" +:+ n)) by (right; by exists g, n). rewrite cut_slash_app by (by apply group_no_slash). cbv iota beta. split.
    + intros r d. rewrite elem_of_app, list_elem_of_singleton. intros [Hin|[= -> ->]]; [|by rewrite lookup_insert_eq].
      rewrite lookup_insert_ne by (intros <-; by apply Hnew in Hin). rewrite lookup_insert_ne; [by apply H1|]. apply not_eq_sym, enumerable_not_group; [by eapply Hfs|done].
    + intros g' n' d Hg'. rewrite elem_of_app, list_elem_of_singleton. rewrite lookup_insert_ne by (by apply enumerable_not_group). intros [Hin|[= E _]].
      * destruct (decide (g' = g)) as [->|Hne]; [by rewrite lookup_insert_eq|]. rewrite lookup_insert_ne by done. by eapply H2.
      * apply (f_equal cut_slash) in E. rewrite !cut_slash_app in E by (by apply group_no_slash). injection E as -> _. by rewrite lookup_insert_eq.
    + intros k e. rewrite lookup_insert_Some, lookup_insert_Some. intros [[<- <-]|[_ [[<- <-]|[_ Hk]]]]; [left; exists data; by rewrite elem_of_app, list_elem_of_singleton; auto|by right|].
      destruct (H3 k e Hk) as [(d & Hd & ->)|?]; [left; exists d; rewrite elem_of_app; auto|by right].
Qed.

Lemma placed_files excl ok t fs more t' : placed t fs -> NoDup (map fst (fs ++ more)) -> (forall r d, (r, d) ∈ fs ++ more -> enumerable r) ->
  put_files excl ok t more = Ok t' -> placed t' (fs ++ more).
Proof.
  revert t fs. induction more as [|[rel data] more IH]; intros t fs Hp Hn He; cbn [put_files]; [intros [= <-]; by rewrite app_nil_r|].
  destruct (ok rel); [|done]. cbn [negb]. destruct (put_file excl t rel data) as [t1|] eqn:E1; [|done]. cbn [result_bind]. intros E.
  assert (placed t1 (fs ++ [(rel, data)])) as Hp1.
  { eapply placed_snoc; [exact Hp|..|exact E1].
    - intros r d Hin. apply (He r d). rewrite elem_of_app. by left.
    - apply (He rel data). rewrite elem_of_app, elem_of_cons. auto.
    - intros d Hin. rewrite map_app in Hn. apply NoDup_app in Hn as (_ & Hn & _). apply (Hn rel); [apply list_elem_of_fmap; by exists (rel, d)|by left]. }
  replace (fs ++ (rel, data) :: more) with ((fs ++ [(rel, data)]) ++ more) in * by (by rewrite <- app_assoc). by eapply IH.
Qed.

Lemma order_nodup (fl : bundle) : NoDup (bundleOrder fl).
Proof.
  assert (Hg : forall g, NoDup (sort_strings (List.filter (in_group g) (map fst (map_to_list fl))))).
  { intros g. rewrite sort_strings_perm. apply NoDup_ListNoDup, List.NoDup_filter, NoDup_ListNoDup, NoDup_fst_map_to_list. }
  assert (Hin : forall g rel, rel ∈ sort_strings (List.filter (in_group g) (map fst (map_to_list fl))) -> in_group g rel = true).
  { intros g rel. rewrite elem_of_sort, filter_keys_elem. by intros [_ ?]. }
  assert (Hdis : forall g g' rel, g <> g' -> in_group g rel = true -> in_group g' rel = true -> False).
  { unfold in_group. intros g g' rel Hne [_ H1%bool_decide_eq_true]%andb_prop [_ H2%bool_decide_eq_true]%andb_prop. congruence. }
  unfold bundleOrder, bundleGroups. cbn [map concat]. rewrite app_nil_r. rewrite !NoDup_app. split_and!; auto.
  - intros rel H1%Hin [H2%Hin|H2%Hin]%elem_of_app; by eapply Hdis; [|exact H1|exact H2].
  - intros rel H1%Hin H2%Hin. by eapply Hdis; [|exact H1|exact H2].
  - intros rel H1 H2. destruct (is_Some_b _); [|by apply elem_of_nil in H2]. apply list_elem_of_singleton in H2 as ->.
    rewrite !elem_of_app in H1. destruct H1 as [H1%Hin|[H1%Hin|H1%Hin]]; done.
  - destruct (is_Some_b _); [apply NoDup_singleton|constructor].
Qed.

Lemma canonical_elem (fl : bundle) rel data : (forall rel, is_Some (fl !! rel) -> enumerable rel) -> (rel, data) ∈ canonical fl <-> fl !! rel = Some data.
Proof.
  intros He. unfold canonical, entries. rewrite list_elem_of_fmap. split.
  - intros (r & [= -> ->] & Hr). apply (order_elem fl r He) in Hr as [d Hd]. by rewrite Hd.
  - intros Hd. exists rel. rewrite Hd. split; [done|]. apply order_elem; [done|]. by exists data.
Qed.

Lemma placed_reads t fl : (forall rel, is_Some (fl !! rel) -> enumerable rel) -> placed t (canonical fl) -> reads t fl.
Proof.
  intros He [H1 H2 H3]. split; [|intros rel data Hd; apply H1; by apply canonical_elem]. intros rel. split.
  - intros [data Hd]. assert (Hin : (rel, data) ∈ canonical fl) by (by apply canonical_elem). pose proof (H1 _ _ Hin) as Ht.
    destruct (He rel) as [->|(g & n & Hg & -> & Hb & Hn & Hy)]; [by eexists|left; split; [done|by eexists]|]. right. exists g, n, (File (Some data)). split_and!; try done. by eapply H2.
  - intros [[-> [e Hk]]|(g & n & e & Hg & -> & _ & _ & _ & _ & Hk & Hne)].
    + destruct (H3 _ _ Hk) as [(d & Hd & _)|[Hin _]]; [exists d; by apply canonical_elem|]. exfalso. eapply enumerable_not_group; [by left|exact Hin|done].
    + destruct (H3 _ _ Hk) as [(d & Hd & _)|[_ ->]]; [exists d; by apply canonical_elem|done].
Qed.

Lemma put_reads excl ok fl t : (forall rel, is_Some (fl !! rel) -> enumerable rel) -> put_files excl ok ∅ (canonical fl) = Ok t -> reads t fl.
Proof.
  intros He Hp. apply placed_reads; [done|]. change (canonical fl) with ([] ++ canonical fl). eapply placed_files; [| | |exact Hp].
  - split; [by intros ?? ?%elem_of_nil|by intros ???? ?%elem_of_nil|done].
  - cbn. unfold canonical, entries. rewrite map_map. cbn. rewrite map_id. apply order_nodup.
  - intros r d Hin. cbn in Hin. apply canonical_elem in Hin; [|done]. apply He. by exists d.
Qed.

Lemma copy_files_put ok src rels t t' : copy_files ok src t rels = Ok t' -> exists files, read_files src rels = Ok files /\ put_files false ok t files = Ok t'.
Proof.
  revert t. induction rels as [|rel rels IH]; intros t; cbn [copy_files read_files]; [intros [= <-]; by exists []|].
  destruct (read_file src rel) as [data|]; [|done]. cbn [result_bind]. destruct (ok rel) eqn:Eo; [|done]. cbn [negb]. destruct (put_file false t rel data) as [t1|] eqn:E1; [|done].
  cbn [result_bind]. intros (files & -> & Hp)%IH. exists ((rel, data) :: files). split; [done|]. cbn [put_files]. rewrite Eo. cbn [negb]. by rewrite E1.
Qed.

Section bundles.
  Context `{GoText}.

Lemma valid_enumerable rel : ValidBundlePath rel = true -> enumerable rel.
Proof.
  unfold ValidBundlePath. case_bool_decide as Hg; [by left|]. destruct (cut_slash rel) as [g [n|]] eqn:Ec; [|done].
  destruct (_ || _) eqn:Eb; [done|]. destruct (yaml_ext n) eqn:Ey; [|done]. intros _. right. exists g, n. bool_prop. destruct_and?.
  apply cut_slash_inv in Ec as [-> _]. split_and!; try done. apply contains_true. by destruct (contains bundleGroups g).
Qed.

Lemma all_valid_spec (fl : bundle) : all_valid fl = true <-> forall rel, is_Some (fl !! rel) -> ValidBundlePath rel = true.
Proof.
  unfold all_valid. rewrite forallb_forall. split; intros Hv rel Hr.
  - destruct Hr as [d Hd]. apply Hv, list_elem_of_In, list_elem_of_fmap. exists (rel, d). split; [done|]. by apply elem_of_map_to_list.
  - apply list_elem_of_In, list_elem_of_fmap in Hr as ([r d] & -> & Hr%elem_of_map_to_list). apply Hv. by exists d.
Qed.

Lemma all_valid_enumerable (fl : bundle) : all_valid fl = true -> forall rel, is_Some (fl !! rel) -> enumerable rel.
Proof. rewrite all_valid_spec. intros Hv rel Hr. by apply valid_enumerable, Hv. Qed.

Lemma read_bundle_spec t rels acc b : read_bundle t rels acc = Ok b ->
  (forall rel, rel ∈ rels -> ValidBundlePath rel = true) /\
  forall rel data, (b !! rel = Some data) <-> ((rel ∈ rels) /\ t !! rel = Some (File (Some data)) \/ (rel ∉ rels) /\ acc !! rel = Some data).
Proof.
  revert acc. induction rels as [|r rels IH]; intros acc; cbn [read_bundle].
  - intros [= <-]. split; [by intros ? ?%elem_of_nil|]. intros rel data. rewrite elem_of_nil. naive_solver.
  - destruct (ValidBundlePath r) eqn:Ev; [|done]. cbn [negb]. unfold read_file. destruct (t !! r) as [[|[d|]]|] eqn:Et; try done. cbn [result_bind].
    intros [Hv Hb]%IH. split; [intros rel [->|Hr]%elem_of_cons; auto|]. intros rel data. rewrite Hb, elem_of_cons, lookup_insert_Some. clear Hb IH Hv.
    destruct (decide (rel ∈ rels)), (decide (rel = r)) as [->|Hne]; rewrite ?Et; intuition congruence.
Qed.

Lemma read_bundle_total t rels acc : (forall rel, rel ∈ rels -> ValidBundlePath rel = true /\ exists data, t !! rel = Some (File (Some data))) -> exists b, read_bundle t rels acc = Ok b.
Proof.
  revert acc. induction rels as [|r rels IH]; intros acc Hr; cbn [read_bundle]; [by eexists|]. destruct (Hr r) as (-> & data & Ht); [left|]. cbn [negb]. unfold read_file. rewrite Ht.
  apply IH. intros rel Hin. apply Hr. by right.
Qed.

(** A directory's bundle is the files it reads as. *)
Lemma ReadBundle_reads t b : ReadBundle (Some t) = Ok b -> reads t b /\ all_valid b = true.
Proof.
  unfold ReadBundle. destruct (configFiles (Some t)) as [rels|] eqn:Ec; [|done]. cbn [result_bind]. change (default ∅ (Some t)) with t. pose proof (configFiles_elem t rels Ec) as He.
  intros Hb. assert (Hread : forall rel, rel ∈ rels -> exists data, t !! rel = Some (File (Some data))).
  { clear -Hb. revert Hb. generalize (∅ : bundle). induction rels as [|r rels IH]; intros acc; [by intros _ ? ?%elem_of_nil|]. cbn [read_bundle]. destruct (ValidBundlePath r); [|done].
    cbn [negb]. unfold read_file. destruct (t !! r) as [[|[d|]]|] eqn:Et; try done. intros Hb rel [->|Hin]%elem_of_cons; [by exists d|]. by eapply IH. }
  apply read_bundle_spec in Hb as [Hv Hb]. split; [split|].
  - intros rel. rewrite <- He. split.
    + intros [d Hd]. apply Hb in Hd as [[? _]|[_ ?]]; done.
    + intros Hr. destruct (Hread rel Hr) as [d Hd]. exists d. apply Hb. by left.
  - intros rel data Hd. by apply Hb in Hd as [[_ ?]|[_ ?]].
  - apply all_valid_spec. intros rel [d Hd]. apply Hv. by apply Hb in Hd as [[? _]|[_ ?]].
Qed.

Lemma reads_ReadBundle t fl : reads t fl -> all_valid fl = true -> ReadBundle (Some t) = Ok fl.
Proof.
  intros Hr Hv. destruct (reads_files t fl Hr) as [Hc _]. unfold ReadBundle. rewrite Hc. cbn [result_bind]. change (default ∅ (Some t)) with t.
  destruct (read_bundle_total t (bundleOrder fl) ∅) as [b Hb].
  - intros rel Hin. apply (reads_order t fl rel Hr) in Hin. split; [by apply (proj1 (all_valid_spec fl) Hv)|]. destruct Hin as [d Hd]. exists d. by apply Hr.
  - rewrite Hb. f_equal. apply read_bundle_spec in Hb as [_ Hb]. apply map_eq. intros rel. apply option_eq. intros d. rewrite Hb, (reads_order t fl rel Hr). split.
    + intros [[[d' Hd'] Ht]|[_ ?]]; [|done]. rewrite (rd_bytes _ _ Hr _ _ Hd') in Ht. congruence.
    + intros Hd. left. split; [by exists d|]. by apply Hr.
Qed.

Lemma reads_HashFiles t fl : reads t fl -> all_valid fl = true -> HashFiles fl = HashDir (Some t).
Proof. intros Hr Hv. unfold HashFiles. by rewrite Hv, (reads_hash t fl Hr). Qed.

(** A bundle and a directory are one configuration.  The bundle read from a
    directory hashes as the directory does, whatever order maps and directories
    are listed in; and writing a bundle out and reading it back gives the same
    bundle, in a directory that hashes as the bundle does. *)
Theorem bundle_is_its_directory (t : tree) (files : bundle) :
  (forall b, ReadBundle (Some t) = Ok b -> HashFiles b = HashDir (Some t)) /\
  (forall ok t', WriteBundle None true ok files = Ok t' -> ReadBundle (Some t') = Ok files /\ HashDir (Some t') = HashFiles files).
Proof.
  split.
  - intros b [Hr Hv]%ReadBundle_reads. by apply reads_HashFiles.
  - intros ok t'. unfold WriteBundle. destruct (all_valid files) eqn:Hv; [|done]. cbn [negb]. intros Hp. apply put_reads in Hp; [|by apply all_valid_enumerable].
    split; [by apply reads_ReadBundle|]. by rewrite (reads_HashFiles _ _ Hp Hv).
Qed.

(** The hash of a configuration commits to it.  Two directories with one
    hash are enumerated alike and hold the same bytes in every enumerated file,
    or two different inputs with one SHA-256 are exhibited among what was
    hashed. *)
Theorem configuration_hash_commits (t1 t2 : tree) (h : string) (H1 : HashDir (Some t1) = Ok h) (H2 : HashDir (Some t2) = Ok h) :
  exists f1 f2, (configFiles (Some t1) = Ok (map fst f1) /\ read_files t1 (map fst f1) = Ok f1) /\ (configFiles (Some t2) = Ok (map fst f2) /\ read_files t2 (map fst f2) = Ok f2) /\
    (f1 = f2 \/ hash_collision f1 f2).
Proof.
  apply hash_reads in H1 as (t & fl1 & [= <-] & Hr1 & ->), H2 as (t & fl2 & [= <-] & Hr2 & E). exists (canonical fl1), (canonical fl2).
  assert (Ho : forall fl, map fst (canonical fl) = bundleOrder fl) by (intros fl; unfold canonical, entries; rewrite map_map; cbn; by rewrite map_id).
  rewrite !Ho. split_and!; [by apply reads_files..|]. by apply sum_commits.
Qed.

(** ** Staging *)
Lemma StageFiles_reads s env files temp s' : StageFiles s env files = (Ok temp, s') ->
  exists t, s' = set_dir s temp t /\ sg_temp env = Some temp /\ reads t files /\ all_valid files = true.
Proof.
  unfold StageFiles, stage. destruct (all_valid files) eqn:Hv; [|done]. cbn [negb]. destruct (sg_mkdir env); [|done]. destruct (sg_temp env) as [name|]; [|done].
  destruct (put_files _ _ _ _) as [t|] eqn:Hp; [|done]. intros [= <- <-]. exists t. split_and!; [done..| |done]. eapply put_reads; [by apply all_valid_enumerable|exact Hp].
Qed.

Lemma StageSnapshot_reads s env src temp s' : StageSnapshot s env src = (Ok temp, s') ->
  exists t0 t fl, src = Some t0 /\ s' = set_dir s temp t /\ sg_temp env = Some temp /\ reads t0 fl /\ reads t fl.
Proof.
  unfold StageSnapshot, stage. destruct (configFiles src) as [rels|] eqn:Ec; [|done]. destruct src as [t0|]; [|done]. change (default ∅ (Some t0)) with t0.
  destruct (sg_mkdir env); [|done]. destruct (sg_temp env) as [name|]; [|done]. destruct (copy_files _ _ _ _) as [t|] eqn:Hp; [|done]. intros [= <- <-].
  apply copy_files_put in Hp as (files & Hf & Hp). destruct (readable t0 rels files Ec Hf) as [fl Hr]. destruct (reads_files t0 fl Hr) as [Hc Hf'].
  rewrite Ec in Hc. injection Hc as ->. rewrite Hf in Hf'. injection Hf' as ->. exists t0, t, fl. split_and!; try done.
  eapply put_reads; [|exact Hp]. intros rel. by eapply reads_enumerable.
Qed.

(** ** The pointer *)
Definition plain (c : ascii) : bool := (33 <=? byte_val c) && (byte_val c <? 127).

Lemma plain_chunks s r : all_chars plain s = true -> chunks (s +:+ r) = map (fun c => (byte_val c, String c "")) (String.list_ascii_of_string s) ++ chunks r.
Proof.
  induction s as [|c s IH]; [done|]. cbn [all_chars]. intros [Hc Hs]%andb_prop. unfold plain in Hc. bool_prop. rewrite app_cons_str. cbn [chunks String.list_ascii_of_string map app].
  rewrite (proj2 (utf8_size_1 c (s +:+ r))) by lia. by rewrite <- IH.
Qed.

Lemma plain_not_space c : plain c = true -> is_space (byte_val c) = false.
Proof. unfold plain, is_space, in_range. intros Hc. bool_prop. repeat (rewrite orb_false_iff; split); try (apply Z.eqb_neq; lia); apply andb_false_iff; rewrite !Z.leb_gt; lia. Qed.

Lemma drop_plain l r : Forall (fun x => is_space x.1 = false) l -> l <> [] -> drop_spaces (l ++ r) = l ++ r.
Proof. intros Hl Hne. destruct l as [|[x b] l]; [done|]. inversion Hl; subst. cbn in *. by rewrite H2. Qed.

Lemma join_chars s : join "" (map snd (map (fun c => (byte_val c, String c "")) (String.list_ascii_of_string s))) = s.
Proof.
  induction s as [|c s IH]; [done|]. cbn [String.list_ascii_of_string map snd join]. destruct (map snd _) as [|x l] eqn:E.
  - destruct s; [done|]. done.
  - rewrite <- E in *. cbn [join]. rewrite <- IH at 2. rewrite app_cons_str. by destruct (map snd _).
Qed.

Lemma TrimSpace_line s : all_chars plain s = true -> s <> "" -> TrimSpace (s +:+ String newline "") = s.
Proof.
  intros Hs Hne. unfold TrimSpace. rewrite plain_chunks by done. set (l := map _ (String.list_ascii_of_string s)).
  assert (Hl : Forall (fun x => is_space x.1 = false) l).
  { unfold l. clear Hne. induction s as [|c s IH]; [constructor|]. cbn [all_chars] in Hs. apply andb_prop in Hs as [Hc Hs]. constructor; [by apply plain_not_space|by apply IH]. }
  assert (l <> []) by (unfold l; by destruct s). change (chunks (String newline "")) with [(10, String newline "")]. rewrite drop_plain by done.
  rewrite reverse_app. cbn [reverse rev_append app]. change (reverse [(10, String newline "")]) with [(10, String newline "")]. cbn [app drop_spaces]. change (is_space 10) with true. cbv iota.
  rewrite <- (app_nil_r (reverse l)), drop_plain, app_nil_r, reverse_involutive; [apply join_chars|by apply Forall_reverse|]. intros E. apply (f_equal reverse) in E. by rewrite reverse_involutive in E.
Qed.

Lemma hex_plain s : all_chars is_lower_hex s = true -> all_chars plain s = true.
Proof.
  induction s as [|c s IH]; [done|]. cbn [all_chars]. intros [Hc Hs]%andb_prop. rewrite IH by done. rewrite andb_true_r. unfold is_lower_hex in Hc. unfold plain.
  apply andb_true_iff. rewrite Z.leb_le, Z.ltb_lt. apply orb_true_iff in Hc as [Hc|Hc]; bool_prop; lia.
Qed.

Lemma hash_shape h : installedHashRE h = true -> exists x, h = "sha256:" +:+ x /\ SnapshotDir h = x /\ lower_hex_of_len 64 x = true.
Proof.
  unfold installedHashRE. destruct (cut_prefix "sha256:" h) as [x|] eqn:E; [|done]. intros Hx. exists x. apply cut_prefix_Some in E as ->. split; [done|]. split; [|done].
  unfold SnapshotDir, trim_prefix. by rewrite cut_prefix_app.
Qed.

Lemma pointer_reads s h : installedHashRE h = true -> is_current s = Some (Some (h +:+ String newline "")) -> InstalledHash s = Ok (Some h).
Proof.
  intros Hh Hc. unfold InstalledHash. rewrite Hc. rewrite TrimSpace_line; [by rewrite Hh|..]; destruct (hash_shape h Hh) as (x & -> & _ & Hx); [|done].
  unfold lower_hex_of_len in Hx. apply andb_prop in Hx as [_ Hx]. by apply hex_plain in Hx.
Qed.

Lemma snapshot_dir_inj h h' : installedHashRE h = true -> installedHashRE h' = true -> SnapshotDir h = SnapshotDir h' -> h = h'.
Proof. intros (x & -> & -> & _)%hash_shape (x' & -> & -> & _)%hash_shape. by intros ->. Qed.

Lemma temp_not_snapshot temp h : has_prefix temp ".staging-" = true -> installedHashRE h = true -> SnapshotDir h <> temp.
Proof.
  intros Ht (x & -> & -> & Hx)%hash_shape <-. apply has_prefix_spec in Ht as [r ->]. unfold lower_hex_of_len in Hx. by apply andb_prop in Hx as [_ Hx].
Qed.

(** ** Committing *)
Lemma SnapshotBundle_reads s h b : SnapshotBundle s h = Ok b -> exists t, is_dirs s !! SnapshotDir h = Some t /\ reads t b /\ all_valid b = true /\ sum (canonical b) = h.
Proof.
  unfold SnapshotBundle. destruct (is_dirs s !! SnapshotDir h) as [t|]; [|done]. destruct (ReadBundle (Some t)) as [b'|] eqn:Eb; [|done]. cbn [result_bind].
  apply ReadBundle_reads in Eb as [Hr Hv]. unfold HashFiles. rewrite Hv. cbn [negb result_bind]. fold (canonical b'). case_bool_decide as E; [|done]. intros [= <-]. by exists t.
Qed.

Lemma reads_SnapshotBundle s h t b : is_dirs s !! SnapshotDir h = Some t -> reads t b -> all_valid b = true -> sum (canonical b) = h -> SnapshotBundle s h = Ok b.
Proof.
  intros Hd Hr Hv Hh. unfold SnapshotBundle. rewrite Hd, (reads_ReadBundle t b Hr Hv). cbn [result_bind]. unfold HashFiles. rewrite Hv. cbn [negb result_bind]. fold (canonical b).
  by rewrite bool_decide_true.
Qed.

(** What a commit leaves under the snapshot's name, when it succeeds. *)
Lemma commit_dirs s temp hash env err s' t : is_dirs s !! temp = Some t -> CommitSnapshot s temp hash env = (err, s') ->
  (forall h, installedHashRE h = true -> SnapshotDir h <> temp -> h <> hash -> is_dirs s' !! SnapshotDir h = is_dirs s !! SnapshotDir h) /\
  match err with
  | Some _ => is_current s' = is_current s
  | None => installedHashRE hash = true /\ is_current s' = Some (Some (hash +:+ String newline "")) /\
      (SnapshotDir hash <> temp -> exists t', is_dirs s' !! SnapshotDir hash = Some t' /\ (t' = t \/ HashDir (Some t') = Ok hash))
  end.
Proof.
  intros Ht. unfold CommitSnapshot. destruct (installedHashRE hash) eqn:Hh; [|by intros [= <- <-]]. cbn [negb]. rewrite Ht. unfold set_pointer.
  assert (Hsame : forall h, installedHashRE h = true -> h <> hash -> SnapshotDir h <> SnapshotDir hash) by (intros h Hre Hne E; by apply snapshot_dir_inj in E).
  case_bool_decide as Hex.
  - destruct (cm_rename env); [|by intros [= <- <-]]. destruct (cm_pointer env); intros [= <- <-]; cbn; (split; [intros h Hre Hd Hne; rewrite lookup_insert_ne by (apply not_eq_sym; auto); by rewrite lookup_delete_ne|]); [|done].
    split_and!; [done|done|]. intros _. exists t. rewrite lookup_insert_eq. auto.
  - destruct (HashDir _) as [got|] eqn:Eh; [|by intros [= <- <-]]. case_bool_decide as Hg; [|by intros [= <- <-]]. cbn [negb]. subst got.
    destruct (cm_remove env); [|by intros [= <- <-]]. destruct (cm_pointer env); intros [= <- <-]; cbn; (split; [intros h Hre Hd Hne; by rewrite lookup_delete_ne|]); [|done].
    split_and!; [done|done|]. intros Hne. destruct (is_dirs s !! SnapshotDir hash) as [t'|] eqn:Et; [|done]. exists t'. rewrite lookup_delete_ne by done. auto.
Qed.

(** C16: an install is all or nothing.  A proposal is staged, hashed and
    committed, and any step may fail.  When the commit reports success, what is
    installed is the proposal, byte for byte, under its own hash (or the
    snapshot that was already there collides with it); when it reports an error,
    the pointer is what it was; and no other snapshot is touched either way. *)
Theorem install_is_atomic (s s1 s2 : istore) (senv : stage_env) (cenv : commit_env) (files : bundle) (temp hash : string) (err : option config_error)
    (Hs : StageFiles s senv files = (Ok temp, s1)) (Ht : has_prefix temp ".staging-" = true) (Hh : HashDir (is_dirs s1 !! temp) = Ok hash)
    (Hc : CommitSnapshot s1 temp hash cenv = (err, s2)) :
  match err with
  | None => InstalledBundle s2 = Ok (Some (files, hash)) \/
      exists t other, is_dirs s2 !! SnapshotDir hash = Some t /\ read_files t (map fst other) = Ok other /\ hash_collision (canonical files) other
  | Some _ => InstalledHash s2 = InstalledHash s
  end /\ forall h, installedHashRE h = true -> h <> hash -> SnapshotBundle s2 h = SnapshotBundle s h.
Proof.
  apply StageFiles_reads in Hs as (t & -> & _ & Hr & Hv). assert (Hd : is_dirs (set_dir s temp t) !! temp = Some t) by (cbn; by rewrite lookup_insert_eq).
  rewrite Hd, (reads_hash t files Hr) in Hh. injection Hh as Hh. destruct (commit_dirs _ _ _ _ _ _ _ Hd Hc) as [Hframe Hres]. split.
  - destruct err as [e|]; [unfold InstalledHash; by rewrite Hres|]. destruct Hres as (Hre & Hcur & Hdir).
    destruct (Hdir (temp_not_snapshot _ _ Ht Hre)) as (t' & Ht' & Hcase). unfold InstalledBundle. rewrite (pointer_reads s2 hash Hre Hcur). cbn [result_bind].
    destruct Hcase as [->|Hh']; [left; by rewrite (reads_SnapshotBundle s2 hash t files Ht' Hr Hv Hh)|].
    apply hash_reads in Hh' as (t1 & fl & [= <-] & Hr' & E). rewrite <- Hh in E. destruct (reads_commit _ _ _ _ Hr Hr' E) as [<-|Hcol]; [left; by rewrite (reads_SnapshotBundle s2 hash t' files Ht' Hr' Hv Hh)|].
    right. exists t', (canonical fl). split_and!; [done| |done]. unfold canonical at 1, entries. rewrite map_map. cbn. rewrite map_id. by apply reads_files.
  - intros h Hre Hne. unfold SnapshotBundle. rewrite (Hframe h Hre) by (done || by apply temp_not_snapshot). cbn. rewrite lookup_insert_ne by (apply not_eq_sym; by apply temp_not_snapshot). done.
Qed.
End bundles.

(** ** Loading *)
Section loading.
  Context `{ConfigYaml}.

(** The decoding of a list of files. *)
Definition load_files (keep : string -> bool) (files : list (string * string)) (cfg : Config) (errs : list config_error) : Config * list config_error :=
  foldl (fun acc f => if keep f.1 then let '(cfg, ok) := load_file acc.1 f.1 f.2 in (cfg, if ok : bool then acc.2 else acc.2 ++ [ParseError f.1]) else acc) (cfg, errs) files.

Lemma load_loop_files t keep files cfg errs : (forall rel data, (rel, data) ∈ files -> t !! rel = Some (File (Some data))) ->
  load_loop t keep (map fst files) cfg errs = load_files keep files cfg errs.
Proof.
  revert cfg errs. induction files as [|[rel data] files IH]; intros cfg errs Hf; [done|]. cbn [map fst load_loop]. unfold load_files. cbn [foldl fst snd].
  destruct (keep rel); cbn [negb]; [|apply IH; intros; apply Hf; by right]. unfold read_file. rewrite (Hf rel data) by left.
  destruct (load_file cfg rel data) as [cfg' ok]. apply IH. intros; apply Hf. by right.
Qed.

Lemma loadFiles_reads t fl keep : reads t fl -> loadFiles (Some t) keep = load_files keep (canonical fl) zeroConfig [].
Proof.
  intros Hr. unfold loadFiles. destruct (reads_files t fl Hr) as [-> _]. change (default ∅ (Some t)) with t.
  assert (bundleOrder fl = map fst (canonical fl)) as -> by (unfold canonical, entries; rewrite map_map; cbn; by rewrite map_id).
  apply load_loop_files. intros rel data Hin. apply (rd_bytes _ _ Hr). apply canonical_elem in Hin; [done|]. intros r. by eapply reads_enumerable.
Qed.

Lemma LoadInstalled_reads s cfg h : LoadInstalled s = (cfg, Some h, []) ->
  exists t fl, is_dirs s !! SnapshotDir h = Some t /\ reads t fl /\ sum (canonical fl) = h /\ load_files (fun _ => true) (canonical fl) zeroConfig [] = (cfg, []) /\ c_Roles cfg <> [].
Proof.
  unfold LoadInstalled. destruct (InstalledHash s) as [[h'|]|]; try done. unfold VerifyInstalled. destruct (HashDir _) as [got|] eqn:Eh; [|done]. cbn [result_bind].
  case_bool_decide as Eg; [|done]. subst got. destruct (loadFiles _ _) as [cfg' errs] eqn:El. intros E. assert (cfg' = cfg /\ h' = h /\ errs = [] /\ c_Roles cfg <> []) as (-> & -> & -> & Hroles).
  { destruct errs; [|by injection E]. destruct (c_Roles cfg') eqn:Er; [done|]. injection E as -> ->. by rewrite Er. }
  apply hash_reads in Eh as (t & fl & Ed & Hr & Hh). exists t, fl. rewrite Ed in El. rewrite (loadFiles_reads t fl _ Hr) in El. by split_and!.
Qed.

(** What is executed is what was installed.  Take any two stores, one as
    it was when a configuration was installed and one after anybody did
    anything to it.  If the pointer names the same hash and both load without
    error, they load the same configuration, with at least one role, or a
    SHA-256 collision between the two is exhibited: a snapshot whose bytes were
    changed is refused, never executed. *)
Theorem executed_is_installed (s0 s : istore) (cfg0 cfg : Config) (h : string) (H0 : LoadInstalled s0 = (cfg0, Some h, [])) (H1 : LoadInstalled s = (cfg, Some h, [])) :
  c_Roles cfg <> [] /\ (cfg = cfg0 \/ exists t0 t f0 f, is_dirs s0 !! SnapshotDir h = Some t0 /\ is_dirs s !! SnapshotDir h = Some t /\
    read_files t0 (map fst f0) = Ok f0 /\ read_files t (map fst f) = Ok f /\ hash_collision f0 f).
Proof.
  apply LoadInstalled_reads in H0 as (t0 & fl0 & Hd0 & Hr0 & Hh0 & Hl0 & _), H1 as (t & fl & Hd & Hr & Hh & Hl & Hroles). split; [done|].
  assert (Hread : forall t fl, reads t fl -> read_files t (map fst (canonical fl)) = Ok (canonical fl)).
  { intros t' fl' Hr'. unfold canonical at 1, entries. rewrite map_map. cbn. rewrite map_id. by apply reads_files. }
  destruct (reads_commit _ _ _ _ Hr0 Hr) as [E|Hc]; [congruence| |right; exists t0, t, (canonical fl0), (canonical fl); split_and!; auto].
  left. rewrite E, Hl in Hl0. congruence.
Qed.
End loading.

(** ** A concrete store, used by the witnesses *)
Definition sx_text : GoText := {| is_print := fun z => 32 <=? z; quote := fun s => s |}.
#[local] Existing Instance sx_text.
Definition sx_yaml : ConfigYaml :=
  {| yaml_agent := fun _ => None; yaml_workflow := fun _ => None; yaml_role := fun data => Some (MkRole data [] [] None ""); yaml_gateway := fun _ => (c_Gateway zeroConfig, true) |}.
#[local] Existing Instance sx_yaml.

Definition sx_files : bundle := {[ "roles/a.yaml" := "name: a"; gateway_file := "models: {}" ]}.
Definition sx_empty : istore := MkIStore None ∅ ∅.
Definition sx_stage : stage_env := MkStageEnv true (Some ".staging-1") (fun _ => true).
Definition sx_commit : commit_env := MkCommitEnv true true true.
Definition sx_staged : istore := (StageFiles sx_empty sx_stage sx_files).2.
Definition sx_hash : string := sum (canonical sx_files).
Definition sx_installed : istore := (CommitSnapshot sx_staged ".staging-1" sx_hash sx_commit).2.

Lemma install_is_atomic_witness :
  (InstalledBundle sx_installed = Ok (Some (sx_files, sx_hash)) \/
   exists t other, is_dirs sx_installed !! SnapshotDir sx_hash = Some t /\ read_files t (map fst other) = Ok other /\ hash_collision (canonical sx_files) other) /\
  forall h, installedHashRE h = true -> h <> sx_hash -> SnapshotBundle sx_installed h = SnapshotBundle sx_empty h.
Proof.
  apply (install_is_atomic sx_empty sx_staged sx_installed sx_stage sx_commit sx_files ".staging-1" sx_hash None); vm_compute; reflexivity.
Defined.

(** The snapshot with a file beside it that nothing enumerates. *)
Definition sx_tree : tree := {[ "roles" := Dir; "roles/a.yaml" := File (Some "name: a"); gateway_file := File (Some "models: {}") ]}.
Definition sx_beside : tree := <["README" := File (Some "hello")]> sx_tree.

Lemma configuration_hash_commits_witness :
  exists f1 f2, (configFiles (Some sx_tree) = Ok (map fst f1) /\ read_files sx_tree (map fst f1) = Ok f1) /\
    (configFiles (Some sx_beside) = Ok (map fst f2) /\ read_files sx_beside (map fst f2) = Ok f2) /\ (f1 = f2 \/ hash_collision f1 f2).
Proof. apply (configuration_hash_commits sx_tree sx_beside sx_hash); vm_compute; reflexivity. Defined.

Definition sx_later : istore := set_dir sx_installed (SnapshotDir sx_hash) sx_beside.
Definition sx_config : Config := (LoadInstalled sx_installed).1.1.

Lemma executed_is_installed_witness :
  c_Roles sx_config <> [] /\ (sx_config = sx_config \/ exists t0 t f0 f, is_dirs sx_installed !! SnapshotDir sx_hash = Some t0 /\ is_dirs sx_later !! SnapshotDir sx_hash = Some t /\
    read_files t0 (map fst f0) = Ok f0 /\ read_files t (map fst f) = Ok f /\ hash_collision f0 f).
Proof. apply (executed_is_installed sx_installed sx_later sx_config sx_config sx_hash); vm_compute; reflexivity. Defined.
