(* ===== verification/Times.v ===== *)
(** * Times as the signature carries them ([time.Time.UTC], [Format] with
      [RFC3339Nano])

    A [time.Time] is its instant, nanoseconds since January 1 of year 1, and
    whether its location is UTC.  The text of a time reads back as the same
    instant. *)
From Stdlib Require Import ZifyN.
From S2P Require Import Prelude Sha256 GoStr Json Paths Ledger Config Origin Event ControlRecord Manifest.

Record GoTime : Type := MkTime { gt_ns : Z; gt_utc : bool }.
Definition UTC (t : GoTime) : GoTime := MkTime (gt_ns t) true.
(** A decoded time; only the text's [Z] gives the location UTC. *)
Definition time_of (s : string) : GoTime := MkTime (instant s) (has_suffix s "Z").

(** The year (from 1) and the day in it. *)
Definition year_day (d : Z) : Z * Z :=
  let a := d / 146097 in let r := d mod 146097 in
  let b := Z.min 3 (r / 36524) in let r := r - 36524 * b in
  let c := r / 1461 in let r := r mod 1461 in
  let e := Z.min 3 (r / 365) in
  (400 * a + 100 * b + 4 * c + e + 1, r - 365 * e).

(** The month of a day of the year: the last that starts by then. *)
Definition month_of (y yday : Z) : Z := foldl (fun m k => if month_days y k <=? yday then k else m) 1 [2; 3; 4; 5; 6; 7; 8; 9; 10; 11; 12].

(** [n] decimal digits, the last first zero-padded. *)
Fixpoint digits_of (n : nat) (v : Z) : string :=
  match n with
  | O => ""
  | S n' => digits_of n' (v / 10) +:+ String (digit_char (Z.to_N (v mod 10))) ""
  end.
(** A year: at least four digits. *)
Definition year_text (y : Z) : string := if in_range 0 9999 y then digits_of 4 y else if y <? 0 then "-" +:+ digits_of 4 (- y) else itoa y.

Fixpoint strip_zeros (r : string) : string := match r with String "0" r' => strip_zeros r' | _ => r end.
Definition frac_text (n : Z) : string := if n =? 0 then "" else "." +:+ rev_str (strip_zeros (rev_str (digits_of 9 n))).

(** [t.Format(time.RFC3339Nano)] of a UTC time. *)
Definition FormatNano (t : GoTime) : string :=
  let ns := gt_ns t in
  let secs := ns / 10 ^ 9 in let day := secs / 86400 in let s := secs mod 86400 in
  let '(y, yday) := year_day day in
  let m := month_of y yday in
  year_text y +:+ "-" +:+ digits_of 2 m +:+ "-" +:+ digits_of 2 (yday - month_days y m + 1) +:+ "T" +:+
  digits_of 2 (s / 3600) +:+ ":" +:+ digits_of 2 (s / 60 mod 60) +:+ ":" +:+ digits_of 2 (s mod 60) +:+ frac_text (ns mod 10 ^ 9) +:+ "Z".

Example formats :
  map (fun s => FormatNano (UTC (time_of s)))
    ["0001-01-01T00:00:00Z"; "2024-02-29T23:59:59.120Z"; "1970-01-01T01:00:00+01:00"; "2000-12-31T23:30:00.000000001-01:00"; "2100-02-28T24:00:00Z"]
  = ["0001-01-01T00:00:00Z"; "2024-02-29T23:59:59.12Z"; "1970-01-01T00:00:00Z"; "2001-01-01T00:30:00.000000001Z"; "2100-03-01T00:00:00Z"].
Proof. vm_compute. reflexivity. Qed.

Ltac z_arith := Z.to_euclidean_division_equations; lia.

(** ** The calendar *)
Lemma year_day_spec d : let '(y, yday) := year_day d in 0 <= yday <= 365 /\ 365 * (y - 1) + (y - 1) / 4 - (y - 1) / 100 + (y - 1) / 400 + yday = d.
Proof.
  unfold year_day. set (a := d / 146097). set (r := d mod 146097). assert (Hd : d = 146097 * a + r) by (apply Z.div_mod; lia).
  assert (Hr : 0 <= r < 146097) by (apply Z.mod_pos_bound; lia). clearbody a r.
  set (b := Z.min 3 (r / 36524)). assert (Hb : 0 <= b <= 3 /\ 0 <= r - 36524 * b <= 36524) by (unfold b; z_arith).
  set (r' := r - 36524 * b) in *. assert (Hr' : r = 36524 * b + r') by lia. clearbody b r'.
  set (c := r' / 1461). assert (Hc : r' = 1461 * c + r' mod 1461) by (apply Z.div_mod; lia).
  assert (Hm : 0 <= r' mod 1461 < 1461) by (apply Z.mod_pos_bound; lia). set (q := r' mod 1461) in *. clearbody c q.
  set (e := Z.min 3 (q / 365)). assert (He : 0 <= e <= 3 /\ 0 <= q - 365 * e <= 365) by (unfold e; z_arith). clearbody e. split; [lia|].
  replace (400 * a + 100 * b + 4 * c + e + 1 - 1) with (400 * a + 100 * b + 4 * c + e) by lia.
  assert (0 <= c <= 24) by lia.
  assert ((400 * a + 100 * b + 4 * c + e) / 4 = 100 * a + 25 * b + c) as -> by z_arith.
  assert ((400 * a + 100 * b + 4 * c + e) / 100 = 4 * a + b) as -> by z_arith.
  assert ((400 * a + 100 * b + 4 * c + e) / 400 = a) as -> by z_arith. lia.
Qed.

(** Only the leap flag of the year matters, so the days of both kinds of year
    can be checked one by one. *)
Definition leap_days (lp : bool) (m : Z) : Z :=
  if m =? 2 then (if lp then 29 else 28) else if (m =? 4) || (m =? 6) || (m =? 9) || (m =? 11) then 30 else 31.
Definition leap_month_days (lp : bool) (m : Z) : Z :=
  foldr (fun k n => if k <? m then leap_days lp k + n else n) 0 [1; 2; 3; 4; 5; 6; 7; 8; 9; 10; 11; 12].
Definition leap_month_of (lp : bool) (yday : Z) : Z :=
  foldl (fun m k => if leap_month_days lp k <=? yday then k else m) 1 [2; 3; 4; 5; 6; 7; 8; 9; 10; 11; 12].
Definition month_fits (lp : bool) (yday : Z) : bool :=
  in_range 1 12 (leap_month_of lp yday) && in_range 0 31 (yday - leap_month_days lp (leap_month_of lp yday)).

Lemma months_fit lp yday : 0 <= yday <= 365 -> month_fits lp yday = true.
Proof.
  intros Hy. assert (Ha : forallb (fun n => month_fits lp (Z.of_nat n)) (seq 0 366) = true) by (destruct lp; by vm_compute).
  rewrite List.forallb_forall in Ha. specialize (Ha (Z.to_nat yday)). rewrite Z2Nat.id in Ha by lia. apply Ha, in_seq. lia.
Qed.

Lemma month_days_leap y : month_days y = leap_month_days (leap y).
Proof. reflexivity. Qed.
Lemma month_of_leap y yday : month_of y yday = leap_month_of (leap y) yday.
Proof. unfold month_of. by rewrite month_days_leap. Qed.

Lemma month_of_spec y yday : 0 <= yday <= 365 -> 1 <= month_of y yday <= 12 /\ 0 <= yday - month_days y (month_of y yday) <= 31.
Proof.
  intros Hy. pose proof (months_fit (leap y) yday Hy) as Hf. unfold month_fits in Hf.
  rewrite month_of_leap, month_days_leap. generalize dependent (leap_month_of (leap y) yday). intros m Hf.
  generalize dependent (leap_month_days (leap y) m). intros n Hf. unfold in_range in Hf. bool_prop. lia.
Qed.

(** ** Digits *)
Definition digit (v : Z) : ascii := digit_char (Z.to_N (v mod 10)).
Lemma mod10 v : 0 <= v mod 10 < 10.
Proof. by apply Z.mod_pos_bound. Qed.
Lemma mod10N v : (Z.to_N (v mod 10) < 10)%N.
Proof. pose proof (mod10 v) as H. revert H. generalize (v mod 10). intros. lia. Qed.
Lemma digit_val_digit v : digit_val (digit v) = Some (Z.to_N (v mod 10)).
Proof. apply digit_val_char, mod10N. Qed.
Lemma is_digit_digit v : is_digit (digit v) = true.
Proof. apply digit_char_is_digit, mod10N. Qed.

Lemma two_z_digits a b : two_z (digit a) (digit b) = 10 * (a mod 10) + b mod 10.
Proof.
  unfold two_z, two_digits. rewrite !digit_val_digit. cbn [default]. 
  rewrite N2Z.inj_add, N2Z.inj_mul, !Z2N.id by apply mod10. reflexivity.
Qed.
Lemma two_text v : 0 <= v < 100 -> exists a b, digits_of 2 v = String a (String b "") /\ two_z a b = v.
Proof. intros Hv. exists (digit (v / 10)), (digit v). split; [done|]. rewrite two_z_digits. z_arith. Qed.
Lemma four_text v : 0 <= v <= 9999 -> exists a b c d, digits_of 4 v = String a (String b (String c (String d ""))) /\ 100 * two_z a b + two_z c d = v.
Proof.
  intros Hv. exists (digit (v / 10 / 10 / 10)), (digit (v / 10 / 10)), (digit (v / 10)), (digit v). split; [done|]. rewrite !two_z_digits. z_arith.
Qed.

(** ** Fractions *)
Abbreviation chars := String.list_ascii_of_string.
Lemma chars_app s t : chars (s +:+ t) = (chars s ++ chars t)%list.
Proof. induction s as [|c s IH]; [done|]. rewrite app_cons_str. cbn. by rewrite IH. Qed.

Lemma frac_zeros k u j l : frac_nanos k u (chars (zeros j) ++ "Z"%char :: l) = 0.
Proof. revert k u. induction j as [|j IH]; intros [|k] u; try done. cbn [zeros chars app frac_nanos]. change (digit_val "0") with (Some 0%N). cbn match. by rewrite IH. Qed.
Lemma frac_strip k u s j : frac_nanos k u (chars (s +:+ zeros j) ++ ["Z"%char]) = frac_nanos k u (chars s ++ ["Z"%char]).
Proof.
  revert k u. induction s as [|c s IH]; intros k u.
  - rewrite (frac_zeros _ _ j []), <- (frac_zeros k u 0 []). done.
  - rewrite app_cons_str. cbn [chars app]. destruct k as [|k]; [done|]. cbn [frac_nanos]. by rewrite IH.
Qed.

Lemma strip_zeros_spec r : exists j, r = zeros j +:+ strip_zeros r.
Proof.
  induction r as [|c r [j IH]]; [by exists 0%nat|]. destruct (ascii_eqb c "0") eqn:E.
  - apply ascii_eqb_true in E as ->. exists (S j). cbn [strip_zeros zeros]. rewrite app_cons_str. by f_equal.
  - exists 0%nat. cbn [strip_zeros]. apply ascii_eqb_false in E. by destruct c as [[] [] [] [] [] [] [] []].
Qed.
Lemma rev_zeros j : rev_str (zeros j) = zeros j.
Proof.
  assert (Hc : forall j, zeros j +:+ "0" = zeros (S j)) by (intros n; induction n as [|n IH]; [done|]; cbn [zeros]; by rewrite app_cons_str, IH).
  induction j as [|j IH]; [done|]. change (zeros (S j)) with ("0" +:+ zeros j). rewrite rev_str_app, IH. apply Hc.
Qed.

Lemma frac_digit k u v l : frac_nanos (S k) u (digit v :: l) = v mod 10 * u + frac_nanos k (u / 10) l.
Proof. cbn [frac_nanos]. rewrite digit_val_digit. rewrite Z2N.id by apply mod10. done. Qed.

Lemma frac_nine n : 0 <= n < 10 ^ 9 -> frac_nanos 9 100000000 (chars (digits_of 9 n) ++ ["Z"%char]) = n.
Proof.
  intros Hn.
  change (chars (digits_of 9 n)) with [digit (n / 10 / 10 / 10 / 10 / 10 / 10 / 10 / 10); digit (n / 10 / 10 / 10 / 10 / 10 / 10 / 10); digit (n / 10 / 10 / 10 / 10 / 10 / 10); digit (n / 10 / 10 / 10 / 10 / 10); digit (n / 10 / 10 / 10 / 10); digit (n / 10 / 10 / 10); digit (n / 10 / 10); digit (n / 10); digit n].
  cbn [app]. rewrite !frac_digit. cbn [frac_nanos]. change (10 ^ 9) with 1000000000 in Hn.
  repeat match goal with |- context [Zpos ?u / 10] => let v := eval vm_compute in (Zpos u / 10) in change (Zpos u / 10) with v end.
  z_arith.
Qed.

Lemma all_chars_app p s t : all_chars p (s +:+ t) = all_chars p s && all_chars p t.
Proof. induction s as [|c s IH]; [done|]. rewrite app_cons_str. cbn. by rewrite IH, andb_assoc. Qed.
Lemma digits_of_all k v : all_chars is_digit (digits_of k v) = true.
Proof. revert v. induction k as [|k IH]; intros v; [done|]. cbn [digits_of]. rewrite all_chars_app, IH. cbn [all_chars]. change (digit_char (Z.to_N (v mod 10))) with (digit v). by rewrite is_digit_digit. Qed.

Lemma frac_text_chars n : 0 <= n < 10 ^ 9 -> n <> 0 ->
  exists s, frac_text n = String "." s /\ frac_nanos 9 100000000 (chars s ++ ["Z"%char]) = n /\ all_chars is_digit s = true.
Proof.
  intros Hn H0. unfold frac_text. rewrite (proj2 (Z.eqb_neq _ _) H0). eexists. split; [reflexivity|].
  destruct (strip_zeros_spec (rev_str (digits_of 9 n))) as [j Hj]. apply (f_equal rev_str) in Hj. rewrite rev_str_rev, rev_str_app, rev_zeros in Hj.
  split.
  - rewrite <- (frac_nine n Hn) at 2. rewrite Hj at 2. by rewrite frac_strip.
  - pose proof (digits_of_all 9 n) as Ha. rewrite Hj, all_chars_app in Ha. by apply andb_true_iff in Ha as [-> _].
Qed.

(** ** The text *)
Lemma drop_digits_all s l : all_chars is_digit s = true -> drop_digits (chars s ++ "Z"%char :: l) = "Z"%char :: l.
Proof. induction s as [|c s IH]; [done|]. cbn [all_chars chars app drop_digits]. intros [-> Hs]%andb_true_iff. by apply IH. Qed.

(** A time within the years a four-digit text can hold. *)
Definition in_years (t : GoTime) : Prop := 0 <= (year_day (gt_ns t / 10 ^ 9 / 86400)).1 <= 9999.

Lemma frac_zone n : 0 <= n < 10 ^ 9 ->
  match chars (frac_text n +:+ "Z") with
  | p :: r => if ascii_eqb p "."%char then (frac_nanos 9 100000000 r, drop_digits r) else (0, chars (frac_text n +:+ "Z"))
  | [] => (0, [])
  end = (n, ["Z"%char]).
Proof.
  intros Hn. destruct (decide (n = 0)) as [->|H0]; [done|]. destruct (frac_text_chars n Hn H0) as (s & -> & Hs & Ha).
  rewrite app_cons_str. cbn [chars]. rewrite ascii_eqb_refl, chars_app. cbn [chars]. by rewrite Hs, drop_digits_all.
Qed.

Lemma nil_app_str (s : string) : "" +:+ s = s.
Proof. done. Qed.

(** Formatting keeps the instant. *)
Lemma instant_format t : in_years t -> instant (FormatNano t) = gt_ns t.
Proof.
  unfold in_years, FormatNano. set (secs := gt_ns t / 10 ^ 9). set (day := secs / 86400). set (s := secs mod 86400).
  pose proof (year_day_spec day) as Hy. destruct (year_day day) as [y yday]. destruct Hy as [Hyd Hday]. cbn [fst]. intros Hyr.
  destruct (month_of_spec y yday Hyd) as [Hm Hd]. set (m := month_of y yday) in *. clearbody m.
  unfold year_text. replace (in_range 0 9999 y) with true by (symmetry; unfold in_range; apply andb_true_iff; split; apply Z.leb_le; lia).
  assert (Hs : 0 <= s < 86400) by (apply Z.mod_pos_bound; lia).
  assert (Hn : 0 <= gt_ns t mod 10 ^ 9 < 10 ^ 9) by (apply Z.mod_pos_bound; lia).
  destruct (four_text y Hyr) as (y1 & y2 & y3 & y4 & -> & Ey). destruct (two_text m) as (m1 & m2 & -> & Em); [lia|].
  destruct (two_text (yday - month_days y m + 1)) as (d1 & d2 & -> & Ed); [lia|].
  destruct (two_text (s / 3600)) as (h1 & h2 & -> & Eh); [z_arith|]. destruct (two_text (s / 60 mod 60)) as (n1 & n2 & -> & En); [z_arith|].
  destruct (two_text (s mod 60)) as (s1 & s2 & -> & Es); [z_arith|].
  repeat (rewrite app_cons_str || rewrite nil_app_str). unfold instant. cbn [chars]. rewrite frac_zone by done.
  rewrite Ey, Em, Ed, Eh, En, Es. cbn [zone_seconds]. unfold day_number.
  assert (gt_ns t = secs * 10 ^ 9 + gt_ns t mod 10 ^ 9) as E by (unfold secs; rewrite Z.mul_comm; apply Z.div_mod; lia).
  assert (secs = 86400 * day + s) by (apply Z.div_mod; lia). change (10 ^ 9) with 1000000000 in *. rewrite E. generalize dependent (gt_ns t mod 1000000000). intros q.
  intros. clear E. assert (s = 3600 * (s / 3600) + 60 * (s / 60 mod 60) + s mod 60) by z_arith. lia.
Qed.

Lemma frac_text_no_byte c n : is_digit c = false -> c <> "."%char -> has_byte c (frac_text n) = false.
Proof.
  intros Hc Hd. unfold frac_text. destruct (n =? 0); [done|].
  destruct (strip_zeros_spec (rev_str (digits_of 9 n))) as [j Hj]. apply (f_equal rev_str) in Hj. rewrite rev_str_rev, rev_str_app in Hj.
  pose proof (digits_of_all 9 n) as Ha. rewrite Hj, all_chars_app in Ha. apply andb_true_iff in Ha as [Ha _].
  rewrite has_byte_app, (digits_no_byte _ _ Hc Ha). rewrite orb_false_r. cbn [has_byte]. rewrite orb_false_r. by apply ascii_eqb_false.
Qed.

(** The bytes of a time's text. *)
Lemma format_no_byte c t : is_digit c = false -> contains ["-"; "T"; ":"; "."; "Z"] (String c "") = false -> has_byte c (FormatNano t) = false.
Proof.
  intros Hc Ho. apply contains_false in Ho. rewrite !not_elem_of_cons in Ho. destruct Ho as (H1 & H2 & H3 & H4 & H5 & _).
  assert (Hd : forall k v, has_byte c (digits_of k v) = false) by (intros; apply digits_no_byte; [done|apply digits_of_all]).
  assert (Hp : forall d, String c "" <> String d "" -> has_byte c (String d "") = false)
    by (intros d Hcd; cbn [has_byte]; rewrite orb_false_r; apply ascii_eqb_false; congruence).
  unfold FormatNano. destruct (year_day _) as [y yday]. rewrite !has_byte_app, !Hd, !Hp by done. rewrite frac_text_no_byte by (done || congruence).
  rewrite !orb_false_r. unfold year_text. destruct (in_range 0 9999 y); [done|]. destruct (y <? 0); [by rewrite has_byte_app, Hd, Hp|].
  apply itoa_no_byte; congruence.
Qed.
Lemma format_nonempty t : FormatNano t <> "".
Proof.
  unfold FormatNano. destruct (year_day _) as [y yday]. match goal with |- ?a +:+ "-" +:+ ?b <> _ => generalize a, b end.
  intros a b E. apply (f_equal String.length) in E. rewrite length_app_str, app_cons_str in E. cbn [String.length] in E. lia.
Qed.
