(* ===== verification/Signed.v ===== *)
(** * Signatures of an install ([internal/config]: [signature.go],
      [signaturefile.go], [verifyfloor.go])

    The six signed lines, the file that carries them with their signature, and
    the one-line floor an execution point remembers.  Ed25519 is a class
    parameter. *)
From Stdlib Require Import ZifyN.
From S2P Require Import Prelude Sha256 GoStr Json Paths Ledger Config Origin Event Attest ControlRecord Manifest Snapshot Times.

(** ** Standard base64 *)

(** The six-bit digits. *)
Definition b64_char (v : N) : ascii :=
  (if v <? 26 then ascii_of_N (65 + v) else if v <? 52 then ascii_of_N (71 + v) else if v <? 62 then ascii_of_N (v - 4)
   else if v =? 62 then "+" else "/")%N%char.
Definition b64_val (c : ascii) : option N :=
  let v := N_of_ascii c in
  (if (65 <=? v) && (v <=? 90) then Some (v - 65) else if (97 <=? v) && (v <=? 122) then Some (v - 71)
   else if (48 <=? v) && (v <=? 57) then Some (v + 4) else if v =? 43 then Some 62 else if v =? 47 then Some 63 else None)%N.

Definition quad1 (a : N) : N := (a / 4)%N.
Definition quad2 (a b : N) : N := (a mod 4 * 16 + b / 16)%N.
Definition quad3 (b c : N) : N := (b mod 16 * 4 + c / 64)%N.
Definition quad4 (c : N) : N := (c mod 64)%N.

(** [base64.StdEncoding.EncodeToString] *)
Fixpoint b64_encode (s : string) : string :=
  match s with
  | EmptyString => ""
  | String a EmptyString =>
      let a := N_of_ascii a in String (b64_char (quad1 a)) (String (b64_char (quad2 a 0)) "==")
  | String a (String b EmptyString) =>
      let a := N_of_ascii a in let b := N_of_ascii b in
      String (b64_char (quad1 a)) (String (b64_char (quad2 a b)) (String (b64_char (quad3 b 0)) "="))
  | String a (String b (String c r)) =>
      let a := N_of_ascii a in let b := N_of_ascii b in let c := N_of_ascii c in
      String (b64_char (quad1 a)) (String (b64_char (quad2 a b)) (String (b64_char (quad3 b c)) (String (b64_char (quad4 c)) (b64_encode r))))
  end.

Definition carriage_return : ascii := "013"%char.
Definition b64_ignored (c : ascii) : bool := ascii_eqb c newline || ascii_eqb c carriage_return.
Fixpoint drop_ignored (s : string) : string :=
  match s with
  | EmptyString => ""
  | String c r => if b64_ignored c then drop_ignored r else String c (drop_ignored r)
  end.

Definition byte1 (p q : N) : ascii := ascii_of_N (p * 4 + q / 16)%N.
Definition byte2 (q r : N) : ascii := ascii_of_N (q mod 16 * 16 + r / 4)%N.
Definition byte3 (r s : N) : ascii := ascii_of_N (r mod 4 * 64 + s)%N.

(** The quanta; the bits a final one does not use are not looked at. *)
Fixpoint b64_quanta (s : string) : option string :=
  match s with
  | EmptyString => Some ""
  | String a (String b (String c (String d rest))) =>
      match b64_val a, b64_val b with
      | Some p, Some q =>
          match b64_val c with
          | Some r =>
              match b64_val d with
              | Some t => match b64_quanta rest with Some out => Some (String (byte1 p q) (String (byte2 q r) (String (byte3 r t) out))) | None => None end
              | None => if ascii_eqb d "=" && bool_decide (rest = "") then Some (String (byte1 p q) (String (byte2 q r) "")) else None
              end
          | None => if ascii_eqb c "=" && ascii_eqb d "=" && bool_decide (rest = "") then Some (String (byte1 p q) "") else None
          end
      | _, _ => None
      end
  | _ => None
  end.
(** [base64.StdEncoding.DecodeString] *)
Definition b64_decode (s : string) : option string := b64_quanta (drop_ignored s).

(** ** The payload *)
Definition SignatureFormatV1 : string := "agenthof-config-signature/v1".
Definition logIDRE (s : string) : bool := lower_hex_of_len 32 s.
Definition keyIDRE (s : string) : bool := lower_hex_of_len 64 s.
Definition KeyID (pub : string) : string := sha256_hex pub.
Definition nl : string := String newline "".

Inductive payload_error : Type := BadHash | BadLogID | BadVersion | NotUTC | BadKeyID.

Definition payload_text (hash logID version at_ keyID : string) : string :=
  SignatureFormatV1 +:+ nl +:+
  "hash: " +:+ hash +:+ nl +:+
  "log_id: " +:+ logID +:+ nl +:+
  "version: " +:+ version +:+ nl +:+
  "installed_at: " +:+ at_ +:+ nl +:+
  "key_id: " +:+ keyID +:+ nl.

Definition SignaturePayload (hash logID : string) (version : Z) (at_ : GoTime) (keyID : string) : result payload_error string :=
  if negb (installedHashRE hash) then Err BadHash
  else if negb (logIDRE logID) then Err BadLogID
  else if version <? 1 then Err BadVersion
  else if negb (gt_utc at_) then Err NotUTC
  else if negb (keyIDRE keyID) then Err BadKeyID
  else Ok (payload_text hash logID (itoa version) (FormatNano at_) keyID).

(** crypto/ed25519 *)
Class Ed25519 := { ed_public : string -> string; ed_sign : string -> string -> string; ed_verify : string -> string -> string -> bool }.
Definition SignatureSize : nat := 64.

Section signing.
  Context `{Ed25519}.

Definition Sign (priv payload : string) : string := b64_encode (ed_sign priv payload).
Definition Verify (pub payload sig : string) : bool :=
  match b64_decode sig with
  | Some raw => if Nat.eqb (String.length raw) SignatureSize then ed_verify pub payload raw else false
  | None => false
  end.
End signing.

(** ** The signature file *)
Definition SignaturePath (hash : string) : string := SnapshotDir hash +:+ ".sig".

Record SignatureFile : Type := MkSigFile {
  sf_Payload : string; sf_Hash : string; sf_LogID : string; sf_Version : Z; sf_InstalledAt : string; sf_KeyID : string; sf_Sig : string;
}.

Inductive sigfile_error : Type :=
  | CarriageReturn
  | UnsupportedFormat (first : string)
  | NoTrailingNewline
  | LineCount (n : nat)
  | WantField (line : Z)
  | MalformedLine (line : Z).

Definition versionRE (s : string) : bool :=
  match s with String c r => is_digit c && negb (ascii_eqb c "0") && all_chars is_digit r | EmptyString => false end.

Definition SignatureFileBytes (payload sig : string) : string := payload +:+ "signature: " +:+ sig +:+ nl.

Definition clip (b : string) : string := take_str 64 b.
(** [bytes.Cut] at a newline. *)
Definition first_line (s : string) : string := default "" (head (split_on newline s)).

(** The closure [value] of [ParseSignatureFile]. *)
Definition sig_value (line : Z) (name text : string) : result sigfile_error string :=
  match cut_prefix (name +:+ ": ") text with Some v => Ok v | None => Err (WantField line) end.
Definition sig_guard (line : Z) (ok : bool) : result sigfile_error () := if ok then Ok () else Err (MalformedLine line).

Definition installed_at_ok (s : string) : bool := negb (bool_decide (s = "")) && negb (has_byte " " s) && negb (has_byte "009" s).
Definition sig_ok (s : string) : bool :=
  match b64_decode s with Some raw => Nat.eqb (String.length raw) SignatureSize | None => false end.

Definition ParseSignatureFile (data : string) : result sigfile_error SignatureFile :=
  if has_byte carriage_return data then Err CarriageReturn
  else if negb (bool_decide (first_line data = SignatureFormatV1)) then Err (UnsupportedFormat (clip (first_line data)))
  else if negb (has_suffix data nl) then Err NoTrailingNewline
  else match split_on newline (trim_suffix data nl) with
       | [l0; l1; l2; l3; l4; l5; l6] =>
           let! hash := sig_value 2 "hash" l1 in
           let! _ := sig_guard 2 (installedHashRE hash) in
           let! logID := sig_value 3 "log_id" l2 in
           let! _ := sig_guard 3 (logIDRE logID) in
           let! v := sig_value 4 "version" l3 in
           let! _ := sig_guard 4 (versionRE v) in
           let! version := match parse_int64 v with Some n => Ok n | None => Err (MalformedLine 4) end in
           let! at_ := sig_value 5 "installed_at" l4 in
           let! _ := sig_guard 5 (installed_at_ok at_) in
           let! keyID := sig_value 6 "key_id" l5 in
           let! _ := sig_guard 6 (keyIDRE keyID) in
           let! sig := sig_value 7 "signature" l6 in
           let! _ := sig_guard 7 (sig_ok sig) in
           Ok (MkSigFile (join nl [l0; l1; l2; l3; l4; l5] +:+ nl) hash logID version at_ keyID sig)
       | lines => Err (LineCount (length lines))
       end.

(** The store's [.sig] written by rename; [ok] says whether every step
    before the rename and the rename itself succeeded. *)
Definition WriteSignatureFile (s : istore) (hash payload sig : string) (ok : bool) : option config_error * istore :=
  if negb (installedHashRE hash) then (Some (MalformedHash hash), s)
  else if ok then (None, MkIStore (is_current s) (is_dirs s) (<[SignaturePath hash := Some (SignatureFileBytes payload sig)]> (is_sigs s)))
  else (Some StoreIO, s).

(** ** The floor *)
Inductive floor_error : Type := FloorCR | FloorNoNewline | FloorLines | FloorFields (n : nat) | FloorLogID | FloorVersion.

Definition VerifyFloorBytes (logID : string) (version : Z) : string := logID +:+ " " +:+ itoa version +:+ nl.

Definition ParseVerifyFloor (data : string) : result floor_error (string * Z) :=
  if has_byte carriage_return data then Err FloorCR
  else if negb (has_suffix data nl) then Err FloorNoNewline
  else
    let line := trim_suffix data nl in
    if has_byte newline line then Err FloorLines
    else match split_on " " line with
         | [logID; v] =>
             if negb (logIDRE logID) then Err FloorLogID
             else if negb (versionRE v) then Err FloorVersion
             else match parse_int64 v with Some n => Ok (logID, n) | None => Err FloorVersion end
         | fields => Err (FloorFields (length fields))
         end.

(** ** Base64 *)
(** What is checked on each of the 64 digits holds of all. *)
Lemma digits64 (P : N -> bool) v : forallb P (map N.of_nat (seq 0 64)) = true -> (v < 64)%N -> P v = true.
Proof.
  rewrite List.forallb_forall. intros Ha Hv. apply Ha, in_map_iff. exists (N.to_nat v). rewrite N2Nat.id. split; [done|]. apply in_seq. lia.
Qed.
Lemma b64_val_char v : (v < 64)%N -> b64_val (b64_char v) = Some v.
Proof. intros Hv. apply (digits64 (fun v => bool_decide (b64_val (b64_char v) = Some v))) in Hv; [by case_bool_decide|by vm_compute]. Qed.
Lemma b64_char_kept v : (v < 64)%N -> b64_ignored (b64_char v) = false.
Proof. intros Hv. apply (digits64 (fun v => negb (b64_ignored (b64_char v)))) in Hv; [by apply negb_true_iff|by vm_compute]. Qed.

Lemma byte_lt c : (N_of_ascii c < 256)%N.
Proof. apply N_ascii_bounded. Qed.

Ltac n_arith := unfold quad1, quad2, quad3, quad4; zify; Z.to_euclidean_division_equations; lia.

Lemma quanta_bounds a b c : (a < 256)%N -> (b < 256)%N -> (c < 256)%N ->
  (quad1 a < 64)%N /\ (quad2 a b < 64)%N /\ (quad3 b c < 64)%N /\ (quad4 c < 64)%N.
Proof. intros. repeat split; n_arith. Qed.
Lemma bytes_back a b c : (a < 256)%N -> (b < 256)%N -> (c < 256)%N ->
  byte1 (quad1 a) (quad2 a b) = ascii_of_N a /\ byte2 (quad2 a b) (quad3 b c) = ascii_of_N b /\ byte3 (quad3 b c) (quad4 c) = ascii_of_N c.
Proof. intros. unfold byte1, byte2, byte3. repeat split; f_equal; n_arith. Qed.

Lemma b64_quanta_encode s : b64_quanta (b64_encode s) = Some s.
Proof.
  induction s as [s IH] using (induction_ltof1 _ String.length). unfold ltof in IH.
  destruct s as [|a [|b [|c r]]]; [done|..]; cbn [b64_encode b64_quanta].
  - destruct (quanta_bounds (N_of_ascii a) 0 0) as (? & ? & _); [apply byte_lt|done|done|].
    rewrite !b64_val_char by done. cbn. destruct (bytes_back (N_of_ascii a) 0 0) as (-> & _); [apply byte_lt|done|done|]. by rewrite ascii_N_embedding.
  - destruct (quanta_bounds (N_of_ascii a) (N_of_ascii b) 0) as (? & ? & ? & _); [apply byte_lt|apply byte_lt|done|].
    rewrite !b64_val_char by done. cbn. destruct (bytes_back (N_of_ascii a) (N_of_ascii b) 0) as (-> & -> & _); [apply byte_lt|apply byte_lt|done|].
    by rewrite !ascii_N_embedding.
  - destruct (quanta_bounds (N_of_ascii a) (N_of_ascii b) (N_of_ascii c)) as (? & ? & ? & ?); try apply byte_lt.
    rewrite !b64_val_char by done. rewrite IH by (cbn; lia).
    destruct (bytes_back (N_of_ascii a) (N_of_ascii b) (N_of_ascii c)) as (-> & -> & ->); try apply byte_lt. by rewrite !ascii_N_embedding.
Qed.

Definition plain64 (s : string) : Prop := drop_ignored s = s /\ has_byte newline s = false /\ has_byte carriage_return s = false.
Lemma plain64_cons c s : b64_ignored c = false -> plain64 s -> plain64 (String c s).
Proof.
  intros Hc (Hd & Hn & Hr). unfold plain64. cbn [drop_ignored has_byte]. rewrite Hc, Hd, Hn, Hr.
  apply orb_false_iff in Hc as [H1%ascii_eqb_false H2%ascii_eqb_false]. by rewrite !(proj2 (ascii_eqb_false _ _)) by congruence.
Qed.

Lemma b64_encode_plain s : plain64 (b64_encode s).
Proof.
  induction s as [s IH] using (induction_ltof1 _ String.length). unfold ltof in IH.
  destruct s as [|a [|b [|c r]]]; [done|..]; cbn [b64_encode].
  - destruct (quanta_bounds (N_of_ascii a) 0 0) as (? & ? & _); [apply byte_lt|done|done|]. by repeat (apply plain64_cons; [by apply b64_char_kept|]).
  - destruct (quanta_bounds (N_of_ascii a) (N_of_ascii b) 0) as (? & ? & ? & _); [apply byte_lt|apply byte_lt|done|].
    by repeat (apply plain64_cons; [by apply b64_char_kept|]).
  - destruct (quanta_bounds (N_of_ascii a) (N_of_ascii b) (N_of_ascii c)) as (? & ? & ? & ?); try apply byte_lt.
    repeat (apply plain64_cons; [by apply b64_char_kept|]). apply IH. cbn. lia.
Qed.

Lemma b64_roundtrip s : b64_decode (b64_encode s) = Some s.
Proof. unfold b64_decode. rewrite (proj1 (b64_encode_plain s)). apply b64_quanta_encode. Qed.

(** ** Shortest decimals *)
Lemma str_snoc_ind (P : string -> Prop) : P "" -> (forall s c, P s -> P (s +:+ String c "")) -> forall s, P s.
Proof.
  intros H0 Hs s. rewrite <- (rev_str_rev s). generalize (rev_str s) as r. intros r. induction r as [|c r IH]; [done|].
  change (String c r) with (String c "" +:+ r). rewrite rev_str_app. by apply Hs.
Qed.

Lemma dec_value_snoc s c a : dec_value (s +:+ String c "") a = match dec_value s a with Some v => match digit_val c with Some d => Some (v * 10 + d)%N | None => None end | None => None end.
Proof.
  revert a. induction s as [|h s IH]; intros a; [reflexivity|]. rewrite app_cons_str. cbn [dec_value].
  destruct (digit_val h); [apply IH|done].
Qed.

Lemma digit_val_is c d : digit_val c = Some d -> (d < 10)%N /\ c = digit_char d.
Proof.
  unfold digit_val. destruct (_ && _) eqn:E; [|done]. intros [= <-]. apply andb_true_iff in E as [?%N.leb_le ?%N.leb_le]. split; [lia|].
  unfold digit_char. rewrite <- (ascii_N_embedding c) at 1. f_equal. lia.
Qed.

Lemma versionRE_snoc s c : versionRE (s +:+ String c "") = true -> s = "" /\ c <> "0"%char \/ versionRE s = true.
Proof.
  destruct s as [|h s]; [cbn; intros [[_ H]%andb_true_iff _]%andb_true_iff; left; split; [done|]; apply negb_true_iff in H; by apply ascii_eqb_false|].
  intros H. right. rewrite app_cons_str in H. cbn [versionRE] in *. apply andb_true_iff in H as [-> H]. clear -H.
  cbn. induction s as [|d s IH]; [done|]. rewrite app_cons_str in H. cbn in *. apply andb_true_iff in H as [-> H]. auto.
Qed.

Lemma dec_digits_shortest s n : versionRE s = true -> dec_value s 0 = Some n ->
  n <> 0%N /\ forall f acc, (N.size_nat n < f)%nat -> dec_digits f n acc = s +:+ acc.
Proof.
  revert n. induction s as [|s c IH] using str_snoc_ind; intros n Hv Hn; [done|].
  rewrite dec_value_snoc in Hn. destruct (dec_value s 0) as [v|] eqn:Ev; [|done]. destruct (digit_val c) as [d|] eqn:Ed; [|done].
  injection Hn as <-. apply digit_val_is in Ed as [Hd ->]. apply versionRE_snoc in Hv as [[-> Hc]|Hv].
  - injection Ev as <-. assert (d <> 0)%N by (by intros ->). split; [lia|]. intros [|f] acc Hf; [lia|]. cbn [dec_digits].
    rewrite N.add_0_l. by rewrite N.div_small, N.mod_small by lia.
  - destruct (IH _ Hv eq_refl) as [Hn0 Hg]. split; [lia|]. intros [|f] acc Hf; [lia|]. cbn [dec_digits].
    assert (Hdiv : ((v * 10 + d) / 10 = v)%N) by (rewrite N.div_add_l, N.div_small by lia; lia).
    assert (Hmod : ((v * 10 + d) mod 10 = d)%N) by (rewrite N.add_comm, N.Div0.mod_add, N.mod_small by lia; lia).
    rewrite Hdiv, Hmod. destruct (N.eqb_spec v 0) as [|_]; [done|]. pose proof (N_size_div10 (v * 10 + d)) as Hs. rewrite Hdiv in Hs.
    rewrite Hg by (specialize (Hs Hn0); lia). by rewrite app_assoc_str.
Qed.

Lemma parse_int64_digits c r : is_digit c = true ->
  parse_int64 (String c r) = match parse_N (String c r) with Some n => if Z.of_N n <=? max_int64 then Some (Z.of_N n) else None | None => None end.
Proof. intros Hc. unfold parse_int64. destruct c as [[] [] [] [] [] [] [] []]; done. Qed.

(** The accepted version texts are the ones [Itoa] prints. *)
Lemma version_text s n : versionRE s = true /\ parse_int64 s = Some n <-> s = itoa n /\ 1 <= n <= max_int64.
Proof.
  split.
  - intros [Hv Hp]. destruct s as [|c r]; [done|]. assert (Hc : is_digit c = true) by (cbn [versionRE] in Hv; by apply andb_true_iff in Hv as [[? _]%andb_true_iff _]).
    rewrite parse_int64_digits in Hp by done. unfold parse_N in Hp. destruct (dec_value _ 0) as [m|] eqn:Em; [|done].
    destruct (Z.leb_spec (Z.of_N m) max_int64) as [Hm|]; [|done]. injection Hp as <-.
    destruct (dec_digits_shortest _ _ Hv Em) as [H0 Hg]. split; [|lia]. unfold itoa. rewrite (proj2 (Z.ltb_ge _ _)) by lia.
    unfold dec_N. rewrite N2Z.id, Hg by lia. by rewrite app_nil_str.
  - intros [-> Hn]. split; [|apply parse_int64_itoa; unfold min_int64; lia]. unfold itoa. rewrite (proj2 (Z.ltb_ge _ _)) by lia. unfold dec_N.
    assert (Ha : all_chars is_digit (dec_N (Z.to_N n)) = true) by (by apply dec_digits_all). unfold dec_N in Ha.
    destruct (dec_digits_cons (N.size_nat (Z.to_N n)) (Z.to_N n) "") as (c & r & E). rewrite E in *. cbn [versionRE all_chars] in *. apply andb_true_iff in Ha as [-> ->].
    rewrite andb_true_r. apply negb_true_iff, ascii_eqb_false. eapply dec_digits_lead; [..|exact E]; lia.
Qed.

(** ** Lines *)
Lemma join_split c s : join (String c "") (split_on c s) = s.
Proof.
  induction s as [|d s IH]; [done|]. cbn [split_on]. destruct (split_on c s) as [|w ws] eqn:Es; [by destruct s; cbn in Es; repeat case_match|].
  destruct (ascii_eqb c d) eqn:E.
  - apply ascii_eqb_true in E as <-. change (String c (join (String c "") (w :: ws)) = String c s). by rewrite IH.
  - rewrite <- IH. by destruct ws.
Qed.

Lemma hex_no_byte c s : is_lower_hex c = false -> all_chars is_lower_hex s = true -> has_byte c s = false.
Proof.
  intros Hc. induction s as [|d s IH]; [done|]. cbn. intros [Hd Hs]%andb_true_iff. rewrite IH by done.
  rewrite orb_false_r. apply ascii_eqb_false. congruence.
Qed.
Lemma hex_of_len_no_byte c n s : is_lower_hex c = false -> lower_hex_of_len n s = true -> has_byte c s = false.
Proof. intros Hc [_ Hs]%andb_true_iff. by apply hex_no_byte. Qed.
Lemma hash_no_byte c s : is_lower_hex c = false -> has_byte c "sha256:" = false -> installedHashRE s = true -> has_byte c s = false.
Proof.
  intros Hc Hp. unfold installedHashRE. destruct (cut_prefix _ s) as [h|] eqn:E; [|done]. apply cut_prefix_Some in E as ->. intros Hh.
  rewrite has_byte_app, Hp. by eapply hex_of_len_no_byte.
Qed.

Definition line_free (s : string) : Prop := has_byte newline s = false /\ has_byte carriage_return s = false.

Lemma has_byte_appf c s t : has_byte c (s +:+ t) = false <-> has_byte c s = false /\ has_byte c t = false.
Proof. by rewrite has_byte_app, orb_false_iff. Qed.
Lemma version_free n : line_free (itoa n) /\ has_byte " " (itoa n) = false.
Proof. by repeat split; apply itoa_no_byte. Qed.

(** What makes the fields a signature file's. *)
Record sig_wf (f : SignatureFile) : Prop := {
  sw_payload : sf_Payload f = payload_text (sf_Hash f) (sf_LogID f) (itoa (sf_Version f)) (sf_InstalledAt f) (sf_KeyID f);
  sw_hash : installedHashRE (sf_Hash f) = true;
  sw_log : logIDRE (sf_LogID f) = true;
  sw_version : 1 <= sf_Version f <= max_int64;
  sw_at : installed_at_ok (sf_InstalledAt f) = true /\ line_free (sf_InstalledAt f);
  sw_key : keyIDRE (sf_KeyID f) = true;
  sw_sig : sig_ok (sf_Sig f) = true /\ line_free (sf_Sig f);
}.

Lemma sig_value_Ok line name text v : sig_value line name text = Ok v <-> text = name +:+ ": " +:+ v.
Proof.
  unfold sig_value. rewrite <- app_assoc_str. destruct (cut_prefix _ text) as [w|] eqn:E.
  - apply cut_prefix_Some in E as ->. split; [by intros [= ->]|]. intros E. by apply app_inv_head_str in E as ->.
  - split; [done|]. intros ->. by rewrite cut_prefix_app in E.
Qed.
Lemma sig_guard_Ok line ok u : sig_guard line ok = Ok u <-> ok = true.
Proof. destruct ok, u; done. Qed.

(** The lines of a well-formed file. *)
Definition sig_lines (f : SignatureFile) : list string :=
  [SignatureFormatV1; "hash: " +:+ sf_Hash f; "log_id: " +:+ sf_LogID f; "version: " +:+ itoa (sf_Version f);
   "installed_at: " +:+ sf_InstalledAt f; "key_id: " +:+ sf_KeyID f; "signature: " +:+ sf_Sig f].

Lemma sig_bytes_lines f : sf_Payload f = payload_text (sf_Hash f) (sf_LogID f) (itoa (sf_Version f)) (sf_InstalledAt f) (sf_KeyID f) ->
  SignatureFileBytes (sf_Payload f) (sf_Sig f) = join nl (sig_lines f) +:+ nl.
Proof. intros ->. unfold SignatureFileBytes, payload_text, sig_lines. cbn [join]. by rewrite !app_assoc_str. Qed.

Lemma sig_lines_free f : sig_wf f -> Forall line_free (sig_lines f).
Proof.
  intros [_ Hh Hl _ [_ [? ?]] Hk [_ [? ?]]]. destruct (version_free (sf_Version f)) as [[? ?] _].
  unfold sig_lines. repeat (apply List.Forall_cons; [split; repeat (apply has_byte_appf; split; [done|])|]); try done;
    solve [by apply hash_no_byte | by eapply hex_of_len_no_byte].
Qed.

Lemma split_lines lines : lines <> [] -> Forall line_free lines -> split_on newline (join nl lines) = lines.
Proof.
  intros Hn Hf. induction Hf as [|l lines [Hl _] Hf IH]; [done|]. destruct lines as [|l' lines]; [by apply split_on_plain|].
  change (join nl (l :: l' :: lines)) with (l +:+ String newline (join nl (l' :: lines))). by rewrite split_on_app, IH by done.
Qed.
Lemma join_cr lines : Forall line_free lines -> has_byte carriage_return (join nl lines) = false.
Proof.
  induction 1 as [|l lines [_ Hl] Hf IH]; [done|]. destruct lines as [|l' lines]; [done|].
  change (join nl (l :: l' :: lines)) with (l +:+ nl +:+ join nl (l' :: lines)). by rewrite !has_byte_app, Hl, IH.
Qed.

Lemma parse_signature_written f : sig_wf f -> ParseSignatureFile (SignatureFileBytes (sf_Payload f) (sf_Sig f)) = Ok f.
Proof.
  intros Hw. pose proof (sig_lines_free f Hw) as Hf. rewrite sig_bytes_lines by apply Hw. unfold ParseSignatureFile.
  rewrite has_byte_app, join_cr by done. cbn [orb].
  assert (Hfl : first_line (join nl (sig_lines f) +:+ nl) = SignatureFormatV1).
  { unfold first_line, sig_lines. cbn [join]. rewrite !app_assoc_str. unfold nl at 1. rewrite app_cons_str, split_on_app by done. done. }
  rewrite Hfl. rewrite bool_decide_true by done. cbn [negb]. rewrite rev_str_app_has, trim_suffix_app. cbn [negb].
  rewrite split_lines by done. unfold sig_lines.
  rewrite (proj2 (sig_value_Ok 2 "hash" _ (sf_Hash f))) by done. cbn [result_bind]. rewrite (sw_hash f Hw). cbn [sig_guard result_bind].
  rewrite (proj2 (sig_value_Ok 3 "log_id" _ (sf_LogID f))) by done. cbn [result_bind]. rewrite (sw_log f Hw). cbn [sig_guard result_bind].
  rewrite (proj2 (sig_value_Ok 4 "version" _ (itoa (sf_Version f)))) by done. cbn [result_bind].
  destruct (proj2 (version_text (itoa (sf_Version f)) (sf_Version f)) (conj eq_refl (sw_version f Hw))) as [-> ->]. cbn [sig_guard result_bind].
  rewrite (proj2 (sig_value_Ok 5 "installed_at" _ (sf_InstalledAt f))) by done. cbn [result_bind]. rewrite (proj1 (sw_at f Hw)). cbn [sig_guard result_bind].
  rewrite (proj2 (sig_value_Ok 6 "key_id" _ (sf_KeyID f))) by done. cbn [result_bind]. rewrite (sw_key f Hw). cbn [sig_guard result_bind].
  rewrite (proj2 (sig_value_Ok 7 "signature" _ (sf_Sig f))) by done. cbn [result_bind]. rewrite (proj1 (sw_sig f Hw)). cbn [sig_guard result_bind].
  f_equal. destruct f as [p h l v t k g]. f_equal. symmetry. etrans; [apply (sw_payload _ Hw)|]. unfold payload_text. cbn [join sf_Hash sf_LogID sf_Version sf_InstalledAt sf_KeyID].
  by rewrite !app_assoc_str.
Qed.

Lemma lines_free r lines : has_byte carriage_return (r +:+ nl) = false -> split_on newline r = lines -> Forall line_free lines.
Proof.
  intros [Hc _]%has_byte_appf <-. pose proof (split_on_no_sep newline r) as Hn. rewrite <- (join_split newline r) in Hc.
  induction Hn as [|l lines Hl Hn IH]; [done|]. destruct lines as [|l' lines]; [by repeat constructor|].
  change (join (String newline "") (l :: l' :: lines)) with (l +:+ nl +:+ join nl (l' :: lines)) in Hc.
  apply has_byte_appf in Hc as [Hc1 Hc]. apply has_byte_appf in Hc as [_ Hc]. constructor; [done|]. by apply IH.
Qed.

Lemma first_of_lines r l lines : split_on newline r = l :: lines -> first_line (r +:+ nl) = l.
Proof.
  intros E. pose proof (split_on_no_sep newline r) as Hn. rewrite E in Hn. apply Forall_cons in Hn as [Hl _].
  rewrite <- (join_split newline r), E. unfold first_line. destruct lines as [|l' lines]; [cbn [join]; unfold nl; by rewrite split_on_app|].
  change (join (String newline "") (l :: l' :: lines)) with (l +:+ String newline (join nl (l' :: lines))).
  by rewrite app_assoc_str, app_cons_str, split_on_app.
Qed.

Lemma result_bind_Ok {E A B} (c : result E A) (k : A -> result E B) b : result_bind c k = Ok b -> exists a, c = Ok a /\ k a = Ok b.
Proof. destruct c as [a|]; [|done]. intros Hk. by exists a. Qed.
Ltac parsed := repeat match goal with
  | H : result_bind _ _ = Ok _ |- _ => apply result_bind_Ok in H as (? & ? & H)
  | H : sig_guard _ _ = Ok _ |- _ => apply sig_guard_Ok in H
  | H : sig_value _ _ _ = Ok _ |- _ => apply sig_value_Ok in H
  end.

Lemma parsed_wf data f : ParseSignatureFile data = Ok f -> sig_wf f /\ data = SignatureFileBytes (sf_Payload f) (sf_Sig f).
Proof.
  unfold ParseSignatureFile. destruct (has_byte carriage_return data) eqn:Hcr; [done|]. case_bool_decide as Hfl; [|done]. cbn [negb].
  destruct (has_suffix data nl) eqn:Hs; [|done]. cbn [negb]. apply has_suffix_spec in Hs as [r ->]. rewrite trim_suffix_app.
  destruct (split_on newline r) as [|l0 [|l1 [|l2 [|l3 [|l4 [|l5 [|l6 [|]]]]]]]] eqn:El; try done. intros H. pose proof (lines_free _ _ Hcr El) as Hf.
  rewrite (first_of_lines _ _ _ El) in Hfl. rewrite <- (join_split newline r), El. clear El Hcr. parsed. injection H as <-. destruct (parse_int64 _) as [n|] eqn:Ep; [|done].
  simplify_eq. match goal with H : versionRE _ = true |- _ => destruct (proj1 (version_text _ _) (conj H Ep)) as [-> Hv] end.
  repeat match goal with H : Forall line_free (_ :: _) |- _ => apply Forall_cons in H as [? H] end.
  repeat match goal with H : line_free (_ +:+ _) |- _ => destruct H as [[_ ?]%has_byte_appf [_ ?]%has_byte_appf] end.
  split; [split; cbn; try done; unfold payload_text; cbn [join]; by rewrite !app_assoc_str|].
  unfold SignatureFileBytes. cbn [sf_Payload sf_Sig join]. by rewrite !app_assoc_str.
Qed.

(** C19: a signature file is accepted exactly when its bytes are what
    [SignatureFileBytes] writes for fields in their grammar: the payload is the
    six lines of those fields, the version the shortest decimal of a positive
    [int], the signature base64 of 64 bytes, and no carriage return anywhere.
    So a file has one reading, and a reading one file. *)
Theorem signature_file_roundtrip (data : string) (f : SignatureFile) :
  ParseSignatureFile data = Ok f <-> sig_wf f /\ data = SignatureFileBytes (sf_Payload f) (sf_Sig f).
Proof. split; [apply parsed_wf|]. intros [Hw ->]. by apply parse_signature_written. Qed.

Lemma parse_floor data logID version :
  ParseVerifyFloor data = Ok (logID, version) <->
  data = VerifyFloorBytes logID version /\ logIDRE logID = true /\ 1 <= version <= max_int64.
Proof.
  unfold ParseVerifyFloor. split.
  - destruct (has_byte carriage_return data); [done|]. destruct (has_suffix data nl) eqn:Hs; [|done]. apply has_suffix_spec in Hs as [r ->].
    rewrite trim_suffix_app. cbn [negb]. destruct (has_byte newline r); [done|]. destruct (split_on " " r) as [|l [|v [|]]] eqn:El; try done.
    destruct (logIDRE l) eqn:Hl; [|done]. destruct (versionRE v) eqn:Hv; [|done]. cbn [negb]. destruct (parse_int64 v) as [n|] eqn:Hp; [|done].
    intros [= -> ->]. destruct (proj1 (version_text _ _) (conj Hv Hp)) as [-> Hn]. split; [|done].
    rewrite <- (join_split " " r), El. unfold VerifyFloorBytes. cbn [join]. by rewrite !app_assoc_str.
  - intros (-> & Hl & Hv). destruct (version_free version) as [[Hn Hc] Hs]. unfold VerifyFloorBytes.
    rewrite <- !(app_assoc_str _ _ nl), rev_str_app_has, trim_suffix_app. cbn [negb].
    assert (Hb : forall c, is_lower_hex c = false -> has_byte c logID = false) by (intros c Hcc; by eapply hex_of_len_no_byte).
    rewrite !has_byte_app, Hn, Hc, !Hb by done. cbn [orb has_byte ascii_eqb]. rewrite !(proj2 (ascii_eqb_false _ _)) by done. cbn [orb].
    change (" " +:+ itoa version) with (String " " (itoa version)). rewrite split_on_app, split_on_plain by (done || by apply Hb).
    rewrite Hl. by destruct (proj2 (version_text (itoa version) version) (conj eq_refl Hv)) as [-> ->].
Qed.

(** A floor is read exactly when its bytes are what [VerifyFloorBytes]
    writes for a log id and a version in their grammar; nothing else, a
    truncated or doubled line included, reads as a floor. *)
Theorem verify_floor_roundtrip (data logID : string) (version : Z) :
  ParseVerifyFloor data = Ok (logID, version) <->
  data = VerifyFloorBytes logID version /\ logIDRE logID = true /\ 1 <= version <= max_int64.
Proof. apply parse_floor. Qed.

(** ** What a signature binds *)
Section binding.
  Context `{Ed25519}.

(** The fields of a payload that was built. *)
Lemma payload_built hash logID version t keyID p : SignaturePayload hash logID version t keyID = Ok p ->
  p = payload_text hash logID (itoa version) (FormatNano t) keyID /\
  installedHashRE hash = true /\ logIDRE logID = true /\ 1 <= version /\ gt_utc t = true /\ keyIDRE keyID = true.
Proof.
  unfold SignaturePayload. destruct (installedHashRE hash); [|done]. destruct (logIDRE logID); [|done]. cbn [negb].
  destruct (Z.ltb_spec version 1); [done|]. destruct (gt_utc t); [|done]. destruct (keyIDRE keyID); [|done]. cbn [negb]. intros [= <-]. done.
Qed.

Lemma format_free t : installed_at_ok (FormatNano t) = true /\ line_free (FormatNano t).
Proof.
  unfold installed_at_ok, line_free. rewrite !format_no_byte by done. rewrite bool_decide_false by apply format_nonempty. done.
Qed.

(** The file an install writes. *)
Lemma signed_wf hash logID version t keyID p raw : SignaturePayload hash logID version t keyID = Ok p -> version <= max_int64 ->
  String.length raw = SignatureSize -> sig_wf (MkSigFile p hash logID version (FormatNano t) keyID (b64_encode raw)).
Proof.
  intros Hp Hv Hr. destruct (payload_built _ _ _ _ _ _ Hp) as (-> & ? & ? & ? & _ & ?). split; cbn [sf_Payload sf_Hash sf_LogID sf_Version sf_InstalledAt sf_KeyID sf_Sig];
    [reflexivity|assumption|assumption|by split|apply format_free|assumption|]. unfold sig_ok. rewrite b64_roundtrip, Hr. split; [done|]. apply b64_encode_plain.
Qed.

(** The signed statement determines the install: two payloads that were
    built and are equal name the same hash, ledger, version, key and, within
    the years 0 to 9999, the same instant; and a signature of it, written with
    it, reads back as exactly those fields and verifies. *)
Theorem payload_binds_the_install (priv hash logID keyID hash' logID' keyID' p : string) (v v' : Z) (t t' : GoTime)
  (Hsign : forall m, String.length (ed_sign priv m) = SignatureSize /\ ed_verify (ed_public priv) m (ed_sign priv m) = true)
  (Hv : v <= max_int64) (Hv' : v' <= max_int64) (Ht : in_years t) (Ht' : in_years t')
  (H1 : SignaturePayload hash logID v t keyID = Ok p) (H2 : SignaturePayload hash' logID' v' t' keyID' = Ok p) :
  (hash = hash' /\ logID = logID' /\ v = v' /\ gt_ns t = gt_ns t' /\ keyID = keyID') /\
  exists f, ParseSignatureFile (SignatureFileBytes p (Sign priv p)) = Ok f /\
    (sf_Hash f, sf_LogID f, sf_Version f, sf_KeyID f) = (hash, logID, v, keyID) /\ instant (sf_InstalledAt f) = gt_ns t /\
    sf_Payload f = p /\ Verify (ed_public priv) (sf_Payload f) (sf_Sig f) = true.
Proof.
  destruct (Hsign p) as [Hl Hver].
  pose proof (parse_signature_written _ (signed_wf _ _ _ _ _ _ _ H1 Hv Hl)) as P1. pose proof (parse_signature_written _ (signed_wf _ _ _ _ _ _ _ H2 Hv' Hl)) as P2.
  cbn [sf_Payload sf_Sig] in P1, P2. rewrite P1 in P2. injection P2 as -> -> -> Et ->. split.
  - do 3 (split; [reflexivity|]). split; [|reflexivity]. by rewrite <- (instant_format t Ht), Et, (instant_format t' Ht').
  - eexists. split; [exact P1|]. cbn [sf_Payload sf_Hash sf_LogID sf_Version sf_InstalledAt sf_KeyID sf_Sig]. split; [reflexivity|]. split; [by apply instant_format|]. split; [done|].
    unfold Verify. by rewrite b64_roundtrip, Hl.
Qed.
End binding.

(** ** Witness *)

(** A signature scheme with its two laws: the tag of key and message. *)
Definition toy_ed : Ed25519 := {| ed_public := fun k => k; ed_sign := fun k m => sha256_hex (k +:+ m); ed_verify := fun k m s => bool_decide (s = sha256_hex (k +:+ m)) |}.
Lemma toy_ed_signs priv m : String.length (ed_sign (Ed25519 := toy_ed) priv m) = SignatureSize /\
  ed_verify (Ed25519 := toy_ed) (ed_public (Ed25519 := toy_ed) priv) m (ed_sign (Ed25519 := toy_ed) priv m) = true.
Proof.
  cbn [ed_sign ed_verify ed_public toy_ed]. rewrite bool_decide_true by done. split; [|done].
  pose proof (sha256_hex_shape (priv +:+ m)) as Hs. unfold lower_hex_of_len in Hs. apply andb_true_iff in Hs as [Hs%Nat.eqb_eq _]. exact Hs.
Qed.
Definition ex_hex : string := "0123456789abcdef0123456789abcdef".
Definition ex_hash : string := "sha256:" +:+ ex_hex +:+ ex_hex.
Definition ex_at : GoTime := UTC (time_of "2026-01-02T03:04:05.5+01:00").
Definition ex_payload : string := payload_text ex_hash ex_hex "7" "2026-01-02T02:04:05.5Z" (ex_hex +:+ ex_hex).
Lemma ex_payload_built : SignaturePayload ex_hash ex_hex 7 ex_at (ex_hex +:+ ex_hex) = Ok ex_payload.
Proof. vm_compute. reflexivity. Qed.
Lemma ex_at_years : in_years ex_at.
Proof. split; vm_compute; discriminate. Qed.

Lemma payload_binds_the_install_witness :
  exists f, ParseSignatureFile (SignatureFileBytes ex_payload (Sign (H := toy_ed) "k" ex_payload)) = Ok f /\
    (sf_Hash f, sf_LogID f, sf_Version f, sf_KeyID f) = (ex_hash, ex_hex, 7, ex_hex +:+ ex_hex) /\ instant (sf_InstalledAt f) = gt_ns ex_at /\
    sf_Payload f = ex_payload /\ Verify (H := toy_ed) (ed_public (Ed25519 := toy_ed) "k") (sf_Payload f) (sf_Sig f) = true.
Proof.
  refine (proj2 (payload_binds_the_install (H := toy_ed) "k" ex_hash ex_hex (ex_hex +:+ ex_hex) ex_hash ex_hex (ex_hex +:+ ex_hex) ex_payload 7 7 ex_at ex_at
    (toy_ed_signs "k") _ _ ex_at_years ex_at_years ex_payload_built ex_payload_built)); vm_compute; discriminate.
Defined.
