(* ===== verification/Utf8.v ===== *)
(** * Case mapping and what JSON decodes to

    [strings.ToLower], and the fact that every string the JSON decoder yields is
    valid UTF-8, so that marshalling it and decoding it again gives it back.
    The case of a rune outside ASCII is data of the Go distribution, a class
    parameter. *)
From S2P Require Import Prelude Sha256 GoStr Json Origin.

(** ** [strings.ToLower] *)
Definition lower (c : ascii) : ascii := let n := N_of_ascii c in if (65 <=? n)%N && (n <=? 90)%N then ascii_of_N (n + 32) else c.
Fixpoint lower_str (s : string) : string := match s with EmptyString => "" | String c r => String (lower c) (lower_str r) end.

Class GoLower := { lower_rune : Z -> Z }.
Definition ascii_only (s : string) : bool := all_chars (fun c => byte_val c <? 128) s.
Definition to_lower_rune `{GoLower} (r : Z) : Z := if r <? 128 then byte_val (lower (byte_of r)) else lower_rune r.
Definition ToLower `{GoLower} (s : string) : string :=
  if ascii_only s then lower_str s else encode_all (map to_lower_rune (runes s)).

(** [strings.Cut] *)
Fixpoint Cut (s sep : string) : option (string * string) :=
  match cut_prefix sep s with
  | Some rest => Some ("", rest)
  | None => match s with EmptyString => None | String c r => match Cut r sep with Some (a, b) => Some (String c a, b) | None => None end end
  end.

(** [hex.DecodeString] *)
Fixpoint hex_decode (s : string) : option string :=
  match s with
  | EmptyString => Some ""
  | String a (String b r) =>
      match hex_val a, hex_val b, hex_decode r with
      | Some x, Some y, Some t => Some (String (byte_of (16 * x + y)) t)
      | _, _, _ => None
      end
  | _ => None
  end.

(** ** Lower-case hexadecimal text *)
Lemma all_chars_imp (p q : ascii -> bool) s : (forall c, p c = true -> q c = true) -> all_chars p s = true -> all_chars q s = true.
Proof. intros H. induction s as [|c r IH]; [done|]. cbn. rewrite !andb_true_iff. intros [? ?]. auto. Qed.

Lemma lower_hex_ascii c : is_lower_hex c = true -> (byte_val c <? 128) = true.
Proof. unfold is_lower_hex. intros Hc. apply orb_true_iff in Hc. rewrite !andb_true_iff, !Z.leb_le in Hc. apply Z.ltb_lt. lia. Qed.
Lemma lower_lower_hex c : is_lower_hex c = true -> lower c = c.
Proof.
  unfold is_lower_hex, lower, byte_val. intros Hc. apply orb_true_iff in Hc. rewrite !andb_true_iff, !Z.leb_le in Hc.
  destruct (N.leb_spec 65 (N_of_ascii c)), (N.leb_spec (N_of_ascii c) 90); cbn [andb]; try done. lia.
Qed.

Lemma ToLower_hex `{GoLower} s : all_chars is_lower_hex s = true -> ToLower s = s.
Proof.
  intros Hs. unfold ToLower, ascii_only. rewrite (all_chars_imp is_lower_hex _ s lower_hex_ascii Hs). induction s as [|c r IH]; [done|].
  cbn in Hs |- *. apply andb_true_iff in Hs as [Hc Hr]. by rewrite (lower_lower_hex c Hc), IH.
Qed.

(** ** Decoded strings are valid UTF-8 *)
Definition sound_rune (z : Z) : Z := if (0 <=? z) && (z <=? 1114111) && negb (in_range 55296 57343 z) then z else RuneError.
Lemma sound_rune_scalar z : scalar (sound_rune z).
Proof.
  unfold sound_rune, scalar, in_range, RuneError.
  destruct (Z.leb_spec 0 z), (Z.leb_spec z 1114111), (Z.leb_spec 55296 z), (Z.leb_spec z 57343); cbn; lia.
Qed.
Lemma encode_sound z : encode_rune z = encode_rune (sound_rune z).
Proof.
  unfold sound_rune. destruct (_ && _) eqn:E; [done|]. unfold in_range in E. unfold encode_rune at 1, in_range.
  destruct (Z.ltb_spec z 0); [reflexivity|]. rewrite (proj2 (Z.leb_le 0 z)) in E by lia. cbn [andb] in E.
  destruct (Z.leb_spec 55296 z), (Z.leb_spec z 57343), (Z.leb_spec z 1114111); cbn in E; try done;
    destruct (Z.ltb_spec z 128), (Z.ltb_spec z 2048), (Z.ltb_spec z 65536); cbn [andb]; try lia; reflexivity.
Qed.
Lemma valid_encode_any z t : valid_utf8 (encode_rune z +:+ t) = valid_utf8 t.
Proof. rewrite encode_sound. apply valid_encode, sound_rune_scalar. Qed.
Lemma valid_encode_runes l : valid_utf8 (encode_all l) = true.
Proof. induction l as [|z l IH]; [done|]. cbn [encode_all]. by rewrite valid_encode_any. Qed.

Lemma utf8_size_small c r : byte_val c < 128 -> utf8_size c r = 1%nat.
Proof. intros Hc. unfold utf8_size. by rewrite (proj2 (Z.ltb_lt _ _)). Qed.
Lemma ascii_valid s : ascii_only s = true -> valid_utf8 s = true.
Proof.
  induction s as [|c r IH]; [done|]. cbn. intros [Hc Hr]%andb_true_iff. apply Z.ltb_lt in Hc. rewrite utf8_size_small by done. by apply IH.
Qed.
Lemma lower_ascii s : ascii_only s = true -> ascii_only (lower_str s) = true.
Proof.
  unfold ascii_only. induction s as [|c r IH]; [done|]. cbn. intros [Hc Hr]%andb_true_iff. rewrite (IH Hr), andb_true_r. apply Z.ltb_lt in Hc. apply Z.ltb_lt.
  unfold lower, byte_val in *. destruct (N.leb_spec 65 (N_of_ascii c)), (N.leb_spec (N_of_ascii c) 90); cbn [andb]; try lia. rewrite N_ascii_embedding; lia.
Qed.
Lemma ToLower_valid `{GoLower} s : valid_utf8 (ToLower s) = true.
Proof. unfold ToLower. destruct (ascii_only s) eqn:E; [by apply ascii_valid, lower_ascii|apply valid_encode_runes]. Qed.

Lemma put_valid z o x rest : (forall y r, o = Some (y, r) -> valid_utf8 y = true) -> put (encode_rune z) o = Some (x, rest) -> valid_utf8 x = true.
Proof. destruct o as [[y r]|]; [|done]. intros Hy [= <- <-]. rewrite valid_encode_any. by eapply Hy. Qed.
Lemma unescape1_ascii e c : unescape1 e = Some c -> byte_val c < 128.
Proof. unfold unescape1. repeat (destruct (ascii_eqb _ _) || case_match); intros; simplify_eq; done. Qed.

Lemma parse_str_valid s x rest : parse_str s = Some (x, rest) -> valid_utf8 x = true.
Proof.
  revert x rest. induction s as [s IH] using (induction_ltof1 _ String.length). unfold ltof in IH. intros x rest.
  destruct s as [|c r]; [done|]. cbn [parse_str]. destruct (ascii_eqb c quote_c); [by intros [= <- <-]|]. destruct (ascii_eqb c backslash).
  - destruct r as [|e r1]; [done|]. destruct (unescape1 e) as [c'|] eqn:Eu.
    { unfold put1. destruct (parse_str r1) as [[y r']|] eqn:Ep; [|done]. intros [= <- <-]. cbn. rewrite utf8_size_small by (by eapply unescape1_ascii). eapply IH; [|exact Ep]. cbn. lia. }
    destruct (ascii_eqb e "u"); [|done]. destruct r1 as [|h1 [|h2 [|h3 [|h4 r2]]]]; try done. destruct (hex4 h1 h2 h3 h4) as [code|]; [|done].
    assert (H2 : forall y r', parse_str r2 = Some (y, r') -> valid_utf8 y = true) by (intros y r' Hp; eapply IH; [|exact Hp]; cbn; lia).
    destruct (is_surrogate code); [|by apply put_valid].
    destruct r2 as [|b [|u [|g1 [|g2 [|g3 [|g4 r3]]]]]]; try by apply put_valid.
    destruct (if _ : bool then hex4 g1 g2 g3 g4 else None) as [code2|]; [|by apply put_valid]. destruct (decode_utf16 code code2) as [d|]; [|by apply put_valid].
    apply put_valid. intros y r' Hp. eapply IH; [|exact Hp]. cbn. lia.
  - destruct (byte_val c <? 32); [done|]. pose proof (utf8_size_bound c r) as Hb.
    destruct (utf8_size c r) as [|[|[|[|[|k]]]]] eqn:Hz; [..|done].
    + apply put_valid. intros y r' Hp. eapply IH; [|exact Hp]. cbn. lia.
    + unfold put1. destruct (parse_str r) as [[y r']|] eqn:Ep; [|done]. intros [= <- <-]. apply utf8_size_1 in Hz. cbn. rewrite utf8_size_small by lia. eapply IH; [|exact Ep]. cbn. lia.
    + destruct Hb as (c1 & r1 & ->). unfold put1. destruct (parse_str r1) as [[y r']|] eqn:Ep; [|done]. intros [= <- <-]. cbn. rewrite (utf8_size_2 _ _ _ _ Hz). eapply IH; [|exact Ep]. cbn. lia.
    + destruct Hb as (c1 & c2 & r2 & ->). unfold put1. destruct (parse_str r2) as [[y r']|] eqn:Ep; [|done]. intros [= <- <-]. cbn. rewrite (utf8_size_3 _ _ _ _ _ Hz). eapply IH; [|exact Ep]. cbn. lia.
    + destruct Hb as (c1 & c2 & c3 & r3 & ->). unfold put1. destruct (parse_str r3) as [[y r']|] eqn:Ep; [|done]. intros [= <- <-]. cbn. rewrite (utf8_size_4 _ _ _ _ _ _ Hz). eapply IH; [|exact Ep]. cbn. lia.
Qed.

(** Every string of a decoded document, keys included. *)
Inductive valid_json : json -> Prop :=
  | valid_null : valid_json JNull
  | valid_bool b : valid_json (JBool b)
  | valid_num l : valid_json (JNum l)
  | valid_str s : valid_utf8 s = true -> valid_json (JStr s)
  | valid_arr l : Forall valid_json l -> valid_json (JArr l)
  | valid_obj l : Forall (fun kv => valid_utf8 kv.1 = true /\ valid_json kv.2) l -> valid_json (JObj l).
#[export] Hint Constructors valid_json : go.
Abbreviation valid_fields := (Forall (fun kv : string * json => valid_utf8 kv.1 = true /\ valid_json kv.2)).

Lemma parse_valid_all fuel : (forall d s v rest, parse_value fuel d s = Some (v, rest) -> valid_json v) /\
  (forall d s ms rest, parse_members fuel d s = Some (ms, rest) -> valid_fields ms) /\
  (forall d s es rest, parse_elems fuel d s = Some (es, rest) -> Forall valid_json es).
Proof.
  induction fuel as [|f (IHv & IHm & IHe)]; [done|]. split_and!; intros d s x rest; cbn [parse_value parse_members parse_elems].
  - repeat (case_match; simplify_eq; try done; intros; simplify_eq); eauto using parse_str_valid with go.
  - repeat (case_match; simplify_eq; try done; intros; simplify_eq); eauto 10 using parse_str_valid with go.
  - repeat (case_match; simplify_eq; try done; intros; simplify_eq); eauto using parse_str_valid with go.
Qed.
Lemma parse_json_valid s v : parse_json s = Some v -> valid_json v.
Proof. unfold parse_json. destruct (parse_value _ _ _) as [[v' rest]|] eqn:E; [|done]. intros H. assert (v = v') as -> by (by destruct (skip_ws rest); simplify_eq). by eapply parse_valid_all. Qed.

(** *** Decoders keep validity *)
Lemma field_values_valid name fs : valid_fields fs -> Forall valid_json (field_values name fs).
Proof.
  intros Hf. unfold field_values. induction Hf as [|[k v] fs [_ Hv] _ IH]; [done|]. rewrite filter_cons. destruct (decide _); cbn; [by constructor|done].
Qed.
Lemma dec_field_valid {A} (P : A -> Prop) (dec : json -> A -> option A) vs cur x :
  (forall v c y, valid_json v -> P c -> dec v c = Some y -> P y) -> Forall valid_json vs -> P cur -> dec_field dec vs cur = Some x -> P x.
Proof.
  intros Hd Hvs. revert cur. induction Hvs as [|v vs Hv _ IH]; intros cur Hc; cbn [dec_field]; [by intros [= <-]|].
  destruct (dec v cur) as [a|] eqn:E; [|done]. apply IH. by eapply Hd.
Qed.
Lemma dec_str_valid v cur s : valid_json v -> valid_utf8 cur = true -> dec_str v cur = Some s -> valid_utf8 s = true.
Proof. intros Hv. destruct v; cbn; try done; intros ? [= <-]; [done|by inversion Hv]. Qed.
Lemma dec_int_bounds v cur z : min_int64 <= cur <= max_int64 -> dec_int v cur = Some z -> min_int64 <= z <= max_int64.
Proof.
  intros Hc. destruct v as [| |l| | |]; cbn; try done; [by intros [= <-]|]. unfold parse_int64.
  assert (Hp : forall t, match parse_N t with Some n => if Z.of_N n <=? max_int64 then Some (Z.of_N n) else None | None => None end = Some z -> min_int64 <= z <= max_int64).
  { intros t. destruct (parse_N t) as [n|]; [|done]. destruct (Z.leb_spec (Z.of_N n) max_int64); [|done]. intros [= <-]. unfold min_int64. lia. }
  assert (Hm : forall t, match parse_N t with Some n => if min_int64 <=? - Z.of_N n then Some (- Z.of_N n) else None | None => None end = Some z -> min_int64 <= z <= max_int64).
  { intros t. destruct (parse_N t) as [n|]; [|done]. destruct (Z.leb_spec min_int64 (- Z.of_N n)); [|done]. intros [= <-]. unfold max_int64. lia. }
  destruct l as [|c r]; [by apply Hp|]. destruct c as [[] [] [] [] [] [] [] []]; first [apply Hm|apply Hp].
Qed.
Lemma mapM_elems_valid l x : Forall valid_json l -> mapM dec_elem l = Some x -> Forall (fun s => valid_utf8 s = true) x.
Proof.
  intros Hl. revert x. induction Hl as [|v l Hv _ IH]; intros x; cbn; [by intros [= <-]|].
  destruct (dec_elem v) as [s|] eqn:E; [|done]. destruct (mapM dec_elem l) as [y|]; [|done]. intros [= <-]. constructor; [|by apply IH].
  destruct v; cbn in E; simplify_eq; [done|by inversion Hv].
Qed.

(** *** Printing puts the text before what follows *)
Definition ends (t s : string) : Prop := exists p, s = p +:+ t.
Lemma ends_refl t : ends t t.
Proof. by exists "". Qed.
Lemma ends_cons t c s : ends t s -> ends t (String c s).
Proof. intros [p ->]. by exists (String c p). Qed.
Lemma ends_app t p s : ends t s -> ends t (p +:+ s).
Proof. intros [q ->]. exists (p +:+ q). by rewrite app_assoc_str. Qed.
#[local] Hint Resolve ends_refl ends_cons ends_app : core.

Lemma esc_ascii_ends t c s : ends t s -> ends t (esc_ascii c s).
Proof. intros H. unfold esc_ascii, u_escape. repeat case_match; auto 10. Qed.
Lemma esc_ends t s tail : ends t tail -> ends t (esc s tail).
Proof.
  intros Ht. induction s as [s IH] using (induction_ltof1 _ String.length). unfold ltof in IH. destruct s as [|c r]; [done|]. cbn [esc].
  destruct (utf8_size c r) as [|[|[|[|[|k]]]]]; destruct r as [|c1 [|c2 [|c3 r]]]; unfold u_escape; repeat case_match;
    auto 10 using esc_ascii_ends; try apply esc_ascii_ends; repeat apply ends_cons; apply IH; cbn; lia.
Qed.
Lemma quote_ends t s tail : ends t tail -> ends t (quote_str s tail).
Proof. intros Ht. apply ends_cons, esc_ends, ends_cons, Ht. Qed.
Lemma print_ends t v tail : ends t tail -> ends t (print_json v tail).
Proof.
  revert tail. induction v as [|[]|lit|s|l IH|l IH] using json_nested_ind; intros tail Ht; try (apply ends_app, Ht); [by apply quote_ends| |].
  - destruct l as [|x r]; [by apply (ends_app t "[]")|]. rewrite print_arr. apply Forall_cons in IH as [Hx Hr]. apply ends_cons, Hx.
    induction Hr as [|y r Hy _ IHr]; cbn [print_elems]; auto.
  - destruct l as [|[k x] r]; [by apply (ends_app t "{}")|]. rewrite print_obj. apply Forall_cons in IH as [Hx Hr]. apply ends_cons, quote_ends, ends_cons, Hx.
    induction Hr as [|[k' y] r Hy _ IHr]; cbn [print_members]; auto using quote_ends.
Qed.
Lemma marshal_obj_ends l : ends "}" (marshal (JObj l)).
Proof.
  unfold marshal. destruct l as [|[k x] r]; [by exists "{"|]. rewrite print_obj. apply ends_cons, quote_ends, ends_cons, print_ends.
  induction r as [|[k' y] r IHr]; cbn [print_members]; [auto|]. apply ends_cons, quote_ends, ends_cons, print_ends, IHr.
Qed.
