(* ===== verification/Rekor.v ===== *)
(** * The transparency log ([internal/anchor]: [anchor.go], [logkey.go],
      [rekor.go])

    The client that has a ledger head taken into a transparency log and later
    verifies the receipt: the entry it submits, the judgement of the proof the
    log returns, the proof kept on the record, and the verdict ladder.

    A log key is its PKIX DER.  What the network answers is a function of the
    request; the ephemeral signature of an entry is an argument.  The note
    format, the RFC 6962 proofs, ECDSA, PEM and PKIX parsing are a class. *)
From S2P Require Import Prelude Sha256 GoStr Json Paths Ledger Config Authz Origin Registry Event Utf8 Attest Doors ControlRecord Manifest Segments Snapshot Times Signed.

(** ** The interface of a backend ([anchor.go]) *)
Record AHead : Type := MkAHead { ah_Seq : Z; ah_Hash : string }.
Record Receipt : Type := MkReceipt { rc_Ref : string; rc_Proof : string; rc_Backend : string; rc_BackendKeyID : string; rc_IntegratedTime : GoTime; rc_LogIndex : Z }.
Definition zeroReceipt : Receipt := MkReceipt "" "" "" "" (MkTime 0 true) 0.
Definition MaxProofLen : Z := 8192.

(** The errors of a backend: the two verdicts, the absence of an answer, the
    error of the bearer's resolver as it is, any other error. *)
Inductive backend_error : Type := Mismatch (cause : string) | Unavailable (cause : string) | Transport (host cause : string) | BearerError (text : string) | PlainError (text : string).
Definition error_text (e : backend_error) : string :=
  match e with
  | Mismatch c => "anchor mismatch: " +:+ c
  | Unavailable c => "anchor unverifiable: " +:+ c
  | Transport h c => h +:+ ": " +:+ c
  | BearerError t | PlainError t => t
  end.

(** ** Third-party code *)
Record Verifier : Type := MkVerifier { vf_Name : string; vf_KeyHash : Z; vf_Verify : string -> string -> bool }.
Inductive opened : Type := Opened (text : string) | UnverifiedNote | InvalidSignature | MalformedNote.
Inductive pkix_key : Type := KeyECDSA (curve der : string) | KeyEd25519 | KeyRSA | KeyOther (type : string).

Class LogLibs := {
  note_Open : string -> (string -> Z -> option Verifier) -> opened;
  HashLeaf : string -> string;
  VerifyInclusion : Z -> Z -> string -> list string -> string -> bool;
  VerifyASN1 : string -> string -> string -> bool;
  pem_Decode : string -> option (string * string);
  ParsePKIX : string -> result string pkix_key;
  url_String : string -> string;
}.

(** ** Log keys ([logkey.go]) *)
Section logkey.
  Context `{LogLibs}.

Definition ParseLogKey (pemBytes : string) : result string string :=
  match pem_Decode pemBytes with
  | None => Err "not a PEM PUBLIC KEY block"
  | Some (type, bytes) =>
      if negb (bool_decide (type = "PUBLIC KEY")) then Err "not a PEM PUBLIC KEY block"
      else
        let! pub := ParsePKIX bytes in
        match pub with
        | KeyECDSA curve der => if negb (bool_decide (curve = "P-256")) then Err ("key is ECDSA on curve " +:+ curve +:+ "; want P-256") else Ok der
        | KeyEd25519 => Err "key is Ed25519; a transparency log's checkpoint key must be ECDSA"
        | KeyRSA => Err "key is RSA; a transparency log's checkpoint key must be ECDSA"
        | KeyOther t => Err ("key is " +:+ t +:+ "; a transparency log's checkpoint key must be ECDSA")
        end
  end.

Definition pkixDigest (pub : string) : string := sha256_sum pub.
Definition LogKeyID (pub : string) : string := hex_encode (pkixDigest pub).
Definition be_uint32 (s : string) : Z :=
  match s with
  | String a (String b (String c (String d _))) => ((byte_val a * 256 + byte_val b) * 256 + byte_val c) * 256 + byte_val d
  | _ => 0
  end.
Definition KeyHash (pub : string) : Z := be_uint32 (pkixDigest pub).

Definition logKeyVerifier (name : string) (hash : Z) (pub : string) : Verifier := MkVerifier name hash (fun msg sig => VerifyASN1 pub (sha256_sum msg) sig).
(** The set that trusts one key matches by key hash alone. *)
Definition NewLogKeyVerifiers (pub : string) : string -> Z -> option Verifier :=
  fun name hash => if negb (hash =? KeyHash pub) then None else Some (logKeyVerifier name (KeyHash pub) pub).
Definition leafHash (body : string) : string := HashLeaf body.
End logkey.

(** ** The wire shapes *)
Record hashedRekord : Type := MkHashed { hr_APIVersion : string; hr_Kind : string; hr_Algorithm : string; hr_Value : string; hr_Signature : string; hr_PublicKey : string }.
Definition zeroHashed : hashedRekord := MkHashed "" "" "" "" "" "".

Definition enc_content (c : string) : list (string * option json) := [("content", enc_str c)].
Definition enc_digest (e : hashedRekord) : list (string * option json) := [("algorithm", enc_str (hr_Algorithm e)); ("value", enc_str (hr_Value e))].
Definition enc_data (e : hashedRekord) : list (string * option json) := [("hash", enc_obj enc_digest e)].
Definition enc_signature (e : hashedRekord) : list (string * option json) := [("content", enc_str (hr_Signature e)); ("publicKey", enc_obj enc_content (hr_PublicKey e))].
Definition enc_spec (e : hashedRekord) : list (string * option json) := [("data", enc_obj enc_data e); ("signature", enc_obj enc_signature e)].
Definition entry_fields (e : hashedRekord) : list (string * option json) := [("apiVersion", enc_str (hr_APIVersion e)); ("kind", enc_str (hr_Kind e)); ("spec", enc_obj enc_spec e)].

Definition dec_content (fs : list (string * json)) (cur : string) : option string := dec_field dec_str (field_values "content" fs) cur.
Definition dec_digest (fs : list (string * json)) (cur : hashedRekord) : option hashedRekord :=
  a ← dec_field dec_str (field_values "algorithm" fs) (hr_Algorithm cur);
  v ← dec_field dec_str (field_values "value" fs) (hr_Value cur);
  Some { cur with hr_Algorithm := a; hr_Value := v }.
Definition dec_data (fs : list (string * json)) (cur : hashedRekord) : option hashedRekord := dec_field (dec_obj dec_digest) (field_values "hash" fs) cur.
Definition dec_signature (fs : list (string * json)) (cur : hashedRekord) : option hashedRekord :=
  c ← dec_field dec_str (field_values "content" fs) (hr_Signature cur);
  k ← dec_field (dec_obj dec_content) (field_values "publicKey" fs) (hr_PublicKey cur);
  Some { cur with hr_Signature := c; hr_PublicKey := k }.
Definition dec_spec (fs : list (string * json)) (cur : hashedRekord) : option hashedRekord :=
  e ← dec_field (dec_obj dec_data) (field_values "data" fs) cur;
  dec_field (dec_obj dec_signature) (field_values "signature" fs) e.
Definition dec_entry (fs : list (string * json)) (cur : hashedRekord) : option hashedRekord :=
  a ← dec_field dec_str (field_values "apiVersion" fs) (hr_APIVersion cur);
  k ← dec_field dec_str (field_values "kind" fs) (hr_Kind cur);
  dec_field (dec_obj dec_spec) (field_values "spec" fs) { cur with hr_APIVersion := a; hr_Kind := k }.

Record inclusionProof : Type := MkInclusion { ip_Checkpoint : string; ip_Hashes : option (list string); ip_LogIndex : Z; ip_RootHash : string; ip_TreeSize : Z }.
Definition zeroInclusion : inclusionProof := MkInclusion "" None 0 "" 0.
Definition dec_inclusion (fs : list (string * json)) (cur : inclusionProof) : option inclusionProof :=
  c ← dec_field dec_str (field_values "checkpoint" fs) (ip_Checkpoint cur);
  h ← dec_field dec_strs_nil (field_values "hashes" fs) (ip_Hashes cur);
  i ← dec_field dec_int (field_values "logIndex" fs) (ip_LogIndex cur);
  r ← dec_field dec_str (field_values "rootHash" fs) (ip_RootHash cur);
  t ← dec_field dec_int (field_values "treeSize" fs) (ip_TreeSize cur);
  Some (MkInclusion c h i r t).

(** A log entry as served; its body is kept as the JSON value it is. *)
Record logEntryAnon : Type := MkLogEntry { le_Body : json; le_IntegratedTime : Z; le_LogID : string; le_LogIndex : Z; le_Inclusion : ptr inclusionProof }.
Definition zeroLogEntry : logEntryAnon := MkLogEntry JNull 0 "" 0 None.
Definition dec_verification (fs : list (string * json)) (cur : ptr inclusionProof) : option (ptr inclusionProof) :=
  dec_field (dec_ptr dec_inclusion zeroInclusion) (field_values "inclusionProof" fs) cur.
Definition dec_log_entry (fs : list (string * json)) (cur : logEntryAnon) : option logEntryAnon :=
  b ← dec_field (fun v _ => Some v) (field_values "body" fs) (le_Body cur);
  t ← dec_field dec_int (field_values "integratedTime" fs) (le_IntegratedTime cur);
  l ← dec_field dec_str (field_values "logID" fs) (le_LogID cur);
  i ← dec_field dec_int (field_values "logIndex" fs) (le_LogIndex cur);
  p ← dec_field (dec_obj dec_verification) (field_values "verification" fs) (le_Inclusion cur);
  Some (MkLogEntry b t l i p).

Definition bodyString (e : logEntryAnon) : string := match le_Body e with JStr s => s | _ => "" end.

Definition entryIDRE (s : string) : bool := lower_hex_of_len 80 s.

(** A JSON object as a Go map: a key written twice keeps its last value. *)
Fixpoint dec_entries (fs : list (string * json)) (m : gmap string logEntryAnon) : option (gmap string logEntryAnon) :=
  match fs with
  | [] => Some m
  | (k, v) :: rest => e ← dec_obj dec_log_entry v zeroLogEntry; dec_entries rest (<[k := e]> m)
  end.
Definition decodeSingleEntry `{GoLower} (raw : string) : result string (string * logEntryAnon) :=
  let m := match parse_json raw with Some (JObj fs) => dec_entries fs ∅ | Some JNull => Some ∅ | _ => None end in
  match map_to_list <$> m with
  | Some [(id, e)] =>
      let id := ToLower id in
      if negb (entryIDRE id) then Err "names an entry id that is not 80 hex" else Ok (id, e)
  | _ => Err "is not a single log entry"
  end.

(** *** The proof kept on the record *)
Definition rekorProofV1 : string := "rekor-v1-proof/1".
Record rekorProof : Type := MkProof { rp_V : string; rp_Body : string; rp_LogIndex : Z; rp_TreeSize : Z; rp_RootHash : string; rp_Hashes : option (list string); rp_Checkpoint : string }.
Definition zeroProof : rekorProof := MkProof "" "" 0 0 "" None "".
Definition proof_fields (p : rekorProof) : list (string * option json) :=
  [("v", enc_str (rp_V p)); ("body", enc_str (rp_Body p)); ("log_index", enc_int (rp_LogIndex p)); ("tree_size", enc_int (rp_TreeSize p));
   ("root_hash", enc_str (rp_RootHash p)); ("hashes", enc_strs (rp_Hashes p)); ("checkpoint", enc_str (rp_Checkpoint p))].
Definition dec_proof (fs : list (string * json)) (cur : rekorProof) : option rekorProof :=
  v ← dec_field dec_str (field_values "v" fs) (rp_V cur);
  b ← dec_field dec_str (field_values "body" fs) (rp_Body cur);
  i ← dec_field dec_int (field_values "log_index" fs) (rp_LogIndex cur);
  t ← dec_field dec_int (field_values "tree_size" fs) (rp_TreeSize cur);
  r ← dec_field dec_str (field_values "root_hash" fs) (rp_RootHash cur);
  h ← dec_field dec_strs_nil (field_values "hashes" fs) (rp_Hashes cur);
  c ← dec_field dec_str (field_values "checkpoint" fs) (rp_Checkpoint cur);
  Some (MkProof v b i t r h c).
Definition marshal_proof (p : rekorProof) : string := marshal (JObj (omit (proof_fields p))).
Arguments marshal_proof : simpl never.

(** ** The client *)
Definition msgKeyDiffersPinned : string := "log key differs from the pinned key — update anchor.pub, or pass --anchor-key, to decide".
Definition msgKeyDiffersRecorded : string := "log key differs from the key recorded at anchor time — pin a key to decide".
Definition msgKeyDiffersServed : string := "log key differs from the key the log serves for this tree".

Record rk_request : Type := MkRkRequest { rq_Method : string; rq_URL : string; rq_Accept : string; rq_Body : option string; rq_Authorization : option string }.
(** Not sent, its body not read to the end, or read. *)
Inductive rk_answer : Type := RkNotSent (e : string) | RkCut (e : string) | RkAnswered (status : Z) (body : string).
Definition maxBody : Z := 1048576.

(** [rk_bearer]: none, or what the broker answers. *)
Record Rekor : Type := MkRekor { rk_url : string; rk_host : string; rk_key : option string; rk_bearer : option (result string string); rk_offline : bool }.

Section rekor.
  Context `{GoText, GoURL, GoLower, LogLibs}.

Definition parseBackendURL (s : string) : result string string :=
  let s := trim_suffix s "/" in
  let bad := Err (quote s +:+ " is not an absolute http(s) URL without credentials") in
  match parse_url s with
  | None => bad
  | Some u =>
      if (negb (bool_decide (u_Scheme u = "http")) && negb (bool_decide (u_Scheme u = "https"))) || bool_decide (u_Host u = "") || u_User u ||
         negb (bool_decide (u_RawQuery u = "")) || u_ForceQuery u || negb (bool_decide (u_Fragment u = "")) then bad
      else Ok (url_String s)
  end.
Definition NewRekor (rawURL : string) (key : option string) (bearer : option (result string string)) (offline : bool) : result string Rekor :=
  let! u := parseBackendURL rawURL in
  match parse_url u with
  | None => Err ("parse " +:+ quote u)
  | Some parsed => Ok (MkRekor u (u_Host parsed) key bearer offline)
  end.

(** [strconv.ParseUint(ref[:16], 16, 64)] *)
Fixpoint hex_value (s : string) (acc : Z) : option Z :=
  match s with EmptyString => Some acc | String c r => match hex_val c with Some d => hex_value r (16 * acc + d) | None => None end end.
Definition treeIDOf (ref : string) : option Z :=
  let s := take_str 16 ref in
  if bool_decide (s = "") then None else match hex_value s 0 with Some v => if v <? two64 then Some v else None | None => None end.

(** [strconv.ParseInt(s, 10, 64)], a leading plus sign included. *)
Definition ParseInt (s : string) : option Z :=
  match s with
  | String "+" r => match parse_N r with Some n => if Z.of_N n <=? max_int64 then Some (Z.of_N n) else None | None => None end
  | _ => parse_int64 s
  end.

(** The checkpoint's tree, size and root, as text lines. *)
Definition checkpoint_tree (line : string) : option Z :=
  match Cut line " - " with Some (_, treeDec) => parse_uint64 (TrimSpace treeDec) | None => None end.
Definition judge_checkpoint (text ref : string) (env : rekorProof) : result backend_error (Z * string) :=
  match split_on newline (trim_suffix text nl) with
  | l0 :: l1 :: l2 :: _ =>
      match checkpoint_tree l0, treeIDOf ref with
      | Some cpTree, Some refTree =>
          if negb (cpTree =? refTree) then Err (Mismatch ("checkpoint names tree " +:+ itoa cpTree +:+ "; the ref names tree " +:+ itoa refTree))
          else
            match ParseInt l1 with
            | Some size =>
                if negb (size =? rp_TreeSize env) then Err (Mismatch "proof tree size differs from the checkpoint")
                else match b64_decode l2 with
                     | Some root => if negb (bool_decide (hex_encode root = ToLower (rp_RootHash env))) then Err (Mismatch "proof root differs from the checkpoint") else Ok (size, root)
                     | None => Err (Mismatch "proof root differs from the checkpoint")
                     end
            | None => Err (Mismatch "proof tree size differs from the checkpoint")
            end
      | _, _ => Err (Mismatch "checkpoint origin does not name a tree")
      end
  | _ => Err (Mismatch "checkpoint is malformed")
  end.

Definition verifyProofOffline (head : AHead) (ref : string) (env : rekorProof) (key keyDiffers : string) : result backend_error () :=
  if negb (bool_decide (rp_V env = rekorProofV1)) then Err (Unavailable ("a proof format this build does not read (" +:+ quote (rp_V env) +:+ ")"))
  else match b64_decode (rp_Body env) with
  | None => Err (Mismatch "proof body is not base64")
  | Some body =>
      let leaf := leafHash body in
      if negb (bool_decide (hex_encode leaf = drop_str 16 ref)) then Err (Mismatch "log entry leaf hash differs from the recorded ref")
      else match decode_body dec_entry zeroHashed body with
      | None => Err (Mismatch "log entry body is not a hashedrekord")
      | Some entry =>
          if negb (bool_decide (hr_Kind entry = "hashedrekord")) then Err (Mismatch "log entry body is not a hashedrekord")
          else if negb (bool_decide (ToLower (hr_Value entry) = ah_Hash head)) then Err (Mismatch "log entry hash differs from the recorded head")
          else match note_Open (rp_Checkpoint env) (NewLogKeyVerifiers key) with
          | UnverifiedNote => Err (Unavailable keyDiffers)
          | InvalidSignature => Err (Mismatch "checkpoint signature under the trusted key is invalid")
          | MalformedNote => Err (Mismatch "checkpoint is malformed")
          | Opened text =>
              let! (size, root) := judge_checkpoint text ref env in
              match mapM hex_decode (default [] (rp_Hashes env)) with
              | None => Err (Mismatch "inclusion proof is not hex")
              | Some hashes =>
                  if (rp_LogIndex env <? 0) || (rp_TreeSize env <? 0) then Err (Mismatch "inclusion proof does not verify")
                  else if negb (VerifyInclusion (rp_LogIndex env) size leaf hashes root) then Err (Mismatch "inclusion proof does not verify") else Ok ()
              end
          end
      end
  end.

(** What the network answers. *)
Context (send : rk_request -> rk_answer).

Definition do (r : Rekor) (method path accept : string) (body : option string) (auth : bool) : result backend_error (Z * string) :=
  let url := rk_url r +:+ path in
  let! _ := match parse_url url with Some _ => Ok () | None => Err (PlainError ("parse " +:+ quote url)) end in
  let! authorization :=
    match rk_bearer r with
    | Some answer => if auth then match answer with Ok tok => Ok (Some ("Bearer " +:+ tok)) | Err e => Err (BearerError e) end else Ok None
    | None => Ok None
    end in
  match send (MkRkRequest method url accept body authorization) with
  | RkNotSent e | RkCut e => Err (Transport (rk_host r) e)
  | RkAnswered status raw => if maxBody <? str_len raw then Err (PlainError ("response body from " +:+ rk_host r +:+ " exceeds 1 MiB")) else Ok (status, raw)
  end.

Definition servedKey (r : Rekor) (treeID : Z) (auth : bool) : result backend_error (string * string) :=
  let! (status, raw) := do r "GET" ("/api/v1/log/publicKey?treeID=" +:+ itoa treeID) "application/x-pem-file" None auth in
  if negb (status =? 200) then Err (PlainError ("status " +:+ itoa status +:+ " from " +:+ rk_host r))
  else match ParseLogKey raw with
       | Err e => Err (PlainError ("log key served by " +:+ rk_host r +:+ ": " +:+ e))
       | Ok pub => Ok (pub, LogKeyID pub)
       end.

(** [pem.EncodeToMemory]: the base64 text in lines of 64. *)
Fixpoint wrap_lines (fuel : nat) (s : string) : string :=
  match fuel with
  | O => ""
  | S f => if bool_decide (s = "") then "" else take_str 64 s +:+ nl +:+ wrap_lines f (drop_str 64 s)
  end.
Definition pem_Encode (type bytes : string) : string :=
  let text := b64_encode bytes in
  "-----BEGIN " +:+ type +:+ "-----" +:+ nl +:+ wrap_lines (String.length text) text +:+ "-----END " +:+ type +:+ "-----" +:+ nl.

Definition entry_for (head : AHead) (sig der : string) : hashedRekord :=
  MkHashed "0.0.1" "hashedrekord" "sha256" (ah_Hash head) (b64_encode sig) (b64_encode (pem_Encode "PUBLIC KEY" der)).
Definition unixToInternal : Z := 62135596800.
Definition time_Unix (sec : Z) : GoTime := MkTime ((sec + unixToInternal) * 1000000000) true.

(** The envelope of the proof an entry carries, with the entry id. *)
Definition submitted_entry (r : Rekor) (raw : string) : result backend_error (string * logEntryAnon * rekorProof) :=
  match decodeSingleEntry raw with
  | Err e => Err (PlainError ("response from " +:+ rk_host r +:+ " " +:+ e))
  | Ok (ref, e) =>
      match le_Inclusion e with
      | None => Err (PlainError ("response from " +:+ rk_host r +:+ " carries no inclusion proof"))
      | Some ip => Ok (ref, e, MkProof rekorProofV1 (bodyString e) (ip_LogIndex ip) (ip_TreeSize ip) (ToLower (ip_RootHash ip)) (ip_Hashes ip) (ip_Checkpoint ip))
      end
  end.
(** The key a proof is judged under: the pinned one, or the one served. *)
Definition submit_key (r : Rekor) (ref : string) : result backend_error (string * string * string) :=
  match rk_key r with
  | Some key => Ok (key, LogKeyID key, msgKeyDiffersPinned)
  | None =>
      match treeIDOf ref with
      | None => Err (PlainError ("entry id " +:+ quote ref +:+ " is not an 80-hex entry id"))
      | Some treeID => let! (key, keyID) := servedKey r treeID true in Ok (key, keyID, msgKeyDiffersServed)
      end
  end.

(** [Submit]; [eph] is the ephemeral signature of the digest and the DER of its
    key, or why there is none. *)
Definition Submit (r : Rekor) (head : AHead) (eph : result string (string * string)) : result backend_error Receipt :=
  if negb (lower_hex_of_len 64 (ah_Hash head)) then Err (PlainError ("head hash " +:+ quote (ah_Hash head) +:+ " is not a lowercase hex sha256"))
  else match eph with
  | Err e => Err (PlainError e)
  | Ok (sig, der) =>
      let body := marshal (JObj (omit (entry_fields (entry_for head sig der)))) in
      let! (status, raw) := do r "POST" "/api/v1/log/entries" "application/json" (Some body) true in
      if negb (status =? 201) then Err (PlainError ("status " +:+ itoa status +:+ " from " +:+ rk_host r))
      else
        let! (ref, e, env) := submitted_entry r raw in
        let! (key, keyID, keyDiffers) := submit_key r ref in
        let proofB64 := b64_encode (marshal_proof env) in
        if MaxProofLen <? str_len proofB64 then Err (PlainError ("proof is " +:+ itoa (str_len proofB64) +:+ " bytes; the cap is " +:+ itoa MaxProofLen))
        else match verifyProofOffline head ref env key keyDiffers with
             | Err (Unavailable c) => Err (PlainError c)
             | Err (Mismatch c) => Err (PlainError ("entry does not verify: " +:+ c))
             | Err e => Err e
             | Ok _ =>
                 let integrated := if 0 <? le_IntegratedTime e then time_Unix (le_IntegratedTime e) else MkTime 0 true in
                 Ok (MkReceipt ref proofB64 (rk_url r) keyID integrated (le_LogIndex e))
             end
  end.

(** [presence] *)
Definition presence (r : Rekor) (ref storedBody : string) : result backend_error () :=
  let unavailable cause := Err (Unavailable (cause +:+ " (proof verified offline; presence not checked)")) in
  match do r "GET" ("/api/v1/log/entries/" +:+ ref) "application/json" None false with
  | Err e => unavailable (error_text e)
  | Ok (status, raw) =>
      if negb (status =? 200) then unavailable ("status " +:+ itoa status +:+ " from " +:+ rk_host r)
      else match decodeSingleEntry raw with
           | Err _ => unavailable ("malformed answer from " +:+ rk_host r)
           | Ok (id, e) =>
               if negb (bool_decide (id = ref)) then unavailable ("malformed answer from " +:+ rk_host r)
               else if negb (bool_decide (bodyString e = storedBody)) then Err (Mismatch "log serves a different body for the recorded entry") else Ok ()
           end
  end.

(** The key a receipt is verified under. *)
Definition verify_key (r : Rekor) (treeID : Z) (rcpt : Receipt) : result backend_error (string * string) :=
  match rk_key r with
  | Some key => Ok (key, msgKeyDiffersPinned)
  | None =>
      if rk_offline r then Err (Unavailable "no key to verify under (unpinned, offline)")
      else match servedKey r treeID false with
           | Err e => Err (Unavailable (error_text e))
           | Ok (served, id) => if negb (bool_decide (id = rc_BackendKeyID rcpt)) then Err (Unavailable msgKeyDiffersRecorded) else Ok (served, msgKeyDiffersRecorded)
           end
  end.

Definition RekorVerify (r : Rekor) (head : AHead) (rcpt : Receipt) : result backend_error () :=
  let ref := ToLower (rc_Ref rcpt) in
  let bad_ref := Err (Mismatch ("ref " +:+ quote (rc_Ref rcpt) +:+ " is not an 80-hex entry id")) in
  if negb (entryIDRE ref) then bad_ref
  else match b64_decode (rc_Proof rcpt) with
  | None => Err (Mismatch "proof does not decode")
  | Some raw =>
      match decode_body dec_proof zeroProof raw with
      | None => Err (Mismatch "proof does not decode")
      | Some env =>
          match treeIDOf ref with
          | None => bad_ref
          | Some treeID =>
              let! (key, keyDiffers) := verify_key r treeID rcpt in
              let! _ := verifyProofOffline head ref env key keyDiffers in
              if rk_offline r then Ok () else presence r ref (rp_Body env)
          end
      end
  end.

Definition ServedKey (r : Rekor) (ref : string) : result backend_error (string * string) :=
  let ref := ToLower ref in
  if negb (entryIDRE ref) then Err (PlainError ("ref " +:+ quote ref +:+ " is not an 80-hex entry id"))
  else match treeIDOf ref with
       | None => Err (PlainError ("ref " +:+ quote ref +:+ " is not an 80-hex entry id"))
       | Some treeID => servedKey r treeID false
       end.
End rekor.

(** ** The proof survives the record *)
#[local] Hint Extern 1 (_ <= _) => lia : go.
Lemma proof_keys p : NoDup (map (fun kv => fold_key kv.1) (proof_fields p)).
Proof. apply (bool_decide_unpack _). vm_compute. exact I. Qed.

Record proof_ok (p : rekorProof) : Prop := {
  pok_v : valid_utf8 (rp_V p) = true;
  pok_body : valid_utf8 (rp_Body p) = true;
  pok_index : int_ok (rp_LogIndex p);
  pok_size : int_ok (rp_TreeSize p);
  pok_root : valid_utf8 (rp_RootHash p) = true;
  pok_hashes : Forall (fun s => valid_utf8 s = true) (default [] (rp_Hashes p));
  pok_checkpoint : valid_utf8 (rp_Checkpoint p) = true;
}.

Lemma proof_roundtrip p : proof_ok p -> decode_body dec_proof zeroProof (marshal_proof p) = Some p.
Proof.
  intros [Hv Hb Hi Ht Hr Hh Hc]. unfold decode_body, marshal_proof.
  assert (Hw : wf_fields 1 (proof_fields p)). { wf_struct. }
  destruct (wf_omit 1 (proof_fields p)) as [H1 H2]; [lia|exact Hw|]. rewrite (parse_print _ H1) by (unfold max_depth; lia). cbn [dec_obj].
  transitivity (Some (MkProof (to_valid (rp_V p)) (to_valid (rp_Body p)) (rp_LogIndex p) (rp_TreeSize p) (to_valid (rp_RootHash p)) (map to_valid <$> rp_Hashes p) (to_valid (rp_Checkpoint p)))).
  - unfold dec_proof. decode_fields (proof_keys p).
  - assert (Hm : map to_valid <$> rp_Hashes p = rp_Hashes p).
    { destruct (rp_Hashes p) as [h|]; [|done]. cbn in *. f_equal. induction Hh as [|x h Hx _ IH]; [done|]. cbn. by rewrite to_valid_id, IH. }
    rewrite Hm, !to_valid_id by done. by destruct p.
Qed.

(** Everything decoded from the log's answer can be written and read back. *)
Definition inclusion_ok (ip : inclusionProof) : Prop :=
  valid_utf8 (ip_Checkpoint ip) = true /\ Forall (fun s => valid_utf8 s = true) (default [] (ip_Hashes ip)) /\ int_ok (ip_LogIndex ip) /\ valid_utf8 (ip_RootHash ip) = true /\ int_ok (ip_TreeSize ip).
Definition entry_ok (e : logEntryAnon) : Prop := valid_json (le_Body e) /\ match le_Inclusion e with Some ip => inclusion_ok ip | None => True end.

Lemma dec_strs_valid v cur l : valid_json v -> Forall (fun s => valid_utf8 s = true) (default [] cur) -> dec_strs_nil v cur = Some l -> Forall (fun s => valid_utf8 s = true) (default [] l).
Proof.
  intros Hv Hc. destruct v as [| | | |es|]; cbn; try done; [intros [= <-]; done|]. destruct (mapM dec_elem es) as [x|] eqn:E; [|done]. intros [= <-].
  inversion Hv; subst. by eapply mapM_elems_valid.
Qed.
Lemma dec_inclusion_ok fs cur ip : valid_fields fs -> inclusion_ok cur -> dec_inclusion fs cur = Some ip -> inclusion_ok ip.
Proof.
  intros Hf (Hc & Hh & Hi & Hr & Ht). unfold dec_inclusion.
  pose proof (fun name => field_values_valid name fs Hf) as Hv.
  destruct (dec_field dec_str (field_values "checkpoint" fs) _) as [c|] eqn:E1; [|done].
  destruct (dec_field dec_strs_nil _ _) as [h|] eqn:E2; [|done]. destruct (dec_field dec_int (field_values "logIndex" fs) _) as [i|] eqn:E3; [|done].
  destruct (dec_field dec_str (field_values "rootHash" fs) _) as [r|] eqn:E4; [|done]. destruct (dec_field dec_int (field_values "treeSize" fs) _) as [t|] eqn:E5; [|done].
  intros [= <-]. unfold inclusion_ok. cbn [ip_Checkpoint ip_Hashes ip_LogIndex ip_RootHash ip_TreeSize]. split_and!.
  - eapply (dec_field_valid (fun s => valid_utf8 s = true)); [intros v x y; apply dec_str_valid|apply Hv|exact Hc|exact E1].
  - eapply (dec_field_valid (fun l => Forall (fun s => valid_utf8 s = true) (default [] l))); [intros v x y; apply dec_strs_valid|apply Hv|exact Hh|exact E2].
  - eapply (dec_field_valid int_ok); [intros v x y _; apply dec_int_bounds|apply Hv|exact Hi|exact E3].
  - eapply (dec_field_valid (fun s => valid_utf8 s = true)); [intros v x y; apply dec_str_valid|apply Hv|exact Hr|exact E4].
  - eapply (dec_field_valid int_ok); [intros v x y _; apply dec_int_bounds|apply Hv|exact Ht|exact E5].
Qed.

Abbreviation ptr_ok := (fun p : ptr inclusionProof => match p with Some ip => inclusion_ok ip | None => True end).
Lemma zero_inclusion_ok : inclusion_ok zeroInclusion.
Proof. unfold inclusion_ok, int_ok, min_int64, max_int64; cbn. split_and!; try done; lia. Qed.
Lemma dec_verification_ok fs cur p : valid_fields fs -> ptr_ok cur -> dec_verification fs cur = Some p -> ptr_ok p.
Proof.
  intros Hf Hc. unfold dec_verification. apply (dec_field_valid ptr_ok); [|by apply field_values_valid|done]. intros v c y Hv Hok.
  destruct v as [| | | | |fs']; cbn [dec_ptr]; try done; [by intros [= <-]|]. destruct (dec_inclusion fs' _) as [ip|] eqn:E; [|done]. intros [= <-].
  inversion Hv; subst. eapply dec_inclusion_ok; [done| |exact E]. destruct c; [done|apply zero_inclusion_ok].
Qed.
Lemma dec_log_entry_ok fs e : valid_fields fs -> dec_log_entry fs zeroLogEntry = Some e -> entry_ok e.
Proof.
  intros Hf. unfold dec_log_entry. pose proof (fun name => field_values_valid name fs Hf) as Hv.
  destruct (dec_field _ (field_values "body" fs) _) as [b|] eqn:E1; [|done]. destruct (dec_field dec_int (field_values "integratedTime" fs) _) as [t|]; [|done].
  destruct (dec_field dec_str _ _) as [l|]; [|done]. destruct (dec_field dec_int (field_values "logIndex" fs) _) as [i|]; [|done].
  destruct (dec_field (dec_obj dec_verification) _ _) as [p|] eqn:E2; [|done]. intros [= <-]. split; cbn [le_Body le_Inclusion].
  - eapply (dec_field_valid valid_json); [| |exact valid_null|exact E1]; [|done]. intros v c y Hvv _ [= <-]. done.
  - eapply (dec_field_valid ptr_ok); [| | |exact E2]; [|done|exact I]. intros v c y Hvv Hok. destruct v as [| | | | |fs']; cbn [dec_obj]; try done; [by intros [= <-]|].
    inversion Hvv; subst. by apply dec_verification_ok.
Qed.
Lemma dec_entries_ok fs m m' : valid_fields fs -> map_Forall (fun _ => entry_ok) m -> dec_entries fs m = Some m' -> map_Forall (fun _ => entry_ok) m'.
Proof.
  intros Hf. revert m. induction Hf as [|[k v] fs [_ Hv] _ IH]; intros m Hm; cbn [dec_entries]; [by intros [= <-]|].
  destruct (dec_obj dec_log_entry v zeroLogEntry) as [e|] eqn:E; [|done]. cbn. apply IH. apply map_Forall_insert_2; [|done].
  destruct v as [| | | | |fs']; cbn in E; try done; [injection E as <-; split; [constructor|done]|]. inversion Hv; subst. by eapply dec_log_entry_ok.
Qed.

Section sound.
  Context `{GoText, GoURL, GoLower, LogLibs}.

Lemma decodeSingleEntry_ok raw ref e : decodeSingleEntry raw = Ok (ref, e) -> entryIDRE ref = true /\ entry_ok e.
Proof.
  unfold decodeSingleEntry. set (m := match parse_json raw with Some (JObj fs) => _ | _ => _ end).
  assert (Hm : forall m', m = Some m' -> map_Forall (fun _ => entry_ok) m').
  { intros m' E. subst m. destruct (parse_json raw) as [v|] eqn:Ep; [|done]. apply parse_json_valid in Ep.
    destruct v as [| | | | |fs]; try done; [injection E as <-; apply map_Forall_empty|]. inversion Ep; subst. eapply dec_entries_ok; [done| |exact E]. apply map_Forall_empty. }
  destruct m as [m'|]; [|done]. cbn. destruct (map_to_list m') as [|[id e'] [|]] eqn:El; try done. destruct (entryIDRE (ToLower id)) eqn:Ei; [|done]. cbn. intros [= <- <-].
  split; [done|]. apply (Hm m' eq_refl id). apply elem_of_map_to_list. rewrite El. by left.
Qed.
Lemma submitted_entry_ok r raw ref e env : submitted_entry r raw = Ok (ref, e, env) -> entryIDRE ref = true /\ proof_ok env.
Proof.
  unfold submitted_entry. destruct (decodeSingleEntry raw) as [[ref' e']|] eqn:E; [|done]. apply decodeSingleEntry_ok in E as [Hi [Hb Hp]].
  destruct (le_Inclusion e') as [ip|]; [|done]. intros [= <- <- <-]. split; [done|]. destruct Hp as (Hc & Hh & Hx & Hr & Ht). split; cbn; try done.
  - unfold bodyString. by inversion Hb.
  - apply ToLower_valid.
Qed.

(** ** What a verified proof says *)
Lemma hex_digit_inj m n : 0 <= m < 16 -> 0 <= n < 16 -> hex_digit m = hex_digit n -> m = n.
Proof.
  intros Hm Hn. assert (Hm' : m ∈ [0;1;2;3;4;5;6;7;8;9;10;11;12;13;14;15]) by (rewrite !elem_of_cons; lia). assert (Hn' : n ∈ [0;1;2;3;4;5;6;7;8;9;10;11;12;13;14;15]) by (rewrite !elem_of_cons; lia).
  rewrite !elem_of_cons, elem_of_nil in Hm', Hn'. destruct_or!; subst; done.
Qed.
Lemma hex_encode_inj a b : hex_encode a = hex_encode b -> a = b.
Proof.
  revert b. induction a as [|c a IH]; intros [|d b]; cbn [hex_encode]; try done. intros [= E1 E2 E3]. f_equal; [|by apply IH].
  pose proof (byte_val_range c). pose proof (byte_val_range d). apply byte_val_inj.
  rewrite (hex_digit_mod (byte_val c) (byte_val c mod 16)), (hex_digit_mod (byte_val d) (byte_val d mod 16)) in E2 by (by rewrite Zmod_mod).
  rewrite !Z.shiftr_div_pow2 in E1 by lia. change (2 ^ 4) with 16 in E1.
  apply hex_digit_inj in E1; [|split; [apply Z.div_pos; lia|apply Z.div_lt_upper_bound; lia]..]. apply hex_digit_inj in E2; [|apply Z.mod_pos_bound; lia..].
  rewrite (Z.div_mod (byte_val c) 16), (Z.div_mod (byte_val d) 16) by lia. congruence.
Qed.

(** The log, under [key], stands behind [head] with the entry [ref]: the entry
    whose leaf the ref names is a record of the head's hash, and its leaf is in
    the tree of a checkpoint that names the ref's tree and opens under the key. *)
Record log_vouches (head : AHead) (ref : string) (env : rekorProof) (key : string) : Prop := MkVouches {
  lv_body : exists body entry, b64_decode (rp_Body env) = Some body /\ hex_encode (HashLeaf body) = drop_str 16 ref /\
    decode_body dec_entry zeroHashed body = Some entry /\ hr_Kind entry = "hashedrekord" /\ ToLower (hr_Value entry) = ah_Hash head /\
    exists text size root hashes, note_Open (rp_Checkpoint env) (NewLogKeyVerifiers key) = Opened text /\ judge_checkpoint text ref env = Ok (size, root) /\
      mapM hex_decode (default [] (rp_Hashes env)) = Some hashes /\ VerifyInclusion (rp_LogIndex env) size (HashLeaf body) hashes root = true /\
      0 <= rp_LogIndex env /\ 0 <= rp_TreeSize env;
  lv_format : rp_V env = rekorProofV1;
}.

Lemma verify_offline_spec head ref env key d : verifyProofOffline head ref env key d = Ok () <-> log_vouches head ref env key.
Proof.
  unfold verifyProofOffline, leafHash. split.
  - case_bool_decide as Hv; cbn [negb]; [|done]. destruct (b64_decode (rp_Body env)) as [body|] eqn:Eb; [|done]. case_bool_decide as Hl; cbn [negb]; [|done].
    destruct (decode_body dec_entry zeroHashed body) as [entry|] eqn:Ee; [|done]. case_bool_decide as Hk; cbn [negb]; [|done]. case_bool_decide as Hh; cbn [negb]; [|done].
    destruct (note_Open _ _) as [text| | |] eqn:En; try done. destruct (judge_checkpoint text ref env) as [[size root]|] eqn:Ej; [|done]. cbn [result_bind].
    destruct (mapM hex_decode _) as [hashes|] eqn:Em; [|done]. destruct (Z.ltb_spec (rp_LogIndex env) 0), (Z.ltb_spec (rp_TreeSize env) 0); cbn [orb]; try done.
    destruct (VerifyInclusion _ _ _ _ _) eqn:Ei; [|done]. intros _. split; [|done]. exists body, entry. split_and!; try done. by exists text, size, root, hashes.
  - intros [(body & entry & -> & Hl & -> & Hk & Hh & text & size & root & hashes & -> & Hj & -> & Hin & Hi & Ht) Hv].
    rewrite !bool_decide_true by done. cbn [negb]. rewrite Hj. cbn [result_bind]. by rewrite (proj2 (Z.ltb_ge _ _) Hi), (proj2 (Z.ltb_ge _ _) Ht), Hin.
Qed.

(** The same of a proof as a record stores it. *)
Definition stored_proof (proof : string) : option rekorProof := b64_decode proof ≫= decode_body dec_proof zeroProof.
Definition proof_vouches (head : AHead) (ref proof key : string) : Prop := exists env, stored_proof proof = Some env /\ log_vouches head ref env key.

(** Two heads one entry vouches for are one, or the bodies in the two proofs are
    different and have one leaf hash. *)
Definition leaf_collision (proof1 proof2 : string) : Prop :=
  exists env1 env2 b1 b2, stored_proof proof1 = Some env1 /\ stored_proof proof2 = Some env2 /\
    b64_decode (rp_Body env1) = Some b1 /\ b64_decode (rp_Body env2) = Some b2 /\ b1 <> b2 /\ HashLeaf b1 = HashLeaf b2.
Lemma one_head h1 h2 ref p1 p2 k1 k2 : proof_vouches h1 ref p1 k1 -> proof_vouches h2 ref p2 k2 -> ah_Hash h1 = ah_Hash h2 \/ leaf_collision p1 p2.
Proof.
  intros (env1 & P1 & (b1 & e1 & B1 & L1 & D1 & _ & V1 & _) & _) (env2 & P2 & (b2 & e2 & B2 & L2 & D2 & _ & V2 & _) & _). rewrite <- L2 in L1. apply hex_encode_inj in L1.
  destruct (decide (b1 = b2)) as [->|Hne]; [left; congruence|right; by exists env1, env2, b1, b2].
Qed.

Lemma verify_rekor_spec send r head rcpt : RekorVerify send r head rcpt = Ok () ->
  exists key, entryIDRE (ToLower (rc_Ref rcpt)) = true /\ proof_vouches head (ToLower (rc_Ref rcpt)) (rc_Proof rcpt) key /\
    match rk_key r with Some k => key = k | None => rk_offline r = false /\ LogKeyID key = rc_BackendKeyID rcpt end.
Proof.
  unfold RekorVerify. destruct (entryIDRE _) eqn:Ei; [|done]. cbn [negb]. destruct (b64_decode _) as [raw|] eqn:Eb; [|done]. destruct (decode_body _ _ _) as [env|] eqn:Ee; [|done].
  destruct (treeIDOf _) as [treeID|]; [|done]. destruct (verify_key send r treeID rcpt) as [[key d]|] eqn:Ek; [|done]. cbn [result_bind].
  destruct (verifyProofOffline _ _ _ _ _) as [[]|] eqn:Ev; [|done]. intros _. apply verify_offline_spec in Ev. exists key. split_and!; [done|exists env; unfold stored_proof; by rewrite Eb|].
  revert Ek. unfold verify_key. destruct (rk_key r) as [k|]; [by intros [= <- _]|]. destruct (rk_offline r); [done|]. unfold servedKey.
  destruct (do _ _ _ _ _ _) as [[status raw']|]; [|done]. cbn [result_bind]. destruct (negb (status =? 200)); [done|]. destruct (ParseLogKey raw') as [pub|]; [|done].
  case_bool_decide; [|done]. by intros [= <- _].
Qed.

(** A proof that was returned is accepted with any receipt that carries it. *)
Lemma submitted_verifies send r head eph rcpt : Submit send r head eph = Ok rcpt ->
  lower_hex_of_len 64 (ah_Hash head) = true /\ str_len (rc_Proof rcpt) <= MaxProofLen /\ entryIDRE (rc_Ref rcpt) = true /\ rc_Backend rcpt = rk_url r /\
  exists key env, LogKeyID key = rc_BackendKeyID rcpt /\ (forall k, rk_key r = Some k -> key = k) /\ rc_Proof rcpt = b64_encode (marshal_proof env) /\
    forall send' r' rcpt', rk_key r' = Some key -> rc_Ref rcpt' = rc_Ref rcpt -> rc_Proof rcpt' = rc_Proof rcpt ->
      RekorVerify send' r' head rcpt' = if rk_offline r' then Ok () else presence send' r' (rc_Ref rcpt) (rp_Body env).
Proof.
  unfold Submit. destruct (lower_hex_of_len 64 (ah_Hash head)); [|done]. cbn [negb]. destruct eph as [[sig der]|]; [|done].
  destruct (do _ _ _ _ _ _) as [[status raw]|]; [|done]. cbn [result_bind]. destruct (negb (status =? 201)); [done|].
  destruct (submitted_entry r raw) as [[[ref e] env]|] eqn:Es; [|done]. cbn [result_bind]. destruct (submit_key send r ref) as [[[key keyID] d]|] eqn:Ek; [|done]. cbn [result_bind].
  remember (b64_encode (marshal_proof env)) as pf eqn:Hpf. cbv zeta. destruct (Z.ltb_spec MaxProofLen (str_len pf)) as [|Hcap]; [done|]. destruct (verifyProofOffline head ref env key d) as [[]|[]] eqn:Ev; try done. intros [= <-].
  cbn [rc_Proof rc_Ref rc_BackendKeyID rc_Backend]. apply submitted_entry_ok in Es as [Hid Hok]. split; [done|]. split; [done|]. split; [done|]. split; [done|]. exists key, env.
  assert (Hkey : LogKeyID key = keyID /\ forall k, rk_key r = Some k -> key = k).
  { revert Ek. unfold submit_key, servedKey. destruct (rk_key r) as [k|]; [intros [= <- <- _]; split; [done|by intros ? [= <-]]|]. destruct (treeIDOf ref) as [treeID|]; [|done].
    destruct (do _ _ _ _ _ _) as [[st raw']|]; [|done]. cbn [result_bind]. destruct (negb (st =? 200)); [done|]. destruct (ParseLogKey raw') as [pub|]; [|done]. by intros [= <- <- _]. }
  destruct Hkey as [Hk1 Hk2]. split_and!; [done|done|done|]. intros send' r' rcpt' Hr' Href Hprf. unfold RekorVerify. rewrite Href, Hprf.
  rewrite (ToLower_hex ref) by (by apply andb_true_iff in Hid as [_ ?]). rewrite Hid. cbn [negb]. rewrite Hpf, b64_roundtrip, (proof_roundtrip env Hok).
  apply verify_offline_spec in Ev. assert (Ht : exists t, treeIDOf ref = Some t).
  { destruct Ev as [(? & ? & _ & _ & _ & _ & _ & text & ? & ? & ? & _ & Hj & _) _]. revert Hj. unfold judge_checkpoint.
    destruct (split_on newline _) as [|? [|? [|? ?]]]; try done. destruct (checkpoint_tree _); [|done]. destruct (treeIDOf ref); [by eexists|done]. }
  destruct Ht as [t ->]. unfold verify_key. rewrite Hr'. cbn [result_bind]. by rewrite (proj2 (verify_offline_spec head ref env key msgKeyDiffersPinned) Ev).
Qed.

(** An anchor that was taken can be verified for ever after.  The receipt of
    a submission that succeeded, whatever the log answered, fits on a record,
    names an entry and the key it was judged under, and its stored proof alone
    verifies for the same head under that key, by any verifier that pins it:
    offline always, and online up to the presence check, whatever the network
    does in the meantime. *)
Theorem submitted_receipt_verifies (send : rk_request -> rk_answer) (r : Rekor) (head : AHead) (eph : result string (string * string)) (rcpt : Receipt)
  (Hs : Submit send r head eph = Ok rcpt) :
  str_len (rc_Proof rcpt) <= MaxProofLen /\ entryIDRE (rc_Ref rcpt) = true /\ rc_Backend rcpt = rk_url r /\
  exists key env, LogKeyID key = rc_BackendKeyID rcpt /\ (forall k, rk_key r = Some k -> key = k) /\ rc_Proof rcpt = b64_encode (marshal_proof env) /\
    forall send' r', rk_key r' = Some key -> RekorVerify send' r' head rcpt = if rk_offline r' then Ok () else presence send' r' (rc_Ref rcpt) (rp_Body env).
Proof.
  destruct (submitted_verifies send r head eph rcpt Hs) as (_ & ? & ? & ? & key & env & ? & ? & ? & Hv). do 3 (split; [done|]). exists key, env. split_and!; [done..|]. intros send' r' Hk. by apply Hv.
Qed.
End sound.

(** ** A concrete log of one entry *)
#[local] Instance toy_text : GoText := {| is_print := fun z => 32 <=? z; quote := fun s => s |}.
#[local] Instance toy_url : GoURL := {| parse_url := fun _ => Some (MkURL "https" "log" false "" false "" "") |}.
Definition toy_lower : GoLower := {| lower_rune := fun r => r |}.
Definition toy_libs : LogLibs := {|
  note_Open := fun msg vs => match vs "log" (KeyHash "key") with Some v => if vf_Verify v msg "sig" then Opened msg else InvalidSignature | None => UnverifiedNote end;
  HashLeaf := fun b => sha256_sum (String nul b);
  VerifyInclusion := fun i n leaf path root => (i =? 0) && (n =? 1) && bool_decide (path = []) && bool_decide (leaf = root);
  VerifyASN1 := fun pub _ sig => bool_decide (pub = "key") && bool_decide (sig = "sig");
  pem_Decode := fun s => Some ("PUBLIC KEY", s); ParsePKIX := fun s => Ok (KeyECDSA "P-256" s); url_String := fun s => s |}.
#[local] Existing Instances toy_lower toy_libs.

Definition rx_head : AHead := MkAHead 1 (sha256_hex "record").
Definition rx_body : string := marshal (JObj (omit (entry_fields (entry_for rx_head "s" "der")))).
Definition rx_ref : string := "00000000000000ff" +:+ hex_encode (HashLeaf rx_body).
Definition rx_checkpoint : string := "log - 255" +:+ nl +:+ "1" +:+ nl +:+ b64_encode (HashLeaf rx_body) +:+ nl.
Definition rx_answer : string :=
  marshal (JObj [(rx_ref, JObj [("body", JStr (b64_encode rx_body)); ("integratedTime", JNum "5"); ("logID", JStr "l"); ("logIndex", JNum "7");
    ("verification", JObj [("inclusionProof", JObj [("checkpoint", JStr rx_checkpoint); ("hashes", JArr []); ("logIndex", JNum "0"); ("rootHash", JStr (hex_encode (HashLeaf rx_body))); ("treeSize", JNum "1")])])])]).
Definition rx_send (q : rk_request) : rk_answer := if bool_decide (rq_Method q = "POST") then RkAnswered 201 rx_answer else RkNotSent "down".
Definition rx_rekor (offline : bool) : Rekor := MkRekor "https://log" "log" (Some "key") None offline.
Definition rx_receipt : Receipt := match Submit rx_send (rx_rekor false) rx_head (Ok ("s", "der")) with Ok r => r | Err _ => zeroReceipt end.

Lemma submitted_receipt_verifies_witness : RekorVerify (fun _ => RkNotSent "down") (rx_rekor true) rx_head rx_receipt = Ok ().
Proof.
  assert (Hs : Submit rx_send (rx_rekor false) rx_head (Ok ("s", "der")) = Ok rx_receipt) by (vm_compute; reflexivity).
  destruct (submitted_receipt_verifies rx_send (rx_rekor false) rx_head (Ok ("s", "der")) rx_receipt Hs) as (_ & _ & _ & key & env & _ & Hk & _ & Hv).
  apply Hv. rewrite (Hk "key" eq_refl). reflexivity.
Defined.
