(* ===== verification/AnchorVerify.v ===== *)
(** * The verdict on an anchor ([internal/anchorverify/anchorverify.go])

    The one ladder every reader's verdict goes through: the structural check
    first, then the stored proof under a backend built from the record itself.
    A backend is what its [Verify] answers; the default builds the client of
    [Rekor]. *)
From S2P Require Import Prelude Sha256 GoStr Json Paths Ledger Config Authz Origin Registry Event Utf8 Attest Doors ControlRecord Manifest Segments Snapshot Times Signed Rekor.

Inductive anchor_state : Type := StateVerified | StateMismatch | StateUnverifiable.
#[global] Instance anchor_state_eq_dec : EqDecision anchor_state.
Proof. solve_decision. Defined.

(** A check with its cause as text: [control.AnchorCheck] as a reader hands it
    over. *)
Record TextCheck : Type := MkCheck { ck_RecordSeq : Z; ck_Anchor : ptr Anchor; ck_Mismatch : string }.
Definition mismatch_text (m : option mismatch) : string :=
  match m with
  | None => ""
  | Some NoCoverage => "anchor record without coverage"
  | Some HashNotHex => "anchor hash is not a lowercase hex sha256"
  | Some (NotBefore seq recordSeq) => "anchor covers seq " +:+ itoa seq +:+ ", which is not before the record (seq " +:+ itoa recordSeq +:+ ")"
  | Some (NotReproduced seq got recorded) => "the chain does not reproduce the recorded head at seq " +:+ itoa seq +:+ " (chain " +:+ got +:+ ", recorded " +:+ recorded +:+ ")"
  end.
Definition text_check (c : AnchorCheck) : TextCheck := MkCheck (ac_RecordSeq c) (ac_Anchor c) (mismatch_text (ac_Mismatch c)).

Record AResult : Type := MkAResult { rs_Check : TextCheck; rs_State : anchor_state; rs_Cause : string }.

Abbreviation Backend := (AHead -> Receipt -> result backend_error ()).
Abbreviation Factory := (string -> string -> option string -> bool -> result string Backend).

Section verify.
  Context `{GoText, GoURL, GoLower, LogLibs} (send : rk_request -> rk_answer).

Definition Default : Factory := fun kind url key offline =>
  if bool_decide (kind = "transparency-log") then let! r := NewRekor url key None offline in Ok (RekorVerify send r)
  else Err ("anchor backend kind " +:+ quote kind +:+ " is not implemented").

Definition decide_anchor (factory : Factory) (key : result string (option string)) (offline : bool) (c : TextCheck) : anchor_state * string :=
  match ck_Anchor c with
  | None => (StateMismatch, ck_Mismatch c)
  | Some a =>
      if negb (bool_decide (ck_Mismatch c = "")) then (StateMismatch, ck_Mismatch c)
      else match key with
           | Err e => (StateUnverifiable, e)
           | Ok key =>
               match factory (an_BackendKind a) (an_Backend a) key offline with
               | Err e => (StateUnverifiable, e)
               | Ok be =>
                   match be (MkAHead (an_Seq a) (an_Hash a)) (MkReceipt (an_Ref a) (an_Proof a) (an_Backend a) (an_BackendKeyID a) (MkTime 0 true) 0) with
                   | Ok _ => (StateVerified, "")
                   | Err (Mismatch c) => (StateMismatch, c)
                   | Err (Unavailable c) => (StateUnverifiable, c)
                   | Err e => (StateUnverifiable, error_text e)
                   end
               end
           end
  end.

(** [Decide]: [key] is what [ResolveKey] answers ([None]: there is none, or it
    yields no key), [factory] the one given or the default. *)
Definition Decide (factory : option Factory) (key : option (result string (option string))) (offline : bool) (checks : list TextCheck) : list AResult :=
  map (fun c => let '(state, cause) := decide_anchor (default Default factory) (default (Ok None) key) offline c in MkAResult c state cause) checks.
Definition VerifyAnchors (factory : option Factory) (key : option (result string (option string))) (offline : bool) (records : list string) : list AResult :=
  Decide factory key offline (map text_check (CheckAnchors records)).

(** ** The ladder *)
Lemma mismatch_text_none m : mismatch_text m = "" -> m = None.
Proof. by destruct m as [[]|]. Qed.

Lemma decide_verified factory key offline c :
  (decide_anchor factory key offline c).1 = StateVerified ->
  exists a k be, ck_Anchor c = Some a /\ ck_Mismatch c = "" /\ key = Ok k /\ factory (an_BackendKind a) (an_Backend a) k offline = Ok be /\
    be (MkAHead (an_Seq a) (an_Hash a)) (MkReceipt (an_Ref a) (an_Proof a) (an_Backend a) (an_BackendKeyID a) (MkTime 0 true) 0) = Ok ().
Proof.
  unfold decide_anchor. destruct (ck_Anchor c) as [a|]; [|done]. case_bool_decide as Hm; cbn [negb]; [|done]. destruct key as [k|]; [|done].
  destruct (factory _ _ _ _) as [be|] eqn:Ef; [|done]. destruct (be _ _) as [[]|[]] eqn:Eb; try done. intros _. by exists a, k, be.
Qed.

Lemma default_verified kind url key offline be head rcpt : Default kind url key offline = Ok be -> be head rcpt = Ok () ->
  exists k, proof_vouches head (ToLower (rc_Ref rcpt)) (rc_Proof rcpt) k /\ (forall p, key = Some p -> k = p).
Proof.
  unfold Default. case_bool_decide; [|done]. unfold NewRekor. destruct (parseBackendURL url) as [u|]; [|done]. cbn [result_bind]. destruct (parse_url u) as [p|]; [|done].
  cbn [result_bind]. intros [= <-] Hv. apply verify_rekor_spec in Hv as (k & _ & Hl & Hk). exists k. split; [done|]. intros p' ->. exact Hk.
Qed.

(** A reader that cannot decide says so: without a verdict from the log, and
    under a key that opens the checkpoint, an intact anchor is never called
    tampered with. *)
Lemma absence_is_not_tampering kind url key c a :
  ck_Anchor c = Some a -> ck_Mismatch c = "" -> (forall q, exists e, send q = RkNotSent e) -> an_BackendKind a = kind -> an_Backend a = url ->
  (decide_anchor Default (Ok (Some key)) true c).1 = StateVerified -> (decide_anchor Default (Ok (Some key)) false c).1 = StateUnverifiable.
Proof.
  intros Ha Hm Hs Hk Hu. unfold decide_anchor, Default. rewrite Ha, bool_decide_true by done. cbn [negb]. case_bool_decide; [|done]. unfold NewRekor.
  destruct (parseBackendURL (an_Backend a)) as [u|]; [|done]. cbn [result_bind]. destruct (parse_url u) as [p|]; [|done]. cbn [result_bind]. unfold RekorVerify, verify_key.
  destruct (entryIDRE _); [|done]. cbn [negb rc_Ref rc_Proof]. destruct (b64_decode (an_Proof a)) as [raw|]; [|done]. destruct (decode_body _ _ raw) as [env|]; [|done]. destruct (treeIDOf _) as [t|]; [|done].
  cbn [rk_key rk_offline result_bind]. destruct (verifyProofOffline _ _ _ _ _) as [[]|[]]; try done. intros _. cbn [result_bind]. unfold presence, do. cbn [rk_bearer rk_url result_bind].
  destruct (parse_url _); [|done]. cbn [result_bind].
  by destruct (Hs (MkRkRequest "GET" (u +:+ "/api/v1/log/entries/" +:+ ToLower (an_Ref a)) "application/json" None None)) as [e ->].
Qed.
End verify.

(** ** What a verified anchor of the control ledger pins *)
Lemma one_hash_one_history (d1 d2 : string) (l1 l2 : loaded) (n1 n2 : Z) (h : string) :
  loadChain (MkReader d1 false) zeroStart = l1 -> loadChain (MkReader d2 false) zeroStart = l2 -> ld_err l1 = None -> ld_err l2 = None ->
  head_at (ld_records l1) n1 h -> head_at (ld_records l2) n2 h ->
  (n1 = n2 /\ take (Z.to_nat n1) (ld_records l1) = take (Z.to_nat n2) (ld_records l2)) \/ collision_in (ld_records l1) (ld_records l2).
Proof.
  destruct l1 as [rs1 h1 e1 s1 er1], l2 as [rs2 h2 e2 s2 er2]. cbn [ld_records ld_err]. intros H1 H2 -> -> P1 P2.
  apply loadChain_sound in H1 as [_ (_ & _ & C1)], H2 as [_ (_ & _ & C2)]. destruct (head_at_chain _ _ _ _ _ _ _ _ _ C1 P1) as (? & ? & T1), (head_at_chain _ _ _ _ _ _ _ _ _ C2 P2) as (? & ? & T2).
  destruct (chain_head_commits _ _ _ _ _ _ _ _ _ _ T1 T2) as [Et|Hcol].
  - left. split; [|done]. apply (f_equal length) in Et. rewrite !length_take in Et. destruct P1 as [? _], P2 as [? _]. lia.
  - right. apply (collision_mono _ _ (drop (Z.to_nat n1) rs1) (drop (Z.to_nat n2) rs2)) in Hcol. by rewrite !take_drop in Hcol.
Qed.

Section pinned.
  Context `{GoText, GoURL, GoLower, LogLibs}.

Lemma verified_head send key offline records r : r ∈ VerifyAnchors send None key offline records -> rs_State r = StateVerified ->
  exists a k, ck_Anchor (rs_Check r) = Some a /\ head_at records (an_Seq a) (an_Hash a) /\ proof_vouches (MkAHead (an_Seq a) (an_Hash a)) (ToLower (an_Ref a)) (an_Proof a) k /\
    (forall p, key = Some (Ok (Some p)) -> k = p).
Proof.
  unfold VerifyAnchors, Decide. intros Hr Hs. apply list_elem_of_fmap in Hr as (tc & Er & Htc). apply list_elem_of_fmap in Htc as (c & -> & Hc).
  cbn [default] in Er. destruct (decide_anchor _ _ _ _) as [st cause] eqn:Ed. subst r. cbn [rs_State rs_Check] in *. subst st.
  pose proof (decide_verified (Default send) (default (Ok None) key) offline (text_check c)) as Hd. rewrite Ed in Hd.
  destruct (Hd eq_refl) as (a & k & be & Ha & Hm & Hkey & Hf & Hb). cbn in Ha, Hm. apply mismatch_text_none in Hm.
  destruct (default_verified send _ _ _ _ _ _ _ Hf Hb) as (k' & Hl & Hk'). apply list_elem_of_omap in Hc as (raw & _ & Hraw).
  destruct (check_anchor_head _ _ _ Hraw Hm) as (a' & Ea & Hh). assert (a' = a) as -> by congruence. exists a, k'. split_and!; [done|done|done|].
  intros p ->. cbn in Hkey. injection Hkey as <-. by apply Hk'.
Qed.

(** C25: a log entry admits one history.  Let two control ledgers, of any two
    hosts and at any two times, verify as chains, and let a reader of each,
    over any network and under any key or none, call an anchor verified; if
    the two anchors name one entry of a log then they cover the same number of
    records and the ledgers agree on every one of them, or two different
    records with one SHA-256 digest, or different entry bodies with one leaf
    hash in the two stored proofs, are exhibited.  So a rewritten ledger cannot reuse the anchor of the original. *)
Theorem anchored_history_is_one (send1 send2 : rk_request -> rk_answer) (key1 key2 : option (result string (option string))) (offline1 offline2 : bool)
  (d1 d2 : string) (l1 l2 : loaded) (r1 r2 : AResult) (a1 a2 : Anchor)
  (C1 : loadChain (MkReader d1 false) zeroStart = l1) (C2 : loadChain (MkReader d2 false) zeroStart = l2) (E1 : ld_err l1 = None) (E2 : ld_err l2 = None)
  (R1 : r1 ∈ VerifyAnchors send1 None key1 offline1 (ld_records l1)) (R2 : r2 ∈ VerifyAnchors send2 None key2 offline2 (ld_records l2))
  (S1 : rs_State r1 = StateVerified) (S2 : rs_State r2 = StateVerified)
  (A1 : ck_Anchor (rs_Check r1) = Some a1) (A2 : ck_Anchor (rs_Check r2) = Some a2) (Hr : ToLower (an_Ref a1) = ToLower (an_Ref a2)) :
  (an_Seq a1 = an_Seq a2 /\ take (Z.to_nat (an_Seq a1)) (ld_records l1) = take (Z.to_nat (an_Seq a2)) (ld_records l2)) \/
  collision_in (ld_records l1) (ld_records l2) \/ leaf_collision (an_Proof a1) (an_Proof a2).
Proof.
  destruct (verified_head _ _ _ _ _ R1 S1) as (a1' & k1 & Ea1 & P1 & L1 & _). destruct (verified_head _ _ _ _ _ R2 S2) as (a2' & k2 & Ea2 & P2 & L2 & _).
  assert (a1' = a1) as -> by congruence. assert (a2' = a2) as -> by congruence. rewrite Hr in L1.
  destruct (one_head _ _ _ _ _ _ _ L1 L2) as [Hh|Hc]; [|by right; right]. cbn in Hh. rewrite Hh in P1.
  destruct (one_hash_one_history _ _ _ _ _ _ _ C1 C2 E1 E2 P1 P2) as [Hp|Hc]; [by left|by right; left].
Qed.
End pinned.

(** ** A concrete ledger with a verified anchor *)
#[local] Existing Instances toy_text toy_url toy_lower toy_libs.
Definition av_head : AHead := MkAHead 1 (sha256_hex ex_apply_line).
Definition av_body : string := marshal (JObj (omit (entry_fields (entry_for av_head "s" "der")))).
Definition av_ref : string := "00000000000000ff" +:+ hex_encode (HashLeaf av_body).
Definition av_proof : rekorProof :=
  MkProof rekorProofV1 (b64_encode av_body) 0 1 (hex_encode (HashLeaf av_body)) (Some []) ("log - 255" +:+ nl +:+ "1" +:+ nl +:+ b64_encode (HashLeaf av_body) +:+ nl).
Definition av_anchor : Anchor := MkAnchor "" 1 (ah_Hash av_head) "tlog" "transparency-log" "https://log" av_ref (b64_encode (marshal_proof av_proof)) "".
Definition av_line : string :=
  marshal_record { zeroRecord with r_V := "control/1"; r_Seq := 2; r_Time := ex_time; r_Action := "anchor"; r_Outcome := "success"; r_Anchor := Some av_anchor; r_Prev := sha256_hex ex_apply_line }.
Definition av_file : string := bytes_of [ex_apply_line; av_line].
Definition av_loaded : loaded := loadChain (MkReader av_file false) zeroStart.
Definition av_result : AResult := MkAResult (MkCheck 2 (Some av_anchor) "") StateVerified "".
Definition av_key : option (result string (option string)) := Some (Ok (Some "key")).

Lemma anchored_history_is_one_witness :
  (an_Seq av_anchor = an_Seq av_anchor /\ take 1 (ld_records av_loaded) = take 1 (ld_records av_loaded)) \/ collision_in (ld_records av_loaded) (ld_records av_loaded) \/ leaf_collision (an_Proof av_anchor) (an_Proof av_anchor).
Proof.
  assert (Hv : VerifyAnchors (fun _ => RkNotSent "down") None av_key true (ld_records av_loaded) = [av_result]) by (vm_compute; reflexivity).
  refine (anchored_history_is_one (fun _ => RkNotSent "down") (fun _ => RkNotSent "down") av_key av_key true true av_file av_file av_loaded av_loaded av_result av_result av_anchor av_anchor _ _ _ _ _ _ _ _ _ _ _);
    try reflexivity; try (vm_compute; reflexivity); rewrite Hv; apply list_elem_of_singleton; reflexivity.
Defined.
