(* ===== verification/Sidecar.v ===== *)
(** * A run's anchor proof ([internal/sidecar])

    The file beside a run's ledger that holds its anchorings: read bounded,
    replaced whole, checked against the ledger and then decided by the ladder
    of [AnchorVerify].  A sidecar's state on disk and what a replacement or a
    listing answers are arguments; the texts of I/O and decoding errors are a
    function of their cause. *)
From S2P Require Import Prelude Sha256 GoStr Json Paths Ledger Config Authz Origin Registry Event Engine EngineTrace Completeness Tree Utf8 Attest Doors ControlRecord Manifest Segments Snapshot Times Signed Rekor AnchorVerify.

(** ** Names and bounds *)
Definition RunIDRE (s : string) : bool := match cut_prefix "r-" s with Some h => lower_hex_of_len 16 h | None => false end.
Definition anchor_suffix : string := ".anchor".
Definition MaxRecords : Z := 32.
Definition MaxLineLen : Z := MaxProofLen + MaxAnchorRefLen + MaxAnchorBackendLen + MaxAnchorBackendKindLen + MaxAnchorBackendKeyIDLen + 1024.

(** ** Times as they are written again

    [time.Time] marshals what it parsed in its own form: the fraction without
    trailing zeros, the zone of no offset as Z. *)
Fixpoint take_digits (l : list ascii) : list ascii := match l with c :: r => if is_digit c then c :: take_digits r else [] | [] => [] end.
Fixpoint drop_zeros (l : list ascii) : list ascii := match l with c :: r => if ascii_eqb c "0" then drop_zeros r else l | [] => [] end.
Definition canon_frac (l : list ascii) : list ascii :=
  match reverse (drop_zeros (reverse (take 9 (take_digits l)))) with [] => [] | f => "."%char :: f end.
Definition canon_zone (l : list ascii) : list ascii := if zone_seconds l =? 0 then ["Z"%char] else l.
Definition canon_tail (l : list ascii) : list ascii :=
  match l with
  | p :: r => if ascii_eqb p "."%char then canon_frac r ++ canon_zone (drop_digits r) else canon_zone l
  | [] => []
  end.
Definition canon_time (t : string) : string :=
  let l := String.list_ascii_of_string (time_text t) in String.string_of_list_ascii (take 19 l ++ canon_tail (drop 19 l)).

(** ** The record *)
Record Actor : Type := MkActor { at_Subject : string; at_Issuer : string; at_Method : string }.
Definition zeroActor : Actor := MkActor "" "" "".
Record SRecord : Type := MkSRecord {
  sr_Time : string; sr_RunID : string; sr_Seq : Z; sr_Hash : string; sr_Kind : string; sr_BackendKind : string;
  sr_Backend : string; sr_Ref : string; sr_Proof : string; sr_BackendKeyID : string; sr_AnchoredBy : Actor;
}.
Definition zeroSRecord : SRecord := MkSRecord "" "" 0 "" "" "" "" "" "" "" zeroActor.

Definition enc_actor (a : Actor) : list (string * option json) := [("subject", enc_str (at_Subject a)); ("issuer", enc_str (at_Issuer a)); ("method", enc_str (at_Method a))].
Definition dec_actor (fs : list (string * json)) (cur : Actor) : option Actor :=
  s ← dec_field dec_str (field_values "subject" fs) (at_Subject cur);
  i ← dec_field dec_str (field_values "issuer" fs) (at_Issuer cur);
  m ← dec_field dec_str (field_values "method" fs) (at_Method cur);
  Some (MkActor s i m).
Definition sidecar_fields (r : SRecord) : list (string * option json) :=
  [("time", enc_str (canon_time (sr_Time r))); ("run_id", enc_str (sr_RunID r)); ("seq", enc_int (sr_Seq r)); ("hash", enc_str (sr_Hash r)); ("kind", enc_str (sr_Kind r));
   ("backend_kind", enc_str (sr_BackendKind r)); ("backend", enc_str (sr_Backend r)); ("ref", enc_str (sr_Ref r)); ("proof", enc_str (sr_Proof r));
   ("backend_key_id", enc_str_oe (sr_BackendKeyID r)); ("anchored_by", enc_obj enc_actor (sr_AnchoredBy r))].
Definition dec_sidecar (fs : list (string * json)) (cur : SRecord) : option SRecord :=
  t ← dec_field dec_time (field_values "time" fs) (sr_Time cur);
  i ← dec_field dec_str (field_values "run_id" fs) (sr_RunID cur);
  s ← dec_field dec_int (field_values "seq" fs) (sr_Seq cur);
  h ← dec_field dec_str (field_values "hash" fs) (sr_Hash cur);
  k ← dec_field dec_str (field_values "kind" fs) (sr_Kind cur);
  bk ← dec_field dec_str (field_values "backend_kind" fs) (sr_BackendKind cur);
  b ← dec_field dec_str (field_values "backend" fs) (sr_Backend cur);
  r ← dec_field dec_str (field_values "ref" fs) (sr_Ref cur);
  p ← dec_field dec_str (field_values "proof" fs) (sr_Proof cur);
  ki ← dec_field dec_str (field_values "backend_key_id" fs) (sr_BackendKeyID cur);
  a ← dec_field (dec_obj dec_actor) (field_values "anchored_by" fs) (sr_AnchoredBy cur);
  Some (MkSRecord t i s h k bk b r p ki a).
Definition marshal_sidecar (r : SRecord) : string := marshal (JObj (omit (sidecar_fields r))).
Arguments marshal_sidecar : simpl never.

(** ** The file *)
Inductive sidecar_error : Type :=
  | SidecarStat | SidecarNotRegular | SidecarOpen | TooManyRecords | BadLine (n : Z) | LineField (n : Z) (fault : string) | RecordField (fault : string)
  | SidecarScan | LineTooLong | SidecarEmpty | SidecarFull (n : Z) | RecordTooLong (n : Z) | SidecarWrite | RunLedgerUnreadable (e : ledger_error).

Definition field_fault (name : string) (n max : Z) : string := if max <? n then name +:+ " is " +:+ itoa n +:+ " bytes; the cap is " +:+ itoa max else "".
Fixpoint first_fault (l : list string) : string := match l with [] => "" | f :: r => if bool_decide (f = "") then first_fault r else f end.
Definition fieldFault (r : SRecord) : string :=
  first_fault [field_fault "proof" (str_len (sr_Proof r)) MaxProofLen; field_fault "ref" (str_len (sr_Ref r)) MaxAnchorRefLen; field_fault "backend" (str_len (sr_Backend r)) MaxAnchorBackendLen;
    field_fault "backend_kind" (str_len (sr_BackendKind r)) MaxAnchorBackendKindLen; field_fault "backend_key_id" (str_len (sr_BackendKeyID r)) MaxAnchorBackendKeyIDLen].

(** What is at a sidecar's path; [fault]: its content, and that a read fails
    after it. *)
Inductive sfile : Type := SAbsent | SStatFault | SNotRegular | SVanished | SOpenFault | SFile (content : string) (fault : bool).

(** The scanner's loop: a line that leaves no room for its newline ends it. *)
Fixpoint scan_records (n : Z) (lines : list (string * bool)) (recs : list SRecord) : result sidecar_error (list SRecord) :=
  match lines with
  | [] => Ok recs
  | (raw, _) :: rest =>
      if MaxLineLen <=? str_len raw then Err LineTooLong
      else if MaxRecords <? n then Err TooManyRecords
      else match decode_body dec_sidecar zeroSRecord (trim_suffix raw (String "013" "")) with
           | None => Err (BadLine n)
           | Some r => if negb (bool_decide (fieldFault r = "")) then Err (LineField n (fieldFault r)) else scan_records (n + 1) rest (recs ++ [r])
           end
  end.

(** [Read]: not there, unreadable, or its records. *)
Definition SidecarRead (f : sfile) : result sidecar_error (option (list SRecord)) :=
  match f with
  | SAbsent | SVanished => Ok None
  | SStatFault => Err SidecarStat
  | SNotRegular => Err SidecarNotRegular
  | SOpenFault => Err SidecarOpen
  | SFile content fault =>
      let! recs := scan_records 1 (Ledger.split_lines content) [] in
      if fault then Err SidecarScan else match recs with [] => Err SidecarEmpty | _ => Ok (Some recs) end
  end.

Fixpoint sidecar_lines (recs : list SRecord) : result sidecar_error string :=
  match recs with
  | [] => Ok ""
  | x :: rest =>
      let b := marshal_sidecar x in
      if MaxLineLen <=? str_len b then Err (RecordTooLong (str_len b)) else let! data := sidecar_lines rest in Ok (b +:+ nl +:+ data)
  end.

(** [Append]; [ok]: does the replacement succeed. *)
Definition SidecarAppend (f : sfile) (ok : bool) (r : SRecord) : result sidecar_error () * sfile :=
  let fault := fieldFault r in
  if negb (bool_decide (fault = "")) then (Err (RecordField fault), f)
  else match SidecarRead f with
       | Err e => (Err e, f)
       | Ok found =>
           let recs := default [] found in
           if MaxRecords <=? Z.of_nat (length recs) then (Err (SidecarFull (Z.of_nat (length recs))), f)
           else match sidecar_lines (recs ++ [r]) with
                | Err e => (Err e, f)
                | Ok data => if ok then (Ok (), SFile data false) else (Err SidecarWrite, f)
                end
       end.

(** ** The structural check *)
Definition FinalEvent (chain : list string) : bool :=
  match last chain with
  | None => false
  | Some raw =>
      match unmarshal_event raw with
      | None => false
      | Some e => bool_decide (ev_Type e = "workflow_finished") || (bool_decide (ev_Type e = "run_refused") && Nat.eqb (length chain) 1)
      end
  end.

Definition record_anchor (r : SRecord) : Anchor :=
  MkAnchor (sr_RunID r) (sr_Seq r) (sr_Hash r) (sr_Kind r) (sr_BackendKind r) (sr_Backend r) (sr_Ref r) (sr_Proof r) (sr_BackendKeyID r).
Definition record_mismatch (runID : string) (chain : list string) (r : SRecord) : string :=
  if negb (bool_decide (sr_RunID r = runID)) then "sidecar record names another run"
  else if negb (lower_hex_of_len 64 (sr_Hash r)) then "anchor hash is not a lowercase hex sha256"
  else if (sr_Seq r <? 1) || negb (sr_Seq r =? Z.of_nat (length chain)) then "anchor covers event " +:+ itoa (sr_Seq r) +:+ " but the ledger has " +:+ itoa (Z.of_nat (length chain)) +:+ " events"
  else
    let got := sha256_hex (nth (Z.to_nat (sr_Seq r - 1)) chain "") in
    if negb (bool_decide (got = sr_Hash r)) then "the ledger does not reproduce the anchored head at event " +:+ itoa (sr_Seq r) +:+ " (ledger " +:+ got +:+ ", recorded " +:+ sr_Hash r +:+ ")"
    else if negb (FinalEvent chain) then "the anchored event is not the run's final event" else "".
Fixpoint check_records (line : Z) (runID : string) (chain : list string) (recs : list SRecord) : list TextCheck :=
  match recs with
  | [] => []
  | r :: rest => MkCheck line (Some (record_anchor r)) (record_mismatch runID chain r) :: check_records (line + 1) runID chain rest
  end.
Definition SidecarCheck (runID : string) (chain : list string) (recs : list SRecord) : list TextCheck := check_records 1 runID chain recs.

(** ** The verdict *)
Record AVerdict : Type := MkVerdict { vd_Found : bool; vd_Err : option sidecar_error; vd_Results : list AResult }.

Section verdicts.
  Context `{GoText, GoURL, GoLower, LogLibs} (send : rk_request -> rk_answer) (factory : option Factory) (key : option (result string (option string))) (offline : bool).

Definition SidecarVerify (f : sfile) (runID : string) (chain : list string) : AVerdict :=
  match SidecarRead f with
  | Err e => MkVerdict true (Some e) []
  | Ok None => MkVerdict false None []
  | Ok (Some recs) => MkVerdict true None (Decide send factory key offline (SidecarCheck runID chain recs))
  end.

(** [VerifyRun]: with whether the verdict was reached under a pinned key. *)
Definition VerifyRun (d : LogDir) (sidecar : string -> sfile) (logDir runID : string) : AVerdict * bool :=
  let none := MkVerdict false None [] in
  if negb (RunIDRE runID) then (none, false)
  else match sidecar runID with
       | SAbsent => (none, false)
       | SStatFault => (MkVerdict true (Some SidecarStat) [], false)
       | f =>
           let '(env, disk) := match ld_files d !! log_path logDir runID with Some (env, content) => (env, Some content) | None => (no_env, None) end in
           match ReadVerify env disk Unlocked with
           | (_, _, Some e) => (MkVerdict true (Some (RunLedgerUnreadable e)) [], false)
           | (chain, _, None) =>
               let v := SidecarVerify f runID chain in
               (v, match vd_Results v with [] => false | _ => match key with Some (Ok (Some _)) => true | _ => false end end)
           end
       end.
End verdicts.

Definition StateNotAnchored : string := "not-anchored".
Definition StateVerifiedWord : string := "verified".
Definition StateMismatchWord : string := "mismatch".
Definition StateUnverifiableWord : string := "unverifiable".

Fixpoint worst_state (worst : string) (results : list AResult) : string :=
  match results with
  | [] => worst
  | r :: rest =>
      match rs_State r with
      | StateMismatch => StateMismatchWord
      | StateUnverifiable => worst_state StateUnverifiableWord rest
      | StateVerified => worst_state worst rest
      end
  end.
Definition VerdictState (v : AVerdict) : string :=
  if negb (vd_Found v) then StateNotAnchored
  else if is_Some_b (vd_Err v) || match vd_Results v with [] => true | _ => false end then StateUnverifiableWord
  else worst_state StateVerifiedWord (vd_Results v).

(** ** The exit code *)
Definition ExitMismatch : Z := 6.
Definition ExitUnverifiable : Z := 7.
Definition VerdictExit (v : AVerdict) : Z :=
  let s := VerdictState v in
  if bool_decide (s = StateMismatchWord) then ExitMismatch else if bool_decide (s = StateUnverifiableWord) then ExitUnverifiable else 0.
Fixpoint tree_exit (worst : Z) (children : list AVerdict) : Z :=
  match children with
  | [] => worst
  | c :: rest =>
      if VerdictExit c =? ExitMismatch then ExitMismatch
      else if VerdictExit c =? ExitUnverifiable then tree_exit (if negb (worst =? ExitMismatch) then ExitUnverifiable else worst) rest
      else tree_exit worst rest
  end.
Definition TreeExit (root : AVerdict) (children : list AVerdict) : Z := tree_exit (VerdictExit root) children.

(** ** A delegation tree's verdicts *)
Record TreeVerdicts : Type := MkTreeVerdicts { tv_Root : AVerdict; tv_Pinned : bool; tv_Children : list AVerdict; tv_byRun : gmap string (AVerdict * bool) }.
Section tree.
  Context (verify : string -> AVerdict * bool).

Definition tree_child (t : TreeVerdicts) (c : Node) : TreeVerdicts :=
  if negb (bool_decide (Integrity c = "verified")) then t
  else let '(v, pinned) := verify (RunID c) in MkTreeVerdicts (tv_Root t) (tv_Pinned t) (tv_Children t ++ [v]) (<[RunID c := (v, pinned)]> (tv_byRun t)).
Definition TreeVerify (runID : string) (tree : Tree) (rootChainOK : bool) : TreeVerdicts :=
  let '(root, pinned) := if rootChainOK then verify runID else (MkVerdict false None [], false) in
  foldl tree_child (MkTreeVerdicts root pinned [] ∅) (Children tree).
End tree.
Definition TreeSuffix (t : TreeVerdicts) (n : Node) : string :=
  match tv_byRun t !! RunID n with
  | None => ""
  | Some (v, pinned) =>
      let state := VerdictState v in
      if bool_decide (state = StateVerifiedWord) && negb pinned then ", anchor " +:+ state +:+ " (as served)" else ", anchor " +:+ state
  end.

(** ** Runs without a sidecar *)

(** What [os.Stat] and [os.Lstat] answer for a listed name. *)
Inductive cand_stat : Type := CandGone | CandFault | CandDir | CandFile (inode : positive).
Section candidates.
  Context (stat : string -> cand_stat) (lstat : string -> result () bool) (controlLog : option positive).

Definition candidate (entry : string * bool) : result () (option string) :=
  let '(name, isDir) := entry in
  if isDir || bool_decide (name = "control.jsonl") || str_contains name ".torn-" || negb (has_suffix name ".jsonl") then Ok None
  else
    let id := trim_suffix name ".jsonl" in
    if negb (RunIDRE id) then Ok None
    else match stat name with
         | CandGone | CandDir => Ok None
         | CandFault => Err ()
         | CandFile i =>
             if bool_decide (controlLog = Some i) then Ok None
             else match lstat (id +:+ anchor_suffix) with Ok true => Ok None | Ok false => Ok (Some id) | Err _ => Err () end
         end.
Fixpoint candidates (entries : list (string * bool)) : result () (list string) :=
  match entries with
  | [] => Ok []
  | e :: rest => let! c := candidate e in let! ids := candidates rest in Ok (match c with Some id => id :: ids | None => ids end)
  end.
(** [Candidates]; [listing]: none, or a failing listing, or the entries. *)
Definition Candidates (listing : result () (option (list (string * bool)))) : result () (list string) :=
  match listing with
  | Err e => Err e
  | Ok None => Ok []
  | Ok (Some entries) => let! ids := candidates entries in Ok (sort_strings ids)
  end.
End candidates.

(** ** A time that is written again is still a time *)
Abbreviation ascii_list := (forallb (fun c => byte_val c <? 128)).
Lemma ascii_only_list s : ascii_only s = ascii_list (String.list_ascii_of_string s).
Proof. unfold ascii_only. induction s as [|c r IH]; [done|]. cbn. by rewrite IH. Qed.
Lemma digit_ascii c : is_digit c = true -> (byte_val c <? 128) = true.
Proof. unfold is_digit. rewrite in_range_iff. intros. apply Z.ltb_lt. lia. Qed.
Lemma digit_val_is_digit c d : digit_val c = Some d -> is_digit c = true.
Proof.
  unfold digit_val, is_digit, byte_val. destruct (_ && _) eqn:E; [|done]. intros _. apply andb_true_iff in E as [E1 E2].
  apply N.leb_le in E1, E2. apply in_range_iff. lia.
Qed.
Lemma two_digits_ascii a b v : two_digits a b = Some v -> (byte_val a <? 128) && (byte_val b <? 128) = true.
Proof.
  unfold two_digits. destruct (digit_val a) eqn:Ea; [|done]. destruct (digit_val b) eqn:Eb; [|done]. intros _.
  by rewrite (digit_ascii a), (digit_ascii b) by (by eapply digit_val_is_digit).
Qed.
Lemma in_two_ascii lo hi a b : in_two lo hi a b = true -> (byte_val a <? 128) && (byte_val b <? 128) = true.
Proof. unfold in_two. destruct (two_digits a b) eqn:E; [|done]. intros _. by eapply two_digits_ascii. Qed.
Lemma eqb_ascii c d : ascii_eqb c d = true -> byte_val d < 128 -> (byte_val c <? 128) = true.
Proof. intros ->%ascii_eqb_true ?. by apply Z.ltb_lt. Qed.

Lemma zone_ascii l : zone_ok l = true -> ascii_list l = true.
Proof.
  unfold zone_ok. destruct l as [|a [|b [|c [|d [|e [|f [|]]]]]]]; try done; cbn [forallb].
  - intros Ha. by rewrite (eqb_ascii a "Z") by done.
  - intros H. apply andb_true_iff in H as [H He]. apply andb_true_iff in H as [H Hd]. apply andb_true_iff in H as [Ha Hb].
    apply in_two_ascii, andb_true_iff in Hb as [-> ->]. apply in_two_ascii, andb_true_iff in He as [-> ->]. rewrite (eqb_ascii d ":") by done.
    apply orb_true_iff in Ha as [Ha|Ha]; by rewrite (eqb_ascii a _ Ha).
Qed.
Lemma drop_digits_ascii l : ascii_list (drop_digits l) = true -> ascii_list l = true.
Proof. induction l as [|c r IH]; [done|]. cbn [drop_digits]. destruct (is_digit c) eqn:E; [|done]. cbn [forallb]. intros H. by rewrite digit_ascii, IH. Qed.
Lemma frac_zone_ascii l : frac_zone_ok l = true -> ascii_list l = true.
Proof.
  unfold frac_zone_ok. destruct l as [|p [|d r]]; [done|apply zone_ascii|]. destruct (ascii_eqb p ".") eqn:E; [|apply zone_ascii].
  intros H. apply andb_true_iff in H as [Hd Hz]. cbn [forallb]. rewrite (eqb_ascii p "." E) by done. rewrite digit_ascii by done. by apply drop_digits_ascii, zone_ascii.
Qed.
Lemma rfc3339_ascii s : rfc3339_ok s = true -> ascii_only s = true.
Proof.
  rewrite ascii_only_list. unfold rfc3339_ok. set (l := String.list_ascii_of_string s). clearbody l.
  destruct l as [|y1 [|y2 [|y3 [|y4 [|a1 [|m1 [|m2 [|a2 [|d1 [|d2 [|a3 [|h1 [|h2 [|a4 [|n1 [|n2 [|a5 [|s1 [|s2 rest]]]]]]]]]]]]]]]]]]]; try done.
  destruct (two_digits y1 y2) eqn:E1; [|done]. destruct (two_digits y3 y4) eqn:E2; [|done]. destruct (two_digits m1 m2) eqn:E3; [|done]. destruct (two_digits d1 d2) eqn:E4; [|done].
  apply two_digits_ascii, andb_true_iff in E1 as [E1 E1'], E2 as [E2 E2'], E3 as [E3 E3'], E4 as [E4 E4'].
  rewrite !andb_true_iff. intros ((((((((((_ & _) & A1) & A2) & A3) & H) & A4) & N) & A5) & S) & F).
  apply in_two_ascii, andb_true_iff in H as [H H'], N as [N N'], S as [S S']. cbn [forallb].
  rewrite E1, E1', E2, E2', E3, E3', E4, E4', H, H', N, N', S, S', (eqb_ascii _ _ A1), (eqb_ascii _ _ A2), (eqb_ascii _ _ A3), (eqb_ascii _ _ A4), (eqb_ascii _ _ A5) by done.
  by apply frac_zone_ascii.
Qed.

Lemma zone_head_nondigit l : zone_ok l = true -> drop_digits l = l.
Proof.
  unfold zone_ok. destruct l as [|a [|b [|c [|d [|e [|f [|]]]]]]]; try done.
  - by intros ->%ascii_eqb_true.
  - intros H. rewrite !andb_true_iff, orb_true_iff in H. by destruct H as [[[[->%ascii_eqb_true| ->%ascii_eqb_true] _] _] _].
Qed.
Lemma zone_head_dot l : zone_ok l = true -> match l with p :: _ => ascii_eqb p "." = false | [] => False end.
Proof.
  unfold zone_ok. destruct l as [|a [|b [|c [|d [|e [|f [|]]]]]]]; try done.
  - by intros ->%ascii_eqb_true.
  - intros H. rewrite !andb_true_iff, orb_true_iff in H. by destruct H as [[[[->%ascii_eqb_true| ->%ascii_eqb_true] _] _] _].
Qed.
Lemma canon_zone_ok l : zone_ok l = true -> zone_ok (canon_zone l) = true.
Proof. unfold canon_zone. by destruct (zone_seconds l =? 0). Qed.
Lemma zone_frac_ok l : zone_ok l = true -> frac_zone_ok l = true.
Proof. intros H. pose proof (zone_head_dot l H). unfold frac_zone_ok. destruct l as [|p [|d r]]; try done. by destruct (ascii_eqb p "."). Qed.
Lemma take_digits_all l : forallb is_digit (take_digits l) = true.
Proof. induction l as [|c r IH]; [done|]. cbn. destruct (is_digit c) eqn:E; [|done]. cbn. by rewrite E. Qed.
Lemma drop_digits_app f l : forallb is_digit f = true -> drop_digits l = l -> drop_digits (f ++ l) = l.
Proof. induction f as [|c f IH]; [done|]. cbn. intros [-> H]%andb_true_iff Hl. by apply IH. Qed.
Lemma forallb_incl (p : ascii -> bool) l k : (forall x, x ∈ k -> x ∈ l) -> forallb p l = true -> forallb p k = true.
Proof. rewrite !forallb_forall. intros H Hp x Hx%list_elem_of_In. by apply Hp, list_elem_of_In, H. Qed.
Lemma drop_zeros_sub l x : x ∈ drop_zeros l -> x ∈ l.
Proof. induction l as [|c r IH]; [done|]. cbn. destruct (ascii_eqb c "0"); [|done]. rewrite elem_of_cons. auto. Qed.

Lemma canon_tail_ok l : frac_zone_ok l = true -> frac_zone_ok (canon_tail l) = true.
Proof.
  intros H. unfold canon_tail. destruct l as [|p r]; [done|]. destruct (ascii_eqb p ".") eqn:E.
  - unfold frac_zone_ok in H. destruct r as [|d r]; [by apply ascii_eqb_true in E as ->|]. rewrite E in H. apply andb_true_iff in H as [Hd Hz].
    assert (Hz' : zone_ok (canon_zone (drop_digits (d :: r))) = true) by (cbn [drop_digits]; rewrite Hd; by apply canon_zone_ok).
    unfold canon_frac. set (f := reverse (drop_zeros (reverse (take 9 (take_digits (d :: r)))))).
    assert (Hf : forallb is_digit f = true).
    { eapply forallb_incl; [|exact (take_digits_all (d :: r))]. intros x. subst f. rewrite elem_of_reverse. intros Hx%drop_zeros_sub. rewrite elem_of_reverse in Hx. by eapply elem_of_take_1 || (apply list_elem_of_lookup in Hx as [i Hi]; apply lookup_take_Some in Hi as [Hi _]; by eapply list_elem_of_lookup_2). }
    clearbody f. destruct f as [|c f]; [by apply zone_frac_ok|]. cbn [app frac_zone_ok]. cbn in Hf. apply andb_true_iff in Hf as [Hc Hf].
    change (ascii_eqb "." ".") with true. cbv iota. rewrite Hc. cbn [andb]. rewrite drop_digits_app; [done|done|by apply zone_head_nondigit].
  - apply zone_frac_ok, canon_zone_ok. unfold frac_zone_ok in H. destruct r as [|d r]; [done|]. by rewrite E in H.
Qed.
Lemma canon_time_ok t : rfc3339_ok (time_text t) = true -> rfc3339_ok (canon_time t) = true.
Proof.
  unfold rfc3339_ok, canon_time. rewrite String.list_ascii_of_string_of_list_ascii. set (l := String.list_ascii_of_string (time_text t)). clearbody l.
  destruct l as [|y1 [|y2 [|y3 [|y4 [|a1 [|m1 [|m2 [|a2 [|d1 [|d2 [|a3 [|h1 [|h2 [|a4 [|n1 [|n2 [|a5 [|s1 [|s2 rest]]]]]]]]]]]]]]]]]]]; try done.
  cbn [take drop app]. repeat (destruct (two_digits _ _); [|done]). rewrite !andb_true_iff. intros [? F]. split; [done|by apply canon_tail_ok].
Qed.

(** ** What is appended is read back *)
Record srecord_ok (r : SRecord) : Prop := {
  so_time : rfc3339_ok (time_text (sr_Time r)) = true;
  so_seq : int_ok (sr_Seq r);
  so_strings : Forall (fun s => valid_utf8 s = true)
    [sr_RunID r; sr_Hash r; sr_Kind r; sr_BackendKind r; sr_Backend r; sr_Ref r; sr_Proof r; sr_BackendKeyID r; at_Subject (sr_AnchoredBy r); at_Issuer (sr_AnchoredBy r); at_Method (sr_AnchoredBy r)];
}.
(** A record as a reader of the file sees it: its time in the marshaller's form. *)
Definition as_written (r : SRecord) : SRecord := { r with sr_Time := canon_time (sr_Time r) }.

Lemma sidecar_keys r : NoDup (map (fun kv => fold_key kv.1) (sidecar_fields r)).
Proof. apply (bool_decide_unpack _). vm_compute. exact I. Qed.
Lemma actor_keys a : NoDup (map (fun kv => fold_key kv.1) (enc_actor a)).
Proof. apply (bool_decide_unpack _). vm_compute. exact I. Qed.
#[local] Hint Extern 1 (_ <= _) => lia : go.
Lemma wf_sidecar r : wf_json (JObj (omit (sidecar_fields r))) /\ depth_of (JObj (omit (sidecar_fields r))) <= max_depth.
Proof.
  assert (Hw : wf_fields 1 (sidecar_fields r)). { wf_struct. apply wf_obj; [lia|]. wf_struct. }
  destruct (wf_omit 1 _ ltac:(lia) Hw) as [H1 H2]. split; [done|]. unfold max_depth. lia.
Qed.
Lemma rt_actor a : dec_actor (coerce_fields (omit (enc_actor a))) zeroActor = Some (MkActor (to_valid (at_Subject a)) (to_valid (at_Issuer a)) (to_valid (at_Method a))).
Proof. unfold dec_actor. decode_fields (actor_keys a). Qed.
Lemma rt_sidecar_actor a : dec_field (dec_obj dec_actor) (map coerce (opt_list (enc_obj enc_actor a))) zeroActor =
  Some (MkActor (to_valid (at_Subject a)) (to_valid (at_Issuer a)) (to_valid (at_Method a))).
Proof. apply rt_obj, rt_actor. Qed.
#[local] Hint Resolve rt_sidecar_actor : go.

Lemma sidecar_line_back r : srecord_ok r -> decode_body dec_sidecar zeroSRecord (marshal_sidecar r) = Some (as_written r).
Proof.
  intros [Ht Hs Hv]. unfold decode_body, marshal_sidecar. destruct (wf_sidecar r) as [H1 H2]. rewrite (parse_print _ H1 H2). cbn [coerce dec_obj].
  pose proof (canon_time_ok _ Ht) as Hc. pose proof (ascii_valid _ (rfc3339_ascii _ Hc)) as Hcv.
  transitivity (Some (MkSRecord (to_valid (canon_time (sr_Time r))) (to_valid (sr_RunID r)) (sr_Seq r) (to_valid (sr_Hash r)) (to_valid (sr_Kind r)) (to_valid (sr_BackendKind r)) (to_valid (sr_Backend r))
    (to_valid (sr_Ref r)) (to_valid (sr_Proof r)) (to_valid (sr_BackendKeyID r)) (MkActor (to_valid (at_Subject (sr_AnchoredBy r))) (to_valid (at_Issuer (sr_AnchoredBy r))) (to_valid (at_Method (sr_AnchoredBy r)))))).
  - fold (coerce_fields (omit (sidecar_fields r))). unfold dec_sidecar. decode_fields (sidecar_keys r).
  - rewrite !Forall_cons in Hv. destruct_and!. rewrite !to_valid_id by done. by destruct r as [? ? ? ? ? ? ? ? ? ? []].
Qed.

Lemma dec_time_ok v cur t : rfc3339_ok (time_text cur) = true -> dec_time v cur = Some t -> rfc3339_ok (time_text t) = true.
Proof.
  intros Hc. destruct v as [| | |s| |]; cbn; try done; [by intros [= <-]|]. destruct (rfc3339_ok s) eqn:E; [|done]. intros [= <-]. unfold time_text.
  case_bool_decide as Hs; [by subst|done].
Qed.
Abbreviation utf8s := (fun s : string => valid_utf8 s = true).
Lemma dec_str_field name fs cur s : valid_fields fs -> valid_utf8 cur = true -> dec_field dec_str (field_values name fs) cur = Some s -> valid_utf8 s = true.
Proof. intros Hf Hc. apply (dec_field_valid utf8s); [|by apply field_values_valid|done]. intros v x y. apply dec_str_valid. Qed.
Definition actor_ok (a : Actor) : Prop := Forall utf8s [at_Subject a; at_Issuer a; at_Method a].
Lemma dec_actor_ok fs cur a : valid_fields fs -> actor_ok cur -> dec_actor fs cur = Some a -> actor_ok a.
Proof.
  intros Hf Hc. unfold actor_ok in *. rewrite !Forall_cons in Hc. destruct Hc as (H1 & H2 & H3 & _). unfold dec_actor.
  destruct (dec_field dec_str (field_values "subject" fs) _) as [s|] eqn:E1; [|done]. destruct (dec_field dec_str (field_values "issuer" fs) _) as [i|] eqn:E2; [|done].
  destruct (dec_field dec_str (field_values "method" fs) _) as [m|] eqn:E3; [|done]. intros [= <-]. apply dec_str_field in E1, E2, E3; try done. by repeat constructor.
Qed.
Lemma dec_sidecar_ok fs r : valid_fields fs -> dec_sidecar fs zeroSRecord = Some r -> srecord_ok r.
Proof.
  intros Hf. unfold dec_sidecar.
  destruct (dec_field dec_time _ _) as [t|] eqn:E0; [|done]. destruct (dec_field dec_str (field_values "run_id" fs) _) as [i|] eqn:E1; [|done].
  destruct (dec_field dec_int _ _) as [sq|] eqn:Es; [|done]. destruct (dec_field dec_str (field_values "hash" fs) _) as [h|] eqn:E2; [|done].
  destruct (dec_field dec_str (field_values "kind" fs) _) as [k|] eqn:E3; [|done]. destruct (dec_field dec_str (field_values "backend_kind" fs) _) as [bk|] eqn:E4; [|done].
  destruct (dec_field dec_str (field_values "backend" fs) _) as [b|] eqn:E5; [|done]. destruct (dec_field dec_str (field_values "ref" fs) _) as [rf|] eqn:E6; [|done].
  destruct (dec_field dec_str (field_values "proof" fs) _) as [p|] eqn:E7; [|done]. destruct (dec_field dec_str (field_values "backend_key_id" fs) _) as [ki|] eqn:E8; [|done].
  destruct (dec_field (dec_obj dec_actor) _ _) as [a|] eqn:Ea; [|done]. intros [= <-]. apply dec_str_field in E1, E2, E3, E4, E5, E6, E7, E8; try done.
  assert (Ha : actor_ok a).
  { eapply (dec_field_valid actor_ok); [|by apply field_values_valid| |exact Ea]; [|by repeat constructor]. intros v x y Hv Hx. destruct v as [| | | | |fs']; cbn [dec_obj]; try done; [by intros [= <-]|].
    inversion Hv; subst. by apply dec_actor_ok. }
  unfold actor_ok in Ha. rewrite !Forall_cons in Ha. destruct Ha as (A1 & A2 & A3 & _). split; cbn.
  - eapply (dec_field_valid (fun t => rfc3339_ok (time_text t) = true)); [|by apply field_values_valid| |exact E0]; [|done]. intros v x y _. apply dec_time_ok.
  - eapply (dec_field_valid int_ok); [|by apply field_values_valid| |exact Es]; [intros v x y _; apply dec_int_bounds|]. unfold int_ok, min_int64, max_int64. cbn. lia.
  - by repeat constructor.
Qed.
Lemma decode_sidecar_ok line r : decode_body dec_sidecar zeroSRecord line = Some r -> srecord_ok r.
Proof.
  unfold decode_body. destruct (parse_json line) as [v|] eqn:Ep; [|done]. apply parse_json_valid in Ep. destruct v as [| | | | |fs]; cbn [dec_obj]; try done.
  - intros [= <-]. split; [done| |by repeat constructor]. unfold int_ok, min_int64, max_int64. cbn. lia.
  - inversion Ep; subst. by apply dec_sidecar_ok.
Qed.

Lemma trim_cr s : ends "}" s -> trim_suffix s (String "013" "") = s.
Proof.
  intros [p ->]. unfold trim_suffix, trim_prefix. rewrite rev_str_app. change (rev_str (String "013" "")) with (String "013" ""). change (rev_str "}") with "}".
  rewrite app_cons_str. cbn [cut_prefix]. change (ascii_eqb "013" "}") with false. cbv iota. rewrite <- (app_cons_str "}" "" (rev_str p)). change (String "}" "") with (rev_str "}"). rewrite <- rev_str_app. apply rev_str_rev.
Qed.

Lemma sidecar_lines_Ok recs data : sidecar_lines recs = Ok data ->
  data = bytes_of (map marshal_sidecar recs) /\ Forall (fun r => str_len (marshal_sidecar r) < MaxLineLen) recs.
Proof.
  revert data. induction recs as [|x recs IH]; intros data; cbn [sidecar_lines]; [by intros [= <-]|].
  destruct (Z.leb_spec MaxLineLen (str_len (marshal_sidecar x))); [done|]. destruct (sidecar_lines recs) as [d|]; [|done]. cbn [result_bind].
  intros Hd. assert (data = marshal_sidecar x +:+ nl +:+ d) as -> by congruence. destruct (IH d eq_refl) as [-> HF]. split; [done|]. by constructor.
Qed.

Lemma scan_back recs : forall n acc, Forall srecord_ok recs -> Forall (fun r => fieldFault r = "") recs -> Forall (fun r => str_len (marshal_sidecar r) < MaxLineLen) recs ->
  n + Z.of_nat (length recs) <= MaxRecords + 1 -> scan_records n (map (fun r => (r, true)) (map marshal_sidecar recs)) acc = Ok (acc ++ map as_written recs).
Proof.
  induction recs as [|x recs IH]; intros n acc Ho Hf Hl Hn; cbn [map scan_records]; [by rewrite app_nil_r|].
  apply Forall_cons in Ho as [Ho Ho'], Hf as [Hf Hf'], Hl as [Hl Hl']. cbn [length] in Hn.
  rewrite (proj2 (Z.leb_gt _ _)) by lia. rewrite (proj2 (Z.ltb_ge _ _)) by lia. rewrite trim_cr by (apply marshal_obj_ends). rewrite (sidecar_line_back x Ho).
  change (fieldFault (as_written x)) with (fieldFault x). rewrite bool_decide_true by done. cbn [negb]. rewrite IH by (done || lia). by rewrite <- app_assoc.
Qed.

Lemma scan_ok lines : forall n acc recs, scan_records n lines acc = Ok recs ->
  exists new, recs = acc ++ new /\ Forall srecord_ok new /\ Forall (fun r => fieldFault r = "") new /\ n + Z.of_nat (length new) <= Z.max n (MaxRecords + 1).
Proof.
  induction lines as [|[raw t] lines IH]; intros n acc recs; cbn [scan_records].
  - intros [= <-]. exists []. rewrite app_nil_r. cbn. split_and!; try done. lia.
  - destruct (MaxLineLen <=? str_len raw); [done|]. destruct (Z.ltb_spec MaxRecords n); [done|].
    destruct (decode_body _ _ _) as [r|] eqn:Ed; [|done]. case_bool_decide as Hf; cbn [negb]; [|done]. intros Hs. destruct (IH _ _ _ Hs) as (new & -> & Ho & Hff & Hn).
    exists (r :: new). rewrite <- app_assoc. cbn [app length]. split_and!; [done|constructor; [by eapply decode_sidecar_ok|done]|by constructor|lia].
Qed.

Lemma read_ok f recs : SidecarRead f = Ok (Some recs) -> Forall srecord_ok recs /\ Forall (fun r => fieldFault r = "") recs /\ Z.of_nat (length recs) <= MaxRecords.
Proof.
  destruct f as [| | | | |content fault]; try done. unfold SidecarRead. destruct (scan_records 1 _ []) as [rs|] eqn:Es; [|done]. cbn [result_bind]. destruct fault; [done|].
  destruct (scan_ok _ _ _ _ Es) as (new & -> & Ho & Hf & Hn). cbn [app] in *. intros H. assert (new = recs) as -> by (by destruct new; simplify_eq). split_and!; try done.
  unfold MaxRecords in *. lia.
Qed.

Lemma append_back f f' ok r res : srecord_ok r -> SidecarAppend f ok r = (res, f') ->
  (exists e, res = Err e /\ f' = f) \/
  (res = Ok () /\ ok = true /\ exists found, SidecarRead f = Ok found /\ SidecarRead f' = Ok (Some (map as_written (default [] found ++ [r]))) /\
     Z.of_nat (length (default [] found)) < MaxRecords).
Proof.
  intros Hr. unfold SidecarAppend. case_bool_decide as Hf; cbn [negb]; [|intros [= <- <-]; left; by eexists]. destruct (SidecarRead f) as [found|e] eqn:Er; [|intros [= <- <-]; left; by eexists].
  assert (Hold : Forall srecord_ok (default [] found) /\ Forall (fun r => fieldFault r = "") (default [] found)).
  { destruct found as [recs|]; [|done]. by destruct (read_ok _ _ Er) as (? & ? & _). }
  destruct Hold as [Ho Hff]. destruct (Z.leb_spec MaxRecords (Z.of_nat (length (default [] found)))) as [|Hlen]; [intros [= <- <-]; left; by eexists|].
  destruct (sidecar_lines (default [] found ++ [r])) as [data|e] eqn:El; [|intros [= <- <-]; left; by eexists]. destruct ok; [|intros [= <- <-]; left; by eexists].
  intros [= <- <-]. right. split; [done|]. split; [done|]. exists found. split; [done|]. split; [|done]. apply sidecar_lines_Ok in El as [-> Hl]. unfold SidecarRead.
  rewrite split_lines_bytes by (apply Forall_map, Forall_true; intros x; exact (print_nl _ EmptyString (proj1 (wf_sidecar x)))).
  rewrite scan_back; [|by apply Forall_app; split; [|constructor]..|done|rewrite length_app; cbn; lia]. cbn [result_bind app].
  destruct (map as_written (default [] found ++ [r])) eqn:Em; [|done]. apply map_eq_nil, app_eq_nil in Em as [_ ?]. done.
Qed.

(** C27: a proof file is extended whole and stays readable.  An append either
    fails and leaves the file as it was, or the file then reads back as the
    records it held followed by the new one, in order and none lost, their
    times in the marshaller's form and nothing else changed; so an append never
    writes a record, or a number of records, that a later read refuses. *)
Theorem sidecar_append_reads_back (f f' : sfile) (ok : bool) (r : SRecord) (res : result sidecar_error ())
  (Hr : srecord_ok r) (Ha : SidecarAppend f ok r = (res, f')) :
  (exists e, res = Err e /\ f' = f) \/
  (res = Ok () /\ ok = true /\ exists found, SidecarRead f = Ok found /\ SidecarRead f' = Ok (Some (map as_written (default [] found ++ [r]))) /\
     Z.of_nat (length (default [] found)) < MaxRecords).
Proof. by apply append_back. Qed.

(** ** What a verified run anchor pins *)
Lemma clean_reader env disk chain head : ReadVerify env disk Unlocked = (chain, head, None) ->
  exists content, disk = Some content /\ VerifyReader (MkReader content false) zeroStart = (chain, head, None).
Proof.
  unfold ReadVerify, ReadVerifyFrom. cbn [validate zeroStart]. change (negb (validate zeroStart)) with false. cbv iota. destruct disk as [content|]; [|done].
  destruct (negb (open_ok env)); [done|]. destruct (take_lock env Unlocked); [|done]. unfold VerifyReader. change (negb (validate zeroStart)) with false. cbv iota zeta.
  intros Hr. exists content. split; [done|]. unfold loadChain in *; cbn [rd_data rd_fault] in *; destruct (read_fault env && _) eqn:E; [done|]; cbn [andb] in *; done.
Qed.
Lemma clean_read env disk chain head : ReadVerify env disk Unlocked = (chain, head, None) ->
  exists content l, disk = Some content /\ loadChain (MkReader content false) zeroStart = l /\ ld_err l = None /\ ld_records l = chain.
Proof.
  intros (content & -> & Hr)%clean_reader. exists content, (loadChain (MkReader content false) zeroStart). revert Hr. unfold VerifyReader. change (negb (validate zeroStart)) with false. cbv iota zeta. by intros [= ? ? ?].
Qed.

Section pins.
  Context `{GoText, GoURL, GoLower, LogLibs}.

Lemma check_records_in line runID chain recs c : c ∈ check_records line runID chain recs ->
  exists r, c = MkCheck (ck_RecordSeq c) (Some (record_anchor r)) (record_mismatch runID chain r).
Proof.
  revert line. induction recs as [|r recs IH]; intros line; cbn [check_records]; [by intros ?%elem_of_nil|]. intros [->|Hc]%elem_of_cons; [by exists r|by apply (IH (line + 1))].
Qed.
Lemma record_mismatch_none runID chain r : record_mismatch runID chain r = "" ->
  sr_RunID r = runID /\ sr_Seq r = Z.of_nat (length chain) /\ head_at chain (sr_Seq r) (sr_Hash r) /\ FinalEvent chain = true.
Proof.
  unfold record_mismatch. case_bool_decide as Hi; cbn [negb]; [|done]. destruct (lower_hex_of_len 64 (sr_Hash r)); cbn [negb]; [|done].
  destruct (Z.ltb_spec (sr_Seq r) 1), (Z.eqb_spec (sr_Seq r) (Z.of_nat (length chain))); cbn [orb negb]; try done.
  case_bool_decide as Hh; cbn [negb]; [|done]. destruct (FinalEvent chain); [|done]. intros _. split; [done|]. split; [done|]. split; [|done]. split; [lia|done].
Qed.

(** The verdict's anchors, each against the run's own ledger. *)
Lemma run_verdict send key offline d sidecar logDir runID v pinned r :
  VerifyRun send None key offline d sidecar logDir runID = (v, pinned) -> r ∈ vd_Results v -> rs_State r = StateVerified ->
  exists content l a k, ld_files d !! log_path logDir runID = Some content /\ loadChain (MkReader content.2 false) zeroStart = l /\ ld_err l = None /\
    ck_Anchor (rs_Check r) = Some a /\ an_RunID a = runID /\ an_Seq a = Z.of_nat (length (ld_records l)) /\ head_at (ld_records l) (an_Seq a) (an_Hash a) /\ FinalEvent (ld_records l) = true /\
    proof_vouches (MkAHead (an_Seq a) (an_Hash a)) (ToLower (an_Ref a)) (an_Proof a) k /\ (pinned = true -> key = Some (Ok (Some k))).
Proof.
  unfold VerifyRun. destruct (RunIDRE runID); cbn [negb]; [|by intros [= <- <-] ?%elem_of_nil].
  intros Hv Hr Hs. destruct (sidecar runID) as [| | | | |content0 fault0] eqn:Esc; try (injection Hv as <- <-; by apply elem_of_nil in Hr).
  all: destruct (ld_files d !! log_path logDir runID) as [[env content]|] eqn:Ef; [|injection Hv as <- <-; by apply elem_of_nil in Hr].
  all: destruct (ReadVerify env (Some content) Unlocked) as [[chain head] [e|]] eqn:El; [injection Hv as <- <-; by apply elem_of_nil in Hr|]; injection Hv as <- <-.
  all: unfold SidecarVerify in *; destruct (SidecarRead _) as [[recs|]|]; try (by apply elem_of_nil in Hr); cbn [vd_Results] in *.
  all: apply clean_read in El as (content' & l & [= <-] & Hl & He & <-).
  all: pose proof Hr as Hr0; unfold Decide in Hr; apply list_elem_of_fmap in Hr as (tc & Er & Htc); destruct (decide_anchor _ _ _ _) as [st cause] eqn:Ed; subst r; cbn [rs_State rs_Check] in *; subst st.
  all: pose proof (decide_verified (default (Default send) None) (default (Ok None) key) offline tc) as Hd; rewrite Ed in Hd; destruct (Hd eq_refl) as (a & k & be & Ha & Hm & Hkey & Hfac & Hb).
  all: destruct (default_verified send _ _ _ _ _ _ _ Hfac Hb) as (k' & Hlv & Hk'); destruct (check_records_in _ _ _ _ _ Htc) as [rec Erec]; rewrite Erec in Ha, Hm; cbn in Ha, Hm; injection Ha as <-.
  all: apply record_mismatch_none in Hm as (Hid & Hseq & Hhead & Hfin); exists (env, content), l, (record_anchor rec), k'; cbn [snd]; rewrite Erec; split_and!; try done.
  all: destruct (Decide _ _ _ _ _) as [|x xs]; [done|]; destruct key as [[[p|]|]|]; try done; intros _; cbn in Hkey; injection Hkey as <-; by rewrite (Hk' p eq_refl).
Qed.

(** C26: a run's anchor pins the whole run.  If readers of two run ledgers, on
    any hosts, over any networks and under any keys, find an anchor of each
    verified and the two anchors name one log entry, then the ledgers are the
    same event for event, and complete to a final event, or two different
    events with one SHA-256 digest, or different entry bodies with one leaf hash
    in the two stored proofs, are exhibited; and under a verdict reported as
    pinned it is the pinned key that opens the checkpoint of the proof.  So a closed run cannot be cut, extended or rewritten under its proof. *)
Theorem run_anchor_pins_the_run (send1 send2 : rk_request -> rk_answer) (key1 key2 : option (result string (option string))) (offline1 offline2 : bool)
  (d1 d2 : LogDir) (sc1 sc2 : string -> sfile) (dir1 dir2 run1 run2 : string) (v1 v2 : AVerdict) (p1 p2 : bool) (r1 r2 : AResult) (a1 a2 : Anchor)
  (V1 : VerifyRun send1 None key1 offline1 d1 sc1 dir1 run1 = (v1, p1)) (V2 : VerifyRun send2 None key2 offline2 d2 sc2 dir2 run2 = (v2, p2))
  (R1 : r1 ∈ vd_Results v1) (R2 : r2 ∈ vd_Results v2) (S1 : rs_State r1 = StateVerified) (S2 : rs_State r2 = StateVerified)
  (A1 : ck_Anchor (rs_Check r1) = Some a1) (A2 : ck_Anchor (rs_Check r2) = Some a2) (Hr : ToLower (an_Ref a1) = ToLower (an_Ref a2)) :
  exists f1 f2, ld_files d1 !! log_path dir1 run1 = Some f1 /\ ld_files d2 !! log_path dir2 run2 = Some f2 /\
    let l1 := loadChain (MkReader f1.2 false) zeroStart in let l2 := loadChain (MkReader f2.2 false) zeroStart in
    FinalEvent (ld_records l1) = true /\ FinalEvent (ld_records l2) = true /\
    (ld_records l1 = ld_records l2 \/ collision_in (ld_records l1) (ld_records l2) \/ leaf_collision (an_Proof a1) (an_Proof a2)) /\
    (p1 = true -> exists k, key1 = Some (Ok (Some k)) /\ proof_vouches (MkAHead (an_Seq a1) (an_Hash a1)) (ToLower (an_Ref a1)) (an_Proof a1) k).
Proof.
  destruct (run_verdict _ _ _ _ _ _ _ _ _ _ V1 R1 S1) as (f1 & l1 & x1 & k1 & F1 & L1 & E1 & X1 & _ & Q1 & H1' & Z1 & W1 & K1).
  destruct (run_verdict _ _ _ _ _ _ _ _ _ _ V2 R2 S2) as (f2 & l2 & x2 & k2 & F2 & L2 & E2 & X2 & _ & Q2 & H2' & Z2 & W2 & _).
  assert (x1 = a1) as -> by congruence. assert (x2 = a2) as -> by congruence. exists f1, f2. split; [done|]. split; [done|]. cbv zeta. rewrite L1, L2. split; [done|]. split; [done|].
  split; [|intros Hp; exists k1; by rewrite (K1 Hp)].
  rewrite Hr in W1. destruct (one_head _ _ _ _ _ _ _ W1 W2) as [Hh|Hc]; [|by right; right]. cbn in Hh. rewrite Hh in H1'.
  destruct (one_hash_one_history _ _ _ _ _ _ _ L1 L2 E1 E2 H1' H2') as [[_ Ht]|Hc]; [left|by right; left]. rewrite Q1, Q2, !Nat2Z.id, !take_ge in Ht by lia. done.
Qed.
End pins.

Lemma worst_verified results : forall worst, worst_state worst results = StateVerifiedWord <-> worst = StateVerifiedWord /\ Forall (fun r => rs_State r = StateVerified) results.
Proof.
  induction results as [|r results IH]; intros worst; cbn [worst_state]; [by split; [split|intros []]|]. rewrite Forall_cons. destruct (rs_State r); rewrite ?IH; split; try done; naive_solver.
Qed.
Lemma worst_mismatch results : forall worst, worst <> StateMismatchWord -> worst_state worst results = StateMismatchWord <-> List.Exists (fun r => rs_State r = StateMismatch) results.
Proof.
  induction results as [|r results IH]; intros worst Hw; cbn [worst_state]; [by split; [|intros ?%List.Exists_nil]|]. rewrite Exists_cons. destruct (rs_State r) eqn:E; [rewrite IH by done|by split; [left|]|rewrite IH by done]; naive_solver.
Qed.
Lemma worst_among results : forall worst, worst_state worst results = StateMismatchWord \/ worst_state worst results = StateUnverifiableWord \/ worst_state worst results = worst.
Proof. induction results as [|r results IH]; intros worst; cbn [worst_state]; [auto|]. destruct (rs_State r); [apply IH|auto|]. destruct (IH StateUnverifiableWord) as [|[|]]; auto. Qed.

Lemma verdict_state_verified v : VerdictState v = StateVerifiedWord <->
  vd_Found v = true /\ vd_Err v = None /\ vd_Results v <> [] /\ Forall (fun r => rs_State r = StateVerified) (vd_Results v).
Proof.
  unfold VerdictState. destruct v as [[] [e|] results]; cbn [negb vd_Found vd_Err vd_Results is_Some_b orb]; try (split; [done|naive_solver]).
  destruct results as [|r results]; [split; [done|naive_solver]|]. rewrite worst_verified. naive_solver.
Qed.
Lemma verdict_exit_cases v : VerdictExit v = 6 \/ VerdictExit v = 7 \/ VerdictExit v = 0.
Proof. unfold VerdictExit. repeat case_bool_decide; auto. Qed.
Lemma tree_exit_spec children : forall worst, worst = 6 \/ worst = 7 \/ worst = 0 ->
  (tree_exit worst children = 6 <-> worst = 6 \/ List.Exists (fun c => VerdictExit c = 6) children) /\
  (tree_exit worst children = 0 <-> worst = 0 /\ Forall (fun c => VerdictExit c = 0) children).
Proof.
  induction children as [|c children IH]; intros worst Hw; cbn [tree_exit].
  - rewrite List.Exists_nil, Forall_nil. intuition.
  - rewrite Exists_cons, Forall_cons. unfold ExitMismatch, ExitUnverifiable. destruct (verdict_exit_cases c) as [E|[E|E]]; rewrite E; cbn [Z.eqb Pos.eqb].
    + split; split; auto; [done|]. by intros [_ [? _]].
    + destruct (Z.eqb_spec worst 6) as [->|Hne]; cbn [negb].
      * destruct (IH 6) as [I1 I2]; [auto|]. rewrite I1, I2. intuition lia.
      * destruct (IH 7) as [I1 I2]; [auto|]. rewrite I1, I2. intuition lia.
    + destruct (IH worst Hw) as [I1 I2]. rewrite I1, I2. intuition lia.
Qed.

(** The exit code ranks: 6 as soon as one run of the tree disagrees with its
    proof, 0 only when every run is verified or not anchored. *)
Lemma tree_exit_ranks root children :
  (TreeExit root children = 6 <-> List.Exists (fun v => VerdictState v = StateMismatchWord) (root :: children)) /\
  (TreeExit root children = 0 <-> Forall (fun v => VerdictState v = StateVerifiedWord \/ VerdictState v = StateNotAnchored) (root :: children)).
Proof.
  assert (H6 : forall v, VerdictExit v = 6 <-> VerdictState v = StateMismatchWord) by (intros v; unfold VerdictExit; repeat case_bool_decide; split; done || congruence).
  assert (H0 : forall v, VerdictExit v = 0 <-> VerdictState v = StateVerifiedWord \/ VerdictState v = StateNotAnchored).
  { intros v. unfold VerdictExit. assert (Hc : VerdictState v = StateNotAnchored \/ VerdictState v = StateUnverifiableWord \/ VerdictState v = StateMismatchWord \/ VerdictState v = StateVerifiedWord).
    { unfold VerdictState. destruct (negb (vd_Found v)); [auto|]. destruct (_ || _); [auto|]. destruct (worst_among (vd_Results v) StateVerifiedWord) as [|[|]]; auto. }
    destruct Hc as [->|[->|[->| ->]]]; repeat case_bool_decide; split; try done; naive_solver. }
  unfold TreeExit. destruct (tree_exit_spec children (VerdictExit root) (verdict_exit_cases root)) as [I1 I2]. rewrite I1, I2, Exists_cons, Forall_cons, H6, H0.
  split; apply and_iff_compat_l || apply or_iff_compat_l; [apply Exists_proper|apply Forall_proper]; done.
Qed.

(** ** A concrete run *)
#[local] Existing Instances toy_text toy_url toy_lower toy_libs.
Definition sx_run : string := "r-0123456789abcdef".
Definition sx_raw : string := marshal_event { ex_event with ev_Type := "run_refused"; ev_Prev := "" }.
Definition sx_head : AHead := MkAHead 1 (sha256_hex sx_raw).
Definition sx_body : string := marshal (JObj (omit (entry_fields (entry_for sx_head "s" "der")))).
Definition sx_ref : string := "00000000000000ff" +:+ hex_encode (HashLeaf sx_body).
Definition sx_proof : rekorProof :=
  MkProof rekorProofV1 (b64_encode sx_body) 0 1 (hex_encode (HashLeaf sx_body)) (Some []) ("log - 255" +:+ nl +:+ "1" +:+ nl +:+ b64_encode (HashLeaf sx_body) +:+ nl).
Definition sx_record : SRecord :=
  MkSRecord "2026-01-02T03:04:05.50+00:00" sx_run 1 (ah_Hash sx_head) "tlog" "transparency-log" "https://log" sx_ref (b64_encode (marshal_proof sx_proof)) "" (MkActor "ann" "idp" "oidc").
Definition sx_file : sfile := (SidecarAppend SAbsent true sx_record).2.
Definition sx_dir : LogDir := MkLogDir None {[log_path "runs" sx_run := (no_env, sx_raw +:+ nl)]}.
Definition sx_verdict : AVerdict * bool := VerifyRun (fun _ => RkNotSent "down") None (Some (Ok (Some "key"))) true sx_dir (fun _ => sx_file) "runs" sx_run.
Definition sx_result : AResult := default (MkAResult (MkCheck 0 None "") StateMismatch "") (head (vd_Results sx_verdict.1)).

Lemma sidecar_append_reads_back_witness : SidecarRead sx_file = Ok (Some [{ sx_record with sr_Time := "2026-01-02T03:04:05.5Z" }]).
Proof.
  assert (Hok : srecord_ok sx_record).
  { split; [vm_compute; reflexivity|unfold int_ok, min_int64, max_int64; cbn; lia|]. rewrite !Forall_cons, Forall_nil. repeat split; vm_compute; reflexivity. }
  assert (Ha : SidecarAppend SAbsent true sx_record = (Ok (), sx_file)) by (vm_compute; reflexivity).
  destruct (sidecar_append_reads_back SAbsent sx_file true sx_record (Ok ()) Hok Ha) as [(e & He & _)|(_ & _ & found & Hf & Hr & _)]; [discriminate He|].
  rewrite Hr. cbn in Hf. injection Hf as <-. vm_compute. reflexivity.
Defined.

Lemma run_anchor_pins_the_run_witness : VerdictState sx_verdict.1 = "verified" /\ exists f1 f2, ld_files sx_dir !! log_path "runs" sx_run = Some f1 /\ ld_files sx_dir !! log_path "runs" sx_run = Some f2.
Proof.
  split; [vm_compute; reflexivity|].
  destruct (run_anchor_pins_the_run (fun _ => RkNotSent "down") (fun _ => RkNotSent "down") (Some (Ok (Some "key"))) (Some (Ok (Some "key"))) true true sx_dir sx_dir (fun _ => sx_file) (fun _ => sx_file)
    "runs" "runs" sx_run sx_run sx_verdict.1 sx_verdict.1 sx_verdict.2 sx_verdict.2 sx_result sx_result (record_anchor (as_written sx_record)) (record_anchor (as_written sx_record))) as (f1 & f2 & F1 & F2 & _).
  1-2: exact (surjective_pairing _).
  1-2: assert (Hv : vd_Results sx_verdict.1 = [sx_result]) by (vm_compute; reflexivity); rewrite Hv; apply list_elem_of_singleton; reflexivity.
  1-4: vm_compute; reflexivity.
  - reflexivity.
  - exists f1, f2. split; [exact F1|exact F2].
Defined.
