(* ===== verification/Timeline.v ===== *)
(** * The investigation's timeline ([internal/investigate]: [timeline.go],
      [control.go], [record.go])

    Every run ledger under a directory and the control ledger, normalized into
    one shape, merged in a deterministic order and filtered.

    A time is its text, compared by its instant.  The directory is that of
    [Tree], the control ledger that of [Segments]; whether a listed name is the
    control ledger's own file and when it was last modified are arguments. *)
From S2P Require Import Prelude Sha256 GoStr Json Paths Ledger Config Authz Origin Registry Event Engine EngineTrace Completeness Tree Utf8 Attest Doors ControlRecord Manifest Segments Snapshot Times Signed Rekor AnchorVerify.

(** ** The record ([record.go]) *)
Record IInvoker : Type := MkIInvoker { ii_Subject : string; ii_Issuer : string; ii_Method : string; ii_AssertedAs : string }.
Record IAnchor : Type := MkIAnchor {
  ia_RunID : string; ia_Seq : Z; ia_Hash : string; ia_Kind : string; ia_BackendKind : string; ia_Backend : string; ia_Ref : string; ia_BackendKeyID : string;
  ia_Verdict : string; ia_Cause : string;
}.
Record IRecord : Type := MkIRecord {
  ir_Time : string; ir_Source : string; ir_RunID : string; ir_Kind : string; ir_Invoker : IInvoker; ir_Role : string; ir_Workflow : string; ir_Agent : string;
  ir_Outcome : string; ir_Reason : string; ir_ConfigHash : string; ir_ArtifactSHA : string; ir_Seq : Z; ir_ParentRunID : string; ir_Depth : Z; ir_Anchor : ptr IAnchor; ir_pos : Z;
}.

Definition normalizeRun (e : Event) (lineIdx : Z) : IRecord :=
  let outcome := if bool_decide (ev_Type e = "workflow_finished") then ev_Status e else if bool_decide (ev_Type e = "run_refused") then "refused" else "" in
  let b := ev_Binding e in
  MkIRecord (ev_Time e) "run" (b_RunID b) (ev_Type e) (MkIInvoker (i_Subject (b_Invoker b)) (i_Issuer (b_Invoker b)) (i_Method (b_Invoker b)) "")
    (b_Role b) (b_Workflow b) (ev_Agent e) outcome (ev_Reason e) (ev_ConfigHash e) (ev_ArtifactSHA e) 0 (b_ParentRunID b) (b_Depth b) None lineIdx.

Definition state_word (s : anchor_state) : string := match s with StateVerified => "verified" | StateMismatch => "mismatch" | StateUnverifiable => "unverifiable" end.
Definition zeroIAnchor : IAnchor := MkIAnchor "" 0 "" "" "" "" "" "" "" "".

Section normalize.
  Context `{GoText}.
Definition anchorView (d : DecodedEvent) (verdict : option AResult) : ptr IAnchor :=
  if negb (bool_decide (d_Action d = "anchor")) then None
  else
    let clean := Clean is_print in
    let v := match d_Anchor d with
             | Some a => Some (MkIAnchor (clean (an_RunID a)) (an_Seq a) (clean (an_Hash a)) (clean (an_Kind a)) (clean (an_BackendKind a)) (clean (an_Backend a)) (clean (an_Ref a)) (clean (an_BackendKeyID a)) "" "")
             | None => None
             end in
    match verdict with
    | Some r => if negb (bool_decide (d_Outcome d = "success")) then v else Some { default zeroIAnchor v with ia_Verdict := state_word (rs_State r); ia_Cause := rs_Cause r }
    | None => v
    end.
Definition normalizeControl (d : DecodedEvent) (verdict : option AResult) : IRecord :=
  MkIRecord (d_Time d) "control" "" (d_Action d) (MkIInvoker (i_Subject (d_Invoker d)) (i_Issuer (d_Invoker d)) (i_Method (d_Invoker d)) (d_AssertedAs d))
    "" "" (d_Agent d) (d_Outcome d) (match d_Reason d with Some r => rs_Message r | None => "" end) (d_ConfigHash d) "" (d_Seq d) "" 0 (anchorView d verdict) (d_Seq d).
End normalize.

(** ** The control ledger ([control.go]) *)
Fixpoint decode_prefix (records : list string) : list DecodedEvent :=
  match records with
  | [] => []
  | r :: rest => match Decode r with Some d => d :: decode_prefix rest | None => [] end
  end.
Definition control_verdict (recs : list string) (err : option control_error) : option string :=
  match err with
  | Some ENotExist => None
  | Some (ESet se) => match se_Fault se with FaultTorn => if se_Segment se =? 0 then Some "torn" else Some "broken" | _ => Some "broken" end
  | Some _ => Some "error"
  | None => if is_Some_b (IsTainted recs) then Some "tainted" else Some "verified"
  end.
(** [loadControl]: nothing when there is no ledger at all. *)
Definition loadControl (active : string) (lock : result ledger_error ()) (d : disk) : option (list string * list DecodedEvent * string) :=
  let '(v, err) := Read active lock d in
  match control_verdict (v_Records v) err with None => None | Some verdict => Some (v_Records v, decode_prefix (v_Records v), verdict) end.

(** The install a run's hash joins, and whether it matches a later one. *)
Definition join_step (runHash runStart : string) (acc : option DecodedEvent * bool) (e : DecodedEvent) : option DecodedEvent * bool :=
  if negb (bool_decide (d_ConfigHash e = runHash)) || negb (Installing e) then acc
  else if After (d_Time e) runStart then (acc.1, true) else (Some e, acc.2).
Definition ConfigJoin (rfc3339 : string -> string) (events : list DecodedEvent) (verdict runHash runStart : string) : string :=
  let config := "config " +:+ runHash +:+ " — " in
  if contains ["missing"; "torn"; "broken"; "error"] verdict then config +:+ "control ledger unavailable"
  else
    let who e := i_Subject (d_Invoker e) +:+ " (" +:+ i_Method (d_Invoker e) +:+ ") at " +:+ rfc3339 (d_Time e) in
    match foldl (join_step runHash runStart) (None, false) events with
    | (None, true) => config +:+ "no install on record at the run's start (matches a later apply, kill-switch flip or vouch)"
    | (None, false) => config +:+ "no install on record"
    | (Some e, _) =>
        if bool_decide (d_Action e = "apply") then config +:+ "applied by " +:+ who e
        else if bool_decide (d_Action e = "vouch") then config +:+ "vouched for by " +:+ who e
        else config +:+ "installed by " +:+ who e +:+ " (kill switch: " +:+ (if bool_decide (d_Action e = "enable") then "enabled" else "disabled") +:+ " agent " +:+ d_Agent e +:+ ")"
    end.

(** ** The timeline ([timeline.go]) *)
Record Filter : Type := MkFilter { f_Since : option Z; f_Until : option Z; f_Invoker : string; f_Agent : string; f_Outcome : string; f_Run : string; f_ConfigHash : string }.
Record Source : Type := MkSource { so_Path : string; so_Kind : string; so_Integrity : string; so_Completeness : string; so_Count : Z }.

Definition causeTorn : string := "control ledger torn: no verdict; run: agenthof audit repair control, then audit verify control".
Definition causeBroken : string := "control ledger broken: no verdict; a well-formed record mid-file does not chain — not repairable by audit repair control; restore the ledger from a copy and run audit verify control".
Definition causeUnreadable : string := "control ledger unreadable: no verdict; fix the read error named on the source line and run audit verify control".
Definition unverifiableCause (verdict : string) : string :=
  if bool_decide (verdict = "torn") then causeTorn else if bool_decide (verdict = "broken") then causeBroken else causeUnreadable.

Definition matches (r : IRecord) (f : Filter) : bool :=
  match f_Since f with Some s => negb (instant (ir_Time r) <? s) | None => true end &&
  match f_Until f with Some u => instant (ir_Time r) <? u | None => true end &&
  (bool_decide (f_Invoker f = "") || bool_decide (ii_Subject (ir_Invoker r) = f_Invoker f)) &&
  (bool_decide (f_Agent f = "") || bool_decide (ir_Agent r = f_Agent f)) &&
  (bool_decide (f_Outcome f = "") || bool_decide (ir_Outcome r = f_Outcome f)) &&
  (bool_decide (f_Run f = "") || bool_decide (ir_Source r = "run")) &&
  (bool_decide (f_ConfigHash f = "") || bool_decide (ir_ConfigHash r = f_ConfigHash f)).

(** *** The runs a run id selects *)
Record runLog : Type := MkRunLog { rl_id : string; rl_source : Source; rl_records : list IRecord }.
Fixpoint first_parent (records : list IRecord) : option string :=
  match records with [] => None | r :: rest => if bool_decide (ir_ParentRunID r = "") then first_parent rest else Some (ir_ParentRunID r) end.
Definition parents_of (runs : list runLog) : gmap string string :=
  foldl (fun m rl => match first_parent (rl_records rl) with Some p => <[rl_id rl := p]> m | None => m end) ∅ runs.
Fixpoint climbs (fuel : nat) (parents : gmap string string) (root id : string) (seen : gset string) : option bool :=
  match fuel with
  | O => None
  | S fuel =>
      if bool_decide (id = "") || bool_decide (id ∈ seen) then Some false
      else if bool_decide (id = root) then Some true
      else climbs fuel parents root (default "" (parents !! id)) ({[id]} ∪ seen)
  end.
(** [selectRuns]: no filter, or the ids selected. *)
Definition selectRuns (runs : list runLog) (root : string) : option (gset string) :=
  if bool_decide (root = "") then None
  else
    let parents := parents_of runs in
    Some (foldl (fun sel rl => match climbs (2 + size parents) parents root (rl_id rl) ∅ with Some true => {[rl_id rl]} ∪ sel | _ => sel end) {[root]} runs).

(** *** The order *)
Definition str_lt (a b : string) : bool := negb (String.leb b a).
Definition record_less (a b : IRecord) : bool :=
  if negb (instant (ir_Time a) =? instant (ir_Time b)) then instant (ir_Time a) <? instant (ir_Time b)
  else if negb (bool_decide (ir_Source a = ir_Source b)) then str_lt (ir_Source a) (ir_Source b)
  else if negb (bool_decide (ir_RunID a = ir_RunID b)) then str_lt (ir_RunID a) (ir_RunID b)
  else ir_pos a <? ir_pos b.
(** [sort.SliceStable] *)
Fixpoint insert_record (x : IRecord) (l : list IRecord) : list IRecord :=
  match l with
  | [] => [x]
  | y :: r => if record_less y x then y :: insert_record x r else x :: l
  end.
Definition sort_records (l : list IRecord) : list IRecord := foldr insert_record [] l.

Section timeline.
  Context `{GoText, GoURL, GoLower, LogLibs} (send : rk_request -> rk_answer) (factory : option Factory) (key : option (result string (option string))).
  Context (d : LogDir) (logDir : string) (same : string -> bool) (mtime : string -> option Z).

Definition anchorVerdicts (records : list string) (events : list DecodedEvent) (verdict : string) : gmap Z AResult :=
  if contains ["verified"; "tainted"] verdict
  then foldl (fun m r => <[ck_RecordSeq (rs_Check r) := r]> m) ∅ (VerifyAnchors send factory key true records)
  else
    foldl (fun m d =>
      if negb (bool_decide (d_Action d = "anchor")) || negb (bool_decide (d_Outcome d = "success")) then m
      else if match d_Anchor d with Some a => negb (bool_decide (an_RunID a = "")) | None => false end then m
      else <[d_Seq d := MkAResult (MkCheck (d_Seq d) (d_Anchor d) "") StateUnverifiable (unverifiableCause verdict)]> m) ∅ events.

Definition two_seconds : Z := 2000000000.
Definition prefiltered (f : Filter) (name : string) : bool :=
  match f_Since f with Some s => match mtime name with Some t => t + two_seconds <? s | None => false end | None => false end.
Fixpoint normalize_runs (i : Z) (events : list Event) : list IRecord :=
  match events with [] => [] | e :: rest => normalizeRun e i :: normalize_runs (i + 1) rest end.

(** One directory entry: the run it holds, if it is one. *)
Definition run_entry (f : Filter) (entry : string * bool) : option runLog :=
  let '(name, isDir) := entry in
  if bool_decide (name = "control.jsonl") || str_contains name ".torn-" then None
  else if isDir || negb (has_suffix name ".jsonl") then None
  else if same name then None
  else
    let runID := trim_suffix name ".jsonl" in
    if prefiltered f name then None
    else
      let path := Join [logDir; name] in
      let '(events, _, rerr) := read_run d logDir runID in
      let log integrity comp count := Some (MkRunLog runID (MkSource path "run" integrity comp count) (normalize_runs 0 events)) in
      match rerr with
      | None => log "verified" (Verdict (Check_ events)) (Z.of_nat (length events))
      | Some ErrNotExist => None
      | Some (TornError _) => log "torn" "" (Z.of_nat (length events))
      | Some (ChainBrokenError _) => log "broken" "" (Z.of_nat (length events))
      | Some _ => log "error" "" 0
      end.

(** [Timeline]; [listing]: a failing listing, no directory, or its entries. *)
Definition Timeline (listing : result () (option (list (string * bool)))) (controlLog : string) (lock : result ledger_error ()) (ctl : disk) (f : Filter)
  : result () (list IRecord * list Source) :=
  let! entries := listing in
  let runs := omap (run_entry f) (default [] entries) in
  let shown := List.filter (fun rl => match selectRuns runs (f_Run f) with Some sel => bool_decide (rl_id rl ∈ sel) | None => true end) runs in
  let '(records, sources) :=
    match loadControl controlLog lock ctl with
    | Some (recs, events, verdict) =>
        let verdicts := anchorVerdicts recs events verdict in
        (flat_map rl_records shown ++ map (fun d => normalizeControl d (verdicts !! d_Seq d)) events,
         map rl_source shown ++ [MkSource controlLog "control" verdict "" (Z.of_nat (length events))])
    | None => (flat_map rl_records shown, map rl_source shown)
    end in
  Ok (List.filter (fun r => matches r f) (sort_records records), sources).
End timeline.

(** ** The order is total *)
Lemma ascii_compare_N a b : Ascii.compare a b = N.compare (N_of_ascii a) (N_of_ascii b).
Proof. done. Qed.
Lemma str_compare_trans a : forall b c, String.compare a b <> Gt -> String.compare b c <> Gt -> String.compare a c <> Gt.
Proof.
  induction a as [|x a IH]; intros [|y b] [|z c]; cbn; try done. rewrite !ascii_compare_N.
  destruct (N.compare_spec (N_of_ascii x) (N_of_ascii y)) as [E1|E1|E1], (N.compare_spec (N_of_ascii y) (N_of_ascii z)) as [E2|E2|E2]; intros H1 H2; try done;
    destruct (N.compare_spec (N_of_ascii x) (N_of_ascii z)); try done; try lia; try (by eapply IH).
Qed.
Lemma str_leb_compare a b : String.leb a b = true <-> String.compare a b <> Gt.
Proof. unfold String.leb. by destruct (String.compare a b). Qed.
Lemma str_leb_trans a b c : String.leb a b = true -> String.leb b c = true -> String.leb a c = true.
Proof. rewrite !str_leb_compare. apply str_compare_trans. Qed.
Lemma str_leb_antisym a b : String.leb a b = true -> String.leb b a = true -> a = b.
Proof. apply String.leb_antisym. Qed.

(** [record_le a b]: [b] does not come before [a]. *)
Definition record_le (a b : IRecord) : Prop := record_less b a = false.
Lemma str_lt_false a b : str_lt a b = false <-> String.leb b a = true.
Proof. unfold str_lt. destruct (String.leb b a); done. Qed.
Lemma record_le_spec a b : record_le a b <->
  instant (ir_Time a) < instant (ir_Time b) \/ instant (ir_Time a) = instant (ir_Time b) /\
    (ir_Source a <> ir_Source b /\ String.leb (ir_Source a) (ir_Source b) = true \/ ir_Source a = ir_Source b /\
      (ir_RunID a <> ir_RunID b /\ String.leb (ir_RunID a) (ir_RunID b) = true \/ ir_RunID a = ir_RunID b /\ ir_pos a <= ir_pos b)).
Proof.
  unfold record_le, record_less. destruct (Z.eqb_spec (instant (ir_Time b)) (instant (ir_Time a))) as [Et|Et]; cbn [negb].
  - repeat (case_bool_decide; cbn [negb]); rewrite ?str_lt_false, ?Z.ltb_ge; split; naive_solver lia.
  - rewrite Z.ltb_ge. split; [intros; left; lia|intros [?|[? _]]; lia].
Qed.
Lemma record_le_total a b : record_less a b = true -> record_le a b.
Proof.
  rewrite record_le_spec. unfold record_less. destruct (Z.eqb_spec (instant (ir_Time a)) (instant (ir_Time b))) as [Et|Et]; cbn [negb].
  - assert (Hs : forall x y, str_lt x y = true -> String.leb x y = true).
    { intros x y. unfold str_lt. intros Hn. destruct (String.leb_total x y) as [|E]; [done|]. by rewrite E in Hn. }
    repeat (case_bool_decide; cbn [negb]); rewrite ?Z.ltb_lt; intros Hl; right; (split; [done|]).
    + right. split; [done|]. right. split; [done|lia].
    + right. split; [done|]. left. eauto.
    + left. eauto.
  - rewrite Z.ltb_lt. by left.
Qed.
Lemma str_le_trans a b c : a <> b /\ String.leb a b = true -> b <> c /\ String.leb b c = true -> a <> c /\ String.leb a c = true.
Proof.
  intros [N1 L1] [N2 L2]. split; [|by eapply str_leb_trans]. intros ->. by apply N1, str_leb_antisym.
Qed.
#[local] Instance record_le_trans : Transitive record_le.
Proof.
  intros a b c. rewrite !record_le_spec. intros [H1|[T1 [S1|[S1 [R1|[R1 P1]]]]]] [H2|[T2 [S2|[S2 [R2|[R2 P2]]]]]]; try (left; lia);
    right; (split; [lia|]); try (left; eapply str_le_trans; eassumption); rewrite ?S1, <- ?S2; try (by left; rewrite <- ?S2 || rewrite ?S1);
    right; (split; [done|]); try (left; eapply str_le_trans; eassumption); rewrite ?R1, <- ?R2; try (by left); right; split; [done|lia].
Qed.

Lemma insert_record_perm x l : insert_record x l ≡ₚ x :: l.
Proof. induction l as [|y l IH]; [done|]. cbn. destruct (record_less y x); [|done]. rewrite IH. constructor. Qed.
Lemma sort_records_perm l : sort_records l ≡ₚ l.
Proof. induction l as [|x l IH]; [done|]. cbn. by rewrite insert_record_perm, IH. Qed.
Lemma insert_record_sorted x l : StronglySorted record_le l -> StronglySorted record_le (insert_record x l).
Proof.
  induction 1 as [|y l Hl IH Hy]; cbn [insert_record]; [by repeat constructor|]. destruct (record_less y x) eqn:E.
  - constructor; [done|]. rewrite insert_record_perm. constructor; [by apply record_le_total|done].
  - constructor; [by constructor|]. constructor; [exact E|]. eapply Forall_impl; [exact Hy|]. intros z Hz. by transitivity y.
Qed.
Lemma sort_records_sorted l : StronglySorted record_le (sort_records l).
Proof. induction l as [|x l IH]; [constructor|]. by apply insert_record_sorted. Qed.
Lemma filter_sorted (p : IRecord -> bool) l : StronglySorted record_le l -> StronglySorted record_le (List.filter p l).
Proof.
  induction 1 as [|x l Hl IH Hx]; [constructor|]. cbn. destruct (p x); [|done]. constructor; [done|].
  apply Forall_forall. intros y Hy%list_elem_of_In%List.filter_In. destruct Hy as [Hy _]. rewrite Forall_forall in Hx. by apply Hx, list_elem_of_In.
Qed.

Lemma filter_perm (p : IRecord -> bool) l l' : l ≡ₚ l' -> List.filter p l ≡ₚ List.filter p l'.
Proof.
  induction 1 as [|x l l' Hl IH|x y l|l l' l'' _ IH1 _ IH2]; [done| | |by rewrite IH1].
  - cbn. destruct (p x); by rewrite IH.
  - cbn. destruct (p x), (p y); try done. constructor.
Qed.

(** ** A run id selects its descendants *)
Fixpoint ancestor (parents : gmap string string) (n : nat) (id : string) : option string :=
  match n with O => Some id | S n => parents !! id ≫= ancestor parents n end.
Definition descends (parents : gmap string string) (id root : string) : Prop := exists n, ancestor parents n id = Some root.

Section climb.
  Context (parents : gmap string string) (root : string) (Hval : map_Forall (fun _ p => p <> "") parents).

Lemma climbs_total fuel id seen : (2 + size (dom parents ∖ seen) <= fuel)%nat -> is_Some (climbs fuel parents root id seen).
Proof.
  revert id seen. induction fuel as [|fuel IH]; intros id seen Hf; [lia|]. cbn [climbs]. case_bool_decide as H1; cbn [orb]; [by eexists|]. case_bool_decide as H2; [by eexists|].
  case_bool_decide; [by eexists|]. destruct (parents !! id) as [p|] eqn:E; cbn [default].
  - apply IH. assert (id ∈ dom parents ∖ seen) as Hin. { apply elem_of_difference. split; [by apply elem_of_dom|done]. }
    assert (Hs : dom parents ∖ ({[id]} ∪ seen) = (dom parents ∖ seen) ∖ {[id]}) by set_solver. rewrite Hs, size_difference by set_solver. rewrite size_singleton.
    assert (size (dom parents ∖ seen) <> 0%nat) by (intros ?%size_empty_inv; set_solver). lia.
  - destruct fuel as [|fuel]; [lia|]. cbn [climbs]. unfold from_option, Datatypes.id. rewrite bool_decide_true by done. by eexists.
Qed.
Lemma climbs_sound fuel id seen : climbs fuel parents root id seen = Some true -> descends parents id root.
Proof.
  revert id seen. induction fuel as [|fuel IH]; intros id seen; [done|]. cbn [climbs]. destruct (_ || _); [done|]. case_bool_decide as Hr; [subst; intros _; by exists 0%nat|].
  destruct (parents !! id) as [p|] eqn:E.
  - intros (n & Hn)%IH. exists (S n). cbn. by rewrite E.
  - destruct fuel as [|fuel]; [done|]. cbn. by rewrite bool_decide_true.
Qed.
Lemma climbs_complete n : forall fuel id seen, id <> "" -> ancestor parents n id = Some root -> (forall k, (k < n)%nat -> ancestor parents k id <> Some root) ->
  (forall s k, s ∈ seen -> (k <= n)%nat -> ancestor parents k s <> Some root) -> is_Some (climbs fuel parents root id seen) -> climbs fuel parents root id seen = Some true.
Proof using Hval.
  induction n as [|n IH]; intros fuel id seen Hne Ha Hmin Hseen [b Hb]; (destruct fuel as [|fuel]; [done|]); revert Hb; cbn [climbs]; rewrite (bool_decide_false (id = "")) by done; cbn [orb].
  - injection Ha as ->. case_bool_decide as Hs; [destruct (Hseen root 0%nat Hs); [lia|done]|]. by rewrite bool_decide_true.
  - case_bool_decide as Hs; [by destruct (Hseen id (S n) Hs); [lia|]|]. case_bool_decide as Hr; [subst; by destruct (Hmin 0%nat); [lia|]|].
    cbn in Ha. destruct (parents !! id) as [p|] eqn:E; [|done]. cbn in Ha. cbn [default]. unfold from_option, Datatypes.id. intros Hb. apply IH.
    + by apply (Hval id).
    + done.
    + intros k Hk Hx. apply (Hmin (S k)); [lia|]. cbn. by rewrite E.
    + intros s k [->%elem_of_singleton|Hs']%elem_of_union Hk; [apply Hmin; lia|]. apply Hseen; [done|lia].
    + by eexists.
Qed.
Lemma least_ancestor id n : ancestor parents n id = Some root -> exists m, ancestor parents m id = Some root /\ forall k, (k < m)%nat -> ancestor parents k id <> Some root.
Proof.
  induction n as [n IH] using lt_wf_ind. intros Hn. destruct (decide (List.Exists (fun k => ancestor parents k id = Some root) (seq 0 n))) as [(k & Hk & E)%List.Exists_exists|Hno].
  - apply in_seq in Hk. apply (IH k); [lia|done].
  - exists n. split; [done|]. intros k Hk E. apply Hno, List.Exists_exists. exists k. split; [apply in_seq; lia|done].
Qed.
Lemma climbs_iff id : id <> "" -> climbs (2 + size parents) parents root id ∅ = Some true <-> descends parents id root.
Proof using Hval.
  intros Hne. split; [apply climbs_sound|]. intros (n & Hn). destruct (least_ancestor id n Hn) as (m & Hm & Hmin). apply (climbs_complete m); try done.
  apply climbs_total. rewrite difference_empty_L. rewrite size_dom. lia.
Qed.
End climb.

Lemma first_parent_nonempty records p : first_parent records = Some p -> p <> "".
Proof. induction records as [|r records IH]; [done|]. cbn. case_bool_decide; [done|]. by intros [= <-]. Qed.
Lemma parents_nonempty runs : map_Forall (fun _ p => p <> "") (parents_of runs).
Proof.
  unfold parents_of. assert (H : forall m : gmap string string, map_Forall (fun _ p => p <> "") m -> map_Forall (fun _ p => p <> "")
    (foldl (fun m rl => match first_parent (rl_records rl) with Some p => <[rl_id rl := p]> m | None => m end) m runs)); [|apply H, map_Forall_empty].
  induction runs as [|rl runs IH]; intros m Hm; [done|]. cbn [foldl]. apply IH. destruct (first_parent _) as [p|] eqn:E; [|done].
  apply map_Forall_insert_2; [by eapply first_parent_nonempty|done].
Qed.

(** [selectRuns] selects the run itself and exactly the runs delegated from it,
    at any depth; a chain of parents that loops ends the search. *)
Lemma select_spec runs root sel id : selectRuns runs root = Some sel ->
  id ∈ sel <-> id = root \/ (exists rl, rl ∈ runs /\ rl_id rl = id) /\ id <> "" /\ descends (parents_of runs) id root.
Proof.
  unfold selectRuns. case_bool_decide as Hr; [done|]. intros [= <-]. pose proof (parents_nonempty runs) as Hval. set (ps := parents_of runs) in *. clearbody ps.
  assert (H : forall l (acc : gset string), id ∈ foldl (fun (sel : gset string) rl => match climbs (2 + size ps) ps root (rl_id rl) ∅ with Some true => {[rl_id rl]} ∪ sel | _ => sel end) acc l <->
    id ∈ acc \/ (exists rl, rl ∈ l /\ rl_id rl = id) /\ id <> "" /\ descends ps id root).
  { induction l as [|rl l IH]; intros acc; cbn [foldl]; [split; [auto|intros [?|[(? & Hx & _) _]]; [done|by apply elem_of_nil in Hx]]|]. rewrite IH. clear IH.
    assert (Hc : id ∈ match climbs (2 + size ps) ps root (rl_id rl) ∅ with Some true => {[rl_id rl]} ∪ acc | _ => acc end <-> id ∈ acc \/ rl_id rl = id /\ id <> "" /\ descends ps id root).
    { destruct (decide (rl_id rl = "")) as [E|Hne].
      - rewrite E. change (climbs (2 + size ps) ps root "" ∅) with (Some false). naive_solver.
      - pose proof (climbs_iff ps root Hval (rl_id rl) Hne) as Hi. destruct (climbs _ ps root (rl_id rl) ∅) as [[]|]; [rewrite elem_of_union, elem_of_singleton|..]; naive_solver. }
    rewrite Hc. split.
    - intros [[?|(<- & ? & ?)]|[(x & Hx & <-) ?]]; [auto|right; split; [exists rl; split; [by left|done]|done]|right; split; [exists x; split; [by right|done]|done]].
    - intros [?|[(x & [->|Hx]%elem_of_cons & <-) ?]]; [auto|auto|]. right. split; [by exists x|done]. }
  rewrite H, elem_of_singleton. done.
Qed.

(** ** Nothing is dropped and nothing is made up *)
Section evidence.
  Context `{GoText, GoURL, GoLower, LogLibs} (send : rk_request -> rk_answer) (factory : option Factory) (key : option (result string (option string))).
  Context (d : LogDir) (logDir : string) (same : string -> bool) (mtime : string -> option Z).

(** The names that are run ledgers. *)
Definition run_name (name : string) (isDir : bool) : Prop :=
  name <> "control.jsonl" /\ str_contains name ".torn-" = false /\ isDir = false /\ has_suffix name ".jsonl" = true /\ same name = false.
(** Under [--since], a ledger last written more than two seconds before it. *)
Definition skipped (f : Filter) (name : string) : Prop :=
  match f_Since f, mtime name with Some s, Some t => t + 2000000000 < s | _, _ => False end.
(** No event is stamped later than two seconds after the last write of its
    ledger. *)
Definition stamped (name : string) : Prop :=
  forall t e, mtime name = Some t -> e ∈ events_of (read_run d logDir (trim_suffix name ".jsonl")) -> instant (ev_Time e) <= t + 2000000000.
(** The runs a filter shows, of those that were read. *)
Definition shows (f : Filter) (runs : list runLog) (id : string) : Prop :=
  f_Run f = "" \/ id = f_Run f \/ (exists rl, rl ∈ runs /\ rl_id rl = id) /\ id <> "" /\ descends (parents_of runs) id (f_Run f).

(** A directory entry that is read, what it is read as, its source line and the
    records of its events, each at its own place. *)
Definition read_entry (f : Filter) (entry : string * bool) : Prop :=
  run_name entry.1 entry.2 /\ ~ skipped f entry.1 /\ error_of (read_run d logDir (trim_suffix entry.1 ".jsonl")) <> Some ErrNotExist.
Definition entry_records (entry : string * bool) : list IRecord :=
  imap (fun i e => normalizeRun e (Z.of_nat i)) (events_of (read_run d logDir (trim_suffix entry.1 ".jsonl"))).
Definition entry_source (entry : string * bool) : Source :=
  let '(events, _, err) := read_run d logDir (trim_suffix entry.1 ".jsonl") in
  MkSource (Join [logDir; entry.1]) "run" (IntegrityWord err) (match err with None => Verdict (Check_ events) | Some _ => "" end)
    (match err with None | Some (TornError _) | Some (ChainBrokenError _) => Z.of_nat (length events) | Some _ => 0 end).
Definition entry_log (entry : string * bool) : runLog := MkRunLog (trim_suffix entry.1 ".jsonl") (entry_source entry) (entry_records entry).

#[local] Instance skipped_dec f name : Decision (skipped f name).
Proof. unfold skipped. destruct (f_Since f), (mtime name); apply _. Qed.
#[local] Instance read_entry_dec f entry : Decision (read_entry f entry).
Proof.
  unfold read_entry, run_name. apply and_dec; [apply _|]. apply and_dec; [apply _|].
  destruct (error_of _) as [[]|]; first [right; intros Hn; by apply Hn | left; discriminate].
Qed.

Lemma shows_iff f runs id :
  shows f runs id <-> match selectRuns runs (f_Run f) with Some sel => id ∈ sel | None => True end.
Proof.
  unfold shows. destruct (selectRuns runs (f_Run f)) as [sel|] eqn:E.
  - rewrite (select_spec _ _ _ _ E). assert (f_Run f <> "") by (revert E; unfold selectRuns; by case_bool_decide). naive_solver.
  - assert (f_Run f = "") by (revert E; unfold selectRuns; by case_bool_decide). naive_solver.
Qed.
#[local] Instance shows_dec f runs id : Decision (shows f runs id).
Proof.
  assert (D : Decision (match selectRuns runs (f_Run f) with Some sel => id ∈ sel | None => True end)) by (destruct (selectRuns _ _); apply _).
  destruct (decide (match selectRuns runs (f_Run f) with Some sel => id ∈ sel | None => True end)); [left|right]; by rewrite shows_iff.
Qed.

Lemma normalize_imap events i : normalize_runs i events = imap (fun k e => normalizeRun e (i + Z.of_nat k)) events.
Proof.
  revert i. induction events as [|e events IH]; intros i; [done|]. cbn [normalize_runs imap]. rewrite Z.add_0_r, IH. f_equal. apply imap_ext. intros k x _. cbn. f_equal. lia.
Qed.

Lemma prefiltered_iff f name : prefiltered mtime f name = true <-> skipped f name.
Proof. unfold prefiltered, skipped. destruct (f_Since f), (mtime name); try done. apply Z.ltb_lt. Qed.

Lemma run_entry_some f entry : read_entry f entry -> run_entry d logDir same mtime f entry = Some (entry_log entry).
Proof.
  destruct entry as [name isDir]. intros ((E1 & E2 & E3 & E4 & E5) & Hs & He). cbn [fst snd] in *. rewrite <- prefiltered_iff in Hs. unfold run_entry.
  rewrite bool_decide_false, E2, E3, E4, E5 by done. cbn [orb negb]. destruct (prefiltered mtime f name); [done|]. unfold entry_log, entry_source, entry_records. cbn [fst].
  destruct (read_run d logDir (trim_suffix name ".jsonl")) as [[events hd] e]. cbn [error_of events_of fst snd] in *. rewrite (normalize_imap events 0). by destruct e as [[]|].
Qed.
Lemma run_entry_none f entry rl : run_entry d logDir same mtime f entry = Some rl -> read_entry f entry.
Proof.
  destruct entry as [name isDir]. unfold run_entry, read_entry, run_name. cbn [fst snd]. rewrite <- prefiltered_iff. case_bool_decide; cbn [orb]; [done|].
  destruct (str_contains name ".torn-"), isDir, (has_suffix name ".jsonl"), (same name), (prefiltered mtime f name); try done; cbn [orb negb].
  destruct (read_run d logDir (trim_suffix name ".jsonl")) as [[events hd] e]. cbn [error_of snd]. by destruct e as [[]|].
Qed.
Lemma run_entry_spec f entry : run_entry d logDir same mtime f entry = if decide (read_entry f entry) then Some (entry_log entry) else None.
Proof. destruct (decide _) as [Hr|Hr]; [by apply run_entry_some|]. destruct (run_entry _ _ _ _ _ _) eqn:E; [|done]. by apply run_entry_none in E. Qed.

Lemma omap_decide {A B} (P : A -> Prop) `{forall x, Decision (P x)} (g : A -> B) l : omap (fun x => if decide (P x) then Some (g x) else None) l = map g (filter P l).
Proof. induction l as [|x l IH]; [done|]. rewrite filter_cons. cbn. destruct (decide (P x)); cbn; by rewrite IH. Qed.
Lemma runs_read f l : omap (run_entry d logDir same mtime f) l = map entry_log (filter (read_entry f) l).
Proof. rewrite <- omap_decide. apply list_omap_ext. apply Forall2_same_length_lookup_2; [done|]. intros i x y Hx Hy. assert (x = y) as -> by congruence. apply run_entry_spec. Qed.
Lemma runs_shown f runs l :
  List.filter (fun rl => match selectRuns runs (f_Run f) with Some sel => bool_decide (rl_id rl ∈ sel) | None => true end) (map entry_log l) =
  map entry_log (filter (fun entry => shows f runs (trim_suffix entry.1 ".jsonl")) l).
Proof.
  induction l as [|x l IH]; [done|]. cbn [map List.filter]. rewrite IH, filter_cons. cbn [rl_id entry_log].
  destruct (decide (shows f runs (trim_suffix x.1 ".jsonl"))) as [Hs|Hs]; rewrite shows_iff in Hs; destruct (selectRuns runs (f_Run f)) as [sel|]; try done.
  - by rewrite bool_decide_true.
  - by rewrite bool_decide_false.
Qed.

Lemma matches_since r f s : matches r f = true -> f_Since f = Some s -> s <= instant (ir_Time r).
Proof. unfold matches. intros Hm E. rewrite E, !andb_true_iff in Hm. destruct Hm as [[[[[[Hs _] _] _] _] _] _]. apply negb_true_iff, Z.ltb_ge in Hs. done. Qed.

(** C28: the timeline drops no evidence and makes none up.  Whatever state the
    ledgers are in: its sources are, in directory order, exactly the run ledgers
    that were read and are shown, each with its own verdict and count, then the
    control ledger if there is one; its records are in one total order and
    are, each as often as it stands in a ledger, exactly the readable events of
    those run ledgers (damaged ones included) and of the control ledger's valid
    prefix that match the filter.  A run ledger is passed over only when it does
    not exist, when [--run] does not reach it over the ledgers read, or when
    [--since] is given and it was last written more than two seconds before;
    such a skipped ledger is not listed, and it holds no event the filter
    matches unless an event is stamped more than two seconds after the last
    write of its file. *)
Theorem timeline_drops_no_evidence (listing : option (list (string * bool))) (controlLog : string) (lock : result ledger_error ()) (ctl : disk) (f : Filter) :
  exists out sources, Timeline send factory key d logDir same mtime (Ok listing) controlLog lock ctl f = Ok (out, sources) /\
  let read := filter (read_entry f) (default [] listing) in
  let shown := filter (fun entry => shows f (map entry_log read) (trim_suffix entry.1 ".jsonl")) read in
  let control := loadControl controlLog lock ctl in
  sources = map entry_source shown ++
    match control with Some (_, events, verdict) => [MkSource controlLog "control" verdict "" (Z.of_nat (length events))] | None => [] end /\
  StronglySorted record_le out /\
  out ≡ₚ List.filter (fun r => matches r f) (flat_map entry_records shown ++
    match control with
    | Some (recs, events, verdict) => map (fun ev => normalizeControl ev (anchorVerdicts send factory key recs events verdict !! d_Seq ev)) events
    | None => []
    end) /\
  (forall name, skipped f name -> stamped name -> Forall (fun r => matches r f = false) (entry_records (name, false))).
Proof.
  unfold Timeline. cbn [result_bind]. rewrite runs_read, runs_shown. set (read := filter (read_entry f) _). set (shown := filter _ read).
  set (ctl_records := match loadControl controlLog lock ctl with Some (recs, events, verdict) => map (fun ev => normalizeControl ev (anchorVerdicts send factory key recs events verdict !! d_Seq ev)) events | None => [] end).
  set (ctl_sources := match loadControl controlLog lock ctl with Some (_, events, verdict) => [MkSource controlLog "control" verdict "" (Z.of_nat (length events))] | None => [] end).
  assert (Hrec : flat_map rl_records (map entry_log shown) = flat_map entry_records shown) by (induction shown as [|x l IH]; [done|]; cbn; by rewrite IH).
  exists (List.filter (fun r => matches r f) (sort_records (flat_map entry_records shown ++ ctl_records))), (map entry_source shown ++ ctl_sources).
  split. { rewrite Hrec, map_map. subst ctl_records ctl_sources. destruct (loadControl controlLog lock ctl) as [[[recs events] verdict]|]; [done|]. by rewrite !app_nil_r. }
  cbv zeta. split_and!; [done|by apply filter_sorted, sort_records_sorted|by apply filter_perm, sort_records_perm|].
  intros name Hsk Hst. apply Forall_lookup. intros i r Hr. unfold entry_records in Hr. rewrite list_lookup_imap in Hr. destruct (_ !! i) as [e|] eqn:Hi; [|done]. injection Hr as <-.
  destruct (matches _ f) eqn:Hm; [|done]. exfalso. unfold skipped in Hsk. destruct (f_Since f) as [s|] eqn:Es; [|done]. destruct (mtime name) as [t|] eqn:Et; [|done].
  pose proof (matches_since _ _ _ Hm Es) as Hs. cbn in Hs. pose proof (Hst t e Et (list_elem_of_lookup_2 _ _ _ Hi)). lia.
Qed.
End evidence.

(** The runs that the modification time skips are not read, so their place in a
    delegation tree is not known either: with the middle run skipped, the
    selection of the root no longer reaches the last one. *)
Definition tx_log (id parent : string) : runLog :=
  MkRunLog id (MkSource (id +:+ ".jsonl") "run" "verified" "complete" 1) [normalizeRun { zeroEvent with ev_Binding := MkBinding zeroInvoker "" "" id parent 1 } 0].
Example skipped_run_hides_its_descendants :
  (selectRuns [tx_log "a" "r"; tx_log "b" "a"] "r", selectRuns [tx_log "b" "a"] "r") = (Some {["r"; "a"; "b"]}, Some {["r"]}).
Proof. vm_compute. reflexivity. Qed.
