(* ===== verification/Render.v ===== *)
(** * Rendered verdicts ([internal/investigate/render.go],
      [internal/sidecar/render.go])

    The exit code of an investigation and the lines an operator reads, of a
    timeline and of a run's anchor.  How [time.Time] prints in RFC 3339 and the
    text of an unreadable sidecar are arguments; the JSON form of a timeline
    (indented output) is left out. *)
From S2P Require Import Prelude Sha256 GoStr Json Paths Ledger Config Authz Origin Registry Event Engine EngineTrace Completeness Tree Utf8 Attest Doors ControlRecord Manifest Segments Snapshot Times Signed Rekor AnchorVerify Sidecar Timeline.

(** [filepath.Base] *)
Definition Base (p : string) : string :=
  if bool_decide (p = "") then "." else match last (List.filter (fun c => negb (bool_decide (c = ""))) (split_on slash p)) with Some c => c | None => "/" end.
(** [strings.Repeat], which panics on a negative count and on a length that
    overflows. *)
Fixpoint repeat_str (n : nat) (s : string) : string := match n with O => "" | S n => s +:+ repeat_str n s end.
Definition Repeat (s : string) (count : Z) : option string :=
  if (count <? 0) || (max_int64 <? count * str_len s) then None else Some (repeat_str (Z.to_nat count) s).

Section timeline.
  Context `{GoText}.

Definition sourceLabel (s : Source) : string :=
  if bool_decide (so_Kind s = "control") then "control ledger" else "run " +:+ trim_suffix (Base (so_Path s)) ".jsonl".
Definition issueLine (s : Source) : string :=
  let label := sourceLabel s in
  if bool_decide (so_Integrity s = "torn") then label +:+ " TORN at " +:+ so_Path s
  else if bool_decide (so_Integrity s = "broken") then label +:+ " BROKEN"
  else if bool_decide (so_Integrity s = "error") then label +:+ " read error"
  else if bool_decide (so_Integrity s = "tainted") then label +:+ " TAINTED"
  else label +:+ " has unrecognized integrity " +:+ quote (so_Integrity s).
Fixpoint integritySummary (sources : list Source) : list string * bool * bool :=
  match sources with
  | [] => ([], false, false)
  | s :: rest =>
      let '(issues, fatal, tainted) := integritySummary rest in
      if bool_decide (so_Integrity s = "verified") then (issues, fatal, tainted)
      else if bool_decide (so_Integrity s = "tainted") then (issueLine s :: issues, fatal, true)
      else (issueLine s :: issues, true, tainted)
  end.
Definition TimelineExit (sources : list Source) : Z :=
  let '(_, fatal, tainted) := integritySummary sources in if fatal then 1 else if tainted then 3 else 0.

Definition tag (name value : string) : list string := if bool_decide (value = "") then [] else [name +:+ "=" +:+ value].
Definition anchor_tags (a : IAnchor) : list string :=
  tag "run" (ia_RunID a) ++ (if negb (ia_Seq a =? 0) || negb (bool_decide (ia_Hash a = "")) then ["anchor=" +:+ itoa (ia_Seq a) +:+ ":" +:+ ia_Hash a] else []) ++
  tag "backend" (ia_Backend a) ++ tag "ref" (ia_Ref a) ++ tag "verdict" (ia_Verdict a) ++ tag "cause" (ia_Cause a).
(** A line, or a panic. *)
Definition event_line (rfc3339 : string -> string) (e : IRecord) : option string :=
  let tags := tag "agent" (ir_Agent e) ++ tag "outcome" (ir_Outcome e) ++ tag "reason" (ir_Reason e) ++ tag "parent" (ir_ParentRunID e) ++ match ir_Anchor e with Some a => anchor_tags a | None => [] end in
  indent ← Repeat "  " (ir_Depth e);
  Some (indent +:+ rfc3339 (ir_Time e) +:+ " " +:+ ir_Source e +:+ " " +:+ ir_Kind e +:+ " — " +:+ ii_Subject (ir_Invoker e) +:+ " (" +:+ ii_Method (ir_Invoker e) +:+ ")" +:+
  (match tags with [] => "" | _ => " [" +:+ join " " tags +:+ "]" end) +:+ nl).
Definition source_line (s : Source) : string :=
  "source: " +:+ so_Kind s +:+ " " +:+ so_Path s +:+ " integrity=" +:+ so_Integrity s +:+ (if bool_decide (so_Completeness s = "") then "" else " completeness=" +:+ so_Completeness s) +:+ " count=" +:+ itoa (so_Count s) +:+ nl.

(** Anchors with a verdict: all, verified, in disagreement, undecided. *)
Fixpoint count_verdicts (events : list IRecord) : Z * Z * Z * Z :=
  match events with
  | [] => (0, 0, 0, 0)
  | e :: rest =>
      let '(n, v, m, u) := count_verdicts rest in
      match ir_Anchor e with
      | Some a =>
          if bool_decide (ia_Verdict a = "") then (n, v, m, u)
          else if bool_decide (ia_Verdict a = "verified") then (n + 1, v + 1, m, u)
          else if bool_decide (ia_Verdict a = "mismatch") then (n + 1, v, m + 1, u) else (n + 1, v, m, u + 1)
      | None => (n, v, m, u)
      end
  end.
Definition RenderText (rfc3339 : string -> string) (events : list IRecord) (sources : list Source) : option string :=
  let '(issues, fatal, tainted) := integritySummary sources in
  let '(n, v, m, u) := count_verdicts events in
  lines ← mapM (event_line rfc3339) events;
  Some ("investigation timeline: " +:+ itoa (Z.of_nat (length events)) +:+ " event(s) across " +:+ itoa (Z.of_nat (length sources)) +:+ " source(s)" +:+ nl +:+
  join "" (map source_line sources) +:+ join "" lines +:+
  (if negb fatal && negb tainted then "integrity: OK" +:+ nl else "integrity: " +:+ join "; " issues +:+ nl) +:+
  (if 0 <? n then "anchors: " +:+ itoa n +:+ " (" +:+ itoa v +:+ " verified, " +:+ itoa m +:+ " mismatch, " +:+ itoa u +:+ " unverifiable)" +:+ nl else "")).
End timeline.

(** The text is rendered for every timeline whose depths are those of a
    delegation tree; a ledger that records a negative depth stops it. *)
Lemma render_panics `{GoText} rfc3339 events sources :
  RenderText rfc3339 events sources = None <-> List.Exists (fun e => ir_Depth e < 0 \/ max_int64 < ir_Depth e * 2) events.
Proof.
  assert (Hl : forall e, event_line rfc3339 e = None <-> ir_Depth e < 0 \/ max_int64 < ir_Depth e * 2).
  { intros e. unfold event_line, Repeat. change (str_len "  ") with 2. destruct (Z.ltb_spec (ir_Depth e) 0), (Z.ltb_spec max_int64 (ir_Depth e * 2)); cbn; split; intros; try done; lia || auto. }
  unfold RenderText. destruct (integritySummary sources) as [[issues fatal] tainted]. destruct (count_verdicts events) as [[[n v] m] u].
  assert (Hm : mapM (event_line rfc3339) events = None <-> List.Exists (fun e => ir_Depth e < 0 \/ max_int64 < ir_Depth e * 2) events).
  { induction events as [|e events IH]; [by rewrite List.Exists_nil|]. rewrite List.Exists_cons, <- Hl, <- IH. cbn. destruct (event_line rfc3339 e); cbn; [|naive_solver]. destruct (mapM _ events); cbn; naive_solver. }
  rewrite <- Hm. destruct (mapM _ events); cbn; done.
Qed.

(** ** A run's anchor lines *)
Record RenderOptions : Type := MkRender { ro_Pinned : bool; ro_Offline : bool; ro_OfflineOnly : bool; ro_RunID : string }.
Section lines.
  Context `{GoText} (text : sidecar_error -> string).
  Abbreviation clean := (Clean is_print).

Definition verifiedLine (r : AResult) (o : RenderOptions) : string :=
  if negb (ro_Pinned o)
  then "ledger anchor: anchored — verified under the log key as served (not independent; pin the log key in anchor.pub or --anchor-key to verify independently)" +:+ nl
  else
    let presence := if ro_Offline o then "; offline: presence not checked" else "" in
    match ck_Anchor (rs_Check r) with
    | None => "ledger anchor: independently verified (log key pinned" +:+ presence +:+ ")" +:+ nl
    | Some a => "ledger anchor: independently verified (log key pinned" +:+ presence +:+ "; events " +:+ itoa (an_Seq a) +:+ " " +:+ clean (an_Hash a) +:+ " → " +:+ clean (an_Backend a) +:+ " entry " +:+ clean (an_Ref a) +:+ ")" +:+ nl
    end.
Definition unverifiableLine (r : AResult) (o : RenderOptions) : string :=
  "ledger anchor: unverifiable — " +:+ clean (rs_Cause r) +:+
  (if negb (ro_Pinned o)
   then "; pin the log key in anchor.pub beside the control ledger or pass --anchor-key" +:+
        (if ro_OfflineOnly o then ", or run audit verify " +:+ clean (ro_RunID o) +:+ " to check under the key the log serves" else "")
   else "") +:+ nl.
Definition result_line (o : RenderOptions) (r : AResult) : string :=
  match rs_State r with
  | StateVerified => verifiedLine r o
  | StateMismatch => "ledger anchor: MISMATCH — " +:+ clean (rs_Cause r) +:+ nl
  | StateUnverifiable => unverifiableLine r o
  end.
Definition count_state (s : anchor_state) (results : list AResult) : Z := Z.of_nat (length (List.filter (fun r => bool_decide (rs_State r = s)) results)).
Definition Lines (v : AVerdict) (o : RenderOptions) : string :=
  if negb (vd_Found v) then "ledger anchor: not anchored" +:+ nl
  else match vd_Err v with
       | Some e => "ledger anchor: unverifiable — " +:+ clean (text e) +:+ nl
       | None =>
           match vd_Results v with
           | [] => "ledger anchor: unverifiable — the sidecar holds no records" +:+ nl
           | results =>
               join "" (map (result_line o) results) +:+
               (if Nat.ltb 1 (length results)
                then "ledger anchors: " +:+ itoa (Z.of_nat (length results)) +:+ " (" +:+ itoa (count_state StateVerified results) +:+ " verified, " +:+ itoa (count_state StateMismatch results) +:+
                     " mismatch, " +:+ itoa (count_state StateUnverifiable results) +:+ " unverifiable)" +:+ nl
                else "")
           end
       end.
End lines.

(** ** The exit code says what the sources say *)
Section exit.
  Context `{GoText}.

Lemma summary_spec sources : let '(issues, fatal, tainted) := integritySummary sources in
  issues = map issueLine (List.filter (fun s => negb (bool_decide (so_Integrity s = "verified"))) sources) /\
  (fatal = true <-> List.Exists (fun s => so_Integrity s <> "verified" /\ so_Integrity s <> "tainted") sources) /\
  (tainted = true <-> List.Exists (fun s => so_Integrity s = "tainted") sources).
Proof.
  induction sources as [|s sources IH]; cbn [integritySummary List.filter map]; [by rewrite !List.Exists_nil|]. destruct (integritySummary sources) as [[issues fatal] tainted].
  destruct IH as (Hi & Hf & Ht). case_bool_decide as Hv; [|case_bool_decide as Hw]; cbn [negb map]; rewrite !List.Exists_cons, <- ?Hi, <- Hf, <- Ht; (split; [done|]).
  - rewrite Hv. clear. split; split; auto; intros [?|?]; try done; by destruct_and!.
  - rewrite Hw. clear. split; split; auto; intros [?|?]; try done; by destruct_and!.
  - clear -Hv Hw. split; split; auto; intros [?|?]; done.
Qed.

(** Exit 0 exactly when every source verified, 1 as soon as one is torn,
    broken or of a verdict the code does not know, else 3. *)
Lemma timeline_exit_spec sources :
  (TimelineExit sources = 0 <-> Forall (fun s => so_Integrity s = "verified") sources) /\
  (TimelineExit sources = 1 <-> List.Exists (fun s => so_Integrity s <> "verified" /\ so_Integrity s <> "tainted") sources).
Proof.
  pose proof (summary_spec sources) as Hs. unfold TimelineExit. destruct (integritySummary sources) as [[issues fatal] tainted]. destruct Hs as (_ & Hf & Ht). rewrite <- Hf.
  assert (Hall : Forall (fun s => so_Integrity s = "verified") sources <-> fatal = false /\ tainted = false).
  { rewrite <- !not_true_iff_false, Hf, Ht, !List.Exists_exists, Forall_forall. setoid_rewrite list_elem_of_In. split.
    - intros Ha. split; intros (s & Hin & Hs); rewrite (Ha s Hin) in Hs; [by destruct Hs|done].
    - intros [Hnf Hnt] s Hin. destruct (decide (so_Integrity s = "verified")) as [|Hv]; [done|]. destruct (decide (so_Integrity s = "tainted")); [destruct Hnt; eauto|destruct Hnf; eauto]. }
  rewrite Hall. destruct fatal, tainted; split; split; naive_solver.
Qed.
End exit.
