(* ===== verification/Vouch.v ===== *)
(** * The execution read ([cmd/agenthof]: [verify.go], [installed.go], and
      [resolveRunConfig] and [buildResolved] of [main.go])

    A control root is the installed store, the control ledger, the key files
    beside it and the floor.  Before a run executes the installed
    configuration, the ledger must record its hash as the last install and,
    when a key is pinned, the signature file must be that key's signature of
    this very install, at or above the floor.

    A key file is what stating, reading and parsing it give (its PEM codec is
    not modelled).  Texts are left out: a refusal carries the values its text
    prints.  The outcome of every lock and of the floor's replacement is an
    argument. *)
From S2P Require Import Prelude Sha256 GoStr Json Paths Ledger Config Authz Origin Registry Event Attest ControlRecord Manifest Segments Snapshot Times Signed.

(** ** The control root *)
Inductive keyfile : Type := KeyAbsent | KeyStatFault | KeyBad | KeyIs (k : string).

(** [rt_floor]: [verify.floor], absent, unreadable or its bytes. *)
Record croot : Type := MkRoot {
  rt_store : istore; rt_ledger : disk; rt_key : keyfile; rt_pub : keyfile; rt_verify : keyfile; rt_floor : option (option string);
}.
Definition with_store (r : croot) (s : istore) : croot := MkRoot s (rt_ledger r) (rt_key r) (rt_pub r) (rt_verify r) (rt_floor r).
Definition with_ledger (r : croot) (d : disk) : croot := MkRoot (rt_store r) d (rt_key r) (rt_pub r) (rt_verify r) (rt_floor r).
Definition with_floor (r : croot) (f : option (option string)) : croot := MkRoot (rt_store r) (rt_ledger r) (rt_key r) (rt_pub r) (rt_verify r) f.

(** ** Verdicts on a signature file *)
Inductive sigKind : Type := sigAbsent | sigMalformed | sigUnknownKey | sigForeign | sigNewer | sigOlder | sigBad.

Inductive sig_detail : Type :=
  | NoSignatureFile (hash : string)
  | NotASignature (e : sigfile_error)
  | OtherKey (signed configured : string)
  | OtherHash (signed installed : string)
  | OtherLog (signed installed : string)
  | NewerSignature
  | OtherVersion (signed installed : Z)
  | OtherTime (signed installed : string)
  | DoesNotVerify.

Record signatureVerdict : Type := MkVerdict { sv_Kind : sigKind; sv_Detail : sig_detail; sv_File : option SignatureFile }.

(** A verdict, or a fault that is none. *)
Inductive sig_fault : Type := SigVerdict (v : signatureVerdict) | SigUnreadable | SigPayload (e : payload_error).

Section verify.
  Context `{Ed25519}.

Definition verifySignatureFile (s : istore) (hash logID : string) (version : Z) (at_ : GoTime) (pub : string) : result sig_fault SignatureFile :=
  let verdict k d f := Err (SigVerdict (MkVerdict k d f)) in
  match is_sigs s !! SignaturePath hash with
  | None => verdict sigAbsent (NoSignatureFile hash) None
  | Some None => Err SigUnreadable
  | Some (Some data) =>
      match ParseSignatureFile data with
      | Err e => verdict sigMalformed (NotASignature e) None
      | Ok f =>
          let keyID := KeyID pub in
          if negb (bool_decide (sf_KeyID f = keyID)) then verdict sigUnknownKey (OtherKey (sf_KeyID f) keyID) (Some f)
          else match SignaturePayload hash logID version at_ keyID with
               | Err e => Err (SigPayload e)
               | Ok expected =>
                   if negb (bool_decide (sf_Payload f = expected)) then
                     if negb (bool_decide (sf_Hash f = hash)) then verdict sigForeign (OtherHash (sf_Hash f) hash) (Some f)
                     else if negb (bool_decide (sf_LogID f = logID)) then verdict sigForeign (OtherLog (sf_LogID f) logID) (Some f)
                     else if version <? sf_Version f then verdict sigNewer NewerSignature (Some f)
                     else if sf_Version f <? version then verdict sigOlder (OtherVersion (sf_Version f) version) (Some f)
                     else verdict sigOlder (OtherTime (sf_InstalledAt f) (FormatNano at_)) (Some f)
                   else if negb (Verify pub (sf_Payload f) (sf_Sig f)) then verdict sigBad DoesNotVerify (Some f)
                   else Ok f
               end
      end
  end.
End verify.

(** ** Refusals *)
Inductive verifyKind : Type :=
  verifyUnsigned | verifyUnknownKey | verifyBadSignature | verifyStale | verifyForeignLedger | verifyNotOnRecord | verifyNotVerifiable | verifyBusy.
#[global] Instance verifyKind_eq_dec : EqDecision verifyKind.
Proof. solve_decision. Defined.

Inductive vdetail : Type :=
  | NoDetail
  | LedgerDamaged
  | LedgerFault (e : control_error)
  | NoInstallOnRecord
  | LastInstallIs (hash label : string)
  | NoGenesisLogID
  | FloorUnreadable
  | FloorFault (e : floor_error)
  | FloorNotWritten
  | OtherLedger (logID floorLogID : string) (floorVersion : Z)
  | BelowFloor (version floorVersion : Z) (logID : string)
  | SigDetail (d : sig_detail)
  | PinFault
  | LockFault (e : ledger_error).

Record verifyRefusal : Type := MkRefusal { vr_Kind : verifyKind; vr_Detail : vdetail }.
Definition notVerifiable (d : vdetail) : verifyRefusal := MkRefusal verifyNotVerifiable d.
Definition Transient (r : verifyRefusal) : bool := bool_decide (vr_Kind r = verifyBusy).

Inductive verifyMode : Type := verifyAndAdvance | verifyOnly.
#[global] Instance verifyMode_eq_dec : EqDecision verifyMode.
Proof. solve_decision. Defined.

Definition installLabel (d : DecodedEvent) : string :=
  if bool_decide (d_Action d = "apply") || bool_decide (d_Action d = "vouch") then d_Action d else d_Action d +:+ " agent " +:+ d_Agent d.

(** [errors.Is(err, ledger.ErrLockHeld)], [errors.Is(err, fs.ErrNotExist)] and
    the two [errors.As] of a damaged chain. *)
Definition is_lock_held (e : control_error) : bool := match e with ELedger ErrLockHeld => true | _ => false end.
Definition is_not_exist (e : control_error) : bool := match e with ENotExist => true | _ => false end.
Definition is_damaged (e : control_error) : bool :=
  match e with
  | ESet s => match Unwrap s with Some (ChainCause (TornError _)) | Some (ChainCause (ChainBrokenError _)) => true | _ => false end
  | ELedger (TornError _) | ELedger (ChainBrokenError _) => true
  | _ => false
  end.

Section root.
  Context `{Ed25519} (active : string).

(** ** The vouch *)

(** The records, the last install and the refusal. *)
Definition vouchInstalled (lock : result ledger_error ()) (d : disk) (hash : string) : list string * option DecodedEvent * option verifyRefusal :=
  let '(v, verr) := Read active lock d in
  let judge records :=
    match LastInstalling records with
    | None => (records, None, Some (MkRefusal verifyNotOnRecord NoInstallOnRecord))
    | Some last =>
        if negb (bool_decide (d_ConfigHash last = hash)) then
          (records, Some last, Some (MkRefusal verifyNotOnRecord (LastInstallIs (d_ConfigHash last) (installLabel last))))
        else (records, Some last, None)
    end in
  match verr with
  | None => judge (v_Records v)
  | Some e =>
      if is_lock_held e then ([], None, Some (MkRefusal verifyBusy NoDetail))
      else if is_not_exist e then judge []
      else if is_damaged e then ([], None, Some (notVerifiable LedgerDamaged))
      else ([], None, Some (notVerifiable (LedgerFault e)))
  end.

Record installFacts : Type := MkFacts { if_LogID : string; if_Version : Z; if_At : GoTime }.

Definition recordedInstall (lock : result ledger_error ()) (d : disk) (hash : string) : result verifyRefusal installFacts :=
  match vouchInstalled lock d hash with
  | (_, _, Some refusal) => Err refusal
  | (records, last, None) =>
      match GenesisLogID records with
      | None => Err (notVerifiable NoGenesisLogID)
      | Some logID => let last := default zeroDecoded last in Ok (MkFacts logID (d_Seq last) (UTC (time_of (d_Time last))))
      end
  end.

(** ** The floor *)

(** [readVerifyFloor]; [Ok None] is no floor. *)
Definition readVerifyFloor (r : croot) : result vdetail (option (string * Z)) :=
  match rt_floor r with
  | None => Ok None
  | Some None => Err FloorUnreadable
  | Some (Some data) => match ParseVerifyFloor data with Ok f => Ok (Some f) | Err e => Err (FloorFault e) end
  end.

(** The floor written by rename, or left as it was. *)
Definition writeVerifyFloor (r : croot) (logID : string) (version : Z) (ok : bool) : option vdetail * croot :=
  if ok then (None, with_floor r (Some (Some (VerifyFloorBytes logID version)))) else (Some FloorNotWritten, r).

Definition judgeFloor (r : croot) (logID : string) (version : Z) (mode : verifyMode) (write : bool) : option verifyRefusal * croot :=
  let advance :=
    if bool_decide (mode = verifyOnly) then (None, r)
    else match writeVerifyFloor r logID version write with
         | (Some e, r) => (Some (notVerifiable e), r)
         | (None, r) => (None, r)
         end in
  match readVerifyFloor r with
  | Err e => (Some (notVerifiable e), r)
  | Ok None => advance
  | Ok (Some (floorLogID, floorVersion)) =>
      if negb (bool_decide (floorLogID = logID)) then (Some (MkRefusal verifyForeignLedger (OtherLedger logID floorLogID floorVersion)), r)
      else if version <? floorVersion then (Some (MkRefusal verifyStale (BelowFloor version floorVersion logID)), r)
      else if version =? floorVersion then (None, r)
      else advance
  end.

(** ** The pin *)

(** [pinnedKeyPath] and [loadVerifyPub]: the key of a pin, [Ok None] when
    nothing is pinned; [flag] is the file a given [--verify-key] names. *)
Definition pinnedKeyPath (r : croot) (flag : option keyfile) : result vdetail (option keyfile) :=
  match flag with
  | Some k => Ok (Some k)
  | None => match rt_verify r with KeyAbsent => Ok None | KeyStatFault => Err PinFault | k => Ok (Some k) end
  end.
Definition loadVerifyPub (k : keyfile) : result vdetail string := match k with KeyIs pub => Ok pub | _ => Err PinFault end.

Definition refusal_of (v : signatureVerdict) (inst : installFacts) : verifyRefusal :=
  match sv_Kind v with
  | sigUnknownKey => MkRefusal verifyUnknownKey (SigDetail (sv_Detail v))
  | sigBad => MkRefusal verifyBadSignature NoDetail
  | sigNewer => MkRefusal verifyUnsigned (SigDetail (OtherVersion (default 0 (sf_Version <$> sv_File v)) (if_Version inst)))
  | _ => MkRefusal verifyUnsigned (SigDetail (sv_Detail v))
  end.

(** The error is a store fault. *)
Definition pinnedVerify (r : croot) (lock : result ledger_error ()) (hash pub : string) (mode : verifyMode) (write : bool)
  : result sig_fault (option verifyRefusal) * croot :=
  match recordedInstall lock (rt_ledger r) hash with
  | Err refusal => (Ok (Some refusal), r)
  | Ok inst =>
      match verifySignatureFile (rt_store r) hash (if_LogID inst) (if_Version inst) (if_At inst) pub with
      | Err (SigVerdict v) => (Ok (Some (refusal_of v inst)), r)
      | Err e => (Err e, r)
      | Ok f => let '(refusal, r) := judgeFloor r (sf_LogID f) (sf_Version f) mode write in (Ok refusal, r)
      end
  end.

(** ** The audit readers' verdict on the pointer *)

(** [installedPointerLine]'s second result. *)
Definition installedPointerLine (s : istore) (records : list string) : bool :=
  match InstalledHash s with
  | Err _ => true
  | Ok None => false
  | Ok (Some hash) => match LastInstalling records with None => true | Some last => negb (bool_decide (d_ConfigHash last = hash)) end
  end.

(** ** The configuration a run executes *)
Inductive resolve_error : Type := RunConfig (e : config_error) | RunSignature (hash : string) (e : sig_fault) | RunInvalid (e : ValidationError).

Record resolved : Type := MkResolved {
  rv_cfg : Config; rv_reg : option Registry; rv_hash : string; rv_installed : bool; rv_errs : list resolve_error; rv_unverified : option verifyRefusal;
}.

(** What the read takes from outside: the shared lock, the ledger's lock
    inside it, the floor's replacement. *)
Record resolve_env : Type := MkResolveEnv { ve_lock : result ledger_error (); ve_read : result ledger_error (); ve_write : bool }.

Context (url_Parse : string -> option (string * string)) `{ConfigYaml}.

Definition buildResolved (cfg : Config) (hash : string) (installed : bool) (loadErrs : list resolve_error) : resolved :=
  if negb installed then MkResolved cfg None "" false loadErrs None
  else match Build url_Parse cfg, loadErrs with
       | Ok reg, [] => MkResolved cfg (Some reg) hash true [] None
       | Ok _, _ => MkResolved cfg None hash true loadErrs None
       | Err valErrs, _ => MkResolved cfg None hash true (loadErrs ++ map RunInvalid valErrs) None
       end.

Definition resolveRunConfig (r : croot) (flag : option keyfile) (mode : verifyMode) (env : resolve_env) : resolved * croot :=
  let refused refusal := MkResolved zeroConfig None "" false [] (Some refusal) in
  match pinnedKeyPath r flag with
  | Err e => (refused (notVerifiable e), r)
  | Ok pin =>
      match match pin with Some k => let! pub := loadVerifyPub k in Ok (Some pub) | None => Ok None end with
      | Err e => (refused (notVerifiable e), r)
      | Ok pub =>
          match ve_lock env with
          | Err ErrLockHeld => (refused (MkRefusal verifyBusy NoDetail), r)
          | Err e => (refused (notVerifiable (LockFault e)), r)
          | Ok _ =>
              match LoadInstalled (rt_store r) with
              | (cfg, None, errs) => (buildResolved cfg "" false (map RunConfig errs), r)
              | (cfg, Some hash, (_ :: _) as errs) => (buildResolved cfg hash true (map RunConfig errs), r)
              | (cfg, Some hash, []) =>
                  let '(verdict, r) :=
                    match pub with
                    | Some pub => pinnedVerify r (ve_read env) hash pub mode (ve_write env)
                    | None => (Ok (vouchInstalled (ve_read env) (rt_ledger r) hash).2, r)
                    end in
                  (match verdict with
                   | Err e => buildResolved cfg hash true [RunSignature hash e]
                   | Ok (Some refusal) => if Transient refusal then refused refusal else MkResolved cfg None hash true [] (Some refusal)
                   | Ok None => buildResolved cfg hash true []
                   end, r)
              end
          end
      end
  end.
End root.

(** ** What a verified signature says *)
Section signed.
  Context `{Ed25519}.

(** The file beside a snapshot is the key's signature of one install. *)
Definition signed_by (s : istore) (pub hash logID : string) (version : Z) (t : GoTime) : Prop :=
  exists p sig, is_sigs s !! SignaturePath hash = Some (Some (SignatureFileBytes p sig)) /\ sig_ok sig = true /\ line_free sig /\
    SignaturePayload hash logID version t (KeyID pub) = Ok p /\ Verify pub p sig = true.

Lemma itoa_inj a b : 0 <= a -> 0 <= b -> itoa a = itoa b -> a = b.
Proof.
  intros Ha Hb. unfold itoa. rewrite !(proj2 (Z.ltb_ge _ _)) by lia. intros E. apply (f_equal parse_N) in E. rewrite !parse_dec_N in E.
  assert (Z.to_N a = Z.to_N b) by congruence. lia.
Qed.

Lemma line_prefix c a b s t : has_byte c a = false -> has_byte c b = false -> a +:+ String c s = b +:+ String c t -> a = b /\ s = t.
Proof.
  revert b. induction a as [|x a IH]; intros [|y b]; cbn [has_byte]; rewrite ?app_cons_str; intros Ha Hb E.
  - by injection E.
  - injection E as <- _. by rewrite ascii_eqb_refl in Hb.
  - injection E as -> _. by rewrite ascii_eqb_refl in Ha.
  - injection E as -> E. apply orb_false_iff in Ha as [_ Ha]. apply orb_false_iff in Hb as [_ Hb]. by destruct (IH b Ha Hb E) as [-> ->].
Qed.

Lemma payload_text_inj h l v t k h' l' v' t' k' :
  has_byte newline h = false -> has_byte newline h' = false -> has_byte newline l = false -> has_byte newline l' = false ->
  has_byte newline v = false -> has_byte newline v' = false -> has_byte newline t = false -> has_byte newline t' = false ->
  has_byte newline k = false -> has_byte newline k' = false ->
  payload_text h l v t k = payload_text h' l' v' t' k' -> h = h' /\ l = l' /\ v = v' /\ t = t' /\ k = k'.
Proof.
  intros Hh Hh' Hl Hl' Hv Hv' Ht Ht' Hk Hk' E. unfold payload_text, nl in E. do 3 apply app_inv_head_str in E.
  apply line_prefix in E as [-> E]; [|done..]. apply app_inv_head_str, line_prefix in E as [-> E]; [|done..].
  apply app_inv_head_str, line_prefix in E as [-> E]; [|done..]. apply app_inv_head_str, line_prefix in E as [-> E]; [|done..].
  by apply app_inv_head_str, line_prefix in E as [-> _].
Qed.

(** The one verify: a file is accepted exactly when it is that signature, and
    then its fields are the install's. *)
Lemma verify_file s hash logID version t pub f : verifySignatureFile s hash logID version t pub = Ok f ->
  signed_by s pub hash logID version t /\ sf_LogID f = logID /\ sf_Version f = version /\ logIDRE logID = true /\ 1 <= version <= max_int64.
Proof.
  unfold verifySignatureFile. destruct (is_sigs s !! _) as [[data|]|] eqn:Es; [|done..]. destruct (ParseSignatureFile data) as [g|] eqn:Ep; [|done].
  case_bool_decide as Hk; [|done]. cbn [negb]. destruct (SignaturePayload _ _ _ _ _) as [p|] eqn:Epl; [|done]. case_bool_decide as Hp; [|by repeat case_match].
  cbn [negb]. destruct (Verify _ _ _) eqn:Hv; [|done]. intros [= ->]. apply parsed_wf in Ep as [Hw ->]. rewrite Hp in *.
  destruct (payload_built _ _ _ _ _ _ Epl) as (Ht & Hh & Hl & H1 & _ & Hkk). pose proof Ht as Hinj. rewrite <- Hp, (sw_payload f Hw) in Hinj.
  apply payload_text_inj in Hinj as (_ & <- & Hver & _ & _); try solve
    [by apply hash_no_byte; try apply Hw | eapply hex_of_len_no_byte; [|apply Hw]; done | eapply hex_of_len_no_byte; [|eassumption]; done
    | apply version_free | apply (sw_at f Hw) | apply format_free].
  pose proof (sw_version f Hw). apply itoa_inj in Hver as <-; [|lia..]. split; [|by repeat split; try apply Hw].
  exists p, (sf_Sig f). destruct (sw_sig f Hw) as [Hsok Hsl]. split; [exact Es|]. split; [exact Hsok|]. split; [exact Hsl|]. by split.
Qed.

Lemma signed_verifies s hash logID version t pub : version <= max_int64 -> signed_by s pub hash logID version t ->
  exists f, verifySignatureFile s hash logID version t pub = Ok f /\ sf_LogID f = logID /\ sf_Version f = version.
Proof.
  intros Hmax (p & sig & Hs & Hok & Hfree & Hp & Hv). destruct (payload_built _ _ _ _ _ _ Hp) as (Ht & Hh & Hl & H1 & _ & Hk).
  pose proof (parse_signature_written (MkSigFile p hash logID version (FormatNano t) (KeyID pub) sig)) as Hpw. cbn [sf_Payload sf_Sig] in Hpw.
  exists (MkSigFile p hash logID version (FormatNano t) (KeyID pub) sig). split; [|done].
  unfold verifySignatureFile. rewrite Hs, Hpw; [|split; cbn [sf_Payload sf_Hash sf_LogID sf_Version sf_InstalledAt sf_KeyID sf_Sig];
    [assumption|assumption|assumption|by split|apply format_free|assumption|by split]].
  cbn [sf_Payload sf_Hash sf_LogID sf_Version sf_InstalledAt sf_KeyID sf_Sig]. rewrite bool_decide_true by done. cbn [negb]. rewrite Hp.
  rewrite bool_decide_true by done. cbn [negb]. by rewrite Hv.
Qed.
End signed.

Section vouched.
  Context `{Ed25519} (active : string).

(** The ledger reads clean and its last install names the hash. *)
Definition on_record (lock : result ledger_error ()) (d : disk) (hash : string) (records : list string) (last : DecodedEvent) : Prop :=
  exists v, Read active lock d = (v, None) /\ v_Records v = records /\ LastInstalling records = Some last /\ d_ConfigHash last = hash.

Lemma on_record_unique lock d h h' rs rs' l l' : on_record lock d h rs l -> on_record lock d h' rs' l' -> h = h' /\ rs = rs' /\ l = l'.
Proof. intros (v & Hr & <- & Hl & <-) (v' & Hr' & <- & Hl' & <-). assert (v = v') as <- by congruence. assert (l = l') as <- by congruence. done. Qed.

Lemma vouch_on_record lock d hash records last : on_record lock d hash records last -> vouchInstalled active lock d hash = (records, Some last, None).
Proof. intros (v & Hr & <- & Hl & Hc). unfold vouchInstalled. rewrite Hr, Hl. by rewrite bool_decide_true. Qed.
Lemma vouch_passes lock d hash r : vouchInstalled active lock d hash = (r, None) -> exists records last, r = (records, Some last) /\ on_record lock d hash records last.
Proof.
  unfold vouchInstalled, on_record. destruct (Read active lock d) as [v [e|]].
  - destruct (is_lock_held e); [done|]. destruct (is_not_exist e); [done|]. by destruct (is_damaged e).
  - destruct (LastInstalling (v_Records v)) as [last|] eqn:E; [|done]. case_bool_decide as Hc; [|done]. cbn [negb]. intros [= <-].
    exists (v_Records v), last. split; [done|]. by exists v.
Qed.
Lemma vouched_iff lock d hash : (vouchInstalled active lock d hash).2 = None <-> exists records last, on_record lock d hash records last.
Proof.
  split.
  - destruct (vouchInstalled active lock d hash) as [r [e|]] eqn:E; [done|]. intros _. apply vouch_passes in E as (rs & l & _ & Hon). by exists rs, l.
  - intros (rs & l & Hon). by rewrite (vouch_on_record _ _ _ _ _ Hon).
Qed.

Lemma decoded_seq raw d : Decode raw = Some d -> int_ok (d_Seq d).
Proof.
  unfold Decode. destruct (parse_json raw) as [v|]; [|done]. destruct v; cbn [dec_obj]; try done; [intros [= <-]; apply zero_int_ok|].
  unfold dec_decoded. intros Hd. repeat (apply bind_Some in Hd as (? & ? & Hd)). injection Hd as <-. cbn [d_Seq].
  eapply (dec_field_inv int_ok dec_int); [exact dec_int_ok|exact zero_int_ok|eassumption].
Qed.
Lemma last_installing_seq records last : LastInstalling records = Some last -> int_ok (d_Seq last).
Proof.
  unfold LastInstalling. assert (Hg : forall acc, (forall d, acc = Some d -> int_ok (d_Seq d)) -> foldl last_installing acc records = Some last -> int_ok (d_Seq last)); [|by apply Hg].
  induction records as [|r records IH]; intros acc Ha; cbn [foldl]; [apply Ha|]. apply IH. intros d. unfold last_installing.
  destruct (Decode r) as [e|] eqn:Ed; [|apply Ha]. destruct (Installing e); [|apply Ha]. intros [= <-]. by eapply decoded_seq.
Qed.
Lemma on_record_seq lock d hash records last : on_record lock d hash records last -> d_Seq last <= max_int64.
Proof. intros (v & _ & _ & Hl & _). apply last_installing_seq in Hl. apply Hl. Qed.

(** The vouch and the audit readers' line are one judgment. *)
Lemma vouch_is_pointer_line s lock d hash v : InstalledHash s = Ok (Some hash) -> Read active lock d = (v, None) ->
  (vouchInstalled active lock d hash).2 = None <-> installedPointerLine s (v_Records v) = false.
Proof.
  intros Hi Hr. unfold vouchInstalled, installedPointerLine. rewrite Hi, Hr. destruct (LastInstalling _) as [last|]; [|done]. by case_bool_decide.
Qed.

Definition facts_of (logID : string) (last : DecodedEvent) : installFacts := MkFacts logID (d_Seq last) (UTC (time_of (d_Time last))).
Lemma recorded_passes lock d hash inst : recordedInstall active lock d hash = Ok inst <->
  exists records last logID, on_record lock d hash records last /\ GenesisLogID records = Some logID /\ inst = facts_of logID last.
Proof.
  unfold recordedInstall. split.
  - destruct (vouchInstalled active lock d hash) as [[rs l] [e|]] eqn:E; [done|]. apply vouch_passes in E as (records & last & [= -> ->] & Hon).
    destruct (GenesisLogID records) as [id|] eqn:Eg; [|done]. intros [= <-]. by exists records, last, id.
  - intros (records & last & logID & Hon & Hg & ->). rewrite (vouch_on_record _ _ _ _ _ Hon). by rewrite Hg.
Qed.

(** ** The floor *)
Definition floor_admits (r : croot) (logID : string) (version : Z) (mode : verifyMode) (write : bool) : Prop :=
  match readVerifyFloor r with
  | Err _ => False
  | Ok None => mode = verifyOnly \/ write = true
  | Ok (Some (floorLogID, floorVersion)) => floorLogID = logID /\ floorVersion <= version /\ (floorVersion = version \/ mode = verifyOnly \/ write = true)
  end.

Lemma floor_judged r logID version mode write : (judgeFloor r logID version mode write).1 = None <-> floor_admits r logID version mode write.
Proof.
  unfold judgeFloor, floor_admits, writeVerifyFloor. destruct (readVerifyFloor r) as [[[l0 v0]|]|]; [|..|done].
  - case_bool_decide as Hl; cbn [negb]; [|split; [done|by intros [? _]]].
    destruct (Z.ltb_spec version v0); [split; [done|lia]|]. destruct (Z.eqb_spec version v0) as [->|]; [by split; [intros _; repeat split; auto; lia|]|].
    case_bool_decide; [split; [auto|done]|]. destruct write; cbn; [split; auto|]. split; [done|]. intros (_ & _ & [?|[?|?]]); congruence.
  - case_bool_decide; [split; auto|]. destruct write; cbn; [split; auto|]. split; [done|]. intros [?|?]; congruence.
Qed.

(** An accepted read in the advancing mode leaves the floor at what it
    accepted; a read that judges only, or refuses, leaves the root. *)
Lemma floor_advanced r logID version write r' : logIDRE logID = true -> 1 <= version <= max_int64 ->
  judgeFloor r logID version verifyAndAdvance write = (None, r') -> readVerifyFloor r' = Ok (Some (logID, version)).
Proof.
  intros Hl Hv. assert (Hw : forall r, readVerifyFloor (with_floor r (Some (Some (VerifyFloorBytes logID version)))) = Ok (Some (logID, version))).
  { intros x. unfold readVerifyFloor. cbn [rt_floor with_floor]. by rewrite (proj2 (parse_floor _ logID version)) by done. }
  unfold judgeFloor, writeVerifyFloor. rewrite bool_decide_false by done.
  destruct (readVerifyFloor r) as [[[l0 v0]|]|] eqn:Er; [|by destruct write; intros [= <-]|done].
  case_bool_decide as Hlog; [|done]. cbn [negb]. destruct (Z.ltb_spec version v0); [done|]. destruct (Z.eqb_spec version v0) as [->|];
    [intros [= <-]; congruence|]. by destruct write; intros [= <-].
Qed.
Lemma floor_refused r logID version mode write e r' : judgeFloor r logID version mode write = (Some e, r') -> r' = r.
Proof.
  unfold judgeFloor, writeVerifyFloor. destruct (readVerifyFloor r) as [[[l0 v0]|]|]; [|by destruct (bool_decide _), write; intros [=]|by intros [= _ <-]].
  case_bool_decide; cbn [negb]; [|by intros [= _ <-]]. destruct (version <? v0); [by intros [= _ <-]|]. destruct (version =? v0); [done|].
  by destruct (bool_decide _), write; intros [=].
Qed.
Lemma floor_judge_only r logID version write : (judgeFloor r logID version verifyOnly write).2 = r.
Proof. unfold judgeFloor. rewrite bool_decide_true by done. by repeat case_match. Qed.
End vouched.

(** ** The run's configuration *)
Section loaded.
  Context `{ConfigYaml}.
Lemma load_clean s cfg hash : LoadInstalled s = (cfg, Some hash, []) <->
  InstalledHash s = Ok (Some hash) /\ HashDir (is_dirs s !! SnapshotDir hash) = Ok hash /\ LoadDir (is_dirs s !! SnapshotDir hash) = (cfg, []) /\ c_Roles cfg <> [].
Proof.
  unfold LoadInstalled, VerifyInstalled, LoadDir. destruct (InstalledHash s) as [[h|]|]; [|naive_solver..].
  destruct (HashDir (is_dirs s !! SnapshotDir h)) as [got|] eqn:Eh; cbn [result_bind]; [|split; [done|intros ([= ->] & ? & _); congruence]].
  case_bool_decide as Hg; [|split; [done|intros ([= ->] & ? & _); congruence]]. subst got.
  destruct (loadFiles _ _) as [c errs] eqn:El. split.
  - intros [= -> -> He]. split; [done|]. split; [done|]. destruct errs as [|e errs]; destruct (c_Roles cfg) eqn:Er; by rewrite ?El.
  - intros ([= ->] & _ & Hl & Hn). rewrite El in Hl. injection Hl as -> ->. by destruct (c_Roles cfg).
Qed.
End loaded.

Section executed.
  Context `{Ed25519} `{ConfigYaml} (active : string) (url_Parse : string -> option (string * string)).

(** The key a pin names, none when nothing is pinned. *)
Definition pin_of (r : croot) (flag : option keyfile) : result vdetail (option string) :=
  let! pin := pinnedKeyPath r flag in
  match pin with Some k => let! pub := loadVerifyPub k in Ok (Some pub) | None => Ok None end.

(** The pinned layer over an install on record. *)
Definition pin_satisfied (r : croot) (pub hash : string) (records : list string) (last : DecodedEvent) (mode : verifyMode) (write : bool) : Prop :=
  exists logID, GenesisLogID records = Some logID /\
    signed_by (rt_store r) pub hash logID (d_Seq last) (UTC (time_of (d_Time last))) /\ floor_admits r logID (d_Seq last) mode write.

Lemma pinned_passes r lock hash pub mode write : (pinnedVerify active r lock hash pub mode write).1 = Ok None <->
  exists records last, on_record active lock (rt_ledger r) hash records last /\ pin_satisfied r pub hash records last mode write.
Proof.
  unfold pinnedVerify, pin_satisfied. split.
  - destruct (recordedInstall _ _ _ _) as [inst|] eqn:Ei; [|done]. apply recorded_passes in Ei as (records & last & logID & Hon & Hg & ->).
    cbn [if_LogID if_Version if_At facts_of]. destruct (verifySignatureFile _ _ _ _ _ _) as [f|[]] eqn:Ef; [|done..].
    apply verify_file in Ef as (Hs & -> & -> & Hl & Hv). intros Hj. exists records, last. split; [done|]. exists logID. split; [done|]. split; [done|].
    apply floor_judged. by destruct (judgeFloor _ _ _ _ _) as [[]].
  - intros (records & last & Hon & logID & Hg & Hs & Hf). pose proof (on_record_seq _ _ _ _ _ _ Hon) as Hmax.
    rewrite (proj2 (recorded_passes active lock (rt_ledger r) hash (facts_of logID last))) by (by exists records, last, logID). cbn [if_LogID if_Version if_At facts_of].
    destruct (signed_verifies _ _ _ _ _ _ Hmax Hs) as (f & -> & -> & ->). apply floor_judged in Hf. by destruct (judgeFloor _ _ _ _ _) as [[]].
Qed.

Lemma pinned_root r lock hash pub mode write : with_floor (pinnedVerify active r lock hash pub mode write).2 (rt_floor r) = r.
Proof.
  assert (Hr : forall x : croot, with_floor x (rt_floor x) = x) by (by intros []).
  unfold pinnedVerify, judgeFloor, writeVerifyFloor. destruct (recordedInstall _ _ _ _); [|apply Hr]. destruct (verifySignatureFile _ _ _ _ _ _) as [|[]]; [|apply Hr..].
  by repeat (case_match; simplify_eq; cbn [snd]; try apply Hr); destruct r.
Qed.

Lemma built reg cfg hash errs : rv_reg (buildResolved url_Parse cfg hash true errs) = Some reg <-> errs = [] /\ Build url_Parse cfg = Ok reg.
Proof. unfold buildResolved. cbn [negb]. destruct (Build url_Parse cfg), errs; cbn; naive_solver. Qed.

Lemma verdict_runs (verdict : result sig_fault (option verifyRefusal)) cfg hash reg :
  rv_reg match verdict with
    | Ok (Some refusal) => if Transient refusal then MkResolved zeroConfig None "" false [] (Some refusal) else MkResolved cfg None hash true [] (Some refusal)
    | Ok None => buildResolved url_Parse cfg hash true []
    | Err e => buildResolved url_Parse cfg hash true [RunSignature hash e]
    end = Some reg <-> verdict = Ok None /\ Build url_Parse cfg = Ok reg.
Proof.
  destruct verdict as [[refusal|]|e]; [destruct (Transient refusal)|rewrite built|rewrite built]; naive_solver.
Qed.

Lemma resolve_runs r flag mode env reg : rv_reg (resolveRunConfig active url_Parse r flag mode env).1 = Some reg <->
  exists cfg hash pin records last,
    pin_of r flag = Ok pin /\ ve_lock env = Ok () /\ LoadInstalled (rt_store r) = (cfg, Some hash, []) /\ Build url_Parse cfg = Ok reg /\
    on_record active (ve_read env) (rt_ledger r) hash records last /\
    match pin with Some pub => pin_satisfied r pub hash records last mode (ve_write env) | None => True end.
Proof.
  unfold resolveRunConfig, pin_of. destruct (pinnedKeyPath r flag) as [pin|]; [|split; [done|by intros (? & ? & ? & ? & ? & ? & _)]]. cbn [result_bind].
  destruct (match pin with Some k => _ | None => _ end) as [pub|]; [|split; [done|by intros (? & ? & ? & ? & ? & ? & _)]].
  destruct (ve_lock env) as [[]|e]; [|by destruct e; split; try done; intros (? & ? & ? & ? & ? & ? & ? & _)].
  destruct (LoadInstalled (rt_store r)) as [[cfg [hash|]] errs] eqn:El;
    [|split; [done|by intros (? & ? & ? & ? & ? & ? & ? & [= ] & _)]].
  destruct errs as [|e errs]; [|split; [intros Hb; by apply built in Hb as [? _]|by intros (? & ? & ? & ? & ? & ? & ? & [= ] & _)]].
  rewrite (surjective_pairing (match pub with Some _ => _ | None => _ end)). cbn [fst]. rewrite (verdict_runs _ cfg hash reg). destruct pub as [pub|]; cbn [fst].
  - rewrite pinned_passes. naive_solver.
  - split.
    + intros [[= E] Hb]. apply vouched_iff in E as (records & last & Hon). naive_solver.
    + intros (cfg' & hash' & pin' & records & last & [= <-] & _ & [= <- <-] & Hb & Hon & _). split; [|done]. f_equal. apply vouched_iff. by exists records, last.
Qed.
End executed.

(** ** Reads over time *)
Section reads.
  Context `{Ed25519} `{ConfigYaml} (active : string) (url_Parse : string -> option (string * string)).

(** The installs a read verified under its pin and meant to remember. *)
Definition accepted (r : croot) (flag : option keyfile) (mode : verifyMode) (env : resolve_env) : list (string * Z) :=
  match pin_of r flag, ve_lock env, LoadInstalled (rt_store r) with
  | Ok (Some pub), Ok _, (_, Some hash, []) =>
      match mode, (pinnedVerify active r (ve_read env) hash pub mode (ve_write env)).1, recordedInstall active (ve_read env) (rt_ledger r) hash with
      | verifyAndAdvance, Ok None, Ok inst => [(if_LogID inst, if_Version inst)]
      | _, _, _ => []
      end
  | _, _, _ => []
  end.

(** Reads of any kind, and between them whatever else befalls the root, the
    store, the ledger and the keys included; only the floor is this point's. *)
Inductive reads : croot -> list (string * Z) -> Prop :=
  | reads_done r : reads r []
  | reads_other r r' l : rt_floor r' = rt_floor r -> reads r' l -> reads r l
  | reads_read r flag mode env l : reads (resolveRunConfig active url_Parse r flag mode env).2 l -> reads r (accepted r flag mode env ++ l).

Definition follows (f g : string * Z) : Prop := f.1 = g.1 /\ f.2 <= g.2.

Lemma resolve_root r flag mode env : (resolveRunConfig active url_Parse r flag mode env).2 =
  match pin_of r flag, ve_lock env, LoadInstalled (rt_store r) with
  | Ok (Some pub), Ok _, (_, Some hash, []) => (pinnedVerify active r (ve_read env) hash pub mode (ve_write env)).2
  | _, _, _ => r
  end.
Proof.
  unfold resolveRunConfig, pin_of. destruct (pinnedKeyPath r flag) as [pin|]; [|done]. cbn [result_bind].
  destruct (match pin with Some k => _ | None => _ end) as [[pub|]|]; [| |done].
  - destruct (ve_lock env) as [|[]]; try done. destruct (LoadInstalled _) as [[cfg [hash|]] [|e errs]]; try done.
    by destruct (pinnedVerify _ _ _ _ _ _ _).
  - destruct (ve_lock env) as [|[]]; try done. by destruct (LoadInstalled _) as [[cfg [hash|]] [|e errs]].
Qed.

Lemma pinned_accepts r lock hash pub mode write : 
  (pinnedVerify active r lock hash pub mode write).2 = r \/
  exists inst, recordedInstall active lock (rt_ledger r) hash = Ok inst /\ mode = verifyAndAdvance /\
    (pinnedVerify active r lock hash pub mode write).1 = Ok None.
Proof.
  unfold pinnedVerify. destruct (recordedInstall _ _ _ _) as [inst|]; [|by left]. destruct (verifySignatureFile _ _ _ _ _ _) as [f|[]]; [|by left..].
  destruct mode; [|left; pose proof (floor_judge_only r (sf_LogID f) (sf_Version f) write) as Hj; by destruct (judgeFloor _ _ _ _ _)].
  destruct (judgeFloor r _ _ _ _) as [[e|] r'] eqn:Ej; [left; by apply floor_refused in Ej|]. right. by exists inst.
Qed.

Lemma pinned_remembers r lock hash pub write inst : recordedInstall active lock (rt_ledger r) hash = Ok inst ->
  (pinnedVerify active r lock hash pub verifyAndAdvance write).1 = Ok None ->
  readVerifyFloor (pinnedVerify active r lock hash pub verifyAndAdvance write).2 = Ok (Some (if_LogID inst, if_Version inst)) /\
  forall f, readVerifyFloor r = Ok (Some f) -> follows f (if_LogID inst, if_Version inst).
Proof.
  unfold pinnedVerify. intros ->. destruct (verifySignatureFile _ _ _ _ _ _) as [f|[]] eqn:Ef; [|done..]. apply verify_file in Ef as (_ & El & Ev & Hl & Hv).
  rewrite El, Ev. pose proof (floor_judged r (if_LogID inst) (if_Version inst) verifyAndAdvance write) as Hj.
  destruct (judgeFloor _ _ _ _ _) as [[e|] r'] eqn:E; [done|]. intros _. split; [by eapply floor_advanced|].
  intros [l0 v0] Hr. apply proj1 in Hj. specialize (Hj eq_refl). unfold floor_admits in Hj. rewrite Hr in Hj. unfold follows. cbn. naive_solver.
Qed.

Lemma accepted_step r flag mode env : let r' := (resolveRunConfig active url_Parse r flag mode env).2 in
  accepted r flag mode env = [] /\ r' = r \/
  exists p, accepted r flag mode env = [p] /\ readVerifyFloor r' = Ok (Some p) /\ forall f, readVerifyFloor r = Ok (Some f) -> follows f p.
Proof.
  cbn zeta. rewrite resolve_root. unfold accepted. destruct (pin_of r flag) as [[pub|]|]; [|by left..]. destruct (ve_lock env); [|by left].
  destruct (LoadInstalled _) as [[cfg [hash|]] [|e errs]]; [|by left..].
  destruct (pinned_accepts r (ve_read env) hash pub mode (ve_write env)) as [Hr|(inst & Hi & -> & Hp)].
  - destruct mode; [|by left]. destruct (pinnedVerify _ _ _ _ _ _ _) as [[[|]|] r'] eqn:E; try by left. destruct (recordedInstall _ _ _ _) as [inst|] eqn:Ei; [|by left].
    right. exists (if_LogID inst, if_Version inst). split; [done|].
    pose proof (pinned_remembers r (ve_read env) hash pub (ve_write env) inst Ei) as Hm. rewrite E in Hm. by apply Hm.
  - right. exists (if_LogID inst, if_Version inst). rewrite Hi, Hp. split; [done|]. by apply pinned_remembers.
Qed.

Lemma follows_trans f g h : follows f g -> follows g h -> follows f h.
Proof. unfold follows. intros [-> ?] [-> ?]. split; [done|lia]. Qed.

Lemma reads_follow r l : reads r l -> StronglySorted follows l /\ forall f, readVerifyFloor r = Ok (Some f) -> Forall (follows f) l.
Proof.
  induction 1 as [r|r r' l Hf Hr [IHs IHf]|r flag mode env l Hr [IHs IHf]]; [split; constructor|..].
  - split; [done|]. intros f Hrf. apply IHf. unfold readVerifyFloor in *. by rewrite Hf.
  - destruct (accepted_step r flag mode env) as [[-> Er]|(p & -> & Hp & Hfl)]; [rewrite Er in *; by split|]. cbn [app].
    specialize (IHf p Hp). split; [by constructor|]. intros f Hrf. constructor; [auto|]. eapply Forall_impl; [exact IHf|]. intros g. apply follows_trans. auto.
Qed.

(** C15: the floor stops rollbacks.  Over any sequence of execution reads,
    with the store, the ledger, the keys and the signatures changed at will
    between them, the installs accepted under a pin are of one ledger and
    their versions never decrease, from the floor the point started with. *)
Theorem rollback_is_refused (r : croot) (l : list (string * Z)) (Hr : reads r l) :
  StronglySorted follows l /\ forall f, readVerifyFloor r = Ok (Some f) -> Forall (follows f) l.
Proof. by apply reads_follow. Qed.

(** C14: a run is given a registry exactly when the pointer names a snapshot
    whose bytes hash to it, load and validate, the control ledger reads clean
    and records that hash as its last install, and, when a key is pinned, the
    signature file is that key's signature of the very install (hash, ledger
    id, version, time) and the floor admits the version. *)
Theorem executed_config_is_vouched (r : croot) (flag : option keyfile) (mode : verifyMode) (env : resolve_env) (reg : Registry) :
  rv_reg (resolveRunConfig active url_Parse r flag mode env).1 = Some reg <->
  exists cfg hash pin records last,
    pin_of r flag = Ok pin /\ ve_lock env = Ok () /\
    (InstalledHash (rt_store r) = Ok (Some hash) /\ HashDir (is_dirs (rt_store r) !! SnapshotDir hash) = Ok hash /\
     LoadDir (is_dirs (rt_store r) !! SnapshotDir hash) = (cfg, []) /\ c_Roles cfg <> []) /\
    Build url_Parse cfg = Ok reg /\ on_record active (ve_read env) (rt_ledger r) hash records last /\
    match pin with Some pub => pin_satisfied r pub hash records last mode (ve_write env) | None => True end.
Proof.
  rewrite resolve_runs. split; intros (cfg & hash & pin & records & last & Hp & Hk & Hl & Hrest); exists cfg, hash, pin, records, last; apply load_clean in Hl; done.
Qed.
End reads.

(** ** Witness: a root with one install on record, signed and pinned *)
Definition toy_text : GoText := {| is_print := fun z => 32 <=? z; quote := fun s => s |}.
Definition toy_url : GoURL := {| parse_url := fun _ => None |}.
Definition toy_yaml : ConfigYaml := {|
  yaml_agent := fun _ => None; yaml_workflow := fun _ => None;
  yaml_role := fun s => Some (MkRole s [] ["ops"] (Some ["apply"]) "");
  yaml_gateway := fun _ => (c_Gateway zeroConfig, true) |}.

Definition ex_dir : tree := <["roles" := Dir]> (<["roles/ops.yaml" := File (Some "ops")]> ∅).
Definition ex_installed : string := sum [("roles/ops.yaml", "ops")].
Definition ex_active : string := "control.jsonl".
Definition ex_append : append_env := MkAppendEnv "2026-01-02T03:04:05Z" (Some "0123456789abcdef") WriteOk.
Definition ex_event : CEvent := { zeroCEvent with ce_Action := "apply"; ce_Outcome := "success"; ce_ConfigHash := ex_installed }.
Definition ex_ledger : disk :=
  let d := MkDisk ∅ ∅ 0 in (Append (H := toy_text) (H0 := toy_url) ex_active (now d) (now d) ex_append ex_event).2.
Definition ex_logid : string := hex_encode "0123456789abcdef".
Definition ex_signed : string := payload_text ex_installed ex_logid "1" "2026-01-02T03:04:05Z" (KeyID "k").
Definition ex_store : istore :=
  MkIStore (Some (Some (ex_installed +:+ nl))) {[SnapshotDir ex_installed := ex_dir]}
    {[SignaturePath ex_installed := Some (SignatureFileBytes ex_signed (Sign (H := toy_ed) "k" ex_signed))]}.
Definition ex_root : croot := MkRoot ex_store ex_ledger KeyAbsent KeyAbsent (KeyIs "k") None.
Definition ex_env : resolve_env := MkResolveEnv (Ok ()) (Ok ()) true.

Lemma ex_accepted : accepted (H := toy_ed) (H0 := toy_yaml) ex_active ex_root None verifyAndAdvance ex_env = [(ex_logid, 1)].
Proof. vm_compute. reflexivity. Qed.

Lemma rollback_is_refused_witness :
  let r' := (resolveRunConfig (H := toy_ed) (H0 := toy_yaml) ex_active (fun _ => None) ex_root None verifyAndAdvance ex_env).2 in
  StronglySorted follows ([(ex_logid, 1)] ++ accepted (H := toy_ed) (H0 := toy_yaml) ex_active r' None verifyAndAdvance ex_env).
Proof.
  cbn zeta. rewrite <- ex_accepted.
  refine (proj1 (rollback_is_refused (H := toy_ed) (H0 := toy_yaml) ex_active (fun _ => None) ex_root _ _)).
  apply reads_read. rewrite <- (app_nil_r (accepted _ _ _ _ _)). apply reads_read, reads_done.
Defined.
