(* ===== verification/Signing.v ===== *)
(** * Signing and serving the installed configuration ([cmd/agenthof]:
      [signing.go], [pull.go])

    The install host signs what the control ledger vouches for, with the pair
    beside the ledger, and the pull serves a snapshot only when the ledger
    vouches for it and, with signing configured, its signature verifies under
    [signing.pub].  Generating and encoding keys, and the lines printed, are
    left out. *)
From S2P Require Import Prelude Sha256 GoStr Json Paths Ledger Config Authz Origin Registry Event Attest ControlRecord Manifest Segments Snapshot Times Signed Vouch.

(** ** The pair *)
Inductive signingState : Type := signingOff | signingPubOnly | signingKeyOnly | signingOn.
Definition configured (s : signingState) : bool := match s with signingOff => false | _ => true end.

Inductive sign_error : Type :=
  | errSigningOff
  | errSigningKeyMissing
  | errSigningPubMissing
  | errNothingInstalled
  | errNotOnRecord
  | errLedgerDamaged (e : control_error)
  | SignLockHeld
  | SignStat
  | SignStore (e : config_error)
  | SignNoGenesis
  | SignKeyFile
  | SignPubFile
  | SignPairMismatch (derived keyID : string)
  | SignPayload (e : payload_error).

Definition fileExists (k : keyfile) : result sign_error bool :=
  match k with KeyAbsent => Ok false | KeyStatFault => Err SignStat | _ => Ok true end.

Definition signingStateOf (r : croot) : result sign_error signingState :=
  let! key := fileExists (rt_key r) in
  let! pub := fileExists (rt_pub r) in
  Ok (match key, pub with true, true => signingOn | true, false => signingKeyOnly | false, true => signingPubOnly | false, false => signingOff end).

Definition loadSigningPub (r : croot) : result sign_error string := match rt_pub r with KeyIs k => Ok k | _ => Err SignPubFile end.
Definition loadSigningKey (r : croot) : result sign_error string := match rt_key r with KeyIs k => Ok k | _ => Err SignKeyFile end.

Record signatureInfo : Type := MkSigInfo { si_Hash : string; si_Version : Z; si_KeyID : string; si_Payload : string; si_Sig : string }.

Section signing.
  Context `{Ed25519} (active : string).

(** The ledger as [buildSignature] classifies it. *)
Definition sign_records (lock : result ledger_error ()) (d : disk) : result sign_error (list string) :=
  match Read active lock d with
  | (v, None) => Ok (v_Records v)
  | (v, Some e) => if is_lock_held e then Err SignLockHeld else if is_not_exist e then Ok [] else Err (errLedgerDamaged e)
  end.

Definition buildSignature (r : croot) (lock : result ledger_error ()) : result sign_error signatureInfo :=
  let! state := signingStateOf r in
  match state with
  | signingOff => Err errSigningOff
  | signingPubOnly => Err errSigningKeyMissing
  | signingKeyOnly => Err errSigningPubMissing
  | signingOn =>
      match InstalledHash (rt_store r) with
      | Err e => Err (SignStore e)
      | Ok None => Err errNothingInstalled
      | Ok (Some hash) =>
          let! records := sign_records lock (rt_ledger r) in
          match LastInstalling records with
          | None => Err errNotOnRecord
          | Some last =>
              if negb (bool_decide (d_ConfigHash last = hash)) then Err errNotOnRecord
              else match GenesisLogID records with
                   | None => Err SignNoGenesis
                   | Some logID =>
                       let! priv := loadSigningKey r in
                       let! pub := loadSigningPub r in
                       let keyID := KeyID pub in
                       let derived := KeyID (ed_public priv) in
                       if negb (bool_decide (derived = keyID)) then Err (SignPairMismatch derived keyID)
                       else
                         match SignaturePayload hash logID (d_Seq last) (UTC (time_of (d_Time last))) keyID with
                         | Err e => Err (SignPayload e)
                         | Ok payload => Ok (MkSigInfo hash (d_Seq last) keyID payload (Sign priv payload))
                         end
                   end
          end
      end
  end.

Definition signInstalled (r : croot) (lock : result ledger_error ()) (write : bool) : result sign_error signatureInfo * croot :=
  match buildSignature r lock with
  | Err e => (Err e, r)
  | Ok info =>
      match WriteSignatureFile (rt_store r) (si_Hash info) (si_Payload info) (si_Sig info) write with
      | (Some e, s) => (Err (SignStore e), with_store r s)
      | (None, s) => (Ok info, with_store r s)
      end
  end.

(** [Ok None] is signing off. *)
Definition signIfConfigured (r : croot) (lock : result ledger_error ()) (write : bool) : result sign_error (option signatureInfo) * croot :=
  match signingStateOf r with
  | Err e => (Err e, r)
  | Ok state =>
      if negb (configured state) then (Ok None, r)
      else match signInstalled r lock write with
           | (Err e, r) => (Err e, r)
           | (Ok info, r) => (Ok (Some info), r)
           end
  end.

(** [cmdConfigSign] under the writer lock: the exit code. *)
Definition config_sign (r : croot) (lock : result ledger_error ()) (write : bool) : Z * croot :=
  match buildSignature r lock with
  | Err _ => (1, r)
  | Ok info =>
      if bool_decide (is_sigs (rt_store r) !! SignaturePath (si_Hash info) = Some (Some (SignatureFileBytes (si_Payload info) (si_Sig info)))) then (0, r)
      else match WriteSignatureFile (rt_store r) (si_Hash info) (si_Payload info) (si_Sig info) write with
           | (Some _, s) => (1, with_store r s)
           | (None, s) => (0, with_store r s)
           end
  end.
Definition cmdConfigSign (r : croot) (writer lock : result ledger_error ()) (write : bool) : Z * croot :=
  match writer with Err _ => (1, r) | Ok _ => config_sign r lock write end.

(** ** The pull *)
Inductive pullKind : Type :=
  | pulled
  | pullNothingInstalled
  | pullRefused
  | pullStoreUnusable
  | pullNotBundleable
  | pullLedgerDamaged
  | pullBusy
  | pullNotRecorded
  | pullNotSigned.

Record ConfigSignature : Type := MkConfigSig { cs_Format : string; cs_LogID : string; cs_KeyID : string; cs_Sig : string }.
Record ConfigSnapshot : Type := MkSnap { sn_Hash : string; sn_Version : Z; sn_InstalledAt : GoTime; sn_Files : bundle; sn_Signature : option ConfigSignature }.
Definition pullOutcome : Type := pullKind * option ConfigSnapshot.

Definition pullAllowed (roles : list RoleDef) (inv : Invoker) : bool := ControlAllows roles inv "pull" || ControlAllows roles inv "apply".

Definition bundleFailure (e : config_error) : pullOutcome :=
  (match e with NotBundleable _ => pullNotBundleable | _ => pullStoreUnusable end, None).

Definition servedSignature (s : istore) (hash logID : string) (version : Z) (at_ : GoTime) (pub : string) : result sig_fault ConfigSignature :=
  match verifySignatureFile s hash logID version at_ pub with
  | Err e => Err e
  | Ok f => Ok (MkConfigSig SignatureFormatV1 (sf_LogID f) (sf_KeyID f) (sf_Sig f))
  end.

Context `{GoText} `{ConfigYaml}.

(** The snapshot to serve, or the outcome; [authorize] is the invoker to
    authorize, none for the local reader. *)
Definition pull_bundle (s : istore) (authorize : option Invoker) : bundle * string + pullOutcome :=
  match authorize with
  | Some inv =>
      match InstalledRoles s with
      | Err _ => inr (pullStoreUnusable, None)
      | Ok None => inr (pullNothingInstalled, None)
      | Ok (Some (roles, h)) =>
          if negb (pullAllowed roles inv) then inr (pullRefused, None)
          else match SnapshotBundle s h with Err e => inr (bundleFailure e) | Ok files => inl (files, h) end
      end
  | None =>
      match InstalledBundle s with
      | Err e => inr (bundleFailure e)
      | Ok None => inr (pullNothingInstalled, None)
      | Ok (Some (files, h)) => inl (files, h)
      end
  end.

Definition all_text (files : bundle) : bool := List.forallb (fun f => valid_utf8 f.2) (map_to_list files).

(** Step 7: the signature, when signing is configured. *)
Definition pull_signed (r : croot) (records : list string) (last : DecodedEvent) (snap : ConfigSnapshot) : pullOutcome :=
  match signingStateOf r with
  | Err _ | Ok signingKeyOnly => (pullStoreUnusable, None)
  | Ok signingOff => (pulled, Some snap)
  | Ok _ =>
      match loadSigningPub r with
      | Err _ => (pullStoreUnusable, None)
      | Ok pub =>
          match GenesisLogID records with
          | None => (pullLedgerDamaged, None)
          | Some logID =>
              match servedSignature (rt_store r) (sn_Hash snap) logID (d_Seq last) (sn_InstalledAt snap) pub with
              | Err (SigVerdict _) => (pullNotSigned, None)
              | Err _ => (pullStoreUnusable, None)
              | Ok sig => (pulled, Some (MkSnap (sn_Hash snap) (sn_Version snap) (sn_InstalledAt snap) (sn_Files snap) (Some sig)))
              end
          end
      end
  end.

Definition pullConfig (r : croot) (authorize : option Invoker) (lock : result ledger_error ()) : pullOutcome :=
  match pull_bundle (rt_store r) authorize with
  | inr out => out
  | inl (files, hash) =>
      if negb (all_text files) then (pullNotBundleable, None)
      else
        let vouch records :=
          match LastInstalling records with
          | None => (pullNotRecorded, None)
          | Some last =>
              if negb (bool_decide (d_ConfigHash last = hash)) then (pullNotRecorded, None)
              else pull_signed r records last (MkSnap hash (d_Seq last) (UTC (time_of (d_Time last))) files None)
          end in
        match Read active lock (rt_ledger r) with
        | (v, None) => vouch (v_Records v)
        | (_, Some e) => if is_lock_held e then (pullBusy, None) else if is_not_exist e then vouch [] else (pullLedgerDamaged, None)
        end
  end.
End signing.

(** ** What is signed is accepted, what is served is vouched for *)
Section sound.
  Context `{Ed25519} (active : string).

Lemma sign_records_read lock d records last : sign_records active lock d = Ok records -> LastInstalling records = Some last ->
  on_record active lock d (d_ConfigHash last) records last.
Proof.
  unfold sign_records. destruct (Read active lock d) as [v [e|]] eqn:Er; [|intros [= <-] Hl; by exists v].
  destruct (is_lock_held e); [done|]. destruct (is_not_exist e); [|done]. by intros [= <-].
Qed.

(** What was built. *)
Lemma signature_built r lock info : buildSignature active r lock = Ok info ->
  exists priv pub records last logID, rt_key r = KeyIs priv /\ rt_pub r = KeyIs pub /\ KeyID (ed_public priv) = KeyID pub /\
    InstalledHash (rt_store r) = Ok (Some (si_Hash info)) /\ on_record active lock (rt_ledger r) (si_Hash info) records last /\ GenesisLogID records = Some logID /\
    SignaturePayload (si_Hash info) logID (d_Seq last) (UTC (time_of (d_Time last))) (KeyID pub) = Ok (si_Payload info) /\
    si_Version info = d_Seq last /\ si_KeyID info = KeyID pub /\ si_Sig info = Sign priv (si_Payload info).
Proof.
  unfold buildSignature. destruct (signingStateOf r) as [[]|]; try done. cbn [result_bind]. destruct (InstalledHash _) as [[hash|]|]; try done.
  destruct (sign_records _ _ _) as [records|] eqn:Er; [|done]. cbn [result_bind]. destruct (LastInstalling records) as [last|] eqn:El; [|done].
  case_bool_decide as Hc; [|done]. cbn [negb]. destruct (GenesisLogID records) as [logID|] eqn:Eg; [|done]. unfold loadSigningKey, loadSigningPub.
  destruct (rt_key r) as [| | |priv]; try done. destruct (rt_pub r) as [| | |pub]; try done. cbn [result_bind]. case_bool_decide as Hk; [|done]. cbn [negb].
  destruct (SignaturePayload _ _ _ _ _) as [p|] eqn:Ep; [|done]. intros [= <-]. exists priv, pub, records, last, logID.
  pose proof (sign_records_read _ _ _ _ Er El) as Hon. rewrite Hc in Hon. by repeat (split; [done|]).
Qed.

Context (Hed : forall priv m, String.length (ed_sign priv m) = SignatureSize /\ ed_verify (ed_public priv) m (ed_sign priv m) = true).

Lemma signed_install r lock info r' pub : signInstalled active r lock true = (Ok info, r') -> rt_pub r = KeyIs pub ->
  (exists priv, rt_key r = KeyIs priv /\ ed_public priv <> pub /\ KeyID (ed_public priv) = KeyID pub) \/
  exists records last logID, on_record active lock (rt_ledger r') (si_Hash info) records last /\ GenesisLogID records = Some logID /\
    signed_by (rt_store r') pub (si_Hash info) logID (d_Seq last) (UTC (time_of (d_Time last))) /\
    r' = with_store r (rt_store r') /\ is_current (rt_store r') = is_current (rt_store r) /\ is_dirs (rt_store r') = is_dirs (rt_store r).
Proof.
  unfold signInstalled. destruct (buildSignature _ _ _) as [i|] eqn:Eb; [|done]. intros E Hpub.
  apply signature_built in Eb as (priv & pub' & records & last & logID & Hpriv & Hpub' & Hid & _ & Hon & Hg & Hp & _ & _ & Hsig).
  assert (pub' = pub) as -> by congruence. unfold WriteSignatureFile in E. destruct (payload_built _ _ _ _ _ _ Hp) as (_ & Hh & _). rewrite Hh in E. cbn in E.
  injection E as <- <-. destruct (decide (ed_public priv = pub)) as [Epub|]; [|left; by exists priv]. right.
  exists records, last, logID. split; [done|]. split; [done|]. split; [|by split].
  destruct (Hed priv (si_Payload i)) as [Hlen Hver]. exists (si_Payload i), (si_Sig i). cbn [rt_store with_store is_sigs]. split; [apply lookup_insert_eq|].
  unfold Sign in Hsig. rewrite Hsig. split; [unfold sig_ok; by rewrite b64_roundtrip, Hlen|]. split; [apply b64_encode_plain|]. split; [done|].
  unfold Verify. rewrite b64_roundtrip, Hlen, <- Epub. exact Hver.
Qed.
End sound.

Section served.
  Context `{Ed25519} (active : string) `{GoText} `{ConfigYaml}.

(** The snapshot a pull starts from hashes as the pointer says. *)
Lemma bundle_hashes s authorize files hash : pull_bundle s authorize = inl (files, hash) ->
  InstalledHash s = Ok (Some hash) /\ HashFiles files = Ok hash /\
  match authorize with Some inv => exists roles, InstalledRoles s = Ok (Some (roles, hash)) /\ pullAllowed roles inv = true | None => True end.
Proof.
  assert (Hb : forall h fs, SnapshotBundle s h = Ok fs -> HashFiles fs = Ok h).
  { intros h fs. unfold SnapshotBundle. destruct (ReadBundle _) as [b|]; [|done]. cbn [result_bind]. destruct (HashFiles b) as [got|] eqn:E; [|done]. cbn [result_bind].
    case_bool_decide; [|done]. intros [= <-]. congruence. }
  unfold pull_bundle. destruct authorize as [inv|].
  - destruct (InstalledRoles s) as [[[roles h]|]|] eqn:Er; try done. destruct (pullAllowed roles inv) eqn:Ea; [|done]. cbn [negb].
    destruct (SnapshotBundle s h) as [fs|] eqn:Es; [|done]. intros [= -> ->]. split; [|split; [by apply Hb|by exists roles]].
    unfold InstalledRoles in Er. destruct (InstalledHash s) as [[h'|]|]; try done. cbn [result_bind] in Er. destruct (VerifyInstalled s h'); [|done]. cbn [result_bind] in Er.
    destruct (loadFiles _ _) as [cfg [|]]; [|done]. destruct (c_Roles cfg); [done|]. congruence.
  - destruct (InstalledBundle s) as [[[fs h]|]|] eqn:Eb; try done. intros [= -> ->]. unfold InstalledBundle in Eb.
    destruct (InstalledHash s) as [[h'|]|]; try done. cbn [result_bind] in Eb. destruct (SnapshotBundle s h') as [fs|] eqn:Es; [|done]. cbn [result_bind] in Eb.
    injection Eb as -> ->. split; [done|]. by split; [apply Hb|].
Qed.

Definition served (r : croot) (snap : ConfigSnapshot) (records : list string) (last : DecodedEvent) : Prop :=
  sn_Version snap = d_Seq last /\ sn_InstalledAt snap = UTC (time_of (d_Time last)) /\
  match signingStateOf r, sn_Signature snap with
  | Ok signingOff, None => True
  | Ok _, Some sig => exists pub logID, rt_pub r = KeyIs pub /\ GenesisLogID records = Some logID /\ cs_LogID sig = logID /\ cs_KeyID sig = KeyID pub /\
      signed_by (rt_store r) pub (sn_Hash snap) logID (d_Seq last) (sn_InstalledAt snap)
  | _, _ => False
  end.

Lemma verified_key s hash logID version t pub f : verifySignatureFile s hash logID version t pub = Ok f -> sf_KeyID f = KeyID pub.
Proof.
  unfold verifySignatureFile. destruct (is_sigs s !! _) as [[data|]|]; [|done..]. destruct (ParseSignatureFile data) as [g|]; [|done].
  case_bool_decide as Hk; [|done]. cbn [negb]. destruct (SignaturePayload _ _ _ _ _); [|done]. case_bool_decide; [|by repeat case_match].
  cbn [negb]. destruct (Verify _ _ _); [|done]. by intros [= <-].
Qed.

Lemma pull_signed_serves r records last snap snap' : sn_Version snap = d_Seq last -> sn_InstalledAt snap = UTC (time_of (d_Time last)) -> sn_Signature snap = None ->
  pull_signed r records last snap = (pulled, Some snap') ->
  served r snap' records last /\ sn_Hash snap' = sn_Hash snap /\ sn_Files snap' = sn_Files snap.
Proof.
  intros Hv Ht Hn. unfold pull_signed, served. destruct (signingStateOf r) as [[]|] eqn:Est; try done.
  - intros [= <-]. by rewrite Hn.
  - unfold loadSigningPub. destruct (rt_pub r) as [| | |pub]; try done. destruct (GenesisLogID records) as [logID|]; [|done]. unfold servedSignature.
    destruct (verifySignatureFile _ _ _ _ _ _) as [f|[]] eqn:Ef; try done. intros [= <-]. cbn. pose proof (verified_key _ _ _ _ _ _ _ Ef).
    apply verify_file in Ef as (Hs & Hl & _). split; [|done]. split; [done|]. split; [done|]. by exists pub, logID.
  - unfold loadSigningPub. destruct (rt_pub r) as [| | |pub]; try done. destruct (GenesisLogID records) as [logID|]; [|done]. unfold servedSignature.
    destruct (verifySignatureFile _ _ _ _ _ _) as [f|[]] eqn:Ef; try done. intros [= <-]. cbn. pose proof (verified_key _ _ _ _ _ _ _ Ef).
    apply verify_file in Ef as (Hs & Hl & _). split; [|done]. split; [done|]. split; [done|]. by exists pub, logID.
Qed.

(** A pull serves only what is installed, vouched for and signed: the
    files hash to the pointer's hash, the ledger reads clean with that hash as
    its last install, version and time are that record's, the invoker's roles
    in the installed configuration grant it when one is asked for, and with
    signing configured the answer carries a signature of this install that
    verifies under [signing.pub]. *)
Theorem pull_serves_vouched (r : croot) (authorize : option Invoker) (lock : result ledger_error ()) (snap : ConfigSnapshot)
  (Hp : pullConfig active r authorize lock = (pulled, Some snap)) :
  InstalledHash (rt_store r) = Ok (Some (sn_Hash snap)) /\ HashFiles (sn_Files snap) = Ok (sn_Hash snap) /\
  (exists records last, on_record active lock (rt_ledger r) (sn_Hash snap) records last /\ served r snap records last) /\
  match authorize with Some inv => exists roles, InstalledRoles (rt_store r) = Ok (Some (roles, sn_Hash snap)) /\ pullAllowed roles inv = true | None => True end.
Proof.
  unfold pullConfig in Hp. destruct (pull_bundle _ _) as [[files hash]|[[] []]] eqn:Eb; try done; [|by destruct authorize; cbn in Eb; repeat case_match].
  apply bundle_hashes in Eb as (Hi & Hh & Ha). destruct (all_text files); [|done]. cbn [negb] in Hp.
  assert (Hgo : forall records last, on_record active lock (rt_ledger r) hash records last ->
    pull_signed r records last (MkSnap hash (d_Seq last) (UTC (time_of (d_Time last))) files None) = (pulled, Some snap) ->
    sn_Hash snap = hash /\ sn_Files snap = files /\ served r snap records last).
  { intros records last _ Hs. by apply pull_signed_serves in Hs as (? & ? & ?). }
  destruct (Read active lock (rt_ledger r)) as [v [e|]] eqn:Er; [by destruct (is_lock_held e); [|destruct (is_not_exist e)]|].
  destruct (LastInstalling (v_Records v)) as [last|] eqn:El; [|done]. case_bool_decide as Hc; [|done]. cbn [negb] in Hp.
  assert (Hon : on_record active lock (rt_ledger r) hash (v_Records v) last) by (by exists v).
  destruct (Hgo _ _ Hon Hp) as (-> & -> & Hs). split; [done|]. split; [done|]. split; [by exists (v_Records v), last|done].
Qed.

(** C17: what the host signs, an execution point accepts and the pull serves.
    Right after a sign step that reports success, a point that pins
    [signing.pub] and whose floor admits the version passes the pinned verify,
    and a pull whose bundle is readable text answers with the signature.  The
    sign step compares the two key files by their ids alone, so the one way out
    is that the host's own private key belongs to another public key than
    [signing.pub] with the same SHA-256. *)
Theorem signed_install_is_accepted (r r' : croot) (lock : result ledger_error ()) (info : signatureInfo) (pub : string)
  (Hed : forall priv m, String.length (ed_sign priv m) = SignatureSize /\ ed_verify (ed_public priv) m (ed_sign priv m) = true)
  (Hs : signInstalled active r lock true = (Ok info, r')) (Hpub : rt_pub r = KeyIs pub) :
  (exists priv, rt_key r = KeyIs priv /\ ed_public priv <> pub /\ KeyID (ed_public priv) = KeyID pub) \/ exists logID,
    (forall mode write, floor_admits r' logID (si_Version info) mode write -> (pinnedVerify active r' lock (si_Hash info) pub mode write).1 = Ok None) /\
    (forall authorize files, pull_bundle (rt_store r') authorize = inl (files, si_Hash info) -> all_text files = true ->
      exists at_ sig, pullConfig active r' authorize lock =
        (pulled, Some (MkSnap (si_Hash info) (si_Version info) at_ files (Some (MkConfigSig SignatureFormatV1 logID (KeyID pub) sig))))).
Proof.
  pose proof Hs as Hb. unfold signInstalled in Hb. destruct (buildSignature active r lock) as [i|] eqn:Eb; [|done].
  assert (i = info) as -> by (by destruct (WriteSignatureFile _ _ _ _ _) as [[]]; simplify_eq).
  apply signature_built in Eb as (priv & pub' & records' & last' & logID' & Hkey & Hpub' & _ & _ & Hon' & Hg' & Hpl & Hver & _).
  destruct (signed_install active Hed r lock info r' pub Hs Hpub) as [?|(records & last & logID & Hon & Hg & Hsig & Hr' & _)]; [by left|]. right.
  assert (rt_ledger r' = rt_ledger r) as El by (by rewrite Hr'). rewrite <- El in Hon'. destruct (on_record_unique _ _ _ _ _ _ _ _ _ Hon Hon') as (_ & <- & <-).
  rewrite Hver. exists logID. split.
  - intros mode write Hf. apply pinned_passes. exists records, last. split; [done|]. by exists logID.
  - intros authorize files Hbun Htext. destruct (signed_verifies _ _ _ _ _ _ (on_record_seq _ _ _ _ _ _ Hon) Hsig) as (f & Hf & Hfl & _).
    pose proof (verified_key _ _ _ _ _ _ _ Hf) as Hfk. eexists _, _. unfold pullConfig. rewrite Hbun, Htext. cbn [negb]. destruct Hon as (v & Hrd & <- & Hl & Hc). rewrite Hrd, Hl.
    rewrite bool_decide_true by done. cbn [negb]. unfold pull_signed, signingStateOf, loadSigningPub. rewrite Hr'. cbn [rt_key rt_pub with_store]. rewrite Hkey, Hpub. cbn [fileExists result_bind].
    rewrite Hg. cbn [sn_Hash sn_InstalledAt sn_Version sn_Files]. unfold servedSignature. rewrite <- Hr', Hf, Hfl, Hfk. reflexivity.
Qed.
End served.

(** ** Witnesses *)
Definition ex_unsigned : croot := MkRoot (MkIStore (is_current ex_store) (is_dirs ex_store) ∅) ex_ledger (KeyIs "k") (KeyIs "k") KeyAbsent None.
Definition ex_info : signatureInfo := MkSigInfo ex_installed 1 (KeyID "k") ex_signed (Sign (H := toy_ed) "k" ex_signed).
Definition ex_host : croot := with_store ex_unsigned ex_store.

Lemma ex_signs : signInstalled (H := toy_ed) ex_active ex_unsigned (Ok ()) true = (Ok ex_info, ex_host).
Proof. vm_compute. reflexivity. Qed.

Lemma signed_install_is_accepted_witness :
  (exists priv, rt_key ex_unsigned = KeyIs priv /\ ed_public (Ed25519 := toy_ed) priv <> "k" /\ KeyID (ed_public (Ed25519 := toy_ed) priv) = KeyID "k") \/ exists logID,
    (forall mode write, floor_admits ex_host logID 1 mode write -> (pinnedVerify (H := toy_ed) ex_active ex_host (Ok ()) ex_installed "k" mode write).1 = Ok None) /\
    (forall authorize files, pull_bundle (H0 := toy_text) (H1 := toy_yaml) (rt_store ex_host) authorize = inl (files, ex_installed) -> all_text files = true ->
      exists at_ sig, pullConfig (H := toy_ed) (H0 := toy_text) (H1 := toy_yaml) ex_active ex_host authorize (Ok ()) =
        (pulled, Some (MkSnap ex_installed 1 at_ files (Some (MkConfigSig SignatureFormatV1 logID (KeyID "k") sig))))).
Proof.
  exact (signed_install_is_accepted (H := toy_ed) ex_active (H0 := toy_text) (H1 := toy_yaml) ex_unsigned ex_host (Ok ()) ex_info "k" toy_ed_signs ex_signs eq_refl).
Defined.

Definition ex_snap : ConfigSnapshot :=
  MkSnap ex_installed 1 (UTC (time_of "2026-01-02T03:04:05Z")) {["roles/ops.yaml" := "ops"]}
    (Some (MkConfigSig SignatureFormatV1 ex_logid (KeyID "k") (Sign (H := toy_ed) "k" ex_signed))).
Lemma ex_pulls : pullConfig (H := toy_ed) (H0 := toy_text) (H1 := toy_yaml) ex_active ex_host None (Ok ()) = (pulled, Some ex_snap).
Proof. vm_compute. reflexivity. Qed.

Lemma pull_serves_vouched_witness :
  exists records last, on_record ex_active (Ok ()) (rt_ledger ex_host) (sn_Hash ex_snap) records last /\ served (H := toy_ed) ex_host ex_snap records last.
Proof.
  exact (proj1 (proj2 (proj2 (pull_serves_vouched (H := toy_ed) ex_active (H0 := toy_text) (H1 := toy_yaml) ex_host None (Ok ()) ex_snap ex_pulls)))).
Defined.
