(* ===== verification/Identity.v ===== *)
(** * Who a command runs as ([internal/identity]: [oidc.go], [cached.go];
      [resolveInvoker] of [cmd/agenthof/identity.go])

    A token is verified against the configured issuer's keys and one of two
    audiences, and only a verified token yields an identity with groups of its
    own; without a token the identity is the one the caller asserts.  A server
    keeps the provider it discovered.

    go-oidc (discovery, signatures, expiry, claims) is a class; what a
    discovery answers is an argument of each call. *)
From S2P Require Import Prelude Sha256 GoStr Json Paths Ledger Config Origin Event Attest.

(** A verified token: its audiences, its subject, the email and the groups it
    claims ([None] when they do not decode). *)
Record IDToken : Type := MkIDToken { it_Audience : list string; it_Subject : string; it_Claims : option (string * list string) }.

(** [oidc_Verify p (Some id)] is a verifier configured with a client id,
    [None] one that skips the audience check. *)
Class OidcLib := { provider : Type; oidc_Verify : provider -> option string -> string -> option IDToken }.

(** go-oidc's documented client id check. *)
Definition client_id_checked `{OidcLib} : Prop :=
  forall p id raw t, oidc_Verify p (Some id) raw = Some t <-> id <> "" /\ oidc_Verify p None raw = Some t /\ id ∈ it_Audience t.

Record OIDC : Type := MkOIDC { o_IssuerURL : string; o_ClientID : string; o_Audience : string }.
Inductive oidc_error : Type := DiscoveryFailed | ProviderUnavailable | TokenRejected | AudienceRejected | ClaimsRejected.

Section oidc.
  Context `{OidcLib}.

(** The first half of [OIDC.verify]: the token and its audience. *)
Definition accepted_token (o : OIDC) (p : provider) (raw : string) : result oidc_error IDToken :=
  if bool_decide (o_Audience o = "") then match oidc_Verify p (Some (o_ClientID o)) raw with Some t => Ok t | None => Err TokenRejected end
  else match oidc_Verify p None raw with
       | None => Err TokenRejected
       | Some t =>
           let clientIDMatch := negb (bool_decide (o_ClientID o = "")) && contains (it_Audience t) (o_ClientID o) in
           if negb clientIDMatch && negb (contains (it_Audience t) (o_Audience o)) then Err AudienceRejected else Ok t
       end.

(** [OIDC.verify] *)
Definition verify_token (o : OIDC) (p : provider) (raw : string) : result oidc_error Invoker :=
  let! t := accepted_token o p raw in
  match it_Claims t with
  | None => Err ClaimsRejected
  | Some (email, groups) => Ok (MkInvoker (if bool_decide (email = "") then it_Subject t else email) (o_IssuerURL o) "oidc" groups)
  end.

(** [discover] is what a discovery of an issuer answers. *)
Definition Authenticate (o : OIDC) (discover : string -> option provider) (raw : string) : result oidc_error Invoker :=
  match discover (o_IssuerURL o) with None => Err DiscoveryFailed | Some p => verify_token o p raw end.

(** ** The cached provider *)
Definition providerFor (o : OIDC) (cached : option provider) (discover : string -> option provider) : option provider * option provider :=
  match cached with
  | Some p => (Some p, cached)
  | None => match discover (o_IssuerURL o) with None => (None, None) | Some p => (Some p, Some p) end
  end.
Definition CachedAuthenticate (o : OIDC) (cached : option provider) (discover : string -> option provider) (raw : string) : result oidc_error Invoker * option provider :=
  match providerFor o cached discover with
  | (None, c) => (Err ProviderUnavailable, c)
  | (Some p, c) => (verify_token o p raw, c)
  end.

(** ** The invoker of a command *)
Record oidc_env : Type := MkOidcEnv { oe_Token : string; oe_Issuer : string; oe_ClientID : string; oe_Audience : string; oe_User : string }.
Record runInvoker : Type := MkRunInvoker { ri_inv : Invoker; ri_assertedAs : string; ri_refused : bool; ri_usageErr : bool; ri_subjectToken : string }.

(** [--groups], split at commas and trimmed. *)
Definition asserted_groups (groups : string) : list string := List.filter (fun g => negb (bool_decide (g = ""))) (map TrimSpace (split_on "," groups)).
Definition raw_token (env : oidc_env) (token : string) : string := if bool_decide (token = "") then oe_Token env else token.
Definition client_id (env : oidc_env) : string := if bool_decide (oe_ClientID env = "") then "agenthof" else oe_ClientID env.

Definition resolveInvokerForRun (env : oidc_env) (discover : string -> option provider) (as_ groups token : string) : runInvoker :=
  let rawToken := raw_token env token in
  if negb (bool_decide (rawToken = "")) then
    if bool_decide (oe_Issuer env = "") then MkRunInvoker (MkInvoker "" "" "" []) "" false true ""
    else
      match Authenticate (MkOIDC (oe_Issuer env) (client_id env) (oe_Audience env)) discover rawToken with
      | Err _ => MkRunInvoker (MkInvoker "(unverified)" (oe_Issuer env) "oidc-rejected" []) "" true false ""
      | Ok authInv => MkRunInvoker authInv as_ false false rawToken
      end
  else
    let inv := Static (oe_User env) as_ in
    MkRunInvoker (MkInvoker (i_Subject inv) (i_Issuer inv) (i_Method inv) (asserted_groups groups)) "" false false "".
End oidc.

(** ** What a token proves *)
Section proofs.
  Context `{OidcLib} (Hlib : client_id_checked).

Definition addressed (o : OIDC) (t : IDToken) : Prop :=
  o_ClientID o <> "" /\ o_ClientID o ∈ it_Audience t \/ o_Audience o <> "" /\ o_Audience o ∈ it_Audience t.

(** A token the provider verified, for the client or for the audience of the
    deployment, whose claims name [inv]. *)
Definition attested (o : OIDC) (p : provider) (raw : string) (inv : Invoker) : Prop :=
  exists t email groups, oidc_Verify p None raw = Some t /\ addressed o t /\ it_Claims t = Some (email, groups) /\
    inv = MkInvoker (if bool_decide (email = "") then it_Subject t else email) (o_IssuerURL o) "oidc" groups.

Lemma token_accepted o p raw t : accepted_token o p raw = Ok t <-> oidc_Verify p None raw = Some t /\ addressed o t.
Proof using Hlib.
  unfold accepted_token, addressed. case_bool_decide as Ha.
  - specialize (Hlib p (o_ClientID o) raw). destruct (oidc_Verify p (Some (o_ClientID o)) raw) as [t'|].
    + destruct (proj1 (Hlib t') eq_refl) as (Hid & Hv & Hin). rewrite Hv. split; [intros [= <-]; auto|]. by intros [[= <-] _].
    + split; [done|]. intros [Hv [[Hid Hin]|[? _]]]; [|done]. by pose proof (proj2 (Hlib t) (conj Hid (conj Hv Hin))).
  - destruct (oidc_Verify p None raw) as [t'|]; [|split; [done|by intros [? _]]]. unfold contains. repeat case_bool_decide; cbn [negb andb].
    all: split; [first [done|intros [= <-]; auto]|]; intros [[= <-] ?]; tauto || done.
Qed.

Lemma verify_attested o p raw inv : verify_token o p raw = Ok inv <-> attested o p raw inv.
Proof using Hlib.
  unfold verify_token, attested. split.
  - destruct (accepted_token o p raw) as [t|] eqn:E; [|done]. apply token_accepted in E as [Hv Ha]. cbn [result_bind].
    destruct (it_Claims t) as [[email groups]|] eqn:Ec; [|done]. intros [= <-]. by exists t, email, groups.
  - intros (t & email & groups & Hv & Ha & Hc & ->). rewrite (proj2 (token_accepted o p raw t) (conj Hv Ha)). cbn [result_bind]. by rewrite Hc.
Qed.

(** C20: only a verified token names an invoker.  With a token, given or from
    the environment, and an issuer, the command runs as the token's subject
    with the token's groups, keeping the token, exactly when the configured
    issuer's provider verifies it, it is addressed to the client or to the
    configured audience, and its claims decode; any other token is refused, and
    what is recorded for it carries no subject, no groups and no token.  [--as]
    and [--groups] are an identity only when there is no token, and then it is
    marked asserted and local. *)
Theorem token_names_the_invoker (env : oidc_env) (discover : string -> option provider) (as_ groups token : string) :
  let raw := raw_token env token in
  let o := MkOIDC (oe_Issuer env) (client_id env) (oe_Audience env) in
  let r := resolveInvokerForRun env discover as_ groups token in
  (raw = "" -> r = MkRunInvoker (MkInvoker (i_Subject (Static (oe_User env) as_)) "local" "asserted" (asserted_groups groups)) "" false false "") /\
  (raw <> "" -> oe_Issuer env = "" -> ri_usageErr r = true) /\
  (raw <> "" -> oe_Issuer env <> "" -> forall inv,
    (exists p, discover (oe_Issuer env) = Some p /\ attested o p raw inv) <-> r = MkRunInvoker inv as_ false false raw) /\
  (raw <> "" -> oe_Issuer env <> "" -> (forall p inv, discover (oe_Issuer env) = Some p -> ~ attested o p raw inv) ->
    r = MkRunInvoker (MkInvoker "(unverified)" (oe_Issuer env) "oidc-rejected" []) "" true false "").
Proof using Hlib.
  cbn zeta. unfold resolveInvokerForRun, Authenticate. cbn [o_IssuerURL]. split_and!.
  - intros ->. by rewrite bool_decide_true.
  - intros Hr Hi. by rewrite bool_decide_false, bool_decide_true.
  - intros Hr Hi inv. rewrite !bool_decide_false by done. cbn [negb]. destruct (discover (oe_Issuer env)) as [p|].
    + destruct (verify_token _ p _) as [inv'|] eqn:Ev; rewrite <- ?verify_attested.
      * apply verify_attested in Ev. split; [|intros [= <-]; by exists p]. intros (p' & [= <-] & Ha). apply verify_attested in Ev, Ha. congruence.
      * split; [|done]. intros (p' & [= <-] & Ha). apply verify_attested in Ha. congruence.
    + split; [by intros (? & ? & _)|done].
  - intros Hr Hi Hno. rewrite !bool_decide_false by done. cbn [negb]. destruct (discover (oe_Issuer env)) as [p|]; [|done].
    destruct (verify_token _ p _) as [inv'|] eqn:Ev; [|done]. apply verify_attested in Ev. by destruct (Hno p inv').
Qed.
End proofs.

(** ** The cache *)
Section cache.
  Context `{OidcLib} (o : OIDC).

(** A server's requests in turn: what a discovery would answer, and the token. *)
Fixpoint serve_tokens (cached : option provider) (reqs : list ((string -> option provider) * string)) : list (result oidc_error Invoker) :=
  match reqs with
  | [] => []
  | (discover, raw) :: rest => let '(res, cached) := CachedAuthenticate o cached discover raw in res :: serve_tokens cached rest
  end.

(** Unavailable until a discovery of the configured issuer answers, then that
    provider for good. *)
Fixpoint first_provider (reqs : list ((string -> option provider) * string)) : list (result oidc_error Invoker) :=
  match reqs with
  | [] => []
  | (discover, raw) :: rest =>
      match discover (o_IssuerURL o) with
      | None => Err ProviderUnavailable :: first_provider rest
      | Some p => map (fun req => verify_token o p req.2) reqs
      end
  end.

(** A server's token verifier is the first provider it found.  Every
    request before a discovery of the configured issuer succeeds is answered as
    unavailable, never as a verdict on the token, and a failure is not kept;
    from the first success on, each token is judged by that provider, whatever
    later discoveries would have said. *)
Theorem cached_provider_is_stable (reqs : list ((string -> option provider) * string)) : serve_tokens None reqs = first_provider reqs.
Proof.
  assert (Hc : forall p reqs, serve_tokens (Some p) reqs = map (fun req => verify_token o p req.2) reqs).
  { intros p. induction reqs0 as [|[discover raw] rest IH]; [done|]. cbn. by rewrite IH. }
  induction reqs as [|[discover raw] rest IH]; [done|]. cbn [serve_tokens first_provider]. unfold CachedAuthenticate, providerFor.
  destruct (discover (o_IssuerURL o)) as [p|]; [|by rewrite IH]. by rewrite Hc.
Qed.
End cache.

(** A provider that accepts one token. *)
Definition toy_oidc : OidcLib := {|
  provider := unit;
  oidc_Verify := fun _ id raw =>
    let t := MkIDToken ["agenthof"] "u-1" (Some ("", ["ops"])) in
    if bool_decide (raw = "good") && match id with Some id => contains (it_Audience t) id && negb (bool_decide (id = "")) | None => true end then Some t else None |}.
Lemma toy_oidc_checked : @client_id_checked toy_oidc.
Proof.
  intros [] id raw t. unfold oidc_Verify. cbn. case_bool_decide; cbn [andb]; [|split; [done|by intros (_ & ? & _)]]. unfold contains. case_bool_decide as Hin; cbn [andb negb].
  - case_bool_decide as Hid; cbn [negb]; [split; [done|by intros (? & _)]|]. split; [intros [= <-]; done|]. by intros (_ & [= <-] & _).
  - split; [done|]. by intros (_ & [= <-] & ?).
Qed.

Lemma token_names_the_invoker_witness :
  resolveInvokerForRun (H := toy_oidc) (MkOidcEnv "good" "https://idp" "" "" "ann") (fun _ => Some tt) "bob" "root" "" =
  MkRunInvoker (MkInvoker "u-1" "https://idp" "oidc" ["ops"]) "bob" false false "good".
Proof.
  destruct (token_names_the_invoker (H := toy_oidc) toy_oidc_checked (MkOidcEnv "good" "https://idp" "" "" "ann") (fun _ => Some tt) "bob" "root" "") as (_ & _ & Hv & _).
  apply Hv; [by vm_compute|by vm_compute|]. exists tt. split; [done|]. exists (MkIDToken ["agenthof"] "u-1" (Some ("", ["ops"]))), "", ["ops"].
  split_and!; [by vm_compute| |done|done]. left. split; [by vm_compute|]. vm_compute. by left.
Defined.
