(* ===== verification/Integrity.v ===== *)
(** * The integrity posture ([internal/config/integrity.go], [loadIntegrity] of
      [cmd/agenthof/integrity.go])

    [integrity.yaml] beside the control ledger says where the ledger's bytes
    live and what pins its head.  Every control command reads it before it
    touches the ledger; a posture the build cannot honour is an error, never
    the floor.  The walk over the document's nodes that refuses unknown keys,
    the value rules, the retention's grammar and its bounds.

    yaml.v3's parser and its decoding of a node into the fields are a class;
    texts of errors are left out. *)
From S2P Require Import Prelude Sha256 GoStr Json Paths Ledger Config Origin Event Attest ControlRecord Manifest Snapshot Times Signed.

Record BackendCredential : Type := MkCredential {
  bc_CredentialSource : string; bc_TokenEnv : string; bc_GrantType : string; bc_ClientAuth : string; bc_Issuer : string; bc_TokenEndpoint : string;
  bc_ClientIDEnv : string; bc_ClientSecretEnv : string; bc_Scope : string; bc_Audience : string;
}.
Record IntegrityBackend : Type := MkBackend {
  ib_Kind : string; ib_URL : string; ib_Region : string; ib_Mode : string; ib_Retention : string; ib_Credential : BackendCredential;
}.
Record Integrity : Type := MkIntegrity {
  in_Sink : string; in_Anchor : string; in_AnchorRuns : string; in_Duplicate : list IntegrityBackend; in_SinkBackend : IntegrityBackend; in_AnchorBackend : IntegrityBackend;
}.
#[global] Instance credential_eq_dec : EqDecision BackendCredential.
Proof. solve_decision. Defined.
#[global] Instance backend_eq_dec : EqDecision IntegrityBackend.
Proof. solve_decision. Defined.

Definition zeroCredential : BackendCredential := MkCredential "" "" "" "" "" "" "" "" "" "".
Definition zeroBackend : IntegrityBackend := MkBackend "" "" "" "" "" zeroCredential.
Definition zeroIntegrity : Integrity := MkIntegrity "" "" "" [] zeroBackend zeroBackend.

Definition IsSet (b : IntegrityBackend) : bool := negb (bool_decide (b = zeroBackend)).

(** ** Retention *)
Definition RetentionDay : Z := 24 * 3600 * 1000000000.
Definition RetentionYear : Z := 365 * RetentionDay.
Definition RetentionMin : Z := RetentionDay.
Definition RetentionMax : Z := 100 * RetentionYear.

Inductive retention_error : Type := RetentionRequired | RetentionForm | RetentionExceeds | RetentionBelow.

(** The digits, without a leading zero, and the unit of the final [d] or [y]. *)
Definition retentionForm (s : string) : option (string * Z) :=
  let form u unit := let m := trim_suffix s u in if has_suffix s u && versionRE m then Some (m, unit) else None in
  match form "d" RetentionDay with Some m => Some m | None => form "y" RetentionYear end.

Definition ParseRetention (s : string) : result retention_error Z :=
  if bool_decide (s = "") then Err RetentionRequired
  else match retentionForm s with
       | None => Err RetentionForm
       | Some (m, unit) =>
           match parse_int64 m with
           | None => Err RetentionExceeds
           | Some n =>
               if RetentionMax / unit <? n then Err RetentionExceeds
               else let d := wrap64 (n * unit) in if d <? RetentionMin then Err RetentionBelow else Ok d
           end
       end.

(** ** The value rules *)
Inductive posture_error : Type :=
  | SinkReserved (s : string) | SinkUnknown (s : string) | AnchorReserved | AnchorUnknown (s : string)
  | RunsWithoutAnchor | RunsUnknown (s : string) | DuplicateReserved (n : nat) | BackendUnused (which : string)
  | BackendUnset (which : string) | KindReserved (s : string) | KindUnknown (s : string) | URLRequired | URLBad (s : string) | NoBucket (s : string)
  | ForeignCoordinate (name : string) | ModeRequired | ModeRefused (s : string) | ModeUnknown (s : string) | BadRetention (e : retention_error) | RegionBad (s : string)
  | GrantUnsupported (s : string) | SourceUnsupported (s : string) | NotSigV4 | KeyPairRequired | CredentialUnused (name : string).

(** Rules in order, the first fault reported. *)
Fixpoint first_fault {E} (rules : list (option E)) : option E :=
  match rules with [] => None | Some e :: _ => Some e | None :: rest => first_fault rest end.
Definition unless {E} (ok : bool) (e : E) : option E := if ok then None else Some e.
Definition is_empty (s : string) : bool := bool_decide (s = "").

(** The first of some named values that is set. *)
Definition first_set {E} (err : string -> E) (coords : list (string * string)) : option E :=
  first_fault (map (fun c => unless (is_empty c.2) (err c.1)) coords).

Section posture.
  Context `{GoURL}.

Definition isBackendURL (s : string) : bool :=
  match parse_url s with
  | None => false
  | Some u =>
      (bool_decide (u_Scheme u = "http") || bool_decide (u_Scheme u = "https")) && negb (is_empty (u_Host u)) &&
      negb (u_User u) && is_empty (u_RawQuery u) && negb (u_ForceQuery u) && is_empty (u_Fragment u)
  end.

Definition validateAnchorBackend (b : IntegrityBackend) : option posture_error :=
  let c := ib_Credential b in
  first_fault
    [ unless (IsSet b) (BackendUnset "anchor_backend");
      (if is_empty (ib_Kind b) || bool_decide (ib_Kind b = "transparency-log") then None
       else Some (if bool_decide (ib_Kind b = "rfc3161") then KindReserved (ib_Kind b) else KindUnknown (ib_Kind b)));
      unless (negb (is_empty (ib_URL b))) URLRequired;
      unless (isBackendURL (ib_URL b)) (URLBad (ib_URL b));
      first_set ForeignCoordinate [("region", ib_Region b); ("mode", ib_Mode b); ("retention", ib_Retention b)];
      unless (is_empty (bc_GrantType c) || bool_decide (bc_GrantType c = "client_credentials")) (GrantUnsupported (bc_GrantType c));
      unless (is_empty (bc_CredentialSource c) || bool_decide (bc_CredentialSource c = "static_env")) (SourceUnsupported (bc_CredentialSource c)) ].

(** [^[a-z0-9-]+$] *)
Definition region_char (c : ascii) : bool := is_digit c || ascii_eqb c "-" || ((97 <=? Z.of_N (N_of_ascii c)) && (Z.of_N (N_of_ascii c) <=? 122)).
Definition regionName (s : string) : bool := negb (is_empty s) && all_chars region_char s.

Definition validateSinkBackend (b : IntegrityBackend) : option posture_error :=
  let c := ib_Credential b in
  first_fault
    [ unless (IsSet b) (BackendUnset "sink_backend");
      (if bool_decide (ib_Kind b = "s3-object-lock") then None
       else Some (if contains ["azure-immutable-blob"; "gcs-bucket-lock"] (ib_Kind b) then KindReserved (ib_Kind b) else KindUnknown (ib_Kind b)));
      unless (negb (is_empty (ib_URL b))) URLRequired;
      unless (isBackendURL (ib_URL b)) (URLBad (ib_URL b));
      unless (match parse_url (ib_URL b) with Some u => negb (all_slashes (u_Path u)) | None => false end) (NoBucket (ib_URL b));
      (if bool_decide (ib_Mode b = "compliance") then None
       else Some (if is_empty (ib_Mode b) then ModeRequired else if bool_decide (ib_Mode b = "governance") then ModeRefused (ib_Mode b) else ModeUnknown (ib_Mode b)));
      match ParseRetention (ib_Retention b) with Ok _ => None | Err e => Some (BadRetention e) end;
      unless (is_empty (ib_Region b) || regionName (ib_Region b)) (RegionBad (ib_Region b));
      unless (is_empty (bc_CredentialSource c) || bool_decide (bc_CredentialSource c = "static_env")) (SourceUnsupported (bc_CredentialSource c));
      unless (is_empty (bc_GrantType c)) (GrantUnsupported (bc_GrantType c));
      unless (bool_decide (bc_ClientAuth c = "sigv4")) NotSigV4;
      unless (negb (is_empty (bc_ClientIDEnv c)) && negb (is_empty (bc_ClientSecretEnv c))) KeyPairRequired;
      first_set CredentialUnused [("issuer", bc_Issuer c); ("token_endpoint", bc_TokenEndpoint c); ("scope", bc_Scope c); ("audience", bc_Audience c)] ].

Definition ValidateIntegrity (i : Integrity) : option posture_error :=
  first_fault
    [ (if contains [""; "local"] (in_Sink i) then None
       else if bool_decide (in_Sink i = "worm") then validateSinkBackend (in_SinkBackend i)
       else Some (if contains ["external"; "duplicate"] (in_Sink i) then SinkReserved (in_Sink i) else SinkUnknown (in_Sink i)));
      (if contains [""; "none"] (in_Anchor i) then None
       else if bool_decide (in_Anchor i = "signed") then Some AnchorReserved
       else if bool_decide (in_Anchor i = "tlog") then validateAnchorBackend (in_AnchorBackend i)
       else Some (AnchorUnknown (in_Anchor i)));
      (if contains [""; "none"] (in_AnchorRuns i) then None
       else if bool_decide (in_AnchorRuns i = "on-demand") then unless (bool_decide (in_Anchor i = "tlog")) RunsWithoutAnchor
       else Some (RunsUnknown (in_AnchorRuns i)));
      unless (Nat.eqb (length (in_Duplicate i)) 0) (DuplicateReserved (length (in_Duplicate i)));
      unless (bool_decide (in_Sink i = "worm") || negb (IsSet (in_SinkBackend i))) (BackendUnused "sink_backend");
      unless (bool_decide (in_Anchor i = "tlog") || negb (IsSet (in_AnchorBackend i))) (BackendUnused "anchor_backend") ].
End posture.

(** ** The document *)
Inductive ykind : Type := DocumentNode | SequenceNode | MappingNode | ScalarNode | AliasNode.
#[global] Instance ykind_eq_dec : EqDecision ykind.
Proof. solve_decision. Defined.

(** A yaml.v3 node: [n_null] is that its short tag is [!!null]; a mapping's
    content alternates keys and values. *)
Inductive ynode : Type := MkNode (kind : ykind) (null : bool) (line : Z) (value : string) (content : list ynode).
Definition n_Kind (n : ynode) : ykind := let '(MkNode k _ _ _ _) := n in k.
Definition n_null (n : ynode) : bool := let '(MkNode _ b _ _ _) := n in b.
Definition n_Line (n : ynode) : Z := let '(MkNode _ _ l _ _) := n in l.
Definition n_Value (n : ynode) : string := let '(MkNode _ _ _ v _) := n in v.
Definition n_Content (n : ynode) : list ynode := let '(MkNode _ _ _ _ c) := n in c.

Definition isNull (n : ynode) : bool := bool_decide (n_Kind n = ScalarNode) && n_null n.

Inductive shape_error : Type :=
  | NotAMapping (line : Z) (where_ : string)
  | NotAList (line : Z)
  | KeyNotScalar (line : Z) (where_ : string)
  | UnknownField (line : Z) (key where_ : string).

(** The loop over a mapping's keys and values. *)
Fixpoint each_pair {E} (f : ynode -> ynode -> option E) (content : list ynode) : option E :=
  match content with
  | key :: val :: rest => match f key val with Some e => Some e | None => each_pair f rest end
  | _ => None
  end.

Definition credentialKeys : list string :=
  ["credential_source"; "token_env"; "grant_type"; "client_auth"; "issuer"; "token_endpoint"; "client_id_env"; "client_secret_env"; "scope"; "audience"].
Definition checkCredentialNode (n : ynode) (where_ : string) : option shape_error :=
  if negb (bool_decide (n_Kind n = MappingNode)) then Some (NotAMapping (n_Line n) where_)
  else each_pair (fun key _ =>
    if negb (bool_decide (n_Kind key = ScalarNode)) then Some (KeyNotScalar (n_Line key) where_)
    else unless (contains credentialKeys (n_Value key)) (UnknownField (n_Line key) (n_Value key) where_)) (n_Content n).

Definition backendFields : list string := ["kind"; "url"; "region"; "mode"; "retention"].
Definition checkBackendNode (n : ynode) (where_ : string) : option shape_error :=
  if negb (bool_decide (n_Kind n = MappingNode)) then Some (NotAMapping (n_Line n) where_)
  else each_pair (fun key val =>
    if negb (bool_decide (n_Kind key = ScalarNode)) then Some (KeyNotScalar (n_Line key) where_)
    else if contains backendFields (n_Value key) then None
    else if bool_decide (n_Value key = "credential") then (if isNull val then None else checkCredentialNode val (where_ +:+ ".credential"))
    else Some (UnknownField (n_Line key) (n_Value key) where_)) (n_Content n).

(** The entries of [duplicate], numbered from [i]. *)
Fixpoint check_entries (i : Z) (entries : list ynode) : option shape_error :=
  match entries with
  | [] => None
  | entry :: rest => match checkBackendNode entry ("duplicate[" +:+ itoa i +:+ "]") with Some e => Some e | None => check_entries (i + 1) rest end
  end.

Definition integrityScalars : list string := ["sink"; "anchor"; "anchor_runs"].
(** One key of the document and its value. *)
Definition check_field (key val : ynode) : option shape_error :=
  if negb (bool_decide (n_Kind key = ScalarNode)) then Some (KeyNotScalar (n_Line key) "")
  else if contains integrityScalars (n_Value key) then None
  else if bool_decide (n_Value key = "duplicate") then
    (if isNull val then None
     else if negb (bool_decide (n_Kind val = SequenceNode)) then Some (NotAList (n_Line val))
     else check_entries 0 (n_Content val))
  else if contains ["sink_backend"; "anchor_backend"] (n_Value key) then (if isNull val then None else checkBackendNode val (n_Value key))
  else Some (UnknownField (n_Line key) (n_Value key) "").

(** yaml.v3: the first document's node ([Ok None] at the end of the input), is
    there a second; the node a document's [Decode] hands to the type's
    Unmarshaler, none when it leaves the zero value; a node's fields. *)
Class IntegrityYaml := {
  yaml_first : string -> result () (option ynode);
  yaml_second : string -> bool;
  yaml_target : ynode -> option ynode;
  yaml_fields : ynode -> option Integrity;
}.

Inductive integrity_error : Type :=
  | IntegritySyntax | IntegrityDocuments | IntegrityShape (e : shape_error) | IntegrityDecode | IntegrityPosture (e : posture_error) | IntegrityUnreadable.

Section parse.
  Context `{IntegrityYaml} `{GoURL}.

Definition UnmarshalIntegrity (value : ynode) : result integrity_error Integrity :=
  if negb (bool_decide (n_Kind value = MappingNode)) then Err (IntegrityShape (NotAMapping (n_Line value) ""))
  else match each_pair check_field (n_Content value) with
       | Some e => Err (IntegrityShape e)
       | None => match yaml_fields value with Some raw => Ok raw | None => Err IntegrityDecode end
       end.

Definition with_kind (i : Integrity) (kind : string) : Integrity :=
  let b := in_AnchorBackend i in
  MkIntegrity (in_Sink i) (in_Anchor i) (in_AnchorRuns i) (in_Duplicate i) (in_SinkBackend i)
    (MkBackend kind (ib_URL b) (ib_Region b) (ib_Mode b) (ib_Retention b) (ib_Credential b)).

Definition ParseIntegrity (data : string) : result integrity_error Integrity :=
  match yaml_first data with
  | Err _ => Err IntegritySyntax
  | Ok None => Ok zeroIntegrity
  | Ok (Some doc) =>
      if yaml_second data then Err IntegrityDocuments
      else
        let! i := match yaml_target doc with Some value => UnmarshalIntegrity value | None => Ok zeroIntegrity end in
        match ValidateIntegrity i with
        | Some e => Err (IntegrityPosture e)
        | None => Ok (if bool_decide (in_Anchor i = "tlog") && is_empty (ib_Kind (in_AnchorBackend i)) then with_kind i "transparency-log" else i)
        end
  end.

(** The file beside the ledger: no entry, one that cannot be read, its bytes. *)
Inductive posture_file : Type := PostureAbsent | PostureUnreadable | PostureBytes (data : string).

Definition loadIntegrityAt (f : posture_file) : result integrity_error Integrity :=
  match f with PostureBytes data => ParseIntegrity data | _ => Err IntegrityUnreadable end.
Definition loadIntegrity (f : posture_file) : result integrity_error Integrity :=
  match f with PostureAbsent => Ok zeroIntegrity | _ => loadIntegrityAt f end.
End parse.

(** ** Retentions *)
Lemma retention_form s m unit : retentionForm s = Some (m, unit) <->
  versionRE m = true /\ (s = m +:+ "d" /\ unit = RetentionDay \/ s = m +:+ "y" /\ unit = RetentionYear).
Proof.
  unfold retentionForm. split.
  - destruct (has_suffix s "d" && versionRE (trim_suffix s "d")) eqn:Ed.
    + intros [= <- <-]. apply andb_true_iff in Ed as [Hs Hv]. split; [done|]. left. split; [|done]. by apply has_suffix_spec in Hs as [t ->]; rewrite trim_suffix_app.
    + destruct (has_suffix s "y" && versionRE (trim_suffix s "y")) eqn:Ey; [|done]. intros [= <- <-]. apply andb_true_iff in Ey as [Hs Hv]. split; [done|]. right.
      split; [|done]. by apply has_suffix_spec in Hs as [t ->]; rewrite trim_suffix_app.
  - intros [Hv [[-> ->]|[-> ->]]].
    + rewrite trim_suffix_app, Hv. by rewrite (proj2 (has_suffix_spec _ _)) by (by exists m).
    + destruct (has_suffix (m +:+ "y") "d") eqn:E.
      * apply has_suffix_spec in E as [t E]. exfalso. apply (f_equal rev_str) in E. rewrite !rev_str_app in E. by cbn in E.
      * cbn [andb]. rewrite trim_suffix_app, Hv. by rewrite (proj2 (has_suffix_spec _ _)) by (by exists m).
Qed.

Lemma retention_unit n unit : unit = RetentionDay \/ unit = RetentionYear -> 1 <= n <= RetentionMax / unit ->
  wrap64 (n * unit) = n * unit /\ RetentionMin <= n * unit <= RetentionMax.
Proof.
  intros Hu Hn. assert (Hb : RetentionMin <= n * unit <= RetentionMax).
  { destruct Hu as [->| ->]; [change (RetentionMax / RetentionDay) with 36500 in Hn|change (RetentionMax / RetentionYear) with 100 in Hn];
      unfold RetentionMin, RetentionMax, RetentionYear, RetentionDay; lia. }
  split; [|done]. apply wrap64_id. unfold int_ok, min_int64, max_int64. unfold RetentionMin, RetentionMax, RetentionYear, RetentionDay in Hb. lia.
Qed.

(** A retention is read exactly.  A text is accepted when it is a count
    without leading zeros followed by [d] or [y], of at least one unit and at
    most a hundred years, and the duration is that count of days or 365-day
    years with no wrap of the 64-bit nanoseconds; nothing else is accepted. *)
Theorem retention_exact (s : string) (d : Z) :
  ParseRetention s = Ok d <->
  exists n, s = itoa n +:+ "d" /\ d = n * RetentionDay /\ 1 <= n <= 36500 \/ s = itoa n +:+ "y" /\ d = n * RetentionYear /\ 1 <= n <= 100.
Proof.
  assert (Hkey : forall m unit, retentionForm s = Some (m, unit) -> (ParseRetention s = Ok d <-> exists n, m = itoa n /\ d = n * unit /\ 1 <= n <= RetentionMax / unit)).
  { intros m unit Hf. pose proof (proj1 (retention_form _ _ _) Hf) as [Hv Hs]. assert (Hu : unit = RetentionDay \/ unit = RetentionYear) by tauto.
    unfold ParseRetention. rewrite bool_decide_false by (intros E0; rewrite E0 in Hs; destruct Hs as [[E _]|[E _]]; destruct m; cbn in E; discriminate E). rewrite Hf. split.
    - destruct (parse_int64 m) as [n|] eqn:En; [|done]. destruct (proj1 (version_text _ _) (conj Hv En)) as [-> Hn]. destruct (Z.ltb_spec (RetentionMax / unit) n); [done|].
      destruct (retention_unit n unit Hu ltac:(lia)) as [-> Hb]. rewrite (proj2 (Z.ltb_ge _ _)) by lia. intros [= <-]. exists n. split_and!; try done; lia.
    - intros (n & -> & -> & Hn). assert (n <= 36500). { destruct Hu as [->| ->]; [change (RetentionMax / RetentionDay) with 36500 in Hn|change (RetentionMax / RetentionYear) with 100 in Hn]; lia. }
      rewrite parse_int64_itoa by (unfold min_int64, max_int64; lia). rewrite (proj2 (Z.ltb_ge _ _)) by lia.
      destruct (retention_unit n unit Hu Hn) as [-> Hb]. by rewrite (proj2 (Z.ltb_ge _ _)) by lia. }
  split.
  - intros Hp. destruct (retentionForm s) as [[m unit]|] eqn:Ef; [|unfold ParseRetention in Hp; rewrite Ef in Hp; case_bool_decide; discriminate Hp].
    apply (Hkey _ _ eq_refl) in Hp as (n & -> & -> & Hn). apply retention_form in Ef as [_ [[-> ->]|[-> ->]]]; exists n; [left|right]; (split; [done|]; split; [done|]).
    + by change (RetentionMax / RetentionDay) with 36500 in Hn.
    + by change (RetentionMax / RetentionYear) with 100 in Hn.
  - intros [n H]. assert (Hn : 1 <= n <= max_int64) by (unfold max_int64; lia). destruct (proj2 (version_text (itoa n) n) (conj eq_refl Hn)) as [Hv _].
    destruct H as [(-> & -> & Hb)|(-> & -> & Hb)]; (eapply Hkey; [apply retention_form; split; [exact Hv|]; tauto|]; by exists n).
Qed.

(** ** The floor is never read by mistake *)
Fixpoint pairs (content : list ynode) : list (ynode * ynode) :=
  match content with key :: val :: rest => (key, val) :: pairs rest | _ => [] end.
Lemma each_pair_none {E} (f : ynode -> ynode -> option E) content : each_pair f content = None <-> Forall (fun kv => f kv.1 kv.2 = None) (pairs content).
Proof.
  assert (Hlen : forall n content, (length content <= n)%nat -> each_pair f content = None <-> Forall (fun kv => f kv.1 kv.2 = None) (pairs content)).
  { induction n as [|n IH]; intros [|key [|val rest]]; cbn [length each_pair pairs]; intros Hn; try (split; [by constructor|done]); [lia|].
    rewrite Forall_cons. cbn [fst snd]. destruct (f key val) as [e|]; [split; [done|by intros [? _]]|]. rewrite IH by lia. tauto. }
  by apply (Hlen (length content)).
Qed.

(** A mapping whose keys are plain scalars of a list, its values as [nested]
    asks. *)
Definition keyed (allowed : list string) (nested : string -> ynode -> Prop) (n : ynode) : Prop :=
  n_Kind n = MappingNode /\ Forall (fun kv => n_Kind kv.1 = ScalarNode /\ n_Value kv.1 ∈ allowed /\ nested (n_Value kv.1) kv.2) (pairs (n_Content n)).
Definition credential_known : ynode -> Prop := keyed credentialKeys (fun _ _ => True).
Definition backend_known : ynode -> Prop :=
  keyed (backendFields ++ ["credential"]) (fun key val => key = "credential" -> isNull val = true \/ credential_known val).
Definition document_known : ynode -> Prop :=
  keyed (integrityScalars ++ ["duplicate"; "sink_backend"; "anchor_backend"]) (fun key val =>
    isNull val = true \/
    (key = "duplicate" -> n_Kind val = SequenceNode /\ Forall backend_known (n_Content val)) /\
    (key = "sink_backend" \/ key = "anchor_backend" -> backend_known val)).

Lemma unless_none {E} ok (e : E) : unless ok e = None <-> ok = true.
Proof. by destruct ok. Qed.

(** A check of a mapping accepts exactly the keyed nodes. *)
Lemma keyed_check (err : shape_error) allowed nested f n :
  (forall key val, f key val = None <-> n_Kind key = ScalarNode /\ n_Value key ∈ allowed /\ nested (n_Value key) val) ->
  (if negb (bool_decide (n_Kind n = MappingNode)) then Some err else each_pair f (n_Content n)) = None <-> keyed allowed nested n.
Proof.
  intros Hf. unfold keyed. case_bool_decide as Hk; cbn [negb]; [|split; [done|by intros [? _]]]. rewrite each_pair_none.
  split; [intros H; split; [done|]|intros [_ H]]; (eapply Forall_impl; [exact H|]; intros [k v]; cbn [fst snd]; apply Hf).
Qed.

Lemma credential_checked n w : checkCredentialNode n w = None <-> credential_known n.
Proof.
  apply keyed_check. intros key _. case_bool_decide as Hk; cbn [negb]; [|split; [done|by intros [? _]]]. rewrite unless_none, contains_true. tauto.
Qed.
Lemma backend_checked n w : checkBackendNode n w = None <-> backend_known n.
Proof.
  apply keyed_check. intros key val. case_bool_decide as Hk; cbn [negb]; [|split; [done|by intros [? _]]].
  destruct (contains backendFields (n_Value key)) eqn:Ef.
  - apply contains_true in Ef. split; [|done]. intros _. split_and!; [done|set_solver|]. intros E. rewrite E in Ef. set_solver.
  - case_bool_decide as Hc.
    + destruct (isNull val); [split; [|done]|rewrite credential_checked]; [intros _; split_and!; [done|set_solver|auto]|]. split; [intros; split_and!; [done|set_solver|auto]|].
      intros (_ & _ & [?|?]%(fun H => H Hc)); done.
    + split; [done|]. intros (_ & Hin & _). exfalso. assert (Hf : n_Value key ∉ backendFields) by (intros ?%contains_true; congruence). set_solver.
Qed.
Lemma entries_checked i l : check_entries i l = None <-> Forall backend_known l.
Proof.
  revert i; induction l as [|n l IH]; intros i; cbn [check_entries]; [by split|]. rewrite Forall_cons, <- (IH (i + 1)), <- (backend_checked n ("duplicate[" +:+ itoa i +:+ "]")).
  destruct (checkBackendNode n _); [split; [done|by intros [? _]]|tauto].
Qed.

Lemma document_checked n : (if negb (bool_decide (n_Kind n = MappingNode)) then Some (NotAMapping (n_Line n) "") else each_pair check_field (n_Content n)) = None <-> document_known n.
Proof.
  apply keyed_check. intros key val. unfold check_field. case_bool_decide as Hk; cbn [negb]; [|split; [done|by intros [? _]]].
  destruct (contains integrityScalars (n_Value key)) eqn:Ef.
  { apply contains_true in Ef. split; [|done]. intros _. split_and!; [done|set_solver|]. right. unfold integrityScalars in Ef. split; [intros E|intros [E|E]]; rewrite E in Ef; set_solver. }
  assert (Hs : n_Value key ∉ integrityScalars) by (intros ?%contains_true; congruence). case_bool_decide as Hd.
  { rewrite Hd. destruct (isNull val); [split; [|done]; intros _; split_and!; [done|set_solver|auto]|]. case_bool_decide as Hq; cbn [negb].
    - rewrite entries_checked. split; [intros; split_and!; [done|set_solver|]; right; split; [done|by intros [?|?]]|]. intros (_ & _ & [?|[H _]]); [done|]. by apply H.
    - split; [done|]. intros (_ & _ & [?|[H _]]); [done|]. by destruct (H eq_refl). }
  destruct (contains ["sink_backend"; "anchor_backend"] (n_Value key)) eqn:Eb.
  - apply contains_true in Eb. destruct (isNull val); [split; [|done]; intros _; split_and!; [done|set_solver|auto]|]. rewrite backend_checked.
    split; [intros; split_and!; [done|set_solver|]; right; split; [by intros ?|done]|]. intros (_ & _ & [?|[_ H]]); [done|]. apply H. set_solver.
  - split; [done|]. intros (_ & Hin & _). exfalso. assert (n_Value key ∉ ["sink_backend"; "anchor_backend"]) by (intros ?%contains_true; congruence). set_solver.
Qed.

(** ** The postures that are honoured *)
Section honoured.
  Context `{GoURL}.

Definition worm_backend (b : IntegrityBackend) : Prop :=
  let c := ib_Credential b in
  ib_Kind b = "s3-object-lock" /\ ib_URL b <> "" /\ isBackendURL (ib_URL b) = true /\ (exists u, parse_url (ib_URL b) = Some u /\ all_slashes (u_Path u) = false) /\
  ib_Mode b = "compliance" /\ (exists d, ParseRetention (ib_Retention b) = Ok d) /\ (ib_Region b = "" \/ regionName (ib_Region b) = true) /\
  bc_CredentialSource c ∈ [""; "static_env"] /\ bc_GrantType c = "" /\ bc_ClientAuth c = "sigv4" /\ bc_ClientIDEnv c <> "" /\ bc_ClientSecretEnv c <> "" /\
  bc_Issuer c = "" /\ bc_TokenEndpoint c = "" /\ bc_Scope c = "" /\ bc_Audience c = "".
Definition tlog_backend (b : IntegrityBackend) : Prop :=
  let c := ib_Credential b in
  ib_Kind b ∈ [""; "transparency-log"] /\ ib_URL b <> "" /\ isBackendURL (ib_URL b) = true /\ ib_Region b = "" /\ ib_Mode b = "" /\ ib_Retention b = "" /\
  bc_GrantType c ∈ [""; "client_credentials"] /\ bc_CredentialSource c ∈ [""; "static_env"].

(** A local sink or a write-once one, no anchor or a transparency log, each
    with its own coordinates and no others. *)
Definition honoured (i : Integrity) : Prop :=
  (in_Sink i ∈ [""; "local"] /\ in_SinkBackend i = zeroBackend \/ in_Sink i = "worm" /\ worm_backend (in_SinkBackend i)) /\
  (in_Anchor i ∈ [""; "none"] /\ in_AnchorBackend i = zeroBackend \/ in_Anchor i = "tlog" /\ tlog_backend (in_AnchorBackend i)) /\
  (in_AnchorRuns i ∈ [""; "none"] \/ in_AnchorRuns i = "on-demand" /\ in_Anchor i = "tlog") /\ in_Duplicate i = [].

Lemma first_fault_none {E} (rules : list (option E)) : first_fault rules = None <-> Forall (fun r => r = None) rules.
Proof.
  induction rules as [|[e|] rules IH]; cbn [first_fault]; [by split|..]; rewrite Forall_cons; [split; [done|by intros [? _]]|]. rewrite IH. tauto.
Qed.
Lemma first_set_none {E} (err : string -> E) coords : first_set err coords = None <-> Forall (fun c => c.2 = "") coords.
Proof.
  unfold first_set. rewrite first_fault_none, Forall_map. apply Forall_proper; [|done]. intros c. cbn. rewrite unless_none. apply bool_decide_eq_true.
Qed.
Lemma is_empty_true s : is_empty s = true <-> s = "".
Proof. apply bool_decide_eq_true. Qed.
Lemma is_empty_false s : negb (is_empty s) = true <-> s <> "".
Proof. unfold is_empty. rewrite negb_true_iff. apply bool_decide_eq_false. Qed.
Lemma one_of_two s t : is_empty s || bool_decide (s = t) = true <-> s ∈ [""; t].
Proof. rewrite orb_true_iff, is_empty_true, bool_decide_eq_true. set_solver. Qed.
Lemma if_none {E} (P : Prop) `{Decision P} (e : E) : (if bool_decide P then None else Some e) = None <-> P.
Proof. by case_bool_decide. Qed.
Lemma set_backend b : b <> zeroBackend -> IsSet b = true.
Proof. intros. unfold IsSet. by rewrite bool_decide_false. Qed.

Ltac rules :=
  rewrite first_fault_none, !Forall_cons, Forall_nil, ?unless_none, ?first_set_none, ?Forall_cons, ?Forall_nil, ?one_of_two, ?is_empty_true, ?is_empty_false, ?bool_decide_eq_true;
  cbn [snd].
Lemma anchor_checked b : validateAnchorBackend b = None <-> tlog_backend b.
Proof.
  unfold validateAnchorBackend, tlog_backend. rules.
  assert (Hk : (if is_empty (ib_Kind b) || bool_decide (ib_Kind b = "transparency-log") then None
       else Some (if bool_decide (ib_Kind b = "rfc3161") then KindReserved (ib_Kind b) else KindUnknown (ib_Kind b))) = None <-> ib_Kind b ∈ [""; "transparency-log"]).
  { rewrite <- one_of_two. by destruct (_ || _). }
  rewrite Hk. assert (ib_URL b <> "" -> IsSet b = true). { intros Hu. apply set_backend. intros ->. by apply Hu. } tauto.
Qed.
Lemma sink_checked b : validateSinkBackend b = None <-> worm_backend b.
Proof.
  unfold validateSinkBackend, worm_backend. rules. rewrite !if_none, andb_true_iff, !is_empty_false, orb_true_iff, is_empty_true.
  assert (Hp : match parse_url (ib_URL b) with Some u => negb (all_slashes (u_Path u)) | None => false end = true <->
    exists u, parse_url (ib_URL b) = Some u /\ all_slashes (u_Path u) = false).
  { destruct (parse_url _) as [u|]; [|split; [done|by intros (? & ? & _)]]. rewrite negb_true_iff. split; [by exists u|]. by intros (? & [= <-] & ?). }
  assert (Hr : match ParseRetention (ib_Retention b) with Ok _ => None | Err e => Some (BadRetention e) end = None <-> exists d, ParseRetention (ib_Retention b) = Ok d).
  { destruct (ParseRetention _) as [d|]; [split; [by exists d|done]|split; [done|by intros [? ?]]]. }
  rewrite Hp, Hr. assert (ib_URL b <> "" -> IsSet b = true). { intros Hu. apply set_backend. intros ->. by apply Hu. } tauto.
Qed.

Lemma sink_rule i : (if contains [""; "local"] (in_Sink i) then None
     else if bool_decide (in_Sink i = "worm") then validateSinkBackend (in_SinkBackend i)
     else Some (if contains ["external"; "duplicate"] (in_Sink i) then SinkReserved (in_Sink i) else SinkUnknown (in_Sink i))) = None <->
  in_Sink i ∈ [""; "local"] \/ in_Sink i = "worm" /\ worm_backend (in_SinkBackend i).
Proof.
  rewrite <- contains_true, <- sink_checked. destruct (contains [""; "local"] (in_Sink i)); [split; auto|].
  case_bool_decide; [|split; [done|by intros [?|[? _]]]]. split; [auto|]. by intros [?|[_ ?]].
Qed.
Lemma anchor_rule i : (if contains [""; "none"] (in_Anchor i) then None
     else if bool_decide (in_Anchor i = "signed") then Some AnchorReserved
     else if bool_decide (in_Anchor i = "tlog") then validateAnchorBackend (in_AnchorBackend i)
     else Some (AnchorUnknown (in_Anchor i))) = None <-> in_Anchor i ∈ [""; "none"] \/ in_Anchor i = "tlog" /\ tlog_backend (in_AnchorBackend i).
Proof.
  rewrite <- contains_true, <- anchor_checked. destruct (contains [""; "none"] (in_Anchor i)); [split; auto|].
  case_bool_decide as Hx; [rewrite Hx; split; [done|by intros [?|[? _]]]|]. case_bool_decide; [|split; [done|by intros [?|[? _]]]]. split; [auto|]. by intros [?|[_ ?]].
Qed.
Lemma runs_rule i : (if contains [""; "none"] (in_AnchorRuns i) then None
     else if bool_decide (in_AnchorRuns i = "on-demand") then unless (bool_decide (in_Anchor i = "tlog")) RunsWithoutAnchor
     else Some (RunsUnknown (in_AnchorRuns i))) = None <-> in_AnchorRuns i ∈ [""; "none"] \/ in_AnchorRuns i = "on-demand" /\ in_Anchor i = "tlog".
Proof.
  rewrite <- contains_true. destruct (contains [""; "none"] (in_AnchorRuns i)); [split; auto|]. case_bool_decide as Hx; [|split; [done|by intros [?|[? _]]]].
  rewrite unless_none, bool_decide_eq_true. split; [auto|]. by intros [?|[_ ?]].
Qed.

Lemma posture_checked i : ValidateIntegrity i = None <-> honoured i.
Proof.
  unfold ValidateIntegrity, honoured. rules. rewrite sink_rule, anchor_rule, runs_rule.
  assert (Hunset : forall b, negb (IsSet b) = true <-> b = zeroBackend). { intros b. unfold IsSet. rewrite negb_involutive. apply bool_decide_eq_true. }
  assert (Hdup : Nat.eqb (length (in_Duplicate i)) 0 = true <-> in_Duplicate i = []). { by destruct (in_Duplicate i). }
  rewrite !orb_true_iff, !Hunset, Hdup, !bool_decide_eq_true.
  assert (in_Sink i = "worm" -> ~ in_Sink i ∈ [""; "local"]) by (intros ->; set_solver).
  assert (in_Anchor i = "tlog" -> ~ in_Anchor i ∈ [""; "none"]) by (intros ->; set_solver). tauto.
Qed.

Context `{IntegrityYaml}.

(** C21: the integrity posture fails closed.  A file is read as a posture
    exactly when it holds no document, which is the floor, or one document
    whose every key, at every level, is a plain scalar the format defines, and
    whose values are a posture this build implements, each knob with its own
    coordinates and no others; a tlog anchor that names no kind is a
    transparency log.  A misspelt key, a second document, a reserved or unknown
    value is an error, never the floor. *)
Theorem posture_fails_closed (data : string) (i : Integrity) :
  ParseIntegrity data = Ok i <->
  yaml_first data = Ok None /\ i = zeroIntegrity \/
  exists doc raw, yaml_first data = Ok (Some doc) /\ yaml_second data = false /\
    (yaml_target doc = None /\ raw = zeroIntegrity \/ exists value, yaml_target doc = Some value /\ document_known value /\ yaml_fields value = Some raw) /\
    honoured raw /\
    i = (if bool_decide (in_Anchor raw = "tlog") && is_empty (ib_Kind (in_AnchorBackend raw)) then with_kind raw "transparency-log" else raw).
Proof.
  assert (Hu : forall value raw, UnmarshalIntegrity value = Ok raw <-> document_known value /\ yaml_fields value = Some raw).
  { intros value raw. unfold UnmarshalIntegrity. rewrite <- document_checked. case_bool_decide; cbn [negb]; [|split; [done|by intros [? _]]].
    destruct (each_pair _ _); [split; [done|by intros [? _]]|]. destruct (yaml_fields value); split; [by intros [= <-]|by intros [_ [= <-]]|done|by intros [_ ?]]. }
  unfold ParseIntegrity. destruct (yaml_first data) as [[doc|]|e].
  - destruct (yaml_second data); [split; [done|by intros [[? _]|(? & ? & _ & ? & _)]]|]. split.
    + destruct (match yaml_target doc with Some value => _ | None => _ end) as [raw|] eqn:Er; cbn [result_bind]; [|done].
      destruct (ValidateIntegrity raw) eqn:Ev; [done|]. intros [= <-]. right. exists doc, raw. split_and!; try done; [|by apply posture_checked].
      destruct (yaml_target doc) as [value|]; [right; exists value; split; [done|by apply Hu]|left]. by injection Er as <-.
    + intros [[? _]|(doc' & raw & [= <-] & _ & Hraw & Hh & ->)]; [done|]. apply posture_checked in Hh.
      destruct Hraw as [[-> ->]|(value & -> & Hk)]; [|apply Hu in Hk; rewrite Hk]; cbn [result_bind]; by rewrite Hh.
  - split; [intros [= <-]; by left|]. by intros [[_ ->]|(? & ? & ? & _)].
  - split; [done|]. by intros [[? _]|(? & ? & ? & _)].
Qed.
End honoured.
