(* ===== verification/Apply.v ===== *)
(** * Changing the installed configuration ([cmd/agenthof]: [apply.go],
      [config_vouch.go], the kill switch of [main.go], and
      [registry.SetEnabled])

    The three writers of a control root, from the check that the ledger can be
    written to the signature: an apply stages a proposal, validates the copy,
    installs it and records it; a kill switch does the same with a copy of the
    installed snapshot in which one bit was flipped; a vouch moves nothing and
    records the pointer as it is.  Each runs under the exclusive writer lock;
    other processes may still append to the ledger, so what an operation finds
    when it opens it is an argument.

    A command first resolves its invoker and reads the root's posture; both
    answers are arguments, as are the texts of errors.  Flags, printed lines and
    the test hooks that end the process early are left out. *)
From S2P Require Import Prelude Sha256 GoStr Json Paths Ledger Config Authz Origin Registry Event Attest ControlRecord Manifest Segments Snapshot Times Signed Vouch Signing Identity Integrity.

(** ** The kill switch's edit *)

(** yaml.v3 into a map and back: the [name] the document holds (an empty one
    when it has none), [None] when it does not parse; the document with
    [enabled] set. *)
Class FlagYaml := { yaml_name_of : string -> option string; yaml_with_enabled : string -> bool -> option string }.

Section flag.
  Context `{FlagYaml}.

(** The loop of [SetEnabled]; [write] says whether the replacement succeeded. *)
Fixpoint set_enabled_in (t : tree) (rels : list string) (agentName : string) (enabled write : bool) : result config_error tree :=
  match rels with
  | [] => Err (ReadError agentName)
  | rel :: rest =>
      let! data := read_file t rel in
      match yaml_name_of data with
      | None => set_enabled_in t rest agentName enabled write
      | Some name =>
          if bool_decide (name = agentName) then
            match yaml_with_enabled data enabled with
            | Some out => if write then Ok (<[rel := File (Some out)]> t) else Err StoreIO
            | None => Err (ParseError rel)
            end
          else set_enabled_in t rest agentName enabled write
      end
  end.
Definition SetEnabled (root : option tree) (agentName : string) (enabled write : bool) : result config_error tree :=
  match root with
  | Some t => match t !! "agents" with Some Dir => set_enabled_in t (listSub t "agents") agentName enabled write | _ => Err (ReadError "agents") end
  | None => Err (ReadError "agents")
  end.
End flag.

(** ** Shared *)
Definition applyFloorErrors (cfg : Config) : list ValidationError :=
  if List.existsb (fun r => contains (control_list r) "apply" && List.existsb (fun g => negb (bool_decide (g = "*"))) (r_AllowedGroups r)) (c_Roles cfg)
  then [] else [MkVE "roles" "(config)" "no-apply-floor"].

Inductive fault : Type :=
  | FaultLock (e : ledger_error)
  | FaultConfig (e : config_error)
  | FaultRun (e : resolve_error)
  | FaultRefusal (e : verifyRefusal)
  | FaultStagedDiffers
  | FaultIO (what : string).

Definition NotAuthorized (op : string) : Reason := MkReason "not_authorized" ("not authorized: no role grants " +:+ op +:+ " to the invoker").
Definition msgNothingInstalled : string := "not authorized: nothing is installed; apply a configuration first".
Definition token_refused : Reason := MkReason "token_verification_failed" "token verification failed".
Definition msgBootstrapDisabled : string :=
  "not authorized: nothing is installed and bootstrap over the API is not enabled (serve --allow-api-bootstrap); apply locally first".
Definition maxRecordedErrLen : nat := 200.

(** What a control command takes from outside: the ledger as its two opens
    find it, the writer lock, the ledger's read lock, the clock and the write
    of the record, the staging, the commit, whether the temp's removal and the
    edit succeed, the sign step's read lock and write. *)
Record control_env : Type := MkControlEnv {
  ce_writable : disk -> attempt * attempt;
  ce_lock : result ledger_error ();
  ce_read : result ledger_error ();
  ce_append : disk -> attempt * attempt;
  ce_record : append_env;
  ce_witness : Witness;
  ce_stage : stage_env;
  ce_commit : commit_env;
  ce_cleanup : bool;
  ce_edit : bool;
  ce_sign_read : result ledger_error ();
  ce_sign_write : bool;
}.

(** ** Apply *)

(** A directory is read when it is hashed and when it is staged; a bundle is
    in memory. *)
Inductive applySource : Type := dirSource (hashed staged : option tree) | bundleSource (files : bundle).
Inductive applyPrecondition : Type := ExpectNone | ExpectInstalled (hash : string).

Record applyRequest : Type := MkApply {
  rq_Invoker : Invoker; rq_AssertedAs : string; rq_Source : applySource; rq_Precondition : option applyPrecondition; rq_AllowBootstrap : bool; rq_Origin : ptr Origin;
}.

Inductive applyKind : Type :=
  | applyInstalled
  | applyLedgerDamaged
  | applyBusy
  | applyRotationIncomplete
  | applyRefused
  | applyPreconditionFailed
  | applyRejected
  | applyError
  | applyAppendFailed
  | applyInstalledNotRecorded
  | applyInstalledNotSigned.
#[global] Instance applyKind_eq_dec : EqDecision applyKind.
Proof. solve_decision. Defined.

Record applyOutcome : Type := MkOutcome {
  ao_Kind : applyKind; ao_ConfigHash : string; ao_CurrentHash : string; ao_Installed : bool; ao_Head : Head; ao_Reason : ptr Reason;
  ao_Errors : list resolve_error; ao_Agents : nat; ao_Workflows : nat; ao_Roles : nat; ao_KeyID : string; ao_SignCause : option sign_error;
}.
Definition zeroOutcome : applyOutcome := MkOutcome applyInstalled "" "" false (MkHead "" 0) None [] 0 0 0 "" None.

Section writers.
  Context `{Ed25519} `{GoText} `{GoURL} `{ConfigYaml} `{FlagYaml}.
  Context (active : string) (url_Parse : string -> option (string * string)) (text : fault -> string).

Definition truncateErr (e : fault) : string := take_str maxRecordedErrLen (text e).
Definition io_reason (e : fault) : Reason := MkReason "io_error" (truncateErr e).
Definition vouchRefused (r : verifyRefusal) : Reason := MkReason "not_on_record" (truncateErr (FaultRefusal r)).

(** [control.Append] on a root. *)
Definition append_event (r : croot) (env : control_env) (e : CEvent) : result control_error Head * croot :=
  let '(t1, t2) := ce_append env (rt_ledger r) in
  let '(res, d) := Append active t1 t2 (ce_record env) e in
  (res, with_ledger r d).

(** [control.Writable] on a root: opening makes the file when there is none. *)
Definition open_ledger (r : croot) (env : control_env) : option control_error * croot :=
  let '(t1, t2) := ce_writable env (rt_ledger r) in
  (Writable active t1 t2, with_ledger r (openActive active t1 t2).2).

Definition Stage (src : applySource) (s : istore) (env : stage_env) : result config_error string * istore :=
  match src with dirSource _ d => StageSnapshot s env d | bundleSource files => StageFiles s env files end.
Definition source_hash (src : applySource) : result config_error string :=
  match src with dirSource d _ => HashDir d | bundleSource files => HashFiles files end.
Definition verifyStaged (src : applySource) : bool := match src with dirSource _ _ => false | bundleSource _ => true end.

Section apply.
  Context (req : applyRequest) (env : control_env).

Definition apply_event (outcome : string) (reason : ptr Reason) (hash : string) (bootstrap : bool) : CEvent :=
  { zeroCEvent with
    ce_Action := "apply"; ce_Outcome := outcome; ce_Reason := reason; ce_Invoker := rq_Invoker req; ce_AssertedAs := rq_AssertedAs req;
    ce_Witness := ce_witness env; ce_ConfigHash := hash; ce_Bootstrap := bootstrap; ce_Origin := rq_Origin req }.

Definition apply_done (res : applyOutcome) (kind : applyKind) : applyOutcome := { res with ao_Kind := kind }.

(** [applyRun.record] *)
Definition apply_record (res : applyOutcome) (r : croot) (kind : applyKind) (outcome : string) (reason : ptr Reason) (hash : string) : applyOutcome * croot :=
  let res := { res with ao_Kind := kind; ao_Reason := reason; ao_ConfigHash := hash } in
  match append_event r env (apply_event outcome reason hash (bool_decide (kind = applyInstalled) && negb (ao_Installed res))) with
  | (Err _, r) => ({ res with ao_Kind := if bool_decide (kind = applyInstalled) then applyInstalledNotRecorded else applyAppendFailed }, r)
  | (Ok head, r) => ({ res with ao_Head := head }, r)
  end.

Definition apply_io_error (res : applyOutcome) (r : croot) (e : fault) : applyOutcome * croot :=
  apply_record res r applyError "error" (Some (io_reason e)) "".
Definition hashFailure (res : applyOutcome) (r : croot) (e : config_error) : applyOutcome * croot := apply_io_error res r (FaultConfig e).
(** [refused], and the refusal of an install that is not on record. *)
Definition apply_refused (res : applyOutcome) (r : croot) (reason : Reason) : applyOutcome * croot :=
  match source_hash (rq_Source req) with
  | Err e => hashFailure res r e
  | Ok h => apply_record res r applyRefused "refused" (Some reason) h
  end.
Definition cleanReason (e : resolve_error) : string :=
  match rq_Origin req with None => truncateErr (FaultRun e) | Some _ => Origin.Clean is_print (text (FaultRun e)) end.
Definition apply_rejected (res : applyOutcome) (r : croot) (temp : string) (cause : resolve_error) : applyOutcome * croot :=
  match HashDir (is_dirs (rt_store r) !! temp) with
  | Err e => hashFailure res r e
  | Ok h => apply_record res r applyRejected "rejected" (Some (MkReason "validation_failed" (cleanReason cause))) h
  end.

(** Step 12. *)
Definition apply_sign (res : applyOutcome) (r : croot) : applyOutcome * croot :=
  let not_signed e := { res with ao_Kind := applyInstalledNotSigned; ao_SignCause := Some e } in
  match signingStateOf r with
  | Err e => (not_signed e, r)
  | Ok state =>
      if negb (configured state) then (res, r)
      else match signInstalled active r (ce_sign_read env) (ce_sign_write env) with
           | (Err e, r) => (not_signed e, r)
           | (Ok info, r) => ({ res with ao_KeyID := si_KeyID info }, r)
           end
  end.

(** Steps 10 to 12, over a staged copy that was judged. *)
Definition apply_commit (res : applyOutcome) (r : croot) (temp h : string) (cfg : Config) : applyOutcome * croot * bool :=
  match CommitSnapshot (rt_store r) temp h (ce_commit env) with
  | (Some e, s) => (apply_io_error res (with_store r s) (FaultConfig e), false)
  | (None, s) =>
      let res := { res with ao_Agents := length (c_Agents cfg); ao_Workflows := length (c_Workflows cfg); ao_Roles := length (c_Roles cfg) } in
      match apply_record res (with_store r s) applyInstalled "success" None h with
      | (res, r) => (if bool_decide (ao_Kind res = applyInstalled) then apply_sign res r else (res, r), true)
      end
  end.

(** Steps 7 to 12; the last component says whether the copy was installed. *)
Definition apply_staged (res : applyOutcome) (r : croot) (temp : string) : applyOutcome * croot * bool :=
  let '(cfg, loadErrs) := LoadDir (is_dirs (rt_store r) !! temp) in
  let res := { res with ao_Errors := map RunConfig loadErrs } in
  match loadErrs with
  | e :: _ => (apply_rejected res r temp (RunConfig e), false)
  | [] =>
      let valErrs := (match Build url_Parse cfg with Err errs => errs | Ok _ => [] end) ++ applyFloorErrors cfg in
      let res := { res with ao_Errors := map RunInvalid valErrs } in
      match valErrs with
      | e :: _ => (apply_rejected res r temp (RunInvalid e), false)
      | [] =>
          match HashDir (is_dirs (rt_store r) !! temp) with
          | Err e => (hashFailure res r e, false)
          | Ok h =>
              if verifyStaged (rq_Source req) then
                match source_hash (rq_Source req) with
                | Err e => (hashFailure res r e, false)
                | Ok want => if negb (bool_decide (want = h)) then (apply_io_error res r FaultStagedDiffers, false) else apply_commit res r temp h cfg
                end
              else apply_commit res r temp h cfg
          end
      end
  end.

Definition precondition_fails (current : option string) : bool :=
  match rq_Precondition req with
  | None => false
  | Some ExpectNone => is_Some_b current
  | Some (ExpectInstalled h) => negb (bool_decide (h = default "" current))
  end.

(** Steps 4 to 12: authorized against [roles], none when nothing is installed. *)
Definition apply_authorized (res : applyOutcome) (r : croot) (installed : option (list RoleDef * string)) : applyOutcome * croot :=
  let refusal :=
    match installed with
    | Some (roles, _) => if ControlAllows roles (rq_Invoker req) "apply" then None else Some (NotAuthorized "apply")
    | None => if rq_AllowBootstrap req then None else Some (MkReason "not_authorized" msgBootstrapDisabled)
    end in
  match refusal with
  | Some reason => apply_refused res r reason
  | None =>
      if precondition_fails (snd <$> installed) then (apply_done res applyPreconditionFailed, r)
      else match Stage (rq_Source req) (rt_store r) (ce_stage env) with
           | (Err e, s) => apply_io_error res (with_store r s) (FaultConfig e)
           | (Ok temp, s) =>
               let '(out, r, committed) := apply_staged res (with_store r s) temp in
               (out, if negb committed && ce_cleanup env then with_store r (remove_dir (rt_store r) temp) else r)
           end
  end.

(** Steps 3 to 12, under the writer lock. *)
Definition apply_locked (r : croot) : applyOutcome * croot :=
  match InstalledRoles (rt_store r) with
  | Err e => apply_io_error zeroOutcome r (FaultConfig e)
  | Ok None => apply_authorized zeroOutcome r None
  | Ok (Some (roles, currentHash)) =>
      let res := { zeroOutcome with ao_CurrentHash := currentHash; ao_Installed := true } in
      match vouchInstalled active (ce_read env) (rt_ledger r) currentHash with
      | (_, _, None) => apply_authorized res r (Some (roles, currentHash))
      | (_, _, Some refusal) =>
          if Transient refusal then (apply_done res applyBusy, r)
          else if negb (bool_decide (vr_Kind refusal = verifyNotOnRecord)) then (apply_done res applyLedgerDamaged, r)
          else apply_refused res r (vouchRefused refusal)
      end
  end.

Definition applyConfig (r : croot) : applyOutcome * croot :=
  match open_ledger r env with
  | (Some e, r) =>
      (apply_done zeroOutcome (if is_lock_held e then applyBusy else match e with ErrSealed => applyRotationIncomplete | _ => applyLedgerDamaged end), r)
  | (None, r) =>
      match ce_lock env with
      | Err ErrLockHeld => (apply_done zeroOutcome applyBusy, r)
      | Err e => apply_io_error zeroOutcome r (FaultLock e)
      | Ok _ => apply_locked r
      end
  end.
End apply.

(** [--if-installed]; [Err] is a usage error. *)
Definition parseIfInstalled (v : string) : result () (option applyPrecondition) :=
  if bool_decide (v = "") then Ok None
  else if bool_decide (v = "none") then Ok (Some ExpectNone)
  else if installedHashRE v then Ok (Some (ExpectInstalled v))
  else Err ().

(** [cmdApply] on the host: [env0] is what the first check of the ledger meets,
    [env] what the apply itself does. *)
Definition cmdApply (ifInstalled : string) (who : runInvoker) (posture : result integrity_error Integrity) (src : applySource) (env0 env : control_env) (r : croot) : Z * croot :=
  match parseIfInstalled ifInstalled with
  | Err _ => (2, r)
  | Ok pre =>
      let req := MkApply (ri_inv who) (ri_assertedAs who) src pre true None in
      if ri_usageErr who || negb (is_ok posture) then (2, r)
      else match open_ledger r env0 with
           | (Some _, r) => (1, r)
           | (None, r) =>
               if ri_refused who then (1, (append_event r env0 (apply_event req env0 "refused" (Some token_refused) "" false)).2)
               else let '(out, r) := applyConfig req env r in (if bool_decide (ao_Kind out = applyInstalled) then 0 else 1, r)
           end
  end.

(** ** The kill switch *)
Section flip.
  Context (enable : bool) (target : string) (who : runInvoker) (env : control_env).

Definition flip_action : string := if enable then "enable" else "disable".
Definition flip_event (outcome : string) (reason : ptr Reason) (hash : string) (bootstrap : bool) : CEvent :=
  { zeroCEvent with
    ce_Action := flip_action; ce_Agent := target; ce_Outcome := outcome; ce_Reason := reason; ce_Invoker := ri_inv who; ce_AssertedAs := ri_assertedAs who;
    ce_Witness := ce_witness env; ce_ConfigHash := hash; ce_Bootstrap := bootstrap }.

(** [recordExit] *)
Definition flip_exit (r : croot) (outcome : string) (reason : Reason) : Z * croot := (1, (append_event r env (flip_event outcome (Some reason) "" false)).2).

Definition known_agent (cfg : Config) : bool := List.existsb (fun a => bool_decide (a_Name a = target)) (c_Agents cfg).
Definition agent_not_found : Reason := MkReason "agent_not_found" ("agent " +:+ target +:+ " not found").

(** The success record and the sign step. *)
Definition flip_record (r : croot) (h : string) : Z * croot :=
  match append_event r env (flip_event "success" None h false) with
  | (Err _, r) => (1, r)
  | (Ok _, r) =>
      match signIfConfigured active r (ce_sign_read env) (ce_sign_write env) with
      | (Err _, r) => (1, r)
      | (Ok _, r) => (0, r)
      end
  end.

(** [flipInstalled] over the staged copy; the last component says whether it
    was installed. *)
Definition flip_staged (r : croot) (temp : string) : Z * croot * bool :=
  let '(cfg, loadErrs) := LoadDir (is_dirs (rt_store r) !! temp) in
  match loadErrs with
  | e :: _ => (flip_exit r "error" (io_reason (FaultConfig e)), false)
  | [] =>
      if negb (known_agent cfg) then (flip_exit r "refused" agent_not_found, false)
      else match SetEnabled (is_dirs (rt_store r) !! temp) target enable (ce_edit env) with
           | Err e => (flip_exit r "error" (io_reason (FaultConfig e)), false)
           | Ok t =>
               let r := with_store r (set_dir (rt_store r) temp t) in
               match HashDir (is_dirs (rt_store r) !! temp) with
               | Err e => (flip_exit r "error" (io_reason (FaultConfig e)), false)
               | Ok h =>
                   match CommitSnapshot (rt_store r) temp h (ce_commit env) with
                   | (Some e, s) => (flip_exit (with_store r s) "error" (io_reason (FaultConfig e)), false)
                   | (None, s) => (flip_record (with_store r s) h, true)
                   end
               end
           end
  end.

Definition flipInstalled (r : croot) (hash : string) : Z * croot :=
  match VerifyInstalled (rt_store r) hash with
  | Err e => flip_exit r "error" (io_reason (FaultConfig e))
  | Ok _ =>
      match StageSnapshot (rt_store r) (ce_stage env) (is_dirs (rt_store r) !! SnapshotDir hash) with
      | (Err e, s) => flip_exit (with_store r s) "error" (io_reason (FaultConfig e))
      | (Ok temp, s) =>
          let '(code, r, committed) := flip_staged (with_store r s) temp in
          (code, if negb committed && ce_cleanup env then with_store r (remove_dir (rt_store r) temp) else r)
      end
  end.

(** Nothing installed: the directory's own bit is flipped; the exit code, the
    root and the directory. *)
Definition flip_bootstrap (r : croot) (dir : option tree) : Z * croot * option tree :=
  let '(cfg, loadErrs) := LoadDir dir in
  match loadErrs with
  | e :: _ => (flip_exit r "error" (io_reason (FaultConfig e)), dir)
  | [] =>
      if negb (ControlAllows (c_Roles cfg) (ri_inv who) flip_action) then (flip_exit r "refused" (NotAuthorized flip_action), dir)
      else if negb (known_agent cfg) then (flip_exit r "refused" agent_not_found, dir)
      else match SetEnabled dir target enable (ce_edit env) with
           | Err e => (flip_exit r "error" (io_reason (FaultConfig e)), dir)
           | Ok t =>
               match HashDir (Some t) with
               | Err _ => (1, r, Some t)
               | Ok h =>
                   match append_event r env (flip_event "success" None h true) with
                   | (Err _, r) => (1, r, Some t)
                   | (Ok _, r) => (0, r, Some t)
                   end
               end
           end
  end.

Definition cmdRegistryFlip (posture : result integrity_error Integrity) (r : croot) (dir : option tree) : Z * croot * option tree :=
  if ri_usageErr who || negb (is_ok posture) then (2, r, dir)
  else match open_ledger r env with
  | (Some _, r) => (1, r, dir)
  | (None, r) =>
      if ri_refused who then (flip_exit r "refused" token_refused, dir)
      else match ce_lock env with
      | Err ErrLockHeld => (1, r, dir)
      | Err e => (flip_exit r "error" (io_reason (FaultLock e)), dir)
      | Ok _ =>
          match InstalledRoles (rt_store r) with
          | Err e => (flip_exit r "error" (io_reason (FaultConfig e)), dir)
          | Ok None => flip_bootstrap r dir
          | Ok (Some (roles, hash)) =>
              match vouchInstalled active (ce_read env) (rt_ledger r) hash with
              | (_, _, Some refusal) =>
                  if Transient refusal || negb (bool_decide (vr_Kind refusal = verifyNotOnRecord)) then (1, r, dir)
                  else (flip_exit r "refused" (vouchRefused refusal), dir)
              | (_, _, None) =>
                  if negb (ControlAllows roles (ri_inv who) flip_action) then (flip_exit r "refused" (NotAuthorized flip_action), dir)
                  else (flipInstalled r hash, dir)
              end
          end
      end
  end.
End flip.

(** ** Vouch *)
Section vouch.
  Context (who : runInvoker) (env : control_env).

Definition vouch_event (outcome : string) (reason : ptr Reason) (hash detail : string) : CEvent :=
  { zeroCEvent with
    ce_Action := "vouch"; ce_Outcome := outcome; ce_Reason := reason; ce_Invoker := ri_inv who; ce_AssertedAs := ri_assertedAs who;
    ce_Witness := ce_witness env; ce_ConfigHash := hash; ce_Detail := detail }.
Definition vouch_exit (r : croot) (outcome : string) (reason : Reason) (hash : string) : Z * croot :=
  (1, (append_event r env (vouch_event outcome (Some reason) hash "")).2).

Definition vouch_detail (last : option DecodedEvent) : string :=
  match last with
  | Some d => if bool_decide (d_ConfigHash d = "") then "no install on record" else "previously on record: " +:+ d_ConfigHash d +:+ ", " +:+ installLabel d
  | None => "no install on record"
  end.

Definition cmdConfigVouch (posture : result integrity_error Integrity) (r : croot) : Z * croot :=
  if ri_usageErr who || negb (is_ok posture) then (2, r)
  else match open_ledger r env with
  | (Some _, r) => (1, r)
  | (None, r) =>
      if ri_refused who then vouch_exit r "refused" token_refused ""
      else match ce_lock env with
      | Err ErrLockHeld => (1, r)
      | Err e => vouch_exit r "error" (io_reason (FaultLock e)) ""
      | Ok _ =>
          match InstalledRoles (rt_store r) with
          | Err e => vouch_exit r "error" (io_reason (FaultConfig e)) ""
          | Ok None => (1, r)
          | Ok (Some (roles, hash)) =>
              match applyFloorErrors { zeroConfig with c_Roles := roles } with
              | e :: _ => vouch_exit r "rejected" (MkReason "validation_failed" (truncateErr (FaultRun (RunInvalid e)))) hash
              | [] =>
                  match vouchInstalled active (ce_read env) (rt_ledger r) hash with
                  | (_, _, None) => (0, r)
                  | (_, last, Some refusal) =>
                      if Transient refusal || negb (bool_decide (vr_Kind refusal = verifyNotOnRecord)) then (1, r)
                      else match append_event r env (vouch_event "success" None hash (vouch_detail last)) with
                           | (Err _, r) => (1, r)
                           | (Ok _, r) =>
                               match signIfConfigured active r (ce_sign_read env) (ce_sign_write env) with
                               | (Err _, r) => (1, r)
                               | (Ok _, r) => (0, r)
                               end
                           end
                  end
              end
          end
      end
  end.
End vouch.
End writers.
