(* ===== verification/ApplySound.v ===== *)
(** * What changing the installed configuration guarantees

    Every apply leaves at most one record, the one its outcome names; it moves
    the pointer only when it was authorized against the vouched, verified
    configuration and the copy it installs was judged; what it reports as
    installed, the next run executes; the kill switch and the vouch keep the
    same discipline. *)
From S2P Require Import Prelude Sha256 GoStr Json Paths Ledger Config Authz Origin Registry Event Attest ControlRecord Manifest Segments SegmentSet SegmentOps ControlLedger ControlHistory Snapshot SnapshotSound Times Signed Vouch Signing Identity Integrity Apply.

(** The fields of an updated outcome. *)
Ltac outcome_fields := cbn [apply_update ao_Kind ao_ConfigHash ao_CurrentHash ao_Installed ao_Head ao_Reason ao_Errors ao_Agents ao_Workflows ao_Roles ao_KeyID ao_SignCause]; unfold constant in *.


(** ** A recorded install *)
Definition decoded_of (r : record) : DecodedEvent :=
  MkDecoded (r_V r) (r_Seq r) (r_Time r) (r_Action r) (r_Agent r) (r_Outcome r) (r_Reason r) (r_Invoker r) (r_AssertedAs r) (r_Witness r) (r_ConfigHash r)
    (r_Bootstrap r) (r_FragmentLen r) (r_FragmentSHA r) (r_Origin r) (r_Detail r) (r_Anchor r) (r_Seal r).

Lemma decode_decoded raw rec : decodeRecord raw = Some rec -> Decode raw = Some (decoded_of rec).
Proof.
  unfold decodeRecord, Decode. destruct (parse_json raw) as [v|]; [|done]. destruct v; cbn [dec_obj]; try done; [by intros [= <-]|].
  unfold dec_record, dec_decoded. intros Hd. repeat (apply bind_Some in Hd as (? & ? & Hd)). injection Hd as <-.
  repeat match goal with H : dec_field _ _ _ = Some _ |- _ => cbn in H |- *; rewrite H; clear H end. done.
Qed.

Section recorded.
  Context `{GoText} `{GoURL} (active : string).

(** The ledger an append finds, and what it can write. *)
Record ready (env : control_env) (d : disk) (e : CEvent) : Prop := {
  rdy_ledger : exists segs rs, attempt_on active (deciding active true (ce_append env d).1 (ce_append env d).2) segs rs /\ room rs (ce_record env) e;
  rdy_clock : time_ok (ae_now (ce_record env)) /\ IsZero (time_text (ae_now (ce_record env))) = false;
}.

(** An event that records an install. *)
Definition install_event (e : CEvent) (h : string) : Prop :=
  installedHashRE h = true /\ ce_ConfigHash e = h /\ ce_Outcome e = "success" /\ ce_FragmentLen e = 0 /\ ce_Anchor e = None /\ ce_Seal e = None /\
  (ce_Action e = "apply" \/ ce_Action e = "vouch" \/ (ce_Action e = "enable" \/ ce_Action e = "disable") /\ ce_Bootstrap e = false).

Lemma hash_valid h : installedHashRE h = true -> valid_utf8 h = true /\ h <> "".
Proof.
  intros (x & -> & _ & Hx)%hash_shape. split; [|done]. apply andb_true_iff in Hx as [_ Hx]. apply hex_valid in Hx.
  change ("sha256:" +:+ x) with (String "s" (String "h" (String "a" (String "2" (String "5" (String "6" (String ":" x))))))). exact Hx.
Qed.

Lemma install_action e h : install_event e h -> valid_utf8 (ce_Action e) = true /\ permit e = None /\ state_after e = StateOpen.
Proof.
  intros (_ & _ & Ho & _ & Ha & Hs & Hact). unfold permit, checkAnchorShape, checkSealShape, checkRestoreShape, state_after. rewrite Ha, Hs, Ho.
  by destruct Hact as [->|[->|[[->| ->] _]]].
Qed.

Lemma install_recorded env d e h head t1 t2 d' : ready env d e -> install_event e h -> ce_append env d = (t1, t2) ->
  Append active t1 t2 (ce_record env) e = (Ok head, d') ->
  exists records last, on_record active (Ok ()) d' h records last /\ d_Action last = ce_Action e /\ d_Invoker last = san_invoker (ce_Invoker e) /\
    d_Seq last = zlen records.
Proof.
  intros [(segs & rs & Hat & Hroom) [Hclk Hz]] Hi Ht Happ. rewrite Ht in Hat. cbn [fst snd] in Hat. destruct (install_action e h Hi) as (Hva & Hperm & Hst).
  destruct Hi as (Hre & Hch & Ho & Hfl & Han & Hse & Hact). destruct (hash_valid h Hre) as [Hvh Hne].
  assert (He : event_ok (ce_record env) e) by (split; try done; unfold retained; rewrite ?Hfl, ?Han, ?Hse, ?Ho; try done; apply zero_int_ok).
  destruct (control_append_repr active t1 t2 _ e segs rs head d' Hperm He Hat Hroom Happ) as (ino & id & act & -> & Hr).
  pose proof (line_decodes (concat segs ++ act) _ e He Hroom) as Hdec. apply decode_decoded in Hdec.
  set (rs := concat segs ++ act) in *. set (line := line_at rs (ce_record env) e) in *.
  exists (rs ++ [line]), (decoded_of (san_record (record_at rs (ce_record env) e))). split_and!.
  - eexists. split; [rewrite (Read_repr active d' ino id segs _ "" _ Hr); unfold verdict; by rewrite bool_decide_true|]. cbn [view_of v_Records]. unfold rs at 1. rewrite <- app_assoc. split; [done|].
    split; [|cbn; rewrite Hch; by apply to_valid_id]. unfold LastInstalling. rewrite foldl_app. cbn [foldl]. unfold last_installing at 1. rewrite Hdec.
    unfold Installing. cbn. rewrite Ho, Hch, (to_valid_id h Hvh), (bool_decide_false (h = "")) by done. cbn [negb andb].
    by destruct Hact as [->|[->|[[->| ->] ->]]].
  - cbn. by apply to_valid_id.
  - done.
  - cbn. by rewrite zlen_app.
Qed.
End recorded.

Section writers.
  Context `{Ed25519} `{GoText} `{GoURL} `{ConfigYaml} `{FlagYaml}.
  Context (active : string) (url_Parse : string -> option (string * string)) (text : fault -> string).

(** ** Frames *)
Lemma with_ledger_store r d : rt_store (with_ledger r d) = rt_store r.
Proof. done. Qed.

Lemma append_event_store r env e res r' : append_event active r env e = (res, r') -> rt_store r' = rt_store r /\ r' = with_ledger r (rt_ledger r').
Proof. unfold append_event. destruct (ce_append env (rt_ledger r)) as [t1 t2]. destruct (Append active t1 t2 _ e) as [x d]. intros [= <- <-]. done. Qed.

Lemma open_ledger_store r env res r' : open_ledger active r env = (res, r') -> r' = with_ledger r (rt_ledger r').
Proof. unfold open_ledger. destruct (ce_writable env _) as [t1 t2]. intros [= <- <-]. done. Qed.

(** Signing touches only the signature files. *)
Definition same_install (s s' : istore) : Prop := is_current s' = is_current s /\ is_dirs s' = is_dirs s.
Lemma write_signature_same s hash p sig ok : same_install s (WriteSignatureFile s hash p sig ok).2.
Proof. unfold WriteSignatureFile. by destruct (installedHashRE hash), ok. Qed.
Lemma sign_installed_frame r lock w res r' : signInstalled active r lock w = (res, r') -> same_install (rt_store r) (rt_store r') /\ rt_ledger r' = rt_ledger r.
Proof.
  unfold signInstalled. destruct (buildSignature active r lock) as [i|]; [|by intros [= <- <-]].
  pose proof (write_signature_same (rt_store r) (si_Hash i) (si_Payload i) (si_Sig i) w) as Hw.
  destruct (WriteSignatureFile _ _ _ _ _) as [[e|] s]; by intros [= <- <-].
Qed.
Lemma sign_if_frame r lock w res r' : signIfConfigured active r lock w = (res, r') -> same_install (rt_store r) (rt_store r') /\ rt_ledger r' = rt_ledger r.
Proof.
  unfold signIfConfigured. destruct (signingStateOf r) as [st|]; [|by intros [= <- <-]]. destruct (configured st); cbn [negb]; [|by intros [= <- <-]].
  destruct (signInstalled active r lock w) as [[i|e] r1] eqn:E; intros [= <- <-]; by eapply sign_installed_frame.
Qed.

Lemma roles_verified s roles h : InstalledRoles s = Ok (Some (roles, h)) -> HashDir (is_dirs s !! SnapshotDir h) = Ok h /\ InstalledHash s = Ok (Some h).
Proof.
  unfold InstalledRoles, VerifyInstalled. destruct (InstalledHash s) as [[h'|]|]; try done. cbn [result_bind]. destruct (HashDir _) as [got|] eqn:Eh; [|done]. cbn [result_bind].
  case_bool_decide as Hg; [|done]. cbn [result_bind]. destruct (loadFiles _ _) as [cfg [|]]; [|done]. destruct (c_Roles cfg); [done|]. intros [= _ <-]. split; [congruence|done].
Qed.

Lemma installed_hash_re s h : InstalledHash s = Ok (Some h) -> installedHashRE h = true.
Proof. unfold InstalledHash. destruct (is_current s) as [[raw|]|]; try done. destruct (installedHashRE (TrimSpace raw)) eqn:E; [|done]. by intros [= <-]. Qed.

(** ** Accounting *)
Section apply.
  Context (req : applyRequest) (env : control_env).

(** The outcome a kind's record bears. *)
Definition recorded_as (k : applyKind) : option string :=
  match k with
  | applyInstalled | applyInstalledNotSigned => Some "success"
  | applyRefused => Some "refused"
  | applyRejected => Some "rejected"
  | applyError => Some "error"
  | _ => None
  end.

(** At most one event went to the ledger found at [d], leaving [d']: none, one
    that failed, or the one the outcome names, with the head it reports. *)
Definition accounted (d : disk) (out : applyOutcome) (d' : disk) : Prop :=
  let appended e res := exists t1 t2, ce_append env d = (t1, t2) /\ Append active t1 t2 (ce_record env) e = (res, d') in
  match recorded_as (ao_Kind out) with
  | Some o => exists b, appended (apply_event req env o (ao_Reason out) (ao_ConfigHash out) b) (Ok (ao_Head out)) /\ b = bool_decide (o = "success") && negb (ao_Installed out)
  | None =>
      if bool_decide (ao_Kind out = applyAppendFailed) || bool_decide (ao_Kind out = applyInstalledNotRecorded)
      then exists e err, appended e (Err err) /\ ce_Action e = "apply" /\ ce_Invoker e = rq_Invoker req
      else d' = d
  end.

Lemma record_accounted res r kind outcome reason hash out r' : recorded_as kind = Some outcome -> kind <> applyInstalledNotSigned ->
  apply_record active req env res r kind outcome reason hash = (out, r') ->
  accounted (rt_ledger r) out (rt_ledger r') /\ r' = with_ledger r (rt_ledger r') /\ ao_Installed out = ao_Installed res /\
  (ao_Kind out = kind \/ ao_Kind out = if bool_decide (kind = applyInstalled) then applyInstalledNotRecorded else applyAppendFailed).
Proof.
  intros Hk Hns. destruct res. unfold apply_record. outcome_fields. destruct (append_event active r env _) as [[head|err] r1] eqn:E; intros [= <- <-]; outcome_fields.
  - pose proof (append_event_store _ _ _ _ _ E) as [_ Hr]. unfold append_event in E. destruct (ce_append env (rt_ledger r)) as [t1 t2] eqn:Et.
    destruct (Append active t1 t2 _ _) as [x d] eqn:Ea. injection E as -> <-. split; [|by split_and!; auto]. unfold accounted. outcome_fields. rewrite Hk.
    eexists. split; [exists t1, t2; split; [exact Et|exact Ea]|]. destruct kind; simplify_eq; cbn in Hk; simplify_eq; reflexivity.
  - pose proof (append_event_store _ _ _ _ _ E) as [_ Hr]. unfold append_event in E. destruct (ce_append env (rt_ledger r)) as [t1 t2] eqn:Et.
    destruct (Append active t1 t2 _ _) as [x d] eqn:Ea. injection E as -> <-. split; [|by split_and!; auto]. unfold accounted. outcome_fields.
    case_bool_decide; outcome_fields; cbn; eexists _, _; (split; [exists t1, t2; split; [exact Et|exact Ea]|done]).
Qed.

(** ** Judged *)
Definition installs (k : applyKind) : bool :=
  match k with applyInstalled | applyInstalledNotRecorded | applyInstalledNotSigned => true | _ => false end.

(** A step that ends without an install. *)
Definition stays (r : croot) (out : applyOutcome) (r' : croot) : Prop :=
  accounted (rt_ledger r) out (rt_ledger r') /\ rt_store r' = rt_store r /\ installs (ao_Kind out) = false.

Lemma record_stays res r kind outcome reason hash out r' : recorded_as kind = Some outcome -> installs kind = false ->
  apply_record active req env res r kind outcome reason hash = (out, r') -> stays r out r'.
Proof.
  intros Hk Hi Hr. destruct (record_accounted res r kind outcome reason hash out r' Hk) as (Ha & Hr' & _ & Hkind); [by intros ->|done|].
  split; [done|]. split; [by rewrite Hr'|]. rewrite bool_decide_false in Hkind by (by intros ->). by destruct Hkind as [->| ->].
Qed.
Lemma io_stays res r e out r' : apply_io_error active text req env res r e = (out, r') -> stays r out r'.
Proof. by apply record_stays. Qed.
Lemma refused_stays res r reason out r' : apply_refused active text req env res r reason = (out, r') -> stays r out r'.
Proof. unfold apply_refused. destruct (source_hash _); [by apply record_stays|apply io_stays]. Qed.
Lemma rejected_stays res r temp cause out r' : apply_rejected active text req env res r temp cause = (out, r') -> stays r out r'.
Proof. unfold apply_rejected. destruct (HashDir _); [by apply record_stays|apply io_stays]. Qed.

(** What was installed: the proposal's copy [t], judged, under its hash. *)
Definition installed_as (t : tree) (out : applyOutcome) (s' : istore) : Prop :=
  exists cfg reg t', LoadDir (Some t) = (cfg, []) /\ Build url_Parse cfg = Ok reg /\ applyFloorErrors cfg = [] /\
    HashDir (Some t) = Ok (ao_ConfigHash out) /\ installedHashRE (ao_ConfigHash out) = true /\
    is_current s' = Some (Some (ao_ConfigHash out +:+ nl)) /\ is_dirs s' !! SnapshotDir (ao_ConfigHash out) = Some t' /\ HashDir (Some t') = Ok (ao_ConfigHash out).

Lemma sign_accounted d res r out r' : ao_Kind res = applyInstalled -> accounted d res (rt_ledger r) -> apply_sign active env res r = (out, r') ->
  accounted d out (rt_ledger r') /\ same_install (rt_store r) (rt_store r') /\ rt_ledger r' = rt_ledger r /\ ao_ConfigHash out = ao_ConfigHash res /\
  (ao_Kind out = applyInstalled \/ ao_Kind out = applyInstalledNotSigned).
Proof.
  intros Hk Ha. unfold apply_sign. destruct res. cbn in Hk. subst ao_Kind. destruct (signingStateOf r) as [st|e]; [|intros [= <- <-]; outcome_fields; by split_and!; auto].
  destruct (configured st); cbn [negb]; [|intros [= <- <-]; by split_and!; auto].
  destruct (signInstalled active r _ _) as [[info|e] r1] eqn:E; apply sign_installed_frame in E as [Hs Hl]; intros [= <- <-]; outcome_fields; rewrite Hl; by split_and!; auto.
Qed.

(** The end of a judged copy: an install, or a pointer left alone. *)
Definition staged_end (t : tree) (r : croot) (out : applyOutcome) (r' : croot) (committed : bool) : Prop :=
  accounted (rt_ledger r) out (rt_ledger r') /\ installs (ao_Kind out) = committed /\
  if committed then installed_as t out (rt_store r') else is_current (rt_store r') = is_current (rt_store r).

Lemma commit_step res r temp h cfg reg t out r' committed : is_dirs (rt_store r) !! temp = Some t -> has_prefix temp ".staging-" = true ->
  LoadDir (Some t) = (cfg, []) -> Build url_Parse cfg = Ok reg -> applyFloorErrors cfg = [] -> HashDir (Some t) = Ok h ->
  apply_commit active text req env res r temp h cfg = (out, r', committed) ->
  staged_end t r out r' committed.
Proof.
  intros Ht Htemp Hload Hbuild Hfloor Hhash. unfold apply_commit. destruct (CommitSnapshot (rt_store r) temp h _) as [err s] eqn:Ec.
  pose proof (commit_dirs _ _ _ _ _ _ _ Ht Ec) as [_ Hc]. destruct err as [e|].
  - destruct (apply_io_error _ _ _ _ _ _ _) as [o r1] eqn:Ei. intros [= <- <- <-]. apply io_stays in Ei as (Ha & Hs & Hi). split; [exact Ha|]. split; [done|]. by rewrite Hs.
  - destruct Hc as (Hre & Hcur & Hdir). destruct (Hdir (temp_not_snapshot _ _ Htemp Hre)) as (t' & Ht' & Hcase).
    assert (Hgoal : forall out s', same_install s s' -> ao_ConfigHash out = h -> installed_as t out s').
    { intros o s' [Hc' Hd'] Eh. exists cfg, reg, t'. rewrite Eh, Hc', Hd'. split_and!; try done. by destruct Hcase as [->|]. }
    destruct (apply_record _ _ _ _ _ _ _ _ _) as [o r1] eqn:Er. pose proof Er as Er2. apply record_accounted in Er as (Ha & Hr1 & Hins & Hk); [|done|done].
    assert (Eh : ao_ConfigHash o = h).
    { unfold apply_record in Er2. destruct res. outcome_fields. destruct (append_event _ _ _ _) as [[]]; injection Er2 as <- _; outcome_fields; done. }
    rewrite bool_decide_true in Hk by done. case_bool_decide as Hki.
    + destruct (apply_sign active env o r1) as [o2 r2] eqn:Es. intros [= <- <- <-].
      destruct (sign_accounted (rt_ledger r) o r1 o2 r2 Hki Ha Es) as (Ha2 & Hsame & Hled & Hh2 & Hk2). split; [done|]. split; [by destruct Hk2 as [->| ->]|].
      apply Hgoal; [|congruence]. rewrite Hr1 in Hsame. exact Hsame.
    + intros [= <- <- <-]. split; [done|]. destruct Hk as [|Hk]; [done|]. rewrite Hk. split; [done|]. apply Hgoal; [|done]. by rewrite Hr1.
Qed.

Definition hash_agreed (out : applyOutcome) : Prop := verifyStaged (rq_Source req) = true -> source_hash (rq_Source req) = Ok (ao_ConfigHash out).

Lemma stays_end t r (p : applyOutcome * croot) out r' committed : (forall o r1, p = (o, r1) -> stays r o r1) -> (p, false) = (out, r', committed) ->
  staged_end t r out r' committed /\ (committed = true -> hash_agreed out).
Proof. intros Hp [= -> <-]. destruct (Hp _ _ eq_refl) as (? & Hs & ?). split; [|done]. split; [done|]. split; [done|]. by rewrite Hs. Qed.

Lemma staged_step res r temp t out r' committed : is_dirs (rt_store r) !! temp = Some t -> has_prefix temp ".staging-" = true ->
  apply_staged active url_Parse text req env res r temp = (out, r', committed) -> staged_end t r out r' committed /\ (committed = true -> hash_agreed out).
Proof.
  intros Ht Htemp. unfold apply_staged. rewrite Ht. destruct (LoadDir (Some t)) as [cfg errs] eqn:El.
  destruct errs as [|e errs]; [|apply stays_end; intros o r1; apply rejected_stays]. destruct (Build url_Parse cfg) as [reg|verrs] eqn:Eb.
  - cbn [app]. destruct (applyFloorErrors cfg) as [|ve ves] eqn:Ef; [|apply stays_end; intros o r1; apply rejected_stays].
    destruct (HashDir (Some t)) as [h|] eqn:Eh; [|apply stays_end; intros o r1; apply io_stays].
    assert (Hc : forall res', apply_commit active text req env res' r temp h cfg = (out, r', committed) -> staged_end t r out r' committed /\ (committed = true -> ao_ConfigHash out = h)).
    { intros res' Hc. pose proof (commit_step _ _ _ _ _ reg t _ _ _ Ht Htemp El Eb Ef Eh Hc) as Hend. split; [exact Hend|]. intros ->.
      destruct Hend as (_ & _ & ? & ? & ? & ? & ? & ? & Hh & _). congruence. }
    destruct (verifyStaged (rq_Source req)) eqn:Ev; [|intros Hcm; destruct (Hc _ Hcm); split; [done|]; intros _; unfold hash_agreed; by rewrite Ev].
    destruct (source_hash (rq_Source req)) as [want|] eqn:Ew; [|apply stays_end; intros o r1; apply io_stays].
    case_bool_decide as Hw; cbn [negb]; [|apply stays_end; intros o r1; apply io_stays].
    subst want. intros Hcm. destruct (Hc _ Hcm) as [? Hh]. split; [done|]. intros Hcom _. rewrite Hh by done. done.
  - destruct (verrs ++ applyFloorErrors cfg) as [|ve ves] eqn:Ev; [|apply stays_end; intros o r1; apply rejected_stays].
    exfalso. apply app_eq_nil in Ev as [-> _]. unfold Build in Eb. by destruct (Validate url_Parse cfg).
Qed.

(** The staged copy holds the proposal's files. *)
Definition copy_of (src : applySource) (t : tree) : Prop :=
  exists fl, SnapshotSound.reads t fl /\ match src with dirSource _ d => exists t0, d = Some t0 /\ SnapshotSound.reads t0 fl | bundleSource files => files = fl end.

Lemma stage_copies src s senv res s' : Stage src s senv = (res, s') ->
  match res with
  | Ok temp => exists t, s' = set_dir s temp t /\ sg_temp senv = Some temp /\ copy_of src t
  | Err _ => s' = s
  end.
Proof.
  intros Hs. destruct res as [temp|e].
  - destruct src as [d0 d|files]; cbn [Stage] in Hs.
    + apply StageSnapshot_reads in Hs as (t0 & t & fl & -> & -> & Ht & Hr0 & Hr). exists t. split_and!; [done..|]. exists fl. split; [done|]. by exists t0.
    + apply StageFiles_reads in Hs as (t & -> & Ht & Hr & _). exists t. split_and!; [done..|]. by exists files.
  - destruct src as [d0 d|files]; cbn [Stage] in Hs.
    + unfold StageSnapshot, stage in Hs. by repeat case_match; simplify_eq.
    + unfold StageFiles, stage in Hs. by repeat case_match; simplify_eq.
Qed.

Definition allowed (installed : option (list RoleDef * string)) : Prop :=
  match installed with Some (roles, _) => ControlAllows roles (rq_Invoker req) "apply" = true | None => rq_AllowBootstrap req = true end.

Context (Htemp : forall temp, sg_temp (ce_stage env) = Some temp -> has_prefix temp ".staging-" = true).

(** The proposal is what is installed; a bundle under the hash of its files. *)
Definition proposal_installed (out : applyOutcome) (s' : istore) : Prop := exists t, copy_of (rq_Source req) t /\ installed_as t out s' /\ hash_agreed out.

(** Nothing is installed that was not permitted. *)
Definition guarded (P : Prop) (r : croot) (out : applyOutcome) (r' : croot) : Prop :=
  accounted (rt_ledger r) out (rt_ledger r') /\
  if installs (ao_Kind out) then P /\ proposal_installed out (rt_store r') else is_current (rt_store r') = is_current (rt_store r).
Lemma stays_guarded P r out r' : stays r out r' -> guarded P r out r'.
Proof. intros (? & Hs & Hi). unfold guarded. rewrite Hi. by rewrite Hs. Qed.
Lemma guarded_impl P Q r out r' : guarded P r out r' -> (P -> Q) -> guarded Q r out r'.
Proof. unfold guarded. intros [? Hi] HPQ. split; [done|]. destruct (installs _); [|done]. destruct Hi. auto. Qed.

Lemma authorized_step res r installed out r' : apply_authorized active url_Parse text req env res r installed = (out, r') ->
  guarded (allowed installed /\ precondition_fails req (snd <$> installed) = false) r out r'.
Proof.
  unfold apply_authorized. destruct (match installed with Some _ => _ | None => _ end) as [reason|] eqn:Ea; [intros Hr; apply stays_guarded; by eapply refused_stays|].
  assert (Hall : allowed installed) by (unfold allowed; by destruct installed as [[roles h]|]; repeat case_match).
  destruct (precondition_fails req (snd <$> installed)) eqn:Ep; [intros [= <- <-]; apply stays_guarded; by destruct res|].
  destruct (Stage (rq_Source req) (rt_store r) (ce_stage env)) as [[temp|e] s] eqn:Es; apply stage_copies in Es; cbn match in Es.
  - destruct Es as (t & -> & Ht & Hcopy). destruct (apply_staged _ _ _ _ _ _ _ _) as [[o r1] committed] eqn:Est. intros [= <- <-].
    destruct (staged_step res (with_store r (set_dir (rt_store r) temp t)) temp t o r1 committed ltac:(cbn; apply lookup_insert_eq) (Htemp _ Ht) Est) as [(Ha & Hi & Hd) Hagree].
    unfold guarded. rewrite Hi. destruct committed; cbn [negb andb].
    + split; [exact Ha|]. split; [done|]. exists t. auto.
    + destruct (ce_cleanup env); cbn [rt_ledger rt_store with_store is_current remove_dir]; (split; [exact Ha|]); exact Hd.
  - subst s. intros Hio. apply io_stays in Hio. assert (with_store r (rt_store r) = r) as Er by (by destruct r). rewrite Er in Hio. by apply stays_guarded.
Qed.

(** What an install was allowed by: the installed configuration, verified, on
    record and granting the operation, or nothing installed and a bootstrap. *)
Definition permitted (r : croot) : Prop :=
  match InstalledRoles (rt_store r) with
  | Err _ => False
  | Ok None => rq_AllowBootstrap req = true /\ precondition_fails req None = false
  | Ok (Some (roles, current)) =>
      HashDir (is_dirs (rt_store r) !! SnapshotDir current) = Ok current /\ (exists records last, on_record active (ce_read env) (rt_ledger r) current records last) /\
      ControlAllows roles (rq_Invoker req) "apply" = true /\ precondition_fails req (Some current) = false
  end.

Lemma locked_step r out r' : apply_locked active url_Parse text req env r = (out, r') -> guarded (permitted r) r out r'.
Proof.
  unfold apply_locked, permitted. destruct (InstalledRoles (rt_store r)) as [[[roles h]|]|e] eqn:Er.
  - destruct (vouchInstalled _ _ _ _) as [[records last] [refusal|]] eqn:Ev.
    + destruct (Transient refusal); [by intros [= <- <-]|]. case_bool_decide; cbn [negb]; [|by intros [= <- <-]].
      intros Hr. apply stays_guarded. by eapply refused_stays.
    + intros Ha. eapply guarded_impl; [by eapply authorized_step|]. intros [Hall Hp].
      apply vouch_passes in Ev as (rs & l & _ & Hon). split_and!; [by eapply roles_verified|by exists rs, l|done..].
  - intros Ha. by eapply guarded_impl; [eapply authorized_step|].
  - intros Hio. apply stays_guarded. by eapply io_stays.
Qed.

Lemma config_step r out r' : applyConfig active url_Parse text req env r = (out, r') ->
  guarded (permitted (open_ledger active r env).2) (open_ledger active r env).2 out r'.
Proof.
  unfold applyConfig. destruct (open_ledger active r env) as [[e|] r1]; cbn [snd].
  - intros [= <- <-]. apply stays_guarded. destruct (is_lock_held e); [done|]. by destruct e.
  - destruct (ce_lock env) as [[]|e]; [apply locked_step|]. destruct e; try (intros Hio; apply stays_guarded; by eapply io_stays). by intros [= <- <-].
Qed.

(** ** The next run *)

(** Two trees of one hash whose files differ. *)
Definition tree_collision (t t' : tree) : Prop := exists fl fl', SnapshotSound.reads t fl /\ SnapshotSound.reads t' fl' /\ hash_collision (canonical fl) (canonical fl').
Lemma same_hash_loads t t' h : HashDir (Some t) = Ok h -> HashDir (Some t') = Ok h -> LoadDir (Some t') = LoadDir (Some t) \/ tree_collision t t'.
Proof.
  intros (t1 & fl & [= <-] & Hr & ->)%hash_reads (t2 & fl' & [= <-] & Hr' & E)%hash_reads.
  destruct (reads_commit _ _ _ _ Hr Hr' E) as [<-|Hc]; [left|right; by exists fl, fl'].
  unfold LoadDir. by rewrite (loadFiles_reads t fl _ Hr), (loadFiles_reads t' fl _ Hr').
Qed.

Lemma floor_has_roles cfg : applyFloorErrors cfg = [] -> c_Roles cfg <> [].
Proof. unfold applyFloorErrors. intros Hf E. by rewrite E in Hf. Qed.

Lemma installed_loads t out s' cfg reg : installed_as t out s' -> LoadDir (Some t) = (cfg, []) -> Build url_Parse cfg = Ok reg ->
  LoadInstalled s' = (cfg, Some (ao_ConfigHash out), []) \/ exists t', is_dirs s' !! SnapshotDir (ao_ConfigHash out) = Some t' /\ tree_collision t t'.
Proof.
  intros (cfg0 & reg0 & t' & Hl0 & _ & Hf & Hh & Hre & Hcur & Ht' & Hh') Hl _. rewrite Hl in Hl0. injection Hl0 as <-.
  destruct (same_hash_loads t t' _ Hh Hh') as [El|Hc]; [left|right; by exists t']. refine (proj2 (load_clean _ _ _) _). rewrite Ht'.
  split_and!; [by apply pointer_reads|done|congruence|by apply floor_has_roles].
Qed.

(** The event of an install. *)
Lemma apply_installs out b : installedHashRE (ao_ConfigHash out) = true -> install_event (apply_event req env "success" (ao_Reason out) (ao_ConfigHash out) b) (ao_ConfigHash out).
Proof. intros Hre. unfold install_event. split_and!; try done. by left. Qed.

(** C13: what an apply reports as installed, the next run executes.  Over a
    ledger an append finds readable, after an apply that ends installed (signed
    or not) an unpinned execution read resolves to the registry built from the
    proposal's own files, the control ledger's last install being this apply by
    this invoker (or a SHA-256 collision with a snapshot already in the store is
    exhibited). *)
Theorem applied_is_executed (r r' : croot) (out : applyOutcome) (mode : verifyMode) (renv : resolve_env)
  (Ha : applyConfig active url_Parse text req env r = (out, r')) (Hk : recorded_as (ao_Kind out) = Some "success")
  (Hready : forall b, ready active env (rt_ledger (open_ledger active r env).2) (apply_event req env "success" (ao_Reason out) (ao_ConfigHash out) b))
  (Hpin : pin_of r' None = Ok None) (Hrun : ve_lock renv = Ok () /\ ve_read renv = Ok ()) :
  exists t cfg reg, copy_of (rq_Source req) t /\ LoadDir (Some t) = (cfg, []) /\ Build url_Parse cfg = Ok reg /\
    (exists records last, on_record active (Ok ()) (rt_ledger r') (ao_ConfigHash out) records last /\ d_Action last = "apply" /\ d_Invoker last = san_invoker (rq_Invoker req)) /\
    (rv_reg (resolveRunConfig active url_Parse r' None mode renv).1 = Some reg \/
     exists t', is_dirs (rt_store r') !! SnapshotDir (ao_ConfigHash out) = Some t' /\ tree_collision t t').
Proof.
  pose proof (config_step r out r' Ha) as [Hacc Hinst]. assert (Hi : installs (ao_Kind out) = true) by (by destruct (ao_Kind out)). rewrite Hi in Hinst.
  destruct Hinst as [_ (t & Hcopy & Hins & _)]. pose proof Hins as (cfg & reg & t' & Hl & Hb & _ & _ & Hre & _). exists t, cfg, reg. split_and!; [done..| |].
  - unfold accounted in Hacc. rewrite Hk in Hacc. destruct Hacc as (b & (t1 & t2 & Ht & Happ) & _).
    destruct (install_recorded active env _ _ _ _ _ _ _ (Hready b) (apply_installs out b Hre) Ht Happ) as (records & last & Hon & Hact & Hinv & _).
    by exists records, last.
  - destruct (installed_loads t out _ cfg reg Hins Hl Hb) as [Hload|Hc]; [left|by right]. destruct Hrun as [Hlock Hread].
    apply resolve_runs. unfold accounted in Hacc. rewrite Hk in Hacc. destruct Hacc as (b & (t1 & t2 & Ht & Happ) & _).
    destruct (install_recorded active env _ _ _ _ _ _ _ (Hready b) (apply_installs out b Hre) Ht Happ) as (records & last & Hon & _).
    exists cfg, (ao_ConfigHash out), None, records, last. rewrite Hread. done.
Qed.

(** C12: an apply installs only what was permitted and judged, and accounts for
    itself.  Whatever fails, at most one event goes to the ledger, and the
    outcome names exactly it: a recorded kind was appended with the invoker,
    the reason, the hash and the head reported, any other kind left the ledger
    alone or reports the append that failed.  The pointer moves only when
    nothing was installed and bootstrap was allowed, or the installed
    configuration was verified byte for byte, was the ledger's last install and
    its roles grant apply to the invoker, and the precondition held; and then
    what is installed is the proposal, loaded, validated, leaving someone who
    may apply, under its own hash. *)
Theorem apply_is_guarded (r r' : croot) (out : applyOutcome) (Ha : applyConfig active url_Parse text req env r = (out, r')) :
  guarded (permitted (open_ledger active r env).2) (open_ledger active r env).2 out r'.
Proof. by apply config_step. Qed.
End apply.

(** ** The kill switch *)

(** One agent's file, rewritten with its bit set. *)
Definition one_bit (target : string) (enable : bool) (t t2 : tree) : Prop :=
  exists rel data out, rel ∈ listSub t "agents" /\ t !! rel = Some (File (Some data)) /\ yaml_name_of data = Some target /\
    yaml_with_enabled data enable = Some out /\ t2 = <[rel := File (Some out)]> t.

Lemma set_enabled_one t target enable w t2 : SetEnabled (Some t) target enable w = Ok t2 -> one_bit target enable t t2.
Proof.
  unfold SetEnabled, one_bit. destruct (t !! "agents") as [[|]|]; try done. induction (listSub t "agents") as [|rel rels IH]; cbn [set_enabled_in]; [done|].
  unfold read_file. destruct (t !! rel) as [[|[data|]]|] eqn:Er; try done. cbn [result_bind]. destruct (yaml_name_of data) as [name|] eqn:En.
  - case_bool_decide as Hn.
    + subst name. destruct (yaml_with_enabled data enable) as [out|] eqn:Ee; [|done]. destruct w; [|done]. intros [= <-]. exists rel, data, out. split_and!; try done. by left.
    + intros Hs. destruct (IH Hs) as (rel' & data' & out' & Hin & Hrest). exists rel', data', out'. split; [by right|done].
  - intros Hs. destruct (IH Hs) as (rel' & data' & out' & Hin & Hrest). exists rel', data', out'. split; [by right|done].
Qed.

Section flip.
  Context (enable : bool) (target : string) (who : runInvoker) (env : control_env).
  Context (Htemp : forall temp, sg_temp (ce_stage env) = Some temp -> has_prefix temp ".staging-" = true).

(** A copy [t] of the installed files with one bit flipped is installed as [h]. *)
Definition flipped (fl : bundle) (h : string) (s' : istore) : Prop :=
  exists t t2 t', SnapshotSound.reads t fl /\ one_bit target enable t t2 /\ HashDir (Some t2) = Ok h /\ installedHashRE h = true /\
    is_current s' = Some (Some (h +:+ nl)) /\ is_dirs s' !! SnapshotDir h = Some t' /\ HashDir (Some t') = Ok h.

Lemma flip_exit_store r outcome reason code r' : flip_exit active enable target who env r outcome reason = (code, r') -> code = 1 /\ rt_store r' = rt_store r.
Proof.
  unfold flip_exit. destruct (append_event active r env _) as [x r1] eqn:E. cbn [snd]. intros [= <- <-]. split; [done|]. by apply append_event_store in E as [-> _].
Qed.

(** The success record was appended to the ledger found at [d]. *)
Definition flip_recorded (d : disk) (h : string) (d' : disk) : Prop :=
  exists t1 t2 head, ce_append env d = (t1, t2) /\ Append active t1 t2 (ce_record env) (flip_event enable target who env "success" None h false) = (Ok head, d').

Lemma flip_record_step r h code r' : flip_record active enable target who env r h = (code, r') ->
  same_install (rt_store r) (rt_store r') /\ (code = 0 -> flip_recorded (rt_ledger r) h (rt_ledger r')).
Proof.
  unfold flip_record. destruct (append_event active r env _) as [[head|err] r1] eqn:E; pose proof (append_event_store _ _ _ _ _ E) as [Hs _].
  - destruct (signIfConfigured active r1 _ _) as [[i|e] r2] eqn:Es; apply sign_if_frame in Es as [[Hc Hd] Hl]; intros [= <- <-]; (split; [by rewrite <- Hs|]); [|done].
    intros _. rewrite Hl. unfold append_event in E. destruct (ce_append env (rt_ledger r)) as [t1 t2] eqn:Et. destruct (Append active t1 t2 _ _) as [x d] eqn:Ea.
    injection E as -> <-. by exists t1, t2, head.
  - intros [= <- <-]. split; [|done]. by rewrite Hs.
Qed.

Lemma flip_staged_step r temp t fl code r' committed : is_dirs (rt_store r) !! temp = Some t -> has_prefix temp ".staging-" = true -> SnapshotSound.reads t fl ->
  flip_staged active text enable target who env r temp = (code, r', committed) ->
  if committed then exists h, flipped fl h (rt_store r') /\ (code = 0 -> flip_recorded (rt_ledger r) h (rt_ledger r'))
  else code = 1 /\ is_current (rt_store r') = is_current (rt_store r).
Proof.
  intros Ht Hst Hr. unfold flip_staged. rewrite Ht.
  assert (Hexit : forall r0 outcome reason, is_current (rt_store r0) = is_current (rt_store r) ->
    (flip_exit active enable target who env r0 outcome reason, false) = (code, r', committed) ->
    if committed then exists h, flipped fl h (rt_store r') /\ (code = 0 -> flip_recorded (rt_ledger r) h (rt_ledger r'))
    else code = 1 /\ is_current (rt_store r') = is_current (rt_store r)).
  { intros r0 outcome reason Hc. destruct (flip_exit _ _ _ _ _ _ _ _) as [c r1] eqn:E. intros [= <- <- <-]. apply flip_exit_store in E as [-> Hs]. split; [done|]. by rewrite Hs. }
  destruct (LoadDir (Some t)) as [cfg [|e errs]]; [|by apply Hexit]. destruct (known_agent target cfg); cbn [negb]; [|by apply Hexit].
  destruct (SetEnabled (Some t) target enable (ce_edit env)) as [t2|e] eqn:Ee; [|by apply Hexit]. apply set_enabled_one in Ee.
  assert (Ht2 : is_dirs (rt_store (with_store r (set_dir (rt_store r) temp t2))) !! temp = Some t2) by (cbn; apply lookup_insert_eq). rewrite Ht2.
  destruct (HashDir (Some t2)) as [h|e] eqn:Eh; [|by apply Hexit].
  destruct (CommitSnapshot _ temp h (ce_commit env)) as [err s] eqn:Ec. pose proof (commit_dirs _ _ _ _ _ _ _ Ht2 Ec) as [_ Hc]. destruct err as [e|]; [apply Hexit; cbn; by rewrite Hc|].
  destruct (flip_record _ _ _ _ _ _ _) as [c r1] eqn:Er. intros [= <- <- <-]. apply flip_record_step in Er as [[Hcur Hdirs] Hrec]. exists h. split; [|exact Hrec].
  destruct Hc as (Hre & Hcurs & Hdir). destruct (Hdir (temp_not_snapshot _ _ Hst Hre)) as (t' & Ht' & Hcase). exists t, t2, t'. rewrite Hcur, Hdirs. split_and!; try done.
  by destruct Hcase as [->|].
Qed.

Lemma flip_installed_step r hash code r' : flipInstalled active text enable target who env r hash = (code, r') ->
  code = 1 /\ is_current (rt_store r') = is_current (rt_store r) \/
  HashDir (is_dirs (rt_store r) !! SnapshotDir hash) = Ok hash /\
  exists t0 fl h, is_dirs (rt_store r) !! SnapshotDir hash = Some t0 /\ SnapshotSound.reads t0 fl /\ flipped fl h (rt_store r') /\
    (code = 0 -> flip_recorded (rt_ledger r) h (rt_ledger r')).
Proof.
  unfold flipInstalled, VerifyInstalled. destruct (HashDir _) as [got|e] eqn:Eh; cbn [result_bind]; [|intros E; left; apply flip_exit_store in E as [-> Hs]; by rewrite Hs].
  case_bool_decide as Hg; [|intros E; left; apply flip_exit_store in E as [-> Hs]; by rewrite Hs]. subst got.
  destruct (StageSnapshot _ _ _) as [[temp|e] s] eqn:Es.
  - apply StageSnapshot_reads in Es as (t0 & t & fl & Hd & -> & Ht & Hr0 & Hr).
    destruct (flip_staged _ _ _ _ _ _ _ _) as [[c r1] committed] eqn:Ef. intros [= <- <-].
    pose proof (flip_staged_step (with_store r (set_dir (rt_store r) temp t)) temp t fl c r1 committed ltac:(cbn; apply lookup_insert_eq) (Htemp _ Ht) Hr Ef) as Hstep.
    destruct committed; cbn [negb andb].
    + right. split; [done|]. destruct Hstep as (h & Hf & Hrec). by exists t0, fl, h.
    + left. destruct Hstep as [-> Hc]. split; [done|]. by destruct (ce_cleanup env).
  - intros E. left. apply flip_exit_store in E as [-> Hs]. split; [done|]. rewrite Hs. cbn. unfold StageSnapshot, stage in Es. by repeat case_match; simplify_eq.
Qed.

(** C18: the kill switch flips one bit of what is vouched for, or nothing.
    When something is installed, the configuration directory is left alone, and
    either the pointer stays and the command fails, or the installed snapshot
    hashed to the pointer, was the ledger's last install, its roles grant the
    operation to the invoker, and what is now installed is a copy of it in
    which one agent's file was rewritten with the bit; exit 0 means the ledger
    records this flip as the last install.  An invoker whose token was refused,
    or a posture the build cannot honour, moves nothing. *)
Theorem flip_is_guarded (posture : result integrity_error Integrity) (r r' : croot) (dir dir' : option tree) (code : Z) (roles : list RoleDef) (hash : string)
  (Hf : cmdRegistryFlip active text enable target who env posture r dir = (code, r', dir')) (Hi : InstalledRoles (rt_store r) = Ok (Some (roles, hash))) :
  let d := rt_ledger (open_ledger active r env).2 in
  dir' = dir /\
  (code <> 0 /\ is_current (rt_store r') = is_current (rt_store r) \/
   (exists records last, on_record active (ce_read env) d hash records last) /\ ControlAllows roles (ri_inv who) (flip_action enable) = true /\
   exists t0 fl h, is_dirs (rt_store r) !! SnapshotDir hash = Some t0 /\ HashDir (Some t0) = Ok hash /\ SnapshotSound.reads t0 fl /\ flipped fl h (rt_store r') /\
     (code = 0 -> ready active env d (flip_event enable target who env "success" None h false) ->
      exists records last, on_record active (Ok ()) (rt_ledger r') h records last /\ d_Action last = flip_action enable /\ d_Invoker last = san_invoker (ri_inv who))).
Proof.
  cbn zeta. unfold cmdRegistryFlip in Hf. destruct (_ || _); [injection Hf as <- <- <-; split; [done|by left]|]. destruct (open_ledger active r env) as [[e|] r1] eqn:Eo; pose proof (open_ledger_store _ _ _ _ Eo) as Hr1; cbn [snd].
  { injection Hf as <- <- <-. split; [done|]. left. by rewrite Hr1. }
  assert (Hs : rt_store r1 = rt_store r) by (by rewrite Hr1). rewrite <- Hs in *.
  assert (Hexit : forall outcome reason, (flip_exit active enable target who env r1 outcome reason, dir) = (code, r', dir') ->
    dir' = dir /\ code <> 0 /\ is_current (rt_store r') = is_current (rt_store r1)).
  { intros outcome reason. destruct (flip_exit active enable target who env r1 outcome reason) as [c r2] eqn:E. intros [= <- <- <-]. apply flip_exit_store in E as [-> Hx]. by rewrite Hx. }
  destruct (ri_refused who); [apply Hexit in Hf as [-> ?]; split; [done|by left]|].
  destruct (ce_lock env) as [[]|le]; [|destruct le; try (apply Hexit in Hf as [-> ?]; split; [done|by left]); injection Hf as <- <- <-; split; [done|by left]].
  rewrite Hi in Hf. destruct (vouchInstalled _ _ _ _) as [[rs l] [refusal|]] eqn:Ev.
  { destruct (_ || _); [injection Hf as <- <- <-; split; [done|by left]|]. apply Hexit in Hf as [-> ?]. split; [done|by left]. }
  destruct (ControlAllows roles (ri_inv who) _) eqn:Ea; cbn [negb] in Hf; [|apply Hexit in Hf as [-> ?]; split; [done|by left]].
  destruct (flipInstalled _ _ _ _ _ _ _ _) as [c r2] eqn:Ef. injection Hf as <- <- <-. split; [done|].
  apply flip_installed_step in Ef as [[-> ?]|(Hh & t0 & fl & h & Ht0 & Hrd & Hfl & Hrec)]; [by left|]. right.
  apply vouch_passes in Ev as (records & last & _ & Hon). split; [by exists records, last|]. split; [done|]. exists t0, fl, h. rewrite <- Ht0. split_and!; try done.
  intros Hc Hready. destruct (Hrec Hc) as (t1 & t2 & head & Ht & Happ). destruct Hfl as (? & ? & ? & _ & _ & _ & Hre & _).
  destruct (install_recorded active env _ _ h head t1 t2 _ Hready ltac:(unfold install_event; split_and!; try done; right; right; split; [by destruct enable; [left|right]|done]) Ht Happ)
    as (rs' & l' & Hon' & Hact & Hinv & _). by exists rs', l'.
Qed.
End flip.

(** ** The vouch *)
Section vouch.
  Context (who : runInvoker) (env : control_env).

(** A vouch moves nothing and blesses only verified bytes.  The pointer
    and the snapshots stay as they were; exit 0 means the installed snapshot
    hashes to the pointer, some role still grants apply to a named group, and
    the hash is the ledger's last install: it already was, and nothing was
    written, or a vouch by this invoker now records it. *)
Theorem vouch_blesses_only_verified (posture : result integrity_error Integrity) (r r' : croot) (code : Z) (Hv : cmdConfigVouch active text who env posture r = (code, r')) :
  same_install (rt_store r) (rt_store r') /\
  (code = 0 -> exists roles hash, InstalledRoles (rt_store r) = Ok (Some (roles, hash)) /\ HashDir (is_dirs (rt_store r) !! SnapshotDir hash) = Ok hash /\
    applyFloorErrors { zeroConfig with c_Roles := roles } = [] /\
    let d := rt_ledger (open_ledger active r env).2 in
    (rt_ledger r' = d /\ exists records last, on_record active (ce_read env) d hash records last) \/
    (ready active env d (vouch_event who env "success" None hash (vouch_detail (vouchInstalled active (ce_read env) d hash).1.2)) ->
      exists records last, on_record active (Ok ()) (rt_ledger r') hash records last /\ d_Action last = "vouch" /\ d_Invoker last = san_invoker (ri_inv who))).
Proof.
  unfold cmdConfigVouch in Hv. destruct (_ || _); [by injection Hv as <- <-|]. destruct (open_ledger active r env) as [[e|] r1] eqn:Eo; pose proof (open_ledger_store _ _ _ _ Eo) as Hr1; cbn [snd].
  { injection Hv as <- <-. split; [by rewrite Hr1|done]. }
  assert (Hs : rt_store r1 = rt_store r) by (by rewrite Hr1). rewrite <- Hs in *.
  assert (Hexit : forall outcome reason hash, vouch_exit active who env r1 outcome reason hash = (code, r') -> same_install (rt_store r1) (rt_store r') /\ code = 1).
  { intros outcome reason hash. unfold vouch_exit. destruct (append_event active r1 env _) as [x r2] eqn:E. cbn [snd]. intros [= <- <-]. by apply append_event_store in E as [-> _]. }
  destruct (ri_refused who); [apply Hexit in Hv as [? ->]; by split|].
  destruct (ce_lock env) as [[]|le]; [|destruct le; try (apply Hexit in Hv as [? ->]; by split); by injection Hv as <- <-].
  destruct (InstalledRoles (rt_store r1)) as [[[roles hash]|]|e] eqn:Er; [|by injection Hv as <- <-|apply Hexit in Hv as [? ->]; by split].
  destruct (applyFloorErrors _) as [|ve ves] eqn:Ef; [|apply Hexit in Hv as [? ->]; by split].
  destruct (roles_verified _ _ _ Er) as [Hh _]. destruct (vouchInstalled _ _ _ _) as [[rs l] [refusal|]] eqn:Ev.
  - destruct (_ || _); [by injection Hv as <- <-|]. destruct (append_event active r1 env _) as [[head|err] r2] eqn:Eap; pose proof (append_event_store _ _ _ _ _ Eap) as [Hs2 _];
      [|injection Hv as <- <-; by rewrite Hs2].
    destruct (signIfConfigured active r2 _ _) as [[i|e2] r3] eqn:Es; apply sign_if_frame in Es as [[Hc Hd] Hl]; injection Hv as <- <-; rewrite Hs2 in *; (split; [by split|]); [|done].
    intros _. exists roles, hash. split_and!; [done..|]. right. rewrite Ev. cbn [fst snd]. intros Hready. rewrite Hl. unfold append_event in Eap.
    destruct (ce_append env (rt_ledger r1)) as [t1 t2] eqn:Et. destruct (Append active t1 t2 _ _) as [x d] eqn:Ea. injection Eap as -> <-.
    assert (Hre : installedHashRE hash = true). { by eapply installed_hash_re, roles_verified. }
    destruct (install_recorded active env _ _ hash head t1 t2 _ Hready ltac:(unfold install_event; split_and!; try done; right; by left) Et Ea) as (rs' & l' & Hon & Hact & Hinv & _). by exists rs', l'.
  - injection Hv as <- <-. split; [done|]. intros _. exists roles, hash. split_and!; [done..|]. left. apply vouch_passes in Ev as (records & last & _ & Hon). split; [done|]. by exists records, last.
Qed.
End vouch.
End writers.

(** ** Witnesses *)
Definition ax_text : fault -> string := fun _ => "fault".
Definition ax_invoker : Invoker := MkInvoker "ann" "" "static" ["ops"].
Definition ax_who : runInvoker := MkRunInvoker ax_invoker "ann" false false "".
Definition ax_env : control_env :=
  MkControlEnv (fun d => (now d, now d)) (Ok ()) (Ok ()) (fun d => (now d, now d)) ex_append zeroWitness
    (MkStageEnv true (Some ".staging-1") (fun _ => true)) (MkCommitEnv true true true) true true (Ok ()) true.
Lemma ax_temp temp : sg_temp (ce_stage ax_env) = Some temp -> has_prefix temp ".staging-" = true.
Proof. by intros [= <-]. Qed.
Definition ax_empty : disk := MkDisk ∅ ∅ 0.

(** A ledger that was just created takes any record that fits. *)
Lemma ax_ready e : room (H := toy_text) [] ex_append e -> ready (H := toy_text) ex_active ax_env (create_file ax_empty ex_active "") e.
Proof.
  intros Hr. split; [|split; [split; by vm_compute|by vm_compute]]. exists [], []. split; [|exact Hr]. cbn [ax_env ce_append fst snd].
  pose proof (fresh_created ex_active ax_empty ex_fresh) as Hc. rewrite deciding_now. split; [exact (repr_holds ex_active _ _ _ _ _ _ _ Hc)|exact (walks_now ex_active _ _ _ _ _ _ _ Hc)].
Qed.

Definition ax_root : croot := MkRoot (MkIStore None ∅ ∅) ax_empty KeyAbsent KeyAbsent KeyAbsent None.
Definition ax_req : applyRequest := MkApply ax_invoker "ann" (dirSource (Some ex_dir) (Some ex_dir)) None true None.
Definition ax_done : applyOutcome * croot :=
  applyConfig (H := toy_ed) (H0 := toy_text) (H1 := toy_url) (H2 := toy_yaml) ex_active (fun _ => None) ax_text ax_req ax_env ax_root.
Lemma ax_opened : rt_ledger (open_ledger ex_active ax_root ax_env).2 = create_file ax_empty ex_active "".
Proof. vm_compute. reflexivity. Qed.

Lemma apply_is_guarded_witness :
  ao_Kind ax_done.1 = applyInstalled /\
  guarded (H0 := toy_text) (H1 := toy_url) (H2 := toy_yaml) ex_active (fun _ => None) ax_req ax_env
    (permitted (H2 := toy_yaml) ex_active ax_req ax_env (open_ledger ex_active ax_root ax_env).2) (open_ledger ex_active ax_root ax_env).2 ax_done.1 ax_done.2.
Proof.
  split; [by vm_compute|]. apply (apply_is_guarded (H := toy_ed) (H0 := toy_text) (H1 := toy_url) (H2 := toy_yaml) ex_active (fun _ => None) ax_text ax_req ax_env ax_temp).
  apply surjective_pairing.
Defined.

Definition ax_run : resolve_env := MkResolveEnv (Ok ()) (Ok ()) true.
Lemma ax_fits b : room (H := toy_text) [] ex_append (apply_event ax_req ax_env "success" (ao_Reason ax_done.1) (ao_ConfigHash ax_done.1) b).
Proof. destruct b; vm_compute; reflexivity. Qed.

Lemma applied_is_executed_witness :
  exists t cfg reg, copy_of (rq_Source ax_req) t /\ LoadDir (H := toy_yaml) (Some t) = (cfg, []) /\ Build (fun _ => None) cfg = Ok reg /\
    (exists records last, on_record ex_active (Ok ()) (rt_ledger ax_done.2) (ao_ConfigHash ax_done.1) records last /\ d_Action last = "apply" /\ d_Invoker last = san_invoker ax_invoker) /\
    (rv_reg (resolveRunConfig (H := toy_ed) (H0 := toy_yaml) ex_active (fun _ => None) ax_done.2 None verifyAndAdvance ax_run).1 = Some reg \/
     exists t', is_dirs (rt_store ax_done.2) !! SnapshotDir (ao_ConfigHash ax_done.1) = Some t' /\ tree_collision t t').
Proof.
  apply (applied_is_executed (H := toy_ed) (H0 := toy_text) (H1 := toy_url) (H2 := toy_yaml) ex_active (fun _ => None) ax_text ax_req ax_env ax_temp ax_root ax_done.2 ax_done.1
    verifyAndAdvance ax_run (surjective_pairing _)).
  - by vm_compute.
  - intros b. rewrite ax_opened. apply ax_ready, ax_fits.
  - by vm_compute.
  - done.
Defined.

(** The record of that install is lost; a vouch restores it. *)
Definition ax_lost : croot := with_ledger ax_done.2 ax_empty.
Definition ax_vouched : Z * croot := cmdConfigVouch (H := toy_ed) (H0 := toy_text) (H1 := toy_url) (H2 := toy_yaml) ex_active ax_text ax_who ax_env (Ok zeroIntegrity) ax_lost.

Lemma vouch_blesses_only_verified_witness :
  ax_vouched.1 = 0 /\ same_install (rt_store ax_lost) (rt_store ax_vouched.2).
Proof.
  split; [by vm_compute|].
  apply (vouch_blesses_only_verified (H := toy_ed) (H0 := toy_text) (H1 := toy_url) (H2 := toy_yaml) ex_active ax_text ax_who ax_env (Ok zeroIntegrity) ax_lost ax_vouched.2 ax_vouched.1 (surjective_pairing _)).
Defined.

(** An installed agent is disabled. *)
Definition ax_yaml : ConfigYaml := {|
  yaml_agent := fun s => Some (ex_agent (default s (cut_prefix "off " s)) []); yaml_workflow := fun _ => None;
  yaml_role := fun s => Some (MkRole s [] ["ops"] (Some ["apply"; "disable"]) "");
  yaml_gateway := fun _ => (c_Gateway zeroConfig, true) |}.
Definition ax_flag : FlagYaml := {| yaml_name_of := fun s => Some s; yaml_with_enabled := fun s b => Some (if b then s else "off " +:+ s) |}.
Definition ax_tree : tree := <["agents" := Dir]> (<["agents/a.yaml" := File (Some "a")]> ex_dir).
Definition ax_hash : string := sum [("agents/a.yaml", "a"); ("roles/ops.yaml", "ops")].
Definition ax_ledger : disk :=
  (Append (H := toy_text) (H0 := toy_url) ex_active (now ax_empty) (now ax_empty) ex_append { ex_event with ce_ConfigHash := ax_hash }).2.
Definition ax_live : croot := MkRoot (MkIStore (Some (Some (ax_hash +:+ nl))) {[SnapshotDir ax_hash := ax_tree]} ∅) ax_ledger KeyAbsent KeyAbsent KeyAbsent None.
Definition ax_flipped : Z * croot * option tree :=
  cmdRegistryFlip (H := toy_ed) (H0 := toy_text) (H1 := toy_url) (H2 := ax_yaml) (H3 := ax_flag) ex_active ax_text false "a" ax_who ax_env (Ok zeroIntegrity) ax_live None.
Definition ax_roles : list RoleDef := [MkRole "ops" [] ["ops"] (Some ["apply"; "disable"]) "roles/ops.yaml"].
Lemma ax_live_roles : InstalledRoles (H := ax_yaml) (rt_store ax_live) = Ok (Some (ax_roles, ax_hash)).
Proof. vm_compute. reflexivity. Qed.

Lemma triple_eta {A B C} (p : A * B * C) : p = (p.1.1, p.1.2, p.2).
Proof. by destruct p as [[]]. Qed.

Lemma flip_is_guarded_witness :
  ax_flipped.1.1 = 0 /\ ax_flipped.2 = None /\
  exists t0 fl h, is_dirs (rt_store ax_live) !! SnapshotDir ax_hash = Some t0 /\ SnapshotSound.reads t0 fl /\
    flipped (H3 := ax_flag) false "a" fl h (rt_store ax_flipped.1.2).
Proof.
  assert (E : ax_flipped.1.1 = 0) by (by vm_compute). split; [exact E|].
  destruct (flip_is_guarded (H := toy_ed) (H0 := toy_text) (H1 := toy_url) (H2 := ax_yaml) (H3 := ax_flag) ex_active ax_text false "a" ax_who ax_env ax_temp
    (Ok zeroIntegrity) ax_live ax_flipped.1.2 None ax_flipped.2 ax_flipped.1.1 ax_roles ax_hash) as [Hd [[Hc _]|(_ & _ & t0 & fl & h & Ht & _ & Hr & Hf & _)]].
  - exact (triple_eta ax_flipped).
  - exact ax_live_roles.
  - exact (False_ind _ (Hc E)).
  - split; [exact Hd|]. exists t0, fl, h. split; [exact Ht|]. split; [exact Hr|exact Hf].
Defined.
