(* ===== verification/AnchorCmd.v ===== *)
(** * Anchoring ([audit anchor]: [cmd/agenthof/anchor.go],
      [cmd/agenthof/anchor_runs.go])

    The command that pins the head of the control ledger, or of finished runs,
    into the transparency log: the guards of a control command, the submission,
    the proof beside a run, the record on the control ledger; a sweep over
    every run that has no proof yet; and what [audit verify control] makes of
    the anchors it finds.

    What the log, the disks, the clock and the lock answer is an argument, per
    run of a sweep ([round_env]).  The heads handed to the log are kept as a
    trace ([ps_filed]).  Flag parsing and diagnostics for operators are left
    out; the lines that are shipped off the host are modelled. *)
From S2P Require Import Prelude Sha256 GoStr Json Paths Ledger Config Authz Origin Registry Event Engine EngineTrace Completeness Tree Utf8 Attest Grants Credentials Doors ControlRecord Manifest Segments SegmentSet SegmentSound SegmentOps ControlLedger ControlHistory Snapshot SnapshotSound Times Signed Rekor AnchorVerify Sidecar Vouch Signing Identity Integrity Apply ApplySound.

(** ** Keys, credentials, backends *)

(** A key file: absent, a fault of its stat or read, or its bytes. *)
Inductive pub_file : Type := PubAbsent | PubStatFault | PubUnreadable | PubFile (data : string).

Section backend.
  Context `{GoText, GoURL, GoLower, LogLibs}.

(** [anchorKeyPath], [loadAnchorPub] and [pinnedLogKey]: [flag] is what is at
    [--anchor-key] when it is given, [beside] at [anchor.pub]. *)
Definition loadAnchorPub (f : pub_file) : result string string :=
  match f with
  | PubFile data => match ParseLogKey data with Ok pub => Ok pub | Err e => Err ("pinned log key: " +:+ e) end
  | _ => Err "pinned log key: cannot be read"
  end.
Definition anchorKeyPath (flag : option pub_file) (beside : pub_file) : result string (option pub_file) :=
  match flag with
  | Some f => Ok (Some f)
  | None => match beside with PubStatFault => Err "pinned log key: stat" | PubAbsent => Ok None | f => Ok (Some f) end
  end.
Definition pinnedLogKey (flag : option pub_file) (beside : pub_file) : result string (option string) :=
  let! pinned := anchorKeyPath flag beside in
  match pinned with
  | None => Ok None
  | Some f => let! pub := loadAnchorPub f in Ok (Some pub)
  end.

Definition anchorCredentialRef (c : BackendCredential) : CredentialRef :=
  MkRef "integrity/anchor_backend" (bc_CredentialSource c) (bc_GrantType c) (bc_ClientAuth c) (bc_Issuer c) (bc_TokenEndpoint c) (bc_Scope c) (bc_Audience c)
    (bc_TokenEnv c) (bc_ClientIDEnv c) (bc_ClientSecretEnv c) "".
(** None for no credential; else what the broker answers when it is asked. *)
Definition anchorBearer (getenv : string -> string) (clientCredentials : Broker) (c : BackendCredential) : option (result string string) :=
  if bool_decide (c = zeroCredential) then None
  else
    let ref := anchorCredentialRef c in
    if bool_decide (cr_Grant ref = "token_exchange") then Some (Err "broker: token_exchange is not supported for an anchor backend")
    else Some (DispatchResolve (MkDispatch (StaticEnv getenv) clientCredentials (fun _ => Err "")) ref).

Record backendSpec : Type := MkSpec { bs_Kind : string; bs_URL : string; bs_Key : option string; bs_Credential : BackendCredential; bs_Offline : bool }.
Definition anchorBackendFor (getenv : string -> string) (clientCredentials : Broker) (s : backendSpec) : result string Rekor :=
  if bool_decide (bs_Kind s = "transparency-log") then NewRekor (bs_URL s) (bs_Key s) (anchorBearer getenv clientCredentials (bs_Credential s)) (bs_Offline s)
  else Err ("anchor backend kind " +:+ quote (bs_Kind s) +:+ " is not implemented").
Definition backend_kind : string := "transparency-log".
(** The verify path's backend: no credential. *)
Definition verifyBackendFactory (getenv : string -> string) (clientCredentials : Broker) (send : rk_request -> rk_answer) : Factory := fun kind url key offline =>
  let! r := anchorBackendFor getenv clientCredentials (MkSpec kind url key zeroCredential offline) in Ok (RekorVerify send r).
End backend.

(** ** The session *)

(** The line every control writer prints last. *)
Definition head_line (h : Head) : string := "control head: seq=" +:+ itoa (Count h) +:+ " sha256=" +:+ Hash h.

Inductive anchorMode : Type := anchorControl | anchorRunsMode.
Record anchorSession : Type := MkSession { as_who : runInvoker; as_in : Integrity.Integrity; as_pub : option string; as_keyMode : string }.

(** What one submission and its record meet. *)
Record round_env : Type := MkRound {
  rd_control : control_env; rd_getenv : string -> string; rd_clientCredentials : Broker; rd_send : rk_request -> rk_answer;
  rd_eph : result string (string * string); rd_now : string; rd_write : bool;
}.

(** The root, the proof files of the log directory, and the heads handed to the
    log so far. *)
Record pass_state : Type := MkPass { ps_root : croot; ps_side : string -> sfile; ps_filed : list (string * AHead) }.
Definition with_root (st : pass_state) (r : croot) : pass_state := MkPass r (ps_side st) (ps_filed st).
Definition with_side (st : pass_state) (id : string) (f : sfile) : pass_state :=
  MkPass (ps_root st) (fun x => if bool_decide (x = id) then f else ps_side st x) (ps_filed st).
Definition with_filed (st : pass_state) (id : string) (h : AHead) : pass_state := MkPass (ps_root st) (ps_side st) (ps_filed st ++ [(id, h)]).

Inductive runAnchorOutcome : Type :=
  | runAnchored | runNotAnchorable | runSubmitFailed | runTransportFailed | runBackendFailed | runProofNotWritten | runNotRecorded.
#[global] Instance runAnchorOutcome_eq_dec : EqDecision runAnchorOutcome.
Proof. solve_decision. Defined.
Definition classifySubmitFault (e : backend_error) : runAnchorOutcome :=
  match e with Transport _ _ => runTransportFailed | BearerError _ => runBackendFailed | _ => runSubmitFailed end.

Section session.
  Context `{Ed25519} (active : string) (text : fault -> string) `{GoText, GoURL} `{ConfigYaml} `{GoLower, LogLibs}.

Definition anchor_event (who : runInvoker) (env : control_env) (outcome : string) (reason : ptr Reason) (payload : ptr Anchor) : CEvent :=
  { zeroCEvent with
    ce_Action := "anchor"; ce_Outcome := outcome; ce_Reason := reason; ce_Invoker := ri_inv who; ce_AssertedAs := ri_assertedAs who;
    ce_Witness := ce_witness env; ce_Anchor := payload }.
(** [record] *)
Definition anchor_record (who : runInvoker) (env : control_env) (r : croot) (outcome : string) (reason : ptr Reason) (payload : ptr Anchor) : result control_error Head * croot :=
  append_event active r env (anchor_event who env outcome reason payload).
Definition recordFinish (who : runInvoker) (env : control_env) (r : croot) (outcome : string) (reason : Reason) (code : Z) : Z * list string * croot :=
  match anchor_record who env r outcome (Some reason) None with
  | (Err _, r) => (1, [], r)
  | (Ok head, r) => (code, [head_line head], r)
  end.

(** The authorization read under the shared lock: an exit, or the root to go on
    with. *)
Definition anchor_authorized (who : runInvoker) (env : control_env) (r : croot) : (Z * list string * croot) + croot :=
  match ce_lock env with
  | Err ErrLockHeld => inl (1, [], r)
  | Err e => inl (recordFinish who env r "error" (io_reason text (FaultLock e)) 1)
  | Ok _ =>
      match InstalledRoles (rt_store r) with
      | Err e => inl (recordFinish who env r "error" (io_reason text (FaultConfig e)) 1)
      | Ok None => inl (recordFinish who env r "refused" (MkReason "not_authorized" msgNothingInstalled) 1)
      | Ok (Some (roles, hash)) =>
          match vouchInstalled active (ce_read env) (rt_ledger r) hash with
          | (_, _, Some refusal) =>
              if Transient refusal || negb (bool_decide (vr_Kind refusal = verifyNotOnRecord)) then inl (1, [], r)
              else inl (recordFinish who env r "refused" (vouchRefused text refusal) 1)
          | (_, _, None) =>
              if negb (ControlAllows roles (ri_inv who) "anchor") then inl (recordFinish who env r "refused" (NotAuthorized "anchor") 1) else inr r
          end
      end
  end.

(** [openAnchorSession]; [logConfigOK]: the log environment can be read. *)
Definition openAnchorSession (mode : anchorMode) (who : runInvoker) (posture : result integrity_error Integrity.Integrity) (pub : pub_file) (logConfigOK : bool) (env : control_env) (r : croot)
  : (Z * list string * croot) + (anchorSession * croot) :=
  if ri_usageErr who then inl (2, [], r)
  else match posture with
  | Err _ => inl (2, [], r)
  | Ok inp =>
      if match mode with anchorRunsMode => negb (bool_decide (in_AnchorRuns inp = "on-demand")) | anchorControl => negb (bool_decide (in_Anchor inp = "tlog")) end then inl (1, [], r)
      else match pinnedLogKey None pub with
      | Err _ => inl (2, [], r)
      | Ok key =>
          if match mode with anchorRunsMode => negb logConfigOK | anchorControl => false end then inl (2, [], r)
          else match open_ledger active r env with
          | (Some _, r) => inl (1, [], r)
          | (None, r) =>
              if ri_refused who then inl (recordFinish who env r "refused" token_refused 1)
              else match anchor_authorized who env r with
                   | inl stop => inl stop
                   | inr r => inr (MkSession who inp key (if is_Some_b key then "pinned" else "as served"), r)
                   end
          end
      end
  end.

Definition receiptLines (rfc3339 : GoTime -> string) (rcpt : Receipt) (keyMode : string) : string * string :=
  let keyID := if bool_decide (rc_BackendKeyID rcpt = "") then "none" else rc_BackendKeyID rcpt in
  let index := if rc_LogIndex rcpt <? 0 then "-" else itoa (rc_LogIndex rcpt) in
  let integrated := if gt_ns (rc_IntegratedTime rcpt) =? 0 then "-" else rfc3339 (rc_IntegratedTime rcpt) in
  ("  log: " +:+ rc_Backend rcpt +:+ "  entry: " +:+ rc_Ref rcpt +:+ "  log key: " +:+ keyID +:+ " (" +:+ keyMode +:+ ")",
   "  index: " +:+ index +:+ "  integrated: " +:+ integrated +:+ "  (as reported by the log)").

Context (rfc3339 : GoTime -> string).

(** *** One run *)
Context (sidecar_text : sidecar_error -> string) (s : anchorSession).

(** An error record that names what was tried; no head when it did not land. *)
Definition recordFault (env : round_env) (st : pass_state) (code msg : string) (tried : Anchor) : Head * pass_state :=
  match anchor_record (as_who s) (rd_control env) (ps_root st) "error" (Some (MkReason code (take_str maxRecordedErrLen msg))) (Some tried) with
  | (Err _, r) => (MkHead "" 0, with_root st r)
  | (Ok head, r) => (head, with_root st r)
  end.

Definition session_backend (env : round_env) : result string Rekor :=
  let b := in_AnchorBackend (as_in s) in
  anchorBackendFor (rd_getenv env) (rd_clientCredentials env) (MkSpec (ib_Kind b) (ib_URL b) (as_pub s) (ib_Credential b) false).

(** The run's ledger as [ledger.ReadVerify] finds it. *)
Definition read_ledger (d : LogDir) (logDir id : string) : list string * Head * option ledger_error :=
  let '(env, disk) := match ld_files d !! log_path logDir id with Some (env, content) => (env, Some content) | None => (no_env, None) end in
  ReadVerify env disk Unlocked.

Definition run_record (env : round_env) (id : string) (covered : AHead) (rcpt : Receipt) : SRecord :=
  MkSRecord (rd_now env) id (ah_Seq covered) (ah_Hash covered) "tlog" backend_kind (rc_Backend rcpt) (rc_Ref rcpt) (rc_Proof rcpt) (rc_BackendKeyID rcpt)
    (MkActor (i_Subject (ri_inv (as_who s))) (i_Issuer (ri_inv (as_who s))) (i_Method (ri_inv (as_who s)))).

(** The proof and the record of a head the log took. *)
Definition file_proof (env : round_env) (st : pass_state) (id : string) (covered : AHead) (tried : Anchor) (rcpt : Receipt) : runAnchorOutcome * list string * Head * string * pass_state :=
  match SidecarAppend (ps_side st id) (rd_write env) (run_record env id covered rcpt) with
  | (Err e, _) => let '(head, st) := recordFault env st "io_error" (sidecar_text e) { tried with an_Ref := rc_Ref rcpt } in (runProofNotWritten, [], head, "", st)
  | (Ok _, f) =>
      let st := with_side st id f in
      let payload := MkAnchor id (ah_Seq covered) (ah_Hash covered) "tlog" backend_kind (rc_Backend rcpt) (rc_Ref rcpt) "" (rc_BackendKeyID rcpt) in
      match anchor_record (as_who s) (rd_control env) (ps_root st) "success" None (Some payload) with
      | (Err _, r) => (runNotRecorded, [], MkHead "" 0, "", with_root st r)
      | (Ok head, r) =>
          let '(logLine, indexLine) := receiptLines rfc3339 rcpt (as_keyMode s) in
          (runAnchored, ["anchored run " +:+ id +:+ ": events=" +:+ itoa (ah_Seq covered) +:+ " sha256=" +:+ ah_Hash covered; logLine; indexLine], head, "", with_root st r)
      end
  end.

Definition anchorRun (d : LogDir) (logDir id : string) (env : round_env) (st : pass_state) : runAnchorOutcome * list string * Head * string * pass_state :=
  match read_ledger d logDir id with
  | (_, _, Some _) => (runNotAnchorable, [], MkHead "" 0, "", st)
  | (chain, runHead, None) =>
      if negb (FinalEvent chain) then (runNotAnchorable, [], MkHead "" 0, "", st)
      else
        let covered := MkAHead (Count runHead) (Hash runHead) in
        let b := in_AnchorBackend (as_in s) in
        let tried := MkAnchor id (ah_Seq covered) (ah_Hash covered) "tlog" (ib_Kind b) (trim_suffix (ib_URL b) "/") "" "" "" in
        match session_backend env with
        | Err e => let '(head, st) := recordFault env st "anchor_failed" e tried in (runBackendFailed, [], head, "", st)
        | Ok be =>
            let tried := { tried with an_BackendKind := backend_kind } in
            let st := with_filed st id covered in
            match Submit (rd_send env) be covered (rd_eph env) with
            | Err e =>
                let outcome := classifySubmitFault e in
                let '(head, st) := recordFault env st "anchor_failed" (error_text e) tried in
                (outcome, [], head, if bool_decide (outcome = runSubmitFailed) then error_text e else "", st)
            | Ok rcpt => file_proof env st id covered tried rcpt
            end
        end
  end.

(** *** The sweep *)

(** The loop's counters and what it printed. *)
Record tally : Type := MkTally {
  ty_anchored : Z; ty_skipped : Z; ty_failed : Z; ty_attempts : Z; ty_handled : Z; ty_prev : string; ty_lines : list string;
}.
Definition zeroTally : tally := MkTally 0 0 0 0 0 "" [].
Definition pass_fatal (o : runAnchorOutcome) : bool := match o with runTransportFailed | runBackendFailed | runProofNotWritten | runNotRecorded => true | _ => false end.
Definition count_outcome (t : tally) (o : runAnchorOutcome) (shipped : list string) : tally :=
  match o with
  | runAnchored => MkTally (ty_anchored t + 1) (ty_skipped t) (ty_failed t) (ty_attempts t + 1) (ty_handled t + 1) "" (ty_lines t ++ shipped)
  | runNotAnchorable => MkTally (ty_anchored t) (ty_skipped t + 1) (ty_failed t) (ty_attempts t) (ty_handled t + 1) (ty_prev t) (ty_lines t)
  | _ => MkTally (ty_anchored t) (ty_skipped t) (ty_failed t + 1) (ty_attempts t + 1) (ty_handled t + 1) (ty_prev t) (ty_lines t)
  end.
Fixpoint pending_loop (d : LogDir) (logDir : string) (limit : Z) (envs : nat -> round_env) (i : nat) (candidates : list string) (t : tally) (st : pass_state) : tally * pass_state :=
  match candidates with
  | [] => (t, st)
  | id :: rest =>
      if limit <=? ty_attempts t then (t, st)
      else
        let '(outcome, shipped, _, fault, st) := anchorRun d logDir id (envs i) st in
        let t := count_outcome t outcome shipped in
        if pass_fatal outcome then (t, st)
        else if bool_decide (outcome = runSubmitFailed) then
          if negb (bool_decide (fault = "")) && bool_decide (fault = ty_prev t)
          then ({ t with ty_lines := ty_lines t ++ ["audit anchor: same refusal twice running (" +:+ fault +:+ "); stopping the sweep"] }, st)
          else pending_loop d logDir limit envs (S i) rest { t with ty_prev := fault } st
        else pending_loop d logDir limit envs (S i) rest t st
  end.

Definition lstat_of (side : string -> sfile) (name : string) : result () bool :=
  match side (trim_suffix name anchor_suffix) with SAbsent => Ok false | SStatFault => Err () | _ => Ok true end.
(** [anchorPending]; [ctl]: the control ledger's file, [stat] and [listing] of
    the log directory, [lock] of the last read. *)
Definition anchorPending (d : LogDir) (logDir : string) (limit : Z) (envs : nat -> round_env) (ctl : option positive) (stat : string -> cand_stat)
    (listing : result () (option (list (string * bool)))) (lock : result ledger_error ()) (st : pass_state) : Z * list string * pass_state :=
  match ctl with
  | None => (1, [], st)
  | Some _ =>
      match Candidates stat (lstat_of (ps_side st)) ctl listing with
      | Err _ => (1, [], st)
      | Ok candidates =>
          let '(t, st) := pending_loop d logDir limit envs 0 candidates zeroTally st in
          let remaining := Z.of_nat (length candidates) - ty_handled t in
          let lines := ty_lines t ++ ["pending: " +:+ itoa (ty_anchored t) +:+ " anchored, " +:+ itoa (ty_skipped t) +:+ " skipped (not anchorable), " +:+ itoa remaining +:+ " remaining"] in
          match Read active lock (rt_ledger (ps_root st)) with
          | (_, Some _) => (1, lines, st)
          | (v, None) => (if 0 <? ty_failed t then 1 else 0, lines ++ [head_line (v_Head v)], st)
          end
      end
  end.

(** *** The control ledger's head *)
Definition control_payload (covered : AHead) (rcpt : Receipt) : Anchor :=
  MkAnchor "" (ah_Seq covered) (ah_Hash covered) "tlog" backend_kind (rc_Backend rcpt) (rc_Ref rcpt) (rc_Proof rcpt) (rc_BackendKeyID rcpt).
Definition anchorControlHead (env : round_env) (lock : result ledger_error ()) (st : pass_state) : Z * list string * pass_state :=
  match Read active lock (rt_ledger (ps_root st)) with
  | (_, Some _) => (1, [], st)
  | (v, None) =>
      if Count (v_Head v) =? 0 then (1, [], st)
      else
        let covered := MkAHead (Count (v_Head v)) (Hash (v_Head v)) in
        let b := in_AnchorBackend (as_in s) in
        let tried := MkAnchor "" (ah_Seq covered) (ah_Hash covered) "tlog" (ib_Kind b) (trim_suffix (ib_URL b) "/") "" "" "" in
        let failed msg tried st :=
          match anchor_record (as_who s) (rd_control env) (ps_root st) "error" (Some (MkReason "anchor_failed" (take_str maxRecordedErrLen msg))) (Some tried) with
          | (Err _, r) => (1, [], with_root st r)
          | (Ok h, r) => (1, [head_line h], with_root st r)
          end in
        match session_backend env with
        | Err e => failed e tried st
        | Ok be =>
            let st := with_filed st "" covered in
            match Submit (rd_send env) be covered (rd_eph env) with
            | Err e => failed (error_text e) { tried with an_BackendKind := backend_kind } st
            | Ok rcpt =>
                let payload := control_payload covered rcpt in
                let '(logLine, indexLine) := receiptLines rfc3339 rcpt (as_keyMode s) in
                match anchor_record (as_who s) (rd_control env) (ps_root st) "success" None (Some payload) with
                | (Err _, r) => (1, [], with_root st r)
                | (Ok head, r) => (0, ["anchored: seq=" +:+ itoa (ah_Seq covered) +:+ " sha256=" +:+ ah_Hash covered; logLine; indexLine; head_line head], with_root st r)
                end
            end
        end
  end.
End session.

(** ** The command *)

(** What the log directory's forms meet: its lock, ledgers, listing. *)
Record runs_env : Type := MkRunsEnv {
  re_lock : result ledger_error (); re_dir : LogDir; re_logDir : string; re_ctl : option positive; re_stat : string -> cand_stat;
  re_listing : result () (option (list (string * bool)));
}.

Section command.
  Context `{Ed25519} (active : string) (text : fault -> string) `{GoText, GoURL} `{ConfigYaml} `{GoLower, LogLibs}.
  Context (rfc3339 : GoTime -> string) (sidecar_text : sidecar_error -> string).

(** [anchorRuns]: one run, or the sweep when there is none. *)
Definition anchorRuns (s : anchorSession) (runID : option string) (limit : Z) (re : runs_env) (envs : nat -> round_env) (lock : result ledger_error ()) (st : pass_state) : Z * list string * pass_state :=
  match re_lock re with
  | Err _ => (1, [], st)
  | Ok _ =>
      match runID with
      | None => anchorPending active rfc3339 sidecar_text s (re_dir re) (re_logDir re) limit envs (re_ctl re) (re_stat re) (re_listing re) lock st
      | Some id =>
          let '(outcome, shipped, head, _, st) := anchorRun active rfc3339 sidecar_text s (re_dir re) (re_logDir re) id (envs 0%nat) st in
          if bool_decide (outcome = runAnchored) then (0, shipped ++ [head_line head], st)
          else (1, if 0 <? Count head then [head_line head] else [], st)
      end
  end.

(** [cmdAuditAnchor], its flags read: [run] is the value of [--run] if given. *)
Definition cmdAuditAnchor (run : option string) (pending : bool) (limit : Z) (who : runInvoker) (posture : result integrity_error Integrity.Integrity) (pub : pub_file) (logConfigOK : bool)
    (env : control_env) (re : runs_env) (envs : nat -> round_env) (lock : result ledger_error ()) (st : pass_state) : Z * list string * pass_state :=
  if is_Some_b run && pending then (2, [], st)
  else if limit <=? 0 then (2, [], st)
  else if match run with Some id => negb (RunIDRE id) | None => false end then (1, [], st)
  else
    let mode := if is_Some_b run || pending then anchorRunsMode else anchorControl in
    match openAnchorSession active text mode who posture pub logConfigOK env (ps_root st) with
    | inl (code, lines, r) => (code, lines, with_root st r)
    | inr (s, r) =>
        match mode with
        | anchorRunsMode => anchorRuns s run limit re envs lock (with_root st r)
        | anchorControl => anchorControlHead active rfc3339 s (envs 0%nat) lock (with_root st r)
        end
    end.
End command.

(** ** What [audit verify control] makes of anchors *)
Definition expectHeadRE (s : string) : bool :=
  match Cut s ":" with
  | Some (seq, h) => negb (bool_decide (seq = "")) && all_chars is_digit seq && lower_hex_of_len 64 h
  | None => lower_hex_of_len 64 s
  end.
(** The line to print, none when the chain holds what is expected of it. *)
Definition expectHeadMismatch (expect : string) (records : list string) (head : Head) : string :=
  match Cut expect ":" with
  | None => if negb (bool_decide (expect = Hash head)) then "expect-head mismatch: want " +:+ expect +:+ ", got " +:+ Hash head else ""
  | Some (seqPart, hash) =>
      let range := "expect-head mismatch: want " +:+ hash +:+ " at seq " +:+ seqPart +:+ ", but the chain has " +:+ itoa (Z.of_nat (length records)) +:+ " records" in
      match ParseInt seqPart with
      | None => range
      | Some n =>
          if (n <? 1) || (Z.of_nat (length records) <? n) then range
          else
            let got := sha256_hex (nth (Z.to_nat (n - 1)) records "") in
            if negb (bool_decide (got = hash)) then "expect-head mismatch: want " +:+ hash +:+ " at seq " +:+ itoa n +:+ ", got " +:+ got else ""
      end
  end.

Definition hasRunScopedAnchor (records : list string) : bool :=
  existsb (fun raw => match Decode raw with
                      | Some d => bool_decide (d_Action d = "anchor") && bool_decide (d_Outcome d = "success") && match d_Anchor d with Some a => negb (bool_decide (an_RunID a = "")) | None => false end
                      | None => false
                      end) records.

Record anchor_counts : Type := MkCounts { an_verified : Z; an_mismatch : Z; an_unverifiable : Z }.
Section verify.
  Context `{GoText, GoURL, GoLower, LogLibs} (getenv : string -> string) (clientCredentials : Broker) (send : rk_request -> rk_answer).

Definition verify_line (keyMode presence : string) (r : AResult) : string :=
  match ck_Anchor (rs_Check r) with
  | None => "anchor record seq " +:+ itoa (ck_RecordSeq (rs_Check r)) +:+ ": MISMATCH — " +:+ rs_Cause r
  | Some a =>
      let clean := Clean is_print in
      let where_ := "anchor seq " +:+ itoa (an_Seq a) +:+ " " +:+ clean (an_Hash a) +:+ " → " +:+ clean (an_Backend a) +:+ " entry " +:+ clean (an_Ref a) in
      match rs_State r with
      | StateVerified => where_ +:+ ": verified (" +:+ keyMode +:+ presence +:+ ")"
      | StateMismatch => where_ +:+ ": MISMATCH — " +:+ rs_Cause r
      | StateUnverifiable => where_ +:+ ": unverifiable — " +:+ rs_Cause r
      end
  end.
Definition count_result (v : anchor_counts) (r : AResult) : anchor_counts :=
  match ck_Anchor (rs_Check r), rs_State r with
  | None, _ | Some _, StateMismatch => { v with an_mismatch := an_mismatch v + 1 }
  | Some _, StateVerified => { v with an_verified := an_verified v + 1 }
  | Some _, StateUnverifiable => { v with an_unverifiable := an_unverifiable v + 1 }
  end.
(** [verifyAnchors]: the counts and the lines. *)
Definition verifyAnchors (flag : option pub_file) (beside : pub_file) (offline : bool) (records : list string) : anchor_counts * list string :=
  let key := pinnedLogKey flag beside in
  let results := VerifyAnchors send (Some (verifyBackendFactory getenv clientCredentials send)) (Some key) offline records in
  match results with
  | [] =>
      (MkCounts 0 0 0,
       [if hasRunScopedAnchor records
        then "anchors: none for the control ledger (run anchors are reported on each run's audit; if this root is meant to be anchored — integrity.yaml anchor: tlog — run: agenthof audit anchor)"
        else "anchors: none (if this root is meant to be anchored — integrity.yaml anchor: tlog — run: agenthof audit anchor)"])
  | _ =>
      let keyMode := match key with Ok (Some _) => "log key pinned" | _ => "log key as served by the log — unpinned; pin it in anchor.pub or --anchor-key to verify independently" end in
      let presence := if offline then "; offline: presence not checked" else "" in
      let v := foldl count_result (MkCounts 0 0 0) results in
      (v, map (verify_line keyMode presence) results ++
          ["anchors: " +:+ itoa (Z.of_nat (length results)) +:+ " (" +:+ itoa (an_verified v) +:+ " verified, " +:+ itoa (an_mismatch v) +:+ " mismatch, " +:+ itoa (an_unverifiable v) +:+ " unverifiable)"])
  end.
End verify.

(** ** What guards an anchor *)
Section guarded.
  Context `{Ed25519} (active : string) (text : fault -> string) `{GoText, GoURL} `{ConfigYaml} `{GoLower, LogLibs}.

Lemma recordFinish_stays who env r outcome reason c l r' : recordFinish active who env r outcome reason 1 = (c, l, r') -> rt_store r' = rt_store r /\ c <> 0.
Proof.
  unfold recordFinish, anchor_record. destruct (append_event active r env _) as [[head|e] r1] eqn:E; pose proof (append_event_store _ _ _ _ _ _ E) as [Hs _]; by intros [= <- <- <-].
Qed.

(** The installed configuration, hashed and vouched for, grants the invoker the
    operation. *)
Definition may_anchor (who : runInvoker) (env : control_env) (r : croot) : Prop :=
  exists roles hash records last, InstalledRoles (rt_store r) = Ok (Some (roles, hash)) /\ HashDir (is_dirs (rt_store r) !! SnapshotDir hash) = Ok hash /\
    on_record active (ce_read env) (rt_ledger (open_ledger active r env).2) hash records last /\ ControlAllows roles (ri_inv who) "anchor" = true /\ ri_refused who = false.
Definition posture_allows (mode : anchorMode) (inp : Integrity.Integrity) : Prop :=
  match mode with anchorRunsMode => in_AnchorRuns inp = "on-demand" | anchorControl => in_Anchor inp = "tlog" end.

Lemma authorized_stops who env r c l r' : anchor_authorized active text who env r = inl (c, l, r') -> rt_store r' = rt_store r /\ c <> 0.
Proof.
  unfold anchor_authorized. destruct (ce_lock env) as [[]|e].
  - destruct (InstalledRoles (rt_store r)) as [[[roles hash]|]|e]; [|intros [= E]; by apply recordFinish_stays in E..].
    destruct (vouchInstalled _ _ _ _) as [[rs last] [refusal|]].
    + destruct (_ || _); [by intros [= <- <- <-]|]. intros [= E]. by apply recordFinish_stays in E.
    + destruct (ControlAllows _ _ _); [done|]. intros [= E]. by apply recordFinish_stays in E.
  - destruct e; first [by intros [= <- <- <-]|intros [= E]; by apply recordFinish_stays in E].
Qed.
Lemma authorized_passes who env r r' : anchor_authorized active text who env r = inr r' ->
  r' = r /\ exists roles hash records last, InstalledRoles (rt_store r) = Ok (Some (roles, hash)) /\ HashDir (is_dirs (rt_store r) !! SnapshotDir hash) = Ok hash /\
    on_record active (ce_read env) (rt_ledger r) hash records last /\ ControlAllows roles (ri_inv who) "anchor" = true.
Proof.
  unfold anchor_authorized. destruct (ce_lock env) as [[]|e]; [|by destruct e]. destruct (InstalledRoles (rt_store r)) as [[[roles hash]|]|e] eqn:Ei; [|done..].
  destruct (vouchInstalled _ _ _ _) as [[rs last] [refusal|]] eqn:Ev; [by destruct (_ || _)|]. destruct (ControlAllows _ _ _) eqn:Ea; [|done]. intros [= <-]. split; [done|].
  apply vouch_passes in Ev as (records & last' & _ & Hon). exists roles, hash, records, last'. split_and!; try done. by apply roles_verified in Ei as [? _].
Qed.

Lemma session_stops mode who posture pub lc env r c l r' : openAnchorSession active text mode who posture pub lc env r = inl (c, l, r') -> rt_store r' = rt_store r /\ c <> 0.
Proof.
  unfold openAnchorSession. destruct (ri_usageErr who); [by intros [= <- <- <-]|]. destruct posture as [inp|]; [|by intros [= <- <- <-]]. destruct (match mode with anchorControl => _ | anchorRunsMode => _ end); [by intros [= <- <- <-]|].
  destruct (pinnedLogKey None pub) as [key|]; [|by intros [= <- <- <-]]. destruct (match mode with anchorControl => false | anchorRunsMode => _ end); [by intros [= <- <- <-]|].
  destruct (open_ledger active r env) as [[e|] r1] eqn:Eo; pose proof (open_ledger_store _ _ _ _ _ Eo) as Hr1; (assert (Hs1 : rt_store r1 = rt_store r) by (by rewrite Hr1)); [by intros [= <- <- <-]|].
  destruct (ri_refused who); [intros [= E]; apply recordFinish_stays in E; by rewrite <- Hs1|]. destruct (anchor_authorized _ _ _ _ _) as [[[c1 l1] r2]|r2] eqn:Ea; [|done].
  intros [= <- <- <-]. apply authorized_stops in Ea. by rewrite <- Hs1.
Qed.
Lemma session_opens mode who posture pub lc env r s r' : openAnchorSession active text mode who posture pub lc env r = inr (s, r') ->
  rt_store r' = rt_store r /\ r' = (open_ledger active r env).2 /\ may_anchor who env r /\ as_who s = who /\ posture = Ok (as_in s) /\ posture_allows mode (as_in s) /\ pinnedLogKey None pub = Ok (as_pub s).
Proof.
  unfold openAnchorSession. destruct (ri_usageErr who); [done|]. destruct posture as [inp|]; [|done]. destruct (match mode with anchorControl => _ | anchorRunsMode => _ end) eqn:Em; [done|].
  destruct (pinnedLogKey None pub) as [key|]; [|done]. destruct (match mode with anchorControl => false | anchorRunsMode => _ end); [done|]. unfold may_anchor.
  destruct (open_ledger active r env) as [[e|] r1] eqn:Eo; [done|]. cbn [snd]. pose proof (open_ledger_store _ _ _ _ _ Eo) as Hr1; (assert (Hs1 : rt_store r1 = rt_store r) by (by rewrite Hr1)).
  destruct (ri_refused who); [done|]. destruct (anchor_authorized _ _ _ _ _) as [[[c1 l1] r2]|r2] eqn:Ea; [done|]. intros [= <- <-]. cbn [as_who as_in as_pub].
  apply authorized_passes in Ea as [-> (roles & hash & records & last & Hi & Hh & Hon & Hc)]. rewrite Hs1 in Hi, Hh. split_and!; try done; [by exists roles, hash, records, last|].
  destruct mode; cbn in *; by apply negb_false_iff, bool_decide_eq_true in Em.
Qed.
End guarded.

(** ** One run *)
Section run.
  Context `{Ed25519} (active : string) (text : fault -> string) `{GoText, GoURL} `{ConfigYaml} `{GoLower, LogLibs}.
  Context (rfc3339 : GoTime -> string) (sidecar_text : sidecar_error -> string) (s : anchorSession).

Lemma recordFault_frame env st code msg tried h st' : recordFault active s env st code msg tried = (h, st') ->
  rt_store (ps_root st') = rt_store (ps_root st) /\ ps_side st' = ps_side st /\ ps_filed st' = ps_filed st.
Proof.
  unfold recordFault, anchor_record. destruct (append_event _ _ _ _) as [[head|e] r1] eqn:E; apply append_event_store in E as [Hs _]; by intros [= <- <-].
Qed.

Lemma file_proof_spec env st id covered tried rcpt o l h f st' : file_proof active rfc3339 sidecar_text s env st id covered tried rcpt = (o, l, h, f, st') ->
  rt_store (ps_root st') = rt_store (ps_root st) /\ ps_filed st' = ps_filed st /\ f = "" /\ (forall x, x <> id -> ps_side st' x = ps_side st x) /\
  (o = runProofNotWritten /\ ps_side st' id = ps_side st id \/
   (o = runAnchored \/ o = runNotRecorded) /\ SidecarAppend (ps_side st id) (rd_write env) (run_record s env id covered rcpt) = (Ok (), ps_side st' id)).
Proof.
  unfold file_proof. destruct (SidecarAppend _ _ _) as [[[]|e] sf] eqn:Es.
  - destruct (anchor_record _ _ _ _ _ _ _) as [[head|e] r1] eqn:E; apply append_event_store in E as [Hs _].
    + destruct (receiptLines _ _ _) as [l1 l2]. intros [= <- <- <- <- <-]. split_and!; try done; [intros x Hx; cbn; by rewrite bool_decide_false|right]. split; [by left|]. cbn. by rewrite bool_decide_true.
    + intros [= <- <- <- <- <-]. split_and!; try done; [intros x Hx; cbn; by rewrite bool_decide_false|right]. split; [by right|]. cbn. by rewrite bool_decide_true.
  - destruct (recordFault _ _ _ _ _ _ _) as [head st1] eqn:E. apply recordFault_frame in E as (? & Hside & ?). intros [= <- <- <- <- <-]. rewrite Hside. split_and!; try done. by left.
Qed.

(** What is handed to the log is the head of a whole run; a proof file changes
    only when the log took it. *)
Definition offered (d : LogDir) (logDir id : string) (h : AHead) : Prop :=
  exists chain head, read_ledger d logDir id = (chain, head, None) /\ FinalEvent chain = true /\ h = MkAHead (Count head) (Hash head).

Lemma anchorRun_spec d logDir id env st o l h f st' : anchorRun active rfc3339 sidecar_text s d logDir id env st = (o, l, h, f, st') ->
  rt_store (ps_root st') = rt_store (ps_root st) /\ (forall x, x <> id -> ps_side st' x = ps_side st x) /\ (f <> "" -> o = runSubmitFailed) /\
  (ps_filed st' = ps_filed st /\ ps_side st' = ps_side st /\ (o = runNotAnchorable \/ o = runBackendFailed) \/
   exists covered, offered d logDir id covered /\ ps_filed st' = ps_filed st ++ [(id, covered)] /\ o <> runNotAnchorable /\
     (ps_side st' id = ps_side st id \/ o = runAnchored \/ o = runNotRecorded) /\
     (o = runAnchored -> exists be rcpt, session_backend s env = Ok be /\ Submit (rd_send env) be covered (rd_eph env) = Ok rcpt /\
        SidecarAppend (ps_side st id) (rd_write env) (run_record s env id covered rcpt) = (Ok (), ps_side st' id))).
Proof.
  unfold anchorRun, offered. destruct (read_ledger d logDir id) as [[chain head] [e|]]; [intros [= <- <- <- <- <-]; split_and!; try done; left; by split_and!; try done; left|].
  destruct (FinalEvent chain) eqn:Ef; cbn [negb]; [|intros [= <- <- <- <- <-]; split_and!; try done; left; by split_and!; try done; left].
  destruct (session_backend s env) as [be|e] eqn:Eb.
  2: { destruct (recordFault _ _ _ _ _ _ _) as [h1 st1] eqn:E. apply recordFault_frame in E as (? & Hside & ?). intros [= <- <- <- <- <-]. rewrite Hside. split_and!; try done. left. by split_and!; try done; right. }
  set (covered := MkAHead (Count head) (Hash head)). destruct (Submit _ be covered _) as [rcpt|e] eqn:Es.
  - intros E. apply file_proof_spec in E as (Hs & Hf & -> & Hx & Ho). cbn [with_filed ps_root ps_side ps_filed] in *. split_and!; try done. right. exists covered. split; [by exists chain, head|]. split; [done|].
    destruct Ho as [[-> Hside]|[[-> | ->] Happ]]; split_and!; try done; auto. intros _. by exists be, rcpt.
  - destruct (recordFault _ _ _ _ _ _ _) as [h1 st1] eqn:E. apply recordFault_frame in E as (? & Hside & Hf). cbn [with_filed ps_root ps_side ps_filed] in *. intros [= <- <- <- <- <-]. rewrite Hside.
    split_and!; try done; [by case_bool_decide|]. right. exists covered. split; [by exists chain, head|]. split; [done|]. split_and!; [by destruct e|by left|by destruct e].
Qed.
End run.

(** ** The sweep *)
Section sweep.
  Context `{Ed25519} (active : string) (text : fault -> string) `{GoText, GoURL} `{ConfigYaml} `{GoLower, LogLibs}.
  Context (rfc3339 : GoTime -> string) (sidecar_text : sidecar_error -> string) (s : anchorSession) (d : LogDir) (logDir : string) (limit : Z) (envs : nat -> round_env).

(** One run of a sweep: the run, what came of it, and the refusal text. *)
Definition run_try : Type := string * runAnchorOutcome * string.

(** Anchoring the runs [ids] one after the other, each from the state the one
    before left, the first in round [i]. *)
Fixpoint run_all (i : nat) (ids : list string) (st : pass_state) : list run_try * pass_state :=
  match ids with
  | [] => ([], st)
  | id :: rest =>
      let '(o, _, _, f, st1) := anchorRun active rfc3339 sidecar_text s d logDir id (envs i) st in
      let '(more, st') := run_all (S i) rest st1 in ((id, o, f) :: more, st')
  end.

(** The refusal the log gave last: a success forgets it, a skip does not. *)
Definition last_refusal (prev : string) (l : list run_try) : string :=
  foldl (fun p x => match x.1.2 with runAnchored => "" | runSubmitFailed => x.2 | _ => p end) prev l.

(** What every further run would meet again. *)
Definition recurs (prev : string) (x : run_try) : Prop :=
  x.1.2 ∈ [runTransportFailed; runBackendFailed; runProofNotWritten; runNotRecorded] \/ x.1.2 = runSubmitFailed /\ x.2 <> "" /\ x.2 = prev.

Lemma fatal_recurs o : pass_fatal o = true <-> o ∈ [runTransportFailed; runBackendFailed; runProofNotWritten; runNotRecorded].
Proof. rewrite !elem_of_cons, elem_of_nil. destruct o; cbn; naive_solver. Qed.

Definition counted (p : runAnchorOutcome -> bool) (l : list run_try) : Z := Z.of_nat (length (List.filter (fun x => p x.1.2) l)).
Definition is_anchored (o : runAnchorOutcome) : bool := match o with runAnchored => true | _ => false end.
Definition is_skipped (o : runAnchorOutcome) : bool := match o with runNotAnchorable => true | _ => false end.
Definition is_failure (o : runAnchorOutcome) : bool := negb (is_anchored o) && negb (is_skipped o).
Definition tried_id (x : run_try) : string := x.1.1.

Lemma counted_cons p x l : counted p (x :: l) = (if p x.1.2 then 1 else 0) + counted p l.
Proof. unfold counted. cbn [List.filter]. destruct (p x.1.2); cbn [length]; lia. Qed.
Lemma counted_one p id o f : counted p [(id, o, f)] = if p o then 1 else 0.
Proof. unfold counted. cbn. by destruct (p o). Qed.
Lemma no_failure l : counted is_failure l = 0 <-> Forall (fun x => x.1.2 = runAnchored \/ x.1.2 = runNotAnchorable) l.
Proof.
  induction l as [|x l IH]; [done|]. rewrite counted_cons, Forall_cons, <- IH. unfold counted. destruct (x.1.2); cbn; intuition (try lia; try discriminate).
Qed.
Lemma counted_attempts l : counted is_anchored l + counted is_failure l = counted (fun o => negb (is_skipped o)) l.
Proof. induction l as [|x l IH]; [done|]. rewrite !counted_cons. destruct (x.1.2); cbn; lia. Qed.

(** What the rest of a sweep adds: the attempts [more], the heads [filed]. *)
Record swept (i : nat) (candidates : list string) (t t' : tally) (st st' : pass_state) (more : list run_try) (filed : list (string * AHead)) : Prop := {
  sw_run : run_all i (map tried_id more) st = (more, st');
  sw_prefix : map tried_id more `prefix_of` candidates;
  sw_failed : ty_failed t' = ty_failed t + counted is_failure more;
  sw_attempts : ty_attempts t' = ty_attempts t + counted is_anchored more + counted is_failure more;
  sw_limit : ty_attempts t <= limit -> ty_attempts t' <= limit;
  sw_filed : ps_filed st' = ps_filed st ++ filed;
  sw_once : map fst filed `sublist_of` map tried_id more;
  sw_count : Z.of_nat (length filed) <= counted is_anchored more + counted is_failure more;
  sw_heads : Forall (fun x => offered d logDir x.1 x.2) filed;
  sw_side : forall x, ps_side st' x <> ps_side st x -> exists y, y ∈ more /\ tried_id y = x /\ (y.1.2 = runAnchored \/ y.1.2 = runNotRecorded);
  sw_store : rt_store (ps_root st') = rt_store (ps_root st);
}.

Lemma swept_nil i candidates t st : swept i candidates t t st st [] [].
Proof. split; rewrite ?app_nil_r; try done; try (unfold counted; cbn; lia); apply prefix_nil. Qed.

(** A step of the loop before the rest of it. *)
Lemma swept_cons id rest i st o l h f st1 t t1 t' st' more filed : anchorRun active rfc3339 sidecar_text s d logDir id (envs i) st = (o, l, h, f, st1) -> ty_attempts t < limit ->
  ty_failed t1 = ty_failed t + counted is_failure [(id, o, f)] -> ty_attempts t1 = ty_attempts t + counted is_anchored [(id, o, f)] + counted is_failure [(id, o, f)] ->
  swept (S i) rest t1 t' st1 st' more filed ->
  exists filed', swept i (id :: rest) t t' st st' ((id, o, f) :: more) filed'.
Proof.
  intros Hrun Hlt Hf Hat []. destruct (anchorRun_spec _ _ _ _ _ _ _ _ _ _ _ _ _ _ Hrun) as (Hst & Hother & _ & Hcase).
  rewrite !counted_one in *. assert (Hone : (if is_anchored o then 1 else 0) + (if is_failure o then 1 else 0) <= 1) by (by destruct o).
  assert (Hall : run_all i (map tried_id ((id, o, f) :: more)) st = ((id, o, f) :: more, st')) by (cbn [map run_all tried_id fst]; by rewrite Hrun, sw_run0).
  assert (Hmem : forall x, ps_side st' x <> ps_side st x -> exists y, y ∈ (id, o, f) :: more /\ tried_id y = x /\ (y.1.2 = runAnchored \/ y.1.2 = runNotRecorded)).
  { intros x Hx. assert (Hlater : ps_side st' x <> ps_side st1 x -> exists y, y ∈ (id, o, f) :: more /\ tried_id y = x /\ (y.1.2 = runAnchored \/ y.1.2 = runNotRecorded)).
    { intros (y & Hy & ?)%sw_side0. exists y. split; [by apply elem_of_cons; right|done]. }
    destruct (decide (x = id)) as [->|Hne]; [|apply Hlater; by rewrite (Hother x Hne)].
    destruct Hcase as [(_ & Hside & _)|(cov & _ & _ & _ & [Hside|Ho] & _)]; [apply Hlater; by rewrite Hside..|].
    exists (id, o, f). split; [by apply elem_of_cons; left|done]. }
  destruct Hcase as [(Hfl & _ & _)|(cov & Hof & Hfl & Hna & _ & _)].
  - exists filed. split; rewrite ?counted_cons; cbn [map length fst snd tried_id]; try lia; try done; try (by apply prefix_cons); try (by rewrite sw_filed0, Hfl); try (by apply sublist_cons); try congruence.
    all: destruct (is_anchored o), (is_failure o); lia.
  - exists ((id, cov) :: filed). split; rewrite ?counted_cons; cbn [map length fst snd tried_id]; try lia; try done; try (by apply prefix_cons); try (by rewrite sw_filed0, Hfl, <- app_assoc); try (by apply sublist_skip); try (by constructor); try congruence.
    assert ((if is_anchored o then 1 else 0) + (if is_failure o then 1 else 0) = 1) by (by destruct o). lia.
Qed.

(** Why a sweep that starts with [prev] and stops after [more], [n] attempts in
    all, went no further, and why not earlier. *)
Record stopped (candidates : list string) (prev : string) (n : Z) (more : list run_try) : Prop := {
  sp_stop : forall pre x post, more = pre ++ x :: post -> recurs (last_refusal prev pre) x -> post = [];
  sp_why : map tried_id more = candidates \/ limit <= n \/ exists pre x, more = pre ++ [x] /\ recurs (last_refusal prev pre) x;
}.

Lemma stopped_last id rest prev n o f : recurs prev (id, o, f) -> stopped (id :: rest) prev n [(id, o, f)].
Proof. intros Hr. split; [by intros [|? [|? ?]] ? ? [= ? ?] ?|]. right. right. by exists [], (id, o, f). Qed.

Lemma stopped_cons id rest prev n o f more : ~ recurs prev (id, o, f) -> stopped rest (last_refusal prev [(id, o, f)]) n more -> stopped (id :: rest) prev n ((id, o, f) :: more).
Proof.
  intros Hr [Hs Hw]. split.
  - intros [|y pre] x post [= E1 E2] Hx; [by subst|]. subst y. by apply (Hs pre x post E2).
  - destruct Hw as [Hw|[Hw|(pre & x & -> & Hx)]]; [left; cbn; by rewrite Hw|by right; left|]. right. right. by exists ((id, o, f) :: pre), x.
Qed.

Lemma pending_loop_swept i candidates t st t' st' : pending_loop active rfc3339 sidecar_text s d logDir limit envs i candidates t st = (t', st') ->
  exists more filed, swept i candidates t t' st st' more filed /\ stopped candidates (ty_prev t) (ty_attempts t') more.
Proof.
  revert i t st. induction candidates as [|id rest IH]; intros i t st; cbn [pending_loop].
  { intros [= <- <-]. exists [], []. split; [apply swept_nil|]. split; [by intros [|? ?]|by left]. }
  destruct (Z.leb_spec limit (ty_attempts t)).
  { intros [= <- <-]. exists [], []. split; [apply swept_nil|]. split; [by intros [|? ?]|by right; left]. }
  destruct (anchorRun _ _ _ _ _ _ _ _ _) as [[[[o l] h] f] st1] eqn:Er. destruct (anchorRun_spec _ _ _ _ _ _ _ _ _ _ _ _ _ _ Er) as (_ & _ & Hfault & _).
  assert (Hgo : forall t1 more filed, swept (S i) rest t1 t' st1 st' more filed ->
    ty_failed t1 = ty_failed (count_outcome t o l) -> ty_attempts t1 = ty_attempts (count_outcome t o l) -> exists filed', swept i (id :: rest) t t' st st' ((id, o, f) :: more) filed').
  { intros t1 more filed Hsw Hf Ha. apply (swept_cons id rest i st o l h f st1 t t1 t' st' more filed Er); [lia| | |done]; rewrite ?Hf, ?Ha, ?counted_one; destruct o; cbn; lia. }
  assert (Hlast : (count_outcome t o l, st1) = (t', st') \/ (exists x, ({ count_outcome t o l with ty_lines := x }, st1) = (t', st')) -> recurs (ty_prev t) (id, o, f) ->
    exists more filed, swept i (id :: rest) t t' st st' more filed /\ stopped (id :: rest) (ty_prev t) (ty_attempts t') more).
  { intros Ht Hr. assert (Hx : exists t1, ty_failed t1 = ty_failed (count_outcome t o l) /\ ty_attempts t1 = ty_attempts (count_outcome t o l) /\ t1 = t' /\ st1 = st').
    { destruct Ht as [[= <- <-]|[x [= <- <-]]]; (eexists; split_and!; [| |reflexivity..]; reflexivity). }
    destruct Hx as (t1 & Hf & Ha & -> & ->). destruct (Hgo t' [] [] (swept_nil _ _ _ _) Hf Ha) as [filed Hsw]. exists [(id, o, f)], filed. split; [done|by apply stopped_last]. }
  destruct (pass_fatal o) eqn:Ep; [intros E; apply Hlast; [left; exact E|left; apply fatal_recurs; exact Ep]|].
  assert (Hnf : o ∉ [runTransportFailed; runBackendFailed; runProofNotWritten; runNotRecorded]) by (intros Hin%fatal_recurs; congruence).
  case_bool_decide as Ho.
  - destruct (_ && _) eqn:Eq; [intros E; apply Hlast; [by right; eexists|]; right; bool_prop; subst o; by destruct Eq|].
    intros E. apply IH in E as (more & filed & Hsw & Hst). destruct (Hgo _ more filed Hsw eq_refl eq_refl) as [filed' Hsw']. exists ((id, o, f) :: more), filed'. split; [done|].
    apply stopped_cons; [|by subst o]. intros [?|(_ & Hne & Heq)]; [done|]. cbn [fst snd] in *. subst o. rewrite bool_decide_false, bool_decide_true in Eq by done. done.
  - intros E. apply IH in E as (more & filed & Hsw & Hst). destruct (Hgo _ more filed Hsw eq_refl eq_refl) as [filed' Hsw']. exists ((id, o, f) :: more), filed'. split; [done|].
    apply stopped_cons; [by intros [?|(? & _)]|]. by destruct o.
Qed.
End sweep.

(** *** The candidates *)
Section found.
  Context (stat : string -> cand_stat) (lstat : string -> result () bool) (ctl : option positive).

Lemma candidate_spec entry id : candidate stat lstat ctl entry = Ok (Some id) -> entry = (id +:+ ".jsonl", false) /\ RunIDRE id = true /\ lstat (id +:+ anchor_suffix) = Ok false.
Proof.
  destruct entry as [name isDir]. unfold candidate. destruct isDir; [done|]. cbn [orb]. destruct (_ || _) eqn:Eo; [done|]. apply orb_false_iff in Eo as [_ Hs]. apply negb_false_iff, has_suffix_spec in Hs as [x ->].
  rewrite trim_suffix_app. destruct (RunIDRE x) eqn:Er; [|done]. cbn [negb]. destruct (stat _); try done. case_bool_decide; [done|]. destruct (lstat _) as [[]|] eqn:El; try done. by intros [= <-].
Qed.
Lemma candidates_spec entries ids : candidates stat lstat ctl entries = Ok ids ->
  map (fun id => id +:+ ".jsonl") ids `sublist_of` map fst entries /\ (forall id, id ∈ ids -> RunIDRE id = true /\ lstat (id +:+ anchor_suffix) = Ok false).
Proof.
  revert ids. induction entries as [|e entries IH]; intros ids; cbn [candidates]; [intros [= <-]; split; [done|by intros id ?%elem_of_nil]|].
  destruct (candidate _ _ _ e) as [[id|]|] eqn:Ec; [| |done]; cbn [result_bind]; (destruct (candidates _ _ _ entries) as [ids'|]; [|done]); cbn [result_bind]; intros [= <-]; destruct (IH _ eq_refl) as [Hs Hi].
  - apply candidate_spec in Ec as (-> & Hr & Hl). split; [by apply sublist_skip|]. intros x [->|Hx]%elem_of_cons; [done|by apply Hi].
  - split; [by apply sublist_cons|done].
Qed.
Lemma Candidates_spec listing ids : Candidates stat lstat ctl listing = Ok ids ->
  (forall entries, listing = Ok (Some entries) -> NoDup (map fst entries) -> NoDup ids) /\ (forall id, id ∈ ids -> RunIDRE id = true /\ lstat (id +:+ anchor_suffix) = Ok false).
Proof.
  unfold Candidates. destruct listing as [[entries|]|]; [|intros [= <-]; split; [done|by intros id ?%elem_of_nil]|done].
  destruct (candidates _ _ _ entries) as [ids'|] eqn:Ec; [|done]. cbn [result_bind]. intros [= <-]. apply candidates_spec in Ec as [Hs Hi]. split.
  - intros entries' [= <-] Hnd. rewrite sort_strings_perm. apply (NoDup_fmap_1 (fun id => id +:+ ".jsonl")). by eapply sublist_NoDup.
  - intros id Hid. rewrite elem_of_sort in Hid. by apply Hi.
Qed.
End found.

Section frame.
  Context `{Ed25519} (active : string) `{GoText, GoURL, GoLower, LogLibs} (rfc3339 : GoTime -> string) (s : anchorSession).
Lemma control_head_frame env lock st code lines st' : anchorControlHead active rfc3339 s env lock st = (code, lines, st') -> rt_store (ps_root st') = rt_store (ps_root st).
Proof.
  unfold anchorControlHead. destruct (Read _ _ _) as [v [e|]]; [by intros [= <- <- <-]|]. destruct (_ =? 0); [by intros [= <- <- <-]|]. destruct (session_backend s env) as [be|].
  - destruct (Submit _ _ _ _) as [rcpt|]; [destruct (receiptLines _ _ _)|]; (destruct (anchor_record _ _ _ _ _ _ _) as [[]] eqn:E); apply append_event_store in E as [Hs _]; by intros [= <- <- <-].
  - destruct (anchor_record _ _ _ _ _ _ _) as [[]] eqn:E; apply append_event_store in E as [Hs _]; by intros [= <- <- <-].
Qed.
End frame.

Section claims.
  Context `{Ed25519} (active : string) (text : fault -> string) `{GoText, GoURL} `{ConfigYaml} `{GoLower, LogLibs}.
  Context (rfc3339 : GoTime -> string) (sidecar_text : sidecar_error -> string).

(** C24: a sweep files each finished run once and stops on what would recur.
    Whatever the disks, the clock and the log do: the sweep is the anchoring of
    its first candidates one after the other, and its outcomes are theirs.  Only
    runs that had no proof file are taken, in name order and each at most once;
    what is handed to the log is the head of a ledger that verifies and ends at
    its final event; at most [limit] runs are attempted; a proof file appears
    only for a run the log took.  After an outcome every run would meet (no
    answer, no backend, no proof written, no record written, or the log's
    refusal being the one it gave last) nothing more is tried, and a candidate
    is left over only for that or for the limit.  Exit 0 means exactly that
    every run tried was anchored or not anchorable and the ledger then reads. *)
Theorem sweep_files_each_run_once (s : anchorSession) (d : LogDir) (logDir : string) (limit : Z) (envs : nat -> round_env) (ctl : option positive) (stat : string -> cand_stat)
  (entries : list (string * bool)) (lock : result ledger_error ()) (st st' : pass_state) (code : Z) (lines : list string)
  (Hnd : NoDup (map fst entries)) (Hlim : 0 < limit)
  (Hp : anchorPending active rfc3339 sidecar_text s d logDir limit envs ctl stat (Ok (Some entries)) lock st = (code, lines, st')) :
  (code = 1 /\ st' = st /\ (ctl = None \/ Candidates stat (lstat_of (ps_side st)) ctl (Ok (Some entries)) = Err ())) \/
  exists tried rest trace filed,
    Candidates stat (lstat_of (ps_side st)) ctl (Ok (Some entries)) = Ok (tried ++ rest) /\
    run_all active rfc3339 sidecar_text s d logDir envs 0 tried st = (trace, st') /\ NoDup tried /\
    counted (fun o => negb (is_skipped o)) trace <= limit /\
    (forall pre x post, trace = pre ++ x :: post -> recurs (last_refusal "" pre) x -> post = []) /\
    (rest = [] \/ limit <= counted (fun o => negb (is_skipped o)) trace \/ exists pre x, trace = pre ++ [x] /\ recurs (last_refusal "" pre) x) /\
    ps_filed st' = ps_filed st ++ filed /\ map fst filed `sublist_of` tried /\ Z.of_nat (length filed) <= limit /\
    Forall (fun x => RunIDRE x.1 = true /\ ps_side st x.1 = SAbsent /\ offered d logDir x.1 x.2) filed /\
    (forall id, ps_side st' id <> ps_side st id ->
      ps_side st id = SAbsent /\ exists x, x ∈ trace /\ tried_id x = id /\ (x.1.2 = runAnchored \/ x.1.2 = runNotRecorded)) /\
    rt_store (ps_root st') = rt_store (ps_root st) /\
    (code = 0 <-> Forall (fun x => x.1.2 = runAnchored \/ x.1.2 = runNotAnchorable) trace /\ (Read active lock (rt_ledger (ps_root st'))).2 = None).
Proof.
  unfold anchorPending in Hp. destruct ctl as [c|]; [|injection Hp as <- _ <-; left; auto].
  destruct (Candidates _ _ _ _) as [ids|[]] eqn:Ec; [right|injection Hp as <- _ <-; left; auto].
  pose proof (Candidates_spec _ _ _ _ _ Ec) as [Hu Hin]. specialize (Hu _ eq_refl Hnd).
  destruct (pending_loop _ _ _ _ _ _ _ _ _ _ _ _) as [t st1] eqn:El. apply pending_loop_swept in El as (more & filed & [] & [Hstop Hwhy]). cbn [zeroTally ty_attempts ty_failed ty_prev] in *.
  assert (Hst : st1 = st') by (destruct (Read _ _ _) as [v [|]]; by injection Hp as _ _ ->). subst st1. pose proof (counted_attempts more) as Hatt.
  assert (Habs : forall x, x ∈ ids -> RunIDRE x = true /\ ps_side st x = SAbsent).
  { intros x Hx. destruct (Hin x Hx) as [? Hl]. split; [done|]. unfold lstat_of in Hl. rewrite trim_suffix_app in Hl. by destruct (ps_side st x). }
  destruct sw_prefix0 as [rest ->]. specialize (sw_limit0 ltac:(lia)).
  assert (Hdone : forall x, x ∈ map tried_id more -> RunIDRE x = true /\ ps_side st x = SAbsent) by (intros x Hx; apply Habs, elem_of_app; by left).
  exists (map tried_id more), rest, more, filed. split_and!; try done; try lia.
  - by apply NoDup_app in Hu as [? _].
  - destruct Hwhy as [E|[?|?]]; [left|right; left; lia|by right; right]. rewrite <- (app_nil_r (map _ _)) in E at 1. by apply app_inv_head in E.
  - apply Forall_forall. intros x Hx. rewrite Forall_forall in sw_heads0. apply and_assoc. split; [|by apply sw_heads0].
    apply Hdone. eapply (elem_of_submseteq _ _ x.1); [by apply list_elem_of_fmap_2|by apply sublist_submseteq].
  - intros x Hx. destruct (sw_side0 x Hx) as (y & Hy & <- & Ho). split; [|by exists y]. by apply Hdone, list_elem_of_fmap_2.
  - rewrite <- no_failure. destruct (Read _ _ _) as [v [e|]]; injection Hp as <- _; cbn [snd]; [by split; [|intros []]|].
    assert (0 <= counted is_failure more) by (unfold counted; lia). destruct (Z.ltb_spec 0 (ty_failed t)); split; try done; [intros [? _]; lia|split; [lia|done]].
Qed.

(** Only an authorized caller publishes.  Whatever the form of the command:
    it leaves the installed configuration alone; and unless the posture turns
    that form on and the snapshot that hashes to the pointer and is the ledger's
    last install grants the invoker the operation, no head is handed to the log,
    no proof file is touched and the exit code is not 0. *)
Theorem anchor_is_guarded (run : option string) (pending : bool) (limit : Z) (who : runInvoker) (posture : result integrity_error Integrity.Integrity) (pub : pub_file) (lc : bool)
  (env : control_env) (re : runs_env) (envs : nat -> round_env) (lock : result ledger_error ()) (st st' : pass_state) (code : Z) (lines : list string)
  (Hc : cmdAuditAnchor active text rfc3339 sidecar_text run pending limit who posture pub lc env re envs lock st = (code, lines, st')) :
  rt_store (ps_root st') = rt_store (ps_root st) /\
  (ps_filed st' = ps_filed st /\ ps_side st' = ps_side st /\ code <> 0 \/
   exists inp, posture = Ok inp /\ posture_allows (if is_Some_b run || pending then anchorRunsMode else anchorControl) inp /\ may_anchor active who env (ps_root st)).
Proof.
  unfold cmdAuditAnchor in Hc. destruct (_ && _); [injection Hc as <- _ <-; by split; [|left]|]. destruct (limit <=? 0); [injection Hc as <- _ <-; by split; [|left]|].
  destruct (match run with Some _ => _ | None => false end); [injection Hc as <- _ <-; by split; [|left]|]. set (mode := if is_Some_b run || pending then anchorRunsMode else anchorControl) in *.
  destruct (openAnchorSession _ _ _ _ _ _ _ _ _) as [[[c l] r]|[s r]] eqn:Eo; [injection Hc as <- _ <-; apply session_stops in Eo as [Hs Hn]; by split; [|left]|].
  apply session_opens in Eo as (Hs & _ & Hm & _ & Hp & Ha & _). split; [|right; by exists (as_in s)]. rewrite <- Hs. destruct mode.
  - by apply control_head_frame in Hc.
  - unfold anchorRuns in Hc. destruct (re_lock re); [|by injection Hc as _ _ <-]. destruct run as [id|].
    + destruct (anchorRun _ _ _ _ _ _ _ _ _) as [[[[o l] h] f] st1] eqn:E. apply anchorRun_spec in E as [Hst _]. case_bool_decide; by injection Hc as _ _ <-.
    + unfold anchorPending in Hc. destruct (re_ctl re); [|by injection Hc as _ _ <-]. destruct (Candidates _ _ _ _) as [ids|]; [|by injection Hc as _ _ <-].
      destruct (pending_loop _ _ _ _ _ _ _ _ _ _ _ _) as [t st1] eqn:El. apply pending_loop_swept in El as (more & filed & [] & _). destruct (Read _ _ _) as [v [|]]; by injection Hc as _ _ <-.
Qed.
End claims.

(** ** What was anchored is verified *)
Lemma b64_char_ascii v : (v < 64)%N -> (byte_val (b64_char v) <? 128) = true.
Proof. intros Hv. by apply (digits64 (fun v => byte_val (b64_char v) <? 128)) in Hv; [|vm_compute]. Qed.
Lemma b64_ascii s : ascii_only (b64_encode s) = true.
Proof.
  induction s as [s IH] using (induction_ltof1 _ String.length). unfold ltof in IH. unfold ascii_only in *.
  destruct s as [|a [|b [|c r]]]; [done|..]; cbn [b64_encode all_chars].
  - destruct (quanta_bounds (N_of_ascii a) 0 0) as (? & ? & _); [apply byte_lt|done|done|]. by rewrite !b64_char_ascii.
  - destruct (quanta_bounds (N_of_ascii a) (N_of_ascii b) 0) as (? & ? & ? & _); [apply byte_lt|apply byte_lt|done|]. by rewrite !b64_char_ascii.
  - destruct (quanta_bounds (N_of_ascii a) (N_of_ascii b) (N_of_ascii c)) as (? & ? & ? & ?); try apply byte_lt. rewrite !b64_char_ascii by done. apply IH. cbn. lia.
Qed.
Lemma key_id_valid `{LogLibs} key : valid_utf8 (LogKeyID key) = true.
Proof. unfold LogKeyID, pkixDigest. rewrite hex_encode_sum. pose proof (sha256_hex_shape key) as Hs. apply andb_true_iff in Hs as [_ Hs]. by apply hex_valid. Qed.

Section verified.
  Context `{GoText, GoURL, GoLower, LogLibs}.

(** What [url.URL] prints of a URL that was read is text, and is read again. *)
Definition url_reparses : Prop :=
  forall raw key bearer offline r, NewRekor raw key bearer offline = Ok r -> valid_utf8 (rk_url r) = true /\ forall key' offline', is_ok (NewRekor (rk_url r) key' None offline') = true.

Lemma new_rekor_fields raw key bearer offline r : NewRekor raw key bearer offline = Ok r -> rk_key r = key /\ rk_offline r = offline.
Proof. unfold NewRekor. destruct (parseBackendURL raw) as [u|]; [|done]. cbn [result_bind]. destruct (parse_url u); [|done]. by intros [= <-]. Qed.

Lemma verify_factory_default getenv cc send kind url key offline : verifyBackendFactory getenv cc send kind url key offline = Default send kind url key offline.
Proof. unfold verifyBackendFactory, anchorBackendFor, anchorBearer, Default. cbn [bs_Kind bs_URL bs_Key bs_Credential bs_Offline]. case_bool_decide; [|done]. by rewrite bool_decide_true. Qed.

Lemma verify_factory_decides getenv cc send key offline c : decide_anchor (verifyBackendFactory getenv cc send) key offline c = decide_anchor (Default send) key offline c.
Proof. unfold decide_anchor. destruct (ck_Anchor c); [|done]. destruct (negb _); [done|]. destruct key; [|done]. by rewrite verify_factory_default. Qed.

Record fileable (s : anchorSession) (covered : AHead) (rcpt : Receipt) (key : string) : Prop := {
  fl_key : forall k, as_pub s = Some k -> key = k;
  fl_id : LogKeyID key = rc_BackendKeyID rcpt;
  fl_hash : lower_hex_of_len 64 (ah_Hash covered) = true;
  fl_valid : Forall (fun x => valid_utf8 x = true) [rc_Backend rcpt; rc_Ref rcpt; rc_Proof rcpt; rc_BackendKeyID rcpt];
  fl_verifies : forall send n a, an_Seq a = ah_Seq covered -> an_Hash a = ah_Hash covered -> an_BackendKind a = backend_kind -> an_Backend a = rc_Backend rcpt -> an_Ref a = rc_Ref rcpt -> an_Proof a = rc_Proof rcpt ->
    decide_anchor (Default send) (Ok (Some key)) true (MkCheck n (Some a) "") = (StateVerified, "");
}.
Lemma submitted_fileable s env be covered rcpt : url_reparses -> session_backend s env = Ok be -> Submit (rd_send env) be covered (rd_eph env) = Ok rcpt -> exists key, fileable s covered rcpt key.
Proof.
  intros Hurl Hb Hs. unfold session_backend, anchorBackendFor in Hb. cbn [bs_Kind bs_URL bs_Key bs_Credential bs_Offline] in Hb. case_bool_decide as Hk; [|done].
  destruct (new_rekor_fields _ _ _ _ _ Hb) as [Hkey _]. destruct (Hurl _ _ _ _ _ Hb) as [Hv Hre]. destruct (submitted_verifies _ _ _ _ _ Hs) as (Hh & _ & Hid & Hbk & key & penv & Hki & Hpin & Hpf & Hver).
  exists key. split; [intros k Hk'; apply Hpin; by rewrite Hkey|done|done| |].
  - rewrite Hbk, Hpf, <- Hki. apply andb_true_iff in Hid as [_ Hid]. repeat constructor; [done|by apply hex_valid|apply ascii_valid, b64_ascii|apply key_id_valid].
  - intros send n a Ea1 Ea2 Ea3 Ea4 Ea5 Ea6. unfold decide_anchor. cbn [ck_Anchor ck_Mismatch]. rewrite bool_decide_true by done. cbn [negb]. rewrite Ea1, Ea2, Ea3, Ea4, Ea5, Ea6, Hbk.
    specialize (Hre (Some key) true). unfold Default. rewrite bool_decide_true by done. destruct (NewRekor (rk_url be) (Some key) None true) as [r'|] eqn:Er; [|done]. cbn [result_bind].
    destruct (new_rekor_fields _ _ _ _ _ Er) as [Hk' Ho']. destruct covered as [sq hs]. cbn [ah_Seq ah_Hash]. rewrite (Hver send r' _ Hk') by done. by rewrite Ho'.
Qed.
End verified.

(** ** The head of a ledger as a reader finds it *)
Lemma read_ledger_head d logDir id chain head : read_ledger d logDir id = (chain, head, None) -> head = MkHead (head_hash chain) (zlen chain).
Proof.
  unfold read_ledger. destruct (ld_files d !! _) as [[env content]|]; intros (c & Ec & Hr)%clean_reader; [|done]. by apply VerifyReader_linked in Hr as [_ ->].
Qed.
Lemma head_at_end chain : chain <> [] -> head_at chain (zlen chain) (head_hash chain).
Proof.
  destruct chain as [|x chain _] using rev_ind; [done|]. intros _. unfold head_at, zlen, head_hash. rewrite length_app, last_snoc. cbn [length]. split; [lia|].
  replace (Z.to_nat (Z.of_nat (length chain + 1) - 1)) with (length chain) by lia. by rewrite nth_middle.
Qed.
Lemma check_records_last line id chain recs r : last (check_records line id chain (recs ++ [r])) = Some (MkCheck (line + Z.of_nat (length recs)) (Some (record_anchor r)) (record_mismatch id chain r)).
Proof.
  revert line. induction recs as [|x recs IH]; intros line; cbn [app check_records length]; [cbn; do 2 f_equal; lia|]. rewrite last_cons, IH. do 2 f_equal. lia.
Qed.
Lemma check_records_length line id chain recs : length (check_records line id chain recs) = length recs.
Proof. revert line. induction recs as [|x recs IH]; intros line; [done|]. cbn. by rewrite IH. Qed.

Lemma run_id_valid id : RunIDRE id = true -> valid_utf8 id = true.
Proof.
  unfold RunIDRE. destruct (cut_prefix "r-" id) as [h|] eqn:Ec; [|done]. intros Hh. apply cut_prefix_Some in Ec as ->. apply andb_true_iff in Hh as [_ Hh]. apply hex_valid in Hh.
  change ("r-" +:+ h) with (String "r" (String "-" h)). exact Hh.
Qed.

Section readers.
  Context `{Ed25519} (active : string) (text : fault -> string) `{GoText, GoURL} `{ConfigYaml} `{GoLower, LogLibs}.
  Context (rfc3339 : GoTime -> string) (sidecar_text : sidecar_error -> string).

(** C23: a run that was anchored reads as verified.  After a run is reported as
    anchored, whatever the log answered, any reader of the run that pins the log
    key the receipt was judged under (the host's own pin, when there is one)
    finds, without a network, the record just written, which names that key by
    its id, verified under that pin; and when the run had no proof before, the verdict on the run is verified and
    its exit code 0. *)
Theorem anchored_run_verifies (s : anchorSession) (d : LogDir) (logDir id : string) (env : round_env) (st st' : pass_state) (lines : list string) (head : Head) (fault : string)
  (Hurl : url_reparses) (Hid : RunIDRE id = true) (Hclock : rfc3339_ok (time_text (rd_now env)) = true)
  (Hwho : Forall (fun x => valid_utf8 x = true) [i_Subject (ri_inv (as_who s)); i_Issuer (ri_inv (as_who s)); i_Method (ri_inv (as_who s))])
  (Hsize : forall chain h, read_ledger d logDir id = (chain, h, None) -> zlen chain <= max_int64)
  (Ha : anchorRun active rfc3339 sidecar_text s d logDir id env st = (runAnchored, lines, head, fault, st')) :
  exists key, (forall k, as_pub s = Some k -> key = k) /\ forall send,
    let '(v, pinned) := VerifyRun send None (Some (Ok (Some key))) true d (ps_side st') logDir id in
    pinned = true /\
    (exists r a, last (vd_Results v) = Some r /\ rs_State r = StateVerified /\ ck_Anchor (rs_Check r) = Some a /\ an_RunID a = id /\ an_BackendKeyID a = LogKeyID key) /\
    (ps_side st id = SAbsent -> VerdictState v = StateVerifiedWord /\ VerdictExit v = 0).
Proof.
  apply anchorRun_spec in Ha as (_ & _ & _ & [(_ & _ & [?|?])|(covered & Hoff & _ & _ & _ & Hok)]); [done..|]. destruct Hoff as (chain & h & Hrd & Hfin & ->).
  destruct (Hok eq_refl) as (be & rcpt & Hbe & Hsub & Happ). specialize (Hsize _ _ Hrd). pose proof (read_ledger_head _ _ _ _ _ Hrd) as ->. cbn [Count Hash] in *. clear Hok.
  destruct (submitted_fileable s env be _ rcpt Hurl Hbe Hsub) as [key [Hpin Hkid Hhex Hvalid Hver]]. cbn [ah_Hash ah_Seq] in *. exists key. split; [done|]. intros send.
  set (r := run_record s env id _ rcpt) in *. assert (Hrok : srecord_ok r).
  { repeat match goal with Hf : Forall _ (_ :: _) |- _ => apply Forall_cons in Hf as [? Hf] end. split; [done|cbn; unfold int_ok, min_int64; pose proof (zlen_nonneg chain); unfold max_int64 in *; lia|].
    cbn. rewrite !Forall_cons. split_and!; try done; [by apply run_id_valid|]. apply hex_valid. by apply andb_true_iff in Hhex as [_ ?]. }
  pose proof Happ as Hfile. apply (append_back _ _ _ _ _ Hrok) in Happ as [(e & ? & _)|(_ & _ & found & Hfound & Hback & _)]; [done|].
  assert (Hne : chain <> []) by (by intros ->). assert (Hm : record_mismatch id chain (as_written r) = "").
  { destruct (head_at_end chain Hne) as [Hr Hsha]. unfold record_mismatch. cbn. rewrite (bool_decide_true (id = id)) by done. cbn [negb]. rewrite Hhex. cbn [negb]. fold (zlen chain).
    rewrite Z.eqb_refl, (proj2 (Z.ltb_ge _ _)) by (unfold zlen in *; lia). cbn [orb negb]. rewrite Hsha, bool_decide_true by done. by rewrite Hfin. }
  assert (Hshape : exists data, ps_side st' id = SFile data false).
  { revert Hfile. unfold SidecarAppend. case_bool_decide; [|done]. cbn [negb]. destruct (SidecarRead _); [|done]. destruct (_ <=? _); [done|]. destruct (sidecar_lines _); [|done]. destruct (rd_write env); [|done]. intros [= <-]. by eexists. }
  destruct Hshape as [data Hdata]. unfold VerifyRun. rewrite Hid. cbn [negb]. rewrite Hdata. unfold read_ledger in Hrd. destruct (match ld_files d !! _ with Some _ => _ | None => _ end) as [oe disk]. rewrite Hrd.
  unfold SidecarVerify. rewrite <- Hdata, Hback. cbn [vd_Results]. rewrite map_app. cbn [map].
  set (recs := map as_written (default [] found)) in *. unfold Decide, SidecarCheck. set (judge := fun c => _).
  assert (Hlast : last (map judge (check_records 1 id chain (recs ++ [as_written r]))) = Some (judge (MkCheck (1 + Z.of_nat (length recs)) (Some (record_anchor (as_written r))) ""))).
  { etrans; [apply (fmap_last judge)|]. by rewrite check_records_last, Hm. }
  assert (Hc : ck_Anchor (rs_Check (judge (MkCheck (1 + Z.of_nat (length recs)) (Some (record_anchor (as_written r))) ""))) = Some (record_anchor (as_written r))) by (unfold judge; by destruct (decide_anchor _ _ _ _)).
  assert (Hj : rs_State (judge (MkCheck (1 + Z.of_nat (length recs)) (Some (record_anchor (as_written r))) "")) = StateVerified).
  { unfold judge. cbn [default]. by rewrite (Hver send). }
  destruct (map judge _) as [|x xs] eqn:Er; [done|]. split; [done|]. split; [by eexists _, _|].
  intros Habs. rewrite Habs in Hfound. injection Hfound as <-. assert (xs = []) as -> by (by injection Er as _ <-). assert (Hx : rs_State x = StateVerified) by (injection Hlast as ->; exact Hj).
  unfold VerdictExit, VerdictState. cbn [vd_Found vd_Err vd_Results negb is_Some_b orb worst_state]. by rewrite Hx.
Qed.

Lemma cut_at c a b : has_byte c a = false -> Cut (a +:+ String c b) (String c "") = Some (a, b).
Proof.
  induction a as [|x a IH]; intros Ha.
  - change ("" +:+ String c b) with (String c b). cbn [Cut cut_prefix]. by rewrite ascii_eqb_refl.
  - cbn [has_byte] in Ha. apply orb_false_iff in Ha as [Hx Ha]. change (String x a +:+ String c b) with (String x (a +:+ String c b)). cbn [Cut cut_prefix]. by rewrite Hx, (IH Ha).
Qed.
Lemma ParseInt_itoa n : min_int64 <= n <= max_int64 -> ParseInt (itoa n) = Some n.
Proof.
  intros Hn. pose proof (itoa_no_byte "+" n eq_refl ltac:(done)) as Hp. rewrite <- (parse_int64_itoa n Hn). destruct (itoa n) as [|c r]; [done|]. cbn [has_byte] in Hp. apply orb_false_iff in Hp as [Hp _].
  unfold ParseInt. destruct (decide (c = "+"%char)) as [->|Hne]; [done|]. destruct c as [[][][][][][][][]]; done.
Qed.
(** What is expected of a head that was shipped holds of every ledger that
    extends the one it was read from. *)
Lemma expected_holds records head n h : int_ok n -> head_at records n h -> expectHeadMismatch (itoa n +:+ ":" +:+ h) records head = "".
Proof.
  intros Hn [Hr Hh]. unfold expectHeadMismatch. change (":" +:+ h) with (String ":" h). rewrite cut_at by (by apply itoa_no_byte). rewrite ParseInt_itoa by done.
  rewrite (proj2 (Z.ltb_ge _ _)), (proj2 (Z.ltb_ge _ _)) by lia. cbn [orb]. by rewrite Hh, bool_decide_true.
Qed.

(** The ledger an append finds still holds what was read, and can take the
    record of the receipt. *)
Definition grows (s : anchorSession) (env : round_env) (r : croot) (v : View) (rcpt : Receipt) : Prop :=
  exists segs rs, attempt_on active (deciding active true (ce_append (rd_control env) (rt_ledger r)).1 (ce_append (rd_control env) (rt_ledger r)).2) segs rs /\ v_Records v `prefix_of` rs /\
    room rs (ce_record (rd_control env)) (anchor_event (as_who s) (rd_control env) "success" None (Some (control_payload (MkAHead (Count (v_Head v)) (Hash (v_Head v))) rcpt))).

Lemma payload_kept s covered rcpt key : fileable s covered rcpt key -> san_anchor (control_payload covered rcpt) = control_payload covered rcpt.
Proof.
  intros [_ _ Hh Hv _]. repeat match goal with Hf : Forall _ (_ :: _) |- _ => apply Forall_cons in Hf as [? Hf] end. unfold san_anchor, control_payload.
  cbn [an_RunID an_Seq an_Hash an_Kind an_BackendKind an_Backend an_Ref an_Proof an_BackendKeyID]. apply andb_true_iff in Hh as [_ Hh%hex_valid]. by rewrite !to_valid_id by (done || (vm_compute; reflexivity)).
Qed.

(** The record of an anchor, as the next reader of the ledger finds it. *)
Lemma anchor_recorded s env r v rcpt key head r' : Read active (Ok ()) (rt_ledger r) = (v, None) -> Count (v_Head v) <> 0 -> grows s env r v rcpt ->
  time_ok (ae_now (ce_record (rd_control env))) -> IsZero (time_text (ae_now (ce_record (rd_control env)))) = false ->
  fileable s (MkAHead (Count (v_Head v)) (Hash (v_Head v))) rcpt key ->
  anchor_record active (as_who s) (rd_control env) r "success" None (Some (control_payload (MkAHead (Count (v_Head v)) (Hash (v_Head v))) rcpt)) = (Ok head, r') ->
  exists v' c, Read active (Ok ()) (rt_ledger r') = (v', None) /\ v_Records v `prefix_of` v_Records v' /\ c ∈ CheckAnchors (v_Records v') /\
    c = MkAnchorCheck (zlen (v_Records v')) (Some (control_payload (MkAHead (Count (v_Head v)) (Hash (v_Head v))) rcpt)) None.
Proof.
  intros Hread Hcount (segs & rs & Hat & [more Hpre] & Hroom) Hclk Hz Hfile Happ. destruct (Read_sound _ _ _ _ Hread) as [_ Hhead]. unfold anchor_record in Happ. set (a := control_payload _ rcpt) in *.
  set (e := anchor_event _ _ _ _ _) in *. unfold append_event in Happ. destruct (ce_append _ _) as [t1 t2]. cbn [fst snd] in Hat. destruct (Append active t1 t2 _ e) as [x dk] eqn:Ea. injection Happ as -> <-. cbn [rt_ledger with_ledger].
  assert (Hperm : permit e = None) by (unfold Append in Ea; by destruct (permit e)).
  pose proof (room_count _ _ _ Hroom) as Hcnt. assert (Hseq : 1 <= an_Seq a <= zlen rs /\ an_Seq a = zlen (v_Records v)).
  { unfold a, control_payload. cbn. rewrite Hhead in *. cbn in *. rewrite Hpre, zlen_app. pose proof (zlen_nonneg (v_Records v)). pose proof (zlen_nonneg more). lia. }
  assert (Hev : event_ok (ce_record (rd_control env)) e). { split; try done. change (anchor_ok (ce_Anchor e)) with (int_ok (an_Seq a)). unfold int_ok, min_int64, max_int64 in *. lia. }
  destruct (control_append_repr active t1 t2 _ e segs rs head dk Hperm Hev Hat Hroom Ea) as (ino & id & act & -> & Hr). pose proof (line_decodes _ _ e Hev Hroom) as Hdec.
  set (rs := concat segs ++ act) in *. set (line := line_at rs _ e) in *.
  assert (Hv' : exists v', Read active (Ok ()) dk = (v', None) /\ v_Records v' = rs ++ [line]).
  { eexists. split; [rewrite (Read_repr active dk ino id segs _ "" _ Hr); unfold SegmentSet.verdict; by rewrite bool_decide_true|]. cbn [view_of v_Records]. by rewrite app_assoc. }
  destruct Hv' as (v' & Hread' & Hrs). exists v', (MkAnchorCheck (zlen (v_Records v')) (Some a) None). split; [done|]. rewrite Hrs. split; [exists (more ++ [line]); by rewrite Hpre, <- app_assoc|]. split; [|done].
  apply list_elem_of_omap. exists line. split; [apply elem_of_app; right; by apply list_elem_of_singleton|]. unfold check_anchor. rewrite Hdec. cbn [san_record r_Action r_Outcome r_Anchor r_Seq record_at].
  change (ce_Action e) with "anchor". change (ce_Outcome e) with "success". change (ce_Anchor e) with (Some a). rewrite !to_valid_id by done. rewrite !bool_decide_true by done. cbn [negb orb fmap option_fmap option_map].
  unfold a. rewrite (payload_kept _ _ _ _ Hfile). fold a. change (an_RunID a) with "". rewrite bool_decide_true by done. cbn [negb]. rewrite zlen_app. do 2 f_equal.
  apply anchor_verdict_none. exists a. destruct Hfile as [_ _ Hh _ _]. split_and!; [done|done|lia|]. rewrite Hpre, <- app_assoc. apply head_at_app. destruct Hseq as [? Hs]. rewrite Hs.
  change (an_Hash a) with (Hash (v_Head v)). rewrite Hhead. cbn [Hash]. apply head_at_end. intros E. rewrite E in Hs. change (zlen []) with 0 in Hs. lia.
Qed.

(** C22: a head that [audit anchor] pinned is verified, by anybody, without the
    log.  After exit 0, provided nobody rewrote the ledger between the read and
    the append: the ledger still holds the records that were there, and now an
    anchor of the head they had; [audit verify control] under the log key the
    receipt was judged under (the host's own pin, when there is one) calls that
    anchor verified from the stored proof alone, whatever the network answers;
    the anchor names that key by its id; and the line that was printed is an [--expect-head] the ledger satisfies. *)
Theorem anchored_head_verifies (limit : Z) (who : runInvoker) (posture : result integrity_error Integrity.Integrity) (pub : pub_file) (lc : bool) (env : control_env) (re : runs_env)
  (envs : nat -> round_env) (st st' : pass_state) (lines : list string)
  (Hurl : url_reparses) (Hclock : time_ok (ae_now (ce_record (rd_control (envs 0%nat)))) /\ IsZero (time_text (ae_now (ce_record (rd_control (envs 0%nat))))) = false)
  (Hgrow : forall s r v be rcpt, openAnchorSession active text anchorControl who posture pub lc env (ps_root st) = inr (s, r) -> Read active (Ok ()) (rt_ledger r) = (v, None) ->
    session_backend s (envs 0%nat) = Ok be ->
    Submit (rd_send (envs 0%nat)) be (MkAHead (Count (v_Head v)) (Hash (v_Head v))) (rd_eph (envs 0%nat)) = Ok rcpt -> grows s (envs 0%nat) r v rcpt)
  (Hc : cmdAuditAnchor active text rfc3339 sidecar_text None false limit who posture pub lc env re envs (Ok ()) st = (0, lines, st')) :
  exists v v' key, Read active (Ok ()) (rt_ledger (open_ledger active (ps_root st) env).2) = (v, None) /\ Read active (Ok ()) (rt_ledger (ps_root st')) = (v', None) /\
    v_Records v `prefix_of` v_Records v' /\ (forall k, pinnedLogKey None pub = Ok (Some k) -> key = k) /\
    (forall send getenv cc, exists r a, r ∈ VerifyAnchors send (Some (verifyBackendFactory getenv cc send)) (Some (Ok (Some key))) true (v_Records v') /\
      rs_State r = StateVerified /\ ck_Anchor (rs_Check r) = Some a /\ an_Seq a = Count (v_Head v) /\ an_Hash a = Hash (v_Head v) /\ an_BackendKeyID a = LogKeyID key) /\
    "anchored: seq=" +:+ itoa (Count (v_Head v)) +:+ " sha256=" +:+ Hash (v_Head v) ∈ lines /\
    expectHeadMismatch (itoa (Count (v_Head v)) +:+ ":" +:+ Hash (v_Head v)) (v_Records v') (v_Head v') = "".
Proof.
  unfold cmdAuditAnchor in Hc. cbn [is_Some_b andb orb] in Hc. destruct (limit <=? 0); [done|]. destruct (openAnchorSession _ _ _ _ _ _ _ _ _) as [[[c l] r]|[s r]] eqn:Eo.
  { apply session_stops in Eo as [_ Hn]. by injection Hc as -> _ _. }
  specialize (Hgrow s r). apply session_opens in Eo as (_ & -> & _ & Hwho & _ & _ & Hpub). unfold anchorControlHead in Hc. cbn [with_root ps_root] in Hc. set (r := (open_ledger active (ps_root st) env).2) in *.
  destruct (Read active (Ok ()) (rt_ledger r)) as [v [e|]] eqn:Er; [done|]. destruct (Z.eqb_spec (Count (v_Head v)) 0) as [|Hcnt]; [done|]. cbv zeta in Hc.
  destruct (session_backend s (envs 0%nat)) as [be|e] eqn:Eb; [|by destruct (anchor_record _ _ _ _ _ _ _) as [[] ?]].
  destruct (Submit _ be _ _) as [rcpt|e] eqn:Es; [|by destruct (anchor_record _ _ _ _ _ _ _) as [[] ?]]. destruct (receiptLines _ _ _) as [l1 l2].
  destruct (anchor_record _ _ _ _ _ _ _) as [[head|] r2] eqn:Ea; [|done]. injection Hc as <- <-. cbn [with_root with_filed ps_root] in *.
  pose proof (Hgrow v be rcpt eq_refl eq_refl eq_refl Es) as Hg. destruct (submitted_fileable s _ be _ rcpt Hurl Eb Es) as [key Hfile]. destruct Hclock as [Hclk Hz].
  destruct (anchor_recorded s (envs 0%nat) r v rcpt key head r2 Er Hcnt Hg Hclk Hz Hfile Ea) as (v' & c & Hread' & Hpre & Hin & ->). exists v, v', key. split_and!; try done.
  - intros k Hk. apply (fl_key _ _ _ _ Hfile). congruence.
  - intros send getenv cc. set (a := control_payload _ rcpt) in *. set (tc := MkCheck (zlen (v_Records v')) (Some a) ""). exists (MkAResult tc StateVerified ""), a. split; [|split_and!; try done; symmetry; exact (fl_id _ _ _ _ Hfile)].
    pose proof (fl_verifies _ _ _ _ Hfile send (zlen (v_Records v')) a eq_refl eq_refl eq_refl eq_refl eq_refl eq_refl) as Hd.
    apply list_elem_of_fmap. exists tc. split; [|apply list_elem_of_fmap; eexists; split; [|exact Hin]; reflexivity]. unfold tc. change (default (Default send) (Some (verifyBackendFactory getenv cc send))) with (verifyBackendFactory getenv cc send).
    change (default (Ok None) (Some (Ok (Some key)))) with (Ok (Some key) : result string (option string)). rewrite verify_factory_decides. by rewrite Hd.
  - apply elem_of_cons. by left.
  - destruct (Read_sound _ _ _ _ Er) as [_ Hh]. pose proof (Read_sound _ _ _ _ Hread') as [_ Hh']. destruct Hg as (segs & rs & _ & [more Hrs] & Hroom). apply room_count in Hroom. destruct Hpre as [ext ->].
    rewrite Hh in *. cbn [Count Hash] in *. pose proof (zlen_nonneg (v_Records v)). rewrite Hrs, zlen_app in Hroom. pose proof (zlen_nonneg more). apply expected_holds; [unfold int_ok, min_int64, max_int64 in *; lia|].
    apply head_at_app, head_at_end. intros E. rewrite E in Hcnt. by apply Hcnt.
Qed.
End readers.

(** ** A host, a log and a run *)
Definition ac_text : GoText := {| is_print := fun z => 32 <=? z; quote := fun s => s |}.
Definition ac_url : GoURL := {| parse_url := fun _ => Some (MkURL "https" "log" false "" false "" "") |}.
Definition ac_yaml : ConfigYaml := {|
  yaml_agent := fun s => Some (ex_agent s []); yaml_workflow := fun _ => None;
  yaml_role := fun s => Some (MkRole s [] ["ops"] (Some ["apply"; "anchor"]) "");
  yaml_gateway := fun _ => (c_Gateway zeroConfig, true) |}.
Definition ac_libs : LogLibs := {|
  note_Open := @note_Open toy_libs; HashLeaf := @HashLeaf toy_libs; VerifyInclusion := @VerifyInclusion toy_libs; VerifyASN1 := @VerifyASN1 toy_libs;
  pem_Decode := @pem_Decode toy_libs; ParsePKIX := @ParsePKIX toy_libs; url_String := fun _ => "https://log" |}.
#[local] Existing Instances toy_ed ac_text ac_url ac_yaml toy_lower ac_libs.

(** A log that takes every entry as the only one of its tree. *)
Definition ac_send (q : rk_request) : rk_answer :=
  match rq_Body q with
  | Some body =>
      let leaf := HashLeaf body in
      RkAnswered 201 (marshal (JObj [("00000000000000ff" +:+ hex_encode leaf, JObj [("body", JStr (b64_encode body)); ("integratedTime", JNum "5"); ("logID", JStr "l"); ("logIndex", JNum "7");
        ("verification", JObj [("inclusionProof", JObj [("checkpoint", JStr ("log - 255" +:+ nl +:+ "1" +:+ nl +:+ b64_encode leaf +:+ nl)); ("hashes", JArr []); ("logIndex", JNum "0");
          ("rootHash", JStr (hex_encode leaf)); ("treeSize", JNum "1")])])])]))
  | None => RkNotSent "down"
  end.
Definition ac_round : round_env := MkRound ax_env (fun _ => "") (fun _ => Err "") ac_send (Ok ("s", "der")) "2026-01-02T03:04:05.50Z" true.
Definition ac_posture : Integrity.Integrity := MkIntegrity "" "tlog" "on-demand" [] zeroBackend (MkBackend "transparency-log" "https://log" "" "" "" zeroCredential).
Definition ac_created : disk := create_file ax_empty ex_active "".
Definition ac_installed : CEvent := { zeroCEvent with ce_Action := "apply"; ce_Outcome := "success"; ce_ConfigHash := ax_hash }.
Definition ac_ledger : disk := (Append ex_active (now ac_created) (now ac_created) ex_append ac_installed).2.
Definition ac_line : string := line_at [] ex_append ac_installed.
Definition ac_root : croot := MkRoot (MkIStore (Some (Some (ax_hash +:+ nl))) {[SnapshotDir ax_hash := ax_tree]} ∅) ac_ledger KeyAbsent KeyAbsent KeyAbsent None.
Definition ac_dir : LogDir := MkLogDir None {[log_path "runs" sx_run := (no_env, sx_raw +:+ nl)]}.
Definition ac_runs : runs_env := MkRunsEnv (Ok ()) ac_dir "runs" (Some 1%positive) (fun _ => CandFile 2%positive) (Ok (Some [(sx_run +:+ ".jsonl", false)])).
Definition ac_start : pass_state := MkPass ac_root (fun _ => SAbsent) [].
Definition ac_rfc (t : GoTime) : string := "".
Definition ac_side (e : sidecar_error) : string := "".
Definition ac_session : anchorSession := MkSession ax_who ac_posture (Some "key") "pinned".
Definition ac_anchored : Z * list string * pass_state :=
  cmdAuditAnchor ex_active ax_text ac_rfc ac_side None false 50 ax_who (Ok ac_posture) (PubFile "key") true ax_env ac_runs (fun _ => ac_round) (Ok ()) ac_start.
Definition ac_swept : Z * list string * pass_state :=
  anchorPending ex_active ac_rfc ac_side ac_session ac_dir "runs" 50 (fun _ => ac_round) (Some 1%positive) (fun _ => CandFile 2%positive) (Ok (Some [(sx_run +:+ ".jsonl", false)])) (Ok ()) ac_start.
Definition ac_run : runAnchorOutcome * list string * Head * string * pass_state := anchorRun ex_active ac_rfc ac_side ac_session ac_dir "runs" sx_run ac_round ac_start.

Lemma ac_urls : url_reparses.
Proof. intros raw key bearer offline r. unfold NewRekor, parseBackendURL. cbn. intros [= <-]. split; [by vm_compute|]. intros key' offline'. by vm_compute. Qed.

Lemma ac_repr : repr ex_active ac_ledger (dk_next ax_empty) "" [] [ac_line] "" StateOpen.
Proof.
  assert (He : event_ok ex_append ac_installed) by (split; try done; try (split; by vm_compute); by vm_compute).
  assert (Hr : room [] ex_append ac_installed) by (vm_compute; reflexivity).
  apply (append_done ex_active ac_created (dk_next ax_empty) "" [] [] ex_append ac_installed (MkHead (sha256_hex ac_line) 1) ac_ledger (fresh_created ex_active ax_empty ex_fresh) ltac:(reflexivity) He Hr).
  vm_compute. reflexivity.
Qed.

Lemma anchor_is_guarded_witness : may_anchor ex_active ax_who ax_env ac_root.
Proof.
  destruct (anchor_is_guarded ex_active ax_text ac_rfc ac_side None false 50 ax_who (Ok ac_posture) (PubFile "key") true ax_env ac_runs (fun _ => ac_round) (Ok ()) ac_start ac_anchored.2 ac_anchored.1.1 ac_anchored.1.2)
    as [_ [(_ & _ & Hc)|(inp & _ & _ & Hm)]].
  - exact (triple_eta ac_anchored).
  - exfalso. apply Hc. vm_compute. reflexivity.
  - exact Hm.
Defined.

Lemma sweep_files_each_run_once_witness : ac_swept.1.1 = 0 /\ exists tried trace,
  run_all ex_active ac_rfc ac_side ac_session ac_dir "runs" (fun _ => ac_round) 0 tried ac_start = (trace, ac_swept.2) /\
  Forall (fun x => x.1.2 = runAnchored \/ x.1.2 = runNotAnchorable) trace /\ map fst (ps_filed ac_swept.2) = [sx_run].
Proof.
  assert (H0 : ac_swept.1.1 = 0) by (vm_compute; reflexivity). assert (Hf : map fst (ps_filed ac_swept.2) = [sx_run]) by (vm_compute; reflexivity).
  split; [exact H0|].
  destruct (sweep_files_each_run_once ex_active ac_rfc ac_side ac_session ac_dir "runs" 50 (fun _ => ac_round) (Some 1%positive) (fun _ => CandFile 2%positive) [(sx_run +:+ ".jsonl", false)] (Ok ()) ac_start ac_swept.2
    ac_swept.1.1 ac_swept.1.2) as [(Hc & _)|(tried & rest & trace & filed & _ & Hrun & _ & _ & _ & _ & _ & _ & _ & _ & _ & _ & Hcode)].
  - apply NoDup_singleton.
  - lia.
  - exact (triple_eta ac_swept).
  - rewrite H0 in Hc. discriminate.
  - exists tried, trace. split; [exact Hrun|]. split; [exact (proj1 (proj1 Hcode H0))|exact Hf].
Defined.

Lemma anchored_run_verifies_witness : exists key, (forall k, Some "key" = Some k -> key = k) /\
  VerdictExit (VerifyRun (fun _ => RkNotSent "down") None (Some (Ok (Some key))) true ac_dir (ps_side ac_run.2) "runs" sx_run).1 = 0.
Proof.
  destruct (anchored_run_verifies ex_active ac_rfc ac_side ac_session ac_dir "runs" sx_run ac_round ac_start ac_run.2 ac_run.1.1.1.2 ac_run.1.1.2 ac_run.1.2) as (key & Hk & Hv).
  - exact ac_urls.
  - vm_compute. reflexivity.
  - vm_compute. reflexivity.
  - repeat constructor; vm_compute; reflexivity.
  - intros chain h E. assert (Hc : (read_ledger ac_dir "runs" sx_run).1.1 = chain) by (rewrite E; reflexivity). rewrite <- Hc. vm_compute. discriminate.
  - vm_compute. reflexivity.
  - exists key. split; [exact Hk|]. specialize (Hv (fun _ => RkNotSent "down")). destruct (VerifyRun _ _ _ _ _ _ _ _) as [v pinned]. destruct Hv as (_ & _ & Hz). apply Hz. reflexivity.
Defined.

Definition ac_backend : Rekor := MkRekor "https://log" "log" (Some "key") None false.
Lemma ac_opens : openAnchorSession ex_active ax_text anchorControl ax_who (Ok ac_posture) (PubFile "key") true ax_env ac_root = inr (ac_session, ac_root).
Proof. vm_compute. reflexivity. Qed.

Lemma anchored_head_verifies_witness : exists v v', Read ex_active (Ok ()) (rt_ledger (open_ledger ex_active ac_root ax_env).2) = (v, None) /\ Read ex_active (Ok ()) (rt_ledger (ps_root ac_anchored.2)) = (v', None) /\
  v_Records v `prefix_of` v_Records v'.
Proof.
  destruct (anchored_head_verifies ex_active ax_text ac_rfc ac_side 50 ax_who (Ok ac_posture) (PubFile "key") true ax_env ac_runs (fun _ => ac_round) ac_start ac_anchored.2 ac_anchored.1.2) as (v & v' & key & Hr & Hr' & Hp & _).
  - exact ac_urls.
  - split; [split; by vm_compute|by vm_compute].
  - intros s r v be rcpt Ho Hread Hb Hs. change (ps_root ac_start) with ac_root in Ho. rewrite ac_opens in Ho. injection Ho as <- <-. pose proof (Read_repr _ _ _ _ _ _ _ _ ac_repr) as Hv. change (rt_ledger ac_root) with ac_ledger in Hread. rewrite Hread in Hv. injection Hv as ->.
    exists [], [ac_line]. split; [|split; [reflexivity|]].
    + cbn [ac_round rd_control ax_env ce_append fst snd]. rewrite deciding_now. split; [exact (repr_holds ex_active _ _ _ _ _ _ _ ac_repr)|exact (walks_now ex_active _ _ _ _ _ _ _ ac_repr)].
    + assert (Hbe : session_backend ac_session ac_round = Ok ac_backend) by (vm_compute; reflexivity). rewrite Hbe in Hb. injection Hb as <-. apply (f_equal (fun x => match x with Ok y => y | Err _ => zeroReceipt end)) in Hs. cbv beta iota in Hs. rewrite <- Hs. vm_compute. reflexivity.
  - replace 0 with ac_anchored.1.1 by (vm_compute; reflexivity). exact (triple_eta ac_anchored).
  - exists v, v'. split; [exact Hr|]. split; [exact Hr'|exact Hp].
Defined.
