(* ===== verification/Keygen.v ===== *)
(** * The signing pair ([cmd/agenthof/signing.go]: [config keygen] and serve's
      startup warning)

    The pair beside the control ledger is made once and never replaced; a lone
    private key gets its public file back.  The warning serve prints at startup
    is the answer the pull would give.  PEM coding is left out, a key file is
    absent, unreadable or a key; how a write ends, with what it leaves, is an argument. *)
From S2P Require Import Prelude Sha256 GoStr Json Paths Ledger Config Authz Origin Registry Event Attest ControlRecord Manifest Segments Snapshot Times Signed Vouch Signing.

(** [writeExclusive]: not created, created but not written and synced (with what
    the file then holds), written. *)
Inductive write_outcome : Type := NotCreated | CutShort (kept : keyfile) | Written.

Definition writeExclusive (old : keyfile) (o : write_outcome) (key : string) : bool * keyfile :=
  match old, o with
  | KeyAbsent, Written => (true, KeyIs key)
  | KeyAbsent, CutShort kept => (false, kept)
  | _, _ => (false, old)
  end.

Definition with_keys (r : croot) (key pub : keyfile) : croot := MkRoot (rt_store r) (rt_ledger r) key pub (rt_verify r) (rt_floor r).

(** What a key generation takes from outside: the directory, the fresh private
    key, the two writes, the removal of the private key. *)
Record keygen_env : Type := MkKeygen { kg_mkdir : bool; kg_key : option string; kg_write_key : write_outcome; kg_write_pub : write_outcome; kg_remove : bool }.

Section keygen.
  Context `{Ed25519} (active : string).

Definition cmdConfigKeygen (r : croot) (env : keygen_env) : Z * croot :=
  if negb (kg_mkdir env) then (1, r)
  else match signingStateOf r with
       | Err _ | Ok signingOn | Ok signingPubOnly => (1, r)
       | Ok signingKeyOnly =>
           match loadSigningKey r with
           | Err _ => (1, r)
           | Ok priv => match writeExclusive (rt_pub r) (kg_write_pub env) (ed_public priv) with (ok, pub) => (if ok then 0 else 1, with_keys r (rt_key r) pub) end
           end
       | Ok signingOff =>
           match kg_key env with
           | None => (1, r)
           | Some priv =>
               match writeExclusive (rt_key r) (kg_write_key env) priv with
               | (false, key) => (1, with_keys r key (rt_pub r))
               | (true, key) =>
                   match writeExclusive (rt_pub r) (kg_write_pub env) (ed_public priv) with
                   | (true, pub) => (0, with_keys r key pub)
                   | (false, pub) => (1, with_keys r (if kg_remove env then KeyAbsent else key) pub)
                   end
               end
           end
       end.

Inductive startup_warning : Type := WarnNoPub | WarnPubUnreadable | WarnNotSigned | WarnSignatureUnreadable (e : sig_fault).

Definition signingStartupWarning (r : croot) (lock : result ledger_error ()) : option startup_warning :=
  match signingStateOf r with
  | Err _ | Ok signingOff => None
  | Ok signingKeyOnly => Some WarnNoPub
  | Ok _ =>
      match loadSigningPub r with
      | Err _ => Some WarnPubUnreadable
      | Ok pub =>
          match InstalledHash (rt_store r) with
          | Err _ | Ok None => None
          | Ok (Some hash) =>
              match Read active lock (rt_ledger r) with
              | (_, Some _) => None
              | (v, None) =>
                  match LastInstalling (v_Records v) with
                  | None => None
                  | Some last =>
                      if negb (bool_decide (d_ConfigHash last = hash)) then None
                      else match GenesisLogID (v_Records v) with
                           | None => None
                           | Some logID =>
                               match servedSignature (rt_store r) hash logID (d_Seq last) (UTC (time_of (d_Time last))) pub with
                               | Ok _ => None
                               | Err (SigVerdict v) => match sv_Kind v with sigNewer => None | _ => Some WarnNotSigned end
                               | Err e => Some (WarnSignatureUnreadable e)
                               end
                           end
                  end
              end
          end
      end
  end.

(** A signing pair is made whole and never replaced.  Key generation leaves
    the store, the ledger and the pin alone and never changes a key file that
    is there; exit 0 means the two files are a pair; and when a write is refused
    before it begins and the removal succeeds, a failed generation leaves
    nothing behind. *)
Theorem keygen_makes_a_pair (r r' : croot) (env : keygen_env) (code : Z) (Hk : cmdConfigKeygen r env = (code, r')) :
  r' = with_keys r (rt_key r') (rt_pub r') /\
  (rt_key r <> KeyAbsent -> rt_key r' = rt_key r) /\ (rt_pub r <> KeyAbsent -> rt_pub r' = rt_pub r) /\
  (code = 0 -> exists priv, rt_key r' = KeyIs priv /\ rt_pub r' = KeyIs (ed_public priv)) /\
  (code <> 0 -> (forall kept, kg_write_key env <> CutShort kept /\ kg_write_pub env <> CutShort kept) -> kg_remove env = true -> r' = r).
Proof.
  destruct r as [st led key pub ver fl]. unfold cmdConfigKeygen, signingStateOf in Hk. cbn [rt_key rt_pub] in Hk. destruct (kg_mkdir env); cbn [negb] in Hk; [|by injection Hk as <- <-].
  destruct key as [| | |k]; cbn in Hk; try (by injection Hk as <- <-); destruct pub as [| | |p]; cbn in Hk; try (by injection Hk as <- <-).
  - destruct (kg_key env) as [priv|]; [|by injection Hk as <- <-].
    destruct (kg_write_key env) as [|kept|]; cbn in Hk; [by injection Hk as <- <-| |destruct (kg_write_pub env) as [|kept|]; cbn in Hk; destruct (kg_remove env)]; injection Hk as <- <-; cbn; split_and!; try done.
    all: first [by intros _ Hn; destruct (Hn kept) | intros _; by exists priv].
  - destruct (kg_write_pub env) as [|kept|]; cbn in Hk; injection Hk as <- <-; cbn; split_and!; try done; first [by intros _ Hn; destruct (Hn kept) | intros _; by exists k].
Qed.

(** A write of the public key that fails after the file was created leaves half a
    pair, which every later generation refuses. *)
Lemma cut_short_leaves_half_a_pair (r : croot) (env : keygen_env) (priv : string) (kept : keyfile) :
  kg_mkdir env = true -> rt_key r = KeyAbsent -> rt_pub r = KeyAbsent -> kg_key env = Some priv -> kg_write_key env = Written -> kg_write_pub env = CutShort kept -> kg_remove env = true -> kept <> KeyAbsent ->
  cmdConfigKeygen r env = (1, with_keys r KeyAbsent kept) /\ forall env', cmdConfigKeygen (with_keys r KeyAbsent kept) env' = (1, with_keys r KeyAbsent kept).
Proof.
  intros Hm Hk Hp Hg Hwk Hwp Hr Hl. split.
  - unfold cmdConfigKeygen, signingStateOf. rewrite Hm, Hk, Hp. cbn. rewrite Hg, Hwk, Hwp, Hr. done.
  - intros env'. unfold cmdConfigKeygen, signingStateOf. destruct (kg_mkdir env'); [|done]. by destruct kept.
Qed.

(** The warning at startup is the pull's verdict on the signature. *)
Lemma startup_warns_as_the_pull_answers (r : croot) (lock : result ledger_error ()) (hash : string) (records : list string) (last : DecodedEvent) (files : bundle) :
  InstalledHash (rt_store r) = Ok (Some hash) -> on_record active lock (rt_ledger r) hash records last ->
  let out := (pull_signed r records last (MkSnap hash (d_Seq last) (UTC (time_of (d_Time last))) files None)).1 in
  match signingStartupWarning r lock with
  | Some WarnNotSigned => out = pullNotSigned
  | Some _ => out = pullStoreUnusable
  | None => out <> pullStoreUnusable \/ exists e, signingStateOf r = Err e
  end.
Proof.
  intros Hi (v & Hr & <- & Hl & Hc). unfold signingStartupWarning, pull_signed. destruct (signingStateOf r) as [[]|e] eqn:Es; try done; try (by left); [..|right; by eexists].
  all: destruct (loadSigningPub r) as [pub|]; [|done]; rewrite Hi, Hr, Hl, bool_decide_true by done; cbn [negb sn_Hash sn_InstalledAt].
  all: destruct (GenesisLogID (v_Records v)) as [logID|]; [|by left]; destruct (servedSignature _ _ _ _ _ _) as [sig|[vd| |]]; try done; try (by left); by destruct (sv_Kind vd); left || done.
Qed.
End keygen.

Lemma keygen_makes_a_pair_witness :
  exists priv, rt_key (cmdConfigKeygen (H := toy_ed) (MkRoot (MkIStore None ∅ ∅) (MkDisk ∅ ∅ 0) KeyAbsent KeyAbsent KeyAbsent None) (MkKeygen true (Some "k") Written Written true)).2 = KeyIs priv.
Proof.
  destruct (keygen_makes_a_pair (H := toy_ed) (MkRoot (MkIStore None ∅ ∅) (MkDisk ∅ ∅ 0) KeyAbsent KeyAbsent KeyAbsent None) _ (MkKeygen true (Some "k") Written Written true) 0 eq_refl)
    as (_ & _ & _ & Hc & _). destruct (Hc eq_refl) as (priv & Hp & _). exists priv. exact Hp.
Defined.
