(* ===== verification/Prune.v ===== *)
(** * Retention ([runs prune]: [pruneRuns] and [cmdRunsPrune] of
      [cmd/agenthof/main.go])

    A prune removes old runs with everything delegated from them, their anchor
    proofs, and old artifact bodies, under the same guards as the other control
    commands, and records what it removed.

    The log directory is the set of its names while the prune runs, over the
    listing and the contents [Tree] reads; what [stat], [Info] and a removal
    answer for a name is an argument.  Go's order over a map is an argument
    ([ids]).  The reading of [--older-than] is left out. *)
From S2P Require Import Prelude Sha256 GoStr Json Paths Ledger Config Authz Origin Registry Event Engine EngineTrace Completeness Attest ControlRecord Manifest Segments Snapshot Times Signed Utf8 Rekor AnchorVerify Sidecar Vouch Signing Identity Integrity Apply ApplySound Tree Artifact.


(** What [os.Stat] answers for a name that is there. *)
Inductive stat_answer : Type := StatFile (inode : positive) | StatDangling | StatFault.

Record prune_world : Type := MkPruneWorld {
  pw_ctl : option positive;          (** the control ledger's file, if it can be told *)
  pw_exists : bool;                  (** is there a log directory *)
  pw_stat : string -> stat_answer;
  pw_info : string -> option Z;      (** [entry.Info]'s modification time *)
  pw_remove : string -> bool;
}.

Section prune.
  Context (w : prune_world) (parents : gmap string string) (ids : list string) (listing : list (string * bool)).

(** The names that are left, the ids taken up, the ledgers removed. *)
Record sweep : Type := MkSweep { sw_names : gset string; sw_removed : gset string; sw_pruned : Z }.

Definition children (id : string) : list string :=
  List.filter (fun c => match parents !! c with Some p => bool_decide (p = id) && negb (bool_decide (p = "")) && is_Some_b (parents !! p) | None => false end) ids.
Definition isRoot (id : string) : bool :=
  let parent := default "" (parents !! id) in bool_decide (parent = "") || negb (is_Some_b (parents !! parent)).

(** [os.Remove], its error ignored. *)
Definition unlink (names : gset string) (name : string) : gset string := if pw_remove w name then names ∖ {[name]} else names.

(** The run's ledger: is it gone after this, and did this remove it. *)
Definition take_ledger (names : gset string) (name : string) (ctl : positive) : bool * bool :=
  if negb (bool_decide (name ∈ names)) then (true, false)
  else match pw_stat w name with
       | StatFile i => if bool_decide (i = ctl) then (false, false) else if pw_remove w name then (true, true) else (false, false)
       | StatDangling | StatFault => (false, false)
       end.
Definition temps (id : string) : list string :=
  map fst (List.filter (fun e => negb e.2 && has_prefix e.1 (id +:+ anchor_suffix +:+ ".tmp-")) listing).
Definition remove_files (ctl : positive) (id : string) (s : sweep) : sweep :=
  let name := id +:+ ".jsonl" in
  match take_ledger (sw_names s) name ctl with
  | (false, _) => s
  | (true, mine) =>
      let names := if mine then sw_names s ∖ {[name]} else sw_names s in
      MkSweep (foldl unlink names ((id +:+ anchor_suffix) :: temps id)) (sw_removed s) (if mine then sw_pruned s + 1 else sw_pruned s)
  end.

(** [remove]: the children first.  The ids not yet taken up bound the depth. *)
Fixpoint remove (fuel : nat) (ctl : positive) (id : string) (s : sweep) : option sweep :=
  match fuel with
  | O => None
  | S fuel =>
      if bool_decide (id ∈ sw_removed s) then Some s
      else
        let s := MkSweep (sw_names s) ({[id]} ∪ sw_removed s) (sw_pruned s) in
        remove_files ctl id <$> foldl (fun s c => s ≫= remove fuel ctl c) (Some s) (children id)
  end.

Definition sweep_entry (ctl : positive) (cutoff : Z) (s : option sweep) (entry : string * bool) : option sweep :=
  let '(name, isDir) := entry in
  if bool_decide (name = "control.jsonl") || str_contains name ".torn-" then s
  else if isDir || negb (has_suffix name ".jsonl") then s
  else
    let id := trim_suffix name ".jsonl" in
    if negb (isRoot id) then s
    else match pw_info w name with
         | Some mtime => if mtime <? cutoff then s ≫= remove (S (length ids)) ctl id else s
         | None => s
         end.

(** The proof of a run whose ledger was not listed. *)
Definition sweep_orphan (names : gset string) (entry : string * bool) : gset string :=
  let '(name, isDir) := entry in
  let id := trim_suffix name anchor_suffix in
  if negb (has_suffix name anchor_suffix) || isDir || negb (RunIDRE id) then names
  else if is_Some_b (parents !! id) then names else unlink names (id +:+ anchor_suffix).

Definition prune_listing (ctl : positive) (cutoff : Z) : option (Z * gset string) :=
  s ← foldl (sweep_entry ctl cutoff) (Some (MkSweep (list_to_set (map fst listing)) ∅ 0)) listing;
  Some (sw_pruned s, foldl sweep_orphan (sw_names s) listing).
End prune.

Inductive prune_error : Type := ControlLogStat | LogDirUnreadable | PruneStuck.

(** [pruneRuns]: the ledgers removed and the names left. *)
Definition pruneRuns (w : prune_world) (d : LogDir) (logDir : string) (ids : list string) (now dur : Z) : result prune_error (Z * gset string) :=
  match pw_ctl w with
  | None => Err ControlLogStat
  | Some ctl =>
      if negb (pw_exists w) then Ok (0, ∅)
      else match ld_list d, Parents d logDir with
           | Some listing, Some parents =>
               match prune_listing w parents ids listing ctl (now - dur) with Some r => Ok r | None => Err PruneStuck end
           | _, _ => Err LogDirUnreadable
           end
  end.

(** ** The command *)

(** The artifact directory: none, a fault of its stat, opening or listing, or
    the store. *)
Inductive art_dir : Type := ArtAbsent | ArtFault | ArtStore (env : prune_env) (s : store).

Section command.
  Context `{Ed25519} (active : string) (text : fault -> string) `{GoText, GoURL} `{ConfigYaml}.
  Context (who : runInvoker) (env : control_env) (olderThan : string).

Definition prune_event (outcome : string) (reason : ptr Reason) (detail : string) : CEvent :=
  { zeroCEvent with
    ce_Action := "prune"; ce_Outcome := outcome; ce_Reason := reason; ce_Invoker := ri_inv who; ce_AssertedAs := ri_assertedAs who;
    ce_Witness := ce_witness env; ce_Detail := detail }.
Definition prune_record (r : croot) (outcome : string) (reason : ptr Reason) (detail : string) (code : Z) : Z * croot :=
  match append_event active r env (prune_event outcome reason detail) with
  | (Err _, r) => (1, r)
  | (Ok _, r) => (code, r)
  end.
Definition prune_io (r : croot) (e : fault) (detail : string) : Z * croot := prune_record r "error" (Some (io_reason text e)) detail 1.
Definition summary (runs artifacts : Z) : string := "pruned " +:+ itoa runs +:+ " run(s) and " +:+ itoa artifacts +:+ " artifact(s) older than " +:+ olderThan.

(** The sweeps and their record, once authorized: the exit code, the root, the
    names left in the log directory (as listed when it was not swept), the
    artifacts. *)
Definition prune_sweep (r : croot) (w : prune_world) (d : LogDir) (logDir : string) (ids : list string) (now now' dur : Z) (art : art_dir) : Z * croot * option (gset string) * art_dir :=
  match pruneRuns w d logDir ids now dur with
  | Err e => (prune_io r (FaultIO (match e with ControlLogStat => "control log" | _ => "log directory" end)) "", None, art)
  | Ok (n, rest) =>
      match art with
      | ArtFault => (prune_io r (FaultIO "artifacts") (summary n 0), Some rest, art)
      | ArtAbsent => (prune_record r "success" None (summary n 0) 0, Some rest, art)
      | ArtStore penv s => let '(s', m) := Prune penv s now' dur in (prune_record r "success" None (summary n m) 0, Some rest, ArtStore penv s')
      end
  end.

(** [cmdRunsPrune], [--older-than] read as [dur]. *)
Definition cmdRunsPrune (posture : result integrity_error Integrity.Integrity) (r : croot) (w : prune_world) (d : LogDir) (logDir : string) (ids : list string) (now now' : Z) (dur : option Z)
    (art : art_dir) : Z * croot * option (gset string) * art_dir :=
  let stop (x : Z * croot) := (x, None, art) in
  match dur with
  | None => stop (2, r)
  | Some dur =>
      if dur <=? 0 then stop (2, r)
      else if ri_usageErr who || negb (is_ok posture) then stop (2, r)
      else match open_ledger active r env with
           | (Some _, r) => stop (1, r)
           | (None, r) =>
               if ri_refused who then stop (prune_record r "refused" (Some token_refused) "" 1)
               else match ce_lock env with
                    | Err ErrLockHeld => stop (1, r)
                    | Err e => stop (prune_io r (FaultLock e) "")
                    | Ok _ =>
                        match InstalledRoles (rt_store r) with
                        | Err e => stop (prune_io r (FaultConfig e) "")
                        | Ok None => stop (prune_record r "refused" (Some (MkReason "not_authorized" msgNothingInstalled)) "" 1)
                        | Ok (Some (roles, hash)) =>
                            match vouchInstalled active (ce_read env) (rt_ledger r) hash with
                            | (_, _, Some refusal) =>
                                if Transient refusal || negb (bool_decide (vr_Kind refusal = verifyNotOnRecord)) then stop (1, r)
                                else stop (prune_record r "refused" (Some (vouchRefused text refusal)) "" 1)
                            | (_, _, None) =>
                                if negb (ControlAllows roles (ri_inv who) "prune") then stop (prune_record r "refused" (Some (NotAuthorized "prune")) "" 1)
                                else prune_sweep r w d logDir ids now now' dur art
                            end
                        end
                    end
           end
  end.
End command.

(** ** What a prune removes *)
Section proofs.
  Context (w : prune_world) (parents : gmap string string) (ids : list string) (listing : list (string * bool)) (ctl : positive) (cutoff : Z).
  Context (Hids : forall id, id ∈ ids <-> is_Some (parents !! id)).
  (** No run's ledger is named like the temporary of another's proof. *)
  Context (Htemps : forall x y, x ∈ ids -> y ∈ ids -> has_prefix (x +:+ ".jsonl") (y +:+ anchor_suffix +:+ ".tmp-") = false).

Abbreviation run := (remove w parents ids listing).
Definition child_of (p c : string) : Prop := parents !! c = Some p /\ p <> "" /\ is_Some (parents !! p).
Definition removable (id : string) : Prop := exists i, pw_stat w (id +:+ ".jsonl") = StatFile i /\ i <> ctl /\ pw_remove w (id +:+ ".jsonl") = true.
#[local] Instance removable_dec id : Decision (removable id).
Proof.
  unfold removable. destruct (pw_stat w (id +:+ ".jsonl")) as [i| |]; [|right; by intros (? & ? & _)..].
  destruct (decide (i <> ctl /\ pw_remove w (id +:+ ".jsonl") = true)) as [[H1 H2]|H]; [left; by exists i|right]. intros (j & [= <-] & Hj). by apply H.
Defined.

Lemma is_Some_b_spec {A} (x : option A) : is_Some_b x = true <-> is_Some x.
Proof. destruct x; split; [by eexists|done|done|by intros [? ?]]. Qed.
Lemma children_spec p c : c ∈ children parents ids p <-> child_of p c.
Proof.
  unfold children, child_of. rewrite list_elem_of_In, filter_In, <- list_elem_of_In, Hids. destruct (parents !! c) as [q|]; [|split; [by intros [_ ?]|by intros [? _]]].
  rewrite !andb_true_iff, negb_true_iff, bool_decide_eq_true, bool_decide_eq_false, is_Some_b_spec. split; [intros (_ & [-> ?] & ?); done|]. intros ([= ->] & ? & ?). by split; [eexists|].
Qed.

(** *** Termination *)
Definition todo (s : sweep) : nat := size (list_to_set (C := gset string) ids ∖ sw_removed s).
Lemma remove_files_removed id s : sw_removed (remove_files w listing ctl id s) = sw_removed s.
Proof. unfold remove_files. by destruct (take_ledger _ _ _ _) as [[] []]. Qed.

(** A call takes up its id and, among what it newly takes up, everything below;
    what it takes up is below its id. *)
Definition taken (id : string) (s s' : sweep) : Prop :=
  id ∈ sw_removed s' /\ sw_removed s ⊆ sw_removed s' /\
  (forall x c, x ∈ sw_removed s' -> x ∉ sw_removed s -> child_of x c -> c ∈ sw_removed s') /\
  (forall x, x ∈ sw_removed s' -> x ∉ sw_removed s -> rtc child_of id x).
Lemma remove_taken fuel id s : (todo s < fuel)%nat -> id ∈ ids -> exists s', run fuel ctl id s = Some s' /\ taken id s s'.
Proof.
  revert id s. induction fuel as [|fuel IH]; intros id s Hf Hid; [lia|]. cbn [remove]. case_bool_decide as Hin.
  { exists s. split; [done|]. split_and!; try done. }
  set (s1 := MkSweep (sw_names s) ({[id]} ∪ sw_removed s) (sw_pruned s)).
  assert (Ht : (todo s1 < fuel)%nat).
  { unfold todo in *. enough (size (list_to_set (C := gset string) ids ∖ sw_removed s1) < size (list_to_set (C := gset string) ids ∖ sw_removed s))%nat by lia.
    apply subset_size. cbn. set_solver. }
  assert (Hfold : forall l s0, (todo s0 < fuel)%nat -> (forall c, c ∈ l -> c ∈ ids) ->
    exists s', foldl (fun s c => s ≫= run fuel ctl c) (Some s0) l = Some s' /\ sw_removed s0 ⊆ sw_removed s' /\ (forall c, c ∈ l -> c ∈ sw_removed s') /\
      (forall x c, x ∈ sw_removed s' -> x ∉ sw_removed s0 -> child_of x c -> c ∈ sw_removed s') /\
      (forall x, x ∈ sw_removed s' -> x ∉ sw_removed s0 -> exists c, c ∈ l /\ rtc child_of c x)).
  { induction l as [|c l IHl]; intros s0 H0 Hl; cbn [foldl].
    - exists s0. split_and!; try done. intros c Hc. set_solver.
    - destruct (IH c s0 H0 (Hl c ltac:(left))) as (s2 & E2 & (Hc & Hsub & Hcl & Hd)). cbn [option_bind mbind]. rewrite E2.
      assert (H2 : (todo s2 < fuel)%nat). { unfold todo in *. enough (size (list_to_set (C := gset string) ids ∖ sw_removed s2) <= size (list_to_set (C := gset string) ids ∖ sw_removed s0))%nat by lia. apply subseteq_size. set_solver. }
      destruct (IHl s2 H2 ltac:(intros; apply Hl; by right)) as (s3 & E3 & Hs3 & Hall & Hcl3 & Hd3). exists s3. split; [exact E3|]. split_and!.
      + set_solver.
      + intros x [->|Hx]%elem_of_cons; [set_solver|by apply Hall].
      + intros x y Hx Hn Hxy. destruct (decide (x ∈ sw_removed s2)) as [H2x|H2x]; [|by eapply Hcl3]. apply Hs3. by eapply Hcl.
      + intros x Hx Hn. destruct (decide (x ∈ sw_removed s2)) as [H2x|H2x]; [exists c; split; [left|by apply Hd]|].
        destruct (Hd3 x Hx H2x) as (y & Hy & Hr). exists y. split; [by right|done]. }
  destruct (Hfold (children parents ids id) s1 Ht) as (s2 & E2 & Hsub & Hall & Hcl & Hd).
  { intros c [Hc _]%children_spec. apply Hids. by eexists. }
  exists (remove_files w listing ctl id s2). fold s1. rewrite E2. split; [done|]. unfold taken. rewrite remove_files_removed. cbn in Hsub. split_and!.
  - set_solver.
  - set_solver.
  - intros x c Hx Hn Hxc. destruct (decide (x = id)) as [->|Hne]; [apply Hall, children_spec, Hxc|]. eapply Hcl; [exact Hx| |exact Hxc]. cbn. set_solver.
  - intros x Hx Hn. destruct (decide (x = id)) as [->|Hne]; [done|]. destruct (Hd x Hx) as (c & Hc & Hr); [cbn; set_solver|].
    apply children_spec in Hc. by eapply rtc_l.
Qed.

(** *** Names *)
Definition ledger_name (x : string) : string := x +:+ ".jsonl".
Definition proof_name (x name : string) : Prop := name = x +:+ anchor_suffix \/ has_prefix name (x +:+ anchor_suffix +:+ ".tmp-") = true.

Lemma ledger_name_inj x y : ledger_name x = ledger_name y -> x = y.
Proof. intros E. apply (f_equal (fun s => trim_suffix s ".jsonl")) in E. unfold ledger_name in E. by rewrite !trim_suffix_app in E. Qed.
Lemma ledger_not_proof x y : x ∈ ids -> y ∈ ids -> ~ proof_name y (ledger_name x).
Proof.
  intros Hx Hy [E|E]; [|unfold ledger_name in E; by rewrite Htemps in E]. unfold ledger_name, anchor_suffix in E. apply (f_equal rev_str) in E. rewrite !rev_str_app in E. by cbn in E.
Qed.
Lemma unlinked names l n : n ∈ foldl (unlink w) names l <-> n ∈ names /\ ~ (n ∈ l /\ pw_remove w n = true).
Proof.
  revert names; induction l as [|m l IH]; intros names; cbn [foldl]; [set_solver|]. rewrite IH. unfold unlink. destruct (pw_remove w m) eqn:Em; [set_solver|].
  rewrite elem_of_cons. split; intros [Hn Hno]; (split; [done|]); intros [Hl Hr]; apply Hno; [|by split; [right|]]. destruct Hl as [->|Hl]; [congruence|done].
Qed.
Lemma temps_prefix id n : n ∈ temps listing id -> has_prefix n (id +:+ anchor_suffix +:+ ".tmp-") = true.
Proof.
  unfold temps. rewrite list_elem_of_In, in_map_iff. intros ([m b] & <- & [_ H]%filter_In). by apply andb_true_iff in H as [_ H].
Qed.

(** The ids taken up between two sweeps. *)
Definition fresh_ids (s s' : sweep) : gset string := sw_removed s' ∖ sw_removed s.

(** Between two sweeps: exactly the removable ones of the runs newly taken up
    lose their ledgers, nothing else is lost but their proofs, and the count
    grows by them. *)
Definition removable_in (X : gset string) : gset string := filter removable X.
Record effect (s s' : sweep) : Prop := {
  ef_sub : sw_removed s ⊆ sw_removed s';
  ef_ledgers : forall x, x ∈ ids -> ledger_name x ∈ sw_names s' <-> ledger_name x ∈ sw_names s /\ x ∉ removable_in (fresh_ids s s');
  ef_frame : forall n, n ∈ sw_names s -> n ∉ sw_names s' -> exists x, x ∈ removable_in (fresh_ids s s') /\ (n = ledger_name x \/ proof_name x n);
  ef_count : sw_pruned s' = sw_pruned s + Z.of_nat (size (removable_in (fresh_ids s s')));
}.
(** What is not taken up is there. *)
Definition untouched (s : sweep) : Prop := forall x, x ∈ ids -> x ∉ sw_removed s -> ledger_name x ∈ sw_names s.

Lemma effect_refl s : effect s s.
Proof.
  assert (E : removable_in (fresh_ids s s) = ∅) by (unfold removable_in, fresh_ids; set_solver). split; rewrite ?E; [done|set_solver|done|]. rewrite size_empty. lia.
Qed.
Lemma effect_trans s1 s2 s3 : effect s1 s2 -> effect s2 s3 -> effect s1 s3.
Proof.
  intros [Hs1 Hl1 Hf1 Hc1] [Hs2 Hl2 Hf2 Hc2]. assert (E : removable_in (fresh_ids s1 s3) = removable_in (fresh_ids s1 s2) ∪ removable_in (fresh_ids s2 s3)).
  { apply set_eq. intros x. unfold removable_in, fresh_ids. rewrite elem_of_union, !elem_of_filter, !elem_of_difference. destruct (decide (x ∈ sw_removed s2)); set_solver. }
  split; rewrite ?E.
  - set_solver.
  - intros x Hx. rewrite (Hl2 x Hx), (Hl1 x Hx). set_solver.
  - intros n H1 H3. destruct (decide (n ∈ sw_names s2)) as [H2|H2].
    + destruct (Hf2 n H2 H3) as (x & Hx & Hn). exists x. set_solver.
    + destruct (Hf1 n H1 H2) as (x & Hx & Hn). exists x. set_solver.
  - rewrite Hc2, Hc1, size_union; [lia|]. unfold removable_in, fresh_ids. set_solver.
Qed.
Lemma effect_untouched s s' : untouched s -> effect s s' -> untouched s'.
Proof. intros Hu [Hs Hl _ _] x Hx Hn. apply Hl; [done|]. split; [apply Hu; [done|set_solver]|]. unfold removable_in, fresh_ids. set_solver. Qed.

(** Marking an id and removing its files. *)
Lemma files_effect id s s2 : id ∈ ids -> id ∉ sw_removed s -> ledger_name id ∈ sw_names s ->
  effect (MkSweep (sw_names s) ({[id]} ∪ sw_removed s) (sw_pruned s)) s2 -> effect s (remove_files w listing ctl id s2).
Proof.
  intros Hid Hn Hin Hef. pose proof (proj2 (ef_ledgers _ _ Hef id Hid)) as Hin2. destruct Hef as [Hs Hl Hf Hc]. cbn in Hs, Hc.
  set (s1 := MkSweep (sw_names s) ({[id]} ∪ sw_removed s) (sw_pruned s)) in *.
  assert (H2 : ledger_name id ∈ sw_names s2). { apply Hin2. split; [done|]. intros [_ Hx]%elem_of_filter. unfold fresh_ids in Hx. apply elem_of_difference in Hx as [_ Hx]. apply Hx. cbn. apply elem_of_union. left. by apply elem_of_singleton. }
  assert (Hfr : forall s3, sw_removed s3 = sw_removed s2 -> removable_in (fresh_ids s s3) = removable_in (fresh_ids s1 s2) ∪ removable_in {[id]}).
  { intros s3 E. apply set_eq. intros x. unfold removable_in, fresh_ids. rewrite E. rewrite elem_of_union, !elem_of_filter, !elem_of_difference, elem_of_singleton.
    cbn [s1 sw_removed]. rewrite elem_of_union, elem_of_singleton. pose proof (Hs x) as Hsx. rewrite elem_of_union, elem_of_singleton in Hsx.
    destruct (decide (x = id)) as [->|]; tauto. }
  unfold remove_files, take_ledger. fold (ledger_name id). rewrite bool_decide_true by done. cbn [negb].
  assert (Hno : ~ removable id -> effect s s2).
  { intros Hr. assert (E : removable_in {[id]} = ∅). { apply set_eq. intros x. unfold removable_in. rewrite elem_of_filter, elem_of_singleton. split; [by intros [? ->]|set_solver]. }
    split; rewrite ?(Hfr s2 eq_refl), ?E, ?union_empty_r_L; [by etrans; [apply union_subseteq_r|]|exact Hl|exact Hf|exact Hc]. }
  destruct (pw_stat w (ledger_name id)) as [i| |] eqn:Es; try (apply Hno; intros (j & Hj & _); unfold ledger_name in Es; congruence).
  case_bool_decide as Hi; [apply Hno; intros (j & Hj & Hne & _); unfold ledger_name in Es; congruence|].
  destruct (pw_remove w (ledger_name id)) eqn:Er; [|apply Hno; intros (j & _ & _ & Hj); unfold ledger_name in Er; congruence].
  assert (Hr : removable id) by (by exists i). assert (E : removable_in {[id]} = {[id]}) by (apply set_eq; intros x; unfold removable_in; rewrite elem_of_filter, !elem_of_singleton; split; [by intros [_ ?]|by intros ->]).
  assert (Hnew : id ∉ removable_in (fresh_ids s1 s2)) by (intros [_ Hx]%elem_of_filter; unfold fresh_ids in Hx; apply elem_of_difference in Hx as [_ Hx]; apply Hx; cbn; apply elem_of_union; left; by apply elem_of_singleton).
  assert (Hlist : forall n, n ∈ (id +:+ anchor_suffix) :: temps listing id -> proof_name id n). { intros n [->|Hp]%elem_of_cons; [by left|right; by apply temps_prefix]. }
  split; rewrite ?(Hfr (MkSweep _ (sw_removed s2) _) eq_refl), ?E; cbn [sw_names sw_removed sw_pruned].
  - by etrans; [apply union_subseteq_r|].
  - intros x Hx. rewrite unlinked, elem_of_difference, elem_of_singleton, (Hl x Hx), elem_of_union, elem_of_singleton. split.
    + intros [[[Hxs Hxr] Hne] _]. split; [done|]. intros [?| ->]; done.
    + intros [Hxs Hxr]. split; [split; [tauto|]|].
      * intros ->%ledger_name_inj. tauto.
      * intros [Hp _]. by eapply (ledger_not_proof x id), Hlist.
  - intros n Hns Hn3. destruct (decide (n ∈ sw_names s2)) as [Hn2|Hn2].
    + exists id. split; [apply elem_of_union; right; by apply elem_of_singleton|]. destruct (decide (n = ledger_name id)); [by left|]. right. apply Hlist.
      destruct (decide (n ∈ (id +:+ anchor_suffix) :: temps listing id)) as [|Hno']; [done|]. exfalso. apply Hn3, unlinked. split; [by apply elem_of_difference; split; [|rewrite elem_of_singleton]|tauto].
    + destruct (Hf n Hns Hn2) as (x & Hx & Hp). exists x. split; [apply elem_of_union; by left|done].
  - rewrite Hc, size_union by (apply disjoint_singleton_r; exact Hnew). rewrite size_singleton. lia.
Qed.

Lemma remove_effect fuel id s s' : untouched s -> id ∈ ids -> run fuel ctl id s = Some s' -> effect s s'.
Proof.
  revert id s s'. induction fuel as [|fuel IH]; intros id s s' Hu Hid; [done|]. cbn [remove]. case_bool_decide as Hin; [intros [= <-]; apply effect_refl|].
  assert (Hfold : forall l s0 s1, untouched s0 -> (forall c, c ∈ l -> c ∈ ids) -> foldl (fun s c => s ≫= run fuel ctl c) (Some s0) l = Some s1 -> effect s0 s1).
  { induction l as [|c l IHl]; intros s0 s1 H0 Hl; cbn [foldl]; [intros [= <-]; apply effect_refl|]. cbn [option_bind mbind]. destruct (run fuel ctl c s0) as [s2|] eqn:E2.
    - intros E. pose proof (IH c s0 s2 H0 (Hl c ltac:(left)) E2) as He. eapply effect_trans; [exact He|]. eapply IHl; [by eapply effect_untouched|intros; apply Hl; by right|exact E].
    - intros E. exfalso. clear -E. induction l; [done|]. by apply IHl. }
  destruct (foldl _ _ _) as [s2|] eqn:Ef; [|done]. intros [= <-]. apply files_effect; [done|done|by apply Hu|]. eapply Hfold; [|..|exact Ef].
  - intros x Hx Hn. cbn in *. apply Hu; set_solver.
  - intros c [Hc _]%children_spec. apply Hids. by eexists.
Qed.

(** *** The sweep *)
Context (Hnd : NoDup ids).
Context (Hlisted : forall x, x ∈ ids <-> (ledger_name x, false) ∈ listing /\ skipped (ledger_name x) false = false).

(** A run with no parent here, past the cutoff, and what was delegated from it. *)
Definition old_root (id : string) : Prop := id ∈ ids /\ isRoot parents id = true /\ exists m, pw_info w (ledger_name id) = Some m /\ m < cutoff.
Definition doomed (id : string) : Prop := exists r, old_root r /\ rtc child_of r id.

Lemma root_no_parent id p : isRoot parents id = true -> ~ child_of p id.
Proof.
  unfold isRoot, child_of. intros Hr (Hp & Hne & [q Hq]). rewrite Hp in Hr. cbn in Hr. rewrite bool_decide_false in Hr by done. by rewrite Hq in Hr.
Qed.
Lemma child_in x c : child_of x c -> c ∈ ids.
Proof. intros [Hc _]. apply Hids. by eexists. Qed.
Lemma doomed_in x : doomed x -> x ∈ ids.
Proof. intros (r & [Hr _] & Hx). induction Hx as [|a b c Hab _ IH]; [done|]. by eapply IH, child_in. Qed.

Record swept (s : sweep) : Prop := {
  sp_untouched : untouched s;
  sp_closed : forall x c, x ∈ sw_removed s -> child_of x c -> c ∈ sw_removed s;
  sp_doomed : forall x, x ∈ sw_removed s -> doomed x;
}.
Lemma todo_bound s : (todo s < S (length ids))%nat.
Proof. unfold todo. pose proof (subseteq_size (list_to_set (C := gset string) ids ∖ sw_removed s) (list_to_set ids) ltac:(set_solver)). rewrite size_list_to_set in H by done. lia. Qed.

Lemma entry_swept s e : swept s -> e ∈ listing -> exists s', sweep_entry w parents ids listing ctl cutoff (Some s) e = Some s' /\ swept s' /\ effect s s' /\
  forall r, e = (ledger_name r, false) -> old_root r -> r ∈ sw_removed s'.
Proof.
  intros Hs He. destruct e as [name isDir]. cbn [sweep_entry].
  assert (Hskip : (forall r, (name, isDir) = (ledger_name r, false) -> ~ old_root r) -> exists s', Some s = Some s' /\ swept s' /\ effect s s' /\
    forall r, (name, isDir) = (ledger_name r, false) -> old_root r -> r ∈ sw_removed s').
  { intros Hno. exists s. split_and!; [done|done|apply effect_refl|]. intros r Hr Ho. by destruct (Hno r Hr). }
  destruct (bool_decide (name = "control.jsonl") || str_contains name ".torn-") eqn:Ec.
  { apply Hskip. intros r [= -> ->] [Hr _]. apply Hlisted in Hr as [_ Hr]. unfold skipped in Hr. apply orb_false_iff in Hr as [Hr Ht]. apply orb_false_iff in Hr as [_ Hc].
    by rewrite Hc, Ht in Ec. }
  destruct (isDir || negb (has_suffix name ".jsonl")) eqn:Ed.
  { apply Hskip. intros r [= -> ->] _. unfold ledger_name in Ed. by rewrite rev_str_app_has in Ed. }
  apply orb_false_iff in Ed as [-> Ed]. apply negb_false_iff, has_suffix_spec in Ed as [id ->]. rewrite trim_suffix_app. fold (ledger_name id) in *.
  assert (Hid : id ∈ ids). { apply Hlisted. split; [done|]. unfold skipped, ledger_name in *. rewrite rev_str_app_has. cbn [orb negb]. by rewrite Ec. }
  destruct (isRoot parents id) eqn:Eroot; cbn [negb]; [|apply Hskip; intros r [= ->%ledger_name_inj] (_ & Hr & _); congruence].
  destruct (pw_info w (ledger_name id)) as [m|] eqn:Em; [|apply Hskip; intros r [= <-%ledger_name_inj] (_ & _ & m & Hm & _); congruence].
  destruct (Z.ltb_spec m cutoff) as [Hm|Hm]; [|apply Hskip; intros r [= <-%ledger_name_inj] (_ & _ & m' & Hm' & ?); rewrite Em in Hm'; injection Hm' as <-; lia].
  assert (Hold : old_root id) by (split; [done|]; split; [done|]; by exists m).
  destruct (remove_taken (S (length ids)) id s (todo_bound s) Hid) as (s' & E & (Hin & Hsub & Hcl & Hd)). cbn [option_bind mbind]. exists s'. split; [exact E|].
  pose proof (remove_effect _ _ _ _ (sp_untouched _ Hs) Hid E) as Hef. split; [split|split; [exact Hef|]].
  - by eapply effect_untouched, Hef; apply Hs.
  - intros x c Hx Hxc. destruct (decide (x ∈ sw_removed s)) as [Hxs|Hxs]; [apply Hsub; by eapply (sp_closed _ Hs)|by eapply Hcl].
  - intros x Hx. destruct (decide (x ∈ sw_removed s)) as [Hxs|Hxs]; [by apply (sp_doomed _ Hs)|]. exists id. split; [done|by apply Hd].
  - intros r [= <-%ledger_name_inj] _. exact Hin.
Qed.

Lemma sweep_all l s : swept s -> (forall e, e ∈ l -> e ∈ listing) -> exists s', foldl (sweep_entry w parents ids listing ctl cutoff) (Some s) l = Some s' /\ swept s' /\ effect s s' /\
  forall r, (ledger_name r, false) ∈ l -> old_root r -> r ∈ sw_removed s'.
Proof.
  revert s. induction l as [|e l IH]; intros s Hs Hl; cbn [foldl]; [exists s; split_and!; [done|done|apply effect_refl|]; intros r Hr; by apply not_elem_of_nil in Hr|].
  destruct (entry_swept s e Hs (Hl e ltac:(left))) as (s1 & -> & Hs1 & He1 & Hr1). destruct (IH s1 Hs1 ltac:(intros; apply Hl; by right)) as (s2 & -> & Hs2 & He2 & Hr2).
  exists s2. split_and!; [done|done|by eapply effect_trans|]. intros r [Er|Er]%elem_of_cons Ho; [|by apply Hr2]. apply (ef_sub _ _ He2). by apply Hr1.
Qed.

(** The whole sweep of a listing. *)
Lemma listing_pruned : exists s, foldl (sweep_entry w parents ids listing ctl cutoff) (Some (MkSweep (list_to_set (map fst listing)) ∅ 0)) listing = Some s /\
  effect (MkSweep (list_to_set (map fst listing)) ∅ 0) s /\ forall x, x ∈ sw_removed s <-> doomed x.
Proof.
  set (s0 := MkSweep (list_to_set (map fst listing)) ∅ 0). assert (H0 : swept s0).
  { split; cbn.
    - intros x Hx _. cbn. apply elem_of_list_to_set, list_elem_of_fmap. exists (ledger_name x, false). split; [done|]. by apply Hlisted.
    - intros x c Hx. by apply not_elem_of_empty in Hx.
    - intros x Hx. by apply not_elem_of_empty in Hx. }
  destruct (sweep_all listing s0 H0 ltac:(done)) as (s & E & Hs & He & Hr). exists s. split_and!; [done|done|]. intros x. split; [apply (sp_doomed _ Hs)|].
  intros (r & Ho & Hx). assert (Hin : r ∈ sw_removed s). { apply Hr; [|done]. destruct Ho as [Hid _]. by apply Hlisted in Hid as [? _]. }
  clear Ho. induction Hx as [|a b c Hab _ IH]; [done|]. apply IH. by eapply (sp_closed _ Hs).
Qed.

(** A run is removed with the run it was delegated from. *)
Lemma doomed_parent p c : child_of p c -> doomed c -> doomed p.
Proof.
  intros Hpc (r & Ho & Hx). exists r. split; [done|]. apply rtc_inv_r in Hx as [->|(q & Hq & Hqc)].
  - destruct Ho as (_ & Hr & _). by destruct (root_no_parent _ _ Hr Hpc).
  - destruct Hpc as [Hp _], Hqc as [Hq' _]. by assert (p = q) as -> by congruence.
Qed.
End proofs.

Lemma orphans_left w parents names l n : n ∈ foldl (sweep_orphan w parents) names l -> n ∈ names.
Proof.
  revert names; induction l as [|[name isDir] l IH]; intros names; cbn [foldl]; [done|]. intros Hn. apply IH in Hn.
  cbn [sweep_orphan] in Hn. repeat case_match; try done. unfold unlink in Hn. case_match; set_solver.
Qed.
Lemma orphans_gone (w : prune_world) (parents : gmap string string) names l n : n ∈ names -> n ∉ foldl (sweep_orphan w parents) names l -> exists id, RunIDRE id = true /\ parents !! id = None /\ n = id +:+ anchor_suffix.
Proof.
  revert names; induction l as [|[name isDir] l IH]; intros names Hn; cbn [foldl]; [done|]. destruct (decide (n ∈ sweep_orphan w parents names (name, isDir))) as [Hs|Hs]; [by apply IH|].
  intros _. cbn [sweep_orphan] in Hs. destruct (_ || _) eqn:Eo; [done|]. destruct (parents !! trim_suffix name anchor_suffix) eqn:Ep; [done|]. cbn [is_Some_b] in Hs.
  exists (trim_suffix name anchor_suffix). apply orb_false_iff in Eo as [_ Er]. apply negb_false_iff in Er. split_and!; [done|done|]. unfold unlink in Hs.
  destruct (pw_remove w _); [|done]. destruct (decide (n = trim_suffix name anchor_suffix +:+ anchor_suffix)) as [|Hne]; [done|]. exfalso. apply Hs, elem_of_difference.
  split; [done|by rewrite elem_of_singleton].
Qed.

Lemma parents_spec (d : LogDir) (logDir : string) (listing : list (string * bool)) (parents : gmap string string) :
  ld_list d = Some listing -> Parents d logDir = Some parents ->
  forall x, is_Some (parents !! x) <-> (ledger_name x, false) ∈ listing /\ skipped (ledger_name x) false = false.
Proof.
  unfold Parents. intros -> [= <-].
  assert (Hf : forall l m x, is_Some (foldl (add_parent d logDir) m l !! x) <-> is_Some (m !! x) \/ (ledger_name x, false) ∈ l /\ skipped (ledger_name x) false = false).
  { induction l as [|[name isDir] l IH]; intros m x; cbn [foldl]; [split; [auto|]; intros [?|[H _]]; [done|by apply not_elem_of_nil in H]|]. rewrite IH. unfold add_parent at 1.
    rewrite elem_of_cons. destruct (skipped name isDir) eqn:Es.
    - split; [intros [?|[? ?]]; auto|]. intros [?|[[[= <- <-]|?] ?]]; [auto|congruence|auto].
    - unfold skipped in Es. destruct isDir; [done|]. cbn [orb] in Es. destruct (has_suffix name ".jsonl") eqn:Eh; [|done]. apply has_suffix_spec in Eh as [id ->].
      rewrite trim_suffix_app. destruct (decide (id = x)) as [->|Hne].
      + rewrite lookup_insert_eq. split; [|intros _; left; by eexists]. intros _. right. split; [by left|]. unfold skipped, ledger_name. by rewrite rev_str_app_has.
      + rewrite lookup_insert_ne by done. split; [intros [?|[? ?]]; auto|]. intros [?|[[E|?] ?]]; [auto| |auto]. injection E as E. by apply ledger_name_inj in E as ->. }
  intros x. rewrite Hf, lookup_empty. split; [intros [[? ?]|?]; done|auto].
Qed.

(** C29: a prune takes whole delegation trees and only old ones.  Given the
    ledger's own file can be told and no run's ledger is named like the
    temporary of another's proof, a prune of a readable directory ends; the
    runs that lose their ledgers are exactly those delegated, at any depth,
    from a run without a parent here whose ledger is past the cutoff, and whose
    file is not the control ledger's and could be removed, and they are what is
    counted; anything else that goes is an anchor proof, or the temporary of
    one, of such a run or of a run with no ledger; and a run that goes takes
    the run it was delegated from with it, if that one can be removed. *)
Theorem prune_takes_whole_trees (w : prune_world) (d : LogDir) (logDir : string) (ids : list string) (now dur : Z)
  (listing : list (string * bool)) (parents : gmap string string) (ctl : positive)
  (Hw : pw_ctl w = Some ctl /\ pw_exists w = true) (Hd : ld_list d = Some listing /\ Parents d logDir = Some parents)
  (Hids : NoDup ids /\ forall id, id ∈ ids <-> is_Some (parents !! id))
  (Htemps : forall x y, x ∈ ids -> y ∈ ids -> has_prefix (x +:+ ".jsonl") (y +:+ anchor_suffix +:+ ".tmp-") = false) :
  exists n left, pruneRuns w d logDir ids now dur = Ok (n, left) /\
    (forall x, x ∈ ids -> ledger_name x ∉ left <-> doomed w parents ids (now - dur) x /\ removable w ctl x) /\
    n = Z.of_nat (length (List.filter (fun x => negb (bool_decide (ledger_name x ∈ left))) ids)) /\
    (forall name isDir, (name, isDir) ∈ listing -> name ∉ left ->
      (exists x, doomed w parents ids (now - dur) x /\ removable w ctl x /\ (name = ledger_name x \/ proof_name x name)) \/
      exists x, RunIDRE x = true /\ parents !! x = None /\ name = x +:+ anchor_suffix) /\
    (forall p c, child_of parents p c -> ledger_name c ∉ left -> removable w ctl p -> ledger_name p ∉ left).
Proof.
  destruct Hw as [Hctl Hex], Hd as [Hls Hps], Hids as [Hnd Hids].
  assert (Hlisted : forall x, x ∈ ids <-> (ledger_name x, false) ∈ listing /\ skipped (ledger_name x) false = false). { intros x. rewrite Hids. by eapply parents_spec. }
  destruct (listing_pruned w parents ids listing ctl (now - dur) Hids Htemps Hnd Hlisted) as (s & E & He & Hr).
  set (s0 := MkSweep (list_to_set (map fst listing)) ∅ 0) in *. exists (sw_pruned s), (foldl (sweep_orphan w parents) (sw_names s) listing).
  assert (Hrem : forall x, x ∈ removable_in w ctl (fresh_ids s0 s) <-> doomed w parents ids (now - dur) x /\ removable w ctl x).
  { intros x. unfold removable_in, fresh_ids. rewrite elem_of_filter, elem_of_difference, Hr. cbn. set_solver. }
  assert (Hled : forall x, x ∈ ids -> ledger_name x ∉ foldl (sweep_orphan w parents) (sw_names s) listing <-> doomed w parents ids (now - dur) x /\ removable w ctl x).
  { intros x Hx. rewrite <- Hrem. assert (Hin : ledger_name x ∈ sw_names s0). { cbn. apply elem_of_list_to_set, list_elem_of_fmap. exists (ledger_name x, false). split; [done|]. by apply Hlisted. }
    pose proof (ef_ledgers _ _ _ _ _ He x Hx) as Hl. split.
    - intros Hn. destruct (decide (x ∈ removable_in w ctl (fresh_ids s0 s))) as [|Hno]; [done|]. assert (Hs : ledger_name x ∈ sw_names s) by (by apply Hl).
      destruct (orphans_gone w parents _ listing _ Hs Hn) as (id & _ & _ & Eq). exfalso. unfold ledger_name, anchor_suffix in Eq. apply (f_equal rev_str) in Eq. rewrite !rev_str_app in Eq. by cbn in Eq.
    - intros Hx' Hn. apply orphans_left in Hn. by apply Hl in Hn as [_ ?]. }
  split_and!.
  - unfold pruneRuns, prune_listing. rewrite Hctl, Hex, Hls, Hps. cbn [negb]. fold s0. by rewrite E.
  - exact Hled.
  - rewrite (ef_count _ _ _ _ _ He). cbn [s0 sw_pruned]. rewrite Z.add_0_l. f_equal. rewrite <- (size_list_to_set (C := gset string) (List.filter _ ids)).
    + f_equal. apply set_eq. intros x. rewrite elem_of_list_to_set, list_elem_of_In, filter_In, <- list_elem_of_In, negb_true_iff, bool_decide_eq_false, Hrem. split.
      * intros Hx. assert (x ∈ ids) by (by eapply (doomed_in w parents ids); [|apply Hx]). split; [done|by apply Hled].
      * intros [Hx Hn]. by apply Hled.
    + apply NoDup_ListNoDup, List.NoDup_filter, NoDup_ListNoDup, Hnd.
  - intros name isDir Hin Hn. assert (H0 : name ∈ sw_names s0). { cbn. apply elem_of_list_to_set, list_elem_of_fmap. by exists (name, isDir). }
    destruct (decide (name ∈ sw_names s)) as [Hs|Hs]; [right; by eapply orphans_gone|left].
    destruct (ef_frame _ _ _ _ _ He name H0 Hs) as (x & [Hx Hr']%Hrem & Hname). by exists x.
  - intros p c Hpc Hc Hrp. assert (Hci : c ∈ ids) by (apply Hids; destruct Hpc as [Hc' _]; by eexists). assert (Hpi : p ∈ ids) by (apply Hids; by destruct Hpc as (_ & _ & ?)).
    apply Hled; [done|]. apply Hled in Hc as [Hc _]; [|done]. split; [|done]. by eapply doomed_parent.
Qed.

(** ** The command *)
Section guarded.
  Context `{Ed25519} (active : string) (text : fault -> string) `{GoText, GoURL} `{ConfigYaml}.
  Context (who : runInvoker) (env : control_env) (olderThan : string).

Lemma prune_recorded r outcome reason detail code c r' : prune_record active who env r outcome reason detail code = (c, r') ->
  rt_store r' = rt_store r /\ (c = 0 -> code = 0 /\ exists head, append_event active r env (prune_event who env outcome reason detail) = (Ok head, r')).
Proof.
  unfold prune_record. destruct (append_event active r env _) as [[head|e] r1] eqn:E; pose proof (append_event_store _ _ _ _ _ _ E) as [Hs _]; intros [= <- <-]; (split; [done|]); [|done].
  intros ->. split; [done|]. by exists head.
Qed.

(** The artifacts left and how many went. *)
Definition art_swept (art : art_dir) (now dur : Z) : art_dir * Z :=
  match art with ArtStore penv s => (ArtStore penv (Prune penv s now dur).1, (Prune penv s now dur).2) | _ => (art, 0) end.

(** What authorizes a prune. *)
Definition may_prune (r : croot) : Prop :=
  exists roles hash records last, InstalledRoles (rt_store r) = Ok (Some (roles, hash)) /\ HashDir (is_dirs (rt_store r) !! SnapshotDir hash) = Ok hash /\
    on_record active (ce_read env) (rt_ledger (open_ledger active r env).2) hash records last /\ ControlAllows roles (ri_inv who) "prune" = true /\ ri_refused who = false.

(** A prune deletes only for an invoker the vouched configuration permits.
    It leaves the installed configuration alone; unless the snapshot hashes to
    the pointer, is the ledger's last install and grants the invoker prune, no
    run and no artifact is touched; and exit 0 means the ledger now records who
    pruned and a line that says how many runs and bodies were removed. *)
Theorem prune_is_guarded (posture : result integrity_error Integrity.Integrity) (r r' : croot) (w : prune_world) (d : LogDir) (logDir : string) (ids : list string)
  (now now' : Z) (dur : option Z) (art art' : art_dir) (code : Z) (rest : option (gset string))
  (Hp : cmdRunsPrune active text who env olderThan posture r w d logDir ids now now' dur art = (code, r', rest, art')) :
  rt_store r' = rt_store r /\
  (rest = None /\ art' = art /\ code <> 0 \/
   may_prune r /\ exists n left dur', dur = Some dur' /\ 0 < dur' /\ pruneRuns w d logDir ids now dur' = Ok (n, left) /\ rest = Some left /\ art' = (art_swept art now' dur').1 /\
   (code = 0 -> exists head,
     append_event active (open_ledger active r env).2 env (prune_event who env "success" None (summary olderThan n (art_swept art now' dur').2)) = (Ok head, r'))).
Proof.
  assert (Hstop : forall r0 x, rt_store r0 = rt_store r -> (forall c r1, x = (c, r1) -> rt_store r1 = rt_store r0 /\ c <> 0) -> (x, @None (gset string), art) = (code, r', rest, art') ->
    rt_store r' = rt_store r /\ rest = None /\ art' = art /\ code <> 0).
  { intros r0 [c r1] Hst Hx [= -> -> <- <-]. destruct (Hx _ _ eq_refl) as [-> ?]. done. }
  assert (Hrec : forall r0 outcome reason detail c r1, prune_record active who env r0 outcome reason detail 1 = (c, r1) -> rt_store r1 = rt_store r0 /\ c <> 0).
  { intros r0 outcome reason detail c r1 E. apply prune_recorded in E as [Hs Hc]. split; [done|]. intros ->. by destruct (Hc eq_refl). }
  unfold cmdRunsPrune in Hp. destruct dur as [dur|]; [|apply (Hstop r) in Hp as [? ?]; [by split; [|left]|done|by intros ? ? [= <- <-]]].
  destruct (dur <=? 0) eqn:Edur; [apply (Hstop r) in Hp as [? ?]; [by split; [|left]|done|by intros ? ? [= <- <-]]|].
  destruct (_ || _); [apply (Hstop r) in Hp as [? ?]; [by split; [|left]|done|by intros ? ? [= <- <-]]|].
  unfold may_prune. destruct (open_ledger active r env) as [[e|] r1] eqn:Eo; pose proof (open_ledger_store _ _ _ _ _ Eo) as Hr1; assert (Hs1 : rt_store r1 = rt_store r) by (by rewrite Hr1); cbn [snd].
  { apply (Hstop r1) in Hp as [? ?]; [by split; [|left]|done|by intros ? ? [= <- <-]]. }
  destruct (ri_refused who) eqn:Eref; [apply (Hstop r1) in Hp as [? ?]; [by split; [|left]|done|apply Hrec]|].
  destruct (ce_lock env) as [[]|le]; [|destruct le; (apply (Hstop r1) in Hp as [? ?]; [by split; [|left]|done|first [apply Hrec|by intros ? ? [= <- <-]]])].
  destruct (InstalledRoles (rt_store r1)) as [[[roles hash]|]|e] eqn:Ei; [|apply (Hstop r1) in Hp as [? ?]; [by split; [|left]|done|apply Hrec]..].
  destruct (vouchInstalled _ _ _ _) as [[rs l] [refusal|]] eqn:Ev.
  { destruct (_ || _); (apply (Hstop r1) in Hp as [? ?]; [by split; [|left]|done|first [apply Hrec|by intros ? ? [= <- <-]]]). }
  destruct (ControlAllows roles (ri_inv who) "prune") eqn:Ea; cbn [negb] in Hp; [|apply (Hstop r1) in Hp as [? ?]; [by split; [|left]|done|apply Hrec]].
  unfold prune_sweep in Hp. destruct (pruneRuns w d logDir ids now dur) as [[n left0]|e] eqn:Epr; [|apply (Hstop r1) in Hp as [? ?]; [by split; [|left]|done|apply Hrec]].
  apply vouch_passes in Ev as (records & last & _ & Hon). rewrite Hs1 in Ei.
  assert (Hmay : exists roles hash records last, InstalledRoles (rt_store r) = Ok (Some (roles, hash)) /\ HashDir (is_dirs (rt_store r) !! SnapshotDir hash) = Ok hash /\
    on_record active (ce_read env) (rt_ledger r1) hash records last /\ ControlAllows roles (ri_inv who) "prune" = true /\ false = false).
  { exists roles, hash, records, last. split_and!; try done. by apply roles_verified in Ei as [? _]. }
  apply Z.leb_gt in Edur. destruct art as [| |penv s].
  - destruct (prune_record _ _ _ _ _ _ _ _) as [c r2] eqn:E. injection Hp as <- <- <- <-. apply prune_recorded in E as [Hs2 Hc]. split; [congruence|]. right. split; [done|].
    exists n, left0, dur. split_and!; try done. intros Hz. destruct (Hc Hz) as (_ & head & Happ). by exists head.
  - destruct (prune_io _ _ _ _ _ _ _) as [c r2] eqn:E. injection Hp as <- <- <- <-. apply Hrec in E as [Hs2 Hc]. split; [congruence|]. right. split; [done|].
    exists n, left0, dur. split_and!; try done.
  - cbn [art_swept fst snd]. destruct (Prune penv s now' dur) as [s' m] eqn:Epa. destruct (prune_record _ _ _ _ _ _ _ _) as [c r2] eqn:E. injection Hp as <- <- <- <-.
    apply prune_recorded in E as [Hs2 Hc]. split; [congruence|]. right. split; [done|]. exists n, left0, dur. cbn [art_swept fst snd]. rewrite Epa. split_and!; try done.
    intros Hz. destruct (Hc Hz) as (_ & head & Happ). by exists head.
Qed.
End guarded.

(** ** Witnesses *)
Definition px_world : prune_world := MkPruneWorld (Some 1%positive) true (fun _ => StatFile 2%positive) (fun _ => Some 5) (fun _ => true).
Definition px_dir : LogDir := MkLogDir (Some [("control.jsonl", false); ("r-0.jsonl", false)]) ∅.

Lemma prune_takes_whole_trees_witness :
  exists n left, pruneRuns px_world px_dir "runs" ["r-0"] 100 10 = Ok (n, left) /\
    (ledger_name "r-0" ∉ left <-> doomed px_world {["r-0" := ""]} ["r-0"] 90 "r-0" /\ removable px_world 1%positive "r-0").
Proof.
  destruct (prune_takes_whole_trees px_world px_dir "runs" ["r-0"] 100 10 [("control.jsonl", false); ("r-0.jsonl", false)] {["r-0" := ""]} 1%positive) as (n & left & E & Hx & _).
  - done.
  - split; [done|]. vm_compute. reflexivity.
  - split; [apply NoDup_singleton|]. intros id. rewrite list_elem_of_singleton. split; [intros ->; by eexists|]. intros [p [? ?]%lookup_singleton_Some]. done.
  - intros x y ->%list_elem_of_singleton ->%list_elem_of_singleton. by vm_compute.
  - exists n, left. split; [exact E|]. apply Hx. by left.
Defined.

(** A delegated run goes before the run it was delegated from, so when that
    one's file cannot be removed it stands without its child. *)
Definition px_stuck : prune_world := MkPruneWorld (Some 1%positive) true (fun _ => StatFile 2%positive) (fun _ => Some 5) (fun name => negb (bool_decide (name = "r-0.jsonl"))).
Lemma child_gone_parent_stands :
  prune_listing px_stuck {["r-0" := ""; "r-1" := "r-0"]} ["r-0"; "r-1"] [("r-0.jsonl", false); ("r-1.jsonl", false)] 1%positive 90 = Some (1, {["r-0.jsonl"]}).
Proof. vm_compute. reflexivity. Qed.

Definition px_yaml : ConfigYaml := {|
  yaml_agent := fun s => Some (ex_agent s []); yaml_workflow := fun _ => None;
  yaml_role := fun s => Some (MkRole s [] ["ops"] (Some ["apply"; "prune"]) "");
  yaml_gateway := fun _ => (c_Gateway zeroConfig, true) |}.
Definition px_pruned : Z * croot * option (gset string) * art_dir :=
  cmdRunsPrune (H0 := toy_text) (H1 := toy_url) (H2 := px_yaml) ex_active ax_text ax_who ax_env "1h" (Ok zeroIntegrity) ax_live px_world px_dir "runs" ["r-0"] 100 100 (Some 10) ArtAbsent.

Lemma quad_eta {A B C D} (p : A * B * C * D) : p = (p.1.1.1, p.1.1.2, p.1.2, p.2).
Proof. by destruct p as [[[]]]. Qed.

Lemma prune_is_guarded_witness :
  px_pruned.1.1.1 = 0 /\ may_prune (H2 := px_yaml) ex_active ax_who ax_env ax_live.
Proof.
  assert (E : px_pruned.1.1.1 = 0) by (by vm_compute). split; [exact E|].
  destruct (prune_is_guarded (H0 := toy_text) (H1 := toy_url) (H2 := px_yaml) ex_active ax_text ax_who ax_env "1h" (Ok zeroIntegrity) ax_live px_pruned.1.1.2 px_world px_dir "runs" ["r-0"]
    100 100 (Some 10) ArtAbsent px_pruned.2 px_pruned.1.1.1 px_pruned.1.2) as [_ [(_ & _ & Hc)|[Hm _]]].
  - exact (quad_eta px_pruned).
  - exact (False_ind _ (Hc E)).
  - exact Hm.
Defined.
