(* ===== verification/Minting.v ===== *)
(** * Minting and exchanging brokers ([internal/broker]: [clientcreds.go],
      [tokenexchange.go], [keypair.go])

    The two brokers that talk to a token endpoint: the request each sends, what
    it makes of the answer, and the cache of tokens with its refresh rule.  The
    environment, the clock and the endpoint's answers are arguments; a time is
    nanoseconds since the zero time. *)
From S2P Require Import Prelude Sha256 GoStr Json Paths Ledger Config Authz Origin Registry Event Engine EngineTrace Completeness RunAudit Attest Grants Credentials Doors ControlRecord Manifest Snapshot SnapshotSound Times Signed Utf8.

Definition second : Z := 1000000000.
Definition refreshMargin : Z := 30 * second.

Record cachedToken : Type := MkCached { ct_token : string; ct_refreshAt : Z }.
Abbreviation token_cache := (gmap string cachedToken).

(** The zero time says that the token has no usable lifetime. *)
Definition cacheRefreshAt (now expiresIn : Z) : Z :=
  if expiresIn <=? 0 then 0
  else
    let lifetime := wrap64 (expiresIn * second) in
    let margin := let m := Z.quot lifetime 10 in if m <? refreshMargin then m else refreshMargin in
    now + (lifetime - margin).

(** ** The token request *)

(** [url.QueryEscape] *)
Definition unreserved (c : ascii) : bool :=
  let n := Z.of_N (N_of_ascii c) in
  is_digit c || ((97 <=? n) && (n <=? 122)) || ((65 <=? n) && (n <=? 90)) || ascii_eqb c "-" || ascii_eqb c "_" || ascii_eqb c "." || ascii_eqb c "~".
Definition upper_hex (n : N) : ascii := if (n <? 10)%N then ascii_of_N (48 + n) else ascii_of_N (55 + n).
Fixpoint QueryEscape (s : string) : string :=
  match s with
  | EmptyString => ""
  | String c r =>
      if ascii_eqb c " " then String "+" (QueryEscape r)
      else if unreserved c then String c (QueryEscape r)
      else let n := N_of_ascii c in String "%" (String (upper_hex (n / 16)) (String (upper_hex (n mod 16)) (QueryEscape r)))
  end.
(** [url.Values.Encode] of single values, in key order. *)
Definition form_Encode (form : gmap string string) : string :=
  join "&" (map (fun k => QueryEscape k +:+ "=" +:+ QueryEscape (default "" (form !! k))) (sort_strings (map fst (map_to_list form)))).

Record token_request : Type := MkTokenRequest { tq_URL : string; tq_Authorization : string; tq_Body : string }.
(** The request could not be built or sent, or was answered: the status and the
    body as it was read. *)
Inductive token_answer : Type := NotBuilt (e : string) | NotSent | Answered (status : Z) (body : string).

Definition basic_auth (clientID clientSecret : string) : string := "Basic " +:+ b64_encode (QueryEscape clientID +:+ ":" +:+ QueryEscape clientSecret).

Record tokenResponse : Type := MkTokenResponse { tr_AccessToken : string; tr_TokenType : string; tr_ExpiresIn : Z }.
Definition dec_token (fs : list (string * json)) (cur : tokenResponse) : option tokenResponse :=
  x1 ← dec_field dec_str (field_values "access_token" fs) (tr_AccessToken cur);
  x2 ← dec_field dec_str (field_values "token_type" fs) (tr_TokenType cur);
  x3 ← dec_field dec_int (field_values "expires_in" fs) (tr_ExpiresIn cur);
  Some (MkTokenResponse x1 x2 x3).
Definition decode_token (body : string) : option tokenResponse := decode_body dec_token (MkTokenResponse "" "" 0) body.

(** [strings.EqualFold] with [bearer], whose letters fold with ASCII only. *)
Definition is_bearer (tokenType : string) : bool := bool_decide (tokenType = "") || bool_decide (lower_str tokenType = "bearer").

Definition dec_oauth_error (fs : list (string * json)) (cur : string) : option string := dec_field dec_str (field_values "error" fs) cur.
Definition oauthErrorCode (body : string) : string :=
  match decode_body dec_oauth_error "" body with
  | Some e => if bool_decide (e = "") then "" else " (error: " +:+ e +:+ ")"
  | None => ""
  end.

(** ** The two grants *)
Section brokers.
  Context `{GoText} (getenv : string -> string).

Definition with_scope (ref : CredentialRef) (form : gmap string string) : gmap string string :=
  if bool_decide (cr_Scope ref = "") then form else <["scope" := cr_Scope ref]> form.

(** The client's own credential, from the environment. *)
Definition client_secret (ref : CredentialRef) : result string (string * string) :=
  let clientID := getenv (cr_ClientIDEnv ref) in
  if bool_decide (clientID = "") then Err ("broker: client id env " +:+ cr_ClientIDEnv ref +:+ " is not set")
  else
    let clientSecret := getenv (cr_ClientSecretEnv ref) in
    if bool_decide (clientSecret = "") then Err ("broker: client secret env " +:+ cr_ClientSecretEnv ref +:+ " is not set") else Ok (clientID, clientSecret).

Definition mint_request (ref : CredentialRef) (client : string * string) : token_request :=
  MkTokenRequest (cr_TokenURL ref) (basic_auth client.1 client.2) (form_Encode (with_scope ref {["grant_type" := "client_credentials"]})).

Definition mint (send : token_request -> token_answer) (ref : CredentialRef) : result string (string * Z) :=
  let! client := client_secret ref in
  let of_resource := " for resource " +:+ quote (cr_ResourceID ref) in
  match send (mint_request ref client) with
  | NotBuilt e => Err ("broker: build token request" +:+ of_resource +:+ ": " +:+ e)
  | NotSent => Err ("broker: token request" +:+ of_resource +:+ " failed")
  | Answered status body =>
      if (status <? 200) || (300 <=? status) then Err ("broker: token endpoint" +:+ of_resource +:+ " returned status " +:+ itoa status +:+ oauthErrorCode body)
      else match decode_token body with
           | None => Err ("broker: token endpoint" +:+ of_resource +:+ " returned an unparseable response")
           | Some tr =>
               if bool_decide (tr_AccessToken tr = "") then Err ("broker: token endpoint" +:+ of_resource +:+ " returned no access_token")
               else if negb (is_bearer (tr_TokenType tr)) then Err ("broker: token endpoint" +:+ of_resource +:+ " returned unsupported token_type " +:+ quote (tr_TokenType tr))
               else Ok (tr_AccessToken tr, tr_ExpiresIn tr)
           end
  end.

Definition grantTokenExchange : string := "urn:ietf:params:oauth:grant-type:token-exchange".
Definition SubjectTokenTypeAccessToken : string := "urn:ietf:params:oauth:token-type:access_token".
(** [NewTokenExchange]'s default. *)
Definition subject_type (t : string) : string := if bool_decide (t = "") then SubjectTokenTypeAccessToken else t.

Definition exchange_request (subjectTokenType : string) (ref : CredentialRef) (client : string * string) : token_request :=
  MkTokenRequest (cr_TokenURL ref) (basic_auth client.1 client.2)
    (form_Encode (with_scope ref
      (<["grant_type" := grantTokenExchange]> (<["subject_token" := cr_SubjectToken ref]> (<["subject_token_type" := subjectTokenType]> {["audience" := cr_Audience ref]}))))).

Definition exchange (subjectTokenType : string) (send : token_request -> token_answer) (ref : CredentialRef) : result string (string * Z) :=
  let! client := client_secret ref in
  let says what := Err ("broker: token exchange for resource " +:+ quote (cr_ResourceID ref) +:+ what) in
  match send (exchange_request subjectTokenType ref client) with
  | NotBuilt _ | NotSent => says " failed"
  | Answered status body =>
      if (400 <=? status) && (status <? 500) then says " was rejected by the authorization server"
      else if (status <? 200) || (300 <=? status) then says " failed at the authorization server"
      else match decode_token body with
           | Some tr =>
               if bool_decide (tr_AccessToken tr = "") || negb (is_bearer (tr_TokenType tr)) then says " returned an unusable response"
               else Ok (tr_AccessToken tr, tr_ExpiresIn tr)
           | None => says " returned an unusable response"
           end
  end.

(** ** The cache *)

(** One call under the lock: what the clock reads before and after, and how a
    token is obtained. *)
Definition cached (key : string) (now now' : Z) (obtain : result string (string * Z)) (cache : token_cache) : result string string * token_cache :=
  let obtained :=
    match obtain with
    | Err e => (Err e, cache)
    | Ok (tok, expiresIn) =>
        let at_ := cacheRefreshAt now' expiresIn in
        (Ok tok, if negb (at_ =? 0) then <[key := MkCached tok at_]> cache else delete key cache)
    end in
  match cache !! key with
  | Some ent => if negb (ct_refreshAt ent =? 0) && (now <? ct_refreshAt ent) then (Ok (ct_token ent), cache) else obtained
  | None => obtained
  end.

Definition nul_sep (a b : string) : string := a +:+ String "000" b.
Definition mint_key (ref : CredentialRef) : string := nul_sep (cr_ResourceID ref) (cr_Issuer ref).
Definition exchange_key (ref : CredentialRef) : string := nul_sep (cr_ResourceID ref) (sha256_hex (cr_SubjectToken ref)).

(** [ClientCredentials.Resolve] *)
Definition MintResolve (send : token_request -> token_answer) (now now' : Z) (ref : CredentialRef) (cache : token_cache) : result string string * token_cache :=
  if negb (bool_decide (cr_Grant ref = "client_credentials")) then (Err ("broker: client_credentials broker got grant " +:+ quote (cr_Grant ref)), cache)
  else if negb (bool_decide (cr_ClientAuth ref = "client_secret_basic"))
  then (Err ("broker: client_auth " +:+ quote (cr_ClientAuth ref) +:+ " is not implemented (only client_secret_basic)"), cache)
  else cached (mint_key ref) now now' (mint send ref) cache.

(** [TokenExchange.Resolve] *)
Definition ExchangeResolve (subjectTokenType : string) (send : token_request -> token_answer) (now now' : Z) (ref : CredentialRef) (cache : token_cache)
  : result string string * token_cache :=
  if negb (bool_decide (cr_Grant ref = "token_exchange")) then (Err ("broker: token_exchange broker got grant " +:+ quote (cr_Grant ref)), cache)
  else if negb (bool_decide (cr_ClientAuth ref = "client_secret_basic"))
  then (Err ("broker: client_auth " +:+ quote (cr_ClientAuth ref) +:+ " is not implemented (only client_secret_basic)"), cache)
  else if bool_decide (cr_SubjectToken ref = "") then (Err ("broker: token exchange for resource " +:+ quote (cr_ResourceID ref) +:+ " has no subject token"), cache)
  else if bool_decide (cr_Audience ref = "") then (Err ("broker: token exchange for resource " +:+ quote (cr_ResourceID ref) +:+ " has no audience"), cache)
  else cached (exchange_key ref) now now' (exchange subjectTokenType send ref) cache.

(** ** Key pairs *)
Record KeyPair : Type := MkKeyPair { kp_ID : string; kp_Secret : string; kp_Session : string }.
Definition requireEnv (name : string) : result string string :=
  let v := getenv name in if bool_decide (v = "") then Err ("broker: environment variable " +:+ name +:+ " is not set") else Ok v.
Definition ResolveKeyPair (ref : CredentialRef) : result string KeyPair :=
  if negb (bool_decide (cr_ClientAuth ref = "sigv4")) then Err ("broker: static_env key pair handles client_auth sigv4 only, not " +:+ quote (cr_ClientAuth ref))
  else if negb (bool_decide (cr_Source ref = "")) && negb (bool_decide (cr_Source ref = "static_env")) then Err ("broker: unsupported credential source " +:+ quote (cr_Source ref))
  else if negb (bool_decide (cr_Grant ref = "")) then Err ("broker: a sigv4 key pair is used directly; grant " +:+ quote (cr_Grant ref) +:+ " is not supported")
  else if bool_decide (cr_ClientIDEnv ref = "") || bool_decide (cr_ClientSecretEnv ref = "") then Err "broker: sigv4 key pair needs client_id_env and client_secret_env"
  else
    let! id := requireEnv (cr_ClientIDEnv ref) in
    let! secret := requireEnv (cr_ClientSecretEnv ref) in
    if bool_decide (cr_TokenEnv ref = "") then Ok (MkKeyPair id secret "")
    else let! session := requireEnv (cr_TokenEnv ref) in Ok (MkKeyPair id secret session).
End brokers.

(** ** What a cache serves *)
Lemma refresh_before_expiry now expiresIn : 0 < expiresIn -> cacheRefreshAt now expiresIn <= now + expiresIn * second.
Proof.
  intros He. unfold cacheRefreshAt. rewrite (proj2 (Z.leb_gt _ _)) by done.
  assert (Hw : wrap64 (expiresIn * second) <= expiresIn * second).
  { unfold wrap64, second, two64. pose proof (Z.div_pos (expiresIn * 1000000000 + 2 ^ 63) (2 ^ 64) ltac:(lia) ltac:(lia)).
    pose proof (Z.div_mod (expiresIn * 1000000000 + 2 ^ 63) (2 ^ 64) ltac:(lia)). lia. }
  pose proof (Z.quot_rem' (wrap64 (expiresIn * second)) 10). pose proof (Z.rem_bound_abs (wrap64 (expiresIn * second)) 10 ltac:(lia)) as Hb.
  pose proof (Z.rem_sign_mul (wrap64 (expiresIn * second)) 10 ltac:(lia)). destruct (Z.ltb_spec (Z.quot (wrap64 (expiresIn * second)) 10) refreshMargin); unfold refreshMargin, second in *; lia.
Qed.

(** One call of a broker: what the endpoint would answer, the clock before and
    after, the reference. *)
Record call : Type := MkCall { c_send : token_request -> token_answer; c_now : Z; c_now' : Z; c_ref : CredentialRef }.

Section served.
  Context (resolve : call -> token_cache -> result string string * token_cache) (key : call -> string) (obtain : call -> result string (string * Z)).
  (** Calls that get past the checks share one cache. *)
  Context (Hresolve : forall c cache, (exists e, resolve c cache = (Err e, cache)) \/ resolve c cache = cached (key c) (c_now c) (c_now' c) (obtain c) cache).

(** The calls in turn, each with its answer. *)
Fixpoint serve (calls : list call) (cache : token_cache) : list (call * result string string) :=
  match calls with
  | [] => []
  | c :: rest => let '(res, cache) := resolve c cache in (c, res) :: serve rest cache
  end.

(** Every cached token was obtained by an earlier call for its key. *)
Definition kept (past : list call) (cache : token_cache) : Prop :=
  forall k ent, cache !! k = Some ent -> exists c0 expiresIn, c0 ∈ past /\ key c0 = k /\ obtain c0 = Ok (ct_token ent, expiresIn) /\ 0 < expiresIn /\ ct_refreshAt ent = cacheRefreshAt (c_now' c0) expiresIn.

(** The token was obtained now, or by an earlier call for the key and has not
    reached its stated expiry. *)
Definition fresh_token (past : list call) (c : call) (tok : string) : Prop :=
  exists c0 expiresIn, key c0 = key c /\ obtain c0 = Ok (tok, expiresIn) /\ (c0 = c \/ c0 ∈ past /\ c_now c < c_now' c0 + expiresIn * second).

Lemma kept_more past c cache : kept past cache -> kept (past ++ [c]) cache.
Proof. intros Hk k ent Hl. destruct (Hk k ent Hl) as (c0 & e & Hin & Hrest). exists c0, e. split; [set_solver|done]. Qed.

Lemma cached_step past c cache res cache' : kept past cache -> cached (key c) (c_now c) (c_now' c) (obtain c) cache = (res, cache') ->
  kept (past ++ [c]) cache' /\ forall tok, res = Ok tok -> fresh_token past c tok.
Proof.
  intros Hk. unfold cached. assert (Hob : match obtain c with Err e => (Err e, cache) | Ok (tok, expiresIn) =>
      (Ok tok, if negb (cacheRefreshAt (c_now' c) expiresIn =? 0) then <[key c := MkCached tok (cacheRefreshAt (c_now' c) expiresIn)]> cache else delete (key c) cache) end = (res, cache') ->
    kept (past ++ [c]) cache' /\ forall tok, res = Ok tok -> fresh_token past c tok).
  { destruct (obtain c) as [[tok expiresIn]|e] eqn:Eo; [|intros [= <- <-]; split; [by apply kept_more|done]]. intros [= <- <-]. split; [|intros tok' [= <-]; exists c, expiresIn; auto].
    destruct (Z.eqb_spec (cacheRefreshAt (c_now' c) expiresIn) 0) as [Hz|Hz]; cbn [negb].
    - intros k ent [_ Hl]%lookup_delete_Some. by apply (kept_more past c cache Hk).
    - intros k ent [[<- <-]|[_ Hl]]%lookup_insert_Some; [|by apply (kept_more past c cache Hk)]. exists c, expiresIn. split_and!; try done; [set_solver|].
      unfold cacheRefreshAt in Hz. destruct (Z.leb_spec expiresIn 0); [done|lia]. }
  destruct (cache !! key c) as [ent|] eqn:El; [|exact Hob]. destruct (_ && _) eqn:Ef; [|exact Hob]. intros [= <- <-]. split; [by apply kept_more|]. intros tok [= <-].
  destruct (Hk _ _ El) as (c0 & e & Hin & Hkey & Hobt & Hpos & Hat). exists c0, e. split_and!; [done|done|]. right. split; [done|].
  apply andb_true_iff in Ef as [_ Ef]. apply Z.ltb_lt in Ef. pose proof (refresh_before_expiry (c_now' c0) e Hpos). lia.
Qed.

Lemma serve_fresh calls past cache : kept past cache ->
  forall i c tok, serve calls cache !! i = Some (c, Ok tok) -> fresh_token (past ++ take i calls) c tok.
Proof using Hresolve.
  revert past cache. induction calls as [|c calls IH]; intros past cache Hk i c' tok; cbn [serve]; [done|]. destruct (resolve c cache) as [res cache'] eqn:Er.
  assert (Hstep : kept (past ++ [c]) cache' /\ forall tok, res = Ok tok -> fresh_token past c tok).
  { destruct (Hresolve c cache) as [[e E]|E]; rewrite E in Er; [injection Er as <- <-; split; [by apply kept_more|done]|by eapply cached_step]. }
  destruct Hstep as [Hk' Hf]. destruct i as [|i]; cbn [lookup list_lookup take].
  - intros [= <- ->]. rewrite app_nil_r. by apply Hf.
  - intros Hi. pose proof (IH (past ++ [c]) cache' Hk' i c' tok Hi) as H. by rewrite <- app_assoc in H.
Qed.
End served.

(** ** Whose token leaves *)
Section whose.
  Context `{GoText} (getenv : string -> string) (subjectTokenType : string).

(** The errors an exchange can report. *)
Definition exchange_errors (ref : CredentialRef) : list string :=
  ["broker: token_exchange broker got grant " +:+ quote (cr_Grant ref);
   "broker: client_auth " +:+ quote (cr_ClientAuth ref) +:+ " is not implemented (only client_secret_basic)";
   "broker: client id env " +:+ cr_ClientIDEnv ref +:+ " is not set";
   "broker: client secret env " +:+ cr_ClientSecretEnv ref +:+ " is not set"] ++
  map (fun what => "broker: token exchange for resource " +:+ quote (cr_ResourceID ref) +:+ what)
    [" has no subject token"; " has no audience"; " failed"; " was rejected by the authorization server"; " failed at the authorization server"; " returned an unusable response"].

Definition exchange_call (c : call) (cache : token_cache) := ExchangeResolve getenv subjectTokenType (c_send c) (c_now c) (c_now' c) (c_ref c) cache.

Lemma hex_length s : String.length (sha256_hex s) = 64%nat.
Proof. pose proof (sha256_hex_shape s) as Hs. apply andb_true_iff in Hs as [Hs _]. by apply Nat.eqb_eq in Hs. Qed.
Lemma nul_sep_inj a b c d : String.length b = String.length d -> nul_sep a b = nul_sep c d -> a = c /\ b = d.
Proof.
  unfold nul_sep. intros Hl E. assert (Hlen : String.length a = String.length c).
  { apply (f_equal String.length) in E. rewrite !length_app_str in E. cbn in E. lia. }
  apply app_inj_length in E as [-> E]; [|done]. by injection E as ->.
Qed.

(** C30: an exchanged token is the invoker's own and is not stale.  Over any
    sequence of calls, for any users and resources, whatever the authorization
    server answers and the clock reads: a token that is returned was obtained
    by exchanging the token of this call's own invoker for this resource, now
    or in an earlier call of which it is served before the expiry the server
    stated (or two subject tokens with one SHA-256 are exhibited); and an error
    is one of a fixed list of texts made from the reference alone, so nothing
    the server says reaches it. *)
Theorem exchanged_token_is_the_invokers (calls : list call) (i : nat) (c : call) :
  (forall tok, serve exchange_call calls ∅ !! i = Some (c, Ok tok) ->
    exists c0 expiresIn, exchange getenv subjectTokenType (c_send c0) (c_ref c0) = Ok (tok, expiresIn) /\
      cr_ResourceID (c_ref c0) = cr_ResourceID (c_ref c) /\
      (c0 = c \/ c0 ∈ take i calls /\ c_now c < c_now' c0 + expiresIn * second) /\
      (cr_SubjectToken (c_ref c0) = cr_SubjectToken (c_ref c) \/
       cr_SubjectToken (c_ref c0) <> cr_SubjectToken (c_ref c) /\ sha256_hex (cr_SubjectToken (c_ref c0)) = sha256_hex (cr_SubjectToken (c_ref c)))) /\
  (forall e cache, (exchange_call c cache).1 = Err e -> e ∈ exchange_errors (c_ref c)).
Proof.
  split.
  - intros tok Hi. assert (Hr : forall c cache, (exists e, exchange_call c cache = (Err e, cache)) \/
      exchange_call c cache = cached (exchange_key (c_ref c)) (c_now c) (c_now' c) (exchange getenv subjectTokenType (c_send c) (c_ref c)) cache).
    { intros c1 cache. unfold exchange_call, ExchangeResolve. repeat (case_bool_decide; cbn [negb]); first [right; reflexivity|left; by eexists]. }
    assert (H0 : kept (fun c => exchange_key (c_ref c)) (fun c => exchange getenv subjectTokenType (c_send c) (c_ref c)) [] ∅) by (intros k ent; by rewrite lookup_empty).
    destruct (serve_fresh exchange_call _ _ Hr calls [] ∅ H0 i c tok Hi) as (c0 & e & Hkey & Hob & Hcase). exists c0, e. cbn beta in Hob.
    apply nul_sep_inj in Hkey as [Hres Hsum]; [|by rewrite !hex_length]. split_and!; [done|done|done|].
    destruct (decide (cr_SubjectToken (c_ref c0) = cr_SubjectToken (c_ref c))); [by left|by right].
  - intros e cache. unfold exchange_call, ExchangeResolve, exchange_errors. repeat (case_bool_decide; cbn [negb fst]); try (intros [= <-]; set_solver).
    unfold cached. destruct (exchange getenv subjectTokenType (c_send c) (c_ref c)) as [[tok ex]|e'] eqn:Ee.
    + by repeat case_match.
    + intros He. assert (e = e') as -> by (repeat case_match; cbn in He; congruence). clear He. revert Ee. unfold exchange, client_secret.
      repeat (case_bool_decide; cbn [result_bind]); try (intros [= <-]; set_solver). repeat case_match; intros [= <-]; set_solver.
Qed.

End whose.

(** The minting broker's cache, by resource and issuer. *)
Lemma minted_token_is_fresh `{GoText} (getenv : string -> string) (calls : list call) (i : nat) (c : call) (tok : string) :
  serve (fun c cache => MintResolve getenv (c_send c) (c_now c) (c_now' c) (c_ref c) cache) calls ∅ !! i = Some (c, Ok tok) ->
  exists c0 expiresIn, mint getenv (c_send c0) (c_ref c0) = Ok (tok, expiresIn) /\ mint_key (c_ref c0) = mint_key (c_ref c) /\
    (c0 = c \/ c0 ∈ take i calls /\ c_now c < c_now' c0 + expiresIn * second).
Proof.
  intros Hi. destruct (serve_fresh (fun c cache => MintResolve getenv (c_send c) (c_now c) (c_now' c) (c_ref c) cache) (fun c => mint_key (c_ref c)) (fun c => mint getenv (c_send c) (c_ref c))
    ltac:(intros c1 cache; unfold MintResolve; repeat (case_bool_decide; cbn [negb]); first [right; reflexivity|left; by eexists]) calls [] ∅
    ltac:(intros k ent; by rewrite lookup_empty) i c tok Hi) as (c0 & e & Hkey & Hob & Hcase). by exists c0, e.
Qed.

(** One user's token is obtained once and served again; another user's call is
    an exchange of its own. *)
Definition mx_text : GoText := {| is_print := fun z => 32 <=? z; quote := fun s => s |}.
Definition mx_call (send : token_request -> token_answer) (now : Z) (subject : string) : call :=
  MkCall send now now (MkRef "crm" "static_env" "token_exchange" "client_secret_basic" "" "https://as/token" "" "crm" "" "ID" "SECRET" subject).
Definition mx_body : string := "{" +:+ String "034" "access_token" +:+ String "034" ":" +:+ String "034" "t1" +:+ String "034" "," +:+ String "034" "expires_in" +:+ String "034" ":3600}".
Example exchange_per_user :
  map snd (serve (exchange_call (H := mx_text) (fun _ => "x") "") [mx_call (fun _ => Answered 200 mx_body) 1 "ann"; mx_call (fun _ => NotSent) 2 "ann"; mx_call (fun _ => NotSent) 3 "bob"] ∅) =
  [Ok "t1"; Ok "t1"; Err "broker: token exchange for resource crm failed"].
Proof. vm_compute. reflexivity. Qed.
