(* ===== verification/Sink.v ===== *)
(** * The write-once sink ([internal/sink/sink.go], [store.go])

    A sealed segment is copied to an object store whose bucket has Object Lock
    enabled: [Prepare] before a seal is recorded, [Put] to write the copy and
    confirm it, and the reads by which an auditor and a restore find it again.

    The transport is the interface [ObjectStore]: five calls that change a
    world [W], in which other writers act too.  What a versioned bucket with
    Object Lock promises is [LockedBucket]: each call answers for one moment,
    and between the moments anybody may do what the bucket allows
    ([bucket_step]).  Against that interface a confirmed copy stands, whatever
    the others do, until its lock ends.

    The per-call timeout is the store's answer; error texts are left out. *)
From stdpp Require Import relations.
From S2P Require Import Prelude Sha256 GoStr Json Paths Ledger Config Origin Event ControlRecord Manifest Segments Restore Attest Utf8 Rekor Times.

(** ** The transport line ([store.go]) *)
Record lock : Type := MkLock { lk_Mode : string; lk_RetainUntil : string }.
Record objectVersion : Type := MkObject {
  ov_Key : string; ov_ID : string; ov_IsLatest : bool; ov_DeleteMarker : bool; ov_Size : Z; ov_LastModified : string;
}.
Inductive store_error : Type :=
  | StatusError (op : string) (status : Z) (host code : string)
  | errObjectTooLarge
  | ErrClockSkew (host : string)
  | StoreFault (text : string).

Class ObjectStore (W : Type) := {
  putLocked : string -> string -> string -> string -> W -> result store_error string * W;
  store_get : string -> string -> Z -> W -> result store_error string * W;
  store_retention : string -> string -> W -> result store_error lock * W;
  lockEnabled : W -> result store_error bool * W;
  listVersions : string -> W -> result store_error (list objectVersion) * W;
}.

(** ** The sink *)
Definition KindS3ObjectLock : string := "s3-object-lock".
Record S3 : Type := MkS3 { s3_url : string; s3_bucket : string; s3_prefix : string; s3_region : string; s3_retention : Z }.

Inductive sink_error : Type :=
  | SinkStore (e : store_error)
  | NotCompliance (mode : string)
  | SegmentDigest (want got : string)
  | Occupied (key : string)
  | OccupiedFresh (key : string)
  | NoObjectLock (bucket : string)
  | Unconfirmed (existed : bool) (remedy : option string) (e : store_error)
  | NoVersionID
  | UnconfirmedListing (e : sink_error)
  | NotOldest (id : string)
  | UnderLocked (id : string) (have : option lock) (want until : string)
  | ObjectOver (key id : string) (max : Z).

(** A call that may fail and changes the world: the error ends it. *)
Definition io_bind {W E A B : Type} (c : W -> result E A * W) (k : A -> W -> result E B * W) : W -> result E B * W :=
  fun w => match c w with (Ok a, w) => k a w | (Err e, w) => (Err e, w) end.
Notation "'do!' x ':=' c 'in' k" := (io_bind c (fun x => k)) (at level 10, x pattern, k at level 200) : go_scope.
Definition ret {W E A : Type} (a : A) : W -> result E A * W := fun w => (Ok a, w).
Definition throw {W E A : Type} (e : E) : W -> result E A * W := fun w => (Err e, w).
(** The error of a store call, wrapped. *)
Definition wrapped {W E F A : Type} (f : E -> F) (c : W -> result E A * W) : W -> result F A * W :=
  fun w => match c w with (Ok a, w) => (Ok a, w) | (Err e, w) => (Err (f e), w) end.

(** *** Where the bucket is *)
Section address.
  Context `{GoText, GoURL, GoLower, LogLibs}.

Definition parseSinkURL (s : string) : result string string :=
  let s := trim_suffix s "/" in
  let bad := Err (quote s +:+ " is not an absolute http(s) URL without credentials") in
  match parse_url s with
  | None => bad
  | Some u =>
      if (negb (bool_decide (u_Scheme u = "http")) && negb (bool_decide (u_Scheme u = "https"))) || bool_decide (u_Host u = "") || u_User u ||
         negb (bool_decide (u_RawQuery u = "")) || u_ForceQuery u || negb (bool_decide (u_Fragment u = "")) then bad
      else Ok (url_String s)
  end.

(** [regexp] [^s3[.-]([a-z]{2}(?:-gov|-iso[a-z]?)?-[a-z]+-\d+)\.amazonaws\.com(\.cn)?$];
    no class in it holds a dash or a dot, so the texts between them are the
    pieces. *)
Definition letters (s : string) : bool := negb (bool_decide (s = "")) && all_chars is_lower s.
Definition digits (s : string) : bool := negb (bool_decide (s = "")) && all_chars is_digit s.
Definition partition_part (s : string) : bool :=
  bool_decide (s = "gov") || bool_decide (s = "iso") || match cut_prefix "iso" s with Some (String c "") => is_lower c | _ => false end.
Definition region_shape (s : string) : bool :=
  match split_on "-"%char s with
  | [a; b; c] => bool_decide (String.length a = 2%nat) && all_chars is_lower a && letters b && digits c
  | [a; p; b; c] => bool_decide (String.length a = 2%nat) && all_chars is_lower a && partition_part p && letters b && digits c
  | _ => false
  end.
Definition awsRegionHostRE (host : string) : option string :=
  let rest := match cut_prefix "s3." host with Some r => Some r | None => cut_prefix "s3-" host end in
  let region suffix r := if has_suffix r suffix && region_shape (trim_suffix r suffix) then Some (trim_suffix r suffix) else None in
  match rest with
  | None => None
  | Some r => match region ".amazonaws.com" r with Some m => Some m | None => region ".amazonaws.com.cn" r end
  end.
Definition regionFor (host configured : string) : result string string :=
  if negb (bool_decide (configured = "")) then Ok configured
  else
    let host := ToLower host in
    match awsRegionHostRE host with
    | Some region => Ok region
    | None =>
        if bool_decide (host = "s3.amazonaws.com") then Ok "us-east-1"
        else if has_suffix host ".amazonaws.com" || has_suffix host ".amazonaws.com.cn"
        then Err ("cannot derive the signing region from host " +:+ host)
        else Ok "us-east-1"
    end.

(** [url.URL.Hostname]: the host without a port, or what is in brackets. *)
Fixpoint after_last_colon (s : string) : option (string * string) :=
  match s with
  | EmptyString => None
  | String c r =>
      match after_last_colon r with
      | Some (h, p) => Some (String c h, p)
      | None => if ascii_eqb c ":"%char then Some ("", r) else None
      end
  end.
Definition Hostname (host : string) : string :=
  let h := match after_last_colon host with Some (h, p) => if all_chars is_digit p then h else host | None => host end in
  if has_prefix h "[" && has_suffix h "]" then trim_suffix (trim_prefix h "[") "]" else h.

(** [strings.Trim(s, "/")] *)
Fixpoint trim_left_slashes (s : string) : string :=
  match s with String "/" r => trim_left_slashes r | _ => s end.
Definition trim_slashes (s : string) : string := rev_str (trim_left_slashes (rev_str (trim_left_slashes s))).
(** [strings.Cut(s, "/")] *)
Fixpoint cut_first_slash (s : string) : string * string :=
  match s with
  | EmptyString => ("", "")
  | String c r => if ascii_eqb c slash then ("", r) else let '(a, b) := cut_first_slash r in (String c a, b)
  end.

(** What [NewS3] builds: the sink, and the base URL and host of its transport.
    The keys' resolver and the client are the transport's. *)
Definition NewS3 (rawURL region : string) (keys : bool) (retention : Z) : result string (S3 * (string * string)) :=
  let! u := parseSinkURL rawURL in
  match parse_url u with
  | None => Err ("parse " +:+ quote u)
  | Some parsed =>
      let '(bucket, prefix) := cut_first_slash (trim_slashes (u_Path parsed)) in
      guard! negb (bool_decide (bucket = "")) else (quote rawURL +:+ " names no bucket") in
      guard! keys else "sink: S3Options.Keys is required" in
      guard! 0 <? retention else "sink: S3Options.Retention must be positive" in
      let! region := regionFor (Hostname (u_Host parsed)) region in
      Ok (MkS3 u bucket (trim_slashes prefix) region retention, (u_Scheme parsed +:+ "://" +:+ u_Host parsed, u_Host parsed))
  end.
End address.

(** *** Names and dates *)
Definition Prefix (s : S3) (logID : string) : string :=
  if bool_decide (s3_prefix s = "") then logID +:+ "/" else s3_prefix s +:+ "/" +:+ logID +:+ "/".
(** [t.UTC().Truncate(time.Second).Add(retention)] *)
Definition retain_from (s : S3) (t : string) : string :=
  FormatNano (MkTime (instant t - instant t mod 10 ^ 9 + s3_retention s) true).
Definition Locator (s : S3) (logID : string) (n : Z) (sealedAt : string) : SealSink :=
  MkSink KindS3ObjectLock (s3_url s) (Prefix s logID +:+ "seg-" +:+ pad6 n) "compliance" (retain_from s sealedAt).
Definition lockUntil (s : S3) (now : string) (loc : SealSink) : string :=
  let floor := retain_from s now in
  if After floor (sk_RetainUntil loc) then floor else sk_RetainUntil loc.

(** *** Listing, writing, reading back *)
Section logic.
  Context {W : Type} `{ObjectStore W}.

Definition sink_version (e : objectVersion) : SinkVersion := MkVersion (ov_ID e) (ov_IsLatest e) (ov_Size e) (ov_LastModified e).
(** One entry of the key's listing: a marker sets the flag, a version goes in
    front of the newer ones that were served before it. *)
Definition add_entry (kv : KeyVersions) (e : objectVersion) : KeyVersions :=
  if ov_DeleteMarker e then MkKeyVersions (kv_Key kv) (kv_Versions kv) true
  else MkKeyVersions (kv_Key kv) (sink_version e :: kv_Versions kv) (kv_DeleteMarker kv).
Fixpoint gather (entries : list objectVersion) (kv : KeyVersions) : KeyVersions :=
  match entries with
  | [] => kv
  | e :: rest => gather rest (if bool_decide (ov_Key e = kv_Key kv) then add_entry kv e else kv)
  end.
Definition keyVersions (key : string) : W -> result sink_error KeyVersions * W :=
  do! entries := wrapped SinkStore (listVersions key) in
  ret (gather entries (MkKeyVersions key [] false)).

Definition Prepare (s : S3) (loc : SealSink) : W -> result sink_error () * W :=
  do! enabled := wrapped SinkStore lockEnabled in
  if negb enabled then throw (NoObjectLock (s3_bucket s))
  else
    do! kv := keyVersions (sk_Key loc) in
    match kv_Versions kv with
    | [] => ret ()
    | _ => throw (OccupiedFresh (sk_Key loc))
    end.

(** The remedy a refused read names. *)
Definition unconfirmed (e : store_error) (existed : bool) : sink_error :=
  match e with
  | StatusError op 403 _ _ => Unconfirmed existed (Some (if bool_decide (op = "GetObject") then "the object back" else "the object's retention")) e
  | _ => Unconfirmed existed None e
  end.

(** [strings.ToUpper] of a recorded mode: [Put] has checked that it is
    "compliance". *)
Fixpoint ToUpper (s : string) : string := match s with EmptyString => "" | String c r => String (upper c) (ToUpper r) end.
Definition underLocked (versionID : string) (l : lock) (loc : SealSink) : option sink_error :=
  let want := ToUpper (sk_Mode loc) in
  if bool_decide (lk_Mode l = want) && negb (After (sk_RetainUntil loc) (lk_RetainUntil l)) then None
  else Some (UnderLocked versionID (if bool_decide (lk_Mode l = "") then None else Some l) want (sk_RetainUntil loc)).

(** Every version at the key must hold the segment. *)
Fixpoint all_hold (key data : string) (vs : list SinkVersion) : W -> result sink_error () * W :=
  match vs with
  | [] => ret ()
  | v :: rest =>
      if negb (sv_Size v =? Z.of_nat (String.length data)) then throw (Occupied key)
      else
        do! body := wrapped (fun e => match e with errObjectTooLarge => Occupied key | _ => unconfirmed e true end)
                      (store_get key (sv_ID v) (Z.of_nat (String.length data))) in
        if negb (bool_decide (body = data)) then throw (Occupied key) else all_hold key data rest
  end.
(** The lock of the version at hand, read back. *)
Definition confirm (loc : SealSink) (id : string) (existed : bool) : W -> result sink_error PutReceipt * W :=
  do! l := wrapped (fun e => unconfirmed e existed) (store_retention (sk_Key loc) id) in
  match underLocked id l loc with
  | Some e => throw e
  | None => ret (Segments.MkReceipt id (lk_RetainUntil l) existed)
  end.
Definition Put (s : S3) (now : string) (loc : SealSink) (data sha256hex : string) : W -> result sink_error PutReceipt * W :=
  if negb (bool_decide (sk_Mode loc = "compliance")) then throw (NotCompliance (sk_Mode loc))
  else if negb (bool_decide (sha256_hex data = sha256hex)) then throw (SegmentDigest sha256hex (sha256_hex data))
  else
    do! kv := keyVersions (sk_Key loc) in
    do! _ := all_hold (sk_Key loc) data (kv_Versions kv) in
    match kv_Versions kv with
    | oldest :: _ => confirm loc (sv_ID oldest) true
    | [] =>
        do! id := wrapped SinkStore (putLocked (sk_Key loc) data "COMPLIANCE" (lockUntil s now loc)) in
        if bool_decide (id = "") then throw NoVersionID
        else
          do! after := wrapped UnconfirmedListing (keyVersions (sk_Key loc)) in
          match kv_Versions after with
          | v :: _ => if bool_decide (sv_ID v = id) then confirm loc id false else throw (NotOldest id)
          | [] => throw (NotOldest id)
          end
    end.

Definition ListVersions (key : string) : W -> result sink_error KeyVersions * W := keyVersions key.
(** Every key under a prefix, in the order the store first names them. *)
Fixpoint add_to (e : objectVersion) (out : list KeyVersions) : list KeyVersions :=
  match out with
  | [] => [add_entry (MkKeyVersions (ov_Key e) [] false) e]
  | kv :: rest => if bool_decide (ov_Key e = kv_Key kv) then add_entry kv e :: rest else kv :: add_to e rest
  end.
Definition ListPrefix (prefix : string) : W -> result sink_error (list KeyVersions) * W :=
  do! entries := wrapped SinkStore (listVersions prefix) in
  ret (foldl (fun out e => add_to e out) [] entries).
Definition GetRetention (key versionID : string) : W -> result sink_error SinkRetention * W :=
  do! l := wrapped SinkStore (store_retention key versionID) in
  ret (MkRetention (lk_Mode l) (lk_RetainUntil l)).
Definition Get (key versionID : string) (max : Z) : W -> result sink_error string * W :=
  wrapped (fun e => match e with errObjectTooLarge => ObjectOver key versionID max | _ => SinkStore e end) (store_get key versionID max).

(** The sink as [Segments] and [Restore] see it: what it answers in a given
    world, errors as texts; a seal's preflight and its write meet the store at
    two moments, [wp] and [w]. *)
Definition answered {A} (text : sink_error -> string) (r : result sink_error A * W) : result string A :=
  match r.1 with Ok a => Ok a | Err e => Err (text e) end.
Definition sink_writer (text : sink_error -> string) (s : S3) (now : string) (wp w : W) : SinkWriter :=
  MkSinkWriter KindS3ObjectLock (s3_url s)
    (fun loc => match (Prepare s loc wp).1 with Ok _ => None | Err e => Some (text e) end)
    (Locator s) (fun loc data sha => answered text (Put s now loc data sha w)).
Definition sink_reader (text : sink_error -> string) (s : S3) (w : W) : SinkReader :=
  MkSinkReader (Prefix s) (fun key => answered text (ListVersions key w)) (fun p => answered text (ListPrefix p w))
    (fun key id => answered text (GetRetention key id w)) (fun key id max => answered text (Get key id max w)).
End logic.

(** ** A versioned bucket with Object Lock

    A key's versions, newest first; the ids ever minted; the bucket's clock. *)
Record stored : Type := MkStored { st_ID : string; st_Data : string; st_Lock : lock; st_Marker : bool; st_At : string }.
Record bucket : Type := MkBucket { bk_objects : gmap string (list stored); bk_minted : list string; bk_now : Z }.
#[global] Instance lock_eq_dec : EqDecision lock.
Proof. solve_decision. Defined.
#[global] Instance stored_eq_dec : EqDecision stored.
Proof. solve_decision. Defined.
Definition versions (b : bucket) (key : string) : list stored := default [] (bk_objects b !! key).
Definition set_versions (b : bucket) (key : string) (l : list stored) : bucket := MkBucket (<[key:=l]> (bk_objects b)) (bk_minted b) (bk_now b).
Definition place (b : bucket) (key : string) (v : stored) : bucket :=
  MkBucket (<[key:=v :: versions b key]> (bk_objects b)) (st_ID v :: bk_minted b) (bk_now b).

(** A compliance lock that has not ended. *)
Definition locked (now : Z) (l : lock) : Prop := lk_Mode l = "COMPLIANCE" /\ now < instant (lk_RetainUntil l).
(** A lock another may replace it: nothing shortens a compliance lock. *)
Definition extends (l l' : lock) : Prop := lk_Mode l' = "COMPLIANCE" /\ instant (lk_RetainUntil l) <= instant (lk_RetainUntil l').

(** What anybody may do: write a version or a delete marker on top, remove a
    version that is not locked, change a lock that allows it; time passes. *)
Inductive bucket_step : bucket -> bucket -> Prop :=
  | bucket_put b key v : st_ID v ∉ bk_minted b -> bucket_step b (place b key v)
  | bucket_remove b key l1 v l2 : versions b key = l1 ++ v :: l2 -> ~ locked (bk_now b) (st_Lock v) -> bucket_step b (set_versions b key (l1 ++ l2))
  | bucket_relock b key l1 v l2 l : versions b key = l1 ++ v :: l2 -> (locked (bk_now b) (st_Lock v) -> extends (st_Lock v) l) ->
      bucket_step b (set_versions b key (l1 ++ MkStored (st_ID v) (st_Data v) l (st_Marker v) (st_At v) :: l2))
  | bucket_tick b t : bk_now b <= t -> bucket_step b (MkBucket (bk_objects b) (bk_minted b) t).
Abbreviation bucket_steps := (rtc bucket_step).

(** What a listing says of a bucket: under each key its versions and markers,
    newest first. *)
Definition entry_of (key : string) (v : stored) (latest : bool) : objectVersion :=
  MkObject key (st_ID v) latest (st_Marker v) (Z.of_nat (String.length (st_Data v))) (st_At v).
Definition same_entry (key : string) (e : objectVersion) (v : stored) : Prop := exists latest, e = entry_of key v latest.
Definition at_key (key : string) (es : list objectVersion) : list objectVersion := filter (fun e => ov_Key e = key) es.
Definition lists (b : bucket) (prefix : string) (es : list objectVersion) : Prop :=
  forall key, has_prefix key prefix = true -> Forall2 (same_entry key) (at_key key es) (versions b key).
Definition held_at (b : bucket) (key id : string) (v : stored) : Prop := v ∈ versions b key /\ st_ID v = id /\ st_Marker v = false.

(** The documented behaviour of such a bucket: a call answers for a moment
    during it, and before and after that moment others act. *)
Class LockedBucket (W : Type) `{ObjectStore W} := {
  view : W -> bucket;
  list_law : forall prefix w r w', listVersions prefix w = (r, w') ->
    exists b, bucket_steps (view w) b /\ bucket_steps b (view w') /\ forall es, r = Ok es -> lists b prefix es;
  get_law : forall key id max w r w', store_get key id max w = (r, w') ->
    exists b, bucket_steps (view w) b /\ bucket_steps b (view w') /\ forall body, r = Ok body -> exists v, held_at b key id v /\ st_Data v = body;
  retention_law : forall key id w r w', store_retention key id w = (r, w') ->
    exists b, bucket_steps (view w) b /\ bucket_steps b (view w') /\ forall l, r = Ok l -> exists v, held_at b key id v /\ st_Lock v = l;
  enabled_law : forall w r w', lockEnabled w = (r, w') -> bucket_steps (view w) (view w');
  put_law : forall key data mode until w r w', putLocked key data mode until w = (r, w') ->
    match r with
    | Ok id => if bool_decide (id = "") then bucket_steps (view w) (view w')
               else exists b at_, bucket_steps (view w) b /\ (id ∉ bk_minted b) /\
                    bucket_steps (place b key (MkStored id data (MkLock mode until) false at_)) (view w')
    | Err _ => bucket_steps (view w) (view w')
    end;
}.

(** *** Invariant: an id names one version, for ever *)
Record bucket_ok (b : bucket) : Prop := {
  bo_ids : forall key, NoDup (map st_ID (versions b key));
  bo_minted : forall key v, v ∈ versions b key -> st_ID v ∈ bk_minted b;
}.

Lemma versions_set b key l k : versions (set_versions b key l) k = if decide (k = key) then l else versions b k.
Proof. unfold versions. cbn. destruct (decide (k = key)) as [->|]; [by rewrite lookup_insert_eq|by rewrite lookup_insert_ne]. Qed.
Lemma versions_place b key v k : versions (place b key v) k = if decide (k = key) then v :: versions b key else versions b k.
Proof. unfold versions. cbn. destruct (decide (k = key)) as [->|]; [by rewrite lookup_insert_eq|by rewrite lookup_insert_ne]. Qed.

(** What a step does to one key, whichever key it acts on. *)
Inductive key_step (now : Z) (minted : list string) : list stored -> list stored -> Prop :=
  | key_same l : key_step now minted l l
  | key_put l v : st_ID v ∉ minted -> key_step now minted l (v :: l)
  | key_remove l1 v l2 : ~ locked now (st_Lock v) -> key_step now minted (l1 ++ v :: l2) (l1 ++ l2)
  | key_relock l1 v l2 l : (locked now (st_Lock v) -> extends (st_Lock v) l) ->
      key_step now minted (l1 ++ v :: l2) (l1 ++ MkStored (st_ID v) (st_Data v) l (st_Marker v) (st_At v) :: l2).

Lemma step_at b b' key : bucket_step b b' ->
  key_step (bk_now b) (bk_minted b) (versions b key) (versions b' key) /\ bk_now b <= bk_now b' /\ bk_minted b ⊆ bk_minted b'.
Proof.
  intros Hs. destruct Hs as [b k v Hv|b k l1 v l2 E Hv|b k l1 v l2 l E Hv|b t Ht]; (split; [|split; [cbn; lia|cbn; set_solver]]).
  - rewrite versions_place. destruct (decide (key = k)) as [->|]; [by apply key_put|apply key_same].
  - rewrite versions_set. destruct (decide (key = k)) as [->|]; [rewrite E; by apply key_remove|apply key_same].
  - rewrite versions_set. destruct (decide (key = k)) as [->|]; [rewrite E; by apply key_relock|apply key_same].
  - apply key_same.
Qed.

Lemma step_ok b b' : bucket_step b b' -> bucket_ok b -> bucket_ok b'.
Proof.
  intros Hs [Hn Hm]. split.
  - intros key. destruct (step_at _ _ key Hs) as [Hk _]. specialize (Hn key). specialize (Hm key). revert Hn Hm. inversion Hk as [l|l v Hv|l1 v l2 Hv|l1 v l2 l Hv]; intros Hn Hm.
    + done.
    + cbn. constructor; [|done]. intros (u & E & Hu)%list_elem_of_fmap. apply Hv. rewrite E. by apply Hm.
    + rewrite map_app in *. cbn in Hn. apply NoDup_app in Hn as (? & Hd & [? ?]%NoDup_cons). apply NoDup_app. split_and!; [done| |done]. intros x ? ?. apply (Hd x); [done|]. by right.
    + by rewrite map_app in *.
  - intros key u Hu. destruct Hs as [b k v Hv|b k l1 v l2 E Hv|b k l1 v l2 l E Hv|b t Ht].
    + rewrite versions_place in Hu. cbn. destruct (decide _); [apply elem_of_cons in Hu as [->|Hu]|]; [by left|right; by eapply Hm..].
    + rewrite versions_set in Hu. cbn. destruct (decide _) as [->|]; [|by eapply Hm]. apply (Hm k). rewrite E. set_solver.
    + rewrite versions_set in Hu. cbn. destruct (decide _) as [->|]; [|by eapply Hm]. apply elem_of_app in Hu as [Hu|[->|Hu]%elem_of_cons]; [|cbn|]; eapply Hm; rewrite E; set_solver.
    + by eapply Hm.
Qed.

Lemma steps_ok b b' : bucket_steps b b' -> bucket_ok b -> bucket_ok b'.
Proof. induction 1; [done|]. intros Hb. by eauto using step_ok. Qed.
Lemma steps_grow b b' : bucket_steps b b' -> bk_now b <= bk_now b' /\ bk_minted b ⊆ bk_minted b'.
Proof. induction 1 as [|b b1 b2 Hs _ [IH1 IH2]]; [done|]. destruct (step_at _ _ "" Hs) as (_ & ? & ?). split; [lia|set_solver]. Qed.

(** *** The oldest version *)
Definition oldest (b : bucket) (key : string) : option stored := last (filter (fun v => st_Marker v = false) (versions b key)).
(** Two states of one version. *)
Definition same_copy (v v' : stored) : Prop := st_ID v' = st_ID v /\ st_Data v' = st_Data v /\ st_Marker v' = st_Marker v.

Lemma id_gone b b' key id : bucket_steps b b' -> id ∈ bk_minted b -> id ∉ map st_ID (versions b key) -> id ∉ map st_ID (versions b' key).
Proof.
  induction 1 as [|b b1 b2 Hs _ IH]; [done|]. intros Hm Hg. destruct (step_at _ _ key Hs) as (Hk & _ & Hsub). apply IH; [set_solver|].
  revert Hg. inversion Hk as [l|l v Hv|l1 v l2 Hv|l1 v l2 l Hv]; intros Hg; [done| | |]; rewrite ?map_app in *; cbn in *; set_solver.
Qed.

(** A step keeps the oldest version oldest, if it keeps it. *)
Lemma key_step_oldest now minted l l' v : NoDup (map st_ID l) -> st_ID v ∈ minted -> key_step now minted l l' ->
  last (filter (fun v => st_Marker v = false) l) = Some v ->
  st_ID v ∉ map st_ID l' \/ exists v', last (filter (fun v => st_Marker v = false) l') = Some v' /\ same_copy v v'.
Proof.
  intros Hn Hm Hk Hl. destruct Hk as [l|l u Hu|l1 u l2 Hu|l1 u l2 k Hu].
  - right. exists v. by split.
  - right. exists v. rewrite filter_cons. destruct (decide _); [|by split]. split; [|done]. cbn. by rewrite last_cons, Hl.
  - rewrite filter_app, filter_cons in Hl. destruct (decide (v = u)) as [->|Hne].
    { left. rewrite map_app in *. cbn in Hn. apply NoDup_app in Hn as (_ & Hd & [Hn _]%NoDup_cons). intros [Hx|Hx]%elem_of_app; [|done]. apply (Hd _ Hx). by left. }
    right. exists v. split; [|done]. rewrite filter_app. destruct (decide _); [|done]. rewrite last_app in *. rewrite last_cons in Hl. by destruct (last (filter _ l2)); simplify_eq.
  - right. rewrite filter_app, filter_cons in *. cbn [st_Marker]. destruct (decide _); [|by exists v]. rewrite last_app in *. rewrite last_cons in *.
    destruct (last (filter _ l2)) as [x|]; simplify_eq; eexists; done.
Qed.

Lemma oldest_in b key v : oldest b key = Some v -> v ∈ versions b key /\ st_Marker v = false.
Proof. unfold oldest. intros Hl%last_Some_elem_of. by apply list_elem_of_filter in Hl as [? ?]. Qed.

Lemma oldest_stays b b' key v : bucket_ok b -> bucket_steps b b' -> oldest b key = Some v -> st_ID v ∈ map st_ID (versions b' key) ->
  exists v', oldest b' key = Some v' /\ same_copy v v'.
Proof.
  intros Hb Hs. revert Hb v. induction Hs as [b|b b1 b2 Hs Hss IH]; intros Hb v Hv Hin; [by exists v|].
  destruct (step_at _ _ key Hs) as (Hk & _ & Hsub). pose proof (bo_minted _ Hb key v (proj1 (oldest_in _ _ _ Hv))) as Hm.
  destruct (key_step_oldest _ _ _ _ v (bo_ids _ Hb key) Hm Hk Hv) as [Hg|(v1 & Hv1 & E1 & E2 & E3)].
  { destruct (id_gone _ _ key _ Hss (Hsub _ Hm) Hg Hin). }
  destruct (IH (step_ok _ _ Hs Hb) v1 Hv1) as (v' & Hv' & ? & ? & ?); [by rewrite E1|]. exists v'. split; [done|]. unfold same_copy. by rewrite <- E1, <- E2, <- E3.
Qed.

(** A locked version is there while its lock lasts. *)
Lemma locked_stays b b' key v : bucket_steps b b' -> v ∈ versions b key -> lk_Mode (st_Lock v) = "COMPLIANCE" -> bk_now b' < instant (lk_RetainUntil (st_Lock v)) ->
  exists v', v' ∈ versions b' key /\ same_copy v v' /\ extends (st_Lock v) (st_Lock v').
Proof.
  intros Hs. revert v. induction Hs as [b|b b1 b2 Hs Hss IH]; intros v Hin Hmode Hnow; [exists v; unfold extends; split_and!; done|].
  destruct (steps_grow _ _ Hss) as [Hle _]. destruct (step_at _ _ key Hs) as (Hk & Hle1 & _).
  assert (exists v1, v1 ∈ versions b1 key /\ same_copy v v1 /\ extends (st_Lock v) (st_Lock v1)) as (v1 & Hin1 & (E1 & E2 & E3) & Hm1 & Hu1).
  { assert (Hl : locked (bk_now b) (st_Lock v)) by (split; [done|lia]). assert (He : extends (st_Lock v) (st_Lock v)) by done.
    revert Hin. inversion Hk as [l|l u Hu|l1 u l2 Hu|l1 u l2 k Hu]; intros Hin.
    - by exists v.
    - exists v. split; [by right|done].
    - exists v. apply elem_of_app in Hin as [Hin|[->|Hin]%elem_of_cons]; [|done|]; (split; [set_solver|done]).
    - apply elem_of_app in Hin as [Hin|[->|Hin]%elem_of_cons]; [exists v; split; [set_solver|done]| |exists v; split; [set_solver|done]].
      eexists. split; [apply elem_of_app; right; by left|]. split; [done|]. by apply Hu. }
  destruct (IH v1 Hin1 Hm1) as (v' & Hin' & (? & ? & ?) & ? & ?); [lia|]. exists v'. unfold same_copy, extends. rewrite <- E1, <- E2, <- E3. split_and!; done || lia.
Qed.

(** ** What is confirmed stands *)

(** The oldest version at the key is the copy, under a compliance lock until
    at least [until]. *)
Definition stands (b : bucket) (key id data : string) (until : Z) : Prop :=
  exists v, oldest b key = Some v /\ st_ID v = id /\ st_Data v = data /\ lk_Mode (st_Lock v) = "COMPLIANCE" /\ until <= instant (lk_RetainUntil (st_Lock v)).

Lemma same_id b key u v : bucket_ok b -> u ∈ versions b key -> v ∈ versions b key -> st_ID u = st_ID v -> u = v.
Proof.
  intros Hb [i Hi]%list_elem_of_lookup [j Hj]%list_elem_of_lookup E. assert (i = j); [|congruence].
  eapply NoDup_lookup; [exact (bo_ids _ Hb key)|..]; change (map st_ID) with (fmap (M := list) st_ID); rewrite list_lookup_fmap, ?Hi, ?Hj; cbn; by rewrite ?E.
Qed.

Lemma key_step_data now minted l l' u v : NoDup (map st_ID l) -> st_ID v ∈ minted -> key_step now minted l l' -> v ∈ l -> u ∈ l' -> st_ID u = st_ID v -> st_Data v = st_Data u.
Proof.
  intros Hn Hm Hk. assert (Hsame : forall l u v : _, NoDup (map st_ID l) -> u ∈ l -> v ∈ l -> st_ID u = st_ID v -> u = v).
  { intros ? ? ? Hn' [i Hi]%list_elem_of_lookup [j Hj]%list_elem_of_lookup E. assert (i = j); [|congruence].
    eapply NoDup_lookup; [exact Hn'|..]; change (map st_ID) with (fmap (M := list) st_ID); rewrite list_lookup_fmap, ?Hi, ?Hj; cbn; by rewrite ?E. }
  destruct Hk as [l|l x Hx|l1 x l2 Hx|l1 x l2 k Hx]; intros Hv Hu E.
  - f_equal. by eapply Hsame.
  - apply elem_of_cons in Hu as [->|Hu]; [by rewrite E in Hx|]. f_equal. by eapply Hsame.
  - f_equal. eapply Hsame; [exact Hn|done|set_solver|done].
  - apply elem_of_app in Hu as [Hu|[->|Hu]%elem_of_cons]; [|cbn in *|].
    + f_equal. eapply Hsame; [exact Hn|done|set_solver|done].
    + change (st_Data v = st_Data x). f_equal. eapply Hsame; [exact Hn|done|set_solver|done].
    + f_equal. eapply Hsame; [exact Hn|done|set_solver|done].
Qed.

Lemma stands_stays b b' key id data until : bucket_ok b -> bucket_steps b b' -> stands b key id data until -> bk_now b' < until -> stands b' key id data until.
Proof.
  intros Hb Hs (v & Hv & Hid & Hd & Hm & Hu) Hnow. destruct (oldest_in _ _ _ Hv) as [Hin _].
  destruct (locked_stays _ _ key v Hs Hin Hm) as (v1 & Hin1 & (E1 & _ & _) & Hm1 & Hu1); [lia|].
  assert (Hid1 : st_ID v ∈ map st_ID (versions b' key)) by (rewrite <- E1; by apply list_elem_of_fmap_2).
  destruct (oldest_stays _ _ key v Hb Hs Hv Hid1) as (v2 & Hv2 & E21 & E22 & _). destruct (oldest_in _ _ _ Hv2) as [Hin2 _].
  assert (v2 = v1) as ->; [|exists v1; split_and!; congruence || lia || done].
  eapply same_id; [exact (steps_ok _ _ Hs Hb)|done|done|congruence].
Qed.

(** A version's id finds it. *)
Lemma held_is_oldest b0 b key v u : bucket_ok b0 -> bucket_steps b0 b -> oldest b0 key = Some v -> held_at b key (st_ID v) u -> oldest b key = Some u /\ same_copy v u.
Proof.
  intros Hb Hs Hv (Hin & E & Hm). destruct (oldest_stays _ _ key v Hb Hs Hv) as (u' & Hu' & E1 & E2 & E3); [rewrite <- E; by apply list_elem_of_fmap_2|].
  assert (u' = u) as ->; [|done]. destruct (oldest_in _ _ _ Hu') as [Hin' _].
  eapply same_id; [exact (steps_ok _ _ Hs Hb)|done|done|congruence].
Qed.

(** An id's bytes never change. *)
Lemma minted_data b b' key v u : bucket_ok b -> bucket_steps b b' -> v ∈ versions b key -> u ∈ versions b' key -> st_ID u = st_ID v -> st_Data u = st_Data v.
Proof.
  intros Hb Hs. revert v Hb. induction Hs as [b|b b1 b2 Hs Hss IH]; intros v Hb Hv Hu E.
  - f_equal. eapply same_id; [exact Hb|done..].
  - pose proof (bo_minted _ Hb key v Hv) as Hm. destruct (step_at _ _ key Hs) as (Hk & _ & Hsub).
    destruct (decide (st_ID v ∈ map st_ID (versions b1 key))) as [(v1 & E1 & Hv1)%list_elem_of_fmap|Hg].
    + transitivity (st_Data v1); [apply (IH v1); [by eapply step_ok|done|done|congruence]|]. symmetry. eapply key_step_data; [exact (bo_ids _ Hb key)|exact Hm|exact Hk|done..].
    + destruct (id_gone _ _ key _ Hss (Hsub _ Hm) Hg). rewrite <- E. by apply list_elem_of_fmap_2.
Qed.

(** *** Listings *)
Lemma gather_key es kv : kv_Key (gather es kv) = kv_Key kv.
Proof. revert kv. induction es as [|e es IH]; intros kv; [done|]. cbn [gather]. rewrite IH. case_bool_decide; [|done]. unfold add_entry. by destruct (ov_DeleteMarker e). Qed.
Lemma gather_versions es kv :
  kv_Versions (gather es kv) = map sink_version (rev (filter (fun e => ov_DeleteMarker e = false) (at_key (kv_Key kv) es))) ++ kv_Versions kv.
Proof.
  revert kv. induction es as [|e es IH]; intros kv; [done|]. cbn [gather]. rewrite IH. unfold at_key. rewrite filter_cons. case_bool_decide as Hk.
  - rewrite decide_True by done. rewrite filter_cons. unfold add_entry. destruct (ov_DeleteMarker e) eqn:E; cbn [kv_Key kv_Versions].
    + by rewrite decide_False.
    + rewrite decide_True by done. cbn [rev]. rewrite map_app, <- (assoc_L (++)). done.
  - by rewrite decide_False.
Qed.

Lemma filter_Forall2 {A B} (R : A -> B -> Prop) (P : A -> Prop) (Q : B -> Prop) `{forall x, Decision (P x), forall y, Decision (Q y)} l k :
  (forall x y, R x y -> P x <-> Q y) -> Forall2 R l k -> Forall2 R (filter P l) (filter Q k).
Proof. intros Hpq. induction 1 as [|x y l k Hxy _ IH]; [constructor|]. rewrite !filter_cons. specialize (Hpq x y Hxy). repeat destruct (decide _); try tauto. by constructor. Qed.

Lemma has_prefix_refl s : has_prefix s s = true.
Proof. apply has_prefix_spec. exists "". by rewrite app_nil_str. Qed.

Lemma listed_oldest b key es v vs : lists b key es -> kv_Versions (gather es (MkKeyVersions key [] false)) = v :: vs ->
  exists u, oldest b key = Some u /\ st_ID u = sv_ID v /\ Z.of_nat (String.length (st_Data u)) = sv_Size v.
Proof.
  intros Hl. rewrite gather_versions, app_nil_r. cbn [kv_Key]. specialize (Hl key (has_prefix_refl key)).
  apply (filter_Forall2 _ (fun e => ov_DeleteMarker e = false) (fun v => st_Marker v = false)) in Hl; [|by intros ? ? [? ->]].
  apply Forall2_last in Hl. unfold oldest. intros E. set (l := filter _ (at_key key es)) in *. clearbody l. destruct l as [|x l] using rev_ind; [done|].
  rewrite rev_app_distr in E. cbn in E. injection E as <- _. rewrite last_snoc in Hl. inversion Hl as [? u [la ->] Hu|]; subst. by exists u.
Qed.

(** *** Calls *)
Section confirmed.
  Context {W : Type} `{LockedBucket W}.

Lemma io_bind_Ok {E A B} (c : W -> result E A * W) (k : A -> W -> result E B * W) w b w' :
  io_bind c k w = (Ok b, w') -> exists a w1, c w = (Ok a, w1) /\ k a w1 = (Ok b, w').
Proof. unfold io_bind. destruct (c w) as [[a|e] w1]; [|done]. by exists a, w1. Qed.
Lemma wrapped_Ok {E F A} (f : E -> F) (c : W -> result E A * W) w a w' : wrapped f c w = (Ok a, w') -> c w = (Ok a, w').
Proof. unfold wrapped. destruct (c w) as [[x|e] w1]; [|done]. by intros [= <- <-]. Qed.

Lemma keyVersions_spec key w kv w' : keyVersions key w = (Ok kv, w') ->
  exists b es, bucket_steps (view w) b /\ bucket_steps b (view w') /\ lists b key es /\ kv = gather es (MkKeyVersions key [] false).
Proof.
  intros (es & w1 & Hl%wrapped_Ok & [= <- <-])%io_bind_Ok. destruct (list_law _ _ _ _ Hl) as (b & ? & ? & Hes). exists b, es. split_and!; [done..|by apply Hes|done].
Qed.

Lemma all_hold_steps key data vs w w' : all_hold key data vs w = (Ok (), w') -> bucket_steps (view w) (view w').
Proof.
  revert w. induction vs as [|v vs IH]; intros w; cbn [all_hold]; [by intros [= <-]|]. destruct (negb _); [done|].
  intros (body & w1 & Hg%wrapped_Ok & Hk)%io_bind_Ok. destruct (get_law _ _ _ _ _ _ Hg) as (b & ? & ? & _). destruct (negb _); [done|].
  etrans; [etrans; [done|done]|]. by apply IH.
Qed.

(** The first version listed was read back as the data. *)
Lemma all_hold_first key data v vs w w' : all_hold key data (v :: vs) w = (Ok (), w') ->
  exists b u, bucket_steps (view w) b /\ bucket_steps b (view w') /\ held_at b key (sv_ID v) u /\ st_Data u = data.
Proof.
  cbn [all_hold]. destruct (negb _); [done|]. intros (body & w1 & Hg%wrapped_Ok & Hk)%io_bind_Ok. destruct (get_law _ _ _ _ _ _ Hg) as (b & ? & ? & Hb).
  destruct (Hb _ eq_refl) as (u & Hu & <-). case_bool_decide as E; [|done]. cbn [negb] in Hk. exists b, u. split_and!; [done| |done..]. etrans; [done|]. by eapply all_hold_steps.
Qed.

Lemma confirm_stands loc id existed b0 v w rcpt w' : sk_Mode loc = "compliance" -> bucket_ok b0 -> bucket_steps b0 (view w) -> oldest b0 (sk_Key loc) = Some v ->
  st_ID v = id -> confirm loc id existed w = (Ok rcpt, w') ->
  rcpt = Segments.MkReceipt id (pr_RetainUntil rcpt) existed /\ instant (sk_RetainUntil loc) <= instant (pr_RetainUntil rcpt) /\
  exists b, bucket_steps b0 b /\ bucket_steps b (view w') /\ stands b (sk_Key loc) id (st_Data v) (instant (pr_RetainUntil rcpt)).
Proof.
  intros Hmode Hb Hs Hv Hid (l & w1 & Hr%wrapped_Ok & Hk)%io_bind_Ok. destruct (retention_law _ _ _ _ _ Hr) as (b & Hs1 & Hs2 & Hl). destruct (Hl _ eq_refl) as (u & Hu & Eu).
  unfold underLocked in Hk. rewrite Hmode in Hk. destruct (bool_decide _ && negb _) eqn:E; [|done]. apply andb_prop in E as [E1%bool_decide_eq_true E2%negb_true_iff].
  injection Hk as <- <-. cbn [pr_RetainUntil]. apply Z.ltb_ge in E2. split; [done|]. split; [done|]. exists b. split; [by etrans|]. split; [done|].
  rewrite <- Hid in Hu. destruct (held_is_oldest _ b _ _ u Hb ltac:(by etrans) Hv Hu) as [Ho (Ei & Ed & _)]. exists u. rewrite Ei, Ed, Eu. split_and!; done.
Qed.

Lemma put_confirmed (s : S3) (now : string) (loc : SealSink) (data sha : string) (w w' : W) (rcpt : PutReceipt) :
  bucket_ok (view w) -> Put s now loc data sha w = (Ok rcpt, w') ->
  sk_Mode loc = "compliance" /\ sha = sha256_hex data /\ instant (sk_RetainUntil loc) <= instant (pr_RetainUntil rcpt) /\
  forall b, bucket_steps (view w') b -> bk_now b < instant (pr_RetainUntil rcpt) -> stands b (sk_Key loc) (pr_VersionID rcpt) data (instant (pr_RetainUntil rcpt)).
Proof.
  intros Hok Hput.
  unfold Put in Hput. case_bool_decide as Hmode; [|done]. case_bool_decide as Hsha; [|done]. cbn [negb] in Hput. split; [done|]. split; [done|].
  apply io_bind_Ok in Hput as (kv & w1 & (b1 & es & Hs1 & Hs1' & Hl & ->)%keyVersions_spec & Hput). pose proof (steps_ok _ _ Hs1 Hok) as Hb1.
  apply io_bind_Ok in Hput as ([] & w2 & Ha & Hput).
  assert (Hend : forall v id existed b0 w3, bucket_ok b0 -> bucket_steps b0 (view w3) -> oldest b0 (sk_Key loc) = Some v -> st_ID v = id -> st_Data v = data ->
    confirm loc id existed w3 = (Ok rcpt, w') ->
    instant (sk_RetainUntil loc) <= instant (pr_RetainUntil rcpt) /\
    forall b, bucket_steps (view w') b -> bk_now b < instant (pr_RetainUntil rcpt) -> stands b (sk_Key loc) (pr_VersionID rcpt) data (instant (pr_RetainUntil rcpt))).
  { intros v id existed b0 w3 Hb0 Hs0 Ho Hi Hd Hc. destruct (confirm_stands _ _ _ _ _ _ _ _ Hmode Hb0 Hs0 Ho Hi Hc) as (-> & Hle & b' & Hs' & Hs'' & Hst). split; [done|].
    intros b Hsteps Hnow. rewrite Hd in Hst. eapply stands_stays; [eapply steps_ok; [exact Hs'|exact Hb0]|by etrans|exact Hst|done]. }
  destruct (kv_Versions _) as [|v vs] eqn:Ev.
  - injection Ha as <-. apply io_bind_Ok in Hput as (id & w3 & Hp%wrapped_Ok & Hput). pose proof (put_law _ _ _ _ _ _ _ Hp) as Hlaw. cbn in Hlaw.
    case_bool_decide as Hid; [done|]. destruct Hlaw as (b2 & at_ & Hs2 & Hfresh & Hs3). pose proof (steps_ok _ _ Hs2 (steps_ok _ _ Hs1' Hb1)) as Hb2.
    set (mine := MkStored id data _ false at_) in *. assert (Hb3 : bucket_ok (place b2 (sk_Key loc) mine)) by (eapply step_ok; [by apply bucket_put|done]).
    apply io_bind_Ok in Hput as (after & w4 & (b4 & es4 & Hs4 & Hs4' & Hl4 & ->)%wrapped_Ok%keyVersions_spec & Hput).
    destruct (kv_Versions (gather es4 _)) as [|v4 vs4] eqn:Ev4; [done|]. destruct (bool_decide (sv_ID v4 = id)) eqn:Hid4; [|done]. apply bool_decide_eq_true in Hid4. destruct (listed_oldest _ _ _ _ _ Hl4 Ev4) as (u & Hu & Hui & _).
    assert (Hs34 : bucket_steps (place b2 (sk_Key loc) mine) b4) by (by etrans). pose proof (steps_ok _ _ Hs34 Hb3) as Hb4.
    apply (Hend u id false b4 w4); [done|done|done|congruence| |done]. change data with (st_Data mine). eapply minted_data; [exact Hb3|exact Hs34| |exact (proj1 (oldest_in _ _ _ Hu))|cbn; congruence].
    rewrite versions_place, decide_True by done. by left.
  - destruct (listed_oldest _ _ _ _ _ Hl Ev) as (u & Hu & Hui & _). destruct (all_hold_first _ _ _ _ _ _ Ha) as (b2 & x & Hs2 & Hs2' & Hx & Hd).
    rewrite <- Hui in Hx. destruct (held_is_oldest _ b2 _ _ x Hb1 ltac:(by etrans) Hu Hx) as [Ho (Ei & Ed & _)].
    apply (Hend x (sv_ID v) true b2 w2); [by eapply steps_ok; [|exact Hb1]; etrans|done|done|congruence|done|done].
Qed.

(** A confirmed copy stands.  When [Put] answers with a receipt, then from that
    moment until the date the receipt names, which is no earlier than the date
    on the ledger's record, the oldest version at the segment's key is the one
    the receipt names, holds exactly the segment's bytes and is under a
    compliance lock, whatever other writers do in the bucket, during the call
    and after it. *)
Theorem confirmed_copy_stands (s : S3) (now : string) (loc : SealSink) (data sha : string) (w w' : W) (rcpt : PutReceipt) (b : bucket)
    (Hok : bucket_ok (view w)) (Hput : Put s now loc data sha w = (Ok rcpt, w')) (Hsteps : bucket_steps (view w') b)
    (Hnow : bk_now b < instant (pr_RetainUntil rcpt)) :
  sk_Mode loc = "compliance" /\ sha = sha256_hex data /\ instant (sk_RetainUntil loc) <= instant (pr_RetainUntil rcpt) /\
  stands b (sk_Key loc) (pr_VersionID rcpt) data (instant (pr_RetainUntil rcpt)).
Proof.
  destruct (put_confirmed _ _ _ _ _ _ _ _ Hok Hput) as (? & ? & ? & Hst). split_and!; [done..|by apply Hst].
Qed.
End confirmed.

(** ** The sink alone in its bucket

    A bucket nobody else writes, as a store. *)
Definition fresh_id (b : bucket) : string := "v" +:+ join "" (bk_minted b).
Definition find_version (b : bucket) (key id : string) : option stored := List.find (fun v => bool_decide (st_ID v = id) && negb (st_Marker v)) (versions b key).
Fixpoint entries_of (key : string) (vs : list stored) (latest : bool) : list objectVersion :=
  match vs with [] => [] | v :: r => entry_of key v latest :: entries_of key r false end.
Definition all_entries (prefix : string) (l : list (string * list stored)) : list objectVersion :=
  concat (map (fun kv => if has_prefix kv.1 prefix then entries_of kv.1 kv.2 true else []) l).
Definition noVersion (op : string) : store_error := StatusError op 404 "" "NoSuchVersion".
#[global] Instance quiet_store : ObjectStore bucket := {|
  putLocked := fun key data mode until b =>
    let id := fresh_id b in (Ok id, place b key (MkStored id data (MkLock mode until) false ""));
  store_get := fun key id max b =>
    (match find_version b key id with
     | Some v => if max <? Z.of_nat (String.length (st_Data v)) then Err errObjectTooLarge else Ok (st_Data v)
     | None => Err (noVersion "GetObject")
     end, b);
  store_retention := fun key id b => (match find_version b key id with Some v => Ok (st_Lock v) | None => Err (noVersion "GetObjectRetention") end, b);
  lockEnabled := fun b => (Ok true, b);
  listVersions := fun prefix b => (Ok (all_entries prefix (map_to_list (bk_objects b))), b);
|}.

Lemma join_longer x l : x ∈ l -> (String.length x <= String.length (join "" l))%nat.
Proof.
  induction l as [|y l IH]; [by intros ?%elem_of_nil|]. assert (Hj : join "" (y :: l) = y +:+ join "" l) by (destruct l; [by rewrite app_nil_str|done]).
  rewrite Hj, length_app_str. intros [->|Hx]%elem_of_cons; [lia|]. specialize (IH Hx). lia.
Qed.
Lemma fresh_id_fresh b : fresh_id b ∉ bk_minted b.
Proof. intros Hx%join_longer. unfold fresh_id in Hx. rewrite length_app_str in Hx. cbn [String.length] in Hx. lia. Qed.

Lemma find_version_held b key id v : find_version b key id = Some v -> held_at b key id v.
Proof. intros [Hin [E%bool_decide_eq_true Hm%negb_true_iff]%andb_prop]%find_some. split_and!; [by apply list_elem_of_In|done..]. Qed.

Lemma entries_at key k vs latest : at_key key (entries_of k vs latest) = if decide (k = key) then entries_of k vs latest else [].
Proof. revert latest. induction vs as [|v vs IH]; intros latest; cbn [entries_of]; [by destruct (decide _)|]. unfold at_key. rewrite filter_cons. cbn [ov_Key entry_of]. fold (at_key key (entries_of k vs false)). rewrite IH. by destruct (decide _). Qed.
Lemma entries_same key vs latest : Forall2 (same_entry key) (entries_of key vs latest) vs.
Proof. revert latest. induction vs; intros latest; constructor; [by exists latest|done]. Qed.

Lemma all_entries_at prefix key l : NoDup l.*1 -> has_prefix key prefix = true ->
  at_key key (all_entries prefix l) = entries_of key (default [] ((list_to_map l : gmap string (list stored)) !! key)) true.
Proof.
  intros Hn Hp. induction l as [|[k vs] l IH]; [done|]. apply NoDup_cons in Hn as [Hk Hn]. unfold all_entries. cbn [map concat]. unfold at_key. rewrite filter_app.
  change (filter _ (concat _)) with (at_key key (all_entries prefix l)). cbn [list_to_map foldr uncurry fst snd]. change (foldr _ ∅ l) with (list_to_map l : gmap string (list stored)). rewrite IH by done.
  destruct (decide (k = key)) as [->|Hne].
  - rewrite Hp. fold (at_key key (entries_of key vs true)). rewrite entries_at, decide_True, lookup_insert_eq by done. cbn [default]. apply not_elem_of_list_to_map_1 in Hk. cbn [fst] in Hk. setoid_rewrite Hk. cbn. by rewrite app_nil_r.
  - rewrite lookup_insert_ne by done. destruct (has_prefix k prefix); [|done]. fold (at_key key (entries_of k vs true)). by rewrite entries_at, decide_False.
Qed.

#[global] Instance quiet_bucket : LockedBucket bucket.
Proof.
  refine {| view := id |}; cbn.
  - intros prefix w r w' [= <- <-]. exists w. split_and!; [done..|]. intros es [= <-] key Hp. rewrite all_entries_at, list_to_map_to_list; [apply entries_same|apply NoDup_fst_map_to_list|done].
  - intros key i max w r w' [= <- <-]. exists w. split_and!; [done..|]. intros body. destruct (find_version w key i) as [v|] eqn:E; [|done]. destruct (_ <? _); [done|].
    intros [= <-]. exists v. split; [by apply find_version_held|done].
  - intros key i w r w' [= <- <-]. exists w. split_and!; [done..|]. intros l. destruct (find_version w key i) as [v|] eqn:E; [|done]. intros [= <-]. exists v. split; [by apply find_version_held|done].
  - by intros w r w' [= <- <-].
  - intros key data mode until w r w' [= <- <-]. rewrite bool_decide_false by done. exists w, "". split_and!; [done|apply fresh_id_fresh|done].
Defined.

Definition present (b : bucket) (key : string) : list stored := filter (fun v => st_Marker v = false) (versions b key).
Definition lists_as (v : SinkVersion) (u : stored) : Prop := sv_ID v = st_ID u /\ sv_Size v = Z.of_nat (String.length (st_Data u)).

Lemma quiet_versions b key : exists kv, keyVersions key b = (Ok kv, b) /\ Forall2 lists_as (kv_Versions kv) (rev (present b key)).
Proof.
  unfold keyVersions, io_bind, wrapped. cbn [listVersions quiet_store]. eexists. split; [done|]. rewrite gather_versions, app_nil_r. cbn [kv_Key].
  rewrite all_entries_at; [|apply NoDup_fst_map_to_list|apply has_prefix_refl]. rewrite list_to_map_to_list. fold (versions b key).
  pose proof (entries_same key (versions b key) true) as Hl.
  apply (filter_Forall2 _ (fun e => ov_DeleteMarker e = false) (fun v => st_Marker v = false)) in Hl; [|by intros ? ? [? ->]]. fold (present b key) in Hl. induction Hl as [|e u es us [la ->] _ IH]; [constructor|]. cbn [rev]. rewrite map_app. apply Forall2_app; [done|]. by repeat constructor.
Qed.

Lemma found b key u : bucket_ok b -> u ∈ present b key -> find_version b key (st_ID u) = Some u.
Proof.
  intros Hb [Hm Hin]%list_elem_of_filter. destruct (find_version b key (st_ID u)) as [x|] eqn:E.
  - apply find_version_held in E as (Hx & Ex & _). f_equal. by eapply same_id.
  - exfalso. unfold find_version in E. apply list_elem_of_In in Hin. apply (find_none _ _ E u) in Hin as Hf. by rewrite bool_decide_true, Hm in Hf.
Qed.

Lemma all_hold_quiet b key data vs us : bucket_ok b -> Forall2 lists_as vs us -> Forall (fun u => u ∈ present b key) us ->
  all_hold key data vs b = (if bool_decide (Forall (fun u => st_Data u = data) us) then Ok () else Err (Occupied key), b).
Proof.
  intros Hb Hl. induction Hl as [|v u vs us [Ei Es] _ IH]; intros Hin; [done|]. apply Forall_cons in Hin as [Hu Hin]. specialize (IH Hin). cbn [all_hold]. rewrite Es.
  destruct (decide (st_Data u = data)) as [<-|Hne].
  - rewrite Z.eqb_refl. cbn [negb]. unfold io_bind, wrapped. cbn [store_get quiet_store]. rewrite Ei, (found _ _ _ Hb Hu). rewrite Z.ltb_irrefl, bool_decide_true by done. cbn [negb]. rewrite IH.
    f_equal. destruct (decide (Forall (fun x => st_Data x = st_Data u) us)); [by rewrite !bool_decide_true by (try constructor; done)|rewrite !bool_decide_false; [done|by intros [_ ?]%Forall_cons|done]].
  - rewrite (bool_decide_false (Forall _ _)) by by intros [? _]%Forall_cons. destruct (negb _) eqn:E; [done|]. apply negb_false_iff, Z.eqb_eq in E.
    unfold io_bind, wrapped. cbn [store_get quiet_store]. rewrite Ei, (found _ _ _ Hb Hu), E, Z.ltb_irrefl. by rewrite bool_decide_false.
Qed.

Lemma lock_until s now loc : After (sk_RetainUntil loc) (lockUntil s now loc) = false.
Proof. unfold lockUntil, After. apply Z.ltb_ge. destruct (Z.ltb_spec (instant (sk_RetainUntil loc)) (instant (retain_from s now))); lia. Qed.

Lemma confirm_quiet b loc u existed : bucket_ok b -> u ∈ present b (sk_Key loc) ->
  confirm loc (st_ID u) existed b =
  (match underLocked (st_ID u) (st_Lock u) loc with Some e => Err e | None => Ok (Segments.MkReceipt (st_ID u) (lk_RetainUntil (st_Lock u)) existed) end, b).
Proof. intros Hb Hu. unfold confirm, io_bind, wrapped. cbn [store_retention quiet_store]. rewrite (found _ _ _ Hb Hu). by destruct (underLocked _ _ _). Qed.

(** What [Put] does to a key that holds something. *)
Lemma put_held s now loc data b u : bucket_ok b -> sk_Mode loc = "compliance" -> oldest b (sk_Key loc) = Some u ->
  Put s now loc data (sha256_hex data) b =
  (if bool_decide (Forall (fun v => st_Data v = data) (present b (sk_Key loc)))
   then match underLocked (st_ID u) (st_Lock u) loc with Some e => Err e | None => Ok (Segments.MkReceipt (st_ID u) (lk_RetainUntil (st_Lock u)) true) end
   else Err (Occupied (sk_Key loc)), b).
Proof.
  intros Hb Hmode Hu. unfold Put. rewrite !bool_decide_true by done. cbn [negb]. destruct (quiet_versions b (sk_Key loc)) as (kv & Hkv & Hl). unfold io_bind at 1. rewrite Hkv.
  unfold io_bind at 1. rewrite (all_hold_quiet _ _ _ _ _ Hb Hl) by (apply Forall_forall; intros x Hx; by apply list_elem_of_In, in_rev, list_elem_of_In).
  replace (bool_decide (Forall (fun v => st_Data v = data) (rev (present b (sk_Key loc))))) with (bool_decide (Forall (fun v => st_Data v = data) (present b (sk_Key loc))))
    by (apply bool_decide_ext; split; [apply Forall_rev|intros Hr%Forall_rev; by rewrite rev_involutive in Hr]).
  case_bool_decide; [|done]. unfold oldest in Hu. fold (present b (sk_Key loc)) in Hu. pose proof (last_Some_elem_of _ _ Hu) as Hin.
  apply last_Some in Hu as [l E]. rewrite E, rev_app_distr in Hl. cbn in Hl. inversion Hl as [|v u' vs us [Ei _] _ Ev]; subst. rewrite Ei. by apply confirm_quiet.
Qed.

(** [Put] writes a segment once.  In a bucket nobody else writes, a key that
    holds no version gets exactly one, with the segment's bytes, under a
    compliance lock that reaches the record's date and the configured
    retention from now; running it again finds that version and changes
    nothing.  At a key that holds a version nothing is ever written: the
    answer is the oldest version's lock when every version holds the segment,
    and a refusal otherwise. *)
Theorem put_writes_once (s : S3) (now : string) (loc : SealSink) (data : string) (b : bucket)
    (Hok : bucket_ok b) (Hmode : sk_Mode loc = "compliance") :
  let id := fresh_id b in let until := lockUntil s now loc in
  let b' := place b (sk_Key loc) (MkStored id data (MkLock "COMPLIANCE" until) false "") in
  match oldest b (sk_Key loc) with
  | None => Put s now loc data (sha256_hex data) b = (Ok (Segments.MkReceipt id until false), b') /\
      forall later, Put s later loc data (sha256_hex data) b' = (Ok (Segments.MkReceipt id until true), b')
  | Some u => Put s now loc data (sha256_hex data) b =
      (if bool_decide (Forall (fun v => st_Data v = data) (present b (sk_Key loc)))
       then match underLocked (st_ID u) (st_Lock u) loc with Some e => Err e | None => Ok (Segments.MkReceipt (st_ID u) (lk_RetainUntil (st_Lock u)) true) end
       else Err (Occupied (sk_Key loc)), b)
  end.
Proof.
  intros id until b'. destruct (oldest b (sk_Key loc)) as [u|] eqn:Ho; [by apply put_held|]. unfold oldest in Ho. apply last_None in Ho.
  set (mine := MkStored id data _ false "") in b'. assert (Hb' : bucket_ok b') by (eapply step_ok; [apply bucket_put, fresh_id_fresh|done]).
  assert (Hp : present b' (sk_Key loc) = [mine]) by (unfold present, b'; by rewrite versions_place, decide_True, filter_cons, decide_True, Ho).
  assert (Hin : mine ∈ present b' (sk_Key loc)) by (rewrite Hp; by left).
  assert (Hul : underLocked id (MkLock "COMPLIANCE" until) loc = None) by (unfold underLocked; cbn [lk_Mode lk_RetainUntil]; rewrite Hmode; unfold until; by rewrite lock_until).
  split.
  - unfold Put. rewrite !bool_decide_true by done. cbn [negb]. destruct (quiet_versions b (sk_Key loc)) as (kv & Hkv & Hl). unfold io_bind at 1. rewrite Hkv.
    unfold present in Hl. rewrite Ho in Hl. cbn in Hl. inversion Hl as [Ev|]. unfold io_bind at 1. cbn [all_hold]. unfold ret at 1. unfold io_bind at 1, wrapped at 1. cbn [putLocked quiet_store].
    fold id until mine b'. rewrite bool_decide_false by done. destruct (quiet_versions b' (sk_Key loc)) as (kv' & Hkv' & Hl'). unfold io_bind at 1, wrapped at 1. rewrite Hkv'.
    rewrite Hp in Hl'. cbn in Hl'. inversion Hl' as [|v u vs us [Ei _] _ Ev']; subst. rewrite bool_decide_true by done. pose proof (confirm_quiet b' loc mine false Hb' Hin) as Hc.
    cbn [st_ID mine st_Lock] in Hc. by rewrite Hc, Hul.
  - intros later. rewrite (put_held s later loc data b' mine Hb' Hmode) by (unfold oldest; fold (present b' (sk_Key loc)); by rewrite Hp).
    rewrite Hp, bool_decide_true by (by repeat constructor). cbn [mine st_ID st_Lock]. by rewrite Hul.
Qed.

(** The date a locator carries is after the sealing, as a seal's record must
    have it. *)
Lemma locator_after (s : S3) (logID : string) (n : Z) (t : string) : 10 ^ 9 <= s3_retention s ->
  in_years (MkTime (instant t - instant t mod 10 ^ 9 + s3_retention s) true) -> After (sk_RetainUntil (Locator s logID n t)) t = true.
Proof.
  intros Hr Hy. unfold After, Locator, retain_from. cbn [sk_RetainUntil]. rewrite instant_format by done. cbn [gt_ns].
  pose proof (Z.mod_pos_bound (instant t) (10 ^ 9) ltac:(lia)). apply Z.ltb_lt. lia.
Qed.

(** ** Examples *)
Definition sx : S3 := MkS3 "https://s3.example/bkt/led" "bkt" "led" "us-east-1" (24 * 3600 * 10 ^ 9).
Definition sx_at : string := "2026-01-02T03:04:05.678Z".
Definition sx_loc : SealSink := Locator sx "id" 1 sx_at.
Definition sk_empty : bucket := MkBucket ∅ [] (instant sx_at).
Definition sx_put : result sink_error PutReceipt * bucket := Put sx sx_at sx_loc "line" (sha256_hex "line") sk_empty.
Definition sx_rcpt : PutReceipt := Segments.MkReceipt "v" "2026-01-03T03:04:05Z" false.
Definition sx_foreign : stored := MkStored "w" "other" (MkLock "COMPLIANCE" "2030-01-01T00:00:00Z") false "".
Definition sk_later : bucket := MkBucket (bk_objects (place sx_put.2 (sk_Key sx_loc) sx_foreign)) ["w"; "v"] (instant "2026-01-03T00:00:00Z").

Example regions :
  map awsRegionHostRE ["s3.eu-central-1.amazonaws.com"; "s3-us-gov-west-1.amazonaws.com"; "s3.cn-north-1.amazonaws.com.cn"; "s3-external-1.amazonaws.com"; "s3.dualstack.us-east-1.amazonaws.com"]
  = [Some "eu-central-1"; Some "us-gov-west-1"; Some "cn-north-1"; None; None].
Proof. vm_compute. reflexivity. Qed.
Example located : (sk_Key sx_loc, sk_RetainUntil sx_loc, Hostname "[::1]:9000", Hostname "minio:9000") = ("led/id/seg-000001", "2026-01-03T03:04:05Z", "::1", "minio").
Proof. vm_compute. reflexivity. Qed.

Lemma sx_ok : bucket_ok sk_empty.
Proof. split; [intros key; constructor|intros key v Hv; by apply elem_of_nil in Hv]. Qed.
Lemma confirmed_copy_stands_witness :
  stands sk_later "led/id/seg-000001" "v" "line" (instant "2026-01-03T03:04:05Z").
Proof.
  apply (confirmed_copy_stands sx sx_at sx_loc "line" (sha256_hex "line") sk_empty sx_put.2 sx_rcpt sk_later).
  - exact sx_ok.
  - vm_compute. reflexivity.
  - eapply rtc_l; [apply (bucket_put _ (sk_Key sx_loc) sx_foreign); vm_compute; set_solver|]. eapply rtc_l; [apply (bucket_tick _ (instant "2026-01-03T00:00:00Z")); by vm_compute|].
    replace (bk_minted (place (view sx_put.2) (sk_Key sx_loc) sx_foreign)) with ["w"; "v"] by (by vm_compute). apply rtc_refl.
  - by vm_compute.
Defined.

Lemma put_writes_once_witness : Put sx "2027-01-01T00:00:00Z" sx_loc "line" (sha256_hex "line") sx_put.2 = (Ok (Segments.MkReceipt "v" "2026-01-03T03:04:05Z" true), sx_put.2).
Proof. exact (proj2 (put_writes_once sx sx_at sx_loc "line" sk_empty sx_ok eq_refl) "2027-01-01T00:00:00Z"). Defined.
