(* ===== verification/SigV4.v ===== *)
(** * Signing requests to the store ([internal/sink/sigv4.go])

    AWS Signature Version 4: the canonical request, the string to sign, the
    signing key, the [Authorization] header, executable down to the digest.
    A request is its method, the parts of its URL and its headers; the header
    map's keys are in canonical form, and its iteration order does not matter
    because the names are sorted.

    Path and query are encoded once: what is signed is what is sent, and a
    canonical request determines the method, the path, the parameters, the
    headers and the body's digest. *)
From S2P Require Import Prelude Sha256 GoStr Json Paths Ledger Config Origin Event ControlRecord Manifest Attest Times Signed Utf8 Credentials Minting.

(** ** [crypto/hmac] over SHA-256 *)
Fixpoint xor_with (b : Z) (s : string) : string := match s with EmptyString => "" | String c r => String (byte_of (Z.lxor (byte_val c) b)) (xor_with b r) end.
Fixpoint nul_bytes (n : nat) : string := match n with O => "" | S n => String nul (nul_bytes n) end.
Definition hmac_block (key : string) : string :=
  let k := if (64 <? String.length key)%nat then sha256_sum key else key in
  k +:+ nul_bytes (64 - String.length k).
Definition hmacSHA256 (key data : string) : string :=
  let k := hmac_block key in sha256_sum (xor_with 92 k +:+ sha256_sum (xor_with 54 k +:+ data)).

(** ** URI encoding *)
Definition sig_hex (n : Z) : ascii := byte_of (if n <? 10 then 48 + n else 55 + n).
Definition sig_unreserved (c : ascii) : bool :=
  let v := byte_val c in in_range 65 90 v || in_range 97 122 v || in_range 48 57 v || (v =? 45) || (v =? 95) || (v =? 46) || (v =? 126).
Fixpoint uriEncode (s : string) : string :=
  match s with
  | EmptyString => ""
  | String c r =>
      if sig_unreserved c then String c (uriEncode r)
      else String "%" (String (sig_hex (Z.shiftr (byte_val c) 4)) (String (sig_hex (Z.land (byte_val c) 15)) (uriEncode r)))
  end.
Definition uriEncodePath (p : string) : string := join "/" (map uriEncode (split_on slash p)).

(** [url.PathUnescape] *)
Fixpoint PathUnescape (s : string) : option string :=
  match s with
  | EmptyString => Some ""
  | String "%" r =>
      match r with
      | String h (String l r') =>
          match hex_val h, hex_val l with
          | Some a, Some b => String (byte_of (16 * a + b)) <$> PathUnescape r'
          | _, _ => None
          end
      | _ => None
      end
  | String c r => String c <$> PathUnescape r
  end.
Definition pathUnescape (s : string) : string := default s (PathUnescape s).

(** ** Queries *)
Definition Cut_eq (p : string) : string * string := match Cut p "=" with Some (a, b) => (a, b) | None => (p, "") end.
Definition pair_le (a b : string * string) : bool := if bool_decide (a.1 = b.1) then String.leb a.2 b.2 else String.leb a.1 b.1.
Fixpoint insert_pair (x : string * string) (l : list (string * string)) : list (string * string) :=
  match l with [] => [x] | y :: r => if pair_le x y then x :: l else y :: insert_pair x r end.
Fixpoint sort_pairs (l : list (string * string)) : list (string * string) :=
  match l with [] => [] | x :: r => insert_pair x (sort_pairs r) end.
Definition param_text (p : string * string) : string := p.1 +:+ "=" +:+ p.2.
Definition query_pairs (raw : string) : list (string * string) :=
  map (fun p => let '(name, value) := Cut_eq p in (uriEncode (pathUnescape name), uriEncode (pathUnescape value)))
    (List.filter (fun p => negb (bool_decide (p = ""))) (split_on "&"%char raw)).
Definition canonicalQuery (raw : string) : string :=
  if bool_decide (raw = "") then "" else join "&" (map param_text (sort_pairs (query_pairs raw))).

(** ** Requests *)
Abbreviation Header := (gmap string (list string)).
Record request : Type := MkRequest { rq_Method : string; rq_URL : url_parts; rq_Header : Header }.

(** [textproto.CanonicalMIMEHeaderKey] of a token; any other name is kept. *)
Definition is_token (c : ascii) : bool :=
  let v := byte_val c in in_range 48 57 v || in_range 65 90 v || in_range 97 122 v || str_contains "!#$%&'*+-.^_`|~" (String c "").
Definition raise (c : ascii) : ascii := let v := byte_val c in if in_range 97 122 v then byte_of (v - 32) else c.
Fixpoint canonical_letters (up : bool) (s : string) : string :=
  match s with
  | EmptyString => ""
  | String c r => String (if up then raise c else lower c) (canonical_letters (ascii_eqb c "-"%char) r)
  end.
Definition CanonicalHeaderKey (s : string) : string := if all_chars is_token s then canonical_letters true s else s.
Definition header_values (h : Header) (name : string) : list string := default [] (h !! CanonicalHeaderKey name).

Section signing.
  Context `{GoLower}.

Definition signedHeaderNames (r : request) : list string := sort_strings (map (fun kv => ToLower kv.1) (map_to_list (rq_Header r)) ++ ["host"]).
Definition header_line (r : request) (name : string) : string :=
  let value := if bool_decide (name = "host") then u_Host (rq_URL r) else join "," (header_values (rq_Header r) name) in
  name +:+ ":" +:+ join " " (Fields value).
Definition canonicalRequest (r : request) (signedHeaders : list string) (payloadHash : string) : string :=
  rq_Method r +:+ nl +:+ uriEncodePath (u_Path (rq_URL r)) +:+ nl +:+ canonicalQuery (u_RawQuery (rq_URL r)) +:+ nl +:+
  join "" (map (fun name => header_line r name +:+ nl) signedHeaders) +:+ nl +:+ join ";" signedHeaders +:+ nl +:+ payloadHash.

(** [now.Format] of the two layouts, the instant in UTC. *)
Definition amz_day (now : Z) : string :=
  let '(y, yday) := year_day (now / 10 ^ 9 / 86400) in
  let m := month_of y yday in year_text y +:+ digits_of 2 m +:+ digits_of 2 (yday - month_days y m + 1).
Definition amz_date (now : Z) : string :=
  let s := now / 10 ^ 9 mod 86400 in
  amz_day now +:+ "T" +:+ digits_of 2 (s / 3600) +:+ digits_of 2 (s / 60 mod 60) +:+ digits_of 2 (s mod 60) +:+ "Z".
Definition sigV4Algorithm : string := "AWS4-HMAC-SHA256".
Definition credentialScope (now : Z) (region service : string) : string := amz_day now +:+ "/" +:+ region +:+ "/" +:+ service +:+ "/aws4_request".
Definition stringToSign (now : Z) (scope canonicalHash : string) : string :=
  sigV4Algorithm +:+ nl +:+ amz_date now +:+ nl +:+ scope +:+ nl +:+ canonicalHash.
Definition signingKey (secret date region service : string) : string :=
  hmacSHA256 (hmacSHA256 (hmacSHA256 (hmacSHA256 ("AWS4" +:+ secret) date) region) service) "aws4_request".
Definition with_header (r : request) (name value : string) : request := MkRequest (rq_Method r) (rq_URL r) (<[name:=[value]]> (rq_Header r)).
Definition signV4 (r : request) (kp : KeyPair) (region service : string) (now : Z) (payloadHash : string) : request :=
  let r := with_header r "X-Amz-Date" (amz_date now) in
  let r := if bool_decide (kp_Session kp = "") then r else with_header r "X-Amz-Security-Token" (kp_Session kp) in
  let signed := signedHeaderNames r in
  let scope := credentialScope now region service in
  let sts := stringToSign now scope (sha256_hex (canonicalRequest r signed payloadHash)) in
  let sig := hex_encode (hmacSHA256 (signingKey (kp_Secret kp) (amz_day now) region service) sts) in
  with_header r "Authorization" (sigV4Algorithm +:+ " Credential=" +:+ kp_ID kp +:+ "/" +:+ scope +:+ ", SignedHeaders=" +:+ join ";" signed +:+ ", Signature=" +:+ sig).
End signing.

(** The published vectors. *)
Definition vx_lower : GoLower := {| lower_rune := fun r => r |}.
Definition vx_key (session : string) : KeyPair := MkKeyPair "AKIDEXAMPLE" "wJalrXUtnFEMI/K7MDENG+bPxRfiCYEXAMPLEKEY" session.
Definition vx_sign (method path query session : string) : option (list string) :=
  let r := MkRequest method (MkURL "https" "example.amazonaws.com" false query false "" path) ∅ in
  rq_Header (@signV4 vx_lower r (vx_key session) "us-east-1" "service" (instant "2015-08-30T12:36:00Z") (sha256_hex "")) !! "Authorization".
Example vector_query_order : vx_sign "GET" "/" "Param2=value2&Param1=value1" "" = Some
  ["AWS4-HMAC-SHA256 Credential=AKIDEXAMPLE/20150830/us-east-1/service/aws4_request, SignedHeaders=host;x-amz-date, Signature=b97d918cfa904a5beff61c982a1b6f458b799221646efd99d3219ec94cdf2500"].
Proof. vm_compute. reflexivity. Qed.
Example vector_unreserved : vx_sign "GET" "/-._~0123456789ABCDEFGHIJKLMNOPQRSTUVWXYZabcdefghijklmnopqrstuvwxyz" "" "" = Some
  ["AWS4-HMAC-SHA256 Credential=AKIDEXAMPLE/20150830/us-east-1/service/aws4_request, SignedHeaders=host;x-amz-date, Signature=07ef7494c76fa4850883e2b006601f940f8a34d404d0cfa977f52a65bbf5f24f"].
Proof. vm_compute. reflexivity. Qed.
Example vector_session : vx_sign "POST" "/" "" "AQoDYXdzEPT//////////wEXAMPLEtc764bNrC9SAPBSM22wDOk4x4HIZ8j4FZTwdQWLWsKWHGBuFqwAeMicRXmxfpSPfIeoIYRqTflfKD8YUuwthAx7mSEI/qkPpKPi/kMcGdQrmGdeehM4IC1NtBmUpp2wUE8phUZampKsburEDy0KPkyQDYwT7WZ0wq5VSXDvp75YU9HFvlRd8Tx6q6fE8YQcHNVXAkiY9q6d+xo0rKwT38xVqr7ZD0u0iPPkUL64lIZbqBAz+scqKmlzm8FDrypNC9Yjc8fPOLn9FX9KSYvKTr4rvx3iSIlTJabIQwj2ICCR/oLxBA==" = Some
  ["AWS4-HMAC-SHA256 Credential=AKIDEXAMPLE/20150830/us-east-1/service/aws4_request, SignedHeaders=host;x-amz-date;x-amz-security-token, Signature=85d96828115b5dc0cfc3bd16ad9e210dd772bbebba041836c64533a82be05ead"].
Proof. vm_compute. reflexivity. Qed.

(** ** What is encoded once is decoded once *)
Definition enc_char (c : ascii) : bool := sig_unreserved c || ascii_eqb c "%"%char.

Definition byte_decodes (c : ascii) : bool :=
  let h := Z.shiftr (byte_val c) 4 in let l := Z.land (byte_val c) 15 in
  bool_decide (hex_val (sig_hex h) = Some h) && bool_decide (hex_val (sig_hex l) = Some l) && ascii_eqb (byte_of (16 * h + l)) c &&
  sig_unreserved (sig_hex h) && sig_unreserved (sig_hex l).
Lemma byte_decodes_all c : byte_decodes c = true.
Proof. destruct c as [[] [] [] [] [] [] [] []]; vm_compute; reflexivity. Qed.
Lemma hex_back c : hex_val (sig_hex (Z.shiftr (byte_val c) 4)) = Some (Z.shiftr (byte_val c) 4) /\ hex_val (sig_hex (Z.land (byte_val c) 15)) = Some (Z.land (byte_val c) 15) /\
  byte_of (16 * Z.shiftr (byte_val c) 4 + Z.land (byte_val c) 15) = c /\ sig_unreserved (sig_hex (Z.shiftr (byte_val c) 4)) = true /\ sig_unreserved (sig_hex (Z.land (byte_val c) 15)) = true.
Proof. pose proof (byte_decodes_all c) as Hc. unfold byte_decodes in Hc. bool_prop. apply ascii_eqb_true in H2. done. Qed.
Lemma unreserved_plain c r : sig_unreserved c = true -> PathUnescape (String c r) = String c <$> PathUnescape r.
Proof.
  intros Hc. assert (Hne : c <> "%"%char) by (intros ->; discriminate Hc). clear Hc. destruct c as [[] [] [] [] [] [] [] []]; first [reflexivity|by destruct Hne].
Qed.

Lemma unescape_app s t : PathUnescape (uriEncode s +:+ t) = (fun u => s +:+ u) <$> PathUnescape t.
Proof.
  induction s as [|c s IH]; [change (uriEncode "" +:+ t) with t; destruct (PathUnescape t); reflexivity|]. cbn [uriEncode]. destruct (sig_unreserved c) eqn:E.
  - rewrite app_cons_str, unreserved_plain, IH by done. by destruct (PathUnescape t).
  - rewrite !app_cons_str. destruct (hex_back c) as (Eh & El & Ec & _). cbn [PathUnescape]. rewrite Eh, El, IH, Ec. by destruct (PathUnescape t).
Qed.
Lemma unescape_encode s : PathUnescape (uriEncode s) = Some s.
Proof. rewrite <- (app_nil_str (uriEncode s)), unescape_app. cbn. by rewrite app_nil_str. Qed.
Lemma uriEncode_inj s t : uriEncode s = uriEncode t -> s = t.
Proof. intros E. pose proof (unescape_encode s) as Hs. rewrite E, unescape_encode in Hs. by injection Hs. Qed.

Lemma encode_chars s : all_chars enc_char (uriEncode s) = true.
Proof.
  induction s as [|c s IH]; [done|]. cbn [uriEncode]. destruct (sig_unreserved c) eqn:E; cbn [all_chars]; rewrite IH; unfold enc_char; [by rewrite E|].
  destruct (hex_back c) as (_ & _ & _ & Eh & El). by rewrite Eh, El.
Qed.
Lemma chars_no_byte p c s : all_chars p s = true -> p c = false -> has_byte c s = false.
Proof.
  intros Hs Hc. induction s as [|d s IH]; [done|]. cbn in *. apply andb_prop in Hs as [Hd Hs]. rewrite (IH Hs), orb_false_r. apply ascii_eqb_false. congruence.
Qed.
Lemma encode_no_byte c s : enc_char c = false -> has_byte c (uriEncode s) = false.
Proof. apply chars_no_byte, encode_chars. Qed.

Lemma split_join c l : l <> [] -> Forall (fun e => has_byte c e = false) l -> split_on c (join (String c "") l) = l.
Proof.
  intros Hne Hl. induction Hl as [|e l He Hl IH]; [done|]. destruct l as [|e' l].
  - clear IH Hl. cbn [join]. induction e as [|x e IH]; [done|]. cbn in He. apply orb_false_iff in He as [Hx He]. cbn [split_on].
    by rewrite (IH ltac:(done) He), Hx.
  - change (join (String c "") (e :: e' :: l)) with (e +:+ String c (join (String c "") (e' :: l))). by rewrite split_on_app, IH by done.
Qed.
Lemma join_inj c l k : Forall (fun e => has_byte c e = false /\ e <> "") l -> Forall (fun e => has_byte c e = false /\ e <> "") k ->
  join (String c "") l = join (String c "") k -> l = k.
Proof.
  assert (Hnil : forall l, Forall (fun e => has_byte c e = false /\ e <> "") l -> join (String c "") l = "" -> l = []).
  { intros [|e [|e' r]] Hl; [done|intros He; apply Forall_cons in Hl as [[_ ?] _]; by cbn in He|].
    change (join (String c "") (e :: e' :: r)) with (e +:+ String c (join (String c "") (e' :: r))). apply Forall_cons in Hl as [[_ ?] _]. by destruct e. }
  intros Hl Hk E. destruct l as [|e l]; [symmetry; by apply Hnil|]. destruct k as [|e' k]; [by apply Hnil|].
  assert (Hfree : forall l, Forall (fun e => has_byte c e = false /\ e <> "") l -> Forall (fun e => has_byte c e = false) l) by (intros ? Hf; eapply Forall_impl; [exact Hf|by intros ? [? _]]).
  rewrite <- (split_join c (e' :: k)) by auto. rewrite <- E. symmetry. by apply split_join; auto.
Qed.

(** The path: one encoding, undone by one decoding. *)
Lemma split_nonempty c s : split_on c s <> [].
Proof. destruct s as [|x s]; [done|]. cbn. destruct (ascii_eqb c x); [done|]. by destruct (split_on c s). Qed.
Lemma join_unescape l : PathUnescape (join "/" (map uriEncode l)) = Some (join "/" l).
Proof.
  induction l as [|e [|e' l] IH]; [done|apply unescape_encode|]. change (join "/" (map uriEncode (e :: e' :: l))) with (uriEncode e +:+ String "/" (join "/" (map uriEncode (e' :: l)))).
  rewrite unescape_app. change (PathUnescape (String "/" ?r)) with (String "/" <$> PathUnescape r). by rewrite IH.
Qed.
Lemma unescape_path p : PathUnescape (uriEncodePath p) = Some p.
Proof. unfold uriEncodePath. rewrite join_unescape. f_equal. apply join_split. Qed.
Lemma uriEncodePath_inj p q : uriEncodePath p = uriEncodePath q -> p = q.
Proof. intros E. pose proof (unescape_path p) as Hp. rewrite E, unescape_path in Hp. by injection Hp. Qed.
Lemma path_no_byte c p : enc_char c = false -> c <> slash -> has_byte c (uriEncodePath p) = false.
Proof.
  intros Hc Hs. unfold uriEncodePath. generalize (split_on slash p). intros l. induction l as [|e [|e' l] IH]; [done|by apply encode_no_byte|].
  change (join "/" (map uriEncode (e :: e' :: l))) with (uriEncode e +:+ String slash (join "/" (map uriEncode (e' :: l)))).
  rewrite has_byte_app. cbn [has_byte]. rewrite IH, encode_no_byte by done. cbn. rewrite orb_false_r. by apply ascii_eqb_false.
Qed.

(** ** The query that is sent and the query that is signed *)

(** [queryString] of [s3.go]: encoded once, in the order given; a pair with no
    value is a bare name. *)
Definition query_part (p : string * string) : string := if bool_decide (p.2 = "") then uriEncode p.1 else uriEncode p.1 +:+ "=" +:+ uriEncode p.2.
Definition queryString (pairs : list (string * string)) : string := join "&" (map query_part pairs).
Definition encoded (p : string * string) : string * string := (uriEncode p.1, uriEncode p.2).
Definition named (pairs : list (string * string)) : Prop := Forall (fun p => p.1 <> "") pairs.

Definition pathUnescape_pair (p : string * string) : string * string := (pathUnescape p.1, pathUnescape p.2).
Lemma cut_byte c a b : has_byte c a = false -> Cut (a +:+ String c b) (String c "") = Some (a, b).
Proof.
  induction a as [|x a IH]; intros Ha.
  - change ("" +:+ String c b) with (String c b). cbn [Cut cut_prefix]. by rewrite ascii_eqb_refl.
  - cbn in Ha. apply orb_false_iff in Ha as [Hx Ha]. rewrite app_cons_str. cbn [Cut cut_prefix]. rewrite Hx. by rewrite (IH Ha).
Qed.
Lemma encode_nonempty s : s <> "" -> uriEncode s <> "".
Proof. intros Hs E. apply Hs. by apply uriEncode_inj. Qed.
Lemma part_nonempty p : p.1 <> "" -> query_part p <> "".
Proof. intros Hp. unfold query_part. apply encode_nonempty in Hp. case_bool_decide; [done|]. by destruct (uriEncode p.1). Qed.
Lemma part_no_amp p : has_byte "&"%char (query_part p) = false.
Proof. unfold query_part. case_bool_decide; [by apply encode_no_byte|]. rewrite !has_byte_app, !encode_no_byte by done. done. Qed.
Lemma cut_none c s : has_byte c s = false -> Cut s (String c "") = None.
Proof.
  induction s as [|x s IH]; [done|]. cbn [has_byte]. intros [Hx Hs]%orb_false_iff. cbn [Cut cut_prefix]. rewrite Hx. by rewrite IH.
Qed.
Lemma cut_part p : Cut_eq (query_part p) = (uriEncode p.1, uriEncode p.2).
Proof.
  unfold Cut_eq, query_part. case_bool_decide as E.
  - rewrite cut_none by (by apply encode_no_byte). by rewrite E.
  - change ("=" +:+ uriEncode p.2) with (String "=" (uriEncode p.2)). by rewrite cut_byte by (by apply encode_no_byte).
Qed.

(** Parsing the query that is sent gives back its parameters. *)
Lemma query_pairs_sent pairs : named pairs -> query_pairs (queryString pairs) = map encoded pairs.
Proof.
  intros Hn. destruct pairs as [|p ps]; [done|]. unfold query_pairs, queryString.
  rewrite split_join; [|done|by apply Forall_map, Forall_true, part_no_amp]. revert Hn. generalize (p :: ps). clear p ps. intros l. induction l as [|p l IH]; [done|].
  intros [Hp Hl]%Forall_cons. cbn [map List.filter]. rewrite bool_decide_false by (by apply part_nonempty). cbn [negb map]. rewrite (IH Hl). f_equal. rewrite cut_part.
  unfold pathUnescape. by rewrite !unescape_encode.
Qed.

Lemma insert_pair_perm x l : insert_pair x l ≡ₚ x :: l.
Proof. induction l as [|y l IH]; [done|]. cbn. destruct (pair_le x y); [done|]. rewrite IH. constructor. Qed.
Lemma sort_pairs_perm l : sort_pairs l ≡ₚ l.
Proof. induction l as [|x l IH]; [done|]. cbn. by rewrite insert_pair_perm, IH. Qed.

Lemma canonical_sent pairs : named pairs -> canonicalQuery (queryString pairs) = join "&" (map param_text (sort_pairs (map encoded pairs))).
Proof.
  intros Hn. unfold canonicalQuery. rewrite query_pairs_sent by done. case_bool_decide as E; [|done]. destruct pairs as [|p l]; [done|].
  exfalso. unfold queryString in E. apply Forall_cons in Hn as [Hp _]. apply part_nonempty in Hp. cbn [map join] in E. destruct (map query_part l); [done|]. by destruct (query_part p).
Qed.

Lemma cut_text p : has_byte "="%char p.1 = false -> Cut (param_text p) "=" = Some p.
Proof. destruct p as [a b]. intros Ha. unfold param_text. change ("=" +:+ (a, b).2) with (String "=" b). by apply cut_byte. Qed.

(** The canonical query names the parameters, whatever their order. *)
Lemma canonical_query_binds ps qs : named ps -> named qs -> canonicalQuery (queryString ps) = canonicalQuery (queryString qs) -> ps ≡ₚ qs.
Proof.
  intros Hp Hq. rewrite !canonical_sent by done. intros E.
  assert (Hf : forall l, Forall (fun e => has_byte "&"%char e = false /\ e <> "") (map param_text (sort_pairs (map encoded l)))).
  { intros l. apply Forall_map, Forall_forall. intros x Hx. rewrite sort_pairs_perm in Hx. apply list_elem_of_fmap in Hx as (p & -> & _). unfold param_text, encoded. cbn [fst snd]. split; [|by destruct (uriEncode p.1)].
    by rewrite !has_byte_app, !encode_no_byte. }
  apply join_inj in E; [|apply Hf..].
  assert (Hs : sort_pairs (map encoded ps) = sort_pairs (map encoded qs)).
  { assert (Hi : forall l k : list (string * string), Forall (fun p => has_byte "="%char p.1 = false) l -> Forall (fun p => has_byte "="%char p.1 = false) k -> map param_text l = map param_text k -> l = k).
    { intros l. induction l as [|x l IH]; intros [|y k] Hl Hk; [done..|]. cbn [map]. intros [= Exy Elk]. apply Forall_cons in Hl as [Hx Hl], Hk as [Hy Hk]. f_equal; [|by apply IH].
      apply cut_text in Hx, Hy. rewrite Exy in Hx. congruence. }
    apply Hi; [..|done]; apply Forall_forall; intros x Hx; rewrite sort_pairs_perm in Hx; apply list_elem_of_fmap in Hx as (p & -> & _); by apply encode_no_byte. }
  assert (Hperm : map encoded ps ≡ₚ map encoded qs) by (by rewrite <- (sort_pairs_perm (map encoded ps)), Hs, sort_pairs_perm).
  apply (Permutation_map pathUnescape_pair) in Hperm. rewrite !map_map in Hperm.
  assert (Hid : forall l, map (fun x => pathUnescape_pair (encoded x)) l = l).
  { intros l. rewrite <- (map_id l) at 2. apply map_ext. intros [a b]. unfold pathUnescape_pair, pathUnescape. cbn. by rewrite !unescape_encode. }
  by rewrite !Hid in Hperm.
Qed.

(** ** The canonical request *)
Lemma chunks_free c s : has_byte c s = false -> Forall (fun rb => has_byte c rb.2 = false) (chunks s).
Proof.
  induction s as [s IH] using (induction_ltof1 _ String.length). unfold ltof in IH. destruct s as [|x s]; [constructor|]. cbn [has_byte chunks]. intros [Hx Hs]%orb_false_iff.
  destruct (utf8_size x s) as [|[|[|[|[|?]]]]]; repeat match goal with
    | |- Forall _ (match ?r with _ => _ end) => destruct r; cbn [has_byte] in *; repeat match goal with H : _ || _ = false |- _ => apply orb_false_iff in H as [? ?] end
    end; (constructor; [cbn [snd has_byte]; by rewrite Hx; repeat match goal with H : ascii_eqb _ _ = false |- _ => rewrite H; clear H end|]);
    (apply IH; [cbn [String.length]; lia|cbn [has_byte]; repeat match goal with H : ascii_eqb _ _ = false |- _ => rewrite H; clear H end; done]).
Qed.
Lemma fields_free c s : has_byte c s = false -> Forall (fun f => has_byte c f = false) (Fields s).
Proof.
  intros Hs. apply chunks_free in Hs. unfold Fields. assert (Hcur : has_byte c "" = false) by done. revert Hcur. generalize "". revert Hs.
  induction (chunks s) as [|[r b] cs IH]; intros Hs cur Hc; cbn [fields_loop].
  - case_bool_decide; repeat constructor; done.
  - apply Forall_cons in Hs as [Hb Hs]. cbn [snd] in Hb. destruct (is_space r); [|apply (IH Hs); by rewrite has_byte_app, Hc, Hb].
    apply Forall_app. split; [case_bool_decide; repeat constructor; done|by apply (IH Hs)].
Qed.
Lemma join_free c sep l : has_byte c sep = false -> Forall (fun f => has_byte c f = false) l -> has_byte c (join sep l) = false.
Proof.
  intros Hsep Hl. induction Hl as [|x l Hx Hl IH]; [done|]. destruct l as [|y l]; [done|]. change (join sep (x :: y :: l)) with (x +:+ sep +:+ join sep (y :: l)).
  by rewrite !has_byte_app, Hx, Hsep, IH.
Qed.

Definition one_line (s : string) : Prop := has_byte newline s = false.
Lemma query_one_line raw : has_byte newline (canonicalQuery raw) = false.
Proof.
  unfold canonicalQuery. case_bool_decide; [done|]. apply join_free; [done|]. apply Forall_map, Forall_forall. intros p Hp. rewrite sort_pairs_perm in Hp.
  unfold query_pairs in Hp. apply list_elem_of_fmap in Hp as (x & -> & _). destruct (Cut_eq x) as [n v]. unfold param_text. cbn [fst snd]. by rewrite !has_byte_app, !encode_no_byte.
Qed.

Section binding.
  Context `{GoLower}.

(** A request a client sends: no newline in its method, host, header names or
    values (net/http refuses others). *)
Record sendable (r : request) : Prop := {
  sd_method : one_line (rq_Method r);
  sd_host : one_line (u_Host (rq_URL r));
  sd_names : Forall one_line (signedHeaderNames r);
  sd_values : forall name, Forall one_line (header_values (rq_Header r) name);
}.

Lemma header_line_free r name : sendable r -> one_line name -> one_line (header_line r name).
Proof.
  intros Hr Hn. unfold one_line, header_line. rewrite !has_byte_app. unfold one_line in Hn. rewrite Hn. cbn [has_byte orb ascii_eqb]. apply join_free; [done|]. apply fields_free.
  case_bool_decide; [apply (sd_host _ Hr)|]. apply join_free; [done|]. apply (sd_values _ Hr).
Qed.

(** The canonical request is these lines. *)
Definition canonical_lines (r : request) (names : list string) (hash : string) : list string :=
  [rq_Method r; uriEncodePath (u_Path (rq_URL r)); canonicalQuery (u_RawQuery (rq_URL r))] ++ map (header_line r) names ++ [""; join ";" names; hash].
Lemma join_plain_cons x l : join "" (x :: l) = x +:+ join "" l.
Proof. destruct l; [by rewrite app_nil_str|done]. Qed.
Lemma join_nl_cons x l : l <> [] -> join nl (x :: l) = x +:+ nl +:+ join nl l.
Proof. by destruct l. Qed.
Lemma join_lines r names l : l <> [] -> join "" (map (fun name => header_line r name +:+ nl) names) +:+ join nl l = join nl (map (header_line r) names ++ l).
Proof.
  intros Hl. induction names as [|n names IH]; [done|]. cbn [map app]. rewrite join_plain_cons, join_nl_cons by (by destruct names). by rewrite !app_assoc_str, IH.
Qed.
Lemma canonical_is_lines r names hash : canonicalRequest r names hash = join nl (canonical_lines r names hash).
Proof.
  unfold canonical_lines. cbn [app]. rewrite !join_nl_cons by (by destruct names). rewrite <- join_lines by done. done.
Qed.
Lemma canonical_lines_free r names hash : sendable r -> Forall one_line names -> one_line hash -> Forall (fun e => has_byte newline e = false) (canonical_lines r names hash).
Proof.
  intros Hr Hn Hh. unfold canonical_lines. repeat apply Forall_cons_2; [apply (sd_method _ Hr)|by apply path_no_byte|apply query_one_line|].
  apply Forall_app. split; [apply Forall_map; eapply Forall_impl; [exact Hn|]; intros ? ?; by apply header_line_free|]. repeat constructor; [|done]. by apply join_free.
Qed.

(** A signature is about one request.  Two requests with the same canonical
    request have the same method, the same path, the same parameters, the same
    signed headers with the same values up to spacing, and the same digest of
    the body: no two different requests share what is signed. *)
Theorem canonical_request_binds (r1 r2 : request) (h1 h2 : string) (ps1 ps2 : list (string * string))
    (H1 : sendable r1) (H2 : sendable r2) (Hh1 : one_line h1) (Hh2 : one_line h2)
    (Hq1 : u_RawQuery (rq_URL r1) = queryString ps1) (Hq2 : u_RawQuery (rq_URL r2) = queryString ps2) (Hn1 : named ps1) (Hn2 : named ps2)
    (Heq : canonicalRequest r1 (signedHeaderNames r1) h1 = canonicalRequest r2 (signedHeaderNames r2) h2) :
  rq_Method r1 = rq_Method r2 /\ u_Path (rq_URL r1) = u_Path (rq_URL r2) /\ ps1 ≡ₚ ps2 /\
  map (header_line r1) (signedHeaderNames r1) = map (header_line r2) (signedHeaderNames r2) /\ h1 = h2.
Proof.
  rewrite !canonical_is_lines in Heq. apply (f_equal (split_on newline)) in Heq.
  rewrite !split_join in Heq by (done || (apply canonical_lines_free; [done|by apply sd_names|done])).
  unfold canonical_lines in Heq. cbn [app] in Heq. injection Heq as Em Ep Eq Erest. apply uriEncodePath_inj in Ep. rewrite Hq1, Hq2 in Eq. apply canonical_query_binds in Eq; [|done..].
  apply app_inj_2 in Erest as [Eh Et]; [|done]. injection Et as _ Eh'. done.
Qed.
End binding.

(** Two spellings of one request: the parameters in another order, a header
    value spaced differently. *)
Definition vx_request (ps : list (string * string)) (tag : string) : request :=
  MkRequest "GET" (MkURL "https" "s3.example" false (queryString ps) false "" "/bkt/my key") {["X-Tag" := [tag]]}.
Lemma vx_sendable ps tag : has_byte newline tag = false -> @sendable vx_lower (vx_request ps tag).
Proof.
  intros Ht. assert (En : @signedHeaderNames vx_lower (vx_request ps tag) = ["host"; "x-tag"]) by (vm_compute; reflexivity).
  split; [reflexivity|reflexivity|rewrite En; repeat constructor|]. intros name. unfold header_values, vx_request. cbn [rq_Header].
  destruct (decide (CanonicalHeaderKey name = "X-Tag")) as [->|Hne]; [rewrite lookup_singleton_eq; by repeat constructor|rewrite lookup_singleton_ne by done; constructor].
Qed.
Lemma canonical_request_binds_witness :
  [("versions", ""); ("prefix", "a b")] ≡ₚ [("prefix", "a b"); ("versions", "")].
Proof.
  destruct (@canonical_request_binds vx_lower (vx_request [("versions", ""); ("prefix", "a b")] "x  y") (vx_request [("prefix", "a b"); ("versions", "")] " x y") (sha256_hex "") (sha256_hex "")
    [("versions", ""); ("prefix", "a b")] [("prefix", "a b"); ("versions", "")]) as (_ & _ & Hp & _).
  - by apply vx_sendable.
  - by apply vx_sendable.
  - vm_compute. reflexivity.
  - vm_compute. reflexivity.
  - reflexivity.
  - reflexivity.
  - by repeat constructor.
  - by repeat constructor.
  - vm_compute. reflexivity.
  - exact Hp.
Defined.
