(* ===== verification/S3Store.v ===== *)
(** * The store's transport ([internal/sink/s3.go], [xml.go])

    The five operations of [Sink.ObjectStore] as signed HTTP requests.  The
    other side is a function [send] that answers a request and changes a world
    [W]; the credential and the clock are read per request.  XML decoding, MD5
    and [time.Parse] are parameters ([StoreLibs]).

    A listing is whole or it fails: what is returned is the entries of a chain
    of pages that starts without a marker, continues with both markers of each
    truncated page, and ends with a page that is not truncated. *)
From S2P Require Import Prelude Sha256 GoStr Json Paths Ledger Config Origin Event ControlRecord Manifest Segments Restore Attest Times Signed Utf8 Credentials Minting Rekor Sink SigV4.

(** ** Response documents ([xml.go]) *)
Record listEntry : Type := MkEntry { le_Name : string; le_Key : string; le_VersionID : string; le_IsLatest : bool; le_LastModified : string; le_Size : Z }.
Record listVersionsResult : Type := MkPage { lv_IsTruncated : bool; lv_NextKeyMarker : string; lv_NextVersionIDMarker : string; lv_Entries : list listEntry }.
Record retentionResult : Type := MkRetained { rr_Mode : string; rr_RetainUntilDate : string }.

(** [xml.Unmarshal] into each document, the code that is left of an error
    document, [md5.Sum], and [time.Parse] with [RFC3339Nano] as the text of the
    time in UTC. *)
Class StoreLibs := {
  xml_page : string -> option listVersionsResult;
  xml_retention : string -> option retentionResult;
  xml_lock_enabled : string -> option string;
  xml_error_code : string -> string;
  md5_sum : string -> string;
  parse_time : string -> option string;
}.

(** ** Requests *)
Definition maxListBody : Z := Z.shiftl 1 20.
Definition maxListPages : nat := Z.to_nat 1000.
Definition contentTypeNDJSON : string := "application/x-ndjson".
Definition sigV4Service : string := "s3".

Inductive http_answer : Type :=
  | HttpFault (text : string)
  | HttpAnswer (status : Z) (header : Header) (body : result string string).
(** What [do] returns: an error, a body over the bound, or the answer. *)
Inductive s3_exchange : Type :=
  | DoFault (e : store_error)
  | BodyTooLarge (status : Z)
  | Answered (status : Z) (header : Header) (raw : string).

Definition contentMD5 `{StoreLibs} (data : string) : string := b64_encode (md5_sum data).
Definition checksumSHA256 (data : string) : string := b64_encode (sha256_sum data).

(** [t.UTC().Format(time.RFC3339)]: whole seconds. *)
Definition rfc3339_seconds (t : string) : string := FormatNano (MkTime (instant t - instant t mod 10 ^ 9) true).

Section transport.
  Context {W : Type} `{GoText, GoURL, GoLower, StoreLibs}.
  Context (base host bucket region : string).
  Context (keys : W -> result string KeyPair) (now : W -> Z) (send : request -> string -> W -> http_answer * W).

Definition objectURL (key query : string) : string :=
  base +:+ "/" +:+ uriEncode bucket +:+ (if bool_decide (key = "") then "" else "/" +:+ uriEncodePath key) +:+ (if bool_decide (query = "") then "" else "?" +:+ query).

Definition class_of (status : Z) : Z := Z.quot status 100.
Definition do (method rawURL body : string) (hdr : Header) (maxBody : Z) : W -> s3_exchange * W := fun w =>
  match keys w with
  | Err t => (DoFault (StoreFault t), w)
  | Ok kp =>
      match parse_url rawURL with
      | None => (DoFault (StoreFault ("parse " +:+ quote rawURL)), w)
      | Some u =>
          let payloadHash := sha256_hex body in
          let req := with_header (MkRequest method u hdr) "X-Amz-Content-Sha256" payloadHash in
          match send (signV4 req kp region sigV4Service (now w) payloadHash) body w with
          | (HttpFault t, w) => (DoFault (StoreFault (host +:+ ": " +:+ t)), w)
          | (HttpAnswer status h body, w) =>
              let bound := if class_of status =? 2 then maxBody else maxListBody in
              match body with
              | Err t => (DoFault (StoreFault (host +:+ ": " +:+ t)), w)
              | Ok raw => if bound <? Z.of_nat (String.length raw) then (BodyTooLarge status, w) else (Answered status h raw, w)
              end
          end
      end
  end.

Definition refusal (op : string) (status : Z) (raw : string) : store_error :=
  if class_of status =? 3 then StoreFault (host +:+ " answered a redirect (status " +:+ itoa status +:+ "); not followed")
  else if bool_decide (xml_error_code raw = "RequestTimeTooSkewed") then ErrClockSkew host
  else StatusError op status host (xml_error_code raw).
Definition tooLarge : store_error := StoreFault ("response body from " +:+ host +:+ " exceeds 1 MiB").

(** The switch every operation opens with. *)
Definition expect {A} (op : string) (ex : s3_exchange * W) (over : Z -> store_error) (refused : store_error -> result store_error A) (k : Header -> string -> result store_error A) : result store_error A * W :=
  match ex with
  | (BodyTooLarge status, w) => (Err (over status), w)
  | (DoFault e, w) => (Err e, w)
  | (Answered status h raw, w) => (if class_of status =? 2 then k h raw else refused (refusal op status raw), w)
  end.

Definition s3_putLocked (key body mode until : string) (w : W) : result store_error string * W :=
  let hdr := <["Content-Type" := [contentTypeNDJSON]]> (<["Content-Md5" := [contentMD5 body]]> (<["X-Amz-Checksum-Sha256" := [checksumSHA256 body]]>
    (<["X-Amz-Object-Lock-Mode" := [mode]]> {["X-Amz-Object-Lock-Retain-Until-Date" := [rfc3339_seconds until]]}))) in
  expect "PutObject" (do "PUT" (objectURL key "") body hdr maxListBody w) (fun _ => tooLarge) Err
    (fun h _ => Ok (hd "" (header_values h "x-amz-version-id"))).
Definition s3_get (key versionID : string) (max : Z) (w : W) : result store_error string * W :=
  expect "GetObject" (do "GET" (objectURL key (queryString [("versionId", versionID)])) "" ∅ max w)
    (fun status => if class_of status =? 2 then errObjectTooLarge else tooLarge) Err (fun _ raw => Ok raw).
(** The answer that says there is none. *)
Definition absent {A} (code : string) (none : A) (e : store_error) : result store_error A :=
  match e with
  | StatusError _ 404 _ c => if bool_decide (c = code) then Ok none else Err e
  | _ => Err e
  end.
Definition s3_retention (key versionID : string) (w : W) : result store_error lock * W :=
  expect "GetObjectRetention" (do "GET" (objectURL key (queryString [("retention", ""); ("versionId", versionID)])) "" ∅ maxListBody w) (fun _ => tooLarge)
    (absent "NoSuchObjectLockConfiguration" (MkLock "" ""))
    (fun _ raw => match xml_retention raw with
       | None => Err (StoreFault ("response from " +:+ host +:+ " is not a Retention document"))
       | Some r => match parse_time (rr_RetainUntilDate r) with
                   | None => Err (StoreFault ("response from " +:+ host +:+ " carries an unreadable RetainUntilDate"))
                   | Some until => Ok (MkLock (rr_Mode r) until)
                   end
       end).
Definition s3_lockEnabled (w : W) : result store_error bool * W :=
  expect "GetObjectLockConfiguration" (do "GET" (objectURL "" (queryString [("object-lock", "")])) "" ∅ maxListBody w) (fun _ => tooLarge)
    (absent "ObjectLockConfigurationNotFoundError" false)
    (fun _ raw => match xml_lock_enabled raw with
       | None => Err (StoreFault ("response from " +:+ host +:+ " is not an ObjectLockConfiguration document"))
       | Some enabled => Ok (bool_decide (enabled = "Enabled"))
       end).

(** The entries of a page: versions and delete markers, in document order. *)
Fixpoint page_entries (es : list listEntry) : result store_error (list objectVersion) :=
  match es with
  | [] => Ok []
  | e :: rest =>
      if negb (bool_decide (le_Name e = "Version")) && negb (bool_decide (le_Name e = "DeleteMarker")) then page_entries rest
      else
        let! modified := if bool_decide (le_LastModified e = "") then Ok ""
                         else match parse_time (le_LastModified e) with
                              | Some t => Ok t
                              | None => Err (StoreFault ("response from " +:+ host +:+ " carries an unreadable LastModified"))
                              end in
        let! more := page_entries rest in
        Ok (MkObject (le_Key e) (le_VersionID e) (le_IsLatest e) (bool_decide (le_Name e = "DeleteMarker")) (le_Size e) modified :: more)
  end.
Definition list_query (prefix keyMarker verMarker : string) : list (string * string) :=
  [("versions", "")] ++ (if bool_decide (prefix = "") then [] else [("prefix", prefix)]) ++
  (if bool_decide (keyMarker = "") then [] else [("key-marker", keyMarker); ("version-id-marker", verMarker)]).
Definition list_page (prefix keyMarker verMarker : string) (w : W) : result store_error (listVersionsResult * list objectVersion) * W :=
  expect "ListObjectVersions" (do "GET" (objectURL "" (queryString (list_query prefix keyMarker verMarker))) "" ∅ maxListBody w) (fun _ => tooLarge) Err
    (fun _ raw => match xml_page raw with
       | None => Err (StoreFault ("response from " +:+ host +:+ " is not a ListVersionsResult document"))
       | Some r => let! es := page_entries (lv_Entries r) in Ok (r, es)
       end).
(** [n] pages are left. *)
Fixpoint list_pages (n : nat) (prefix keyMarker verMarker : string) (out : list objectVersion) (w : W) : result store_error (list objectVersion) * W :=
  match n with
  | O => (Err (StoreFault "listing exceeded 1000 pages"), w)
  | S n =>
      match list_page prefix keyMarker verMarker w with
      | (Err e, w) => (Err e, w)
      | (Ok (r, es), w) =>
          if negb (lv_IsTruncated r) then (Ok (out ++ es), w)
          else if bool_decide (lv_NextKeyMarker r = "") then (Err (StoreFault ("response from " +:+ host +:+ " is truncated without a continuation marker")), w)
          else list_pages n prefix (lv_NextKeyMarker r) (lv_NextVersionIDMarker r) (out ++ es) w
      end
  end.
Definition s3_listVersions (prefix : string) (w : W) : result store_error (list objectVersion) * W := list_pages maxListPages prefix "" "" [] w.

Definition sigv4Store : ObjectStore W := {|
  putLocked := s3_putLocked; store_get := s3_get; store_retention := s3_retention; lockEnabled := s3_lockEnabled; listVersions := s3_listVersions;
|}.

(** ** What is signed is what is sent *)
Definition object_path (key : string) : string := "/" +:+ bucket +:+ (if bool_decide (key = "") then "" else "/" +:+ key).
Lemma path_slash s t : has_byte slash s = false -> uriEncodePath (s +:+ String slash t) = uriEncode s +:+ "/" +:+ uriEncodePath t.
Proof.
  intros Hs. unfold uriEncodePath. rewrite split_on_app by done. cbn [map]. pose proof (split_nonempty slash t). by destruct (split_on slash t).
Qed.
Lemma path_plain s : has_byte slash s = false -> uriEncodePath s = uriEncode s.
Proof. intros Hs. unfold uriEncodePath. pose proof (split_join slash [s] ltac:(done) ltac:(by repeat constructor)) as E. cbn [join] in E. by rewrite E. Qed.

(** The path on the wire is the canonical URI of the path it decodes to, byte
    for byte. *)
Lemma signed_path_is_sent key query : has_byte slash bucket = false ->
  objectURL key query = base +:+ uriEncodePath (object_path key) +:+ (if bool_decide (query = "") then "" else "?" +:+ query) /\
  PathUnescape (uriEncodePath (object_path key)) = Some (object_path key).
Proof.
  intros Hb. split; [|apply unescape_path]. unfold objectURL, object_path. f_equal.
  change ("/" +:+ bucket +:+ ?t) with ("" +:+ String slash (bucket +:+ t)). rewrite (path_slash "") by done. change (uriEncode "" +:+ ?t) with t. rewrite app_assoc_str. f_equal.
  case_bool_decide.
  - by rewrite app_nil_str, path_plain.
  - change ("/" +:+ key) with (String slash key). rewrite path_slash by done. by rewrite !app_assoc_str.
Qed.

(** ** A listing is whole *)
(** The pages answered from a marker on, the last not truncated. *)
Inductive page_walk (prefix : string) : string -> string -> W -> list (list objectVersion) -> W -> Prop :=
  | walk_last key ver w r es w' : list_page prefix key ver w = (Ok (r, es), w') -> lv_IsTruncated r = false -> page_walk prefix key ver w [es] w'
  | walk_more key ver w r es w1 pages w' : list_page prefix key ver w = (Ok (r, es), w1) -> lv_IsTruncated r = true -> lv_NextKeyMarker r <> "" ->
      page_walk prefix (lv_NextKeyMarker r) (lv_NextVersionIDMarker r) w1 pages w' -> page_walk prefix key ver w (es :: pages) w'.

Lemma list_pages_walk n prefix key ver out0 w out w' : list_pages n prefix key ver out0 w = (Ok out, w') <->
  exists pages, page_walk prefix key ver w pages w' /\ (length pages <= n)%nat /\ out = out0 ++ concat pages.
Proof.
  revert key ver out0 w. induction n as [|n IH]; intros key ver out0 w; cbn [list_pages].
  - split; [done|]. intros (pages & Hw & Hl & _). inversion Hw; subst; cbn in Hl; lia.
  - destruct (list_page prefix key ver w) as [[[r es]|e] w1] eqn:Ep; [|split; [done|]; intros (pages & Hw & _); inversion Hw; congruence].
    destruct (lv_IsTruncated r) eqn:Et; cbn [negb].
    + case_bool_decide as Hk; [split; [done|]; intros (pages & Hw & _); inversion Hw; congruence|]. rewrite IH. split.
      * intros (pages & Hw & Hl & ->). exists (es :: pages). split; [by eapply walk_more|]. split; [cbn; lia|]. cbn [concat]. by rewrite (assoc_L (++)).
      * intros (pages & Hw & Hl & ->). inversion Hw as [|? ? ? r' es' w2 pages' ? Ep' Et' Hk' Hw']; subst; [congruence|]. rewrite Ep in Ep'. injection Ep' as <- <- <-.
        exists pages'. split; [done|]. split; [cbn in Hl; lia|]. cbn [concat]. by rewrite (assoc_L (++)).
    + split.
      * intros [= <- <-]. exists [es]. split; [by eapply walk_last|]. split; [cbn; lia|]. cbn. by rewrite app_nil_r.
      * intros (pages & Hw & Hl & ->). inversion Hw as [? ? ? r' es' w2 Ep' Et'|]; subst; [|congruence]. rewrite Ep in Ep'. injection Ep' as <- <- <-. cbn. by rewrite app_nil_r.
Qed.

(** A listing is whole.  [listVersions] answers with a list exactly when the
    store serves a chain of at most 1000 pages that starts without a marker,
    follows both markers of every truncated page and ends with a page that is
    not truncated; the list is every version and delete marker of those pages,
    in the order served.  Anything else is an error, never a shorter list. *)
Theorem listing_is_whole (prefix : string) (w w' : W) (out : list objectVersion) :
  listVersions (ObjectStore := sigv4Store) prefix w = (Ok out, w') <-> exists pages, page_walk prefix "" "" w pages w' /\ (length pages <= 1000)%nat /\ out = concat pages.
Proof. apply (list_pages_walk maxListPages prefix "" "" []). Qed.
End transport.
