(* ===== verification/SinkCmd.v ===== *)
(** * The protected copies, judged ([cmd/agenthof/sink.go])

    The sink a posture names, and [audit verify control]'s pass over the
    protected copies, in both directions: each record's copy in the store, and
    each object in the store on the ledger.

    The store is any [ObjectStore], called in the order the code calls it, so
    that other writers act between the calls.  What the posture's file, the
    locks, the clock and a second read of the ledger answer is an argument. *)
From S2P Require Import Prelude Sha256 GoStr Json Paths Ledger Config Authz Origin Event ControlRecord Manifest Segments Restore Attest Times Signed Utf8 Credentials Minting Rekor Snapshot Vouch Signing Identity Integrity Apply AnchorCmd Sink SigV4 S3Store.

(** ** The sink a posture names *)
Section posture.
  Context `{GoText, GoURL, GoLower, LogLibs}.

Definition sinkBackendFor (retention_text : retention_error -> string) (b : IntegrityBackend) : result string (S3 * (string * string)) :=
  if bool_decide (ib_Kind b = KindS3ObjectLock) then
    match ParseRetention (ib_Retention b) with
    | Err e => Err (retention_text e)
    | Ok retention => NewS3 (ib_URL b) (ib_Region b) true retention
    end
  else Err ("sink backend kind " +:+ quote (ib_Kind b) +:+ " is not implemented").
(** None is the floor. *)
Definition sinkFor (retention_text : retention_error -> string) (inp : Integrity.Integrity) : result string (option (S3 * (string * string))) :=
  if negb (bool_decide (in_Sink inp = "worm")) then Ok None
  else let! be := sinkBackendFor retention_text (in_SinkBackend inp) in Ok (Some be).

Definition sinkCredentialRef (c : BackendCredential) : CredentialRef :=
  MkRef "integrity/sink_backend" (bc_CredentialSource c) "" (bc_ClientAuth c) "" "" "" "" (bc_TokenEnv c) (bc_ClientIDEnv c) (bc_ClientSecretEnv c) "".
Definition sinkKeys (getenv : string -> string) (c : BackendCredential) : result string KeyPair := ResolveKeyPair getenv (sinkCredentialRef c).
End posture.

(** [origin.Clean], before a text from outside reaches a terminal. *)
Definition clean `{GoText} (s : string) : string := Origin.Clean is_print s.
(** The seal's line for the protected copy. *)
Definition protectedLine `{GoText} (sink : SealSink) (rcpt : PutReceipt) : string :=
  "protected: " +:+ clean (sk_Kind sink) +:+ " " +:+ clean (sk_URL sink) +:+ " key=" +:+ clean (sk_Key sink) +:+ " version=" +:+ clean (pr_VersionID rcpt) +:+ " " +:+
  sk_Mode sink +:+ " until " +:+ rfc3339_seconds (pr_RetainUntil rcpt) +:+ (if pr_Existed rcpt then " (already confirmed)" else "").

(** ** One protected copy *)
Inductive copyState : Type := copyVerified | copyMissing | copyMismatch | copyUnderLocked | copyUnverifiable.
#[global] Instance copyState_eq_dec : EqDecision copyState.
Proof. solve_decision. Defined.
Record copyVerdict : Type := MkVerdict { cv_state : copyState; cv_verdict : string; cv_info : string; cv_deleteMarker : bool }.
Definition unverifiableCopy (cause : string) : copyVerdict := MkVerdict copyUnverifiable ("unverifiable — " +:+ cause) "" false.
Definition day : Z := 24 * 3600 * 10 ^ 9.
Definition expiringWithin : Z := 30 * day.

Section copies.
  Context {W : Type} `{ObjectStore W} `{GoText, GoLower} (text : sink_error -> string).

(** Later versions: how many differ, how many could not be read. *)
Fixpoint later_versions (key : string) (seg : Segment) (vs : list SinkVersion) (differ unread : Z) (w : W) : Z * Z * W :=
  match vs with
  | [] => (differ, unread, w)
  | nv :: rest =>
      if negb (sv_Size nv =? sg_Bytes seg) then later_versions key seg rest (differ + 1) unread w
      else match Get key (sv_ID nv) (sg_Bytes seg) w with
           | (Err _, w) => later_versions key seg rest differ (unread + 1) w
           | (Ok b, w) => later_versions key seg rest (if bool_decide (sha256_hex b = sg_SHA256 seg) then differ else differ + 1) unread w
           end
  end.

Definition lock_text (held : bool) (l : SinkRetention) : string :=
  if held then "compliance until " +:+ rfc3339_seconds (rt_RetainUntil l)
  else if bool_decide (rt_Mode l = "") then "unlocked" else ToLower (clean (rt_Mode l)) +:+ " until " +:+ rfc3339_seconds (rt_RetainUntil l).
Definition copy_info (held : bool) (recorded until now : string) : string :=
  if negb held then "unlocked — verified; the retention period ended " +:+ rfc3339_seconds recorded
  else if negb (After until now) then "unlocked — verified; the retention period ended " +:+ rfc3339_seconds until
  else if instant until - instant now <=? expiringWithin
  then "expiring — verified; retention ends in " +:+ itoa ((instant until - instant now + day - 1) / day) +:+ " days"
  else "".
(** The lock read back, judged; the copy's bytes match. *)
Definition judge_lock (seg : Segment) (block : SealSink) (now : string) (marker : bool) (oldest : SinkVersion) (newer : list SinkVersion) (l : SinkRetention) (w : W) : copyVerdict * W :=
  let id := clean (sv_ID oldest) in
  let recorded := sk_RetainUntil block in let until := rt_RetainUntil l in
  if bool_decide (rt_Mode l = "") && negb (IsZero until) then (unverifiableCopy ("the retention document for version " +:+ id +:+ " carries a date but no mode"), w)
  else if negb (bool_decide (rt_Mode l = "")) && negb (bool_decide (rt_Mode l = "COMPLIANCE")) && negb (bool_decide (rt_Mode l = "GOVERNANCE"))
  then (unverifiableCopy ("the retention document for version " +:+ id +:+ " names a mode this verifier does not know: " +:+ clean (rt_Mode l)), w)
  else
    let held := bool_decide (rt_Mode l = "COMPLIANCE") && negb (After recorded until) in
    if negb held && After recorded now then
      let cause := if bool_decide (rt_Mode l = "") then "is unlocked"
                   else if negb (bool_decide (rt_Mode l = "COMPLIANCE")) then "is " +:+ clean (rt_Mode l) +:+ " until " +:+ rfc3339_seconds until
                   else "is locked only until " +:+ rfc3339_seconds until +:+ ", before the recorded " +:+ rfc3339_seconds recorded in
      (MkVerdict copyUnderLocked ("UNDER-LOCKED — version " +:+ id +:+ " holds the bytes but " +:+ cause) "" marker, w)
    else
      let '(differ, unread, w) := later_versions (sk_Key block) seg newer 0 0 w in
      let tail := "bytes match" +:+ (if 0 <? differ then "; " +:+ itoa differ +:+ " later versions differ: written over, the protected copy stands" else "") +:+
                  (if 0 <? unread then "; " +:+ itoa unread +:+ " later versions could not be read" else "") in
      (MkVerdict copyVerified ("verified — oldest version " +:+ id +:+ " " +:+ lock_text held l +:+ " (" +:+ tail +:+ ")") (copy_info held recorded until now) marker, w).

Definition verifyCopy (seg : Segment) (block : SealSink) (now : string) (w : W) : copyVerdict * W :=
  match ListVersions (sk_Key block) w with
  | (Err e, w) => (unverifiableCopy (text e), w)
  | (Ok kv, w) =>
      match kv_Versions kv with
      | [] => (MkVerdict copyMissing "MISSING — no version exists at the key (never written, or the lock is not what the posture claims)" "" (kv_DeleteMarker kv), w)
      | oldest :: newer =>
          match Get (sk_Key block) (sv_ID oldest) (Z.min (Z.max (sv_Size oldest) (sg_Bytes seg)) maxRestoreBody) w with
          | (Err e, w) => (unverifiableCopy (text e), w)
          | (Ok body, w) =>
              let len := Z.of_nat (String.length body) in
              if negb (len =? sv_Size oldest)
              then (unverifiableCopy ("the listing and the object disagree on the size of version " +:+ clean (sv_ID oldest) +:+ " (" +:+ itoa (sv_Size oldest) +:+ " listed, " +:+ itoa len +:+ " read)"), w)
              else if negb (len =? sg_Bytes seg) || negb (bool_decide (sha256_hex body = sg_SHA256 seg))
              then (MkVerdict copyMismatch ("LOCAL MISMATCH — the oldest version " +:+ clean (sv_ID oldest) +:+
                      " at the key does not hold the local segment's bytes: the local file was altered (the seal wrote the oldest; a later matching version is not the copy); run: agenthof audit restore control --segment " +:+ itoa (sg_N seg))
                      "" (kv_DeleteMarker kv), w)
              else match GetRetention (sk_Key block) (sv_ID oldest) w with
                   | (Err e, w) => (unverifiableCopy (text e), w)
                   | (Ok l, w) => judge_lock seg block now (kv_DeleteMarker kv) oldest newer l w
                   end
          end
      end
  end.

(** ** Both directions *)
Record sinkVerdicts : Type := MkVerdicts {
  vs_copies : Z; vs_verified : Z; vs_missing : Z; vs_mismatch : Z; vs_underLocked : Z; vs_unverifiable : Z;
  vs_held : Z; vs_accounted : Z; vs_inFlight : Z; vs_unlisted : bool;
}.
Definition zeroVerdicts : sinkVerdicts := MkVerdicts 0 0 0 0 0 0 0 0 0 false.
Definition definitive (s : sinkVerdicts) : bool := (0 <? vs_missing s + vs_mismatch s + vs_underLocked s) || (vs_accounted s <? vs_held s).
Definition undecided (s : sinkVerdicts) : bool := (0 <? vs_unverifiable s) || (0 <? vs_inFlight s) || vs_unlisted s.

Definition sinkNotIndependent : string := " (sink address taken from the root being verified — not independent; pass --integrity)".
Definition sinkNoneLine : string := "protected copies: none (if this root is meant to keep protected copies — integrity.yaml sink: worm — run audit seal)".
Definition sinkOfflineLine : string := "protected copies: not checked (--offline)".

(** The copy of one segment: [be] is the sink, or why there is none. *)
Definition copy_verdict (be : result string S3) (seg : Segment) (b : SealSink) (now : string) (w : W) : copyVerdict * W :=
  match be with
  | Err cause => (unverifiableCopy cause, w)
  | Ok s =>
      if negb (bool_decide (sk_Kind b = KindS3ObjectLock)) || negb (bool_decide (sk_URL b = s3_url s))
      then (unverifiableCopy ("the record names " +:+ clean (sk_Kind b) +:+ " " +:+ clean (sk_URL b) +:+ " but the posture names " +:+ clean (s3_url s) +:+ "; pass the posture that names it"), w)
      else verifyCopy seg b now w
  end.
Definition count_copy (s : sinkVerdicts) (c : copyState) : sinkVerdicts :=
  match c with
  | copyVerified => { s with vs_copies := vs_copies s + 1; vs_verified := vs_verified s + 1 }
  | copyMissing => { s with vs_copies := vs_copies s + 1; vs_missing := vs_missing s + 1 }
  | copyMismatch => { s with vs_copies := vs_copies s + 1; vs_mismatch := vs_mismatch s + 1 }
  | copyUnderLocked => { s with vs_copies := vs_copies s + 1; vs_underLocked := vs_underLocked s + 1 }
  | copyUnverifiable => { s with vs_copies := vs_copies s + 1; vs_unverifiable := vs_unverifiable s + 1 }
  end.
Definition copy_lines (b : SealSink) (c : copyVerdict) : list string :=
  ["  protected copy: " +:+ clean (sk_Kind b) +:+ " " +:+ clean (sk_URL b) +:+ " key=" +:+ clean (sk_Key b); "      " +:+ cv_verdict c] ++
  (if cv_deleteMarker c then ["      key has a delete marker; the locked versions stand"] else []) ++
  (if bool_decide (cv_info c = "") then [] else ["      " +:+ cv_info c]).

(** Chain first: the counts, the ordinals found altered, the lines. *)
Record chain_pass : Type := MkChainPass { cp_verdicts : sinkVerdicts; cp_altered : list Z; cp_lines : list string }.
Fixpoint chain_first (be : result string S3) (worm : bool) (now : string) (segs : list Segment) (p : chain_pass) (w : W) : chain_pass * W :=
  match segs with
  | [] => (p, w)
  | seg :: rest =>
      match sg_Sink seg with
      | None => chain_first be worm now rest (MkChainPass (cp_verdicts p) (cp_altered p) (cp_lines p ++ if worm then ["  protected copy: none (sealed before sink: worm)"] else [])) w
      | Some b =>
          let '(c, w) := copy_verdict be seg b now w in
          let altered := match cv_state c with copyMismatch => cp_altered p ++ [sg_N seg] | _ => cp_altered p end in
          chain_first be worm now rest (MkChainPass (count_copy (cp_verdicts p) (cv_state c)) altered (cp_lines p ++ copy_lines b c)) w
      end
  end.

(** Bucket first: one key the store holds. *)
Definition segment_at (v : View) (n : Z) : option Segment := if (1 <=? n) && (n <=? Z.of_nat (length (v_Sealed v))) then v_Sealed v !! Z.to_nat (n - 1) else None.
Definition not_accounted (key : string) (n : Z) : string :=
  "  sink: key " +:+ key +:+ " is not accounted for by this ledger's local segments — segment " +:+ itoa n +:+ " missing or replaced locally; run: agenthof audit restore control --segment " +:+ itoa n.
Definition judge_key (prefix : string) (v : View) (altered : list Z) (fresh : result string View) (kv : KeyVersions) (s : sinkVerdicts) : sinkVerdicts * list string :=
  match kv_Versions kv with
  | [] => (s, [])
  | _ =>
      let key := clean (kv_Key kv) in
      match cut_prefix prefix (kv_Key kv) with
      | None => (s, ["  sink: key " +:+ key +:+ " is not under this ledger's prefix"])
      | Some name =>
          match sinkSegmentKeyRE name with
          | None => (s, ["  sink: key " +:+ key +:+ " under this ledger's prefix is not a segment key"])
          | Some n =>
              match segment_at v n with
              | Some seg =>
                  if is_Some_b (sg_Sink seg) && negb (bool_decide (n ∈ altered)) then ({ s with vs_held := vs_held s + 1; vs_accounted := vs_accounted s + 1 }, [])
                  else ({ s with vs_held := vs_held s + 1 }, [not_accounted key n])
              | None =>
                  match fresh with
                  | Err e => ({ s with vs_inFlight := vs_inFlight s + 1 },
                              ["  sink: key " +:+ key +:+ " is segment " +:+ itoa n +:+ ", past this verification's view; the ledger could not be re-read: " +:+ e +:+ "; re-run"])
                  | Ok fv =>
                      if is_Some_b (segment_at fv n)
                      then ({ s with vs_inFlight := vs_inFlight s + 1 }, ["  sink: key " +:+ key +:+ " is segment " +:+ itoa n +:+ ", sealed during this verification; re-run"])
                      else if bool_decide (v_State fv = StateSealedNotRotated) && (n =? RotatingSegment fv)
                      then (s, ["  sink: key " +:+ key +:+ " is segment " +:+ itoa n +:+ ", whose rotation did not complete; run: agenthof audit seal"])
                      else ({ s with vs_held := vs_held s + 1 }, [not_accounted key n])
                  end
              end
          end
      end
  end.
Fixpoint judge_keys (prefix : string) (v : View) (altered : list Z) (fresh : result string View) (held : list KeyVersions) (s : sinkVerdicts) (lines : list string) : sinkVerdicts * list string :=
  match held with
  | [] => (s, lines)
  | kv :: rest => let '(s, more) := judge_key prefix v altered fresh kv s in judge_keys prefix v altered fresh rest s (lines ++ more)
  end.
(** The identity a ledger is listed under: the manifest's, else its genesis'. *)
Definition listed_id (v : View) : result string string :=
  if negb (bool_decide (v_LogID v = "")) then Ok (v_LogID v) else match GenesisLogID (v_Records v) with Some id => Ok id | None => Err "the genesis record names no log id" end.
Definition bucket_first (be : result string S3) (v : View) (altered : list Z) (fresh : result string View) (s : sinkVerdicts) (w : W) : sinkVerdicts * list string * string * W :=
  match be with
  | Err cause => ({ s with vs_unlisted := true }, [], cause, w)
  | Ok be =>
      match listed_id v with
      | Err cause => ({ s with vs_unlisted := true }, [], cause, w)
      | Ok id =>
          match ListPrefix (Prefix be id) w with
          | (Err e, w) => ({ s with vs_unlisted := true }, [], text e, w)
          | (Ok held, w) => let '(s, lines) := judge_keys (Prefix be id) v altered fresh held s [] in (s, lines, "", w)
          end
      end
  end.

Definition summary_line (s : sinkVerdicts) (cause : string) (note : bool) : string :=
  "protected copies: " +:+ itoa (vs_copies s) +:+ " (" +:+ itoa (vs_verified s) +:+ " verified, " +:+ itoa (vs_missing s) +:+ " missing, " +:+ itoa (vs_mismatch s) +:+ " mismatch, " +:+
  itoa (vs_underLocked s) +:+ " under-locked, " +:+ itoa (vs_unverifiable s) +:+ " unverifiable); " +:+
  (if vs_unlisted s then "sink not listed — " +:+ cause
   else "sink holds " +:+ itoa (vs_held s) +:+ " objects for this ledger, " +:+ itoa (vs_accounted s) +:+ " accounted for" +:+
        (if 0 <? vs_inFlight s then ", " +:+ itoa (vs_inFlight s) +:+ " sealed during this verification — re-run" else "")) +:+
  (if note then sinkNotIndependent else "").

(** [posture]: the posture read, or why it could not be; [build]: the sink it
    names; [fresh]: the ledger read again. *)
Definition verifySink (independent : bool) (posture : result string Integrity.Integrity) (build : Integrity.Integrity -> result string S3) (v : View) (offline : bool)
    (now : string) (fresh : result string View) (w : W) : sinkVerdicts * list string * W :=
  if offline then (zeroVerdicts, [sinkOfflineLine], w)
  else
    let blocks := List.filter (fun seg => is_Some_b (sg_Sink seg)) (v_Sealed v) in
    let worm := match posture with Ok inp => bool_decide (in_Sink inp = "worm") | Err _ => false end in
    if is_ok posture && negb worm && bool_decide (length blocks = 0%nat) then (zeroVerdicts, [sinkNoneLine], w)
    else
      let be := match posture with
                | Err cause => Err cause
                | Ok inp => if worm then build inp else Err "no sink credential configured"
                end in
      let '(p, w) := chain_first be worm now (v_Sealed v) (MkChainPass zeroVerdicts [] []) w in
      let '(s, lines, cause, w) := bucket_first be v (cp_altered p) fresh (cp_verdicts p) w in
      (s, cp_lines p ++ lines ++ [summary_line s cause (worm && negb independent)], w).
End copies.

(** ** What a verdict means *)
Definition holds (seg : Segment) (data : string) : Prop := Z.of_nat (String.length data) = sg_Bytes seg /\ sha256_hex data = sg_SHA256 seg.
Definition locked_to (l : lock) (date : string) : Prop := lk_Mode l = "COMPLIANCE" /\ instant date <= instant (lk_RetainUntil l).

Lemma listed_none b key es : lists b key es -> kv_Versions (gather es (MkKeyVersions key [] false)) = [] -> oldest b key = None.
Proof.
  intros Hl. rewrite gather_versions, app_nil_r. cbn [kv_Key]. specialize (Hl key (has_prefix_refl key)).
  apply (filter_Forall2 _ (fun e => ov_DeleteMarker e = false) (fun v => st_Marker v = false)) in Hl; [|by intros ? ? [? ->]].
  unfold oldest. intros E. set (l := filter _ (at_key key es)) in *. clearbody l. apply map_eq_nil in E. apply (f_equal (@rev _)) in E. rewrite rev_involutive in E. cbn in E. subst l.
  apply Forall2_nil_inv_l in Hl. by rewrite Hl.
Qed.

Section judged.
  Context {W : Type} `{LockedBucket W} `{GoText, GoLower} (text : sink_error -> string).

Lemma keyVersions_steps key w r w' : keyVersions key w = (r, w') -> bucket_steps (view w) (view w').
Proof.
  unfold keyVersions, io_bind, wrapped. destruct (listVersions key w) as [[es|e] w1] eqn:E; intros [= <- <-]; destruct (list_law _ _ _ _ E) as (b & ? & ? & _); by etrans.
Qed.
Lemma Get_spec key id max w r w' : Get key id max w = (r, w') ->
  exists b, bucket_steps (view w) b /\ bucket_steps b (view w') /\ forall body, r = Ok body -> exists v, held_at b key id v /\ st_Data v = body.
Proof.
  unfold Get, wrapped. destruct (store_get key id max w) as [[x|e] w1] eqn:E; intros [= <- <-]; destruct (get_law _ _ _ _ _ _ E) as (b & ? & ? & Hb); exists b; (split_and!; [done..|]).
  - intros body [= <-]. by apply Hb.
  - done.
Qed.
Lemma GetRetention_spec key id w r w' : GetRetention key id w = (r, w') ->
  exists b, bucket_steps (view w) b /\ bucket_steps b (view w') /\ forall l, r = Ok l -> exists v, held_at b key id v /\ l = MkRetention (lk_Mode (st_Lock v)) (lk_RetainUntil (st_Lock v)).
Proof.
  unfold GetRetention, io_bind, wrapped. destruct (store_retention key id w) as [[x|e] w1] eqn:E; intros [= <- <-]; destruct (retention_law _ _ _ _ _ E) as (b & ? & ? & Hb); exists b; (split_and!; [done..|]).
  - intros l [= <-]. destruct (Hb _ eq_refl) as (v & ? & <-). by exists v.
  - done.
Qed.
Lemma later_versions_steps key seg vs differ unread w d u w' : later_versions key seg vs differ unread w = (d, u, w') -> bucket_steps (view w) (view w').
Proof.
  revert differ unread w. induction vs as [|nv vs IH]; intros differ unread w; cbn [later_versions]; [by intros [= <- <- <-]|]. destruct (negb _); [apply IH|].
  destruct (Get _ _ _ _) as [[b|e] w1] eqn:E; apply Get_spec in E as (x & ? & ? & _); intros Hl%IH; by repeat (etrans; [done|]).
Qed.

(** What each verdict stands on, at a moment of the check. *)
Definition verdict_fact (during : bucket -> Prop) (seg : Segment) (block : SealSink) (now : string) (c : copyState) : Prop :=
  match c with
  | copyMissing => exists b, during b /\ oldest b (sk_Key block) = None
  | copyMismatch => exists b v, during b /\ oldest b (sk_Key block) = Some v /\ ~ holds seg (st_Data v)
  | copyUnderLocked => exists b v, during b /\ oldest b (sk_Key block) = Some v /\ holds seg (st_Data v) /\ ~ locked_to (st_Lock v) (sk_RetainUntil block) /\ After (sk_RetainUntil block) now = true
  | copyVerified => exists b v, during b /\ oldest b (sk_Key block) = Some v /\ holds seg (st_Data v) /\ (locked_to (st_Lock v) (sk_RetainUntil block) \/ After (sk_RetainUntil block) now = false)
  | copyUnverifiable => True
  end.
Definition during (w w' : W) (b : bucket) : Prop := bucket_steps (view w) b /\ bucket_steps b (view w').

Lemma judge_lock_spec seg block now marker old newer l w c w' : judge_lock seg block now marker old newer l w = (c, w') ->
  bucket_steps (view w) (view w') /\
  match cv_state c with
  | copyVerified => locked_to (MkLock (rt_Mode l) (rt_RetainUntil l)) (sk_RetainUntil block) \/ After (sk_RetainUntil block) now = false
  | copyUnderLocked => ~ locked_to (MkLock (rt_Mode l) (rt_RetainUntil l)) (sk_RetainUntil block) /\ After (sk_RetainUntil block) now = true
  | copyUnverifiable => True
  | _ => False
  end.
Proof.
  unfold judge_lock. destruct (_ && negb (IsZero _)); [by intros [= <- <-]|]. destruct (_ && _ && _); [by intros [= <- <-]|].
  assert (Hh : bool_decide (rt_Mode l = "COMPLIANCE") && negb (After (sk_RetainUntil block) (rt_RetainUntil l)) = true <-> locked_to (MkLock (rt_Mode l) (rt_RetainUntil l)) (sk_RetainUntil block)).
  { rewrite andb_true_iff, bool_decide_eq_true, negb_true_iff. unfold locked_to, After. cbn. rewrite Z.ltb_ge. done. }
  destruct (bool_decide (rt_Mode l = "COMPLIANCE") && _) eqn:Eh; cbn [negb andb].
  - destruct (later_versions _ _ _ _ _ _) as [[d u] w1] eqn:E. apply later_versions_steps in E. intros [= <- <-]. split; [done|]. left. by apply Hh.
  - destruct (After (sk_RetainUntil block) now) eqn:Ea.
    + intros [= <- <-]. split; [done|]. cbn [cv_state]. split; [|done]. intros Hl%Hh. congruence.
    + destruct (later_versions _ _ _ _ _ _) as [[d u] w1] eqn:E. apply later_versions_steps in E. intros [= <- <-]. split; [done|]. by right.
Qed.

Lemma verifyCopy_fact seg block now w c w' : bucket_ok (view w) -> verifyCopy text seg block now w = (c, w') ->
  bucket_steps (view w) (view w') /\ verdict_fact (during w w') seg block now (cv_state c).
Proof.
  intros Hok. unfold verifyCopy, ListVersions. destruct (keyVersions (sk_Key block) w) as [[kv|e] w1] eqn:El; [|apply keyVersions_steps in El; by intros [= <- <-]].
  apply keyVersions_spec in El as (b1 & es & Hs1 & Hs1' & Hl & ->). pose proof (steps_ok _ _ Hs1 Hok) as Hb1. destruct (kv_Versions _) as [|old newer] eqn:Ev.
  { intros [= <- <-]. split; [by etrans|]. exists b1. split; [by split|]. by eapply listed_none. }
  destruct (listed_oldest _ _ _ _ _ Hl Ev) as (v1 & Hv1 & Hi1 & Hz1). destruct (Get _ _ _ w1) as [[body|e] w2] eqn:Eg; apply Get_spec in Eg as (b2 & Hs2 & Hs2' & Hb2).
  2: { intros [= <- <-]. split; [by repeat (etrans; [done|])|done]. }
  destruct (Hb2 _ eq_refl) as (v2 & Hv2 & Hd2). rewrite <- Hi1 in Hv2. assert (Hs12 : bucket_steps b1 b2) by (by etrans).
  destruct (held_is_oldest _ b2 _ _ v2 Hb1 Hs12 Hv1 Hv2) as [Ho2 (Ei2 & _ & _)]. assert (Hw2 : bucket_steps (view w) b2) by (by etrans).
  destruct (negb (_ =? sv_Size old)); [intros [= <- <-]; split; [by etrans|done]|].
  destruct (negb (_ =? sg_Bytes seg) || _) eqn:Em.
  { intros [= <- <-]. split; [by etrans|]. exists b2, v2. split; [by split|]. split; [done|]. rewrite Hd2. intros [Hlen Hsha]. rewrite Hlen, Z.eqb_refl, bool_decide_true in Em by done. done. }
  apply orb_false_iff in Em as [Elen%negb_false_iff%Z.eqb_eq Esha%negb_false_iff%bool_decide_eq_true]. assert (Hh : holds seg (st_Data v2)) by (rewrite Hd2; by split).
  destruct (GetRetention _ _ w2) as [[l|e] w3] eqn:Er; apply GetRetention_spec in Er as (b3 & Hs3 & Hs3' & Hb3).
  2: { intros [= <- <-]. split; [by repeat (etrans; [done|])|done]. }
  destruct (Hb3 _ eq_refl) as (v3 & Hv3 & ->). rewrite <- Hi1, <- Ei2 in Hv3. assert (Hs23 : bucket_steps b2 b3) by (by etrans).
  destruct (held_is_oldest _ b3 _ _ v3 (steps_ok _ _ Hs12 Hb1) Hs23 Ho2 Hv3) as [Ho3 (_ & Ed3 & _)].
  intros Hj%judge_lock_spec. destruct Hj as [Hs4 Hj]. assert (Hend : bucket_steps b3 (view w')) by (by etrans). split; [etrans; [exact Hw2|]; etrans; [exact Hs23|exact Hend]|].
  assert (Hdur : during w w' b3) by (split; [etrans; [exact Hw2|exact Hs23]|done]). cbn [rt_Mode rt_RetainUntil] in Hj. rewrite <- Ed3 in Hh.
  destruct (cv_state c); cbn [verdict_fact]; [|done|done| |done]; exists b3, v3.
  - split_and!; [exact Hdur|exact Ho3|exact Hh|exact Hj].
  - split_and!; [exact Hdur|exact Ho3|exact Hh|exact (proj1 Hj)|exact (proj2 Hj)].
Qed.

(** Every verdict is a fact.  A copy is called missing, altered, under-locked or
    verified only when, at a moment during the check, the store held what the
    verdict says: no version at the key; an oldest version that is not the
    segment; an oldest version that is the segment but not locked to the
    recorded date, which has not passed; an oldest version that is the segment
    and locked to that date, or the date has passed.  Errors, refusals and
    answers that do not fit lead to no verdict, whatever other writers do
    between the calls. *)
Theorem verdicts_are_facts (seg : Segment) (block : SealSink) (now : string) (w w' : W) (c : copyVerdict)
    (Hok : bucket_ok (view w)) (Hv : verifyCopy text seg block now w = (c, w')) :
  verdict_fact (during w w') seg block now (cv_state c).
Proof. by apply verifyCopy_fact in Hv as [_ Hf]. Qed.

(** ** What was confirmed is not condemned *)

(** A segment's copy stands in the bucket, until at least [until]. *)
Definition protected (b : bucket) (seg : Segment) (block : SealSink) (until : Z) : Prop :=
  exists id data, stands b (sk_Key block) id data until /\ holds seg data /\ instant (sk_RetainUntil block) <= until.

Lemma protected_stays b b' seg block until : bucket_ok b -> bucket_steps b b' -> bk_now b' < until -> protected b seg block until -> protected b' seg block until.
Proof. intros Hb Hs Hn (id & data & Hst & Hh & Hu). exists id, data. split_and!; [by eapply stands_stays|done..]. Qed.

Lemma protected_verdict seg block now until w c w' : bucket_ok (view w) -> protected (view w) seg block until -> bk_now (view w') < until ->
  verifyCopy text seg block now w = (c, w') -> bucket_steps (view w) (view w') /\ (cv_state c = copyVerified \/ cv_state c = copyUnverifiable).
Proof.
  intros Hok Hp Hnow Hv. destruct (verifyCopy_fact _ _ _ _ _ _ Hok Hv) as [Hs Hf]. split; [done|].
  assert (Hat : forall b, during w w' b -> protected b seg block until).
  { intros b [Hs1 Hs2]. eapply protected_stays; [exact Hok|exact Hs1| |exact Hp]. destruct (steps_grow _ _ Hs2). lia. }
  destruct (cv_state c); cbn [verdict_fact] in Hf; [by left| | | |by right]; exfalso.
  - destruct Hf as (b & Hb & Ho). destruct (Hat b Hb) as (id & data & (v & Hv' & _) & _). congruence.
  - destruct Hf as (b & v & Hb & Ho & Hne). destruct (Hat b Hb) as (id & data & (v' & Hv' & _ & Hd & _) & Hh & _). rewrite Ho in Hv'. injection Hv' as ->. by rewrite Hd in Hne.
  - destruct Hf as (b & v & Hb & Ho & _ & Hne & _). destruct (Hat b Hb) as (id & data & (v' & Hv' & _ & _ & Hm & Hu) & _ & Hle). rewrite Ho in Hv'. injection Hv' as ->. apply Hne. split; [done|lia].
Qed.

Lemma copy_verdict_steps be seg b now w c w' : bucket_ok (view w) -> copy_verdict text be seg b now w = (c, w') -> bucket_steps (view w) (view w').
Proof. intros Hok. unfold copy_verdict. destruct be as [s|]; [|by intros [= <- <-]]. destruct (_ || _); [by intros [= <- <-]|]. intros Hv. by apply verifyCopy_fact in Hv as [? _]. Qed.
Lemma chain_first_steps be worm now segs p w p' w' : bucket_ok (view w) -> chain_first text be worm now segs p w = (p', w') -> bucket_steps (view w) (view w').
Proof.
  revert p w. induction segs as [|seg segs IH]; intros p w Hok; cbn [chain_first]; [by intros [= <- <-]|]. destruct (sg_Sink seg) as [b|]; [|by apply IH].
  destruct (copy_verdict _ _ _ _ _ _) as [c w1] eqn:E. apply copy_verdict_steps in E; [|done]. intros Hc. etrans; [exact E|]. eapply IH; [by eapply steps_ok|exact Hc].
Qed.

(** No copy is missing, altered or under-locked. *)
Record spared (s : sinkVerdicts) : Prop := {
  sp_missing : vs_missing s = 0; sp_mismatch : vs_mismatch s = 0; sp_under : vs_underLocked s = 0; sp_copies : vs_copies s = vs_verified s + vs_unverifiable s;
}.
Lemma spared_counts s c : spared s -> c = copyVerified \/ c = copyUnverifiable -> spared (count_copy s c).
Proof. destruct s. intros [? ? ? ?] [-> | ->]; cbn in *; split; cbn; unfold constant; lia. Qed.

Lemma chain_first_spared be worm now until segs p w p' w' : bucket_ok (view w) ->
  (forall seg b, seg ∈ segs -> sg_Sink seg = Some b -> protected (view w) seg b until) -> bk_now (view w') < until ->
  chain_first text be worm now segs p w = (p', w') -> spared (cp_verdicts p) -> spared (cp_verdicts p') /\ cp_altered p' = cp_altered p.
Proof.
  revert p w. induction segs as [|seg segs IH]; intros p w Hok Hall Hnow; cbn [chain_first]; [by intros [= <- <-]|]. destruct (sg_Sink seg) as [b|] eqn:Eb.
  2: { intros Hc Hs. apply IH in Hc as [? Ha]; [by split|done| |done|done]. intros ? ? ?. apply Hall. by right. }
  destruct (copy_verdict _ _ _ _ _ _) as [c w1] eqn:E. intros Hc Hs. pose proof (copy_verdict_steps _ _ _ _ _ _ _ Hok E) as Hs1. pose proof (steps_ok _ _ Hs1 Hok) as Hok1.
  assert (Hn1 : bk_now (view w1) < until) by (destruct (steps_grow _ _ (chain_first_steps _ _ _ _ _ _ _ _ Hok1 Hc)); lia).
  assert (Hst : cv_state c = copyVerified \/ cv_state c = copyUnverifiable).
  { unfold copy_verdict in E. destruct be as [s|]; [|injection E as <- <-; by right]. destruct (_ || _); [injection E as <- <-; by right|].
    by apply (protected_verdict seg b now until w c w1 Hok) in E as [_ ?]; [|apply Hall; [by left|done]|]. }
  apply IH in Hc as [? Ha]; [|done| |done|cbn [cp_verdicts]; by apply spared_counts].
  - split; [done|]. rewrite Ha. cbn [cp_altered]. by destruct Hst as [-> | ->].
  - intros seg' b' Hin Hb'. eapply protected_stays; [exact Hok|exact Hs1|lia|]. apply Hall; [by right|done].
Qed.

(** The listing changes only its own counts. *)
Lemma judge_key_spared prefix v altered fresh kv s s' lines : judge_key prefix v altered fresh kv s = (s', lines) -> spared s -> spared s' /\ vs_unlisted s' = vs_unlisted s.
Proof. unfold judge_key. destruct s. intros Hj [? ? ? ?]. cbn in *. case_in Hj; (split; [split; cbn; unfold constant; lia|done]). Qed.
Lemma judge_keys_spared prefix v altered fresh held s lines s' lines' : judge_keys prefix v altered fresh held s lines = (s', lines') -> spared s -> spared s' /\ vs_unlisted s' = vs_unlisted s.
Proof.
  revert s lines. induction held as [|kv held IH]; intros s lines; cbn [judge_keys]; [by intros [= <- <-]|]. destruct (judge_key _ _ _ _ _ _) as [s1 l1] eqn:E. intros Hj Hs.
  apply judge_key_spared in E as [Hs1 E1]; [|done]. rewrite <- E1. by eapply IH.
Qed.
Lemma bucket_first_steps be v altered fresh s w s' lines cause w' : bucket_first text be v altered fresh s w = (s', lines, cause, w') -> bucket_steps (view w) (view w').
Proof.
  unfold bucket_first. destruct be as [x|]; [|by intros [= <- <- <- <-]]. destruct (listed_id v) as [id|]; [|by intros [= <- <- <- <-]]. unfold ListPrefix, io_bind, wrapped.
  destruct (listVersions _ _) as [[es|e] w1] eqn:E; destruct (list_law _ _ _ _ E) as (b & Hs1 & Hs2 & _); cbn [ret]; [destruct (judge_keys _ _ _ _ _ _ _) as [s1 l1]|];
    intros [= <- <- <- <-]; by etrans.
Qed.
Lemma bucket_first_spared be v altered fresh s w s' lines cause w' : bucket_first text be v altered fresh s w = (s', lines, cause, w') -> spared s -> spared s'.
Proof.
  unfold bucket_first. intros Hb Hs. assert (Hun : spared { s with vs_unlisted := true }) by (destruct s, Hs; by split). destruct be as [x|]; [|by injection Hb as <- <- <- <-].
  destruct (listed_id v) as [id|]; [|by injection Hb as <- <- <- <-]. destruct (ListPrefix _ _) as [[held|e] w1]; [|by injection Hb as <- <- <- <-].
  destruct (judge_keys _ _ _ _ _ _ _) as [s1 l1] eqn:Ej. injection Hb as <- <- <- <-. by apply judge_keys_spared in Ej as [? _].
Qed.

(** A protected set is not condemned.  While the locks of the copies of every
    sealed segment last, [audit verify control] finds none of them missing,
    altered or under-locked, whatever other writers do in the bucket and
    whichever calls fail: each is verified or has no verdict, and the pass can
    only be definitive for an object that the local set does not account
    for. *)
Theorem protected_set_is_not_condemned (independent : bool) (posture : result string Integrity.Integrity) (build : Integrity.Integrity -> result string S3) (v : View) (offline : bool)
    (now : string) (fresh : result string View) (until : Z) (w w' : W) (s : sinkVerdicts) (lines : list string)
    (Hok : bucket_ok (view w)) (Hall : forall seg b, seg ∈ v_Sealed v -> sg_Sink seg = Some b -> protected (view w) seg b until)
    (Hv : verifySink text independent posture build v offline now fresh w = (s, lines, w')) (Hnow : bk_now (view w') < until) :
  spared s /\ definitive s = (vs_accounted s <? vs_held s).
Proof.
  assert (Hs : spared s).
  { unfold verifySink in Hv. destruct offline; [injection Hv as <- <- <-; by split|]. destruct (_ && _ && _); [injection Hv as <- <- <-; by split|].
    destruct (chain_first _ _ _ _ _ _ _) as [p w1] eqn:Ec. destruct (bucket_first _ _ _ _ _ _ _) as [[[s1 l1] c1] w2] eqn:Eb. injection Hv as -> <- ->.
    pose proof (chain_first_steps _ _ _ _ _ _ _ _ Hok Ec) as Hs1.
    enough (spared (cp_verdicts p)) as Hp by (by eapply bucket_first_spared).
    pose proof (bucket_first_steps _ _ _ _ _ _ _ _ _ _ Eb) as Hs2.
    eapply chain_first_spared in Ec as [? _]; [done|exact Hok|exact Hall| |by split]. destruct (steps_grow _ _ Hs2). lia. }
  split; [done|]. unfold definitive. by rewrite (sp_missing _ Hs), (sp_mismatch _ Hs), (sp_under _ Hs).
Qed.
End judged.
