(* ===== verification/SealCmd.v ===== *)
(** * Sealing ([audit seal]: [cmd/agenthof/seal.go])

    The command that closes the control ledger's active segment, or completes a
    rotation that did not finish: its flags' grammar, the posture's sink, the
    guards of a control command, the threshold, the seal.  Diagnostics for
    operators are left out but for the lines that say what is owed.

    Only an authorized caller seals; and a segment whose seal succeeds with a
    sink has its protected copy in the store, where it stands while its lock
    lasts. *)
From S2P Require Import Prelude Sha256 GoStr Json Paths Ledger Config Authz Origin Event ControlRecord Manifest Segments SegmentOps ControlLedger Restore Attest Times Signed Utf8 Snapshot Vouch Signing Identity Integrity Apply ApplySound AnchorCmd Rekor Render Credentials Minting Sink S3Store SinkCmd.

(** [regexp] [^([0-9]+)([kKmMgG])?$] and the unit's shift. *)
Definition size_unit (c : ascii) : option Z :=
  match lower c with "k"%char => Some 10 | "m"%char => Some 20 | "g"%char => Some 30 | _ => None end.
Definition size_parts (s : string) : string * Z :=
  match rev_str s with
  | String c r => match size_unit c with Some shift => (rev_str r, shift) | None => (s, 0) end
  | EmptyString => (s, 0)
  end.
Definition parseSize (s : string) : option Z :=
  let '(m, shift) := size_parts s in
  if negb (digits m) then None
  else match parse_int64 m with
       | None => None
       | Some n => if (0 <? shift) && (Z.shiftr (2 ^ 63 - 1) shift <? n) then None else Some (Z.shiftl n shift)
       end.

Record seal_cmd_env : Type := MkSealCmd { sc_control : control_env; sc_attempts : disk -> attempt * attempt; sc_seal : seal_env; sc_stat : option Z }.

Section command.
  Context `{Ed25519} (active : string) (text : fault -> string) `{GoText, GoURL} `{ConfigYaml}.

Definition seal_event (who : runInvoker) (env : control_env) (outcome : string) (reason : ptr Reason) : CEvent :=
  { zeroCEvent with
    ce_Action := "seal"; ce_Outcome := outcome; ce_Reason := reason; ce_Invoker := ri_inv who; ce_AssertedAs := ri_assertedAs who; ce_Witness := ce_witness env }.
(** [record]: a refused completion is printed, not recorded. *)
Definition seal_record (completing : bool) (who : runInvoker) (env : control_env) (r : croot) (outcome : string) (reason : Reason) : Z * list string * croot :=
  if completing then (1, [], r)
  else match append_event active r env (seal_event who env outcome (Some reason)) with
       | (Err _, r) => (1, [], r)
       | (Ok head, r) => (1, [head_line head], r)
       end.

(** The authorization read under the exclusive lock, held to the end. *)
Definition seal_authorized (completing : bool) (who : runInvoker) (env : control_env) (r : croot) : option (Z * list string * croot) :=
  match ce_lock env with
  | Err ErrLockHeld => Some (1, [], r)
  | Err e => Some (seal_record completing who env r "error" (io_reason text (FaultLock e)))
  | Ok _ =>
      match InstalledRoles (rt_store r) with
      | Err e => Some (seal_record completing who env r "error" (io_reason text (FaultConfig e)))
      | Ok None => Some (seal_record completing who env r "refused" (MkReason "not_authorized" msgNothingInstalled))
      | Ok (Some (roles, hash)) =>
          match vouchInstalled active (ce_read env) (rt_ledger r) hash with
          | (_, _, Some refusal) =>
              if Transient refusal || negb (bool_decide (vr_Kind refusal = verifyNotOnRecord)) then Some (1, [], r)
              else Some (seal_record completing who env r "refused" (vouchRefused text refusal))
          | (_, _, None) =>
              if negb (ControlAllows roles (ri_inv who) "seal") then Some (seal_record completing who env r "refused" (NotAuthorized "seal")) else None
          end
      end
  end.

(** [printSealFailure]: what is owed. *)
Definition seal_failure (e : control_error) : list string :=
  match e with
  | ErrNothingToSeal => ["audit seal: the active segment is empty; nothing to seal"]
  | ESealStep SealStepSink _ => ["audit seal: sealed; protected copy NOT confirmed — rotation NOT completed; re-run: agenthof audit seal"]
  | ESealStep SealStepManifest _ | ESealStep SealStepSwap _ => ["audit seal: sealed; rotation NOT completed — re-run: agenthof audit seal"]
  | _ => []
  end.
Definition sealed_lines (res : SealResult) : list string :=
  (if sr_Completed res then ["completed rotation of segment " +:+ itoa (sr_Segment res)] else []) ++
  match sr_Sink res, sr_Receipt res with Some b, Some rcpt => [protectedLine b rcpt] | _, _ => [] end ++
  ["sealed: segment " +:+ itoa (sr_Segment res) +:+ " seq=" +:+ itoa (sr_FirstSeq res) +:+ ".." +:+ itoa (sr_HeadSeq res) +:+ " sha256=" +:+ sr_SHA256 res +:+ " (" +:+ Base (sr_Path res) +:+ ")";
   head_line (MkHead (sr_HeadHash res) (sr_HeadSeq res))].
(** The seal, or the completion, of an authorized caller. *)
Definition seal_now (completing : bool) (who : runInvoker) (sink : option SinkWriter) (env : seal_cmd_env) (r : croot) : result control_error SealResult * disk :=
  let '(t1, t2) := sc_attempts env (rt_ledger r) in
  if completing then CompleteSeal active t1 t2 (sv_rotate (sc_seal env)) sink
  else SealActive active t1 t2 (sc_seal env) (seal_event who (sc_control env) "success" None) sink.
Definition seal_finish (completing : bool) (who : runInvoker) (sink : option SinkWriter) (env : seal_cmd_env) (r : croot) : Z * list string * croot :=
  match seal_now completing who sink env r with
  | (Err e, d) => (1, seal_failure e, with_ledger r d)
  | (Ok res, d) => (0, sealed_lines res, with_ledger r d)
  end.

(** [ifLarger]: the flag, when it is given; [sink]: what the posture's sink
    builds to. *)
Definition cmdAuditSeal (who : runInvoker) (ifLarger : option string) (posture : result integrity_error Integrity.Integrity)
    (sink : Integrity.Integrity -> result string (option SinkWriter)) (env : seal_cmd_env) (r : croot) : Z * list string * croot :=
  if ri_usageErr who then (2, [], r)
  else match (match ifLarger with Some s => match parseSize s with Some n => Some (Some n) | None => None end | None => Some None end) with
  | None => (2, [], r)
  | Some threshold =>
      match posture with
      | Err _ => (2, [], r)
      | Ok inp =>
          match sink inp with
          | Err _ => (2, [], r)
          | Ok sink =>
              let '(werr, r) := open_ledger active r (sc_control env) in
              match (match werr with None => Some false | Some ErrSealed => Some true | Some _ => None end) with
              | None => (1, [], r)
              | Some completing =>
                  if ri_refused who then seal_record completing who (sc_control env) r "refused" token_refused
                  else match seal_authorized completing who (sc_control env) r with
                  | Some stop => stop
                  | None =>
                      match (if completing then None else threshold) with
                      | None => seal_finish completing who sink env r
                      | Some n =>
                          match sc_stat env with
                          | None => (1, [], r)
                          | Some size =>
                              if size <=? n
                              then (0, ["audit seal: active segment is " +:+ itoa size +:+ " bytes, not larger than " +:+ default "" ifLarger +:+ "; nothing sealed"], r)
                              else seal_finish completing who sink env r
                          end
                      end
                  end
              end
          end
      end
  end.
End command.

Example sizes : map parseSize ["0"; "12k"; "3G"; "007m"; ""; "k"; "1kk"; "-1"; "9007199254740992k"; "9007199254740991k"] =
  [Some 0; Some 12288; Some 3221225472; Some 7340032; None; None; None; None; None; Some 9223372036854774784].
Proof. vm_compute. reflexivity. Qed.

(** A threshold is a size: no suffix carries it past 63 bits. *)
Lemma parse_size_bounds s n : parseSize s = Some n -> 0 <= n <= max_int64.
Proof.
  unfold parseSize. destruct (size_parts s) as [m shift] eqn:Es. assert (Hsh : shift = 0 \/ shift = 10 \/ shift = 20 \/ shift = 30).
  { unfold size_parts in Es. destruct (rev_str s) as [|c r]; [injection Es as _ <-; by left|]. destruct (size_unit c) as [k|] eqn:Ek; [|injection Es as _ <-; by left].
    injection Es as _ <-. unfold size_unit in Ek. case_in Ek; auto. }
  destruct (digits m) eqn:Ed; [|done]. cbn [negb]. destruct (parse_int64 m) as [k|] eqn:Ep; [|done].
  assert (Hk : 0 <= k <= max_int64).
  { unfold digits in Ed. apply andb_prop in Ed as [_ Ed]. unfold parse_int64 in Ep. destruct m as [|c m]; [done|]. cbn [all_chars] in Ed. apply andb_prop in Ed as [Hc _].
    assert (Hp : match parse_N (String c m) with Some n => if Z.of_N n <=? max_int64 then Some (Z.of_N n) else None | None => None end = Some k).
    { destruct c as [[] [] [] [] [] [] [] []]; try exact Ep; discriminate Hc. }
    destruct (parse_N (String c m)); [|done]. destruct (Z.leb_spec (Z.of_N n0) max_int64); [|done]. injection Hp as <-. lia. }
  destruct ((0 <? shift) && _) eqn:Eo; [done|]. intros [= <-]. unfold max_int64 in *.
  destruct Hsh as [->|[->|[->| ->]]]; rewrite Z.shiftl_mul_pow2 by lia; [lia|..]; apply andb_false_iff in Eo as [Eo|Eo]; try done; apply Z.ltb_ge in Eo;
    rewrite Z.shiftr_div_pow2 in Eo by lia; (pose proof (Z.mul_div_le (2 ^ 63 - 1) (2 ^ 10) ltac:(lia)); pose proof (Z.mul_div_le (2 ^ 63 - 1) (2 ^ 20) ltac:(lia)); pose proof (Z.mul_div_le (2 ^ 63 - 1) (2 ^ 30) ltac:(lia)); lia).
Qed.

Section guarded.
  Context `{Ed25519} (active : string) (text : fault -> string) `{GoText, GoURL} `{ConfigYaml}.

(** The installed configuration, hashed and vouched for, grants the invoker
    the seal. *)
Definition may_seal (who : runInvoker) (env : control_env) (r : croot) : Prop :=
  exists roles hash records last, InstalledRoles (rt_store r) = Ok (Some (roles, hash)) /\ HashDir (is_dirs (rt_store r) !! SnapshotDir hash) = Ok hash /\
    on_record active (ce_read env) (rt_ledger (open_ledger active r env).2) hash records last /\ ControlAllows roles (ri_inv who) "seal" = true /\ ri_refused who = false.

Lemma seal_record_stays completing who env r outcome reason c l r' : seal_record active completing who env r outcome reason = (c, l, r') -> rt_store r' = rt_store r /\ c = 1.
Proof.
  unfold seal_record. destruct completing; [by intros [= <- <- <-]|]. destruct (append_event active r env _) as [[head|e] r1] eqn:E; pose proof (append_event_store _ _ _ _ _ _ E) as [Hs _]; by intros [= <- <- <-].
Qed.
Lemma seal_stops completing who env r c l r' : seal_authorized active text completing who env r = Some (c, l, r') -> rt_store r' = rt_store r /\ c = 1.
Proof.
  unfold seal_authorized. destruct (ce_lock env) as [[]|e].
  - destruct (InstalledRoles (rt_store r)) as [[[roles hash]|]|e]; [|intros [= E]; by apply seal_record_stays in E..].
    destruct (vouchInstalled _ _ _ _) as [[rs last] [refusal|]].
    + destruct (_ || _); [by intros [= <- <- <-]|]. intros [= E]. by apply seal_record_stays in E.
    + destruct (ControlAllows _ _ _); [done|]. intros [= E]. by apply seal_record_stays in E.
  - destruct e; first [by intros [= <- <- <-]|intros [= E]; by apply seal_record_stays in E].
Qed.
Lemma seal_passes completing who env r : seal_authorized active text completing who env r = None ->
  exists roles hash records last, InstalledRoles (rt_store r) = Ok (Some (roles, hash)) /\ HashDir (is_dirs (rt_store r) !! SnapshotDir hash) = Ok hash /\
    on_record active (ce_read env) (rt_ledger r) hash records last /\ ControlAllows roles (ri_inv who) "seal" = true.
Proof.
  unfold seal_authorized. destruct (ce_lock env) as [[]|e]; [|by destruct e]. destruct (InstalledRoles (rt_store r)) as [[[roles hash]|]|e] eqn:Ei; [|done..].
  destruct (vouchInstalled _ _ _ _) as [[rs last] [refusal|]] eqn:Ev; [by destruct (_ || _)|]. destruct (ControlAllows _ _ _) eqn:Ea; [|done]. intros _.
  apply vouch_passes in Ev as (records & last' & _ & Hon). exists roles, hash, records, last'. split_and!; try done. by apply roles_verified in Ei as [? _].
Qed.

(** A stop before the seal: the root as it was, opened, or with one record that
    is no success. *)
Definition stopped (who : runInvoker) (env : control_env) (r r' : croot) : Prop :=
  let r1 := (open_ledger active r env).2 in
  r' = r \/ r' = r1 \/ exists outcome reason, outcome <> "success" /\ r' = (append_event active r1 env (seal_event who env outcome (Some reason))).2.

Lemma seal_record_stopped completing who env r outcome reason c l r' : outcome <> "success" ->
  seal_record active completing who env (open_ledger active r env).2 outcome reason = (c, l, r') -> stopped who env r r' /\ c <> 0.
Proof.
  intros Ho. unfold seal_record, stopped. destruct completing; [intros [= <- <- <-]; split; [by right; left|done]|].
  destruct (append_event _ _ _ _) as [[head|e] r2] eqn:E; intros [= <- <- <-]; (split; [|done]); right; right; exists outcome, reason; by rewrite E.
Qed.
Lemma seal_stops_stopped completing who env r c l r' : seal_authorized active text completing who env (open_ledger active r env).2 = Some (c, l, r') -> stopped who env r r' /\ c <> 0.
Proof.
  unfold seal_authorized. destruct (ce_lock env) as [[]|e].
  - destruct (InstalledRoles _) as [[[roles hash]|]|e]; [|intros [= E]; by apply seal_record_stopped in E..].
    destruct (vouchInstalled _ _ _ _) as [[rs last] [refusal|]].
    + destruct (_ || _); [intros [= <- <- <-]; split; [by right; left|done]|]. intros [= E]. by apply seal_record_stopped in E.
    + destruct (ControlAllows _ _ _); [done|]. intros [= E]. by apply seal_record_stopped in E.
  - destruct e; first [intros [= <- <- <-]; split; [by right; left|done]|intros [= E]; by apply seal_record_stopped in E].
Qed.

(** The seal, or its completion, ran. *)
Definition sealing_ran (who : runInvoker) (posture : result integrity_error Integrity.Integrity) (sink : Integrity.Integrity -> result string (option SinkWriter)) (env : seal_cmd_env)
    (r : croot) (code : Z) (lines : list string) (r' : croot) : Prop :=
  exists inp s (completing : bool), posture = Ok inp /\ sink inp = Ok s /\ (open_ledger active r (sc_control env)).1 = (if completing then Some ErrSealed else None) /\
    seal_finish active completing who s env (open_ledger active r (sc_control env)).2 = (code, lines, r').

Lemma seal_outcomes who ifLarger posture sink env r code lines r' : cmdAuditSeal active text who ifLarger posture sink env r = (code, lines, r') ->
  stopped who (sc_control env) r r' /\ code <> 0 \/
  may_seal who (sc_control env) r /\
  (sealing_ran who posture sink env r code lines r' \/
   stopped who (sc_control env) r r' /\ is_Some_b ifLarger = true).
Proof.
  unfold cmdAuditSeal. destruct (ri_usageErr who); [intros [= <- <- <-]; left; split; [by left|done]|].
  destruct (match ifLarger with Some _ => _ | None => _ end) as [threshold|] eqn:Et; [|intros [= <- <- <-]; left; split; [by left|done]].
  destruct posture as [inp|]; [|intros [= <- <- <-]; left; split; [by left|done]]. destruct (sink inp) as [s|] eqn:Es; [|intros [= <- <- <-]; left; split; [by left|done]].
  unfold may_seal, sealing_ran. destruct (open_ledger active r (sc_control env)) as [werr r1] eqn:Eo. cbn [fst snd]. pose proof (open_ledger_store _ _ _ _ _ Eo) as Hr1.
  assert (Hs1 : rt_store r1 = rt_store r) by (by rewrite Hr1). assert (Hr1' : r1 = (open_ledger active r (sc_control env)).2) by (by rewrite Eo).
  destruct (match werr with Some _ => _ | None => _ end) as [completing|] eqn:Ew; [|intros [= <- <- <-]; left; split; [right; left; done|done]].
  destruct (ri_refused who); [rewrite Hr1'; intros E; left; by apply seal_record_stopped in E|].
  destruct (seal_authorized _ _ _ _ _ _) as [[[c l] r2]|] eqn:Ea; [rewrite Hr1' in Ea; intros [= <- <- <-]; left; by apply seal_stops_stopped in Ea|].
  apply seal_passes in Ea as (roles & hash & records & last & Hi & Hh & Hon & Hc). rewrite Hs1 in Hi, Hh. intros Hrun. right. split; [by exists roles, hash, records, last|].
  assert (Hw : werr = if completing then Some ErrSealed else None) by (destruct werr as [[]|]; by simplify_eq).
  destruct (if completing then None else threshold) as [n|] eqn:En.
  - assert (is_Some_b ifLarger = true) by (destruct completing; [done|]; subst threshold; by destruct ifLarger).
    destruct (sc_stat env) as [size|]; [|injection Hrun as <- <- <-; right; split; [right; left; done|done]].
    destruct (size <=? n); [injection Hrun as <- <- <-; right; split; [right; left; done|done]|]. left. by exists inp, s, completing.
  - left. by exists inp, s, completing.
Qed.

Lemma stopped_store who env r r' : stopped who env r r' -> rt_store r' = rt_store r.
Proof.
  assert (Hr1 : rt_store (open_ledger active r env).2 = rt_store r) by (destruct (open_ledger active r env) as [w r1] eqn:E; pose proof (open_ledger_store _ _ _ _ _ E) as E1; cbn; by rewrite E1).
  intros [->|[->|(o & reason & _ & ->)]]; [done|done|]. destruct (append_event _ _ _ _) as [x r2] eqn:E. pose proof (append_event_store _ _ _ _ _ _ E) as [E2 _]. cbn. congruence.
Qed.

(** Only an authorized caller seals.  The command never touches the installed
    configuration; and unless the snapshot that hashes to the pointer and is the
    ledger's last install grants the invoker the seal, the ledger is at most
    opened and given one record that is no success, and the exit code is not
    0. *)
Theorem seal_is_guarded (who : runInvoker) (ifLarger : option string) (posture : result integrity_error Integrity.Integrity) (sink : Integrity.Integrity -> result string (option SinkWriter))
    (env : seal_cmd_env) (r r' : croot) (code : Z) (lines : list string) (Hc : cmdAuditSeal active text who ifLarger posture sink env r = (code, lines, r')) :
  rt_store r' = rt_store r /\ (stopped who (sc_control env) r r' /\ code <> 0 \/ may_seal who (sc_control env) r).
Proof.
  destruct (seal_outcomes _ _ _ _ _ _ _ _ _ Hc) as [[Hs Hn]|[Hm [Hran|[Hs _]]]].
  - split; [by eapply stopped_store|by left].
  - split; [|by right]. destruct Hran as (inp & s & completing & _ & _ & _ & Hf). unfold seal_finish in Hf.
    assert (Hr1 : rt_store (open_ledger active r (sc_control env)).2 = rt_store r) by (apply (stopped_store who (sc_control env)); by right; left).
    destruct (seal_now _ _ _ _ _ _) as [[res|e] d]; injection Hf as _ _ <-; by rewrite <- Hr1.
  - split; [by eapply stopped_store|by right].
Qed.
End guarded.

(** ** What is sealed is protected *)

(** A rotation that names a protected copy has the store's receipt for the
    segment's bytes. *)
Definition receipted (sink : option SinkWriter) (res : SealResult) : Prop :=
  forall block, sr_Sink res = Some block -> exists sw rcpt bytes, sink = Some sw /\ sr_Receipt res = Some rcpt /\ sw_Put sw block bytes (sr_SHA256 res) = Ok rcpt.

Lemma protect_receipted sink logID n rec whole bytes block rcpt : protect sink None logID n rec whole bytes = Ok (Some (block, rcpt)) ->
  exists sw, sink = Some sw /\ sw_Put sw block bytes whole = Ok rcpt.
Proof.
  unfold protect. destruct (match r_Seal rec with Some s => sl_Sink s | None => None end) as [b|]; [|done]. destruct sink as [sw|]; [|done].
  destruct (_ || _); [done|]. destruct (negb _); [done|]. destruct (sw_Put sw b bytes whole) as [r|] eqn:E; [|done]. intros [= <- <-]. by exists sw.
Qed.
Lemma finish_swap_fields active d n seg sunk o res d' : finish_swap active d n seg sunk o = (Ok res, d') -> res = seal_result n seg sunk.
Proof. unfold finish_swap. destruct (swapActive active d o) as [[e|] d1]; [done|]. by intros [= <- <-]. Qed.
Lemma rotate_receipted active d ino v sink env res d' : rotate active d ino v sink None env = (Ok res, d') -> receipted sink res.
Proof.
  unfold rotate. assert (Hc : forall x, match commit_manifest active d ino v sink None env with (Err e, d) => (Err e, d) | (Ok (seg, sunk), d) => finish_swap active d (sg_N seg) seg sunk (re_swap env) end = x ->
    x = (Ok res, d') -> receipted sink res).
  { intros x <-. unfold commit_manifest. destruct (linkSegment _ _ _ _ _) as [[e|] d1]; [done|]. destruct (decodeRecord _) as [rec|]; [|done]. destruct (r_Seal rec) as [s|]; [|done].
    destruct (segmentDigests _) as [whole size]. destruct (manifestLogID v) as [id|]; [|done]. destruct (protect _ _ _ _ _ _ _) as [sunk|] eqn:Ep; [|done].
    destruct (writeManifest _ _ _ _) as [[e|] d2]; [done|]. intros Hf%finish_swap_fields block Hb. subst res. unfold seal_result in *. cbn [sr_Sink sr_Receipt sr_SHA256 sg_SHA256] in *.
    destruct sunk as [[b rcpt]|]; [|done]. injection Hb as ->. destruct (protect_receipted _ _ _ _ _ _ _ _ Ep) as (sw & -> & Hput). by eexists sw, rcpt, _. }
  destruct (v_State v); intros Hr; [by eapply Hc|by eapply Hc|]. apply finish_swap_fields in Hr as ->. by intros block.
Qed.
Section receipts.
  Context `{GoText, GoURL}.

Lemma seal_receipted active t1 t2 env e sink res d' : SealActive active t1 t2 env e sink = (Ok res, d') -> receipted sink res.
Proof.
  unfold SealActive. destruct (_ || _ || _); [done|]. destruct (openActive active t1 t2) as [[[[c ino] v]|err] d]; [|done]. destruct (count c =? 0); [done|].
  destruct (manifestLogID v) as [id|]; [|done]. cbv zeta. destruct (match sink, match sink with Some sw => _ | None => _ end with Some _, Some _ => _ | _, _ => None end); [done|].
  destruct (linkSegment _ _ _ _ _) as [[e'|] d1]; [done|]. destruct (checkSealShape _); [done|]. destruct (appendOn _ _ _ _) as [[[head line]|err] c']; [|done]. apply rotate_receipted.
Qed.
Lemma complete_receipted active t1 t2 env sink res d' : CompleteSeal active t1 t2 env sink = (Ok res, d') -> receipted sink res.
Proof.
  unfold CompleteSeal, completeSealWith. destruct (lockActive _ _ _ _) as [|v e d|ino st v d]; [done|done|]. case_bool_decide; [done|].
  destruct (rotate _ _ _ _ _ _ _) as [[r|e] d1] eqn:E; [|done]. apply rotate_receipted in E. intros [= <- <-]. exact E.
Qed.
End receipts.

Section protected.
  Context `{Ed25519} (active : string) (ftext : fault -> string) `{GoText, GoURL} `{ConfigYaml} {W : Type} `{LockedBucket W} (text : sink_error -> string).

(** What is sealed is protected.  When [audit seal] exits 0 with a sink, and no
    threshold was given, the seal or the completion succeeded for an authorized
    caller; and if it names a protected copy, the store confirmed it: from then
    on, until the date the store reported, which is no earlier than the one on
    the record, the oldest version at the copy's key holds bytes with the
    segment's digest under a compliance lock, whatever other writers do. *)
Theorem sealed_is_protected (who : runInvoker) (posture : result integrity_error Integrity.Integrity) (s : S3) (now : string) (wp w : W) (env : seal_cmd_env) (r r' : croot) (lines : list string)
    (Hok : bucket_ok (view w)) (Hc : cmdAuditSeal active ftext who None posture (fun _ => Ok (Some (sink_writer text s now wp w))) env r = (0, lines, r')) :
  may_seal active who (sc_control env) r /\
  exists completing res, seal_now active completing who (Some (sink_writer text s now wp w)) env (open_ledger active r (sc_control env)).2 = (Ok res, rt_ledger r') /\ lines = sealed_lines res /\
    forall block, sr_Sink res = Some block -> exists rcpt data w', sr_Receipt res = Some rcpt /\ Put s now block data (sr_SHA256 res) w = (Ok rcpt, w') /\ sr_SHA256 res = sha256_hex data /\
      instant (sk_RetainUntil block) <= instant (pr_RetainUntil rcpt) /\
      forall b, bucket_steps (view w') b -> bk_now b < instant (pr_RetainUntil rcpt) -> stands b (sk_Key block) (pr_VersionID rcpt) data (instant (pr_RetainUntil rcpt)).
Proof.
  destruct (seal_outcomes _ _ _ _ _ _ _ _ _ _ _ Hc) as [[_ Hn]|[Hm [Hran|[_ Hf]]]]; [done| |done]. split; [done|].
  destruct Hran as (inp & sink & completing & _ & [= <-] & _ & Hfin). unfold seal_finish in Hfin. exists completing. destruct (seal_now _ _ _ _ _ _) as [[res|e] d] eqn:En; [|done].
  injection Hfin as <- <-. exists res. split; [done|]. split; [done|]. intros block Hb.
  assert (Hr : receipted (Some (sink_writer text s now wp w)) res).
  { unfold seal_now in En. destruct (sc_attempts env _) as [t1 t2]. destruct completing; [exact (complete_receipted _ _ _ _ _ _ _ En)|exact (seal_receipted _ _ _ _ _ _ _ _ En)]. }
  destruct (Hr block Hb) as (sw & rcpt & data & [= <-] & Hrc & Hput). cbn [sw_Put sink_writer] in Hput. unfold answered in Hput. destruct (Put s now block data (sr_SHA256 res) w) as [[x|e] w'] eqn:Ep; [|done].
  injection Hput as ->. exists rcpt, data, w'. destruct (put_confirmed _ _ _ _ _ _ _ _ Hok Ep) as (_ & Hsha & Hle & Hst). by split_and!.
Qed.
End protected.
